(* ===== verification/_CoqProject ===== *)
-Q . S2P
Prelude.v
Decimal.v
Codec.v
Seastar.v
Queue.v
Budget.v
Grpc.v
Yaml.v
Configuration.v
ConfigurationTheorems.v
Schema.v
Records.v
FileTypes.v
Redis.v
Sessions.v
Ids.v
Verification.v
Program.v
Process.v
Protocol.v
StateService.v
GateProtocol.v
Options.v
FdWatch.v
Smtp.v
SmtpTheorems.v
MysqlConnection.v
MysqlConnectionTheorems.v
RedisAccess.v
RedisAccessTheorems.v
RedisConnection.v
RedisConnectionTheorems.v
DnsResolver.v
DnsTheorems.v
GrpcEngine.v
GrpcLedger.v
GrpcEngineTheorems.v
GrpcDrain.v
FileStorage.v
FileTheorems.v
FileService.v
FileServiceTheorems.v
Handlers.v
MysqlStore.v
Atomicity.v
Wp.v
StoreSpec.v
GroupSpec.v
StoreInvariant.v
StoreProps.v
Demo.v
StoreTheorems.v
Pagination.v
Accounts.v
AccountTheorems.v
GateHandlers.v
GateTheorems.v
GateRuns.v
Framing.v
GatewayDriver.v
GatewayDriverTheorems.v
Topology.v
TopologyTheorems.v
Deployment.v
GatewayConnection.v
ConnectionTheorems.v
ConnectionRuns.v
GatewayService.v
GatewayServiceTheorems.v
MessageTransport.v
TransportTheorems.v
MessageService.v
ServiceTheorems.v
ServiceRuns.v
GatewayRuns.v
Lifecycle.v
ShardsStop.v
Processes.v
FileClient.v
FileClientRuns.v
