(* ===== verification/Prelude.v ===== *)
(** * IMM instant-messaging server: a verification development

    The development models the C++ server under src/server and proves what
    its clients and its parts rely on. It is a shallow embedding: data are
    records and inductive types, functions are functions, coroutines are
    functions on a state, programs of events or step relations, and errors
    are values.

    ** The program

    Clients speak a framed protobuf protocol over TCP with a Gateway
    (src/server/gateway), which owns their connections. A Gateway sends every
    business request as a command over a gRPC stream to a Message node
    (src/server/message), which owns conversations, friendships and groups in
    MySQL and answers on the stream; what a request means for others it
    forwards to the Gateways of the recipients. Which connection speaks for a
    device is a lease in Redis. Accounts, verification codes and chat tokens
    belong to the Gate (src/server/gate), an HTTP service; files to the File
    service (src/server/file); the State service (src/server/state) names
    Gateways and Message nodes. Every service puts its I/O behind a bounded
    queue; the reactor's adapters for MySQL, Redis, DNS and gRPC and the
    configuration of a node are shared (src/server/common). A process runs a
    service on every shard; its main.cc starts and stops them.

    ** Files

    Foundations.
    - Prelude: machine integers, bytes, the effect monad [Eff W A]
      ([W -> outcome A * W]), exceptions, its weakest preconditions, tactics.
    - Decimal: numbers as text. Program: coroutines as trees of events
      ([program E]) with their runs ([runs]), "whatever the environment
      answers" ([always], [guarded]) and their interpretation by effects
      ([interp]). Process: the events of the Message service.
    - Seastar, Grpc, Yaml: what the code uses of these libraries, as classes
      with laws, and instances that satisfy them.

    Common code.
    - Codec (Const.h, TcpMessageCodec.h and the messages of the .proto files),
      Queue (IoQueue.h), Budget (message/io/budget.hh, gateway/io/budget.hh),
      Options (the options.cc of the services, GrpcSecurity.h, types.hh),
      Configuration, ConfigurationTheorems (configuration.cc).
    - The reactor's adapters: FdWatch (fd_watch.hh), MysqlConnection and
      MysqlConnectionTheorems (mysql_connection.cc), RedisConnection and
      RedisConnectionTheorems (redis_connection.cc), DnsResolver and
      DnsTheorems (dns_resolver.cc), GrpcEngine, GrpcLedger,
      GrpcEngineTheorems and GrpcDrain (grpc_engine.cc).
    - RedisAccess, RedisAccessTheorems: how the three drivers find and use the
      master of Redis. Smtp, SmtpTheorems: gate/io/smtp_connection.cc.

    Stores.
    - Schema: tables, statements, transactions, connection faults. Records:
      the operations of message/io/mysql_operations.hh. MysqlStore:
      message/io/mysql_store.cc, one [execute_...] per overload. Atomicity,
      Wp, StoreSpec, GroupSpec, StoreInvariant, StoreProps, StoreTheorems,
      Pagination: their theory. Demo: a database the witnesses use.
    - Accounts, AccountTheorems: the SQL of gate/io/driver.cc and
      gateway/io/driver.cc.
    - Redis: the keyspace and its commands. Sessions (leases), Ids
      (identifiers), Verification (codes, chat tokens): the scripts of the
      three drivers, with their theorems.
    - FileTypes, FileStorage, FileTheorems: file/protocol.cc, file/storage.cc.

    Services.
    - Message: Protocol (message/api, gateway/api), Handlers
      (message/transaction/{messages,friends,groups,files}.cc),
      MessageService and ServiceTheorems, ServiceRuns
      (message/transaction/service.cc), MessageTransport and
      TransportTheorems (message/transport/server.cc).
    - Gateway: Framing, GatewayConnection, ConnectionTheorems, ConnectionRuns
      (gateway/transport), GatewayDriver, GatewayDriverTheorems
      (gateway/io/driver.cc, message_link.cc), Topology, TopologyTheorems
      (grpc_control and stop of gateway/io/driver.cc), GatewayService,
      GatewayServiceTheorems, GatewayRuns (connection.cc and
      transaction/service.cc).
    - Gate: GateProtocol (api), GateHandlers, GateTheorems, GateRuns
      (transaction, main.cc).
    - File: FileService, FileServiceTheorems (file/service.cc).
      FileClient, FileClientRuns: its calls in
      message/io/driver.cc, and a request from the Message service to the disk.
    - State: StateService (state, gate/io/grpc_client.cc). Deployment: from
      the configuration document to the streams of a Gateway.

    Processes.
    - Lifecycle, ShardsStop: start, abort, stop and close of
      the five services with their drivers, transactions and transports, and
      grpc_server.cc. A shard is the set of what it has; a coroutine is a list
      of instructions that interleaves with everything else on the shard.
    - Processes: the main.cc of the services and stop_signal.hh.

    ** What the theorems show

    - The store: its invariant over all interleavings and faults, refinement
      of every transaction to an effect, exactly-once sends, persistence,
      group authority, complete pagination.
    - Requests: one answer each (Message, Gateway, Gate), who they act for,
      that success means stored, that pushes follow success and reach the
      connection they are meant for, rate limits.
    - Step systems: the queue ends and answers once; the budgets are
      conserved; commands, streams and connections keep their invariants over
      every interleaving; frames arrive as sent; an object's requests are
      serialised by its lock.
    - Redis: leases supersede each other, ids are unique, codes are used once
      and guesses limited.
    - Adapters: a query returns the rows of its answer; a promise of a Redis
      connection, a lookup and a callback of gRPC are settled once; what is
      outstanding is counted, and the shutdown waits for all of it and ends;
      commands go to a master that the Sentinels name; a mail counts as sent
      when the server accepted it, and credentials travel over TLS.
    - Whole services: sign-up then sign-in then login; a login that bound its
      connection is reachable for the Message service; files come back as
      they were sent; what the Message service records as ready is stored.
    - Deployment and processes: the configuration of a node is what the
      documents (IMM_CONFIG, IMM_EXTRA_CONFIG) say of it, and is refused when
      they do not fit, the streams of a Gateway are those to the Message
      nodes it names; wherever start() ends, every shard stops without a
      failing assertion, with nothing left and without waiting for ever; a
      process gives back what it took, in order, whichever call of its start or
      its service fails, but for scheduling groups created before a failed one.

    ** How failure and concurrency are modelled

    A fault oracle is an input: a list that says of each statement, command
    or system call whether it works, fails before or after it took effect, or
    loses the connection. Theorems quantify over it. Operations of MySQL and
    of Redis are atomic as MySQL's transactions and Redis' single thread make
    them: a store operation runs as a whole against the committed database
    (the row locks it takes serialise those that conflict), and an
    interleaving is a sequence of operations of anyone. Coroutines of one
    reactor interleave where they suspend; a step of a step relation is what
    runs between two suspensions. GatewayRuns follows one login through its
    operations under any faults, with no other operation in between.

    ** Bounds and fuel

    Pagination.pull_all has one pull per message; Ids.generate takes the list
    of clock readings it may need; Queue.reject_pending the length of the
    queue; FileStorage.hash_from the size of the file and download_all more
    than its length; the readers of frames the length of their input;
    StateService.first_active the number of Gateways;
    MysqlConnection.fetch_rows one more than the rows of a result. The theorems
    show that this is enough. ShardsStop.verify, which checks the
    instructions of a coroutine, fails when its 200 instructions do not do.
    Integers keep their width where it matters (ids, 64-bit positions,
    counters, ports). AUTO_INCREMENT values and stream tokens are
    below 2^63 and 2^64; Lua's numbers are exact below 10^14.

    ** Abstractions

    Collation is a weight function on names; the lengths of VARCHAR and
    BINARY columns show as statement faults. Redis' clock has milliseconds,
    and TTL answers in rounded seconds, as Redis does; SMEMBERS answers in any
    order. Connection ids are UUIDs and so have no
    colon. A driver that is stopping shows as a failing connection. An open
    seastar::file is its path. The storage operation of a file request is one
    step, since its lock excludes the requests of the same object and other
    objects have other paths. A connection's write loop is cut where it
    awaits the socket; a frame that arrives on a link is handled before the
    next is read. Libraries that call back (hiredis, c-ares, gRPC) are lists
    of activities that keep what their documentation promises; what others do
    during a suspension is an input of it. A shard's things that Lifecycle
    counts are those the other files model in detail; an operation there makes
    a bounded number of calls, and what waits for another process ends by
    itself only after the driver gave it up. A socket of grpc_engine.cc that
    was shut down wakes what waits for it; others may stay silent for ever. yaml-cpp's nodes are values, since the code
    changes clones only. Logging and the shares of scheduling groups do not
    change what the code does and are left out.

    ** Not modelled

    Logging (Logger.h), which nothing depends on; what is inside the libraries:
    Seastar with its HTTP server, gRPC, protobuf and the generated code,
    hiredis, c-ares, the MariaDB connector, OpenSSL, yaml-cpp; the socket
    options and the text of addresses in grpc_engine.cc; declarations in
    headers whose bodies are elsewhere; benchmarks and unit tests, which drive
    the services and are no part of them.
*)

From stdpp Require Export base gmap strings list fin_maps sets sorting pretty.
From Hammer Require Export Tactics.

#[global] Set Default Goal Selector "!".
#[global] Set Warnings "-clear-no-such-hyp".

(** ** Machine integers

    A C++ [int64_t]/[long] is a [Z]; the conversions below are written where
    the source changes the type of a value or where an operation wraps. *)

Definition two64 : Z := 18446744073709551616.
Definition two63 : Z := 9223372036854775808.
Definition two31 : Z := 2147483648.
Definition u64 (z : Z) : Z := z mod two64.
Definition i64 (z : Z) : Z := (z + two63) mod two64 - two63.
Definition is_i64 (z : Z) : bool := bool_decide (- two63 ≤ z < two63)%Z.
Definition is_u64 (z : Z) : bool := bool_decide (0 ≤ z < two64)%Z.

Lemma u64_range z : (0 ≤ u64 z < two64)%Z.
Proof. apply Z.mod_pos_bound. done. Qed.

Lemma i64_range z : (- two63 ≤ i64 z < two63)%Z.
Proof.
  unfold i64. pose proof (Z.mod_pos_bound (z + two63) two64 eq_refl).
  change two64 with (two63 + two63)%Z in *. lia.
Qed.

Lemma u64_id z : (0 ≤ z < two64)%Z → u64 z = z.
Proof. intros. by apply Z.mod_small. Qed.

Lemma i64_id z : (- two63 ≤ z < two63)%Z → i64 z = z.
Proof.
  intros. unfold i64. rewrite Z.mod_small; [lia|].
  change two64 with (two63 + two63)%Z. lia.
Qed.

Lemma i64_u64 z : (- two63 ≤ z < two63)%Z → i64 (u64 z) = z.
Proof.
  intros. unfold i64, u64. rewrite Zplus_mod_idemp_l. by apply i64_id.
Qed.

(** ** Strings and bytes *)

Abbreviation bytes := (list Ascii.ascii).
Notation "'bytes_of' s" := (String.list_ascii_of_string s) (at level 10, s at level 9).
Notation "'text_of' b" := (String.string_of_list_ascii b) (at level 10, b at level 9).

(** [std::isspace] and [std::tolower] in the "C" locale. *)
Definition isspace (c : Ascii.ascii) : bool :=
  let n := Ascii.N_of_ascii c in ((n =? 32) || (9 <=? n) && (n <=? 13))%N.
Definition tolower (c : Ascii.ascii) : Ascii.ascii :=
  let n := Ascii.N_of_ascii c in
  if ((65 <=? n) && (n <=? 90))%N then Ascii.ascii_of_N (n + 32) else c.

Lemma bytes_length (s : string) : length (bytes_of s) = String.length s.
Proof. induction s as [|c s IH]; simpl; [done|]. by rewrite IH. Qed.

Lemma bytes_app (s t : string) : bytes_of (s +:+ t) = bytes_of s ++ bytes_of t.
Proof. induction s as [|c s IH]; [done|]. by apply (f_equal (cons c)) in IH. Qed.

Lemma text_length (b : bytes) : String.length (text_of b) = length b.
Proof. induction b as [|c b IH]; simpl; [done|]. by rewrite IH. Qed.

Lemma string_length_app (s t : string) : String.length (s +:+ t) = String.length s + String.length t.
Proof. induction s as [|c s IH]; simpl; [done|]. by rewrite IH. Qed.

Lemma string_app_assoc (s t u : string) : s +:+ (t +:+ u) = (s +:+ t) +:+ u.
Proof. induction s as [|c s IH]; [done|]. by apply (f_equal (String c)) in IH. Qed.

Lemma string_app_inj_r (s s' t : string) : s +:+ t = s' +:+ t → s = s'.
Proof.
  revert s'. induction s as [|c s IH]; intros [|c' s'] E; [done| | |].
  - apply (f_equal String.length) in E. rewrite !string_length_app in E. simpl in E. lia.
  - apply (f_equal String.length) in E. rewrite !string_length_app in E. simpl in E. lia.
  - change (String c (s +:+ t) = String c' (s' +:+ t)) in E. simplify_eq. f_equal. auto.
Qed.

Fixpoint last_char (s : string) : option Ascii.ascii :=
  match s with "" => None | String c "" => Some c | String _ s => last_char s end.

Lemma last_char_app s c t : last_char (s +:+ String c t) = last_char (String c t).
Proof.
  induction s as [|d s IH]; [done|]. change ((String d s) +:+ String c t) with (String d (s +:+ String c t)).
  rewrite <- IH. by destruct s.
Qed.

(** ** Effects

    Fallible, stateful code runs in [Eff W]: a computation on a world [W] that
    either returns or throws; the world reached so far is kept in both cases. *)

Inductive exn :=
  | Overloaded
  | Stopped
  | RuntimeError (what : string)
  | InvalidArgument (what : string)
  | LogicError (what : string).

#[global] Instance exn_eq_dec : EqDecision exn.
Proof. solve_decision. Defined.

(** The text of an exception ([std::exception::what]). *)
Definition what (e : exn) : string :=
  match e with
  | Overloaded => "I/O queue full"
  | Stopped => "I/O service stopping"
  | RuntimeError w | InvalidArgument w | LogicError w => w
  end.

Inductive outcome (A : Type) :=
  | Ok (a : A)
  | Throw (e : exn).
Arguments Ok {_} _.
Arguments Throw {_} _.

Definition Eff (W A : Type) : Type := W → outcome A * W.

#[global] Instance eff_ret {W} : MRet (Eff W) := λ A a w, (Ok a, w).
#[global] Instance eff_bind {W} : MBind (Eff W) := λ A B k m w,
  match m w with
  | (Ok a, w') => k a w'
  | (Throw e, w') => (Throw e, w')
  end.

Definition throw {W A} (e : exn) : Eff W A := λ w, (Throw e, w).

Definition catch {W A} (m : Eff W A) (h : exn → Eff W A) : Eff W A := λ w,
  match m w with
  | (Ok a, w') => (Ok a, w')
  | (Throw e, w') => h e w'
  end.

Definition get {W} : Eff W W := λ w, (Ok w, w).
Definition put {W} (w' : W) : Eff W unit := λ _, (Ok tt, w').
Definition modify {W} (f : W → W) : Eff W unit := λ w, (Ok tt, f w).

Lemma bind_Ok {W A B} (m : Eff W A) (f : A → Eff W B) w a w' :
  m w = (Ok a, w') → (m ≫= f) w = f a w'.
Proof. intros E. unfold mbind, eff_bind. by rewrite E. Qed.

Lemma bind_Throw {W A B} (m : Eff W A) (f : A → Eff W B) w e w' :
  m w = (Throw e, w') → (m ≫= f) w = (Throw e, w').
Proof. intros E. unfold mbind, eff_bind. by rewrite E. Qed.

(** A bind that returns went through both parts. *)
Lemma bind_inv {W A B} (m : Eff W A) (f : A → Eff W B) w b :
  ((m ≫= f) w).1 = Ok b → ∃ a w', m w = (Ok a, w') ∧ (f a w').1 = Ok b.
Proof. unfold mbind, eff_bind. destruct (m w) as [[a|e] w']; [|done]. eauto. Qed.

(** A block with a mutable local variable of type [L]: the local survives a
    throw, as a C++ local declared before a [try] does. *)
Definition local {W L A} (init : L) (m : Eff (W * L) A) : Eff W A := λ w,
  let '(r, (w', _)) := m (w, init) in (r, w').

Definition lift {W L A} (m : Eff W A) : Eff (W * L) A := λ '(w, l),
  let '(r, w') := m w in (r, (w', l)).

Definition get_local {W L} : Eff (W * L) L := λ '(w, l), (Ok l, (w, l)).
Definition set_local {W L} (f : L → L) : Eff (W * L) unit :=
  λ '(w, l), (Ok tt, (w, f l)).

Fixpoint forM {W A} (l : list A) (f : A → Eff W unit) : Eff W unit :=
  match l with
  | [] => mret tt
  | a :: l => f a ;; forM l f
  end.

(** ** Weakest preconditions

    [wp m Q w]: the run of [m] from [w] ends in an outcome and a world that
    satisfy [Q]. *)

Definition wp {W A} (m : Eff W A) (Q : outcome A → W → Prop) (w : W) : Prop :=
  Q (m w).1 (m w).2.

Lemma bind_eq {W A B} (m : Eff W A) (k : A → Eff W B) w :
  (m ≫= k) w = match (m w).1 with Ok a => k a (m w).2 | Throw e => (Throw e, (m w).2) end.
Proof. unfold mbind, eff_bind. by destruct (m w) as [[a|e] w']. Qed.

Lemma catch_eq {W A} (m : Eff W A) h w :
  catch m h w = match (m w).1 with Ok a => (Ok a, (m w).2) | Throw e => h e (m w).2 end.
Proof. unfold catch. by destruct (m w) as [[]]. Qed.

Section wp_rules.
Context {W : Type}.

Lemma wp_ret {A} (a : A) (Q : outcome A → W → Prop) w : Q (Ok a) w → wp (mret a) Q w.
Proof. done. Qed.

Lemma wp_throw {A} e (Q : outcome A → W → Prop) w : Q (Throw e) w → wp (throw e) Q w.
Proof. done. Qed.

Lemma wp_bind {A B} (m : Eff W A) (k : A → Eff W B) Q w :
  wp m (λ r w', match r with Ok a => wp (k a) Q w' | Throw e => Q (Throw e) w' end) w →
  wp (m ≫= k) Q w.
Proof. unfold wp. rewrite bind_eq. by destruct (m w).1. Qed.

Lemma wp_catch {A} (m : Eff W A) h Q w :
  wp m (λ r w', match r with Ok a => Q (Ok a) w' | Throw e => wp (h e) Q w' end) w →
  wp (catch m h) Q w.
Proof. unfold wp. rewrite catch_eq. by destruct (m w).1. Qed.

Lemma wp_if {A} (b : bool) (m1 m2 : Eff W A) Q w :
  (b = true → wp m1 Q w) → (b = false → wp m2 Q w) → wp (if b then m1 else m2) Q w.
Proof. destruct b; auto. Qed.

Lemma wp_option {A B} (o : option A) (m1 : A → Eff W B) (m2 : Eff W B) Q w :
  (∀ a, o = Some a → wp (m1 a) Q w) → (o = None → wp m2 Q w) →
  wp (match o with Some a => m1 a | None => m2 end) Q w.
Proof. destruct o; auto. Qed.

Lemma wp_prod {A B C} (p : A * B) (m : A → B → Eff W C) Q w :
  wp (m p.1 p.2) Q w → wp (match p with (a, b) => m a b end) Q w.
Proof. by destruct p. Qed.

Lemma wp_ext {A} (m m' : Eff W A) (Q : outcome A → W → Prop) w : m w = m' w → wp m' Q w → wp m Q w.
Proof. unfold wp. by intros ->. Qed.

Lemma wp_mono {A} (m : Eff W A) (Q Q' : outcome A → W → Prop) w :
  wp m Q w → (∀ r w', Q r w' → Q' r w') → wp m Q' w.
Proof. unfold wp. auto. Qed.
End wp_rules.

Lemma wp_local {W L A} (init : L) (m : Eff (W * L) A) Q w :
  wp m (λ r w', Q r w'.1) (w, init) → wp (local init m) Q w.
Proof. unfold wp, local. by destruct (m (w, init)) as [r [w' l]]. Qed.

Lemma wp_lift {W L A} (m : Eff W A) (Q : outcome A → W * L → Prop) w l :
  wp m (λ r w', Q r (w', l)) w → wp (lift m) Q (w, l).
Proof. unfold wp, lift. by destruct (m w). Qed.

Lemma wp_set_local {W L} (f : L → L) (Q : outcome unit → W * L → Prop) w l :
  Q (Ok tt) (w, f l) → wp (set_local f) Q (w, l).
Proof. done. Qed.

Lemma wp_get_local {W L} (Q : outcome L → W * L → Prop) w l :
  Q (Ok l) (w, l) → wp get_local Q (w, l).
Proof. done. Qed.

(** ** Numbers of operations *)

(** Numbers that are given out in order: those that are settled and those that
    are outstanding. *)
Lemma issue_outstanding (settled outstanding : list nat) n :
  settled ++ outstanding ≡ₚ seq 0 n → settled ++ outstanding ++ [n] ≡ₚ seq 0 (S n).
Proof. intros H. by rewrite app_assoc, H, seq_S. Qed.
Lemma issue_settled (settled outstanding : list nat) n :
  settled ++ outstanding ≡ₚ seq 0 n → (settled ++ [n]) ++ outstanding ≡ₚ seq 0 (S n).
Proof.
  intros H. etransitivity; [|apply (issue_outstanding _ _ _ H)]. rewrite <- app_assoc. simpl.
  apply Permutation_app_head, Permutation_cons_append.
Qed.


(** ** Maps *)

Lemma alter_to_insert `{Countable K} {V} (f : V → V) (m : gmap K V) i x : m !! i = Some x → alter f i m = <[i := f x]> m.
Proof.
  intros E. apply map_eq. intros j. destruct (decide (i = j)) as [<-|].
  - by rewrite lookup_alter_eq, lookup_insert_eq, E.
  - by rewrite lookup_alter_ne, lookup_insert_ne.
Qed.

(** ** The values of a map *)

Section values.
Context {V A : Type} `{Countable K} (f : V → A).

Definition values (m : gmap K V) : list A := f <$> (map_to_list m).*2.

Lemma values_insert m i x : m !! i = None → values (<[i := x]> m) ≡ₚ f x :: values m.
Proof. intros Hm. unfold values. by rewrite map_to_list_insert by done. Qed.
Lemma values_delete m i x : m !! i = Some x → values m ≡ₚ f x :: values (delete i m).
Proof. intros Hm. unfold values. by rewrite <- (map_to_list_delete _ _ _ Hm). Qed.
Lemma values_replace m i x y : m !! i = Some x → values (<[i := y]> m) ≡ₚ f y :: values (delete i m).
Proof. intros Hm. rewrite <- insert_delete_eq. apply values_insert, lookup_delete_eq. Qed.
Lemma values_same m i x y : m !! i = Some x → f y = f x → values (<[i := y]> m) ≡ₚ values m.
Proof. intros Hm E. by rewrite (values_replace _ _ _ _ Hm), (values_delete _ _ _ Hm), E. Qed.
Lemma values_empty : values ∅ = [].
Proof. unfold values. by rewrite map_to_list_empty. Qed.
Lemma values_length m : length (values m) = size m.
Proof. unfold values. by rewrite !length_fmap, length_map_to_list. Qed.
End values.

(** What happens to a remote call: it takes effect and answers, fails before
    it takes effect, or takes effect and its answer is lost. *)
Inductive fault :=
  | NoFault
  | FailBefore (what : string)
  | FailAfter (what : string).

Declare Scope imm_scope.
Delimit Scope imm_scope with imm.
Notation "'try' m 'with' e => h" := (catch m (λ e, h))
  (at level 100, m at level 99, e binder, h at level 200) : imm_scope.
Notation "'when' b 'do' m" := (if b then m else mret tt)
  (at level 100, b at level 99, m at level 99) : imm_scope.
Open Scope imm_scope.

Create HintDb imm.
Create Rewrite HintDb imm.
