(* ===== verification/Decimal.v ===== *)
(** * Decimal text

    std::to_string is [pretty]; reading the text back is what std::stoll,
    std::stoull, std::from_chars and Redis' INCR do on such text. *)

From S2P Require Import Prelude.
From Stdlib Require Import Ascii.

Definition digit_of (c : ascii) : option N :=
  let n := N_of_ascii c in
  if bool_decide (48 ≤ n)%N && bool_decide (n ≤ 57)%N then Some (n - 48)%N else None.

(** The digits of [s], after a prefix with value [acc]; [None] at another character. *)
Fixpoint read_digits (acc : N) (s : string) : option N :=
  match s with
  | "" => Some acc
  | String c s => match digit_of c with Some d => read_digits (10 * acc + d)%N s | None => None end
  end.

Definition read_decimal (s : string) : option Z :=
  match s with
  | "" => None
  | String c rest =>
      if decide (c = "-"%char)
      then match rest with "" => None | _ => Z.opp <$> (Z.of_N <$> read_digits 0 rest) end
      else Z.of_N <$> read_digits 0 s
  end.

(** std::stoull on text that starts with a digit: the longest prefix of digits
    counts. Other text is refused. *)
Fixpoint digit_prefix (acc : N) (s : string) : N :=
  match s with
  | "" => acc
  | String c s => match digit_of c with Some d => digit_prefix (10 * acc + d)%N s | None => acc end
  end.
Definition stoull (s : string) : option Z :=
  match s with
  | "" => None
  | String c _ =>
      match digit_of c with
      | Some _ => let n := Z.of_N (digit_prefix 0 s) in if is_u64 n then Some n else None
      | None => None
      end
  end.

Lemma digit_of_char n : (n < 10)%N → digit_of (pretty_N_char n) = Some n.
Proof.
  intros Hn.
  assert (n = 0 ∨ n = 1 ∨ n = 2 ∨ n = 3 ∨ n = 4 ∨ n = 5 ∨ n = 6 ∨ n = 7 ∨ n = 8 ∨ n = 9)%N as H by lia.
  by repeat destruct H as [->|H]; [..|subst].
Qed.

Lemma read_digits_go x s : read_digits 0 (pretty_N_go x s) = read_digits x s.
Proof.
  revert s. induction (N.lt_wf_0 x) as [x _ IH]; intros s.
  assert (x = 0 ∨ 0 < x)%N as [->|?] by lia; [done|].
  rewrite pretty_N_go_step by done. rewrite IH by (by apply N.div_lt). simpl.
  rewrite digit_of_char by (by apply N.mod_lt). f_equal. rewrite <- N.div_mod by done. done.
Qed.

Lemma read_digits_pretty n : read_digits 0 (pretty n) = Some n.
Proof.
  unfold pretty, pretty_N. case_decide as E; [by subst|]. by rewrite read_digits_go.
Qed.

Lemma pretty_N_length (n : N) k : (n < 10 ^ N.of_nat (S k))%N → String.length (pretty n) ≤ S k.
Proof.
  assert (∀ k x s, (x < 10 ^ N.of_nat k)%N → String.length (pretty_N_go x s) ≤ k + String.length s) as Hgo.
  { clear. induction k as [|k IH]; intros x s Hx.
    - change (10 ^ N.of_nat 0)%N with 1%N in Hx. assert (x = 0)%N as -> by lia. done.
    - assert (x = 0 ∨ 0 < x)%N as [->|Hp] by lia; [rewrite pretty_N_go_0; lia|].
      rewrite pretty_N_go_step by done. etrans; [apply IH|simpl; lia].
      apply N.Div0.div_lt_upper_bound. rewrite Nat2N.inj_succ, N.pow_succ_r' in Hx. done. }
  unfold pretty, pretty_N. case_decide; [simpl; lia|]. intros Hn%(Hgo _ _ ""). simpl in Hn. lia.
Qed.

Lemma read_digits_app acc s t :
  read_digits acc (s +:+ t) = match read_digits acc s with Some n => read_digits n t | None => None end.
Proof.
  revert acc. induction s as [|c s IH]; intros acc; [done|].
  change (String c s +:+ t) with (String c (s +:+ t)). simpl. by destruct (digit_of c).
Qed.

(** Text that reads as a number consists of digits. *)
Lemma read_digits_chars acc s n :
  read_digits acc s = Some n → ∀ c, c ∈ bytes_of s → is_Some (digit_of c).
Proof.
  revert acc. induction s as [|c s IH]; intros acc; simpl; [by intros _ c ?%elem_of_nil|].
  destruct (digit_of c) as [d|] eqn:E; [|done]. intros Hr c' [->|Hc]%elem_of_cons; [by eexists|by eapply IH].
Qed.

(** The text of a number starts with a digit. *)
Lemma pretty_N_head (n : N) : ∃ c s d, pretty n = String c s ∧ digit_of c = Some d.
Proof.
  assert (∀ x s, (∃ c s' d, s = String c s' ∧ digit_of c = Some d) ∨ (0 < x)%N →
    ∃ c s' d, pretty_N_go x s = String c s' ∧ digit_of c = Some d) as Hgo.
  { intros x. induction (N.lt_wf_0 x) as [x _ IH]; intros s Hs.
    assert (x = 0 ∨ 0 < x)%N as [->|?] by lia.
    - destruct Hs as [?|?]; [done|lia].
    - rewrite pretty_N_go_step by done. apply IH; [by apply N.div_lt|]. left.
      eexists _, _, _. split; [done|]. apply digit_of_char. by apply N.mod_lt. }
  unfold pretty, pretty_N. case_decide as E; [by eexists _, _, _|]. apply Hgo. right. lia.
Qed.

Lemma read_decimal_pretty (z : Z) : read_decimal (pretty z) = Some z.
Proof.
  assert (∀ n : N, read_decimal (pretty n) = Some (Z.of_N n)) as Hn.
  { intros n. destruct (pretty_N_head n) as (c & s & d & E & Hd). unfold read_decimal. rewrite E.
    rewrite decide_False by (by intros ->). rewrite <- E, read_digits_pretty. done. }
  destruct z as [|p|p]; [done|exact (Hn (Npos p))|].
  change (pretty (Zneg p)) with (String "-" (pretty (Npos p))). unfold read_decimal.
  rewrite decide_True by done. destruct (pretty_N_head (Npos p)) as (c & s & d & E & Hd).
  rewrite E, <- E, read_digits_pretty. done.
Qed.

Lemma digit_prefix_read acc s n : read_digits acc s = Some n → digit_prefix acc s = n.
Proof.
  revert acc. induction s as [|c s IH]; intros acc; simpl; [congruence|].
  destruct (digit_of c); [apply IH|done].
Qed.

Lemma stoull_pretty (z : Z) : is_u64 z = true → stoull (pretty z) = Some z.
Proof.
  intros Hz. assert (∃ n, z = Z.of_N n) as [n ->].
  { exists (Z.to_N z). rewrite Z2N.id; [done|]. apply bool_decide_eq_true in Hz. lia. }
  assert (pretty (Z.of_N n) = pretty n) as -> by (by destruct n).
  destruct (pretty_N_head n) as (c & s & d & E & Hd). unfold stoull. rewrite E, Hd, <- E.
  rewrite (digit_prefix_read _ _ _ (read_digits_pretty n)), Hz. done.
Qed.

(** ** Keys made of a number and a name

    The text of a number has no separator such as a colon or a slash:
    "<number>:<name>" determines both. *)

Fixpoint free_of (sep : ascii) (s : string) : bool :=
  match s with "" => true | String c s => bool_decide (c ≠ sep) && free_of sep s end.

Section separator.
Context (sep : ascii) (sep_digit : digit_of sep = None) (sep_minus : sep ≠ "-"%char).

Lemma free_of_N (n : N) : free_of sep (pretty n) = true.
Proof using sep_digit.
  assert (∀ x s, free_of sep s = true → free_of sep (pretty_N_go x s) = true) as Hgo.
  { intros x. induction (N.lt_wf_0 x) as [x _ IH]; intros s Hs.
    assert (x = 0 ∨ 0 < x)%N as [->|?] by lia; [done|].
    rewrite pretty_N_go_step by done. apply IH; [by apply N.div_lt|]. simpl. rewrite Hs.
    assert (x `mod` 10 < 10)%N as Hlt by (by apply N.mod_lt).
    pose proof (digit_of_char _ Hlt) as Hd. rewrite bool_decide_eq_true_2; [done|]. intros E. by rewrite E, sep_digit in Hd. }
  unfold pretty, pretty_N. case_decide; [|by apply Hgo].
  simpl. rewrite bool_decide_eq_true_2; [done|]. intros E. by rewrite <- E in sep_digit.
Qed.

Lemma free_of_Z (z : Z) : free_of sep (pretty z) = true.
Proof using sep_digit sep_minus.
  destruct z as [|p|p]; [exact (free_of_N 0)|exact (free_of_N (Npos p))|].
  change (pretty (Zneg p)) with (String "-" (pretty (Npos p))). simpl.
  rewrite free_of_N, bool_decide_eq_true_2; done.
Qed.
End separator.

Lemma free_of_bytes sep s : free_of sep s = true → sep ∉ bytes_of s.
Proof.
  induction s as [|c s IH]; simpl; [intros _; apply not_elem_of_nil|].
  intros [Hc%bool_decide_eq_true Hs]%andb_true_iff. apply not_elem_of_cons. auto.
Qed.

Lemma separator_split sep s1 s2 t1 t2 :
  free_of sep s1 = true → free_of sep s2 = true →
  s1 +:+ String sep t1 = s2 +:+ String sep t2 → s1 = s2 ∧ t1 = t2.
Proof.
  revert s2. induction s1 as [|c s1 IH]; intros [|c2 s2] H1 H2 E; simplify_eq/=.
  - done.
  - by rewrite bool_decide_eq_false_2 in H2 by (intros []; done).
  - by rewrite bool_decide_eq_false_2 in H1 by (intros []; done).
  - apply andb_true_iff in H1 as [_ H1]. apply andb_true_iff in H2 as [_ H2].
    destruct (IH s2) as [-> ->]; done.
Qed.

Lemma number_split sep (z1 z2 : Z) t1 t2 :
  digit_of sep = None → sep ≠ "-"%char →
  pretty z1 +:+ String sep t1 = pretty z2 +:+ String sep t2 → z1 = z2 ∧ t1 = t2.
Proof.
  intros Hd Hm [E ->]%separator_split; [|by apply free_of_Z..]. by apply (inj pretty) in E as ->.
Qed.
