(* ===== verification/Codec.v ===== *)
(** * Client protocol: error codes, protobuf messages, packet classification

    Models common/include/Const.h, the messages of common/proto/tcp_message.proto
    and gateway_message.proto as the generated classes expose them, and the
    packet helpers of common/include/TcpMessageCodec.h. A protobuf [string] or
    [bytes] field is a [string] (a sequence of bytes); an [int32]/[int64] field is
    a [Z]; a field with explicit presence is an [option]; a proto3 enumeration is
    open, so it has a constructor for the values it does not name. *)

From S2P Require Import Prelude.

(** ** Error codes (Const.h) *)

Inductive ErrorCodes :=
  | Success
  | JsonParser
  | ProtobufPacket
  | RPCFailed
  | VerificationExpired
  | VerificationCodeInvalid
  | UserExist
  | PasswdErr
  | EmailNotMatch
  | PasswdUpFailed
  | PasswdInvalid
  | TokenInvalid
  | UidInvalid
  | UserNotOnline
  | UserNotFriend
  | UserOnline
  | UserOffline
  | NotFound
  | RepeatMessage
  | MysqlFailed
  | FileTypeError
  | InternalError
  | GroupAlreadyExists
  | GroupNotExists
  | GroupNotifyFailed
  | GroupReplyFailed
  | AuthenticationRequired
  | MessageOwnershipInvalid
  | ResourceExhausted
  | DependencyUnavailable
  | IdempotencyConflict.

#[global] Instance ErrorCodes_eq_dec : EqDecision ErrorCodes.
Proof. solve_decision. Defined.

Definition error_code (e : ErrorCodes) : Z :=
  match e with
  | Success => 0
  | JsonParser => 1000
  | ProtobufPacket => 1001
  | RPCFailed => 1002
  | VerificationExpired => 1003
  | VerificationCodeInvalid => 1004
  | UserExist => 1005
  | PasswdErr => 1006
  | EmailNotMatch => 1007
  | PasswdUpFailed => 1008
  | PasswdInvalid => 1009
  | TokenInvalid => 1010
  | UidInvalid => 1011
  | UserNotOnline => 1012
  | UserNotFriend => 1013
  | UserOnline => 1014
  | UserOffline => 1015
  | NotFound => 1016
  | RepeatMessage => 1017
  | MysqlFailed => 1018
  | FileTypeError => 1019
  | InternalError => 1020
  | GroupAlreadyExists => 1021
  | GroupNotExists => 1022
  | GroupNotifyFailed => 1023
  | GroupReplyFailed => 1024
  | AuthenticationRequired => 1025
  | MessageOwnershipInvalid => 1026
  | ResourceExhausted => 1028
  | DependencyUnavailable => 1029
  | IdempotencyConflict => 1030
  end.
Coercion error_code : ErrorCodes >-> Z.

#[global] Instance error_code_inj : Inj (=) (=) error_code.
Proof. intros [] [] H; (reflexivity || discriminate H). Qed.

Definition errorCodesMap : list (Z * string) :=
  [ (error_code Success, "Success");
    (error_code JsonParser, "JsonParser");
    (error_code RPCFailed, "RPCFailed");
    (error_code VerificationExpired, "VerificationExpired");
    (error_code VerificationCodeInvalid, "VerificationCodeInvalid");
    (error_code UserExist, "UserExist");
    (error_code PasswdErr, "PasswdErr");
    (error_code EmailNotMatch, "EmailNotMatch");
    (error_code PasswdUpFailed, "PasswdUpFailed");
    (error_code PasswdInvalid, "PasswdInvalid");
    (error_code TokenInvalid, "TokenInvalid");
    (error_code UidInvalid, "UidInvalid");
    (error_code UserNotOnline, "UserNotOnline");
    (error_code UserNotFriend, "UserNotFriend");
    (error_code UserOnline, "UserOnline");
    (error_code UserOffline, "UserOffline");
    (error_code NotFound, "NotFound");
    (error_code RepeatMessage, "RepeatMessage");
    (error_code MysqlFailed, "MysqlFailed");
    (error_code FileTypeError, "FileTypeError");
    (error_code InternalError, "InternalError");
    (error_code GroupAlreadyExists, "GroupAlreadyExists");
    (error_code GroupNotExists, "GroupNotExists");
    (error_code AuthenticationRequired, "AuthenticationRequired");
    (error_code MessageOwnershipInvalid, "MessageOwnershipInvalid");
    (error_code ResourceExhausted, "ResourceExhausted");
    (error_code DependencyUnavailable, "DependencyUnavailable");
    (error_code IdempotencyConflict, "IdempotencyConflict") ].

Definition isRetryableError (code : Z) : bool :=
  existsb (Z.eqb code)
    [ error_code RPCFailed; error_code MysqlFailed; error_code InternalError;
      error_code ResourceExhausted; error_code DependencyUnavailable ].

Definition getErrorCodeMsg (code : Z) : string :=
  match list_find (λ p, p.1 = code) errorCodesMap with
  | Some (_, (_, msg)) => msg
  | None => ""
  end.

Definition PROTOCOL_DATA_SIZE_LEN : Z := 4.
Definition PROTOCOL_HEADER_TOTAL : Z := PROTOCOL_DATA_SIZE_LEN.
Definition PROTOCOL_RECV_MSS : Z := 10 * 1024 * 1024.
Definition PROTOCOL_SEND_MSS : Z := 10 * 1024 * 1024.

(** ** Messages of tcp_message.proto

    One record per message that has fields; a message without fields is a
    constructor without argument of the [payload] oneof. *)
Module protocol.

Inductive ReceiptType :=
  | RECEIPT_TYPE_UNSPECIFIED
  | RECEIPT_TYPE_DELIVERED
  | RECEIPT_TYPE_READ
  | RECEIPT_TYPE_OTHER (value : Z).

Inductive ConversationType :=
  | CONVERSATION_TYPE_UNSPECIFIED
  | CONVERSATION_TYPE_DIRECT
  | CONVERSATION_TYPE_GROUP
  | CONVERSATION_TYPE_OTHER (value : Z).

Inductive GroupChangeKind :=
  | GROUP_CHANGE_KIND_UNSPECIFIED
  | GROUP_CHANGE_KIND_JOINED
  | GROUP_CHANGE_KIND_LEFT
  | GROUP_CHANGE_KIND_KICKED
  | GROUP_CHANGE_KIND_DISSOLVED
  | GROUP_CHANGE_KIND_OTHER (value : Z).

Inductive Operation :=
  | OP_UNSPECIFIED
  | OP_PULL_FRIEND_LIST
  | OP_PULL_FRIEND_APPLICATIONS
  | OP_PULL_CONVERSATION_MESSAGES
  | OP_PULL_GROUP_MEMBERS
  | OP_PING
  | OP_LOGIN
  | OP_QUIT
  | OP_UPDATE_USER_INFO
  | OP_SEARCH_USER
  | OP_ADD_FRIEND
  | OP_REPLY_FRIEND
  | OP_REMOVE_FRIEND
  | OP_SEND_TEXT
  | OP_SEND_FILE
  | OP_UPLOAD_FILE
  | OP_ACKNOWLEDGE
  | OP_CREATE_GROUP
  | OP_JOIN_GROUP
  | OP_REPLY_JOIN_GROUP
  | OP_QUIT_GROUP
  | OP_SEND_GROUP_TEXT
  | OP_UPLOAD_FILE_CHUNK
  | OP_COMPLETE_FILE_UPLOAD
  | OP_DOWNLOAD_FILE
  | OP_KICK_GROUP_MEMBER
  | OP_SEND_GROUP_FILE
  | OP_OTHER (value : Z).

Inductive PushType :=
  | PUSH_TYPE_UNSPECIFIED
  | PUSH_TYPE_TEXT_MESSAGE
  | PUSH_TYPE_FILE_MESSAGE
  | PUSH_TYPE_FRIEND_REQUEST
  | PUSH_TYPE_FRIEND_REPLY
  | PUSH_TYPE_GROUP_JOIN_REQUEST
  | PUSH_TYPE_GROUP_CHANGE
  | PUSH_TYPE_READ_RECEIPT
  | PUSH_TYPE_OTHER (value : Z).

#[global] Instance ReceiptType_eq_dec : EqDecision ReceiptType.
Proof. solve_decision. Defined.
#[global] Instance ConversationType_eq_dec : EqDecision ConversationType.
Proof. solve_decision. Defined.
#[global] Instance GroupChangeKind_eq_dec : EqDecision GroupChangeKind.
Proof. solve_decision. Defined.
#[global] Instance Operation_eq_dec : EqDecision Operation.
Proof. solve_decision. Defined.
#[global] Instance PushType_eq_dec : EqDecision PushType.
Proof. solve_decision. Defined.

Record ResponseStatus := MkResponseStatus {
  rs_error : option Z;
  rs_message : option string
}.

Record UserInfo := MkUserInfo {
  ui_uid : Z;
  ui_name : string;
  ui_age : Z;
  ui_sex : string;
  ui_head_image_url : string
}.

Record FriendApply := MkFriendApply {
  fap_from : Z;
  fap_status : Z;
  fap_content : string
}.

Record FileInfo := MkFileInfo {
  fi_file_id : string;
  fi_file_name : string;
  fi_file_type : string;
  fi_file_size : Z;
  fi_sha256 : string;
  fi_expired : bool
}.

Record ChatMessage := MkChatMessage {
  cm_message_id : Z;
  cm_from : Z;
  cm_to : Z;
  cm_type : Z;
  cm_content : string;
  cm_status : Z;
  cm_send_date_time : string;
  cm_read_date_time : string;
  cm_conversation_id : Z;
  cm_conversation_seq : Z;
  cm_client_message_id : string;
  cm_file : option FileInfo
}.

Record GroupMember := MkGroupMember {
  gmb_uid : Z;
  gmb_name : string;
  gmb_join_time : string
}.

Record GroupJoinApplication := MkGroupJoinApplication {
  gja_requestor_uid : Z;
  gja_request_message : string;
  gja_create_time : string
}.

Record LoginRequest := MkLoginRequest {
  lr_uid : Z;
  lr_auth_token : string;
  lr_device_id : string;
  lr_init_profile : bool;
  lr_name : string;
  lr_age : Z;
  lr_sex : string;
  lr_head_image_url : string
}.

Record LoginResponse := MkLoginResponse {
  lrsp_uid : Z
}.

Record UpdateUserInfoRequest := MkUpdateUserInfoRequest {
  uur_name : string;
  uur_age : Z;
  uur_sex : string;
  uur_head_image_url : string
}.

Record UpdateUserInfoResponse := MkUpdateUserInfoResponse {
  uursp_user : option UserInfo
}.

Record SearchUserRequest := MkSearchUserRequest {
  sur_uid : Z
}.

Record SearchUserResponse := MkSearchUserResponse {
  sursp_user : option UserInfo
}.

Record PullFriendListResponse := MkPullFriendListResponse {
  pfl_friends : list UserInfo
}.

Record PullFriendApplyListResponse := MkPullFriendApplyListResponse {
  pfal_applications : list FriendApply
}.

Record AddFriendRequest := MkAddFriendRequest {
  afr_to : Z;
  afr_request_message : string
}.

Record FriendRequestPush := MkFriendRequestPush {
  frp_seq : Z;
  frp_from : Z;
  frp_to : Z;
  frp_request_message : string
}.

Record ReplyFriendRequest := MkReplyFriendRequest {
  rfr_to : Z;
  rfr_accept : option bool;
  rfr_reply_message : string
}.

Record FriendReplyPush := MkFriendReplyPush {
  fyp_seq : Z;
  fyp_from : Z;
  fyp_to : Z;
  fyp_accept : option bool;
  fyp_reply_message : string
}.

Record RemoveFriendRequest := MkRemoveFriendRequest {
  rmf_to : Z
}.

Record SendTextRequest := MkSendTextRequest {
  st_to : Z;
  st_content : string;
  st_client_message_id : string;
  st_conversation_id : Z
}.

Record SendGroupTextRequest := MkSendGroupTextRequest {
  sgt_group_id : Z;
  sgt_content : string;
  sgt_client_message_id : string;
  sgt_conversation_id : Z
}.

Record SendMessageResponse := MkSendMessageResponse {
  smr_message_id : Z;
  smr_conversation_id : Z;
  smr_conversation_seq : Z
}.

Record TextMessagePush := MkTextMessagePush {
  tmp_message_id : Z;
  tmp_from : Z;
  tmp_to : Z;
  tmp_content : string;
  tmp_client_message_id : string;
  tmp_conversation_id : Z;
  tmp_conversation_seq : Z;
  tmp_send_date_time : string;
  tmp_group_id : Z
}.

Record PullConversationMessagesRequest := MkPullConversationMessagesRequest {
  pcm_conversation_id : Z;
  pcm_after_seq : Z;
  pcm_limit : Z
}.

Record PullConversationMessagesResponse := MkPullConversationMessagesResponse {
  pcmr_conversation_id : Z;
  pcmr_next_seq : Z;
  pcmr_has_more : bool;
  pcmr_latest_seq : Z;
  pcmr_conversation_type : ConversationType;
  pcmr_messages : list ChatMessage
}.

Record MessageReceipt := MkMessageReceipt {
  mr_seq : Z;
  mr_receipt_type : ReceiptType;
  mr_conversation_id : Z;
  mr_conversation_seq : Z
}.

Record ReadReceiptPush := MkReadReceiptPush {
  rrp_message_id : Z;
  rrp_from : Z;
  rrp_to : Z;
  rrp_conversation_id : Z;
  rrp_conversation_seq : Z
}.

Record FileUploadRequest := MkFileUploadRequest {
  fu_file : option FileInfo;
  fu_offset : Z;
  fu_data : string;
  fu_complete : bool
}.

Record FileUploadResponse := MkFileUploadResponse {
  fur_next_offset : Z;
  fur_complete : bool
}.

Record FileUploadChunkRequest := MkFileUploadChunkRequest {
  fuc_file : option FileInfo;
  fuc_offset : Z;
  fuc_data : string;
  fuc_complete : bool
}.

Record FileUploadChunkResponse := MkFileUploadChunkResponse {
  fucr_next_offset : Z;
  fucr_complete : bool
}.

Record FileUploadCompleteRequest := MkFileUploadCompleteRequest {
  fuco_file : option FileInfo;
  fuco_offset : Z;
  fuco_data : string;
  fuco_complete : bool
}.

Record FileUploadCompleteResponse := MkFileUploadCompleteResponse {
  fucor_next_offset : Z;
  fucor_complete : bool
}.

Record FileDownloadRequest := MkFileDownloadRequest {
  fd_file : option FileInfo;
  fd_offset : Z;
  fd_limit : Z
}.

Record FileDownloadResponse := MkFileDownloadResponse {
  fdr_data : string;
  fdr_next_offset : Z;
  fdr_complete : bool;
  fdr_file : option FileInfo
}.

Record SendFileRequest := MkSendFileRequest {
  sf_to : Z;
  sf_file : option FileInfo;
  sf_client_message_id : string;
  sf_conversation_id : Z
}.

Record SendGroupFileRequest := MkSendGroupFileRequest {
  sgf_group_id : Z;
  sgf_file : option FileInfo;
  sgf_client_message_id : string;
  sgf_conversation_id : Z
}.

Record FileMessagePush := MkFileMessagePush {
  fmp_message_id : Z;
  fmp_from : Z;
  fmp_to : Z;
  fmp_file : option FileInfo;
  fmp_client_message_id : string;
  fmp_conversation_id : Z;
  fmp_conversation_seq : Z;
  fmp_group_id : Z
}.

Record CreateGroupRequest := MkCreateGroupRequest {
  cg_group_name : string
}.

Record CreateGroupResponse := MkCreateGroupResponse {
  cgr_group_id : Z;
  cgr_conversation_id : Z
}.

Record JoinGroupRequest := MkJoinGroupRequest {
  jg_group_id : Z;
  jg_request_message : string
}.

Record GroupJoinRequestPush := MkGroupJoinRequestPush {
  gjp_requestor_uid : Z;
  gjp_group_id : Z;
  gjp_request_message : string
}.

Record ReplyJoinGroupRequest := MkReplyJoinGroupRequest {
  rjg_group_id : Z;
  rjg_requestor_uid : Z;
  rjg_accept : option bool
}.

Record GroupChangePush := MkGroupChangePush {
  gcp_group_id : Z;
  gcp_requestor_uid : Z;
  gcp_replyor_uid : Z;
  gcp_accept : option bool;
  gcp_change : GroupChangeKind;
  gcp_group_name : string
}.

Record QuitGroupRequest := MkQuitGroupRequest {
  qg_group_id : Z
}.

Record KickGroupMemberRequest := MkKickGroupMemberRequest {
  kg_group_id : Z;
  kg_member_uid : Z
}.

Record PullGroupMembersRequest := MkPullGroupMembersRequest {
  pgm_group_id : Z
}.

Record PullGroupMembersResponse := MkPullGroupMembersResponse {
  pgmr_group_id : Z;
  pgmr_conversation_id : Z;
  pgmr_master_uid : Z;
  pgmr_group_name : string;
  pgmr_members : list GroupMember;
  pgmr_applications : list GroupJoinApplication
}.

(** The [payload] oneof of [Packet]; [PayloadNotSet] is the empty case. *)
Inductive payload :=
  | PayloadNotSet
  | login_request (body : LoginRequest)
  | login_response (body : LoginResponse)
  | ping_request
  | ping_response
  | quit_request
  | quit_response
  | update_user_info_request (body : UpdateUserInfoRequest)
  | update_user_info_response (body : UpdateUserInfoResponse)
  | search_user_request (body : SearchUserRequest)
  | search_user_response (body : SearchUserResponse)
  | pull_friend_list_request
  | pull_friend_list_response (body : PullFriendListResponse)
  | pull_friend_apply_list_request
  | pull_friend_apply_list_response (body : PullFriendApplyListResponse)
  | add_friend_request (body : AddFriendRequest)
  | add_friend_response
  | friend_request_push (body : FriendRequestPush)
  | reply_friend_request (body : ReplyFriendRequest)
  | reply_friend_response
  | friend_reply_push (body : FriendReplyPush)
  | remove_friend_request (body : RemoveFriendRequest)
  | remove_friend_response
  | send_text_request (body : SendTextRequest)
  | send_group_text_request (body : SendGroupTextRequest)
  | send_message_response (body : SendMessageResponse)
  | text_message_push (body : TextMessagePush)
  | pull_conversation_messages_request (body : PullConversationMessagesRequest)
  | pull_conversation_messages_response (body : PullConversationMessagesResponse)
  | receipt (body : MessageReceipt)
  | read_receipt_push (body : ReadReceiptPush)
  | file_upload_request (body : FileUploadRequest)
  | file_upload_response (body : FileUploadResponse)
  | file_upload_chunk_request (body : FileUploadChunkRequest)
  | file_upload_chunk_response (body : FileUploadChunkResponse)
  | file_upload_complete_request (body : FileUploadCompleteRequest)
  | file_upload_complete_response (body : FileUploadCompleteResponse)
  | file_download_request (body : FileDownloadRequest)
  | file_download_response (body : FileDownloadResponse)
  | send_file_request (body : SendFileRequest)
  | send_group_file_request (body : SendGroupFileRequest)
  | file_message_push (body : FileMessagePush)
  | create_group_request (body : CreateGroupRequest)
  | create_group_response (body : CreateGroupResponse)
  | join_group_request (body : JoinGroupRequest)
  | join_group_response
  | group_join_request_push (body : GroupJoinRequestPush)
  | reply_join_group_request (body : ReplyJoinGroupRequest)
  | reply_join_group_response
  | group_change_push (body : GroupChangePush)
  | quit_group_request (body : QuitGroupRequest)
  | quit_group_response
  | kick_group_member_request (body : KickGroupMemberRequest)
  | kick_group_member_response
  | pull_group_members_request (body : PullGroupMembersRequest)
  | pull_group_members_response (body : PullGroupMembersResponse).

Record Packet := MkPacket {
  pk_status : option ResponseStatus;
  pk_payload : payload
}.

Record ClientRequest := MkClientRequest {
  cr_request_id : string;
  cr_packet : option Packet;
  cr_operation : Operation
}.

Record ClientResponse := MkClientResponse {
  crsp_request_id : string;
  crsp_packet : option Packet;
  crsp_operation : Operation
}.

Record ClientPush := MkClientPush {
  cp_delivery_id : Z;
  cp_packet : option Packet;
  cp_type : PushType
}.

Inductive ClientEnvelope :=
  | BodyNotSet
  | request (body : ClientRequest)
  | response (body : ClientResponse)
  | push (body : ClientPush).

(** Default instances the generated accessors return for an absent message. *)
Definition default_packet : Packet := MkPacket None PayloadNotSet.
Definition default_file : FileInfo := MkFileInfo "" "" "" 0 "" false.

#[global] Instance ResponseStatus_eq_dec : EqDecision ResponseStatus.
Proof. solve_decision. Defined.
#[global] Instance FileInfo_eq_dec : EqDecision FileInfo.
Proof. solve_decision. Defined.
#[global] Instance UserInfo_eq_dec : EqDecision UserInfo.
Proof. solve_decision. Defined.
#[global] Instance FriendApply_eq_dec : EqDecision FriendApply.
Proof. solve_decision. Defined.
#[global] Instance ChatMessage_eq_dec : EqDecision ChatMessage.
Proof. solve_decision. Defined.
#[global] Instance GroupMember_eq_dec : EqDecision GroupMember.
Proof. solve_decision. Defined.
#[global] Instance GroupJoinApplication_eq_dec : EqDecision GroupJoinApplication.
Proof. solve_decision. Defined.

End protocol.
Export protocol.

(** ** Messages of gateway_message.proto *)
Module gateway.

Record RegisterGateway := MkRegisterGateway {
  rg_protocol_version : Z;
  rg_gateway_id : string;
  rg_instance_id : string;
  rg_stream_epoch : Z;
  rg_shard_id : Z;
  rg_capacity : Z
}.

Record RegisterResult := MkRegisterResult {
  rr_accepted : bool;
  rr_message_node_id : string;
  rr_stream_epoch : Z;
  rr_reason : string
}.

Record CommandEnvelope := MkCommandEnvelope {
  ce_request_id : string;
  ce_actor_uid : Z;
  ce_connection_id : string;
  ce_connection_generation : Z;
  ce_operation : Operation;
  ce_conversation_id : Z;
  ce_packet : string;
  ce_actor_device_id : string
}.

Record CommandResult := MkCommandResult {
  cres_request_id : string;
  cres_error : Z;
  cres_retryable : bool;
  cres_packet : string
}.

Record ClientForwardEnvelope := MkClientForwardEnvelope {
  cf_forward_id : string;
  cf_recipient_uid : Z;
  cf_expected_connection_id : string;
  cf_expected_connection_generation : Z;
  cf_message_id : Z;
  cf_conversation_id : Z;
  cf_conversation_seq : Z;
  cf_packet : string;
  cf_recipient_device_id : string
}.

Inductive ClientForwardStatus :=
  | CLIENT_FORWARD_STATUS_UNSPECIFIED
  | CLIENT_FORWARD_STATUS_QUEUED
  | CLIENT_FORWARD_STATUS_OFFLINE
  | CLIENT_FORWARD_STATUS_STALE_ROUTE
  | CLIENT_FORWARD_STATUS_BACKPRESSURED.

Record ClientForwardAck := MkClientForwardAck {
  ca_forward_id : string;
  ca_status : ClientForwardStatus;
  ca_gateway_id : string;
  ca_instance_id : string;
  ca_recipient_device_id : string
}.

Record StreamHeartbeat := MkStreamHeartbeat {
  hb_sent_at_unix_ms : Z;
  hb_sequence : Z
}.

Record DrainNotice := MkDrainNotice {
  dn_message_node_id : string;
  dn_reason : string
}.

Inductive GatewayToMessageFrame :=
  | GmNotSet
  | register_gateway (body : RegisterGateway)
  | command (body : CommandEnvelope)
  | client_forward_ack (body : ClientForwardAck)
  | heartbeat (body : StreamHeartbeat).

(** [StreamHeartbeatAck] has the fields of [StreamHeartbeat]. *)
Inductive MessageToGatewayFrame :=
  | MgNotSet
  | register_result (body : RegisterResult)
  | command_result (body : CommandResult)
  | client_forward (body : ClientForwardEnvelope)
  | heartbeat_ack (body : StreamHeartbeat)
  | drain_notice (body : DrainNotice).

Record SessionLease := MkSessionLease {
  sl_device_id : string;
  sl_gateway_id : string;
  sl_instance_id : string;
  sl_connection_id : string;
  sl_generation : Z;
  sl_shard_id : Z
}.

#[global] Instance SessionLease_eq_dec : EqDecision SessionLease.
Proof. solve_decision. Defined.

End gateway.
Export gateway.

(** ** Packet helpers (TcpMessageCodec.h) *)

Definition SetTcpPacketStatus (packet : Packet) (error : Z) (message : string) : Packet :=
  let status := default (MkResponseStatus None None) (pk_status packet) in
  MkPacket
    (Some (MkResponseStatus (Some error)
             (if bool_decide (message = "") then rs_message status else Some message)))
    (pk_payload packet).

Definition MakeErrorPacket (error : Z) (message : string) : Packet :=
  SetTcpPacketStatus default_packet error message.

Definition TcpPacketError (packet : Packet) : Z :=
  match pk_status packet with
  | Some status => default 0%Z (rs_error status)
  | None => Success
  end.

Definition TcpPacketRequestOperation (packet : Packet) : Operation :=
  match pk_payload packet with
  | pull_friend_list_request => OP_PULL_FRIEND_LIST
  | pull_friend_apply_list_request => OP_PULL_FRIEND_APPLICATIONS
  | pull_conversation_messages_request _ => OP_PULL_CONVERSATION_MESSAGES
  | pull_group_members_request _ => OP_PULL_GROUP_MEMBERS
  | ping_request => OP_PING
  | login_request _ => OP_LOGIN
  | quit_request => OP_QUIT
  | update_user_info_request _ => OP_UPDATE_USER_INFO
  | search_user_request _ => OP_SEARCH_USER
  | add_friend_request _ => OP_ADD_FRIEND
  | reply_friend_request _ => OP_REPLY_FRIEND
  | remove_friend_request _ => OP_REMOVE_FRIEND
  | send_text_request _ => OP_SEND_TEXT
  | send_file_request _ => OP_SEND_FILE
  | file_upload_request _ => OP_UPLOAD_FILE
  | receipt _ => OP_ACKNOWLEDGE
  | create_group_request _ => OP_CREATE_GROUP
  | join_group_request _ => OP_JOIN_GROUP
  | reply_join_group_request _ => OP_REPLY_JOIN_GROUP
  | quit_group_request _ => OP_QUIT_GROUP
  | send_group_text_request _ => OP_SEND_GROUP_TEXT
  | file_upload_chunk_request _ => OP_UPLOAD_FILE_CHUNK
  | file_upload_complete_request _ => OP_COMPLETE_FILE_UPLOAD
  | file_download_request _ => OP_DOWNLOAD_FILE
  | kick_group_member_request _ => OP_KICK_GROUP_MEMBER
  | send_group_file_request _ => OP_SEND_GROUP_FILE
  | _ => OP_UNSPECIFIED
  end.

Definition TcpRequestMatchesOperation (operation : Operation) (packet : Packet) : bool :=
  bool_decide (operation ≠ OP_UNSPECIFIED) &&
  bool_decide (operation = TcpPacketRequestOperation packet).

Definition TcpPacketPushType (packet : Packet) : PushType :=
  match pk_payload packet with
  | text_message_push _ => PUSH_TYPE_TEXT_MESSAGE
  | file_message_push _ => PUSH_TYPE_FILE_MESSAGE
  | friend_request_push _ => PUSH_TYPE_FRIEND_REQUEST
  | friend_reply_push _ => PUSH_TYPE_FRIEND_REPLY
  | group_join_request_push _ => PUSH_TYPE_GROUP_JOIN_REQUEST
  | group_change_push _ => PUSH_TYPE_GROUP_CHANGE
  | read_receipt_push _ => PUSH_TYPE_READ_RECEIPT
  | _ => PUSH_TYPE_UNSPECIFIED
  end.

Definition TcpPacketConversationId (packet : Packet) : Z :=
  match pk_payload packet with
  | send_text_request b => st_conversation_id b
  | send_group_text_request b => sgt_conversation_id b
  | send_file_request b => sf_conversation_id b
  | send_group_file_request b => sgf_conversation_id b
  | pull_conversation_messages_request b => pcm_conversation_id b
  | receipt b => mr_conversation_id b
  | _ => 0
  end.

Definition TcpPacketReliableSequence (packet : Packet) : Z :=
  match pk_payload packet with
  | friend_request_push b => frp_seq b
  | friend_reply_push b => fyp_seq b
  | text_message_push b => tmp_message_id b
  | file_message_push b => fmp_message_id b
  | read_receipt_push b => rrp_message_id b
  | _ => 0
  end.

(** ** Protobuf wire format

    Serialisation is code of the protobuf library: a parameter, with the
    documented law that parsing what was serialised gives the message back
    for the messages it can encode (proto3 [string] fields must be UTF-8). *)
Class ProtobufCodec (A : Type) := {
  SerializeToString : A → string;
  ParseFromString : string → option A;
  serializable : A → Prop;
  parse_serialize : ∀ a, serializable a → ParseFromString (SerializeToString a) = Some a
}.

Lemma TcpPacketError_set p e m : TcpPacketError (SetTcpPacketStatus p e m) = e.
Proof. done. Qed.

Lemma SetTcpPacketStatus_payload p e m :
  pk_payload (SetTcpPacketStatus p e m) = pk_payload p.
Proof. done. Qed.
#[export] Hint Rewrite TcpPacketError_set SetTcpPacketStatus_payload : imm.

Lemma TcpRequestMatchesOperation_true op p :
  TcpRequestMatchesOperation op p = true ↔
  op ≠ OP_UNSPECIFIED ∧ op = TcpPacketRequestOperation p.
Proof.
  unfold TcpRequestMatchesOperation.
  by rewrite andb_true_iff, !bool_decide_eq_true.
Qed.
