(* ===== verification/Seastar.v ===== *)
(** * What the services rely on of Seastar

    Seastar is not part of the sources: its counting semaphore, a semaphore of
    one unit as a lock, its bounded queue and its condition variable are
    interfaces, with the documented behaviour as laws. The instances at the end
    satisfy the laws. *)

From S2P Require Import Prelude.

(** [try_get_units] takes units without waiting; [signal_units] is what
    returning or destroying [semaphore_units] does. *)
Class Semaphore := {
  semaphore : Type;
  semaphore_init : Z → semaphore;
  available_units : semaphore → Z;
  try_get_units : semaphore → Z → option semaphore;
  signal_units : semaphore → Z → semaphore;
  available_init n : available_units (semaphore_init n) = n;
  try_get_units_enough s n : (0 ≤ n ≤ available_units s)%Z →
    ∃ s', try_get_units s n = Some s' ∧ available_units s' = (available_units s - n)%Z;
  try_get_units_short s n : (0 ≤ n)%Z → (available_units s < n)%Z → try_get_units s n = None;
  available_signal s n : available_units (signal_units s n) = (available_units s + n)%Z
}.

(** A queue of at most [capacity] elements with immediate [push] and [pop]. *)
Class BoundedQueue := {
  queue : Type → Type;
  queue_init {T} : nat → queue T;
  elements {T} : queue T → list T;
  capacity {T} : queue T → nat;
  push {T} : T → queue T → bool * queue T;
  pop {T} : queue T → option (T * queue T);
  elements_init {T} n : elements (queue_init (T:=T) n) = [];
  capacity_init {T} n : capacity (queue_init (T:=T) n) = n;
  push_free {T} (x : T) q : length (elements q) < capacity q →
    (push x q).1 = true ∧ elements (push x q).2 = elements q ++ [x] ∧ capacity (push x q).2 = capacity q;
  push_full {T} (x : T) q : capacity q ≤ length (elements q) → push x q = (false, q);
  pop_nil {T} (q : queue T) : elements q = [] → pop q = None;
  pop_cons {T} (q : queue T) x l : elements q = x :: l →
    ∃ q', pop q = Some (x, q') ∧ elements q' = l ∧ capacity q' = capacity q
}.

Definition empty `{BoundedQueue} {T} (q : queue T) : bool :=
  match elements q with [] => true | _ => false end.
Definition full `{BoundedQueue} {T} (q : queue T) : bool :=
  (capacity q <=? length (elements q))%nat.

(** [signal] wakes one of the waiters, when there is one: the interface says
    which of the tasks (a flag tells whether a task waits). *)
Class ConditionVariable := {
  signalled : list bool → option nat;
  signalled_waits l i : signalled l = Some i → l !! i = Some true;
  signalled_none l : signalled l = None → Forall (λ b, b = false) l
}.

(** A semaphore of one unit that coroutines wait for: [get_unit] (get_units of
    one) is ready at once or makes the coroutine wait, [return_unit] (return_all)
    passes the unit to the coroutine that has waited longest. *)
Class Exclusive := {
  exclusive : Type;
  exclusive_init : exclusive;
  taken : exclusive → bool;
  waiters : exclusive → list nat;
  get_unit : nat → exclusive → bool * exclusive;
  return_unit : exclusive → option nat * exclusive;
  taken_init : taken exclusive_init = false;
  waiters_init : waiters exclusive_init = [];
  get_unit_free i x : taken x = false → waiters x = [] →
    (get_unit i x).1 = true ∧ taken (get_unit i x).2 = true ∧ waiters (get_unit i x).2 = [];
  get_unit_taken i x : taken x = true →
    (get_unit i x).1 = false ∧ taken (get_unit i x).2 = true ∧ waiters (get_unit i x).2 = waiters x ++ [i];
  return_unit_last x : taken x = true → waiters x = [] →
    (return_unit x).1 = None ∧ taken (return_unit x).2 = false ∧ waiters (return_unit x).2 = [];
  return_unit_next x i l : taken x = true → waiters x = i :: l →
    (return_unit x).1 = Some i ∧ taken (return_unit x).2 = true ∧ waiters (return_unit x).2 = l
}.

Lemma try_get_units_Some `{Semaphore} s n s' :
  (0 ≤ n)%Z → try_get_units s n = Some s' →
  (n ≤ available_units s)%Z ∧ available_units s' = (available_units s - n)%Z.
Proof.
  intros Hn Hs. destruct (decide (n ≤ available_units s)%Z) as [Hle|Hgt].
  - destruct (try_get_units_enough s n) as (s2 & E & ?); [done|]. rewrite Hs in E. by simplify_eq.
  - rewrite try_get_units_short in Hs by lia. done.
Qed.

Lemma pop_Some `{BoundedQueue} {T} (q : queue T) x q' :
  pop q = Some (x, q') → elements q = x :: elements q' ∧ capacity q' = capacity q.
Proof.
  intros Hp. destruct (elements q) as [|y l] eqn:E.
  - by rewrite pop_nil in Hp by done.
  - destruct (pop_cons q y l E) as (q2 & E2 & <- & ?). rewrite Hp in E2. by simplify_eq.
Qed.

Lemma full_false `{BoundedQueue} {T} (q : queue T) :
  full q = false ↔ length (elements q) < capacity q.
Proof. unfold full. rewrite Nat.leb_gt. done. Qed.

(** ** Instances *)

Program Definition counting_semaphore : Semaphore := {|
  semaphore := Z;
  semaphore_init n := n;
  available_units s := s;
  try_get_units s n := if (n <=? s)%Z then Some (s - n)%Z else None;
  signal_units s n := (s + n)%Z |}.
Next Obligation. done. Qed.
Next Obligation. intros s n ?. simpl in *. exists (s - n)%Z. rewrite (proj2 (Z.leb_le _ _)) by lia. done. Qed.
Next Obligation. intros s n ??. simpl in *. rewrite (proj2 (Z.leb_gt _ _)) by lia. done. Qed.
Next Obligation. done. Qed.

Program Definition list_queue : BoundedQueue := {|
  queue T := (nat * list T)%type;
  queue_init T n := (n, []);
  elements T q := q.2;
  capacity T q := q.1;
  push T x q := if (length q.2 <? q.1)%nat then (true, (q.1, q.2 ++ [x])) else (false, q);
  pop T q := match q.2 with [] => None | x :: l => Some (x, (q.1, l)) end |}.
Next Obligation. done. Qed.
Next Obligation. done. Qed.
Next Obligation. intros T x [c l] Hl. simpl in *. rewrite (proj2 (Nat.ltb_lt _ _)) by done. done. Qed.
Next Obligation. intros T x [c l] Hl. simpl in *. rewrite (proj2 (Nat.ltb_ge _ _)) by done. done. Qed.
Next Obligation. intros T [c l] Hl. simpl in *. by subst. Qed.
Next Obligation. intros T [c l] x l' Hl. simpl in *. subst. eauto. Qed.

Fixpoint first_true (l : list bool) : option nat :=
  match l with [] => None | true :: _ => Some 0 | false :: l => S <$> first_true l end.

Program Definition first_waiter : ConditionVariable := {| signalled := first_true |}.
Next Obligation.
  intros l. induction l as [|[] l IH]; intros i Hi; simplify_eq/=; [done|].
  destruct (first_true l) eqn:E; simplify_eq/=. by apply IH.
Qed.
Next Obligation.
  intros l. induction l as [|[] l IH]; simpl; intros Hi; [done|done|].
  destruct (first_true l) eqn:E; [done|]. constructor; auto.
Qed.

Program Definition fair_exclusive : Exclusive := {|
  exclusive := (bool * list nat)%type;
  exclusive_init := (false, []);
  taken x := x.1;
  waiters x := x.2;
  get_unit i x := if x.1 then (false, (true, x.2 ++ [i])) else (true, (true, x.2));
  return_unit x := match x.2 with [] => (None, (false, [])) | i :: l => (Some i, (true, l)) end |}.
Next Obligation. done. Qed.
Next Obligation. done. Qed.
Next Obligation. intros i [[] l]; simpl; intros; by simplify_eq. Qed.
Next Obligation. intros i [[] l]; simpl; intros; by simplify_eq. Qed.
Next Obligation. intros [[] l]; simpl; intros; by simplify_eq. Qed.
Next Obligation. intros [[] l] i l'; simpl; intros; by simplify_eq. Qed.
