(* ===== verification/Queue.v ===== *)
(** * The bounded queue in front of every I/O driver

    Models common/include/IoQueue.h: a queue of typed operations with a limit on
    the number and on the bytes of waiting entries, a fixed number of consumers
    and one promise per admitted operation. The coroutines of the consumers are
    a state each; what runs between two suspension points is one step. *)

From S2P Require Import Prelude Seastar.

(** queue_limits *)
Record queue_limits := MkLimits { lim_pending : nat; lim_bytes : Z; lim_concurrency : nat }.
Definition default_limits : queue_limits := MkLimits 128 (1024 * 1024) 4.

Section operation_queue.
Context {SEM : Semaphore} {BQ : BoundedQueue} {CV : ConditionVariable}.
Context {Operation Result : Type} (byte_size : Operation → Z) (sizeof_entry : Z).

(** job: the operation and its promise (promises are numbered). *)
Record job := MkJob { job_completion : nat; job_operation : Operation }.
Record pending_job := MkPending { pj_bytes : Z; pj_item : job }.

(** Where the coroutine consume() is: suspended on the condition variable, about
    to (re)check its condition, awaiting Backend::execute, or returned. *)
Inductive consumer := Waiting | Ready | Executing (item : job) | Exited.

Record operation_queue := MkQueue {
  _limits : queue_limits;
  _owner : nat;
  _accepting : bool;
  _bytes : semaphore;
  _pending : queue pending_job;
  _consumers : list consumer;
  promises : nat;
  completed : list (nat * outcome Result)
}.

Definition with_consumers (cs : list consumer) (q : operation_queue) : operation_queue :=
  MkQueue q.(_limits) q.(_owner) q.(_accepting) q.(_bytes) q.(_pending) cs q.(promises) q.(completed).

(** The constructor. *)
Definition make_queue (limits : queue_limits) (this_shard : nat) : outcome operation_queue :=
  if ((limits.(lim_pending) =? 0)%nat || (limits.(lim_bytes) <=? 0)%Z || (limits.(lim_concurrency) =? 0)%nat)
  then Throw (InvalidArgument "I/O queue limits must be positive")
  else Ok (MkQueue limits this_shard false (semaphore_init limits.(lim_bytes))
             (queue_init limits.(lim_pending)) [] 0 []).

Definition check_owner (this_shard : nat) (q : operation_queue) : outcome unit :=
  if (this_shard =? q.(_owner))%nat then Ok tt else Throw (LogicError "cross-shard I/O submission").

Definition start (this_shard : nat) (q : operation_queue) : outcome unit * operation_queue :=
  match check_owner this_shard q with
  | Throw e => (Throw e, q)
  | Ok _ =>
      if q.(_accepting) || negb (match q.(_consumers) with [] => true | _ => false end)
      then (Throw (LogicError "I/O queue already started"), q)
      else (Ok tt, MkQueue q.(_limits) q.(_owner) true q.(_bytes) q.(_pending)
                     (replicate q.(_limits).(lim_concurrency) Ready) q.(promises) q.(completed))
  end.

Definition waits (c : consumer) : bool := match c with Waiting => true | _ => false end.
Definition runnable (c : consumer) : bool := match c with Ready => true | _ => false end.
Definition exited (c : consumer) : bool := match c with Exited => true | _ => false end.

(** _ready.signal() and _ready.broadcast() *)
Definition signal (cs : list consumer) : list consumer :=
  match signalled (waits <$> cs) with Some i => <[i := Ready]> cs | None => cs end.
Definition broadcast (cs : list consumer) : list consumer :=
  (λ c, if waits c then Ready else c) <$> cs.

(** submit: the result is the number of the promise whose future the caller gets. *)
Definition submit (this_shard : nat) (operation : Operation) (q : operation_queue) :
    outcome nat * operation_queue :=
  match check_owner this_shard q with
  | Throw e => (Throw e, q)
  | Ok _ =>
      if negb q.(_accepting) then (Throw Stopped, q)
      else
        let bytes := (sizeof_entry + byte_size operation)%Z in
        let storage := try_get_units q.(_bytes) bytes in
        match full q.(_pending), storage with
        | false, Some rest =>
            let item := MkJob q.(promises) operation in
            (Ok q.(promises),
             MkQueue q.(_limits) q.(_owner) q.(_accepting) rest (push (MkPending bytes item) q.(_pending)).2
               (signal q.(_consumers)) (S q.(promises)) q.(completed))
        | _, _ => (Throw Overloaded, q)
        end
  end.

(** consume(): consumer [i] runs from its loop head to its next suspension. *)
Definition consume (i : nat) (q : operation_queue) : operation_queue :=
  match q.(_consumers) !! i with
  | Some Ready =>
      if empty q.(_pending) && q.(_accepting) then with_consumers (<[i := Waiting]> q.(_consumers)) q
      else if negb q.(_accepting) then with_consumers (<[i := Exited]> q.(_consumers)) q
      else match pop q.(_pending) with
           | None => q
           | Some (pending, rest) =>
               MkQueue q.(_limits) q.(_owner) q.(_accepting)
                 (signal_units q.(_bytes) pending.(pj_bytes)) rest
                 (<[i := Executing pending.(pj_item)]> q.(_consumers)) q.(promises) q.(completed)
           end
  | _ => q
  end.

(** execute(job): the backend's future of consumer [i] resolved with [r]; the
    promise takes the value or the exception. *)
Definition execute_job (i : nat) (r : outcome Result) (q : operation_queue) : operation_queue :=
  match q.(_consumers) !! i with
  | Some (Executing item) =>
      MkQueue q.(_limits) q.(_owner) q.(_accepting) q.(_bytes) q.(_pending)
        (<[i := Ready]> q.(_consumers)) q.(promises) (q.(completed) ++ [(item.(job_completion), r)])
  | _ => q
  end.

(** The loop of begin_stop(), run as often as there are entries. *)
Fixpoint reject_pending (fuel : nat) (bytes : semaphore) (pending : queue pending_job)
    (done : list (nat * outcome Result)) : semaphore * queue pending_job * list (nat * outcome Result) :=
  match fuel with
  | O => (bytes, pending, done)
  | S fuel =>
      match pop pending with
      | None => (bytes, pending, done)
      | Some (p, rest) =>
          reject_pending fuel (signal_units bytes p.(pj_bytes)) rest
            (done ++ [(p.(pj_item).(job_completion), Throw Stopped)])
      end
  end.

Definition begin_stop (this_shard : nat) (q : operation_queue) : outcome unit * operation_queue :=
  match check_owner this_shard q with
  | Throw e => (Throw e, q)
  | Ok _ =>
      let '(bytes, pending, done) :=
        reject_pending (length (elements q.(_pending))) q.(_bytes) q.(_pending) q.(completed) in
      (Ok tt, MkQueue q.(_limits) q.(_owner) false bytes pending (broadcast q.(_consumers)) q.(promises) done)
  end.

(** stop() after its begin_stop(): returns when every consumer has. *)
Definition stop_returns (q : operation_queue) : option operation_queue :=
  if forallb exited q.(_consumers) then Some (with_consumers [] q) else None.

(** ** Runs *)

(** What the queue does by itself: a consumer continues, or the backend of one
    finishes. *)
Inductive internal_step (q : operation_queue) : operation_queue → Prop :=
  | internal_consume i : q.(_consumers) !! i = Some Ready → internal_step q (consume i q)
  | internal_execute i item r : q.(_consumers) !! i = Some (Executing item) →
      internal_step q (execute_job i r q).

(** [step_wakeup]: a wait may end without a signal. *)
Inductive queue_step (q : operation_queue) : operation_queue → Prop :=
  | step_internal q' : internal_step q q' → queue_step q q'
  | step_start shard : queue_step q (start shard q).2
  | step_submit shard op : queue_step q (submit shard op q).2
  | step_begin_stop shard : queue_step q (begin_stop shard q).2
  | step_stop q' : q.(_accepting) = false → stop_returns q = Some q' → queue_step q q'
  | step_wakeup i : q.(_consumers) !! i = Some Waiting →
      queue_step q (with_consumers (<[i := Ready]> q.(_consumers)) q).

(** ** The invariant *)

Definition promise_of (p : pending_job) : nat := p.(pj_item).(job_completion).
Definition waiting_promises (q : operation_queue) : list nat := promise_of <$> elements q.(_pending).
Definition held (c : consumer) : list nat :=
  match c with Executing item => [item.(job_completion)] | _ => [] end.
Definition executing (cs : list consumer) : list nat := cs ≫= held.
Definition count (p : consumer → bool) (cs : list consumer) : nat := length (filter p cs).
Definition total_bytes (l : list pending_job) : Z := foldr (λ p n, pj_bytes p + n)%Z 0%Z l.

Record queue_ok (q : operation_queue) : Prop := {
  ok_limits : 0 < lim_concurrency (_limits q);
  ok_bytes : (available_units (_bytes q) + total_bytes (elements (_pending q)) = lim_bytes (_limits q))%Z;
  ok_units : (0 ≤ available_units (_bytes q))%Z;
  ok_entries : Forall (λ p, 0 ≤ pj_bytes p)%Z (elements (_pending q));
  ok_capacity : capacity (_pending q) = lim_pending (_limits q);
  ok_length : length (elements (_pending q)) ≤ lim_pending (_limits q);
  ok_consumers : _consumers q = [] ∨ length (_consumers q) = lim_concurrency (_limits q);
  ok_promises : (completed q).*1 ++ executing (_consumers q) ++ waiting_promises q ≡ₚ seq 0 (promises q);
  ok_order : waiting_promises q =
    seq (promises q - length (elements (_pending q))) (length (elements (_pending q)));
  ok_accepting : _accepting q = true →
    length (_consumers q) = lim_concurrency (_limits q) ∧ count exited (_consumers q) = 0 ∧
    (count waits (_consumers q) = 0 ∨ length (elements (_pending q)) ≤ count runnable (_consumers q));
  ok_stopping : _accepting q = false → elements (_pending q) = [] ∧ count waits (_consumers q) = 0
}.

Lemma count_insert p cs i c c' :
  cs !! i = Some c →
  count p (<[i := c']> cs) + (if p c then 1 else 0) = count p cs + (if p c' then 1 else 0).
Proof.
  intros Hi. unfold count. pose proof (lookup_lt_Some _ _ _ Hi).
  rewrite <- (take_drop_middle cs i c Hi) at 2. rewrite insert_take_drop by done.
  rewrite !filter_app, !filter_cons, !length_app.
  destruct (decide (p c)), (decide (p c')); simpl; destruct (p c), (p c'); simpl in *; try done; lia.
Qed.

Lemma executing_insert cs i c c' :
  cs !! i = Some c → held c ++ executing (<[i := c']> cs) ≡ₚ held c' ++ executing cs.
Proof.
  intros Hi. unfold executing. pose proof (lookup_lt_Some _ _ _ Hi).
  rewrite <- (take_drop_middle cs i c Hi) at 2. rewrite insert_take_drop by done.
  rewrite !bind_app, !bind_cons. solve_Permutation.
Qed.

Lemma count_zero p cs i c : count p cs = 0 → cs !! i = Some c → p c = false.
Proof.
  intros H0 Hi. apply length_zero_iff_nil in H0. destruct (p c) eqn:E; [|done].
  assert (c ∈ filter p cs) as Hin; [|by rewrite H0 in Hin; inversion Hin].
  apply list_elem_of_filter. split; [by rewrite E|]. by eapply list_elem_of_lookup_2.
Qed.

Lemma count_none p cs : Forall (λ c, p c = false) cs → count p cs = 0.
Proof.
  unfold count. induction 1 as [|c cs Hc _ IH]; [done|].
  rewrite filter_cons, decide_False; [done|]. rewrite Hc. by intros [].
Qed.

Lemma count_replicate p n c : count p (replicate n c) = if p c then n else 0.
Proof.
  unfold count. induction n as [|n IH]; simpl; [by destruct (p c)|].
  rewrite filter_cons. destruct (decide (p c)) as [E|E]; simpl; rewrite IH;
    destruct (p c); simpl in *; done.
Qed.

Lemma executing_none cs : Forall (λ c, held c = []) cs → executing cs = [].
Proof. induction 1 as [|c cs E _ IH]; [done|]. unfold executing. simpl. rewrite E. done. Qed.

Lemma executing_replicate n : executing (replicate n Ready) = [].
Proof. apply executing_none, Forall_replicate. done. Qed.

(** A signal wakes a consumer when one waits. *)
Lemma signal_spec cs :
  (signal cs = cs ∧ count waits cs = 0) ∨
  (∃ i, cs !! i = Some Waiting ∧ signal cs = <[i := Ready]> cs).
Proof.
  unfold signal. destruct (signalled _) as [i|] eqn:E.
  - right. exists i. split; [|done]. apply signalled_waits in E.
    rewrite list_lookup_fmap in E. by destruct (cs !! i) as [[]|].
  - left. split; [done|]. apply count_none. apply signalled_none in E. by rewrite Forall_fmap in E.
Qed.

Lemma broadcast_spec cs :
  count waits (broadcast cs) = 0 ∧ executing (broadcast cs) = executing cs ∧
  length (broadcast cs) = length cs.
Proof.
  unfold broadcast. split_and!; [| |by rewrite length_fmap].
  - apply count_none, Forall_fmap, Forall_true. by intros [].
  - unfold executing. induction cs as [|c cs IH]; [done|].
    rewrite fmap_cons, !bind_cons, IH. by destruct c.
Qed.

Lemma reject_pending_spec n bytes pending done b p d :
  n = length (elements pending) →
  reject_pending n bytes pending done = (b, p, d) →
  elements p = [] ∧ capacity p = capacity pending ∧
  available_units b = (available_units bytes + total_bytes (elements pending))%Z ∧
  d = done ++ ((λ x, (promise_of x, Throw Stopped)) <$> elements pending).
Proof.
  revert bytes pending done. induction n as [|n IH]; intros bytes pending done Hn; simpl.
  - intros [= <- <- <-]. symmetry in Hn. apply length_zero_iff_nil in Hn. rewrite Hn. simpl.
    rewrite app_nil_r. split_and!; try done. lia.
  - destruct (elements pending) as [|x l] eqn:E; [done|].
    destruct (pop_cons _ _ _ E) as (q' & -> & El & Ec). intros Hr.
    apply IH in Hr as (? & ? & Hb & ->); [|rewrite El; simpl in Hn; lia].
    rewrite El, available_signal in Hb. rewrite El. simpl. split_and!; try done; [congruence|lia|].
    by rewrite <- app_assoc.
Qed.

Lemma make_queue_ok limits shard q : make_queue limits shard = Ok q → queue_ok q.
Proof.
  unfold make_queue. destruct (_ || _) eqn:E; [done|]. intros [= <-].
  apply orb_false_iff in E as [[E1%Nat.eqb_neq E2%Z.leb_gt]%orb_false_iff E3%Nat.eqb_neq].
  split; simpl; rewrite ?elements_init, ?capacity_init, ?available_init; simpl;
    unfold waiting_promises; simpl; rewrite ?elements_init; simpl; auto with lia.
Qed.

Lemma start_ok shard q : queue_ok q → queue_ok (start shard q).2.
Proof.
  intros Hok. unfold start. destruct (check_owner _ _); [|done].
  destruct (_ || _) eqn:E; [done|]. apply orb_false_iff in E as [Ea Ec].
  destruct (_consumers q) eqn:Ecs; [|done]. destruct Hok.
  destruct ok_stopping0 as [Hp _]; [done|].
  split; simpl; try done.
  - right. apply length_replicate.
  - unfold waiting_promises in *. simpl in *. rewrite executing_replicate. by rewrite Ecs in ok_promises0.
  - intros _. rewrite length_replicate, !count_replicate. simpl. auto.
Qed.

Lemma waiting_bound q : queue_ok q → length (elements (_pending q)) ≤ promises q.
Proof.
  intros Hok. pose proof (Permutation_length (ok_promises _ Hok)) as E.
  unfold waiting_promises in E. rewrite !length_app, !length_fmap, length_seq in E. lia.
Qed.

Lemma submit_ok shard op q :
  (0 ≤ sizeof_entry + byte_size op)%Z → queue_ok q → queue_ok (submit shard op q).2.
Proof.
  intros Hsize Hok. unfold submit. destruct (check_owner _ _); [|done].
  destruct (_accepting q) eqn:Ea; simpl; [|done].
  destruct (full (_pending q)) eqn:Ef; [done|].
  destruct (try_get_units _ _) as [rest|] eqn:Et; [|done]. simpl.
  apply try_get_units_Some in Et as [Hle Hrest]; [|done]. rewrite full_false in Ef.
  set (item := MkPending _ _). destruct (push_free item (_pending q) Ef) as (_ & Hel & Hcap).
  pose proof (waiting_bound q Hok) as Hbound.
  destruct Hok. destruct ok_accepting0 as (Hlen & Hex & Hwake); [done|].
  assert (waiting_promises q ++ [promises q] =
    seq (promises q - length (elements (_pending q))) (S (length (elements (_pending q))))) as Hord.
  { rewrite seq_S. f_equal; [done|]. f_equal.
    lia. }
  assert (∀ cs, executing cs ≡ₚ executing (_consumers q) →
    (completed q).*1 ++ executing cs ++ waiting_promises q ++ [promises q] ≡ₚ seq 0 (S (promises q))) as Hperm.
  { intros cs ->. rewrite seq_S, <- ok_promises0. solve_Permutation. }
  split; simpl; rewrite ?Hel, ?Hcap, ?length_app; simpl; try done.
  - rewrite Hrest, <- ok_bytes0. unfold total_bytes. rewrite foldr_app. simpl.
    generalize (elements (_pending q)) as l. intros l. clear -SEM. induction l as [|x l IH]; simpl; lia.
  - lia.
  - apply Forall_app. split; [done|]. constructor; [done|constructor].
  - lia.
  - destruct (signal_spec (_consumers q)) as [[-> _]|(i & _ & ->)]; rewrite ?length_insert; auto.
  - unfold waiting_promises. simpl. rewrite Hel, fmap_app. simpl. apply Hperm.
    destruct (signal_spec (_consumers q)) as [[-> _]|(i & Hi & ->)]; [done|].
    apply (executing_insert _ _ Waiting Ready Hi).
  - unfold waiting_promises. simpl. rewrite Hel, fmap_app. simpl.
    etrans; [exact Hord|]. by rewrite Nat.add_1_r.
  - intros _. destruct (signal_spec (_consumers q)) as [[-> Hw]|(i & Hi & ->)]; [auto|].
    rewrite length_insert.
    pose proof (count_insert exited _ _ _ Ready Hi). pose proof (count_insert waits _ _ _ Ready Hi).
    pose proof (count_insert runnable _ _ _ Ready Hi). simpl in *. lia.
Qed.

(** Replacing the state of one consumer that holds no job by another such. *)
Lemma with_consumer_ok i c c' q :
  _consumers q !! i = Some c → held c = held c' →
  (_accepting q = true → exited c' = false ∧
     (count waits (<[i:=c']> (_consumers q)) = 0 ∨
      length (elements (_pending q)) ≤ count runnable (<[i:=c']> (_consumers q)))) →
  (_accepting q = false → waits c' = false) →
  queue_ok q → queue_ok (with_consumers (<[i := c']> (_consumers q)) q).
Proof.
  intros Hi Hh Hacc Hstop []. split; simpl; rewrite ?length_insert; try done.
  - destruct ok_consumers0 as [E|]; [by rewrite E in Hi|auto].
  - unfold waiting_promises in *. simpl. rewrite <- ok_promises0. f_equiv. f_equiv.
    pose proof (executing_insert _ _ _ c' Hi) as Hp. rewrite Hh in Hp. by apply Permutation_app_inv_l in Hp.
  - intros Ha. destruct (Hacc Ha) as [Hc' Hw]. destruct (ok_accepting0 Ha) as (Hl & Hex & _).
    pose proof (count_insert exited _ _ _ c' Hi) as E. rewrite Hc' in E.
    rewrite (count_zero exited _ _ _ Hex Hi) in E. split_and!; [done|lia|done].
  - intros Ha. destruct (ok_stopping0 Ha) as (Hp & Hw). split; [done|].
    pose proof (count_insert waits _ _ _ c' Hi) as E. rewrite (Hstop Ha) in E.
    rewrite (count_zero waits _ _ _ Hw Hi) in E. lia.
Qed.

Lemma consume_ok i q : queue_ok q → queue_ok (consume i q).
Proof.
  intros Hok. unfold consume. destruct (_consumers q !! i) as [[]|] eqn:Hi; try done.
  pose proof (count_insert waits _ _ _ Waiting Hi) as Ew.
  destruct (empty (_pending q) && _accepting q) eqn:Ea.
  { apply andb_true_iff in Ea as [Hem Ha]. unfold empty in Hem.
    apply (with_consumer_ok _ Ready Waiting); try done; [|by rewrite Ha].
    intros _. split; [done|right]. destruct (elements _); [simpl; lia|done]. }
  destruct (_accepting q) eqn:Hacc; simpl.
  2: { apply (with_consumer_ok _ Ready Exited); try done; by rewrite Hacc. }
  destruct (pop (_pending q)) as [[p rest]|] eqn:Hpop; [|done].
  apply pop_Some in Hpop as [Hel Hcap]. clear Ea Ew. pose proof (waiting_bound q Hok) as Hbound.
  destruct Hok. destruct ok_accepting0 as (Hlen & Hex & Hwake); [done|].
  rewrite Hel in *. unfold waiting_promises in *. rewrite Hel in *. simpl in *.
  apply Forall_cons in ok_entries0 as [Hp Hrest].
  split; simpl; rewrite ?length_insert, ?available_signal; try done; try lia.
  - rewrite <- ok_promises0. unfold waiting_promises. simpl. f_equiv.
    pose proof (executing_insert _ _ _ (Executing (pj_item p)) Hi) as E. simpl in E. rewrite E.
    unfold promise_of. solve_Permutation.
  - unfold waiting_promises. simpl. injection ok_order0 as _ E. etrans; [exact E|]. f_equal.
    simpl in Hbound. lia.
  - intros _.
    pose proof (count_insert exited _ _ _ (Executing (pj_item p)) Hi).
    pose proof (count_insert waits _ _ _ (Executing (pj_item p)) Hi).
    pose proof (count_insert runnable _ _ _ (Executing (pj_item p)) Hi). simpl in *. lia.
Qed.

Lemma execute_job_ok i r q : queue_ok q → queue_ok (execute_job i r q).
Proof.
  intros Hok. unfold execute_job. destruct (_consumers q !! i) as [[]|] eqn:Hi; try done.
  pose proof (count_insert exited _ _ _ Ready Hi). pose proof (count_insert waits _ _ _ Ready Hi).
  pose proof (count_insert runnable _ _ _ Ready Hi). simpl in *.
  destruct Hok. split; simpl; rewrite ?length_insert; try done.
  - destruct ok_consumers0 as [E|]; [by rewrite E in Hi|auto].
  - rewrite <- ok_promises0, fmap_app. unfold waiting_promises. simpl.
    pose proof (executing_insert _ _ _ Ready Hi) as E. simpl in E. rewrite <- E. solve_Permutation.
  - intros Ha. destruct (ok_accepting0 Ha) as (? & ? & ?). lia.
  - intros Ha. destruct (ok_stopping0 Ha) as (? & ?). split; [done|lia].
Qed.

Lemma begin_stop_ok shard q : queue_ok q → queue_ok (begin_stop shard q).2.
Proof.
  intros Hok. unfold begin_stop. destruct (check_owner _ _); [|done].
  destruct (reject_pending _ _ _ _) as [[b p] d] eqn:E.
  apply reject_pending_spec in E as (Hp & Hcap & Hb & ->); [|done]. simpl.
  destruct (broadcast_spec (_consumers q)) as (Hw & Hex & Hlen).
  destruct Hok. split; simpl; rewrite ?Hp, ?Hlen, ?Hb; simpl; try done; try lia.
  - assert (0 ≤ total_bytes (elements (_pending q)))%Z; [|lia].
    clear -ok_entries0. induction ok_entries0; simpl; lia.
  - destruct ok_consumers0 as [->|]; [by left|by right].
  - unfold waiting_promises in *. simpl. rewrite Hp, Hex, <- ok_promises0. simpl.
    rewrite app_nil_r, fmap_app, <- list_fmap_compose. unfold compose. simpl. solve_Permutation.
  - unfold waiting_promises. simpl. by rewrite Hp.
Qed.

Lemma stop_ok q q' : _accepting q = false → stop_returns q = Some q' → queue_ok q → queue_ok q'.
Proof.
  unfold stop_returns. intros Ha. destruct (forallb _ _) eqn:E; [|done]. intros [= <-] [].
  destruct (ok_stopping0 Ha) as [Hp _].
  assert (executing (_consumers q) = []) as Hex.
  { apply executing_none, Forall_forall. intros c Hc. rewrite forallb_forall in E.
    specialize (E c). rewrite list_elem_of_In in Hc. by destruct c; try (specialize (E Hc)). }
  split; simpl; try done; [by left| |by rewrite Ha].
  unfold waiting_promises in *. simpl. by rewrite Hex in ok_promises0.
Qed.

(** Sizes are of type size_t. *)
Hypothesis sizes : ∀ op, (0 ≤ sizeof_entry + byte_size op)%Z.

Lemma queue_step_ok q q' : queue_step q q' → queue_ok q → queue_ok q'.
Proof using sizes.
  destruct 1 as [q' [i _|i item r _]|shard|shard op|shard|q' Ha Hs|i Hi]; intros Hok.
  - by apply consume_ok.
  - by apply execute_job_ok.
  - by apply start_ok.
  - by apply submit_ok.
  - by apply begin_stop_ok.
  - by eapply stop_ok.
  - apply (with_consumer_ok i Waiting Ready); try done. intros Ha. split; [done|].
    destruct (ok_accepting _ Hok Ha) as (_ & _ & Hw).
    pose proof (count_insert waits _ _ _ Ready Hi). pose proof (count_insert runnable _ _ _ Ready Hi).
    simpl in *. lia.
Qed.

Lemma reachable_ok limits shard q0 q :
  make_queue limits shard = Ok q0 → rtc queue_step q0 q → queue_ok q.
Proof using sizes.
  intros Hq0 Hr. apply make_queue_ok in Hq0. revert Hq0. induction Hr; eauto using queue_step_ok.
Qed.

Lemma step_limits q q' : queue_step q q' → _limits q' = _limits q.
Proof.
  destruct 1 as [q' [i _|i item r _]|shard|shard op|shard|q' Ha Hs|i Hi];
    unfold consume, execute_job, start, submit, begin_stop, stop_returns, with_consumers in *;
    repeat case_match; simplify_eq/=; done.
Qed.

Lemma step_completed q q' : queue_step q q' → completed q `prefix_of` completed q'.
Proof.
  destruct 1 as [q' [i _|i item r _]|shard|shard op|shard|q' Ha Hs|i Hi];
    unfold consume, execute_job, start, submit, stop_returns, with_consumers in *;
    repeat case_match; simplify_eq/=; try done; [by eexists|].
  unfold begin_stop. destruct (check_owner _ _); [|done].
  destruct (reject_pending _ _ _ _) as [[b p] d] eqn:E.
  apply reject_pending_spec in E as (_ & _ & _ & ->); [|done]. by eexists.
Qed.

Lemma executing_length cs : length (executing cs) ≤ length cs.
Proof.
  unfold executing. induction cs as [|c cs IH]; [done|]. rewrite bind_cons, length_app.
  destruct c; simpl; lia.
Qed.

Lemma total_bytes_nonneg l : Forall (λ p, 0 ≤ pj_bytes p)%Z l → (0 ≤ total_bytes l)%Z.
Proof. induction 1; simpl; lia. Qed.

(** A queue stays within its limits whatever its callers and its backend do:
    the waiting entries within the byte and entry limits, the operations in
    execution within the concurrency. Every admitted operation is, at any time,
    in exactly one place: answered, in execution, or waiting. *)
Theorem queue_within_limits limits shard q0 q :
  make_queue limits shard = Ok q0 → rtc queue_step q0 q →
  (0 ≤ total_bytes (elements (_pending q)) ≤ lim_bytes limits)%Z ∧
  length (elements (_pending q)) ≤ lim_pending limits ∧
  length (executing (_consumers q)) ≤ lim_concurrency limits ∧
  (completed q).*1 ++ executing (_consumers q) ++ waiting_promises q ≡ₚ seq 0 (promises q).
Proof using sizes.
  intros Hq0 Hr. pose proof (reachable_ok _ _ _ _ Hq0 Hr) as Hok.
  assert (_limits q = limits) as <-.
  { apply (rtc_ind_l (λ x, _limits q = _limits x) q) in Hr as ->; [|done|].
    - unfold make_queue in Hq0. case_match; by simplify_eq.
    - intros x y Hs _ ->. by apply step_limits. }
  destruct Hok. pose proof (total_bytes_nonneg _ ok_entries0).
  pose proof (executing_length (_consumers q)).
  split_and!; try done; try lia.
  destruct ok_consumers0 as [E|E]; [rewrite E; simpl; lia|lia].
Qed.

(** An answer is final, and there is one per operation: no operation is
    answered twice, and later steps keep the answers given. *)
Theorem queue_answers_once limits shard q0 q q' :
  make_queue limits shard = Ok q0 → rtc queue_step q0 q → rtc queue_step q q' →
  NoDup (completed q).*1 ∧ completed q `prefix_of` completed q'.
Proof using sizes.
  intros Hq0 Hr Hr'. split.
  - pose proof (ok_promises _ (reachable_ok _ _ _ _ Hq0 Hr)) as Hp.
    pose proof (NoDup_seq 0 (promises q)) as Hn. rewrite <- Hp in Hn. by apply NoDup_app in Hn as [? _].
  - induction Hr' as [|x y z Hs _ IH]; [done|].
    etrans; [by apply step_completed|]. apply IH. by eapply rtc_r.
Qed.

(** Operations are started in the order they were admitted: whatever was
    started (answered or in execution) while the queue accepts was admitted
    before everything that waits, and the waiting entries are in admission
    order, so that [consume] takes the oldest. *)
Theorem queue_first_in_first_out limits shard q0 q p w :
  make_queue limits shard = Ok q0 → rtc queue_step q0 q →
  p ∈ (completed q).*1 ++ executing (_consumers q) → w ∈ waiting_promises q →
  p < w ∧ StronglySorted lt (waiting_promises q).
Proof using sizes.
  intros Hq0 Hr Hp Hw. pose proof (reachable_ok _ _ _ _ Hq0 Hr) as Hok.
  pose proof (waiting_bound _ Hok) as Hb. destruct Hok.
  set (k := length (elements (_pending q))) in *.
  assert ((completed q).*1 ++ executing (_consumers q) ≡ₚ seq 0 (promises q - k)) as Hperm.
  { apply (Permutation_app_inv_r (waiting_promises q)). rewrite <- app_assoc, ok_promises0, ok_order0.
    pose proof (seq_app (promises q - k) k 0) as E. simpl in E. rewrite <- E. by replace (promises q - k + k) with (promises q) by lia. }
  rewrite Hperm in Hp. apply elem_of_seq in Hp. split.
  - rewrite ok_order0 in Hw. apply elem_of_seq in Hw. lia.
  - rewrite ok_order0. generalize (promises q - k). clear. induction k as [|k IH]; intros n; simpl; constructor; auto.
    apply Forall_forall. intros x Hx%elem_of_seq. lia.
Qed.

(** The work ahead: it bounds the number of internal steps. *)
Definition work (q : operation_queue) : nat :=
  3 * length (elements (_pending q)) + 2 * length (executing (_consumers q)) + count runnable (_consumers q).

Lemma executing_insert_length cs i c c' :
  cs !! i = Some c → length (held c) + length (executing (<[i := c']> cs)) = length (held c') + length (executing cs).
Proof. intros Hi. rewrite <- !length_app. by rewrite executing_insert. Qed.

Lemma internal_step_work q q' : internal_step q q' → work q' < work q.
Proof.
  unfold work. destruct 1 as [i Hi|i item r Hi].
  - unfold consume. rewrite Hi. destruct (empty (_pending q) && _accepting q) eqn:Ea; simpl.
    { pose proof (count_insert runnable _ _ _ Waiting Hi).
      pose proof (executing_insert_length _ _ _ Waiting Hi). simpl in *. lia. }
    destruct (_accepting q) eqn:Hacc; simpl.
    2: { pose proof (count_insert runnable _ _ _ Exited Hi).
         pose proof (executing_insert_length _ _ _ Exited Hi). simpl in *. lia. }
    unfold empty in Ea. destruct (elements (_pending q)) as [|x l] eqn:E; [done|].
    destruct (pop_cons _ _ _ E) as (rest & -> & El & _). simpl. rewrite El.
    pose proof (count_insert runnable _ _ _ (Executing (pj_item x)) Hi).
    pose proof (executing_insert_length _ _ _ (Executing (pj_item x)) Hi). simpl in *. lia.
  - unfold execute_job. rewrite Hi. simpl.
    pose proof (count_insert runnable _ _ _ Ready Hi).
    pose proof (executing_insert_length _ _ _ Ready Hi). simpl in *. lia.
Qed.

(** C31: the queue never gets stuck and never loses a wake-up: left to its
    consumers and to a backend that answers, it takes at most [work q] steps,
    and when no step is left every admitted operation has its answer; after
    begin_stop() every consumer has then returned, so stop() returns. *)
Theorem queue_drains limits shard q0 q :
  make_queue limits shard = Ok q0 → rtc queue_step q0 q →
  (∀ q', internal_step q q' → work q' < work q) ∧
  ((∀ q', ¬ internal_step q q') →
     (∀ p, p < promises q → ∃ r, (p, r) ∈ completed q) ∧
     (_accepting q = false → is_Some (stop_returns q))).
Proof using sizes.
  intros Hq0 Hr. pose proof (reachable_ok _ _ _ _ Hq0 Hr) as Hok.
  split; [apply internal_step_work|]. intros Hstuck.
  assert (∀ i c, _consumers q !! i = Some c → c = Waiting ∨ c = Exited) as Hcs.
  { intros i [] Hi; [by left| | |by right]; exfalso.
    - by eapply Hstuck, internal_consume.
    - by eapply Hstuck, (internal_execute _ _ _ (Throw Stopped)). }
  assert (executing (_consumers q) = []) as Hex.
  { apply executing_none, Forall_lookup. intros i c Hi. by destruct (Hcs i c Hi) as [-> | ->]. }
  assert (elements (_pending q) = []) as Hel.
  { destruct (_accepting q) eqn:Ha; [|by apply Hok].
    destruct (ok_accepting _ Hok Ha) as (Hlen & Hnex & Hwake).
    pose proof (ok_limits _ Hok) as Hpos. destruct (_consumers q) as [|c cs] eqn:Ecs; [simpl in *; lia|].
    destruct (Hcs 0 c) as [-> | ->]; [done| |by apply (count_zero exited _ 0 Exited) in Hnex].
    destruct Hwake as [Hw|Hl]; [by apply (count_zero waits _ 0 Waiting) in Hw|].
    assert (count runnable (Waiting :: cs) = 0) as E0; [|apply length_zero_iff_nil; lia].
    apply count_none, Forall_lookup. intros i c Hi. by destruct (Hcs i c Hi) as [-> | ->]. }
  split.
  - intros p Hp. pose proof (ok_promises _ Hok) as Hperm. unfold waiting_promises in Hperm.
    rewrite Hex, Hel in Hperm. simpl in Hperm. rewrite app_nil_r in Hperm.
    assert (p ∈ (completed q).*1) as ((p' & r) & -> & Hin)%list_elem_of_fmap; [|by exists r].
    rewrite Hperm. apply elem_of_seq. lia.
  - intros Ha. unfold stop_returns. destruct (forallb _ _) eqn:E; [done|]. exfalso.
    apply not_true_iff_false in E. apply E, forallb_forall. intros c Hc%list_elem_of_In.
    apply list_elem_of_lookup in Hc as [i Hi]. destruct (Hcs i c Hi) as [-> | ->]; [|done].
    destruct (ok_stopping _ Hok Ha) as [_ Hw]. by apply (count_zero waits _ i Waiting) in Hw.
Qed.

(** Begin_stop() rejects every waiting operation with [Stopped], in order,
    leaves the answers and the operations in execution alone, returns all the
    bytes, and after it submit() is refused without an effect. *)
Theorem begin_stop_rejects limits shard q0 q :
  make_queue limits shard = Ok q0 → rtc queue_step q0 q →
  let q' := (begin_stop (_owner q) q).2 in
  completed q' = completed q ++ ((λ p, (p, Throw Stopped)) <$> waiting_promises q) ∧
  executing (_consumers q') = executing (_consumers q) ∧
  elements (_pending q') = [] ∧ available_units (_bytes q') = lim_bytes (_limits q) ∧
  ∀ op, submit (_owner q) op q' = (Throw Stopped, q').
Proof using sizes.
  intros Hq0 Hr. pose proof (reachable_ok _ _ _ _ Hq0 Hr) as Hok.
  unfold begin_stop, check_owner. rewrite Nat.eqb_refl.
  destruct (reject_pending _ _ _ _) as [[b p] d] eqn:E.
  apply reject_pending_spec in E as (Hp & _ & Hb & ->); [|done]. simpl.
  split_and!; try done.
  - unfold waiting_promises. by rewrite <- list_fmap_compose.
  - apply broadcast_spec.
  - rewrite Hb. apply Hok.
  - intros op. unfold submit, check_owner. simpl. by rewrite Nat.eqb_refl.
Qed.
End operation_queue.

(** ** A concrete run: a queue of two entries and one consumer *)

Section runs.
#[local] Existing Instance counting_semaphore.
#[local] Existing Instance list_queue.
#[local] Existing Instance first_waiter.

Definition demo_limits : queue_limits := MkLimits 2 100 1.
Definition demo_made : operation_queue (Operation:=nat) (Result:=nat) :=
  MkQueue demo_limits 0 false (semaphore_init 100) (queue_init 2) [] 0 [].
Definition demo_submit (n : nat) (q : operation_queue (Operation:=nat) (Result:=nat)) :=
  (submit Z.of_nat 8 0 n q).2.

(** Started; the operations 5 and 6 submitted; the first one in execution. *)
Definition demo_busy : operation_queue (Operation:=nat) (Result:=nat) :=
  consume 0 (demo_submit 6 (demo_submit 5 (start 0 demo_made).2)).

(** Both answered, the consumer waits. *)
Definition demo_drained : operation_queue (Operation:=nat) (Result:=nat) :=
  consume 0 (execute_job 0 (Ok 60) (consume 0 (execute_job 0 (Ok 50) demo_busy))).

Lemma demo_sizes (op : nat) : (0 ≤ 8 + Z.of_nat op)%Z.
Proof. lia. Qed.

Lemma demo_reaches_busy : rtc (queue_step Z.of_nat 8) demo_made demo_busy.
Proof.
  eapply rtc_l; [apply (step_start _ _ demo_made 0)|].
  eapply rtc_l; [apply (step_submit _ _ _ 0 5)|].
  eapply rtc_l; [apply (step_submit _ _ _ 0 6)|].
  eapply rtc_l; [apply step_internal, (internal_consume _ 0)|]; [vm_compute; reflexivity|].
  apply rtc_refl.
Qed.

Lemma demo_busy_drains : rtc (queue_step Z.of_nat 8) demo_busy demo_drained.
Proof.
  eapply rtc_l; [apply step_internal, (internal_execute _ 0 (MkJob 0 5) (Ok 50)); vm_compute; reflexivity|].
  eapply rtc_l; [apply step_internal, (internal_consume _ 0); vm_compute; reflexivity|].
  eapply rtc_l; [apply step_internal, (internal_execute _ 0 (MkJob 1 6) (Ok 60)); vm_compute; reflexivity|].
  eapply rtc_l; [apply step_internal, (internal_consume _ 0); vm_compute; reflexivity|].
  apply rtc_refl.
Qed.

Lemma demo_reaches_drained : rtc (queue_step Z.of_nat 8) demo_made demo_drained.
Proof. etrans; [apply demo_reaches_busy|apply demo_busy_drains]. Qed.

Lemma queue_within_limits_witness :
  executing (_consumers demo_busy) = [0] ∧ waiting_promises demo_busy = [1] ∧
  (0 ≤ total_bytes (elements (_pending demo_busy)) ≤ 100)%Z.
Proof.
  split; [vm_compute; reflexivity|]. split; [vm_compute; reflexivity|].
  exact (proj1 (queue_within_limits Z.of_nat 8 demo_sizes demo_limits 0 demo_made demo_busy
    eq_refl demo_reaches_busy)).
Defined.

Lemma queue_answers_once_witness :
  completed demo_drained = [(0, Ok 50); (1, Ok 60)] ∧ completed demo_busy `prefix_of` completed demo_drained.
Proof.
  split; [vm_compute; reflexivity|].
  exact (proj2 (queue_answers_once Z.of_nat 8 demo_sizes demo_limits 0 demo_made demo_busy demo_drained
    eq_refl demo_reaches_busy demo_busy_drains)).
Defined.

Lemma queue_first_in_first_out_witness : 0 < 1 ∧ StronglySorted lt (waiting_promises demo_busy).
Proof.
  apply (queue_first_in_first_out Z.of_nat 8 demo_sizes demo_limits 0 demo_made demo_busy 0 1
    eq_refl demo_reaches_busy); vm_compute; apply list_elem_of_here.
Defined.

Lemma queue_drains_witness : ∃ r, (1, r) ∈ completed demo_drained.
Proof.
  apply (proj2 (queue_drains Z.of_nat 8 demo_sizes demo_limits 0 demo_made demo_drained eq_refl
    demo_reaches_drained)); [|vm_compute; lia].
  intros q' Hq. inversion Hq as [i Hi|i item r Hi]; vm_compute in Hi; destruct i; discriminate.
Defined.

Lemma begin_stop_rejects_witness :
  completed (begin_stop 0 demo_busy).2 = [(1, Throw Stopped)] ∧
  executing (_consumers (begin_stop 0 demo_busy).2) = [0].
Proof.
  destruct (begin_stop_rejects Z.of_nat 8 demo_sizes demo_limits 0 demo_made demo_busy eq_refl
    demo_reaches_busy) as (Hc & He & _).
  split; [exact Hc|exact He].
Defined.
End runs.
