(* ===== verification/Budget.v ===== *)
(** * Admission budgets

    Models message/io/budget.hh and gateway/io/budget.hh: a limit on the number
    and on the bytes of frames or requests in flight. The units a holder has are
    the bytes of its [capacity_units]; returning them is what their destructor
    does. *)

From S2P Require Import Prelude Seastar.

Section budget.
Context {SEM : Semaphore}.

Record budget := MkBudget { _count : semaphore; _storage : semaphore }.

(** capacity_units: one unit of the count, and this many bytes. *)
Definition capacity_units : Type := Z.

Definition make_budget (count bytes : Z) : budget := MkBudget (semaphore_init count) (semaphore_init bytes).

(** acquire: when one of the two is short, what was taken of the other goes
    back as the local units are destroyed. *)
Definition acquire (bytes : Z) : Eff budget capacity_units := λ b,
  let count := try_get_units b.(_count) 1 in
  let storage := try_get_units b.(_storage) bytes in
  match count, storage with
  | Some c, Some s => (Ok bytes, MkBudget c s)
  | Some c, None => (Throw Overloaded, MkBudget (signal_units c 1) b.(_storage))
  | None, Some s => (Throw Overloaded, MkBudget b.(_count) (signal_units s bytes))
  | None, None => (Throw Overloaded, b)
  end.

Definition release (units : capacity_units) (b : budget) : budget :=
  MkBudget (signal_units b.(_count) 1) (signal_units b.(_storage) units).

(** resize: the holder's new units. *)
Definition resize (units : capacity_units) (bytes : Z) : Eff budget capacity_units := λ b,
  if (units <? bytes)%Z then
    match try_get_units b.(_storage) (bytes - units) with
    | None => (Throw Overloaded, b)
    | Some s => (Ok bytes, MkBudget b.(_count) s)
    end
  else (Ok bytes, MkBudget b.(_count) (signal_units b.(_storage) (units - bytes))).

(** ** Conservation *)

(** [held] are the units of the holders alive. *)
Definition balanced (count bytes : Z) (held : list capacity_units) (b : budget) : Prop :=
  Forall (λ u, 0 ≤ u)%Z held ∧
  (0 ≤ available_units b.(_count))%Z ∧ (0 ≤ available_units b.(_storage))%Z ∧
  (available_units b.(_count) + Z.of_nat (length held) = count)%Z ∧
  (available_units b.(_storage) + foldr Z.add 0 held = bytes)%Z.

Lemma sum_perm (l l' : list Z) : l ≡ₚ l' → foldr Z.add 0%Z l = foldr Z.add 0%Z l'.
Proof. induction 1; simpl in *; lia. Qed.

Lemma sum_nonneg (l : list Z) : Forall (λ u, 0 ≤ u)%Z l → (0 ≤ foldr Z.add 0 l)%Z.
Proof. induction 1; simpl; lia. Qed.

Lemma balanced_perm count bytes held held' b : held ≡ₚ held' → balanced count bytes held b → balanced count bytes held' b.
Proof.
  intros Hp (Hf & ? & ? & Hl & Hs). rewrite (Permutation_length Hp) in Hl. rewrite (sum_perm _ _ Hp) in Hs.
  split_and!; [|done..]. by eapply Permutation_Forall.
Qed.

Inductive budget_step : list capacity_units * budget → list capacity_units * budget → Prop :=
  | step_acquire held b bytes units b' :
      (0 ≤ bytes)%Z → acquire bytes b = (Ok units, b') → budget_step (held, b) (units :: held, b')
  | step_refused held b bytes e b' :
      (0 ≤ bytes)%Z → acquire bytes b = (Throw e, b') → budget_step (held, b) (held, b')
  | step_release held1 u held2 b : budget_step (held1 ++ u :: held2, b) (held1 ++ held2, release u b)
  | step_resize held1 u held2 b bytes units b' :
      (0 ≤ bytes)%Z → resize u bytes b = (Ok units, b') →
      budget_step (held1 ++ u :: held2, b) (held1 ++ units :: held2, b')
  | step_resize_refused held1 u held2 b bytes e b' :
      (0 ≤ bytes)%Z → resize u bytes b = (Throw e, b') →
      budget_step (held1 ++ u :: held2, b) (held1 ++ u :: held2, b').

Lemma sum_app l1 l2 : foldr Z.add 0%Z (l1 ++ l2) = (foldr Z.add 0 l1 + foldr Z.add 0 l2)%Z.
Proof. induction l1 as [|x l1 IH]; simpl; lia. Qed.

Lemma acquire_spec bytes b r b' :
  (0 ≤ bytes)%Z → acquire bytes b = (r, b') →
  (r = Ok bytes ∧ available_units (_count b') = (available_units (_count b) - 1)%Z ∧ (1 ≤ available_units (_count b))%Z ∧
   available_units (_storage b') = (available_units (_storage b) - bytes)%Z ∧ (bytes ≤ available_units (_storage b))%Z) ∨
  (r = Throw Overloaded ∧ available_units (_count b') = available_units (_count b) ∧
   available_units (_storage b') = available_units (_storage b)).
Proof.
  intros Hb. unfold acquire. destruct (try_get_units (_count b) 1) as [c|] eqn:Ec;
    destruct (try_get_units (_storage b) bytes) as [s|] eqn:Es; intros [= <- <-]; simpl;
    try (apply try_get_units_Some in Ec as [? ?]; [|lia]); try (apply try_get_units_Some in Es as [? ?]; [|done]).
  - left. split_and!; done.
  - right. rewrite available_signal. split_and!; [done|lia|done].
  - right. rewrite available_signal. split_and!; [done|done|lia].
  - by right.
Qed.

Lemma resize_spec units bytes b r b' :
  (0 ≤ bytes)%Z → (0 ≤ units)%Z → resize units bytes b = (r, b') →
  _count b' = _count b ∧
  ((r = Ok bytes ∧ available_units (_storage b') = (available_units (_storage b) + units - bytes)%Z ∧
    (bytes - units ≤ available_units (_storage b) ∨ bytes ≤ units)%Z) ∨
   (r = Throw Overloaded ∧ b' = b)).
Proof.
  intros Hb Hu. unfold resize. destruct (units <? bytes)%Z eqn:E.
  - apply Z.ltb_lt in E. destruct (try_get_units _ _) as [s|] eqn:Es; intros [= <- <-]; simpl; [|auto].
    apply try_get_units_Some in Es as [? ?]; [|lia]. split; [done|]. left. split_and!; [done|lia|lia].
  - apply Z.ltb_ge in E. intros [= <- <-]. simpl. rewrite available_signal. split; [done|]. left.
    split_and!; [done|lia|lia].
Qed.

(** What one holder sees: its units come in front, and go from there. *)
Lemma balanced_acquire count bytes held b n r b' :
  (0 ≤ n)%Z → acquire n b = (r, b') → balanced count bytes held b →
  match r with
  | Ok units => balanced count bytes (units :: held) b'
  | Throw e => e = Overloaded ∧ balanced count bytes held b'
  end.
Proof.
  intros Hn Ha (Hf & ? & ? & ? & ?).
  apply acquire_spec in Ha as [(-> & ? & ? & ? & ?)|(-> & ? & ?)]; [| |done].
  - unfold balanced. simpl. split_and!; [by constructor|lia..].
  - split; [done|]. unfold balanced. split_and!; [done|lia..].
Qed.

Lemma balanced_release count bytes units held b :
  balanced count bytes (units :: held) b → balanced count bytes held (release units b).
Proof.
  unfold balanced, release. simpl. rewrite !available_signal. intros ([? ?]%Forall_cons & ? & ? & ? & ?).
  split_and!; [done|lia..].
Qed.

Lemma balanced_resize count bytes units held b n r b' :
  (0 ≤ n)%Z → resize units n b = (r, b') → balanced count bytes (units :: held) b →
  match r with
  | Ok units' => units' = n ∧ balanced count bytes (n :: held) b'
  | Throw e => e = Overloaded ∧ b' = b
  end.
Proof.
  intros Hn Ha ([? ?]%Forall_cons & ? & ? & ? & ?).
  apply resize_spec in Ha as [Ec [(-> & ? & ?)|(-> & ->)]]; [|done|done|done].
  split; [done|]. unfold balanced in *. simpl in *. rewrite Ec. split_and!; [by constructor|lia..].
Qed.

(** A budget never leaks and never over-commits: whatever the sequence of
    acquisitions, refusals, resizings and releases, the units held and the units
    available add up to the limits, so that no more than the limits is ever
    held, and a refused request changes nothing. *)
Theorem budget_conserved count bytes held b :
  (0 ≤ count)%Z → (0 ≤ bytes)%Z → rtc budget_step ([], make_budget count bytes) (held, b) →
  balanced count bytes held b ∧ (Z.of_nat (length held) ≤ count)%Z ∧ (foldr Z.add 0 held ≤ bytes)%Z.
Proof.
  intros Hc Hb Hr.
  assert (balanced count bytes held b) as Hbal; [|split; [done|]; destruct Hbal as (_ & ? & ? & ? & ?); lia].
  change (balanced count bytes (held, b).1 (held, b).2). revert Hr. generalize (held, b). intros x Hr.
  assert (balanced count bytes ([], make_budget count bytes).1 (([] : list capacity_units), make_budget count bytes).2) as H0.
  { unfold balanced, make_budget. simpl. rewrite !available_init. split_and!; [constructor|lia..]. }
  revert H0. induction Hr as [x|x y z Hs _ IH]; intros Hx; [done|]. apply IH. clear IH.
  destruct Hs as [h b0 n u b' Hn Ha|h b0 n e b' Hn Ha|h1 u h2 b0|h1 u h2 b0 n u' b' Hn Ha|h1 u h2 b0 n e b' Hn Ha];
    unfold balanced in *; simpl in *; destruct Hx as (Hf & ? & ? & Hlen & Hsum);
    rewrite ?sum_app, ?length_app in *; simpl in *.
  - apply acquire_spec in Ha as [([= ->] & ? & ? & ? & ?)|([=] & _)]; [|done]. split_and!; [by constructor|lia..].
  - apply acquire_spec in Ha as [([=] & _)|(_ & ? & ?)]; [|done]. split_and!; [done|lia..].
  - apply Forall_app in Hf as [? [? ?]%Forall_cons]. rewrite !available_signal.
    split_and!; [by apply Forall_app|lia..].
  - apply Forall_app in Hf as [? [? ?]%Forall_cons].
    apply resize_spec in Ha as [Ec [([= ->] & ? & ?)|([=] & _)]]; [|done|done]. rewrite Ec.
    split_and!; [apply Forall_app; split; [done|by constructor]|lia..].
  - pose proof Hf as Hf'. apply Forall_app in Hf' as [? [? ?]%Forall_cons].
    apply resize_spec in Ha as [_ [([=] & _)|(_ & ->)]]; [|done|done]. split_and!; [done|lia..].
Qed.
End budget.

Lemma budget_conserved_witness :
  let b := @acquire counting_semaphore 30 (@make_budget counting_semaphore 2 100) in
  balanced (SEM:=counting_semaphore) 2 100 [30%Z] b.2 ∧ (Z.of_nat 1 ≤ 2)%Z ∧ (foldr Z.add 0 [30%Z] ≤ 100)%Z.
Proof.
  refine (budget_conserved (SEM:=counting_semaphore) 2 100 [30%Z] _ _ _ _); [lia|lia|].
  eapply rtc_l; [|apply rtc_refl]. apply (step_acquire (SEM:=counting_semaphore) _ _ 30); [lia|reflexivity].
Defined.
