(* ===== verification/Grpc.v ===== *)
(** * Statuses of gRPC calls *)

From S2P Require Import Prelude.

(** The codes the services answer with (grpc::StatusCode). *)
Inductive status_code := OK | INTERNAL | UNAVAILABLE | RESOURCE_EXHAUSTED.
Record status := MkStatus { st_code : status_code; st_message : string }.
Definition status_ok : status := MkStatus OK "".
Definition is_ok (st : status) : bool := match st_code st with OK => true | _ => false end.
