(* ===== verification/Yaml.v ===== *)
(** * YAML configuration

    yaml-cpp is an interface: nodes, their children and their conversions. Code
    that reads a configuration returns a value or what was thrown. *)

From S2P Require Import Prelude.

(** ** Nodes

    [child]: a missing child is an undefined node; the children of an undefined
    node or of a scalar cannot be asked for. [as_]: [None] when the conversion
    throws. *)
Class Yaml := {
  yaml : Type;
  defined : yaml → bool;
  scalar : yaml → bool;
  child : yaml → string → yaml;
  sequence : yaml → list yaml;
  as_string : yaml → option string;
  as_bool : yaml → option bool;
  as_int64 : yaml → option Z;
  as_int : yaml → option Z;
  as_size : yaml → option Z;
  as_uint16 : yaml → option Z;
  as_unsigned : yaml → option Z;
  as_int64_range n z : as_int64 n = Some z → is_i64 z = true;
  as_int_range n z : as_int n = Some z → (- 2 ^ 31 ≤ z < 2 ^ 31)%Z;
  as_size_range n z : as_size n = Some z → is_u64 z = true;
  as_uint16_range n z : as_uint16 n = Some z → (0 ≤ z < 65536)%Z;
  as_unsigned_range n z : as_unsigned n = Some z → (0 ≤ z < 2 ^ 32)%Z;
  as_uint16_unsigned n z : as_uint16 n = Some z ↔ as_unsigned n = Some z ∧ (z < 65536)%Z
}.

Lemma as_unsigned_or `{Yaml} n : (0 ≤ default 1 (as_unsigned n) < 2 ^ 32)%Z.
Proof. destruct (as_unsigned n) eqn:E; simpl; [by eapply as_unsigned_range|lia]. Qed.

(** The node's value, or what yaml-cpp throws; the value or a fallback. *)
Definition bad_conversion : exn := RuntimeError "bad conversion".
Definition invalid_node : exn := RuntimeError "invalid node".
Definition bad_subscript : exn := RuntimeError "operator[] call on a scalar".
Definition required {A} (o : option A) : outcome A :=
  match o with Some a => Ok a | None => Throw bad_conversion end.
Lemma required_Ok {A} (o : option A) a : required o = Ok a → o = Some a.
Proof. destruct o; [by intros [= ->]|done]. Qed.

Definition at_key `{Yaml} (n : yaml) (key : string) : outcome yaml :=
  if negb (defined n) then Throw invalid_node
  else if scalar n then Throw bad_subscript
  else Ok (child n key).

(** Sequencing of code that may throw. *)
#[export] Instance outcome_ret : MRet outcome := λ A a, Ok a.
#[export] Instance outcome_bind : MBind outcome := λ A B f m, match m with Ok a => f a | Throw e => Throw e end.

Fixpoint map_outcome {A B} (f : A → outcome B) (l : list A) : outcome (list B) :=
  match l with
  | [] => Ok []
  | x :: l => y ← f x; ys ← map_outcome f l; mret (y :: ys)
  end.

Lemma outcome_bind_Ok {A B} (m : outcome A) (f : A → outcome B) b : m ≫= f = Ok b → ∃ a, m = Ok a ∧ f a = Ok b.
Proof. destruct m as [a|e]; [by exists a|done]. Qed.

(** Take apart an outcome that is a value. *)
Ltac loaded H :=
  repeat match type of H with
  | _ ≫= _ = Ok _ => let a := fresh "a" in let E := fresh "E" in apply outcome_bind_Ok in H as (a & E & H)
  end.

Lemma map_outcome_elem {A B} (f : A → outcome B) l l' y : map_outcome f l = Ok l' → y ∈ l' → ∃ x, f x = Ok y.
Proof.
  revert l'. induction l as [|x l IH]; simpl; intros l' Hl Hy.
  - injection Hl as <-. by apply elem_of_nil in Hy.
  - loaded Hl. injection Hl as <-. apply elem_of_cons in Hy as [->|Hy]; [by exists x|by eapply IH].
Qed.

(** ** A reader of trees *)

#[local] Set Warnings "-register-all".
Inductive demo_yaml := YUndefined | YText (s : string) | YNumber (z : Z) | YList (l : list demo_yaml) | YMap (l : list (string * demo_yaml)).

Definition demo_defined (n : demo_yaml) : bool := match n with YUndefined => false | _ => true end.
Definition demo_scalar (n : demo_yaml) : bool := match n with YText _ | YNumber _ => true | _ => false end.
Fixpoint demo_find (key : string) (l : list (string * demo_yaml)) : option demo_yaml :=
  match l with
  | [] => None
  | (k, v) :: l => if bool_decide (k = key) && demo_defined v then Some v else demo_find key l
  end.
Definition demo_child (n : demo_yaml) (key : string) : demo_yaml :=
  match n with YMap l => default YUndefined (demo_find key l) | _ => YUndefined end.
Definition demo_sequence (n : demo_yaml) : list demo_yaml := match n with YList l => l | _ => [] end.
Definition demo_text (n : demo_yaml) : option string := match n with YText s => Some s | _ => None end.
Definition demo_number (within : Z → bool) (n : demo_yaml) : option Z :=
  match n with YNumber z => if within z then Some z else None | _ => None end.

Lemma demo_number_within within n z : demo_number within n = Some z → within z = true.
Proof. destruct n as [| |x| |]; simpl; try done. destruct (within x) eqn:E; [|done]. by intros [= <-]. Qed.

Definition demo_flag (n : demo_yaml) : option bool :=
  match n with YText "true" => Some true | YText "false" => Some false | _ => None end.

Program Definition demo_yaml_reader : Yaml := {|
  yaml := demo_yaml; defined := demo_defined; scalar := demo_scalar; child := demo_child; sequence := demo_sequence; as_string := demo_text; as_bool := demo_flag;
  as_int64 := demo_number is_i64;
  as_int := demo_number (λ z, bool_decide (- 2 ^ 31 ≤ z < 2 ^ 31)%Z);
  as_size := demo_number is_u64;
  as_uint16 := demo_number (λ z, bool_decide (0 ≤ z < 65536)%Z);
  as_unsigned := demo_number (λ z, bool_decide (0 ≤ z < 2 ^ 32)%Z) |}.
Next Obligation. intros n z. apply demo_number_within. Qed.
Next Obligation. intros n z Hz%demo_number_within. by apply bool_decide_eq_true in Hz. Qed.
Next Obligation. intros n z. apply demo_number_within. Qed.
Next Obligation. intros n z Hz%demo_number_within. by apply bool_decide_eq_true in Hz. Qed.
Next Obligation. intros n z Hz%demo_number_within. by apply bool_decide_eq_true in Hz. Qed.
Next Obligation.
  intros [| |x| |] z; simpl; try naive_solver. case_bool_decide; case_bool_decide; split; naive_solver lia.
Qed.
