(* ===== verification/Configuration.v ===== *)
(** * The configuration of a node

    common/src/configuration.cc: select makes the configuration of one node out
    of a document that describes all of them, and load reads the documents that
    the environment names and keeps the result for the process.

    yaml-cpp's nodes are trees here: every node that select changes is a clone
    that nothing else refers to. *)

From S2P Require Import Prelude Decimal Yaml.

(** ** Documents

    Iteration and assignment, besides what [Yaml] has. A key is found by the
    text it converts to, the first of several; a pair that is assigned to a new
    key goes to the end. *)
Fixpoint find_entry `{!Yaml} (key : string) (items : list (yaml * yaml)) : option yaml :=
  match items with
  | [] => None
  | (k, v) :: items => if bool_decide (as_string k = Some key) then Some v else find_entry key items
  end.

Class YamlTree `{!Yaml} := {
  is_map : yaml → bool;
  is_null : yaml → bool;
  entries : yaml → list (yaml * yaml);
  assign : yaml → string → yaml → yaml;
  of_string : string → yaml;
  of_unsigned : Z → yaml;
  of_sequence : list yaml → yaml;
  text_defined n s : as_string n = Some s → defined n = true;
  map_subscript n : is_map n = true → defined n = true ∧ scalar n = false;
  child_of_map n key : scalar n = false → defined (child n key) = true → is_map n = true;
  child_found n key v : is_map n = true → find_entry key (entries n) = Some v → child n key = v;
  child_missing n key : is_map n = true → find_entry key (entries n) = None → defined (child n key) = false;
  entry_defined n k v : (k, v) ∈ entries n → defined v = true;
  assign_map n key v : is_map n = true → is_map (assign n key v) = true;
  assign_child n key v key' :
    is_map n = true → child (assign n key v) key' = if bool_decide (key = key') then v else child n key';
  assign_new n key v :
    is_map n = true → defined v = true → find_entry key (entries n) = None →
    entries (assign n key v) = entries n ++ [(of_string key, v)];
  of_string_text s : as_string (of_string s) = Some s;
  of_string_defined s : defined (of_string s) = true;
  of_unsigned_value z : (0 ≤ z < 2 ^ 32)%Z → as_unsigned (of_unsigned z) = Some z;
  of_sequence_items l : sequence (of_sequence l) = l;
  of_sequence_defined l : defined (of_sequence l) = true
}.

Section configuration.
Context `{!Yaml, !YamlTree}.

Definition require (condition : bool) (message : string) : outcome unit :=
  if condition then Ok tt else Throw (InvalidArgument message).

(** [n[key].IsMap()], which a missing child does not have *)
Definition is_map_at (n : yaml) (key : string) : outcome bool :=
  c ← at_key n key; if defined c then mret (is_map c) else Throw invalid_node.

(** [n[key] = v] *)
Definition assign_at (n : yaml) (key : string) (v : yaml) : outcome yaml :=
  if scalar n then Throw bad_subscript else Ok (assign n key v).

(** ** The nodes *)

Fixpoint append_nodes (items : list (yaml * yaml)) (nodes : yaml) : outcome yaml :=
  match items with
  | [] => mret nodes
  | (key, node) :: items =>
      id ← required (as_string key);
      present ← at_key nodes id;
      require (negb (defined present)) ("duplicate node: " +:+ id) ;;
      nodes ← assign_at nodes id node;
      append_nodes items nodes
  end.

Definition all_nodes (base extra : yaml) : outcome yaml :=
  ok ← (if is_map base then is_map_at base "nodes" else mret false);
  require ok "configuration requires a nodes map" ;;
  nodes ← at_key base "nodes";
  if defined extra && negb (is_null extra) then
    ok ← (if is_map extra && (length (entries extra) =? 1) then is_map_at extra "nodes" else mret false);
    require ok "extra configuration may only append nodes" ;;
    added ← at_key extra "nodes";
    append_nodes (entries added) nodes
  else mret nodes.

(** What the loop over the nodes collects. *)
Record places := MkPlaces {
  pl_singleton : list string; pl_state : option yaml; pl_file : option yaml;
  pl_gateways : list yaml; pl_messages : list yaml }.

Definition services : list string := ["gate"; "file"; "state"; "gateway"; "message"].
Definition single (service : string) : bool := bool_decide (service ∈ ["gate"; "file"; "state"]).

Definition add_place (service : string) (endpoint : yaml) (p : places) : places :=
  let singleton := if single service then service :: pl_singleton p else pl_singleton p in
  if bool_decide (service = "state") then
    MkPlaces singleton (Some endpoint) (pl_file p) (pl_gateways p) (pl_messages p)
  else if bool_decide (service = "file") then
    MkPlaces singleton (pl_state p) (Some endpoint) (pl_gateways p) (pl_messages p)
  else if bool_decide (service = "gateway") then
    MkPlaces singleton (pl_state p) (pl_file p) (pl_gateways p ++ [endpoint]) (pl_messages p)
  else if bool_decide (service = "message") then
    MkPlaces singleton (pl_state p) (pl_file p) (pl_gateways p) (pl_messages p ++ [endpoint])
  else MkPlaces singleton (pl_state p) (pl_file p) (pl_gateways p) (pl_messages p).

Definition place_node (key node : yaml) (p : places) : outcome places :=
  id ← required (as_string key);
  service ← at_key node "service";
  service ← required (as_string service);
  require (bool_decide (service ∈ services)) ("unknown service: " +:+ service) ;;
  port ← at_key node "port";
  port ← required (as_unsigned port);
  shards ← at_key node "shards";
  let shards := default 1%Z (as_unsigned shards) in
  require (negb (port =? 0)%Z && (port <=? 65535)%Z && negb (shards =? 0)%Z &&
           (negb (bool_decide (service = "message")) || (u64 (port + shards - 1) <=? 65535)%Z))
    ("invalid node port/shards: " +:+ id) ;;
  host ← at_key node "host";
  host ← required (as_string host);
  require (negb (bool_decide (host = ""))) ("empty node host: " +:+ id) ;;
  require (negb (single service && bool_decide (service ∈ pl_singleton p)))
    ("duplicate singleton service: " +:+ service) ;;
  endpoint ← assign_at node "name" (of_string id);
  mret (add_place service endpoint p).

Fixpoint place_nodes (items : list (yaml * yaml)) (p : places) : outcome places :=
  match items with
  | [] => mret p
  | (key, node) :: items => p ← place_node key node p; place_nodes items p
  end.

(** ** The configuration of one node *)

Definition make_self (node_id : string) (node : yaml) : outcome yaml :=
  self ← assign_at node "name" (of_string node_id);
  listen ← at_key self "listenHost";
  if defined listen then assign_at self "host" listen else mret self.

(** The parts of [shared] that the node does not have itself. *)
Fixpoint add_shared (shared : yaml) (keys : list string) (result : yaml) : outcome yaml :=
  match keys with
  | [] => mret result
  | key :: keys =>
      own ← at_key result key;
      result ←
        (if defined own || negb (defined shared) then mret result
         else c ← at_key shared key; if defined c then assign_at result key c else mret result);
      add_shared shared keys result
  end.

Definition add_machine (self result : yaml) : outcome yaml :=
  redis ← at_key result "redis";
  if defined redis then
    machine ← at_key self "machineId";
    redis ← assign_at redis "machineId" (of_unsigned (default 1%Z (as_unsigned machine)));
    assign_at result "redis" redis
  else mret result.

Definition add_peer (wanted : bool) (key message : string) (peer : option yaml) (result : yaml) : outcome yaml :=
  if wanted then
    match peer with
    | Some peer => assign_at result key peer
    | None => Throw (InvalidArgument message)
    end
  else mret result.

(** The result from its own entry and [self] on. *)
Definition assemble (shared self : yaml) (p : places) (result : yaml) : outcome yaml :=
  result ← add_shared shared ["mysql"; "redis"; "transportSecurity"] result;
  result ← add_machine self result;
  service ← at_key self "service";
  service ← required (as_string service);
  result ← add_peer (bool_decide (service = "gate") || bool_decide (service = "gateway")) "stateRPC"
             "State node is required" (pl_state p) result;
  result ← add_peer (bool_decide (service = "message")) "file" "File node is required" (pl_file p) result;
  result ← assign_at result "gateways" (of_sequence (pl_gateways p));
  assign_at result "messages" (of_sequence (pl_messages p)).

Definition select (base extra : yaml) (node_id : string) : outcome yaml :=
  nodes ← all_nodes base extra;
  p ← place_nodes (entries nodes) (MkPlaces [] None None [] []);
  present ← at_key nodes node_id;
  require (negb (bool_decide (node_id = "")) && defined present) ("unknown IMM_NODE: " +:+ node_id) ;;
  self ← make_self node_id present;
  result ← assign_at present "self" self;
  shared ← at_key base "shared";
  assemble shared self p result.

(** ** load

    [LoadFile] is yaml-cpp's; the empty node that [extra] starts as is null. *)
Context (getenv : string → option string) (LoadFile : string → outcome yaml) (empty_node : yaml).

Definition selected (path : string) : outcome yaml :=
  let node := default "" (getenv "IMM_NODE") in
  require (negb (bool_decide (node = ""))) "IMM_NODE is required" ;;
  let configured := default "" (getenv "IMM_EXTRA_CONFIG") in
  extra ← (if bool_decide (configured = "") then mret empty_node else LoadFile configured);
  base ← LoadFile path;
  select base extra node.

(** The result, and [current] afterwards. *)
Definition load (path : string) (current : yaml) : bool * yaml :=
  match selected path with
  | Ok result => (true, result)
  | Throw _ => (false, current)
  end.
End configuration.
