(* ===== verification/ConfigurationTheorems.v ===== *)
(** * What the configuration promises

    The nodes that extra adds leave the others alone; every node of a
    configuration that is accepted is well formed; and the node that is selected
    gets its own entry, the peers it needs and the topology. *)

From S2P Require Import Prelude Decimal Yaml Configuration.

Section theorems.
Context `{!Yaml, !YamlTree}.

Lemma require_Ok condition message u : require condition message = Ok u → condition = true.
Proof. unfold require. by destruct condition. Qed.
Lemma at_key_Ok n key c : at_key n key = Ok c → c = child n key ∧ defined n = true ∧ scalar n = false.
Proof. unfold at_key. destruct (defined n); [|done]. destruct (scalar n); [done|]. by intros [= <-]. Qed.
Lemma at_key_map n key : is_map n = true → at_key n key = Ok (child n key).
Proof. intros [Hd Hs]%map_subscript. unfold at_key. by rewrite Hd, Hs. Qed.
Lemma assign_at_map n key v : is_map n = true → assign_at n key v = Ok (assign n key v).
Proof. intros [_ Hs]%map_subscript. unfold assign_at. by rewrite Hs. Qed.

(** One key is not another. *)
Ltac other_key := solve [apply (bool_decide_unpack _); vm_compute; exact I | set_solver].

(** Take a computation that succeeded apart. *)
Ltac taken H :=
  loaded H;
  repeat match goal with
  | E : at_key _ _ = Ok _ |- _ => apply at_key_Ok in E as (-> & ? & ?)
  | E : required _ = Ok _ |- _ => apply required_Ok in E
  | E : require _ _ = Ok _ |- _ => apply require_Ok in E
  end.

(** ** Well-formed nodes *)

Definition service_of (node : yaml) : option string := as_string (child node "service").
Definition port_of (node : yaml) : Z := default 0%Z (as_unsigned (child node "port")).
Definition shards_of (node : yaml) : Z := default 1%Z (as_unsigned (child node "shards")).
Definition host_of (node : yaml) : string := default "" (as_string (child node "host")).
Definition name_of (key : yaml) : string := default "" (as_string key).

Record node_ok (key node : yaml) : Prop := {
  nk_name : as_string key = Some (name_of key);
  nk_map : is_map node = true;
  nk_service : ∃ s, service_of node = Some s ∧ s ∈ services;
  nk_port : (0 < port_of node ≤ 65535)%Z;
  nk_shards : (0 < shards_of node)%Z;
  nk_message : service_of node = Some "message" → (port_of node + shards_of node - 1 ≤ 65535)%Z;
  nk_host : host_of node ≠ "" }.

(** The nodes of a service, each with its name. *)
Definition endpoint_of (item : yaml * yaml) : yaml := assign item.2 "name" (of_string (name_of item.1)).
Definition named (service : string) (items : list (yaml * yaml)) : list yaml :=
  endpoint_of <$> filter (λ item, service_of item.2 = Some service) items.

Lemma place_node_Ok key node p p' :
  place_node key node p = Ok p' →
  node_ok key node ∧ ∃ service, service_of node = Some service ∧
    (single service = true → service ∉ pl_singleton p) ∧ p' = add_place service (endpoint_of (key, node)) p.
Proof.
  unfold place_node. intros Hp. taken Hp.
  assert (is_map node = true) as Hm by (eapply child_of_map; [done|by eapply text_defined]).
  rename a1 into service, a4 into port, a8 into host. rewrite assign_at_map in E11 by done. injection E11 as <-. injection Hp as <-.
  apply andb_true_iff in E6 as [[[Hp1 Hp2]%andb_true_iff Hs]%andb_true_iff Hmsg].
  apply negb_true_iff, Z.eqb_neq in Hp1, Hs. apply Z.leb_le in Hp2.
  pose proof (as_unsigned_range _ _ E4). pose proof (as_unsigned_or (child node "shards")) as Hr.
  split.
  - split; unfold name_of, service_of, port_of, shards_of, host_of; rewrite ?E, ?E1, ?E4, ?E8; simpl; try done.
    + exists service. by apply bool_decide_eq_true in E2.
    + lia.
    + lia.
    + intros [= ->]. simpl in Hmsg. apply Z.leb_le in Hmsg. rewrite u64_id in Hmsg; [done|]. unfold two64. lia.
    + by apply negb_true_iff, bool_decide_eq_false in E9.
  - exists service. split; [done|]. split.
    + intros Hs1. rewrite Hs1 in E10. by apply negb_true_iff, bool_decide_eq_false in E10.
    + unfold endpoint_of, name_of. simpl. by rewrite E.
Qed.

(** ** The loop over the nodes *)

Definition places_ok (p : places) : Prop :=
  (pl_state p ≠ None → "state" ∈ pl_singleton p) ∧ (pl_file p ≠ None → "file" ∈ pl_singleton p).

Lemma add_place_spec service e p :
  places_ok p → (single service = true → service ∉ pl_singleton p) → service ∈ services →
  places_ok (add_place service e p) ∧
  option_list (pl_state (add_place service e p)) =
    option_list (pl_state p) ++ (if bool_decide (service = "state") then [e] else []) ∧
  option_list (pl_file (add_place service e p)) =
    option_list (pl_file p) ++ (if bool_decide (service = "file") then [e] else []) ∧
  pl_gateways (add_place service e p) = pl_gateways p ++ (if bool_decide (service = "gateway") then [e] else []) ∧
  pl_messages (add_place service e p) = pl_messages p ++ (if bool_decide (service = "message") then [e] else []).
Proof.
  intros [Hst Hfi] Hnew Hin. unfold add_place, places_ok. unfold services in Hin.
  destruct p as [singleton st fi gws msgs]; simpl in *.
  rewrite !elem_of_cons, elem_of_nil in Hin. destruct Hin as [E|[E|[E|[E|[E|[]]]]]]; subst service; simpl; rewrite ?app_nil_r.
  - set_solver.
  - assert (fi = None) as -> by (destruct fi; [|done]; exfalso; apply Hnew; [done|by apply Hfi]). set_solver.
  - assert (st = None) as -> by (destruct st; [|done]; exfalso; apply Hnew; [done|by apply Hst]). set_solver.
  - done.
  - done.
Qed.
Lemma place_nodes_Ok items p p' :
  place_nodes items p = Ok p' → places_ok p →
  Forall (λ item, node_ok item.1 item.2) items ∧
  option_list (pl_state p') = option_list (pl_state p) ++ named "state" items ∧
  option_list (pl_file p') = option_list (pl_file p) ++ named "file" items ∧
  pl_gateways p' = pl_gateways p ++ named "gateway" items ∧
  pl_messages p' = pl_messages p ++ named "message" items.
Proof.
  revert p. induction items as [|[key node] items IH]; simpl; intros p Hp Hok.
  { injection Hp as <-. unfold named. simpl. by rewrite !app_nil_r. }
  loaded Hp. destruct (place_node_Ok _ _ _ _ E) as (Hn & service & Hs & Hnew & ->). clear E.
  assert (∀ s, named s ((key, node) :: items) =
    (if bool_decide (service = s) then [endpoint_of (key, node)] else []) ++ named s items) as Hcons.
  { intros s. unfold named. rewrite filter_cons. simpl. rewrite Hs. case_decide; case_bool_decide; naive_solver. }
  rewrite !Hcons. clear Hcons.
  destruct (add_place_spec service (endpoint_of (key, node)) p Hok Hnew) as (Hok' & H1 & H2 & H3 & H4).
  { destruct (nk_service _ _ Hn) as (s & ? & ?). congruence. }
  destruct (IH _ Hp Hok') as (Hall & G1 & G2 & G3 & G4).
  rewrite G1, G2, G3, G4, H1, H2, H3, H4, <- !app_assoc. split; [by constructor|done].
Qed.

(** ** The nodes that extra adds *)

Lemma find_entry_In key items v : find_entry key items = Some v → ∃ k, (k, v) ∈ items ∧ as_string k = Some key.
Proof.
  induction items as [|[k v'] items IH]; simpl; [done|]. case_bool_decide; [intros [= ->]; exists k; set_solver|].
  intros (k' & ? & ?)%IH. exists k'. set_solver.
Qed.
Lemma child_entry n key :
  is_map n = true → defined (child n key) = true → ∃ k, (k, child n key) ∈ entries n ∧ as_string k = Some key.
Proof.
  intros Hm Hd. destruct (find_entry key (entries n)) as [v|] eqn:Ef.
  - rewrite (child_found _ _ _ Hm Ef). by apply find_entry_In.
  - rewrite (child_missing _ _ Hm Ef) in Hd. done.
Qed.
Lemma child_new n key : is_map n = true → defined (child n key) = false → find_entry key (entries n) = None.
Proof.
  intros Hm Hd. destruct (find_entry key (entries n)) as [v|] eqn:Ef; [|done].
  destruct (find_entry_In _ _ _ Ef) as (k & Hin & _). rewrite (child_found _ _ _ Hm Ef), (entry_defined _ _ _ Hin) in Hd. done.
Qed.

Definition keeps_nodes (nodes nodes' : yaml) : Prop :=
  is_map nodes' = true ∧ (entries nodes `prefix_of` entries nodes') ∧
  ∀ id, defined (child nodes id) = true → child nodes' id = child nodes id.

Lemma append_nodes_Ok items nodes nodes' :
  append_nodes items nodes = Ok nodes' → is_map nodes = true → (∀ k v, (k, v) ∈ items → defined v = true) →
  keeps_nodes nodes nodes' ∧
  (entries nodes').*2 = (entries nodes).*2 ++ items.*2 ∧
  ∀ k v, (k, v) ∈ items → child nodes' (name_of k) = v.
Proof.
  revert nodes. induction items as [|[key node] items IH]; simpl; intros nodes Ha Hm Hd.
  { injection Ha as <-. split_and!; [by split_and!|by rewrite app_nil_r|]. by intros k v ?%elem_of_nil. }
  taken Ha. rename a into id. rewrite assign_at_map in E2 by done. injection E2 as <-. apply negb_true_iff in E1.
  assert (defined node = true) as Hn by (apply (Hd key); apply elem_of_cons; auto).
  pose proof (assign_new nodes id node Hm Hn (child_new _ _ Hm E1)) as Hent.
  destruct (IH (assign nodes id node) Ha (assign_map _ _ _ Hm)) as ((Hm' & Hpre & Hkeep) & Hvals & Hnew); [set_solver|].
  assert (child (assign nodes id node) id = node) as Hid by by rewrite assign_child, bool_decide_eq_true_2.
  rewrite Hent in Hpre, Hvals. split_and!; [split_and!|..].
  - done.
  - etransitivity; [|exact Hpre]. by apply prefix_app_r.
  - intros id' Hid'. rewrite Hkeep; rewrite assign_child by done; case_bool_decide; congruence.
  - rewrite Hvals, fmap_app, <- app_assoc. done.
  - intros k v [[= -> ->]|Hin]%elem_of_cons; [|by apply Hnew]. unfold name_of. rewrite E. simpl.
    rewrite Hkeep; congruence.
Qed.

Lemma is_map_at_Ok n key b : is_map_at n key = Ok b → b = is_map (child n key).
Proof. unfold is_map_at. intros Hm. loaded Hm. apply at_key_Ok in E as (-> & _). destruct (defined _); [by injection Hm as <-|done]. Qed.

(** The nodes of the extra document; a null document has none. *)
Definition added (extra : yaml) : list (yaml * yaml) :=
  if defined extra && negb (is_null extra) then entries (child extra "nodes") else [].

Lemma all_nodes_Ok base extra nodes :
  all_nodes base extra = Ok nodes →
  is_map base = true ∧ is_map (child base "nodes") = true ∧ keeps_nodes (child base "nodes") nodes ∧
  (entries nodes).*2 = (entries (child base "nodes")).*2 ++ (added extra).*2 ∧
  ∀ k v, (k, v) ∈ added extra → child nodes (name_of k) = v.
Proof.
  unfold all_nodes. intros Ha. loaded Ha. apply require_Ok in E0 as ->. apply at_key_Ok in E1 as (-> & _ & _).
  destruct (is_map base) eqn:Hb; [|done]. apply is_map_at_Ok in E. split; [done|]. split; [done|]. unfold added.
  destruct (defined extra && negb (is_null extra)) eqn:Ex.
  - loaded Ha. apply require_Ok in E1 as ->. apply at_key_Ok in E2 as (-> & _ & _).
    destruct (append_nodes_Ok _ _ _ Ha) as (? & ? & ?); [done|by intros k v ?%entry_defined|done].
  - injection Ha as <-. split; [by split_and!|]. split; [by rewrite app_nil_r|]. by intros k v ?%elem_of_nil.
Qed.

(** ** The parts of the result *)

(** [result'] is [result] but for the keys of [keys]. *)
Definition changes (keys : list string) (result result' : yaml) : Prop :=
  is_map result' = true ∧ ∀ key, key ∉ keys → child result' key = child result key.

Lemma assign_changes keys key v n result :
  changes keys n result → changes (key :: keys) n (assign result key v).
Proof.
  intros [Hm Hk]. split; [by apply assign_map|]. intros key' [Hne Hni]%not_elem_of_cons.
  rewrite assign_child by done. rewrite bool_decide_eq_false_2 by done. by apply Hk.
Qed.
Lemma changes_mono keys keys' n result : (∀ key, key ∈ keys → key ∈ keys') → changes keys n result → changes keys' n result.
Proof. intros Hsub [Hm Hk]. split; [done|]. intros key Hni. apply Hk. set_solver. Qed.
Lemma changes_trans keys n1 n2 n3 : changes keys n1 n2 → changes keys n2 n3 → changes keys n1 n3.
Proof. intros [H1 K1] [H2 K2]. split; [done|]. intros key Hk. by rewrite K2, K1. Qed.

(** What a node has for a key that may come from the shared part. *)
Definition own_or_shared (shared node : yaml) (key : string) : yaml :=
  if defined (child node key) then child node key
  else if defined shared && defined (child shared key) then child shared key
  else child node key.
Lemma add_shared_Ok shared keys result result' :
  add_shared shared keys result = Ok result' → is_map result = true → NoDup keys →
  changes keys result result' ∧ ∀ key, key ∈ keys → child result' key = own_or_shared shared result key.
Proof.
  revert result. induction keys as [|key keys IH]; simpl; intros result Ha Hm Hd.
  { injection Ha as <-. split; [by split|]. by intros key ?%elem_of_nil. }
  apply NoDup_cons in Hd as [Hni Hd]. loaded Ha. apply at_key_Ok in E as (-> & _ & _).
  assert (changes [key] result a0 ∧ child a0 key = own_or_shared shared result key) as [Hc Hown].
  { unfold own_or_shared. destruct (defined (child result key)); simpl in E0; [by injection E0 as <-|].
    destruct (defined shared); simpl in E0; [|by injection E0 as <-]. loaded E0. apply at_key_Ok in E as (-> & _ & _).
    destruct (defined (child shared key)); simpl; [|by injection E0 as <-].
    rewrite assign_at_map in E0 by done. injection E0 as <-. split; [by apply assign_changes|].
    by rewrite assign_child, bool_decide_eq_true_2. }
  destruct (IH a0 Ha (proj1 Hc) Hd) as [Hc' Hown']. split.
  - eapply changes_trans; eapply changes_mono; [|exact Hc| |exact Hc']; set_solver.
  - intros key' [->|Hin]%elem_of_cons; [by rewrite (proj2 Hc') by done|].
    rewrite Hown' by done. unfold own_or_shared. assert (key' ∉ [key]) by set_solver. by rewrite !(proj2 Hc).
Qed.

(** The settings of Redis with the machine id of the node, 1 unless it has one. *)
Definition machine_added (self redis redis' : yaml) : Prop :=
  if defined redis then
    is_map redis = true →
    as_unsigned (child redis' "machineId") = Some (default 1%Z (as_unsigned (child self "machineId"))) ∧
    ∀ key, key ≠ "machineId" → child redis' key = child redis key
  else defined redis' = false.

Lemma add_machine_Ok self result result' :
  add_machine self result = Ok result' → is_map result = true →
  changes ["redis"] result result' ∧ machine_added self (child result "redis") (child result' "redis").
Proof.
  unfold add_machine, machine_added. intros Ha Hm. loaded Ha. apply at_key_Ok in E as (-> & _ & _).
  destruct (defined (child result "redis")) eqn:Hd; [|injection Ha as <-; by rewrite Hd]. loaded Ha.
  apply at_key_Ok in E as (-> & _ & _). rewrite assign_at_map in Ha by done. injection Ha as <-.
  split; [by apply assign_changes|]. intros Hr. rewrite assign_at_map in E0 by done. injection E0 as <-.
  rewrite assign_child, bool_decide_eq_true_2 by done. split.
  - rewrite assign_child, bool_decide_eq_true_2 by done. apply of_unsigned_value, as_unsigned_or.
  - intros key Hk. by rewrite assign_child, bool_decide_eq_false_2.
Qed.
Lemma add_peer_Ok wanted key message peer result result' :
  add_peer wanted key message peer result = Ok result' → is_map result = true →
  changes [key] result result' ∧ (wanted = true → peer = Some (child result' key)).
Proof.
  unfold add_peer. intros Ha Hm. destruct wanted; [|by injection Ha as <-]. destruct peer as [peer|]; [|done].
  rewrite assign_at_map in Ha by done. injection Ha as <-. split; [by apply assign_changes|].
  by rewrite assign_child, bool_decide_eq_true_2.
Qed.
Lemma make_self_Ok node_id node self :
  make_self node_id node = Ok self → is_map node = true →
  changes ["name"; "host"] node self ∧ as_string (child self "name") = Some node_id ∧
  child self "host" = if defined (child node "listenHost") then child node "listenHost" else child node "host".
Proof.
  unfold make_self. intros Ha Hm. rewrite assign_at_map in Ha by done. simpl in Ha.
  set (named_self := assign node "name" (of_string node_id)) in *.
  assert (changes ["name"] node named_self) as Hc by by apply assign_changes.
  assert (as_string (child named_self "name") = Some node_id) as Hname.
  { unfold named_self. rewrite assign_child by done. apply of_string_text. }
  loaded Ha. apply at_key_Ok in E as (-> & _ & _). rewrite (proj2 Hc "listenHost") in Ha by set_solver.
  destruct (defined (child node "listenHost")).
  - rewrite assign_at_map in Ha by apply Hc. injection Ha as <-. split; [|split].
    + eapply changes_mono; [|by apply (assign_changes ["name"])]. set_solver.
    + by rewrite assign_child by apply Hc.
    + by rewrite assign_child by apply Hc.
  - injection Ha as <-. split; [eapply changes_mono; [|exact Hc]; set_solver|]. split; [done|]. apply Hc. set_solver.
Qed.

(** ** The configuration of a node *)

Definition added_keys : list string :=
  ["messages"; "gateways"; "file"; "stateRPC"; "transportSecurity"; "redis"; "mysql"; "self"].

(** What a configuration for [node_id] is, given the nodes. *)
Record selection (base nodes : yaml) (node_id : string) (config : yaml) : Prop := {
  sl_name : as_string (child (child config "self") "name") = Some node_id;
  sl_host : child (child config "self") "host" =
    if defined (child (child nodes node_id) "listenHost") then child (child nodes node_id) "listenHost"
    else child (child nodes node_id) "host";
  sl_self key : key ∉ ["name"; "host"] → child (child config "self") key = child (child nodes node_id) key;
  sl_gateways : sequence (child config "gateways") = named "gateway" (entries nodes);
  sl_messages : sequence (child config "messages") = named "message" (entries nodes);
  sl_state : service_of (child nodes node_id) = Some "gate" ∨ service_of (child nodes node_id) = Some "gateway" →
    named "state" (entries nodes) = [child config "stateRPC"];
  sl_file : service_of (child nodes node_id) = Some "message" → named "file" (entries nodes) = [child config "file"];
  sl_shared key : key ∈ ["mysql"; "transportSecurity"] →
    child config key = own_or_shared (child base "shared") (child nodes node_id) key;
  sl_redis : machine_added (child nodes node_id)
    (own_or_shared (child base "shared") (child nodes node_id) "redis") (child config "redis");
  sl_own key : key ∉ added_keys → child config key = child (child nodes node_id) key;
  sl_map : is_map config = true }.

Lemma selected_node nodes node_id :
  is_map nodes = true → Forall (λ item, node_ok item.1 item.2) (entries nodes) →
  defined (child nodes node_id) = true → ∃ k, node_ok k (child nodes node_id) ∧ name_of k = node_id.
Proof.
  intros Hm Hall Hd. destruct (child_entry _ _ Hm Hd) as (k & Hin & Hk). exists k. split.
  - rewrite Forall_forall in Hall. exact (Hall _ Hin).
  - unfold name_of. by rewrite Hk.
Qed.

Lemma option_list_single {A} (o : option A) x : o = Some x → option_list o = [x].
Proof. by intros ->. Qed.

Lemma assemble_Ok shared self p result config :
  assemble shared self p result = Ok config → is_map result = true →
  is_map config = true ∧ child config "self" = child result "self" ∧
  child config "gateways" = of_sequence (pl_gateways p) ∧ child config "messages" = of_sequence (pl_messages p) ∧
  (service_of self = Some "gate" ∨ service_of self = Some "gateway" → pl_state p = Some (child config "stateRPC")) ∧
  (service_of self = Some "message" → pl_file p = Some (child config "file")) ∧
  (∀ key, key ∈ ["mysql"; "transportSecurity"] → child config key = own_or_shared shared result key) ∧
  machine_added self (own_or_shared shared result "redis") (child config "redis") ∧
  ∀ key, key ∉ added_keys → child config key = child result key.
Proof.
  unfold assemble. intros Hs Hm. loaded Hs. rename a into r2, a0 into r3, a2 into service, a3 into r4, a4 into r5, a5 into r6.
  destruct (add_shared_Ok _ _ _ _ E Hm) as [Hc2 Hsh]; [repeat constructor; set_solver|].
  destruct (add_machine_Ok _ _ _ E0 (proj1 Hc2)) as [Hc3 Hmachine].
  apply at_key_Ok in E1 as (-> & _ & _). apply required_Ok in E2. fold (service_of self) in E2.
  destruct (add_peer_Ok _ _ _ _ _ _ E3 (proj1 Hc3)) as [Hc4 Hst].
  destruct (add_peer_Ok _ _ _ _ _ _ E4 (proj1 Hc4)) as [Hc5 Hfi].
  rewrite assign_at_map in E5 by apply Hc5. injection E5 as <-.
  assert (changes ["messages"; "gateways"] r5 config) as Hout.
  { rewrite assign_at_map in Hs by apply assign_map, Hc5. injection Hs as <-. apply assign_changes, assign_changes.
    by split; [apply Hc5|]. }
  assert (∀ key, key ∉ ["file"; "stateRPC"; "redis"] → child r5 key = child r2 key) as Hmid.
  { intros key Hk. rewrite (proj2 Hc5), (proj2 Hc4), (proj2 Hc3) by other_key. done. }
  rewrite assign_at_map in Hs by apply assign_map, Hc5. injection Hs as Ec.
  split_and!.
  - apply Hout.
  - by rewrite (proj2 Hout), Hmid, (proj2 Hc2) by other_key.
  - rewrite <- Ec, assign_child by apply assign_map, Hc5. simpl. by rewrite assign_child by apply Hc5.
  - by rewrite <- Ec, assign_child by apply assign_map, Hc5.
  - intros Hsv. rewrite (proj2 Hout), (proj2 Hc5) by other_key. apply Hst. rewrite E2 in Hsv.
    apply orb_true_iff. rewrite !bool_decide_eq_true. naive_solver.
  - intros Hsv. rewrite (proj2 Hout) by other_key. apply Hfi. rewrite E2 in Hsv. rewrite bool_decide_eq_true. naive_solver.
  - intros key Hk. rewrite (proj2 Hout), Hmid, Hsh by other_key. done.
  - rewrite Hsh in Hmachine by other_key. by rewrite (proj2 Hout), (proj2 Hc5), (proj2 Hc4) by other_key.
  - intros key Hk. unfold added_keys in Hk. by rewrite (proj2 Hout), Hmid, (proj2 Hc2) by other_key.
Qed.

Lemma select_Ok base extra node_id config :
  select base extra node_id = Ok config →
  ∃ nodes, all_nodes base extra = Ok nodes ∧ Forall (λ item, node_ok item.1 item.2) (entries nodes) ∧
    node_id ≠ "" ∧ defined (child nodes node_id) = true ∧ selection base nodes node_id config.
Proof.
  unfold select. intros Hs. loaded Hs. rename a into nodes, a0 into p, a1 into node, a3 into self, a4 into r1, a5 into shared.
  destruct (all_nodes_Ok _ _ _ E) as (_ & _ & (Hm & _ & _) & _).
  destruct (place_nodes_Ok _ _ _ E0) as (Hall & Pst & Pfi & Pgw & Pms); [by split|]. simpl in Pst, Pfi, Pgw, Pms.
  apply at_key_Ok in E1 as (-> & _ & _). apply require_Ok, andb_true_iff in E2 as [Hid%negb_true_iff%bool_decide_eq_false Hd].
  apply at_key_Ok in E5 as (-> & _ & _). exists nodes. split_and!; [done..|].
  destruct (selected_node _ _ Hm Hall Hd) as (k & [_ Hnm _ _ _ _ _] & _).
  destruct (make_self_Ok _ _ _ E3 Hnm) as (Hself & Hname & Hhost).
  rewrite assign_at_map in E4 by done. injection E4 as <-.
  destruct (assemble_Ok _ _ _ _ _ Hs (assign_map _ _ _ Hnm)) as (Hc & Eself & Egw & Ems & Hst & Hfi & Hsh & Hred & Hown).
  rewrite assign_child, bool_decide_eq_true_2 in Eself by done.
  assert (service_of self = service_of (child nodes node_id)) as Esv by (unfold service_of; by rewrite (proj2 Hself) by other_key).
  rewrite Esv in Hst, Hfi. split; rewrite ?Eself, ?Egw, ?Ems, ?of_sequence_items; try done.
  - apply Hself.
  - intros Hsv. rewrite <- Pst. by apply option_list_single, Hst.
  - intros Hsv. rewrite <- Pfi. by apply option_list_single, Hfi.
  - intros key Hk. rewrite Hsh by done. unfold own_or_shared. rewrite !assign_child by done.
    rewrite !bool_decide_eq_false_2 by set_solver. done.
  - unfold machine_added, own_or_shared in *. rewrite (proj2 Hself), !assign_child in Hred by other_key. exact Hred.
  - intros key Hk. rewrite Hown, assign_child by done. rewrite bool_decide_eq_false_2; [done|]. unfold added_keys in Hk. set_solver.
Qed.

(** ** Documents that are accepted *)

Lemma place_node_total key node p service :
  node_ok key node → service_of node = Some service →
  (single service = true → service ∉ pl_singleton p) →
  place_node key node p = Ok (add_place service (endpoint_of (key, node)) p).
Proof.
  intros [Hname Hm (s & Hs & Hin) Hport Hsh Hmsg Hhost] Hsv Hnew. rewrite Hsv in Hs. injection Hs as <-.
  unfold service_of, host_of, port_of, shards_of in *. pose proof (λ k, at_key_map node k Hm) as Hat.
  destruct (as_unsigned (child node "port")) as [port|] eqn:Ep; [|simpl in Hport; lia].
  destruct (as_string (child node "host")) as [host|] eqn:Eh; [|done]. simpl in *.
  unfold place_node. rewrite Hname. simpl. rewrite !Hat. simpl. rewrite Hsv. simpl.
  rewrite (bool_decide_eq_true_2 (service ∈ services)) by done. simpl. rewrite Ep. simpl. pose proof (as_unsigned_or (child node "shards")) as Hr.
  pose proof (as_unsigned_range _ _ Ep) as Hr'.
  rewrite (proj2 (Z.eqb_neq port 0)), (proj2 (Z.leb_le port 65535)) by lia.
  rewrite (proj2 (Z.eqb_neq (default 1%Z (as_unsigned (child node "shards"))) 0)) by lia. simpl.
  assert (negb (bool_decide (service = "message")) ||
    (u64 (port + default 1%Z (as_unsigned (child node "shards")) - 1) <=? 65535)%Z = true) as ->.
  { case_bool_decide; [|done]. simpl. rewrite Hsv in Hmsg. subst service. rewrite u64_id by (unfold two64; lia).
    apply Z.leb_le. by apply Hmsg. }
  simpl. rewrite Eh. simpl. rewrite (bool_decide_eq_false_2 (host = "")) by done.
  assert (single service && bool_decide (service ∈ pl_singleton p) = false) as ->.
  { destruct (single service); [|done]. simpl. apply bool_decide_eq_false. auto. }
  simpl. by rewrite assign_at_map.
Qed.

(** The services of the nodes, and those of them that must be single. *)
Definition service_names (items : list (yaml * yaml)) : list string := (λ item, default "" (service_of item.2)) <$> items.
Definition singles (items : list (yaml * yaml)) : list string := filter (λ s, single s = true) (service_names items).

Lemma place_nodes_total items p :
  Forall (λ item, node_ok item.1 item.2) items → NoDup (pl_singleton p ++ singles items) →
  ∃ p', place_nodes items p = Ok p'.
Proof.
  revert p. induction items as [|[key node] items IH]; intros p Hall Hd; simpl; [by eexists|].
  apply Forall_cons in Hall as [Hok Hall]. destruct (nk_service _ _ Hok) as (service & Hs & Hin). simpl in Hs, Hok.
  assert (singles ((key, node) :: items) = (if single service then [service] else []) ++ singles items) as Hsi.
  { unfold singles, service_names. simpl. rewrite filter_cons, Hs. simpl. by destruct (single service). }
  rewrite Hsi in Hd.
  rewrite (place_node_total key node p service Hok Hs).
  2: { intros Hsg. rewrite Hsg in Hd. apply NoDup_app in Hd as (_ & Hd & _). intros Hx. apply (Hd _ Hx). set_solver. }
  simpl. apply IH; [done|].
  assert (pl_singleton (add_place service (endpoint_of (key, node)) p) =
    (if single service then [service] else []) ++ pl_singleton p) as ->.
  { unfold add_place. repeat case_bool_decide; simpl; by destruct (single service). }
  rewrite (Permutation_app_comm _ (pl_singleton p)), <- app_assoc. done.
Qed.

Lemma find_entry_unique items k v :
  NoDup (name_of ∘ fst <$> items) → (k, v) ∈ items → as_string k = Some (name_of k) →
  find_entry (name_of k) items = Some v.
Proof.
  induction items as [|[k' v'] items IH]; [by intros _ ?%elem_of_nil|]. rewrite fmap_cons. simpl.
  intros [Hni Hd]%NoDup_cons [[= <- <-]|Hin]%elem_of_cons Hk; [by rewrite bool_decide_eq_true_2|].
  rewrite bool_decide_eq_false_2; [by apply IH|]. intros E. apply Hni, list_elem_of_fmap. exists (k, v). split; [|done].
  simpl. unfold name_of at 1. by rewrite E.
Qed.
Lemma find_entry_other items key : key ∉ (name_of ∘ fst <$> items) → find_entry key items = None.
Proof.
  intros Hni. destruct (find_entry key items) as [v|] eqn:E; [|done]. exfalso. apply Hni.
  apply find_entry_In in E as (k & Hin & Hk). apply list_elem_of_fmap. exists (k, v). split; [|done]. simpl. unfold name_of. by rewrite Hk.
Qed.

Lemma append_nodes_total items nodes :
  is_map nodes = true → NoDup (name_of ∘ fst <$> entries nodes ++ items) →
  Forall (λ item, node_ok item.1 item.2) (entries nodes ++ items) → (∀ k v, (k, v) ∈ items → defined v = true) →
  ∃ nodes', append_nodes items nodes = Ok nodes' ∧ is_map nodes' = true ∧
    Forall (λ item, node_ok item.1 item.2) (entries nodes') ∧
    (name_of ∘ fst <$> entries nodes') = (name_of ∘ fst <$> entries nodes ++ items) ∧
    (entries nodes').*2 = (entries nodes ++ items).*2.
Proof.
  revert nodes. induction items as [|[key node] items IH]; intros nodes Hm Hd Hall Hdef; simpl.
  { exists nodes. by rewrite app_nil_r in *. }
  pose proof Hall as [_ [Hok _]%Forall_cons]%Forall_app. simpl in Hok. rewrite (nk_name _ _ Hok). simpl.
  assert (find_entry (name_of key) (entries nodes) = None) as Hf.
  { apply find_entry_other. rewrite fmap_app in Hd. apply NoDup_app in Hd as (_ & Hd & _). intros Hx. apply (Hd _ Hx). set_solver. }
  rewrite at_key_map by done. simpl. rewrite (child_missing _ _ Hm Hf), assign_at_map by done. simpl.
  assert (defined node = true) as Hn by (apply (Hdef key); set_solver).
  pose proof (assign_new nodes (name_of key) node Hm Hn Hf) as Hent.
  assert (name_of (of_string (name_of key)) = name_of key) as Hnm by (unfold name_of at 1; by rewrite of_string_text).
  destruct (IH (assign nodes (name_of key) node)) as (nodes' & -> & Hm' & Hall' & Hk & Hv).
  - by apply assign_map.
  - rewrite Hent, <- app_assoc. rewrite !fmap_app in *. simpl in *. by rewrite Hnm.
  - rewrite Hent, <- app_assoc. rewrite !Forall_app, !Forall_cons in *. destruct Hall as (? & Hok' & ?). split_and!; try done.
    destruct Hok'. split; try done. simpl. by rewrite of_string_text, Hnm.
  - set_solver.
  - exists nodes'. rewrite Hk, Hv, Hent, <- app_assoc. split_and!; try done; rewrite !fmap_app; simpl; by rewrite ?Hnm.
Qed.

Lemma add_shared_total shared keys result :
  is_map result = true → (defined shared = true → scalar shared = false) → ∃ result', add_shared shared keys result = Ok result'.
Proof.
  intros Hm Hs. revert result Hm. induction keys as [|key keys IH]; intros result Hm; simpl; [by eexists|].
  rewrite (at_key_map result) by done. simpl. destruct (defined (child result key) || negb (defined shared)) eqn:E; simpl; [by apply IH|].
  apply orb_false_iff in E as [_ E%negb_false_iff]. unfold at_key. rewrite E, (Hs E). simpl.
  destruct (defined (child shared key)); simpl; [|by apply IH]. rewrite assign_at_map by done. apply IH. by apply assign_map.
Qed.

Lemma assemble_total shared self p result service :
  is_map result = true → is_map self = true → (defined shared = true → scalar shared = false) →
  (defined (own_or_shared shared result "redis") = true → scalar (own_or_shared shared result "redis") = false) →
  service_of self = Some service →
  (service = "gate" ∨ service = "gateway" → is_Some (pl_state p)) → (service = "message" → is_Some (pl_file p)) →
  ∃ config, assemble shared self p result = Ok config.
Proof.
  intros Hm Hself Hs Hr Hsv Hst Hfi. unfold assemble.
  destruct (add_shared_total shared ["mysql"; "redis"; "transportSecurity"] result Hm Hs) as [r2 E2].
  destruct (add_shared_Ok _ _ _ _ E2 Hm) as [[Hm2 _] Hsh]; [repeat constructor; set_solver|].
  rewrite <- (Hsh "redis") in Hr by set_solver. rewrite E2. simpl. clear E2 Hsh.
  assert (∃ r3, add_machine self r2 = Ok r3) as [r3 E3].
  { unfold add_machine. rewrite (at_key_map r2) by done. simpl. destruct (defined (child r2 "redis")); [|by eexists].
    rewrite at_key_map by done. simpl. unfold assign_at. rewrite Hr by done. simpl. apply map_subscript in Hm2 as [_ ->]. by eexists. }
  destruct (add_machine_Ok _ _ _ E3 Hm2) as [[Hm3 _] _]. rewrite E3. simpl. rewrite (at_key_map self) by done. simpl.
  unfold service_of in Hsv. rewrite Hsv. simpl.
  assert (∀ wanted key message peer n, is_map n = true → (wanted = true → is_Some peer) →
    ∃ n', add_peer wanted key message peer n = Ok n' ∧ is_map n' = true) as Hpeer.
  { intros wanted key message peer n Hn Hw. unfold add_peer. destruct wanted; [|by eexists].
    destruct Hw as [x ->]; [done|]. rewrite assign_at_map by done. eexists. split; [done|]. by apply assign_map. }
  destruct (Hpeer (bool_decide (service = "gate") || bool_decide (service = "gateway")) "stateRPC" "State node is required"
    (pl_state p) r3 Hm3) as (r4 & -> & Hm4).
  { rewrite orb_true_iff, !bool_decide_eq_true. apply Hst. }
  simpl. destruct (Hpeer (bool_decide (service = "message")) "file" "File node is required" (pl_file p) r4 Hm4) as (r5 & -> & Hm5).
  { rewrite bool_decide_eq_true. apply Hfi. }
  simpl. rewrite assign_at_map by done. simpl. rewrite assign_at_map by (by apply assign_map). by eexists.
Qed.

(** Documents that describe a cluster with [node_id] in it: [node] is its entry. *)
Record documents_ok (base extra : yaml) (node_id : string) (key node : yaml) : Prop := {
  dk_base : is_map base = true ∧ is_map (child base "nodes") = true;
  dk_extra : defined extra && negb (is_null extra) = true →
    is_map extra = true ∧ length (entries extra) = 1 ∧ is_map (child extra "nodes") = true;
  dk_nodes : Forall (λ item, node_ok item.1 item.2) (entries (child base "nodes") ++ added extra);
  dk_names : NoDup (name_of ∘ fst <$> entries (child base "nodes") ++ added extra);
  dk_singles : NoDup (singles (entries (child base "nodes") ++ added extra));
  dk_node : (key, node) ∈ entries (child base "nodes") ++ added extra ∧ name_of key = node_id ∧ node_id ≠ "";
  dk_state : service_of node = Some "gate" ∨ service_of node = Some "gateway" →
    "state" ∈ service_names (entries (child base "nodes") ++ added extra);
  dk_file : service_of node = Some "message" → "file" ∈ service_names (entries (child base "nodes") ++ added extra);
  dk_shared : defined (child base "shared") = true → scalar (child base "shared") = false;
  dk_redis : defined (own_or_shared (child base "shared") node "redis") = true →
    scalar (own_or_shared (child base "shared") node "redis") = false }.

Lemma all_nodes_total base extra node_id key node :
  documents_ok base extra node_id key node →
  ∃ nodes, all_nodes base extra = Ok nodes ∧ is_map nodes = true ∧ Forall (λ item, node_ok item.1 item.2) (entries nodes) ∧
    (name_of ∘ fst <$> entries nodes) = (name_of ∘ fst <$> entries (child base "nodes") ++ added extra) ∧
    (entries nodes).*2 = (entries (child base "nodes") ++ added extra).*2.
Proof.
  intros [[Hb Hn] Hx Hall Hd _ _ _ _ _ _]. unfold all_nodes.
  assert (∀ n, is_map n = true → is_map (child n "nodes") = true → is_map_at n "nodes" = Ok true) as Hat.
  { intros n H1 H2. unfold is_map_at. rewrite at_key_map by done. simpl. pose proof H2 as [-> _]%map_subscript. by rewrite H2. }
  rewrite Hb, (Hat base) by done. simpl. rewrite (at_key_map base) by done. simpl. unfold added in *.
  destruct (defined extra && negb (is_null extra)).
  - destruct Hx as (Hx1 & Hx2 & Hx3); [done|]. rewrite Hx1, Hx2. simpl. rewrite (Hat extra) by done. simpl.
    rewrite at_key_map by done. simpl. apply append_nodes_total; try done. intros k v. apply entry_defined.
  - rewrite app_nil_r in *. by eexists.
Qed.

Lemma service_elem items s :
  Forall (λ item, node_ok item.1 item.2) items → s ∈ service_names items → named s items ≠ [].
Proof.
  rewrite Forall_forall. intros Hall ([k v] & -> & Hin)%list_elem_of_fmap Hnil. simpl in *.
  destruct (nk_service _ _ (Hall _ Hin)) as (s & Hs & _). simpl in Hs. rewrite Hs in Hnil. simpl in Hnil.
  apply fmap_nil_inv in Hnil. assert ((k, v) ∈ filter (λ item, service_of item.2 = Some s) items) as Hx.
  { by apply list_elem_of_filter. }
  rewrite Hnil in Hx. by apply elem_of_nil in Hx.
Qed.

Lemma option_list_some {A} (o : option A) : option_list o ≠ [] → is_Some o.
Proof. destruct o; [by eexists|done]. Qed.

Lemma service_names_values items items' : items.*2 = items'.*2 → service_names items = service_names items'.
Proof.
  intros E. unfold service_names.
  assert (∀ l : list (yaml * yaml), (λ item, default "" (service_of item.2)) <$> l = (λ v, default "" (service_of v)) <$> l.*2) as Hl.
  { intros l. by rewrite <- list_fmap_compose. }
  by rewrite !Hl, E.
Qed.

Lemma select_total base extra node_id key node :
  documents_ok base extra node_id key node → ∃ config, select base extra node_id = Ok config.
Proof.
  intros Hdoc. destruct (all_nodes_total _ _ _ _ _ Hdoc) as (nodes & Ha & Hm & Hall & Hnames & Hvals).
  destruct (all_nodes_Ok _ _ _ Ha) as (_ & _ & (_ & Hpre & _) & _ & Hadded).
  destruct Hdoc as [[Hb Hbn] _ Hall0 Hd Hsi (Hin & Hid & Hne) Hst Hfi Hsh Hre].
  assert (∀ s, s ∈ service_names (entries (child base "nodes") ++ added extra) → named s (entries nodes) ≠ []) as Hpeer.
  { intros s Hs. apply service_elem; [done|]. by rewrite (service_names_values _ _ Hvals). }
  assert (node_ok key node) as Hok by (rewrite Forall_forall in Hall0; exact (Hall0 _ Hin)).
  assert (child nodes node_id = node) as Hnode.
  { subst node_id. apply elem_of_app in Hin as [Hin|Hin]; [|by apply Hadded].
    apply child_found; [done|]. apply find_entry_unique; [by rewrite Hnames|by eapply elem_of_prefix|apply Hok]. }
  destruct (place_nodes_total (entries nodes) (MkPlaces [] None None [] [])) as [p Hp]; [done| |].
  { simpl. unfold singles. by rewrite (service_names_values _ _ Hvals). }
  destruct (place_nodes_Ok _ _ _ Hp) as (_ & Pst & Pfi & _ & _); [by split|]. simpl in Pst, Pfi.
  pose proof (nk_map _ _ Hok) as Hmap. destruct (nk_service _ _ Hok) as (service & Hs & _).
  unfold select. rewrite Ha. simpl. rewrite Hp. simpl. rewrite (at_key_map nodes) by done. simpl. rewrite Hnode.
  rewrite (bool_decide_eq_false_2 (node_id = "")) by done. pose proof Hmap as [-> _]%map_subscript. simpl.
  assert (∃ self, make_self node_id node = Ok self) as [self Eself].
  { unfold make_self. rewrite assign_at_map by done. simpl. rewrite at_key_map by (by apply assign_map). simpl.
    destruct (defined (child _ "listenHost")); [|by eexists]. rewrite assign_at_map by (by apply assign_map). by eexists. }
  destruct (make_self_Ok _ _ _ Eself Hmap) as ([Hself Hk] & _ & _). rewrite Eself. simpl. rewrite assign_at_map by done. simpl.
  rewrite (at_key_map base) by done. simpl.
  assert (own_or_shared (child base "shared") (assign node "self" self) "redis" = own_or_shared (child base "shared") node "redis") as Ered.
  { unfold own_or_shared. by rewrite !assign_child by done. }
  apply (assemble_total _ _ _ _ service); rewrite ?Ered; try done.
  - by apply assign_map.
  - unfold service_of in *. by rewrite Hk by set_solver.
  - intros Hsv. apply option_list_some. rewrite Pst. apply Hpeer, Hst. rewrite Hs. naive_solver.
  - intros ->. apply option_list_some. rewrite Pfi. by apply Hpeer, Hfi.
Qed.

(** The document that IMM_EXTRA_CONFIG names; without one, an empty node. *)
Definition extra_document (getenv : string → option string) (LoadFile : string → outcome yaml) (empty_node extra : yaml) : Prop :=
  match getenv "IMM_EXTRA_CONFIG" with
  | None => extra = empty_node
  | Some path => if bool_decide (path = "") then extra = empty_node else LoadFile path = Ok extra
  end.

(** C22: a node gets the configuration that the documents give it. When load
    succeeds, IMM_NODE names a node of the document or of the document that
    IMM_EXTRA_CONFIG names, whose nodes are added after the others, of which none
    is changed; every node is well formed; and the result
    is the node's entry with the name and address it listens on, its own or the
    shared database, Redis and transport settings, in those of Redis the machine
    id of the node (1 if it has none), the State or File node it needs, of
    which there is exactly one, and every Gateway and Message node with its name.
    When load fails, the configuration stays as it was, and the documents do not
    describe a cluster with that node ([documents_ok]: all nodes well formed, with
    different names, at most one of each single service, the peers there that the
    node needs). *)
Theorem configuration_selected getenv LoadFile empty_node path current :
  match load getenv LoadFile empty_node path current with
  | (true, config) =>
      ∃ node_id base extra nodes, getenv "IMM_NODE" = Some node_id ∧ LoadFile path = Ok base ∧
        extra_document getenv LoadFile empty_node extra ∧
        keeps_nodes (child base "nodes") nodes ∧
        (entries nodes).*2 = (entries (child base "nodes")).*2 ++ (added extra).*2 ∧
        (∀ k v, (k, v) ∈ added extra → child nodes (name_of k) = v) ∧
        Forall (λ item, node_ok item.1 item.2) (entries nodes) ∧
        node_id ≠ "" ∧ defined (child nodes node_id) = true ∧ selection base nodes node_id config
  | (false, config) =>
      config = current ∧
      ∀ node_id base extra key node, getenv "IMM_NODE" = Some node_id → LoadFile path = Ok base →
        extra_document getenv LoadFile empty_node extra → ¬ documents_ok base extra node_id key node
  end.
Proof.
  unfold load. destruct (selected getenv LoadFile empty_node path) as [config|e] eqn:Es; unfold selected in Es.
  - loaded Es. rename a0 into extra, a1 into base. apply require_Ok, negb_true_iff, bool_decide_eq_false in E.
    destruct (getenv "IMM_NODE") as [node_id|]; [|done]. simpl in *.
    destruct (select_Ok _ _ _ _ Es) as (nodes & Hn & Hall & Hid & Hd & Hsel).
    destruct (all_nodes_Ok _ _ _ Hn) as (_ & _ & Hk & Hv & Ha). exists node_id, base, extra, nodes.
    do 2 (split; [done|]). split; [|by split_and!]. unfold extra_document.
    destruct (getenv "IMM_EXTRA_CONFIG") as [p|]; simpl in E0; [case_bool_decide; [by injection E0 as <-|done]|by injection E0 as <-].
  - split; [done|]. intros node_id base extra key node Hnode Hbase Hextra Hdoc.
    destruct (select_total _ _ _ _ _ Hdoc) as [config Hc]. destruct (dk_node _ _ _ _ _ Hdoc) as (_ & _ & Hne).
    rewrite Hnode, Hbase in Es. simpl in Es. rewrite (bool_decide_eq_false_2 (node_id = "")) in Es by done. simpl in Es. unfold extra_document in Hextra.
    destruct (getenv "IMM_EXTRA_CONFIG") as [p|]; simpl in Es; [case_bool_decide|]; rewrite ?Hextra in *; subst; simpl in Es; congruence.
Qed.
End theorems.

(** ** Trees *)

#[local] Existing Instance demo_yaml_reader.

Definition demo_entries (n : demo_yaml) : list (demo_yaml * demo_yaml) :=
  match n with YMap l => (λ kv, (YText kv.1, kv.2)) <$> filter (λ kv, demo_defined kv.2 = true) l | _ => [] end.
Definition demo_is_map (n : demo_yaml) : bool := match n with YMap _ => true | _ => false end.
Definition demo_assign (n : demo_yaml) (key : string) (v : demo_yaml) : demo_yaml :=
  match n with
  | YMap l =>
      match demo_find key l with
      | Some _ => YMap ((λ kv, if bool_decide (kv.1 = key) then (kv.1, v) else kv) <$> l)
      | None => YMap (l ++ [(key, v)])
      end
  | n => n
  end.

Lemma demo_find_entry key l : find_entry key (demo_entries (YMap l)) = demo_find key l.
Proof.
  unfold demo_entries. induction l as [|[k v] l IH]; [done|]. rewrite filter_cons. cbn [snd demo_find].
  destruct (demo_defined v); (case_decide as Ed; [|try done]); try done.
  - rewrite fmap_cons. cbn [find_entry fst snd]. rewrite IH, andb_true_r. cbn.
    case_bool_decide; case_bool_decide; naive_solver.
  - by rewrite IH, andb_false_r.
Qed.
Lemma demo_find_defined key l v : demo_find key l = Some v → demo_defined v = true.
Proof. induction l as [|[k v'] l IH]; simpl; [done|]. destruct (bool_decide _ && demo_defined v') eqn:E; [|done]. intros [= <-]. by apply andb_true_iff in E as [_ ?]. Qed.
Lemma demo_find_app key l k v :
  demo_find key (l ++ [(k, v)]) =
    match demo_find key l with Some x => Some x | None => if bool_decide (k = key) && demo_defined v then Some v else None end.
Proof. induction l as [|[k' v'] l IH]; simpl; [done|]. by destruct (bool_decide (k' = key) && demo_defined v'). Qed.
Lemma demo_find_replace key l k v :
  demo_find key ((λ kv, if bool_decide (kv.1 = k) then (kv.1, v) else kv) <$> l) =
    if bool_decide (k = key) then (if demo_defined v && bool_decide (k ∈ l.*1) then Some v else None) else demo_find key l.
Proof.
  induction l as [|[k' v'] l IH]; [by cbn; rewrite andb_false_r; case_bool_decide|]. rewrite !fmap_cons. cbn [fst].
  destruct (decide (k' = k)) as [->|Hne].
  - rewrite (bool_decide_eq_true_2 (k = k)), (bool_decide_eq_true_2 (k ∈ k :: _)) by set_solver. cbn [demo_find].
    rewrite IH. case_bool_decide; [|done]. by destruct (demo_defined v).
  - rewrite (bool_decide_eq_false_2 (k' = k)) by done. cbn [demo_find]. rewrite IH.
    rewrite (bool_decide_ext (k ∈ k' :: l.*1) (k ∈ l.*1)) by set_solver.
    destruct (decide (k = key)) as [->|Hk]; [|by rewrite (bool_decide_eq_false_2 (k = key))].
    by rewrite (bool_decide_eq_true_2 (key = key)), (bool_decide_eq_false_2 (k' = key)).
Qed.
Lemma demo_child_assign n key v key' :
  demo_is_map n = true → demo_child (demo_assign n key v) key' = if bool_decide (key = key') then v else demo_child n key'.
Proof.
  destruct n as [| | | |l]; try done. intros _. simpl. destruct (demo_find key l) as [x|] eqn:E; simpl.
  - rewrite demo_find_replace. case_bool_decide; [|done].
    assert (key ∈ l.*1) as Hin.
    { clear -E. induction l as [|[k v'] l IH]; simpl in *; [done|]. destruct (bool_decide (k = key)) eqn:Ek; simpl in E.
      - apply bool_decide_eq_true in Ek. set_solver.
      - apply elem_of_cons. auto. }
    rewrite (bool_decide_eq_true_2 (key ∈ _)) by done. by destruct v.
  - rewrite demo_find_app. case_bool_decide as Ek; simpl; [|by destruct (demo_find key' l)]. subst key'. rewrite E. by destruct v.
Qed.

#[local] Obligation Tactic := idtac.
Program Definition demo_tree : YamlTree := {|
  is_map := demo_is_map; is_null := λ n, false; entries := demo_entries; assign := demo_assign;
  of_string := YText; of_unsigned := YNumber; of_sequence := YList |}.
Next Obligation. by intros [] ?. Qed.
Next Obligation. by intros []. Qed.
Next Obligation. by intros [] key. Qed.
Next Obligation. intros [| | | |l] key v; try done. intros _. rewrite demo_find_entry. simpl. by intros ->. Qed.
Next Obligation. intros [| | | |l] key; try done. intros _. rewrite demo_find_entry. simpl. by intros ->. Qed.
Next Obligation.
  intros [| | | |l] k v; try by intros ?%elem_of_nil. intros ([k' v'] & [= -> ->] & [Hd _]%list_elem_of_filter)%list_elem_of_fmap. done.
Qed.
Next Obligation. intros [| | | |l] key v; try done. intros _. simpl. by destruct (demo_find key l). Qed.
Next Obligation. intros n key v key'. apply demo_child_assign. Qed.
Next Obligation.
  intros [| | | |l] key v; try done. intros _ Hd. rewrite demo_find_entry. simpl. intros ->. simpl.
  rewrite filter_app, fmap_app. f_equal. rewrite filter_cons. simpl in *. by rewrite Hd.
Qed.
Next Obligation. done. Qed.
Next Obligation. done. Qed.
Next Obligation. intros z Hz. simpl. by rewrite bool_decide_eq_true_2. Qed.
Next Obligation. done. Qed.
Next Obligation. done. Qed.

(** ** The documents of the unit test *)

#[local] Existing Instance demo_tree.

Definition test_entry (service : string) (port : Z) (more : list (string * demo_yaml)) : string → string * demo_yaml :=
  λ name, (name, YMap ([("service", YText service); ("host", YText "localhost"); ("port", YNumber port)] ++ more)).
Definition test_base : demo_yaml :=
  YMap [("shared", YMap [("mysql", YMap [("port", YNumber 3306)]); ("redis", YMap [("masterName", YText "test")])]);
        ("nodes", YMap [test_entry "gate" 18080 [("shards", YNumber 2)] "gate"; test_entry "state" 50052 [] "state";
           test_entry "file" 51100 [] "file"; test_entry "gateway" 8090 [("shards", YNumber 2)] "gateway-1";
           test_entry "message" 50055 [("machineId", YNumber 1)] "message-1"])].
Definition test_extra : demo_yaml :=
  YMap [("nodes", YMap [test_entry "gateway" 8091 [] "gateway-2";
           test_entry "message" 50056 [("machineId", YNumber 2)] "message-2"])].
Definition test_load (node : string) (extra : option string) : bool * demo_yaml :=
  load (λ name, if bool_decide (name = "IMM_NODE") then Some node else if bool_decide (name = "IMM_EXTRA_CONFIG") then extra else None)
    (λ path, if bool_decide (path = "base") then Ok test_base else if bool_decide (path = "extra") then Ok test_extra
             else Throw invalid_node) YUndefined "base" YUndefined.

Example test_selected :
  (let '(ok, config) := test_load "message-2" (Some "extra") in
   ok = true ∧ as_unsigned (child (child config "file") "port") = Some 51100%Z ∧
   as_unsigned (child (child config "redis") "machineId") = Some 2%Z ∧
   as_string (child (child config "redis") "masterName") = Some "test") ∧
  length (sequence (child (test_load "state" (Some "extra")).2 "gateways")) = 2 ∧
  length (sequence (child (test_load "state" None).2 "gateways")) = 1 ∧
  (test_load "gateway-2" None).1 = false ∧ (test_load "gate" (Some "missing")).1 = false.
Proof. by vm_compute. Qed.
