(* ===== verification/Schema.v ===== *)
(** * MySQL: tables, statements, transactions and faults

    The tables of scripts/sql/init_message_mysql_test.sql, one map per table
    keyed by its primary key, and the connection of common/reactor/
    mysql_connection.cc as the stores use it: statements, START TRANSACTION,
    COMMIT, ROLLBACK and the loss of the connection. MySQL itself is not part
    of the sources: what it decides on its own (collation weights, error texts,
    when a statement fails) is a parameter or an input of the model. *)

From S2P Require Import Prelude Codec.

(** ** Rows *)

Record user_row := MkUser {
  u_uid : Z; u_username : string; u_password : string; u_email : string; u_createTime : string }.
Record user_info_row := MkUserInfoRow {
  uir_name : string; uir_age : Z; uir_sex : string; uir_headImageURL : string }.
Record friend_apply_row := MkFriendApplyRow {
  far_content : string; far_status : Z; far_createTime : string }.
Record friend_row := MkFriendRow {
  fr_uidA : Z; fr_uidB : Z; fr_createTime : string }.
Record conversation_row := MkConversationRow {
  cv_type : Z; cv_businessId : Z; cv_latestSeq : Z; cv_createTime : string }.
Record user_state_row := MkUserStateRow {
  us_joinedSeq : Z; us_leftSeq : option Z; us_deliveredSeq : Z; us_readSeq : Z }.
Record message_row := MkMessageRow {
  m_senderId : Z; m_receiverId : Z; m_conversationId : Z; m_conversationSeq : Z;
  m_clientMessageId : option string; m_commandHash : option string; m_type : Z;
  m_content : string; m_status : Z; m_sendDateTime : string; m_readDateTime : string }.
Record group_row := MkGroupRow {
  g_masterUid : Z; g_name : string; g_conversationId : Z; g_createTime : string }.
Record file_row := MkFileRow {
  fo_fileId : string; fo_ownerUid : Z; fo_fileName : string; fo_fileType : string;
  fo_fileSize : Z; fo_sha256 : string; fo_state : Z; fo_createdTime : string;
  fo_expiresTime : string }.
Record upload_row := MkUploadRow {
  up_fileId : string; up_nextOffset : Z; up_complete : Z; up_updateTime : string }.
Record group_apply_row := MkGroupApplyRow {
  ga_message : string; ga_createTime : string }.
Record device_row := MkDeviceRow {
  dv_deviceId : string; dv_uid : Z; dv_platform : string; dv_deviceName : string }.

(** ** The database

    A string key is stored under its collation weight. *)

Record database := MkDatabase {
  users : gmap Z user_row;
  userInfo : gmap Z user_info_row;
  friendApplys : gmap (Z * Z) friend_apply_row;
  friends : gmap Z friend_row;
  conversations : gmap Z conversation_row;
  conversationUserStates : gmap (Z * Z) user_state_row;
  messages : gmap Z message_row;
  groupInfo : gmap Z group_row;
  fileObjects : gmap string file_row;
  fileUploads : gmap (Z * string) upload_row;
  groupMembers : gmap (Z * Z) string;
  groupApplys : gmap (Z * Z) group_apply_row;
  devices : gmap string device_row;
  conversationDeviceStates : gmap (Z * string) Z
}.

Definition empty_database : database :=
  MkDatabase ∅ ∅ ∅ ∅ ∅ ∅ ∅ ∅ ∅ ∅ ∅ ∅ ∅ ∅.

Definition set_users (x : gmap Z user_row) (d : database) : database :=
  MkDatabase x d.(userInfo) d.(friendApplys) d.(friends) d.(conversations) d.(conversationUserStates) d.(messages) d.(groupInfo) d.(fileObjects) d.(fileUploads) d.(groupMembers) d.(groupApplys) d.(devices) d.(conversationDeviceStates).
Definition set_userInfo (x : gmap Z user_info_row) (d : database) : database :=
  MkDatabase d.(users) x d.(friendApplys) d.(friends) d.(conversations) d.(conversationUserStates) d.(messages) d.(groupInfo) d.(fileObjects) d.(fileUploads) d.(groupMembers) d.(groupApplys) d.(devices) d.(conversationDeviceStates).
Definition set_friendApplys (x : gmap (Z * Z) friend_apply_row) (d : database) : database :=
  MkDatabase d.(users) d.(userInfo) x d.(friends) d.(conversations) d.(conversationUserStates) d.(messages) d.(groupInfo) d.(fileObjects) d.(fileUploads) d.(groupMembers) d.(groupApplys) d.(devices) d.(conversationDeviceStates).
Definition set_friends (x : gmap Z friend_row) (d : database) : database :=
  MkDatabase d.(users) d.(userInfo) d.(friendApplys) x d.(conversations) d.(conversationUserStates) d.(messages) d.(groupInfo) d.(fileObjects) d.(fileUploads) d.(groupMembers) d.(groupApplys) d.(devices) d.(conversationDeviceStates).
Definition set_conversations (x : gmap Z conversation_row) (d : database) : database :=
  MkDatabase d.(users) d.(userInfo) d.(friendApplys) d.(friends) x d.(conversationUserStates) d.(messages) d.(groupInfo) d.(fileObjects) d.(fileUploads) d.(groupMembers) d.(groupApplys) d.(devices) d.(conversationDeviceStates).
Definition set_conversationUserStates (x : gmap (Z * Z) user_state_row) (d : database) : database :=
  MkDatabase d.(users) d.(userInfo) d.(friendApplys) d.(friends) d.(conversations) x d.(messages) d.(groupInfo) d.(fileObjects) d.(fileUploads) d.(groupMembers) d.(groupApplys) d.(devices) d.(conversationDeviceStates).
Definition set_messages (x : gmap Z message_row) (d : database) : database :=
  MkDatabase d.(users) d.(userInfo) d.(friendApplys) d.(friends) d.(conversations) d.(conversationUserStates) x d.(groupInfo) d.(fileObjects) d.(fileUploads) d.(groupMembers) d.(groupApplys) d.(devices) d.(conversationDeviceStates).
Definition set_groupInfo (x : gmap Z group_row) (d : database) : database :=
  MkDatabase d.(users) d.(userInfo) d.(friendApplys) d.(friends) d.(conversations) d.(conversationUserStates) d.(messages) x d.(fileObjects) d.(fileUploads) d.(groupMembers) d.(groupApplys) d.(devices) d.(conversationDeviceStates).
Definition set_fileObjects (x : gmap string file_row) (d : database) : database :=
  MkDatabase d.(users) d.(userInfo) d.(friendApplys) d.(friends) d.(conversations) d.(conversationUserStates) d.(messages) d.(groupInfo) x d.(fileUploads) d.(groupMembers) d.(groupApplys) d.(devices) d.(conversationDeviceStates).
Definition set_fileUploads (x : gmap (Z * string) upload_row) (d : database) : database :=
  MkDatabase d.(users) d.(userInfo) d.(friendApplys) d.(friends) d.(conversations) d.(conversationUserStates) d.(messages) d.(groupInfo) d.(fileObjects) x d.(groupMembers) d.(groupApplys) d.(devices) d.(conversationDeviceStates).
Definition set_groupMembers (x : gmap (Z * Z) string) (d : database) : database :=
  MkDatabase d.(users) d.(userInfo) d.(friendApplys) d.(friends) d.(conversations) d.(conversationUserStates) d.(messages) d.(groupInfo) d.(fileObjects) d.(fileUploads) x d.(groupApplys) d.(devices) d.(conversationDeviceStates).
Definition set_groupApplys (x : gmap (Z * Z) group_apply_row) (d : database) : database :=
  MkDatabase d.(users) d.(userInfo) d.(friendApplys) d.(friends) d.(conversations) d.(conversationUserStates) d.(messages) d.(groupInfo) d.(fileObjects) d.(fileUploads) d.(groupMembers) x d.(devices) d.(conversationDeviceStates).
Definition set_devices (x : gmap string device_row) (d : database) : database :=
  MkDatabase d.(users) d.(userInfo) d.(friendApplys) d.(friends) d.(conversations) d.(conversationUserStates) d.(messages) d.(groupInfo) d.(fileObjects) d.(fileUploads) d.(groupMembers) d.(groupApplys) x d.(conversationDeviceStates).
Definition set_conversationDeviceStates (x : gmap (Z * string) Z) (d : database) : database :=
  MkDatabase d.(users) d.(userInfo) d.(friendApplys) d.(friends) d.(conversations) d.(conversationUserStates) d.(messages) d.(groupInfo) d.(fileObjects) d.(fileUploads) d.(groupMembers) d.(groupApplys) d.(devices) x.

(** ** Statements

    [weight] is MySQL's WEIGHT_STRING of the column collation: two strings are
    equal, or ordered, in SQL as their weights are. *)

Inductive sql_error := DuplicateEntry | OutOfRange.

Class MysqlServer := {
  weight : string → string;
  diagnostic : sql_error → string
}.

Class StdHash := std_hash : string → Z.

Definition sql_result (A : Type) : Type := sql_error + (database * A).
Definition sql (A : Type) : Type := database → sql_result A.

(** The server as one connection sees it. [faults] says, statement by
    statement, whether it succeeds, fails, or takes effect but its reply is
    lost; an exhausted list means no further failure. [auto_increment] is the
    counter of messages.messageId, which a rollback does not restore. *)
Record server := MkServer {
  committed : database;
  working : option database;
  auto_increment : Z;
  connected : bool;
  faults : list fault;
  clock : nat → string;
  ticks : nat
}.

Definition current (s : server) : database := default s.(committed) s.(working).

Definition set_current (d : database) (s : server) : server :=
  match s.(working) with
  | Some _ => MkServer s.(committed) (Some d) s.(auto_increment) s.(connected) s.(faults) s.(clock) s.(ticks)
  | None => MkServer d None s.(auto_increment) s.(connected) s.(faults) s.(clock) s.(ticks)
  end.

Definition set_committed (d : database) (w : option database) (s : server) : server :=
  MkServer d w s.(auto_increment) s.(connected) s.(faults) s.(clock) s.(ticks).

Definition set_faults (l : list fault) (s : server) : server :=
  MkServer s.(committed) s.(working) s.(auto_increment) s.(connected) l s.(clock) s.(ticks).

Definition next_fault : Eff server fault := λ s,
  (Ok (default NoFault (head s.(faults))), set_faults (tail s.(faults)) s).

Definition bump_auto_increment (s : server) : server :=
  MkServer s.(committed) s.(working) (s.(auto_increment) + 1) s.(connected) s.(faults) s.(clock) s.(ticks).

(** A mysql_connection::command or query whose effect is [run]. *)
Definition attempt {A} (run : Eff server A) : Eff server A :=
  f ← next_fault;
  match f with
  | NoFault => run
  | FailBefore what => throw (RuntimeError what)
  | FailAfter what => run ;; throw (RuntimeError what)
  end.

Section statements.
Context `{!MysqlServer}.

(** mysql_store::query: a statement the server rejects throws its text. *)
Definition query {A} (q : sql A) : Eff server A :=
  attempt (λ s,
    match q (current s) with
    | inl e => (Throw (RuntimeError (diagnostic e)), s)
    | inr (d, a) => (Ok a, set_current d s)
    end).

(** An INSERT into messages: [q id] inserts the row under the generated id;
    the result is [insert_id]. *)
Definition query_auto_increment (q : Z → sql unit) : Eff server Z :=
  attempt (λ s,
    let id := s.(auto_increment) in
    let s := bump_auto_increment s in
    match q id (current s) with
    | inl e => (Throw (RuntimeError (diagnostic e)), s)
    | inr (d, _) => (Ok id, set_current d s)
    end).

End statements.

Definition start_transaction : Eff server unit :=
  attempt (λ s, (Ok tt, set_committed s.(committed) (Some s.(committed)) s)).

Definition commit : Eff server unit :=
  attempt (λ s, (Ok tt, set_committed (current s) None s)).

Definition rollback : Eff server unit :=
  attempt (λ s, (Ok tt, set_committed s.(committed) None s)).

(** mysql_connection::abort drops the connection: the server discards the
    open transaction. *)
Definition abort : Eff server unit :=
  modify (λ s, MkServer s.(committed) None s.(auto_increment) false s.(faults) s.(clock) s.(ticks)).

(** driver::connect_mysql: a new connection has no open transaction. *)
Definition connect_mysql : Eff server unit :=
  try attempt (λ s, (Ok tt, MkServer s.(committed) None s.(auto_increment) true s.(faults) s.(clock) s.(ticks)))
  with e => abort ;; throw e.

Definition getCurrentDateTime : Eff server string := λ s,
  (Ok (s.(clock) s.(ticks)),
   MkServer s.(committed) s.(working) s.(auto_increment) s.(connected) s.(faults) s.(clock) (S s.(ticks))).

(** ** Columns

    BIGINT UNSIGNED and SMALLINT columns refuse values out of their range;
    INSERT IGNORE clamps them instead. [field<int64_t>] refuses a value that
    does not fit. *)
Definition bigint_unsigned (z : Z) : bool := is_u64 z.
Definition smallint (z : Z) : bool := bool_decide (-32768 ≤ z ≤ 32767)%Z.
Definition clamp_unsigned (z : Z) : Z := Z.max 0 (Z.min z (two64 - 1)).

Definition field_i64 {W} (z : Z) : Eff W Z :=
  if is_i64 z then mret z else throw (RuntimeError "invalid SQL integer").

Definition sql_read {A} (f : database → A) : sql A := λ d, inr (d, f d).

(** Rows of a table that satisfy a condition, in storage order. *)
Definition select `{Countable K} {A} (P : K → A → bool) (t : gmap K A) : list (K * A) :=
  filter (λ kv, P kv.1 kv.2 = true) (map_to_list t).

Lemma elem_of_select `{Countable K} {A} (P : K → A → bool) (t : gmap K A) k a :
  (k, a) ∈ select P t ↔ t !! k = Some a ∧ P k a = true.
Proof. unfold select. rewrite list_elem_of_filter, elem_of_map_to_list. naive_solver. Qed.

Lemma select_head_None `{Countable K} {A} (P : K → A → bool) (t : gmap K A) :
  head (select P t) = None ↔ ∀ k a, t !! k = Some a → P k a = false.
Proof.
  split.
  - intros Hn k a Hk. destruct (P k a) eqn:HP; [|done].
    assert ((k, a) ∈ select P t) as Hin by (by apply elem_of_select).
    destruct (select P t); [by apply elem_of_nil in Hin | done].
  - intros Hall. destruct (select P t) as [|[k a] l] eqn:E; [done|].
    assert ((k, a) ∈ select P t) as [Hk HP]%elem_of_select by (rewrite E; left).
    specialize (Hall _ _ Hk). congruence.
Qed.

Lemma select_head_Some `{Countable K} {A} (P : K → A → bool) (t : gmap K A) k a :
  head (select P t) = Some (k, a) → t !! k = Some a ∧ P k a = true.
Proof.
  destruct (select P t) as [|x l] eqn:E; [done|]. simpl. intros [= ->].
  apply elem_of_select. rewrite E. left.
Qed.

Lemma select_head_unique `{Countable K} {A} (P : K → A → bool) (t : gmap K A) k a :
  t !! k = Some a → P k a = true →
  (∀ k' a', t !! k' = Some a' → P k' a' = true → k' = k) →
  head (select P t) = Some (k, a).
Proof.
  intros Hk HP Hu. destruct (head (select P t)) as [[k' a']|] eqn:E.
  - apply select_head_Some in E as [Hk' HP'].
    rewrite (Hu k' a' Hk' HP') in Hk' |- *. congruence.
  - rewrite select_head_None in E. specialize (E _ _ Hk). congruence.
Qed.
