(* ===== verification/Records.v ===== *)
(** * Database records and store operations

    The structures of common/include/DbGlobal.h and message_records.hh that
    the Message core passes around, and the operations of
    message/io/mysql_operations.hh, indexed by their result type. *)

From S2P Require Import Prelude Codec.

(** ** Records of DbGlobal.h and message_records.hh *)
Module db.

Record UserInfo := MkDbUserInfo {
  dui_uid : Z; dui_name : string; dui_age : Z; dui_sex : string; dui_headImageURL : string }.

Record Friend := MkFriend {
  f_friendshipId : Z; f_conversationId : Z; f_uidA : Z; f_uidB : Z; f_createTime : string }.

Inductive FriendApplyStatus := Wait | Agree | Refuse.

Definition friend_apply_status (s : FriendApplyStatus) : Z :=
  match s with Wait => 0 | Agree => 1 | Refuse => 2 end.

Record FriendApply := MkDbFriendApply {
  fa_from : Z; fa_to : Z; fa_status : Z; fa_content : string; fa_createTime : string }.

Inductive MessageType := TEXT | IMAGE | AUDIO | VIDEO | FILE.

Definition message_type_value (t : MessageType) : Z :=
  match t with TEXT => 1 | IMAGE => 2 | AUDIO => 3 | VIDEO => 4 | FILE => 5 end.

Inductive MessageStatus := WITHDRAW | WAIT | DELIVERED | READ.

Definition message_status (s : MessageStatus) : Z :=
  match s with WITHDRAW => 0 | WAIT => 1 | DELIVERED => 2 | READ => 3 end.

Record GroupManager := MkGroupManager {
  gm_groupId : Z; gm_masterUid : Z; gm_conversationId : Z; gm_name : string;
  gm_createTime : string }.

Record GroupMember := MkDbGroupMember {
  gmem_groupId : Z; gmem_uid : Z; gmem_joinTime : string; gmem_memberName : string }.

Record GroupApply := MkDbGroupApply {
  gap_requestor : Z; gap_groupId : Z; gap_message : string; gap_createTime : string }.

Record MessageAcceptResult := MkAccept {
  ar_error : Z;
  ar_diagnostic : string;
  ar_duplicate : bool;
  ar_messageId : Z;
  ar_conversationId : Z;
  ar_conversationSeq : Z
}.

Definition accept_init : MessageAcceptResult := MkAccept MysqlFailed "" false 0 0 0.

(** GroupMessageAcceptResult extends MessageAcceptResult. *)
Record GroupMessageAcceptResult := MkGroupAccept {
  gar_base : MessageAcceptResult;
  gar_groupId : Z;
  gar_recipientUids : list Z
}.

Record GroupOperationResult := MkGroupOperation {
  go_error : Z;
  go_diagnostic : string;
  go_groupId : Z;
  go_conversationId : Z;
  go_masterUid : Z;
  go_targetUid : Z;
  go_actorUid : Z;
  go_groupName : string;
  go_targetJoinTime : string;
  go_recipientUids : list Z;
  go_members : list GroupMember;
  go_applies : list GroupApply
}.

Definition group_operation_init : GroupOperationResult :=
  MkGroupOperation MysqlFailed "" 0 0 0 0 0 "" "" [] [] [].

Record FileAttachment := MkFileAttachment {
  at_fileId : string; at_fileName : string; at_fileType : string; at_fileSize : Z;
  at_sha256 : string; at_expired : bool }.

Record ConversationMessageRecord := MkMessageRecord {
  cmr_messageId : Z; cmr_senderId : Z; cmr_receiverId : Z; cmr_conversationId : Z;
  cmr_conversationSeq : Z; cmr_clientMessageId : string; cmr_type : Z;
  cmr_content : string; cmr_status : Z; cmr_sendDateTime : string;
  cmr_readDateTime : string; cmr_file : option FileAttachment }.

Record FileObjectRecord := MkFileObject {
  for_fileId : string; for_ownerUid : Z; for_fileName : string; for_fileType : string;
  for_fileSize : Z; for_sha256 : string; for_expired : bool }.

Record ConversationSyncResult := MkSync {
  sr_error : Z; sr_conversationType : Z; sr_latestSeq : Z; sr_nextSeq : Z;
  sr_hasMore : bool; sr_messages : list ConversationMessageRecord }.

Definition sync_init : ConversationSyncResult := MkSync MysqlFailed 0 0 0 false [].

Record ConversationAckResult := MkAck {
  ack_updated : Z; ack_senderUid : Z; ack_directConversation : bool;
  ack_readStateChanged : bool }.

Definition ack_init : ConversationAckResult := MkAck (-1) 0 false false.

(** Field assignments of the result structures. *)
Definition set_error (e : Z) (r : MessageAcceptResult) : MessageAcceptResult :=
  MkAccept e r.(ar_diagnostic) r.(ar_duplicate) r.(ar_messageId) r.(ar_conversationId) r.(ar_conversationSeq).
Definition set_diagnostic (x : string) (r : MessageAcceptResult) : MessageAcceptResult :=
  MkAccept r.(ar_error) x r.(ar_duplicate) r.(ar_messageId) r.(ar_conversationId) r.(ar_conversationSeq).
Definition set_conversation (c : Z) (r : MessageAcceptResult) : MessageAcceptResult :=
  MkAccept r.(ar_error) r.(ar_diagnostic) r.(ar_duplicate) r.(ar_messageId) c r.(ar_conversationSeq).
Definition set_seq (q : Z) (r : MessageAcceptResult) : MessageAcceptResult :=
  MkAccept r.(ar_error) r.(ar_diagnostic) r.(ar_duplicate) r.(ar_messageId) r.(ar_conversationId) q.
Definition set_message (i : Z) (r : MessageAcceptResult) : MessageAcceptResult :=
  MkAccept r.(ar_error) r.(ar_diagnostic) r.(ar_duplicate) i r.(ar_conversationId) r.(ar_conversationSeq).
Definition set_duplicate (b : bool) (r : MessageAcceptResult) : MessageAcceptResult :=
  MkAccept r.(ar_error) r.(ar_diagnostic) b r.(ar_messageId) r.(ar_conversationId) r.(ar_conversationSeq).

Definition with_base (f : MessageAcceptResult → MessageAcceptResult)
    (r : GroupMessageAcceptResult) : GroupMessageAcceptResult :=
  MkGroupAccept (f r.(gar_base)) r.(gar_groupId) r.(gar_recipientUids).
Definition push_recipient (uid : Z) (r : GroupMessageAcceptResult) : GroupMessageAcceptResult :=
  MkGroupAccept r.(gar_base) r.(gar_groupId) (r.(gar_recipientUids) ++ [uid]).

Definition set_go_error (e : Z) (r : GroupOperationResult) : GroupOperationResult :=
  MkGroupOperation e r.(go_diagnostic) r.(go_groupId) r.(go_conversationId) r.(go_masterUid)
    r.(go_targetUid) r.(go_actorUid) r.(go_groupName) r.(go_targetJoinTime)
    r.(go_recipientUids) r.(go_members) r.(go_applies).
Definition set_go_diagnostic (x : string) (r : GroupOperationResult) : GroupOperationResult :=
  MkGroupOperation r.(go_error) x r.(go_groupId) r.(go_conversationId) r.(go_masterUid)
    r.(go_targetUid) r.(go_actorUid) r.(go_groupName) r.(go_targetJoinTime)
    r.(go_recipientUids) r.(go_members) r.(go_applies).
(** The assignments of masterUid, conversationId and groupName from a groupInfo row. *)
Definition set_go_group (master conversation : Z) (name : string)
    (r : GroupOperationResult) : GroupOperationResult :=
  MkGroupOperation r.(go_error) r.(go_diagnostic) r.(go_groupId) conversation master
    r.(go_targetUid) r.(go_actorUid) name r.(go_targetJoinTime)
    r.(go_recipientUids) r.(go_members) r.(go_applies).
Definition push_go_recipient (uid : Z) (r : GroupOperationResult) : GroupOperationResult :=
  MkGroupOperation r.(go_error) r.(go_diagnostic) r.(go_groupId) r.(go_conversationId) r.(go_masterUid)
    r.(go_targetUid) r.(go_actorUid) r.(go_groupName) r.(go_targetJoinTime)
    (r.(go_recipientUids) ++ [uid]) r.(go_members) r.(go_applies).
Definition set_go_join_time (t : string) (r : GroupOperationResult) : GroupOperationResult :=
  MkGroupOperation r.(go_error) r.(go_diagnostic) r.(go_groupId) r.(go_conversationId) r.(go_masterUid)
    r.(go_targetUid) r.(go_actorUid) r.(go_groupName) t
    r.(go_recipientUids) r.(go_members) r.(go_applies).
Definition push_go_member (m : GroupMember) (r : GroupOperationResult) : GroupOperationResult :=
  MkGroupOperation r.(go_error) r.(go_diagnostic) r.(go_groupId) r.(go_conversationId) r.(go_masterUid)
    r.(go_targetUid) r.(go_actorUid) r.(go_groupName) r.(go_targetJoinTime)
    r.(go_recipientUids) (r.(go_members) ++ [m]) r.(go_applies).
Definition push_go_apply (a : GroupApply) (r : GroupOperationResult) : GroupOperationResult :=
  MkGroupOperation r.(go_error) r.(go_diagnostic) r.(go_groupId) r.(go_conversationId) r.(go_masterUid)
    r.(go_targetUid) r.(go_actorUid) r.(go_groupName) r.(go_targetJoinTime)
    r.(go_recipientUids) r.(go_members) (r.(go_applies) ++ [a]).

End db.
Import db.

(** ** Operations of mysql_operations.hh *)

Inductive mysql_operation : Type → Type :=
  | get_user_info (uid : Z) : mysql_operation (option db.UserInfo)
  | get_friend_list (uid : Z) : mysql_operation (option (list Friend))
  | insert_friend_apply (friend_data : db.FriendApply) : mysql_operation Z
  | update_friend_apply_status (friend_data : db.FriendApply) : mysql_operation Z
  | insert_friend (friend_data : Friend) : mysql_operation Z
  | accept_direct_text (sender_id receiver_id : Z) (client_message_id content send_date_time : string)
      (message_type : Z) : mysql_operation MessageAcceptResult
  | upsert_ready_file (file : FileObjectRecord) (created_time expires_time : string) : mysql_operation Z
  | save_file_upload_progress (owner_uid : Z) (file_id : string) (next_offset : Z) (complete : bool)
      (update_time : string) : mysql_operation Z
  | find_downloadable_file (file_id : string) (uid : Z) : mysql_operation (option FileObjectRecord)
  | find_ready_file (file_id : string) (owner_uid : Z) : mysql_operation (option FileObjectRecord)
  | accept_group_message (sender_id group_id : Z) (client_message_id content : string)
      (message_type : Z) (send_date_time : string) (require_ready_owned_file : bool) :
      mysql_operation GroupMessageAcceptResult
  | sync_conversation (uid conversation_id after_seq pull_count : Z) : mysql_operation ConversationSyncResult
  | acknowledge_conversation_message (message_id uid : Z) (device_id : string)
      (conversation_id conversation_seq status : Z) (read_date_time : string) :
      mysql_operation ConversationAckResult
  | get_friend_apply_list (from : Z) : mysql_operation (option (list db.FriendApply))
  | delete_friend (uid_a uid_b : Z) : mysql_operation Z
  | create_group (group : GroupManager) : mysql_operation GroupOperationResult
  | request_group_join (group_id uid : Z) (message now : string) : mysql_operation GroupOperationResult
  | reply_group_join (group_id actor_uid requestor_uid : Z) (accept : bool) (now : string) :
      mysql_operation GroupOperationResult
  | remove_group_member (group_id actor_uid target_uid : Z) (dissolve_if_master : bool) :
      mysql_operation GroupOperationResult
  | pull_group (group_id uid : Z) : mysql_operation GroupOperationResult
  | update_user_info_name (uid : Z) (name : string) : mysql_operation Z
  | update_user_info_age (uid : Z) (age : Z) : mysql_operation Z
  | update_user_info_sex (uid : Z) (sex : string) : mysql_operation Z
  | update_user_info_head_image_url (uid : Z) (head_image_url : string) : mysql_operation Z.
