(* ===== verification/FileTypes.v ===== *)
(** * Messages of file.proto

    The RPC messages between the Message service and the File service. *)

From S2P Require Import Prelude.

Module file.

Record FileInfo := MkFile {
  ff_file_id : string; ff_file_name : string; ff_file_type : string; ff_file_size : Z; ff_sha256 : string }.

Inductive TransferStatus := SUCCESS | FAILED | PARTIAL | PENDING | TRANSFER_OTHER (value : Z).

Record UploadRequest := MkUpload {
  uq_file : option FileInfo; uq_user_id : Z; uq_offset : Z; uq_data : string; uq_complete : bool }.
Record UploadResponse := MkUploaded {
  us_user_id : Z; us_status : TransferStatus; us_next_offset : Z; us_message : string }.
Record DownloadRequest := MkDownload {
  dq_file : option FileInfo; dq_user_id : Z; dq_offset : Z; dq_limit : Z }.
Record DownloadResponse := MkDownloaded {
  ds_data : string; ds_next_offset : Z; ds_complete : bool; ds_status : TransferStatus; ds_message : string }.

Definition default_info : FileInfo := MkFile "" "" "" 0 "".

#[global] Instance FileInfo_eq_dec : EqDecision FileInfo.
Proof. solve_decision. Defined.
#[global] Instance TransferStatus_eq_dec : EqDecision TransferStatus.
Proof. solve_decision. Defined.

End file.
