(* ===== verification/Redis.v ===== *)
(** * Redis

    The keyspace the services share, and the commands they use of it: strings,
    counters, sets and expiry. A server-side script runs atomically; its
    [redis.call]s are the commands below, and an error stops it where it is. *)

From S2P Require Import Prelude Decimal.

Inductive redis_value := RString (text : string) | RSet (members : gset string).

(** [r_keys] maps a key to its value and its deadline (in milliseconds, as
    [r_time]); [r_faults] says what happens to the commands sent. *)
Record redis := MkRedis {
  r_keys : gmap string (redis_value * option Z);
  r_time : Z;
  r_faults : list fault
}.

Definition set_keys (m : gmap string (redis_value * option Z)) (r : redis) : redis :=
  MkRedis m r.(r_time) r.(r_faults).

(** What a key holds now: a key is expired, and so absent, after its deadline. *)
Definition live (now : Z) (e : redis_value * option Z) : bool :=
  match e.2 with None => true | Some deadline => (now <=? deadline)%Z end.
Definition entry_at (r : redis) (k : string) : option (redis_value * option Z) :=
  e ← r.(r_keys) !! k; if live r.(r_time) e then Some e else None.
Definition value_at (r : redis) (k : string) : option redis_value := fst <$> entry_at r k.

Definition redis_error {A} (what : string) : Eff redis A := throw (RuntimeError what).
Definition wrong_type {A} : Eff redis A :=
  redis_error "WRONGTYPE Operation against a key holding the wrong kind of value".

Definition store (k : string) (v : redis_value) (deadline : option Z) : Eff redis unit :=
  modify (λ r, set_keys (<[k := (v, deadline)]> r.(r_keys)) r).

Definition GET (k : string) : Eff redis (option string) :=
  r ← get;
  match value_at r k with
  | None => mret None
  | Some (RString text) => mret (Some text)
  | Some (RSet _) => wrong_type
  end.

Definition SETEX (k : string) (ttl : Z) (text : string) : Eff redis unit :=
  if (ttl <=? 0)%Z then redis_error "ERR invalid expire time in 'setex' command"
  else r ← get; store k (RString text) (Some (r.(r_time) + 1000 * ttl)%Z).

(** INCR keeps the deadline of the key. *)
Definition INCR (k : string) : Eff redis Z :=
  r ← get;
  match entry_at r k with
  | None => store k (RString (pretty 1%Z)) None ;; mret 1%Z
  | Some (RString text, deadline) =>
      match read_decimal text with
      | Some z =>
          if is_i64 (z + 1) then store k (RString (pretty (z + 1)%Z)) deadline ;; mret (z + 1)%Z
          else redis_error "ERR increment or decrement would overflow"
      | None => redis_error "ERR value is not an integer or out of range"
      end
  | Some (RSet _, _) => wrong_type
  end.

Definition SADD (k member : string) : Eff redis unit :=
  r ← get;
  match entry_at r k with
  | None => store k (RSet {[member]}) None
  | Some (RSet x, deadline) => store k (RSet ({[member]} ∪ x)) deadline
  | Some (RString _, _) => wrong_type
  end.

(** A set that becomes empty is removed. *)
Definition SREM (k member : string) : Eff redis unit :=
  r ← get;
  match entry_at r k with
  | None => mret tt
  | Some (RSet x, deadline) =>
      if decide (x ∖ {[member]} = ∅) then modify (λ r, set_keys (delete k r.(r_keys)) r)
      else store k (RSet (x ∖ {[member]})) deadline
  | Some (RString _, _) => wrong_type
  end.

Definition SMEMBERS (k : string) : Eff redis (list string) :=
  r ← get;
  match value_at r k with
  | None => mret []
  | Some (RSet x) => mret (elements x)
  | Some (RString _) => wrong_type
  end.

Definition DEL (k : string) : Eff redis unit := modify (λ r, set_keys (delete k r.(r_keys)) r).

Definition EXPIRE (k : string) (ttl : Z) : Eff redis unit :=
  r ← get;
  match entry_at r k with
  | None => mret tt
  | Some (v, _) => if (ttl <=? 0)%Z then DEL k else store k v (Some (r.(r_time) + 1000 * ttl)%Z)
  end.

Definition EXISTS (k : string) : Eff redis bool :=
  r ← get; mret (bool_decide (is_Some (entry_at r k))).

(** TTL: -2 for no key, -1 for a key without a deadline; otherwise the time left,
    rounded to seconds. *)
Definition TTL (k : string) : Eff redis Z :=
  r ← get;
  mret match entry_at r k with
       | None => (-2)%Z
       | Some (_, None) => (-1)%Z
       | Some (_, Some deadline) => ((deadline - r.(r_time) + 500) / 1000)%Z
       end.

(** driver::redis_command: the command reaches the master and answers, or the
    connection fails before or after it ran. *)
Definition redis_command {A} (command : Eff redis A) : Eff redis A := λ r,
  let r' := MkRedis r.(r_keys) r.(r_time) (tail r.(r_faults)) in
  match default NoFault (head r.(r_faults)) with
  | NoFault => command r'
  | FailBefore what => (Throw (RuntimeError what), r')
  | FailAfter what => (Throw (RuntimeError what), (command r').2)
  end.

(** ** What a command changes *)

(** [Touches ks m]: [m] leaves every key outside [ks], and the time, alone. *)
Class Touches (ks : list string) {A} (m : Eff redis A) : Prop :=
  touches : ∀ r, r_time (m r).2 = r_time r ∧ ∀ k, k ∉ ks → r_keys (m r).2 !! k = r_keys r !! k.

#[global] Instance touches_ret ks {A} (a : A) : Touches ks (mret (M:=Eff redis) a).
Proof. done. Qed.
#[global] Instance touches_throw ks {A} e : Touches ks (throw (W:=redis) (A:=A) e).
Proof. done. Qed.
#[global] Instance touches_error ks {A} what : Touches ks (redis_error (A:=A) what).
Proof. done. Qed.
#[global] Instance touches_wrong_type ks {A} : Touches ks (wrong_type (A:=A)).
Proof. done. Qed.
#[global] Instance touches_get ks : Touches ks (get (W:=redis)).
Proof. done. Qed.
#[global] Instance touches_bind ks {A B} (m : Eff redis A) (f : A → Eff redis B) :
  Touches ks m → (∀ a, Touches ks (f a)) → Touches ks (m ≫= f).
Proof.
  intros Hm Hf r. unfold mbind, eff_bind. specialize (Hm r). destruct (m r) as [[a|e] r'] eqn:E; simpl in *; [|done].
  destruct (Hf a r') as [Ht Hk]. destruct Hm as [Ht' Hk'].
  split; [by rewrite Ht|]. intros k Hn. by rewrite Hk, Hk'.
Qed.
#[global] Instance touches_if ks {A} (b : bool) (m n : Eff redis A) :
  Touches ks m → Touches ks n → Touches ks (if b then m else n).
Proof. by destruct b. Qed.
#[global] Instance touches_decide ks {A} (P : Prop) `{!Decision P} (m n : Eff redis A) :
  Touches ks m → Touches ks n → Touches ks (if decide P then m else n).
Proof. by case_decide. Qed.

Lemma touches_weaken ks ks' {A} (m : Eff redis A) : Touches ks m → ks ⊆ ks' → Touches ks' m.
Proof. intros Hm Hs r. destruct (Hm r) as [Ht Hk]. split; [done|]. intros k Hn. apply Hk. set_solver. Qed.

Lemma touches_store k v d : Touches [k] (store k v d).
Proof. intros r. split; [done|]. intros k' Hn. simpl. rewrite lookup_insert_ne; [done|set_solver]. Qed.
Lemma touches_DEL k : Touches [k] (DEL k).
Proof. intros r. split; [done|]. intros k' Hn. simpl. rewrite lookup_delete_ne; [done|set_solver]. Qed.

(** Discharges [Touches] for code made of the commands. *)
Ltac touching :=
  repeat first
    [ apply touches_bind; [|intros ?] | apply touches_if | apply touches_decide
    | apply touches_ret | apply touches_throw | apply touches_error | apply touches_wrong_type
    | apply touches_get
    | eapply touches_weaken; [apply touches_store|set_solver]
    | eapply touches_weaken; [apply touches_DEL|set_solver]
    | case_match ].

Lemma touches_GET ks k : Touches ks (GET k).
Proof. unfold GET. touching. Qed.
Lemma touches_SETEX k ttl v : Touches [k] (SETEX k ttl v).
Proof. unfold SETEX. touching. Qed.
Lemma touches_INCR k : Touches [k] (INCR k).
Proof. unfold INCR. touching. Qed.
Lemma touches_SADD k x : Touches [k] (SADD k x).
Proof. unfold SADD. touching. Qed.
Lemma touches_SREM k x : Touches [k] (SREM k x).
Proof. unfold SREM. touching. Qed.
Lemma touches_SMEMBERS ks k : Touches ks (SMEMBERS k).
Proof. unfold SMEMBERS. touching. Qed.
Lemma touches_EXPIRE k ttl : Touches [k] (EXPIRE k ttl).
Proof. unfold EXPIRE. touching. Qed.
Lemma touches_EXISTS ks k : Touches ks (EXISTS k).
Proof. unfold EXISTS. touching. Qed.
Lemma touches_TTL ks k : Touches ks (TTL k).
Proof. unfold TTL. touching. Qed.

Ltac touching_commands :=
  repeat first
    [ apply touches_GET | apply touches_EXISTS | apply touches_TTL | apply touches_SMEMBERS
    | eapply touches_weaken; [apply touches_SETEX|set_solver]
    | eapply touches_weaken; [apply touches_INCR|set_solver]
    | eapply touches_weaken; [apply touches_SADD|set_solver]
    | eapply touches_weaken; [apply touches_SREM|set_solver]
    | eapply touches_weaken; [apply touches_EXPIRE|set_solver]
    | eapply touches_weaken; [apply touches_DEL|set_solver]
    | apply touches_ret | apply touches_throw | apply touches_error
    | apply touches_bind; [|intros ?] | apply touches_if | apply touches_decide | case_match ].

Lemma touches_command ks {A} (m : Eff redis A) : Touches ks m → Touches ks (redis_command m).
Proof.
  intros Hm r. unfold redis_command. destruct (default NoFault (head (r_faults r))); [|done|].
  - apply (Hm (MkRedis (r_keys r) (r_time r) (tail (r_faults r)))).
  - apply (Hm (MkRedis (r_keys r) (r_time r) (tail (r_faults r)))).
Qed.

(** [m] keeps the value under [k], or removes it. *)
Definition weakens (k : string) {A} (m : Eff redis A) : Prop :=
  ∀ r e', r_keys (m r).2 !! k = Some e' → ∃ e, r_keys r !! k = Some e ∧ e.1 = e'.1.

Lemma weakens_touches ks k {A} (m : Eff redis A) : Touches ks m → k ∉ ks → weakens k m.
Proof. intros Hm Hk r e' He. destruct (Hm r) as [_ Heq]. rewrite Heq in He by done. eauto. Qed.

Lemma weakens_bind k {A B} (m : Eff redis A) (f : A → Eff redis B) :
  weakens k m → (∀ a, weakens k (f a)) → weakens k (m ≫= f).
Proof.
  intros Hm Hf r e' He. specialize (Hm r). unfold mbind, eff_bind in He.
  destruct (m r) as [[a|] r']; simpl in *; [|by apply Hm].
  destruct (Hf a r' e' He) as (e1 & He1 & <-). apply Hm. done.
Qed.

Lemma weakens_DEL k : weakens k (DEL k).
Proof. intros r e'. simpl. by rewrite lookup_delete_eq. Qed.

Lemma weakens_EXPIRE k ttl : weakens k (EXPIRE k ttl).
Proof.
  intros r e'. unfold EXPIRE, mbind, eff_bind, get, entry_at, option_bind.
  destruct (r_keys r !! k) as [[v d]|] eqn:E; simpl; [|rewrite E; eauto].
  destruct (live _ _); simpl; [|rewrite E; eauto].
  destruct (ttl <=? 0)%Z; simpl; [by rewrite lookup_delete_eq|].
  rewrite lookup_insert_eq. intros [= <-]. eauto.
Qed.

Lemma weakens_command k {A} (m : Eff redis A) : weakens k m → weakens k (redis_command m).
Proof.
  intros Hm r e'. unfold redis_command. destruct (default NoFault (head (r_faults r))); simpl; [|eauto|];
    intros He; by apply (Hm (MkRedis (r_keys r) (r_time r) (tail (r_faults r)))).
Qed.

Lemma weakens_idle k {A} (m : Eff redis A) : Touches [] m → weakens k m.
Proof. intros Hm. eapply weakens_touches; [exact Hm|set_solver]. Qed.

(** ** Counters

    A key that only INCR writes: absent, or a number without a deadline. *)
Definition counter (k : string) (z : Z) (r : redis) : Prop :=
  r_keys r !! k = Some (RString (pretty z), None) ∨ (r_keys r !! k = None ∧ z = 0%Z).

Lemma counter_ext k z r r' : r_keys r' !! k = r_keys r !! k → counter k z r → counter k z r'.
Proof. unfold counter. by intros ->. Qed.

Lemma counter_unique k z z' r : counter k z r → counter k z' r → z = z'.
Proof.
  intros [E|[E ->]] [E'|[E' ->]]; rewrite E in E'; simplify_eq; [|done]. by apply (inj pretty).
Qed.

Lemma INCR_counter k z r :
  counter k z r →
  INCR k r = if is_i64 (z + 1)
             then (Ok (z + 1)%Z, set_keys (<[k := (RString (pretty (z + 1)%Z), None)]> (r_keys r)) r)
             else (Throw (RuntimeError "ERR increment or decrement would overflow"), r).
Proof.
  unfold INCR, entry_at, mbind, eff_bind, option_bind, get. intros [Hc|[Hc ->]]; rewrite Hc; simpl; [|done].
  rewrite read_decimal_pretty. by destruct (is_i64 (z + 1)).
Qed.

(** An INCR that is sent advances the counter by one, or leaves it. *)
Lemma redis_INCR_counter k z r :
  counter k z r →
  let run := redis_command (INCR k) r in
  (run.1 = Ok (z + 1)%Z ∧ counter k (z + 1) run.2) ∨
  ((∃ e, run.1 = Throw e) ∧ (counter k z run.2 ∨ counter k (z + 1) run.2)).
Proof.
  intros Hc. unfold redis_command. set (r0 := MkRedis _ _ _).
  assert (counter k z r0) as Hc0 by done. pose proof (INCR_counter k z r0 Hc0) as E.
  assert (counter k (z + 1) (set_keys (<[k := (RString (pretty (z + 1)%Z), None)]> (r_keys r0)) r0)) as Hnew.
  { left. simpl. by rewrite lookup_insert_eq. }
  destruct (default NoFault _); cbv zeta; rewrite ?E; destruct (is_i64 (z + 1)); simpl; eauto 6.
Qed.
