(* ===== verification/Sessions.v ===== *)
(** * Session leases

    Which connection speaks for a user's device is recorded in Redis. The
    Gateway binds, refreshes and clears the lease with server-side scripts
    (gateway/io/driver.cc); the Message service looks leases up to check
    commands and to route pushes (message/io/driver.cc). *)

From S2P Require Import Prelude Decimal Codec Redis.
From Stdlib Require Import Ascii.

(** The JSON text of a lease is written by Redis' cjson and read back by cjson
    and by protobuf's json_util; Lua prints numbers with 14 digits. The laws are
    for leases JSON can carry ([lease_strings]: its strings are UTF-8) with a
    generation that a Lua number prints exactly. *)
Definition lua_exact (z : Z) : bool := bool_decide (0 ≤ z < 10 ^ 14)%Z.

Class LeaseText := {
  cjson_encode : SessionLease → string;
  cjson_decode : string → option SessionLease;
  JsonStringToMessage : string → option SessionLease;
  lua_tostring : Z → string;
  lease_strings : SessionLease → Prop;
  cjson_encode_nonempty l : cjson_encode l ≠ "";
  cjson_decode_encode l : lease_strings l → lua_exact (sl_generation l) = true →
    cjson_decode (cjson_encode l) = Some l;
  json_cjson_encode l : lease_strings l → lua_exact (sl_generation l) = true →
    JsonStringToMessage (cjson_encode l) = Some l;
  lua_tostring_exact z : lua_exact z = true → lua_tostring z = pretty z
}.

(** lease_key (gateway/io/driver.cc) and session_key (message/io/driver.cc). *)
Definition session_key (uid : Z) (device_id : string) : string :=
  "im:session:" +:+ pretty uid +:+ ":" +:+ device_id.
Definition generation_key (uid : Z) (device_id : string) : string :=
  "im:sessionGeneration:" +:+ pretty uid +:+ ":" +:+ device_id.
Definition user_sessions_key (uid : Z) : string := "im:userSessions:" +:+ pretty uid.

Definition with_generation (g : Z) (route : SessionLease) : SessionLease :=
  MkSessionLease route.(sl_device_id) route.(sl_gateway_id) route.(sl_instance_id)
    route.(sl_connection_id) g route.(sl_shard_id).

Record bound_session := MkBound { current : SessionLease; previous : option SessionLease }.

Section sessions.
Context `{!LeaseText}.

(** ** The Gateway's operations *)

Definition bind_script (uid : Z) (route : SessionLease) : Eff redis (string * string) :=
  let dev := route.(sl_device_id) in
  previous ← GET (session_key uid dev);
  generation ← INCR (generation_key uid dev);
  SETEX (session_key uid dev) 60 (cjson_encode (with_generation generation route)) ;;
  SADD (user_sessions_key uid) dev ;;
  EXPIRE (user_sessions_key uid) 120 ;;
  mret (lua_tostring generation, default "" previous).

(** decode_lease *)
Definition decode_lease (encoded : string) : Eff redis SessionLease :=
  match JsonStringToMessage encoded with
  | Some lease => mret lease
  | None => throw (RuntimeError "invalid session lease")
  end.

(** execute(bind_session) *)
Definition bind_session (uid : Z) (route : SessionLease) : Eff redis bound_session :=
  reply ← redis_command (bind_script uid route);
  match stoull reply.1 with
  | None => throw (InvalidArgument "stoull")
  | Some generation =>
      let current := with_generation generation route in
      if bool_decide (reply.2 = "") then mret (MkBound current None)
      else previous ← decode_lease reply.2; mret (MkBound current (Some previous))
  end.

Definition refresh_script (uid : Z) (route : SessionLease) : Eff redis Z :=
  let k := session_key uid route.(sl_device_id) in
  value ← GET k;
  match value with
  | None => mret 0%Z
  | Some text =>
      match cjson_decode text with
      | None => redis_error "ERR cjson.decode"
      | Some lease =>
          if bool_decide (lease.(sl_connection_id) ≠ route.(sl_connection_id)) ||
             bool_decide (lua_tostring lease.(sl_generation) ≠ pretty route.(sl_generation)) ||
             bool_decide (lease.(sl_instance_id) ≠ route.(sl_instance_id)) ||
             bool_decide (lease.(sl_shard_id) ≠ route.(sl_shard_id))
          then mret 0%Z
          else EXPIRE k 60 ;; SADD (user_sessions_key uid) route.(sl_device_id) ;;
               EXPIRE (user_sessions_key uid) 120 ;; mret 1%Z
      end
  end.

(** execute(refresh_session) *)
Definition refresh_session (uid : Z) (route : SessionLease) : Eff redis bool :=
  reply ← redis_command (refresh_script uid route); mret (bool_decide (reply = 1%Z)).

Definition clear_script (uid : Z) (route : SessionLease) : Eff redis Z :=
  let k := session_key uid route.(sl_device_id) in
  value ← GET k;
  match value with
  | None => SREM (user_sessions_key uid) route.(sl_device_id) ;; mret 1%Z
  | Some text =>
      match cjson_decode text with
      | None => redis_error "ERR cjson.decode"
      | Some lease =>
          if bool_decide (lease.(sl_connection_id) ≠ route.(sl_connection_id)) ||
             bool_decide (lua_tostring lease.(sl_generation) ≠ pretty route.(sl_generation)) ||
             bool_decide (lease.(sl_instance_id) ≠ route.(sl_instance_id))
          then mret 0%Z
          else DEL k ;; SREM (user_sessions_key uid) route.(sl_device_id) ;; mret 1%Z
      end
  end.

(** execute(clear_session) *)
Definition clear_session (uid : Z) (route : SessionLease) : Eff redis unit :=
  redis_command (clear_script uid route) ;; mret tt.

(** execute(validate_token) *)
Definition validate_token (uid : Z) (token : string) : Eff redis bool :=
  reply ← redis_command (GET ("im:chatAuth:" +:+ pretty uid));
  mret match reply with Some text => bool_decide (text = token) | None => false end.

(** ** The Message service's lookups *)

Definition default_lease : SessionLease := MkSessionLease "" "" "" "" 0 0.

(** driver::session *)
Definition session (uid : Z) (device_id : string) : Eff redis SessionLease :=
  reply ← redis_command (GET (session_key uid device_id));
  match reply with None => mret default_lease | Some text => decode_lease text end.

(** execute(get_session) *)
Definition get_session (uid : Z) (device_id : string) : Eff redis SessionLease := session uid device_id.

(** The loop of execute(get_sessions): a device without a lease leaves the set. *)
Fixpoint collect_sessions (uid : Z) (devices : list string) (result : list SessionLease) :
    Eff redis (list SessionLease) :=
  match devices with
  | [] => mret result
  | device_id :: devices =>
      lease ← session uid device_id;
      if bool_decide (lease.(sl_connection_id) = "") then
        redis_command (SREM (user_sessions_key uid) device_id) ;; collect_sessions uid devices result
      else collect_sessions uid devices (result ++ [lease])
  end.

(** execute(get_sessions) *)
Definition get_sessions (uid : Z) : Eff redis (list SessionLease) :=
  devices ← redis_command (SMEMBERS (user_sessions_key uid));
  collect_sessions uid devices [].

(** ** Keys *)

Lemma session_key_inj u d u' d' : session_key u d = session_key u' d' → u = u' ∧ d = d'.
Proof.
  intros E. unfold session_key in E. simplify_eq/=.
  by apply number_split in E.
Qed.

Lemma generation_key_inj u d u' d' : generation_key u d = generation_key u' d' → u = u' ∧ d = d'.
Proof.
  intros E. unfold generation_key in E. simplify_eq/=.
  by apply number_split in E.
Qed.

Lemma session_generation u d u' d' : session_key u d ≠ generation_key u' d'.
Proof. done. Qed.
Lemma session_users u d u' : session_key u d ≠ user_sessions_key u'.
Proof. done. Qed.
Lemma generation_users u d u' : generation_key u d ≠ user_sessions_key u'.
Proof. done. Qed.

Definition session_keys (uid : Z) (dev : string) : list string :=
  [session_key uid dev; generation_key uid dev; user_sessions_key uid].

Lemma touches_bind_session uid route : Touches (session_keys uid (sl_device_id route)) (bind_session uid route).
Proof.
  unfold bind_session, bind_script, decode_lease, session_keys. apply touches_bind.
  - apply touches_command. touching_commands.
  - intros reply. touching_commands.
Qed.
Lemma touches_refresh_session uid route :
  Touches (session_keys uid (sl_device_id route)) (refresh_session uid route).
Proof.
  unfold refresh_session, refresh_script, session_keys. apply touches_bind; [|intros; touching_commands].
  apply touches_command. touching_commands.
Qed.
Lemma touches_clear_session uid route :
  Touches (session_keys uid (sl_device_id route)) (clear_session uid route).
Proof.
  unfold clear_session, clear_script, session_keys. apply touches_bind; [|intros; touching_commands].
  apply touches_command. touching_commands.
Qed.

Lemma touches_session ks uid dev : Touches ks (session uid dev).
Proof.
  unfold session, decode_lease. apply touches_bind; [apply touches_command, touches_GET|].
  intros. touching_commands.
Qed.

Lemma touches_get_sessions uid : Touches [user_sessions_key uid] (get_sessions uid).
Proof.
  unfold get_sessions. apply touches_bind; [apply touches_command, touches_SMEMBERS|].
  intros devices. generalize (@nil SessionLease). induction devices as [|dev devices IH]; intros acc; simpl.
  - apply touches_ret.
  - apply touches_bind; [apply touches_session|]. intros lease. apply touches_if; [|apply IH].
    apply touches_bind; [apply touches_command, touches_SREM|]. intros _. apply IH.
Qed.

(** ** Generations

    The counter of a device never expires and only grows. *)

Definition counts (uid : Z) (dev : string) (z : Z) (r : redis) : Prop :=
  counter (generation_key uid dev) z r.

Lemma touches_rest (ks : list string) {A B} (m : Eff redis A) (f : A → Eff redis B) r a r' :
  m r = (Ok a, r') → (∀ a, Touches ks (f a)) →
  ∀ k, k ∉ ks → r_keys ((m ≫= f) r).2 !! k = r_keys r' !! k.
Proof. intros Hm Hf k Hk. unfold mbind, eff_bind. rewrite Hm. by apply Hf. Qed.

(** A bind advances the counter and writes the lease of that generation, or
    does nothing; when it answers, it did. *)
Lemma bind_script_keys uid route z r :
  let dev := sl_device_id route in
  counts uid dev z r →
  let run := bind_script uid route r in
  (counts uid dev z run.2 ∧ r_keys run.2 !! session_key uid dev = r_keys r !! session_key uid dev ∧
     ∀ x, run.1 ≠ Ok x) ∨
  (counts uid dev (z + 1) run.2 ∧
   r_keys run.2 !! session_key uid dev =
     Some (RString (cjson_encode (with_generation (z + 1) route)), Some (r_time r + 60000)%Z) ∧
   ∀ x, run.1 = Ok x → x.1 = lua_tostring (z + 1)%Z).
Proof.
  intros dev Hc. unfold bind_script. fold dev.
  set (gk := generation_key uid dev) in *. set (sk := session_key uid dev) in *.
  set (tail := λ (generation : Z) (previous : option string),
    SADD (user_sessions_key uid) dev ;; EXPIRE (user_sessions_key uid) 120 ;;
    mret (lua_tostring generation, default "" previous)).
  assert (GET sk r = (Throw (RuntimeError "WRONGTYPE Operation against a key holding the wrong kind of value"), r) ∨
    ∃ p, GET sk r = (Ok p, r)) as [E|[p E]].
  { unfold GET, mbind, eff_bind, get. destruct (value_at r sk) as [[]|]; eauto. }
  { left. rewrite (bind_Throw _ _ _ _ _ E). done. }
  rewrite (bind_Ok _ _ _ _ _ E). pose proof (INCR_counter _ _ _ Hc) as Ei. fold gk in Ei.
  destruct (is_i64 (z + 1)); [|left; by rewrite (bind_Throw _ _ _ _ _ Ei)]. right.
  rewrite (bind_Ok _ _ _ _ _ Ei).
  set (r1 := set_keys _ r). set (value := cjson_encode _).
  set (r2 := set_keys (<[sk := (RString value, Some (r_time r + 60000)%Z)]> (r_keys r1)) r1).
  assert (SETEX sk 60 value r1 = (Ok tt, r2)) as E2 by done.
  change (counts uid dev (z + 1) ((SETEX sk 60 value ≫= λ _, tail (z + 1)%Z p) r1).2 ∧
    r_keys ((SETEX sk 60 value ≫= λ _, tail (z + 1)%Z p) r1).2 !! sk = Some (RString value, Some (r_time r + 60000)%Z) ∧
    ∀ x, ((SETEX sk 60 value ≫= λ _, tail (z + 1)%Z p) r1).1 = Ok x → x.1 = lua_tostring (z + 1)%Z).
  assert (∀ k, k ≠ user_sessions_key uid →
    r_keys ((SETEX sk 60 value ≫= λ _, tail (z + 1)%Z p) r1).2 !! k = r_keys r2 !! k) as Hk.
  { intros k Hk. apply (touches_rest [user_sessions_key uid] _ _ _ tt); [done| |set_solver].
    intros _. unfold tail. touching_commands. }
  unfold counts, counter. fold gk. rewrite !Hk by done. split_and!.
  - left. simpl. rewrite lookup_insert_ne by done. by rewrite lookup_insert_eq.
  - simpl. by rewrite lookup_insert_eq.
  - intros x. rewrite (bind_Ok _ _ _ _ _ E2). unfold tail, mbind, eff_bind, mret, eff_ret.
    destruct (SADD _ _ r2) as [[[]|] r3]; [|done]. destruct (EXPIRE _ _ r3) as [[[]|] r4]; [|done].
    by intros [= <-].
Qed.

Lemma counts_ext uid dev z r r' :
  r_keys r' !! generation_key uid dev = r_keys r !! generation_key uid dev →
  counts uid dev z r → counts uid dev z r'.
Proof. apply counter_ext. Qed.

(** The lease can be written for the next generation. *)
Definition fits (uid : Z) (route : SessionLease) (r : redis) : Prop :=
  ∀ z, counts uid (sl_device_id route) z r →
    lease_strings (with_generation (z + 1) route) ∧ lua_exact (z + 1) = true.

Lemma bind_session_keys uid route z r :
  let dev := sl_device_id route in
  counts uid dev z r → fits uid route r →
  let run := bind_session uid route r in
  (counts uid dev z run.2 ∧ r_keys run.2 !! session_key uid dev = r_keys r !! session_key uid dev ∧
     ∀ b, run.1 ≠ Ok b) ∨
  (counts uid dev (z + 1) run.2 ∧
   r_keys run.2 !! session_key uid dev =
     Some (RString (cjson_encode (with_generation (z + 1) route)), Some (r_time r + 60000)%Z) ∧
   ∀ b, run.1 = Ok b → current b = with_generation (z + 1) route).
Proof.
  intros dev Hc Hfit. destruct (Hfit z Hc) as [Hs Hx]. unfold bind_session.
  set (r0 := MkRedis (r_keys r) (r_time r) (tail (r_faults r))).
  assert (counts uid dev z r0) as Hc0 by done.
  pose proof (bind_script_keys uid route z r0 Hc0) as Hrun. cbv zeta in Hrun. fold dev in Hrun.
  destruct (bind_script uid route r0) as [o r1] eqn:E. simpl in Hrun.
  assert (stoull (lua_tostring (z + 1)%Z) = Some (z + 1)%Z) as Hst.
  { rewrite lua_tostring_exact by done. apply stoull_pretty. unfold lua_exact in Hx.
    apply bool_decide_eq_true in Hx. apply bool_decide_eq_true. unfold two64. lia. }
  cbv zeta. destruct (default NoFault (head (r_faults r))) eqn:Ef.
  - assert (redis_command (bind_script uid route) r = (o, r1)) as Er
      by (unfold redis_command; rewrite Ef; exact E).
    destruct o as [[g p]|e].
    + rewrite (bind_Ok _ _ _ _ _ Er). cbn [fst snd].
      destruct Hrun as [(_ & _ & Hno)|(Hc1 & Hk & Hg)]; [by destruct (Hno (g, p))|]. right.
      specialize (Hg _ eq_refl). simpl in Hg. subst g. rewrite Hst. unfold decode_lease, mbind, eff_bind.
      case_bool_decide; [|destruct (JsonStringToMessage p)]; simpl; split_and!; try done; by intros b [= <-].
    + rewrite (bind_Throw _ _ _ _ _ Er).
      destruct Hrun as [(? & ? & _)|(? & ? & _)]; [left|right]; done.
  - assert (redis_command (bind_script uid route) r = (Throw (RuntimeError what), r0)) as Er
      by (unfold redis_command; rewrite Ef; done).
    rewrite (bind_Throw _ _ _ _ _ Er). left. done.
  - assert (redis_command (bind_script uid route) r = (Throw (RuntimeError what), r1)) as Er
      by (unfold redis_command; rewrite Ef; fold r0; by rewrite E).
    rewrite (bind_Throw _ _ _ _ _ Er). destruct Hrun as [(? & ? & _)|(? & ? & _)]; [left|right]; done.
Qed.

(** ** Steps of all Gateways and Message nodes, in any order

    [session_other]: time passes, faults change, other keys are written. *)
Inductive session_step (r : redis) : redis → Prop :=
  | session_bind uid route : fits uid route r → session_step r (bind_session uid route r).2
  | session_refresh uid route : session_step r (refresh_session uid route r).2
  | session_clear uid route : session_step r (clear_session uid route r).2
  | session_lookup uid : session_step r (get_sessions uid r).2
  | session_other r' :
      (∀ uid dev, r_keys r' !! session_key uid dev = r_keys r !! session_key uid dev ∧
                  r_keys r' !! generation_key uid dev = r_keys r !! generation_key uid dev) →
      session_step r r'.

Lemma other_device uid uid' dev dev' :
  (uid, dev) ≠ (uid', dev') →
  (session_key uid dev ∉ session_keys uid' dev') ∧ (generation_key uid dev ∉ session_keys uid' dev').
Proof.
  intros Hne. unfold session_keys. rewrite !not_elem_of_cons. split_and!; try done; try set_solver.
  - by intros [-> ->]%session_key_inj.
  - by intros [-> ->]%generation_key_inj.
Qed.

Lemma refresh_weakens uid route k : weakens (session_key uid k) (refresh_session uid route).
Proof.
  destruct (decide (k = sl_device_id route)) as [->|Hne].
  2: { eapply weakens_touches; [apply touches_refresh_session|]. apply other_device. congruence. }
  apply weakens_bind; [|intros; apply weakens_idle, _].
  apply weakens_command, weakens_bind; [apply weakens_idle, touches_GET|]. intros [text|]; [|apply weakens_idle, _].
  destruct (cjson_decode text); [|apply weakens_idle, _]. destruct (_ || _); [apply weakens_idle, _|].
  apply weakens_bind; [apply weakens_EXPIRE|]. intros _.
  eapply (weakens_touches [user_sessions_key uid]); [touching_commands|].
  apply not_elem_of_cons. split; [done|set_solver].
Qed.

Lemma clear_weakens uid route k : weakens (session_key uid k) (clear_session uid route).
Proof.
  destruct (decide (k = sl_device_id route)) as [->|Hne].
  2: { eapply weakens_touches; [apply touches_clear_session|]. apply other_device. congruence. }
  assert (∀ B (m : Eff redis B), Touches [user_sessions_key uid] m →
    weakens (session_key uid (sl_device_id route)) m) as Husers.
  { intros B m Hm. eapply weakens_touches; [exact Hm|]. apply not_elem_of_cons. split; [done|set_solver]. }
  apply weakens_bind; [|intros; apply weakens_idle, _].
  apply weakens_command, weakens_bind; [apply weakens_idle, touches_GET|].
  intros [text|]; [|apply Husers; touching_commands].
  destruct (cjson_decode text); [|apply weakens_idle, _]. destruct (_ || _); [apply weakens_idle, _|].
  apply weakens_bind; [apply weakens_DEL|]. intros _. apply Husers. touching_commands.
Qed.

(** Refreshing and clearing leave the counters alone. *)
Lemma refresh_generation uid route uid' dev r :
  r_keys (refresh_session uid route r).2 !! generation_key uid' dev = r_keys r !! generation_key uid' dev.
Proof.
  assert (Touches [session_key uid (sl_device_id route); user_sessions_key uid] (refresh_session uid route)) as Ht.
  { unfold refresh_session, refresh_script. apply touches_bind; [|intros; touching_commands].
    apply touches_command. touching_commands. }
  apply Ht. rewrite !not_elem_of_cons. split_and!; try done. set_solver.
Qed.
Lemma clear_generation uid route uid' dev r :
  r_keys (clear_session uid route r).2 !! generation_key uid' dev = r_keys r !! generation_key uid' dev.
Proof.
  assert (Touches [session_key uid (sl_device_id route); user_sessions_key uid] (clear_session uid route)) as Ht.
  { unfold clear_session, clear_script. apply touches_bind; [|intros; touching_commands].
    apply touches_command. touching_commands. }
  apply Ht. rewrite !not_elem_of_cons. split_and!; try done. set_solver.
Qed.

(** The counter of a device has reached [g]. *)
Definition reached (uid : Z) (dev : string) (g : Z) (r : redis) : Prop :=
  ∃ z, counts uid dev z r ∧ (g ≤ z)%Z.

(** Every lease of the device is of a generation after [g]. *)
Definition superseded (uid : Z) (dev : string) (g : Z) (r : redis) : Prop :=
  reached uid dev (g + 1) r ∧
  ∀ e, r_keys r !! session_key uid dev = Some e →
    ∃ text l, e.1 = RString text ∧ cjson_decode text = Some l ∧
      lua_exact (sl_generation l) = true ∧ (g < sl_generation l)%Z.

Lemma reached_step uid dev g r r' : session_step r r' → reached uid dev g r → reached uid dev g r'.
Proof.
  intros Hs (z & Hc & Hz). destruct Hs as [u route Hfit|u route|u route|u|r' Ho].
  - destruct (decide ((uid, dev) = (u, sl_device_id route))) as [[= -> ->]|Hne].
    + destruct (bind_session_keys u route z r Hc Hfit) as [(Hc' & _)|(Hc' & _)]; [by exists z|].
      exists (z + 1)%Z. split; [done|lia].
    + exists z. split; [|done]. eapply counts_ext; [|done].
      apply (touches_bind_session u route). by apply other_device.
  - exists z. split; [|done]. eapply counts_ext; [apply refresh_generation|done].
  - exists z. split; [|done]. eapply counts_ext; [apply clear_generation|done].
  - exists z. split; [|done]. eapply counts_ext; [|done].
    apply (touches_get_sessions u). apply not_elem_of_cons. split; [done|set_solver].
  - exists z. split; [|done]. eapply counts_ext; [|done]. apply Ho.
Qed.

Lemma superseded_bind uid route g r :
  reached uid (sl_device_id route) g r → fits uid route r → (∃ b, (bind_session uid route r).1 = Ok b) →
  superseded uid (sl_device_id route) g (bind_session uid route r).2.
Proof.
  intros (z & Hc & Hz) Hfit [b Hb]. destruct (Hfit z Hc) as [Hs Hx].
  destruct (bind_session_keys uid route z r Hc Hfit) as [(_ & _ & Hno)|(Hc' & Hk & _)]; [by destruct (Hno b)|].
  split; [exists (z + 1)%Z; split; [done|lia]|]. intros e He. rewrite Hk in He. injection He as <-.
  eexists _, _. split; [done|]. split; [by apply cjson_decode_encode|]. split; [done|simpl; lia].
Qed.

Lemma superseded_step uid dev g r r' : session_step r r' → superseded uid dev g r → superseded uid dev g r'.
Proof.
  intros Hs [Hg Hl]. split; [by eapply reached_step|].
  assert (∀ e', r_keys r' !! session_key uid dev = Some e' →
    (∃ e, r_keys r !! session_key uid dev = Some e ∧ e.1 = e'.1) ∨
    ∃ text l, e'.1 = RString text ∧ cjson_decode text = Some l ∧
      lua_exact (sl_generation l) = true ∧ (g < sl_generation l)%Z) as Hstep.
  { intros e' He'. destruct Hs as [u route Hfit|u route|u route|u|r' Ho].
    - destruct (decide ((uid, dev) = (u, sl_device_id route))) as [[= -> ->]|Hne].
      + destruct Hg as (z & Hc & Hz). destruct (Hfit z Hc) as [Hs Hx].
        destruct (bind_session_keys u route z r Hc Hfit) as [(_ & Hk & _)|(_ & Hk & _)]; rewrite Hk in He'; [eauto|].
        injection He' as <-. right. eexists _, _. split; [done|]. split; [by apply cjson_decode_encode|].
        split; [done|simpl; lia].
      + left. destruct (touches_bind_session u route r) as [_ Heq]. rewrite Heq in He'; [eauto|].
        by apply other_device.
    - destruct (decide (u = uid)) as [->|Hne]; left; [by apply (refresh_weakens uid route dev)|].
      destruct (touches_refresh_session u route r) as [_ Heq]. rewrite Heq in He'; [eauto|].
      apply other_device. congruence.
    - destruct (decide (u = uid)) as [->|Hne]; left; [by apply (clear_weakens uid route dev)|].
      destruct (touches_clear_session u route r) as [_ Heq]. rewrite Heq in He'; [eauto|].
      apply other_device. congruence.
    - left. destruct (touches_get_sessions u r) as [_ Heq]. rewrite Heq in He'; [eauto|].
      apply not_elem_of_cons. split; [done|set_solver].
    - left. destruct (Ho uid dev) as [Hk _]. rewrite Hk in He'. eauto. }
  intros e' He'. destruct (Hstep e' He') as [(e & He & E)|?]; [|done]. rewrite <- E. by apply Hl.
Qed.

Lemma reached_rtc uid dev g r r' : rtc session_step r r' → reached uid dev g r → reached uid dev g r'.
Proof. induction 1; eauto using reached_step. Qed.
Lemma superseded_rtc uid dev g r r' : rtc session_step r r' → superseded uid dev g r → superseded uid dev g r'.
Proof. induction 1; eauto using superseded_step. Qed.

(** The scripts that check a lease see that a superseded one is not current. *)
Lemma superseded_lookup uid dev g r text :
  superseded uid dev g r → value_at r (session_key uid dev) = Some (RString text) →
  ∃ l, cjson_decode text = Some l ∧ lua_tostring (sl_generation l) ≠ pretty g.
Proof.
  intros [_ Hl] Hv. unfold value_at, entry_at in Hv.
  destruct (r_keys r !! session_key uid dev) as [e|] eqn:E; simpl in Hv; [|done].
  destruct (live _ e); simpl in Hv; [|done]. injection Hv as Ev.
  destruct (Hl e eq_refl) as (text' & l & E' & Hd & Hx & Hlt). rewrite Ev in E'. injection E' as ->.
  exists l. split; [done|]. rewrite lua_tostring_exact by done. intros Eq%(inj pretty). lia.
Qed.

Lemma refresh_script_superseded uid g route r :
  superseded uid (sl_device_id route) g r → sl_generation route = g →
  (refresh_script uid route r).1 ≠ Ok 1%Z ∧ (refresh_script uid route r).2 = r.
Proof.
  intros Hsup <-. unfold refresh_script. set (k := session_key uid (sl_device_id route)).
  destruct (value_at r k) as [[text|x]|] eqn:E.
  - assert (GET k r = (Ok (Some text), r)) as Eg by (unfold GET, mbind, eff_bind, get; by rewrite E).
    rewrite (bind_Ok _ _ _ _ _ Eg). destruct (superseded_lookup _ _ _ _ _ Hsup E) as (l & -> & Hne).
    rewrite (bool_decide_eq_true_2 _ Hne), orb_true_r. done.
  - assert (∃ e, GET k r = (Throw e, r)) as [e Eg] by (unfold GET, mbind, eff_bind, get; rewrite E; by eexists).
    rewrite (bind_Throw _ _ _ _ _ Eg). done.
  - assert (GET k r = (Ok None, r)) as Eg by (unfold GET, mbind, eff_bind, get; by rewrite E).
    rewrite (bind_Ok _ _ _ _ _ Eg). done.
Qed.

Lemma clear_script_superseded uid g route r :
  superseded uid (sl_device_id route) g r → sl_generation route = g →
  r_keys (clear_script uid route r).2 !! session_key uid (sl_device_id route) =
  r_keys r !! session_key uid (sl_device_id route).
Proof.
  intros Hsup <-. unfold clear_script. set (k := session_key uid (sl_device_id route)).
  destruct (value_at r k) as [[text|x]|] eqn:E.
  - assert (GET k r = (Ok (Some text), r)) as Eg by (unfold GET, mbind, eff_bind, get; by rewrite E).
    rewrite (bind_Ok _ _ _ _ _ Eg). destruct (superseded_lookup _ _ _ _ _ Hsup E) as (l & -> & Hne).
    rewrite (bool_decide_eq_true_2 _ Hne), orb_true_r. done.
  - assert (∃ e, GET k r = (Throw e, r)) as [e Eg] by (unfold GET, mbind, eff_bind, get; rewrite E; by eexists).
    rewrite (bind_Throw _ _ _ _ _ Eg). done.
  - assert (GET k r = (Ok None, r)) as Eg by (unfold GET, mbind, eff_bind, get; by rewrite E).
    rewrite (bind_Ok _ _ _ _ _ Eg).
    assert (Touches [user_sessions_key uid]
      (SREM (user_sessions_key uid) (sl_device_id route) ;; mret (M:=Eff redis) 1%Z)) as Ht by touching_commands.
    apply Ht. apply not_elem_of_cons. split; [done|set_solver].
Qed.

(** A connection whose device was bound again is powerless: after the
    second bind answered, and whatever Gateways and Message nodes did since, the
    first connection's refresh never succeeds, and its clear leaves the lease of
    its successor in place. *)
Theorem superseded_session_powerless uid ra rb A B r0 r1 r2 r3 r4 :
  let dev := sl_device_id ra in
  sl_device_id rb = dev → reached uid dev 0 r0 → fits uid ra r0 →
  bind_session uid ra r0 = (Ok A, r1) → rtc session_step r1 r2 → fits uid rb r2 →
  bind_session uid rb r2 = (Ok B, r3) → rtc session_step r3 r4 →
  (refresh_session uid (current A) r4).1 ≠ Ok true ∧
  r_keys (clear_session uid (current A) r4).2 !! session_key uid dev = r_keys r4 !! session_key uid dev.
Proof.
  intros dev Edev (z & Hc & _) Hfa Ha Hr12 Hfb Hb Hr34.
  destruct (bind_session_keys uid ra z r0 Hc Hfa) as [(_ & _ & Hno)|(Hc1 & _ & HA)];
    rewrite Ha in *; simpl in *; [by destruct (Hno A)|].
  specialize (HA A eq_refl). set (g := (z + 1)%Z) in *.
  assert (reached uid dev g r2) as Hg2.
  { apply (reached_rtc _ _ _ _ _ Hr12). by exists g. }
  assert (superseded uid dev g r4) as Hsup.
  { apply (superseded_rtc _ _ _ _ _ Hr34). pose proof (superseded_bind uid rb g r2) as Hs.
    rewrite Edev, Hb in Hs. apply Hs; [done|done|eauto]. }
  assert (sl_device_id (current A) = dev ∧ sl_generation (current A) = g) as [Ed Eg] by (by rewrite HA).
  set (r := MkRedis (r_keys r4) (r_time r4) (tail (r_faults r4))).
  assert (superseded uid (sl_device_id (current A)) g r) as Hr by (by rewrite Ed).
  split.
  - destruct (refresh_script_superseded uid g (current A) r Hr Eg) as [Hne _].
    unfold refresh_session, mbind, eff_bind, redis_command. fold r.
    destruct (default NoFault _); try done. destruct (refresh_script uid (current A) r) as [[n|] ?]; [|done].
    simpl in *. intros [= E%bool_decide_eq_true]. by subst n.
  - pose proof (clear_script_superseded uid g (current A) r Hr Eg) as Hk. rewrite Ed in Hk.
    unfold clear_session, mbind, eff_bind, redis_command. fold r.
    destruct (default NoFault _); [|done|]; destruct (clear_script uid (current A) r) as [[n|] ?]; done.
Qed.

(** A lookup of a lease that is stored and has not expired. *)
Lemma get_session_stored uid dev lease keys deadline t :
  lease_strings lease → lua_exact (sl_generation lease) = true →
  keys !! session_key uid dev = Some (RString (cjson_encode lease), Some deadline) → (t ≤ deadline)%Z →
  (get_session uid dev (MkRedis keys t [])).1 = Ok lease.
Proof.
  intros Hs Hx Hk Ht. unfold get_session, session, redis_command, GET, mbind, eff_bind, get, value_at, entry_at, option_bind.
  simpl. rewrite Hk. unfold live. simpl. rewrite (proj2 (Z.leb_le _ _)) by done. simpl.
  unfold decode_lease. by rewrite json_cjson_encode.
Qed.

Lemma get_session_expired uid dev v keys deadline t :
  keys !! session_key uid dev = Some (v, Some deadline) → (deadline < t)%Z →
  (get_session uid dev (MkRedis keys t [])).1 = Ok default_lease.
Proof.
  intros Hk Ht. unfold get_session, session, redis_command, GET, mbind, eff_bind, get, value_at, entry_at, option_bind.
  simpl. rewrite Hk. unfold live. simpl. by rewrite (proj2 (Z.leb_gt _ _)).
Qed.

(** A refresh of the session that is stored. *)
Lemma refresh_session_stored uid lease deadline r :
  lease_strings lease → lua_exact (sl_generation lease) = true →
  r_keys r !! session_key uid (sl_device_id lease) = Some (RString (cjson_encode lease), Some deadline) →
  (r_time r ≤ deadline)%Z → r_faults r = [] →
  r_keys (refresh_session uid lease r).2 !! session_key uid (sl_device_id lease) =
    Some (RString (cjson_encode lease), Some (r_time r + 60000)%Z).
Proof.
  intros Hs Hx Hk Ht Hf. unfold refresh_session. rewrite bind_eq. unfold redis_command. rewrite Hf. simpl.
  set (k := session_key uid (sl_device_id lease)) in *. set (r0 := MkRedis _ _ _).
  assert (r_keys (refresh_script uid lease r0).2 !! k = Some (RString (cjson_encode lease), Some (r_time r + 60000)%Z)) as Hrun.
  2: by destruct (refresh_script uid lease r0) as [[] ?].
  assert (entry_at r0 k = Some (RString (cjson_encode lease), Some deadline)) as He.
  { unfold entry_at. simpl. rewrite Hk. unfold live. simpl. by rewrite (proj2 (Z.leb_le _ _)). }
  unfold refresh_script. fold k. erewrite bind_Ok by (unfold GET, value_at; rewrite bind_eq; simpl; by rewrite He).
  simpl. rewrite cjson_decode_encode, lua_tostring_exact by done. rewrite !bool_decide_eq_false_2 by auto. simpl.
  rewrite (touches_rest [user_sessions_key uid] (EXPIRE k 60) _ r0 tt
    (set_keys (<[k := (RString (cjson_encode lease), Some (r_time r0 + 60000)%Z)]> (r_keys r0)) r0)).
  - apply lookup_insert_eq.
  - unfold EXPIRE. rewrite bind_eq. simpl. by rewrite He.
  - intros _. touching_commands.
  - apply not_elem_of_cons. split; [done|set_solver].
Qed.

(** The lease a bind returns is the one the Message service sees: a lookup
    of the device within the next 60 seconds, with no other session operation
    between, returns exactly that lease. *)
Theorem bound_session_visible uid route r b t :
  let dev := sl_device_id route in
  reached uid dev 0 r → fits uid route r → (bind_session uid route r).1 = Ok b →
  (r_time r ≤ t ≤ r_time r + 60000)%Z →
  (get_session uid dev (MkRedis (r_keys (bind_session uid route r).2) t [])).1 = Ok (current b).
Proof.
  intros dev (z & Hc & _) Hfit Hb Ht. destruct (Hfit z Hc) as [Hs Hx].
  destruct (bind_session_keys uid route z r Hc Hfit) as [(_ & _ & Hno)|(_ & Hk & HB)]; [by destruct (Hno b)|].
  rewrite (HB b Hb). eapply get_session_stored; [done|done|exact Hk|lia].
Qed.

(** Session operations of one device never touch the lease of another: keys
    of different users and devices never collide, whatever the device ids. *)
Theorem sessions_isolated uid route uid' dev' r :
  (uid', dev') ≠ (uid, sl_device_id route) →
  let same r' := r_keys r' !! session_key uid' dev' = r_keys r !! session_key uid' dev' in
  same (bind_session uid route r).2 ∧ same (refresh_session uid route r).2 ∧ same (clear_session uid route r).2.
Proof.
  intros Hne. destruct (other_device _ _ _ _ Hne) as [Hk _].
  split_and!; [apply (touches_bind_session uid route)|apply (touches_refresh_session uid route)
              |apply (touches_clear_session uid route)]; done.
Qed.
End sessions.

(** ** A concrete run

    Leases of one device of one Gateway shard, written as
    "<generation>:<connection>". *)

Fixpoint split_colon (s : string) : option (string * string) :=
  match s with
  | "" => None
  | String c s =>
      if decide (c = ":"%char) then Some ("", s)
      else match split_colon s with Some (a, b) => Some (String c a, b) | None => None end
  end.

Lemma split_colon_app a b : free_of ":" a = true → split_colon (a +:+ ":" +:+ b) = Some (a, b).
Proof.
  induction a as [|c a IH]; simpl; [done|]. intros [Hc%bool_decide_eq_true Ha]%andb_true_iff.
  rewrite decide_False by done. by rewrite IH.
Qed.

Definition demo_lease (g : Z) (connection : string) : SessionLease :=
  MkSessionLease "phone" "gw-1" "i-1" connection g 0.

Definition demo_decode (s : string) : option SessionLease :=
  match split_colon s with Some (g, c) => (λ z, demo_lease z c) <$> read_decimal g | None => None end.

Program Definition demo_lease_text : LeaseText := {|
  cjson_encode l := pretty (sl_generation l) +:+ ":" +:+ sl_connection_id l;
  cjson_decode := demo_decode;
  JsonStringToMessage := demo_decode;
  lua_tostring z := pretty z;
  lease_strings l := l = demo_lease (sl_generation l) (sl_connection_id l) |}.
Next Obligation. intros l. simpl. by destruct (pretty (sl_generation l)). Qed.
Next Obligation.
  intros l Hl _. unfold demo_decode. rewrite split_colon_app by (by apply free_of_Z).
  rewrite read_decimal_pretty. simpl. by rewrite <- Hl.
Qed.
Next Obligation.
  intros l Hl _. unfold demo_decode. rewrite split_colon_app by (by apply free_of_Z).
  rewrite read_decimal_pretty. simpl. by rewrite <- Hl.
Qed.
Next Obligation. done. Qed.

Section runs.
#[local] Existing Instance demo_lease_text.

Definition demo_redis : redis := MkRedis ∅ 0 [].
Definition demo_first : outcome bound_session * redis := bind_session 1002 (demo_lease 0 "c1") demo_redis.
Definition demo_second : outcome bound_session * redis := bind_session 1002 (demo_lease 0 "c2") demo_first.2.

Lemma demo_fits c r : (∀ z, counts 1002 "phone" z r → z = 0 ∨ z = 1)%Z → fits 1002 (demo_lease 0 c) r.
Proof. intros Hz z Hc. split; [done|]. by destruct (Hz z Hc) as [-> | ->]. Qed.

Lemma demo_fits_first : fits 1002 (demo_lease 0 "c1") demo_redis.
Proof. apply demo_fits. intros z [Hc|[_ ->]]; [done|by left]. Qed.

Lemma demo_fits_second : fits 1002 (demo_lease 0 "c2") demo_first.2.
Proof.
  apply demo_fits. intros z Hc. right.
  assert (r_keys demo_first.2 !! generation_key 1002 "phone" = Some (RString (pretty 1%Z), None)) as E
    by (vm_compute; reflexivity).
  unfold counts, counter in Hc. rewrite E in Hc. destruct Hc as [[= Ez%(inj pretty (1%Z) z)]|[? _]]; done.
Qed.

Lemma demo_reached : reached 1002 "phone" 0 demo_redis.
Proof. exists 0%Z. split; [right; done|lia]. Qed.

Lemma superseded_session_powerless_witness :
  (refresh_session 1002 (demo_lease 1 "c1") demo_second.2).1 = Ok false ∧
  r_keys (clear_session 1002 (demo_lease 1 "c1") demo_second.2).2 !! session_key 1002 "phone" =
  r_keys demo_second.2 !! session_key 1002 "phone".
Proof.
  split; [vm_compute; reflexivity|].
  refine (proj2 (superseded_session_powerless 1002 (demo_lease 0 "c1") (demo_lease 0 "c2")
    (MkBound (demo_lease 1 "c1") None) (MkBound (demo_lease 2 "c2") (Some (demo_lease 1 "c1")))
    demo_redis demo_first.2 demo_first.2 demo_second.2 demo_second.2 eq_refl demo_reached demo_fits_first _
    (rtc_refl _ _) demo_fits_second _ (rtc_refl _ _))); vm_compute; reflexivity.
Defined.

Lemma bound_session_visible_witness :
  (get_session 1002 "phone" (MkRedis (r_keys demo_first.2) 59 [])).1 = Ok (demo_lease 1 "c1").
Proof.
  refine (bound_session_visible 1002 (demo_lease 0 "c1") demo_redis (MkBound (demo_lease 1 "c1") None) 59
    demo_reached demo_fits_first _ _); [vm_compute; reflexivity|vm_compute; split; congruence].
Defined.

Lemma sessions_isolated_witness :
  r_keys (bind_session 1002 (demo_lease 0 "c1") demo_redis).2 !! session_key 1 "phone" = None.
Proof.
  refine (proj1 (sessions_isolated 1002 (demo_lease 0 "c1") 1 "phone" demo_redis _)). intros [=].
Defined.
End runs.
