(* ===== verification/Ids.v ===== *)
(** * Identifiers

    Ids of messages, conversations, friendships, groups and users: a millisecond
    timestamp, a machine number and a sequence number from Redis
    (message/io/driver.cc execute(generate_id), gate/io/driver.cc
    execute(generate_user_id)). *)

From S2P Require Import Prelude Decimal Redis.

Definition epoch : Z := 1672531200000.

(** [(timestamp << 22) | (machine_id << 12) | sequence], as int64_t. *)
Definition make_id (timestamp machine_id sequence : Z) : Z :=
  i64 (Z.lor (Z.lor (Z.shiftl timestamp 22) (Z.shiftl machine_id 12)) sequence).

Definition require_reply (condition : bool) : Eff redis unit :=
  if condition then mret tt else throw (RuntimeError "invalid Redis response").

Definition id_key (prefix : string) (timestamp : Z) : string := prefix +:+ ":" +:+ pretty timestamp.

(** The loop of generate_id: [readings] are the values system_clock::now() has,
    in milliseconds, in the iterations; [None] when they are used up and the
    sequence of every one of them is exhausted. *)
Fixpoint generate (prefix : string) (machine_id : Z) (readings : list Z) : Eff redis (option Z) :=
  match readings with
  | [] => mret None
  | now :: readings =>
      let timestamp := (now - epoch)%Z in
      reply ← redis_command (INCR (id_key prefix timestamp));
      require_reply (0 <? reply)%Z ;;
      if (reply <=? 4095)%Z then mret (Some (make_id timestamp machine_id reply))
      else generate prefix machine_id readings
  end.

(** id_kind and its prefixes *)
Inductive id_kind := id_message | id_conversation | id_friendship | id_group.
Definition id_prefix (kind : id_kind) : string :=
  match kind with
  | id_message => "im:msgId"
  | id_conversation => "im:conversationId"
  | id_friendship => "im:friendshipId"
  | id_group => "im:groupId"
  end.

Definition generate_id (kind : id_kind) (machine_id : Z) (readings : list Z) : Eff redis (option Z) :=
  generate (id_prefix kind) machine_id readings.

(** execute(generate_user_id), while the driver is not stopping. *)
Definition generate_user_id (machine_id : Z) (readings : list Z) : Eff redis (option Z) :=
  generate "im:userId" machine_id readings.

(** ** The layout *)

(** Times until the year 2092. *)
Definition time_fits (now : Z) : Prop := (0 ≤ now - epoch < 2 ^ 41)%Z.

Definition id_timestamp (id : Z) : Z := Z.shiftr id 22.
Definition id_machine (id : Z) : Z := Z.land (Z.shiftr id 12) 1023.
Definition id_sequence (id : Z) : Z := Z.land id 4095.

Lemma lor_shiftl_add a b n : (0 ≤ n)%Z → (0 ≤ b < 2 ^ n)%Z → Z.lor (Z.shiftl a n) b = (a * 2 ^ n + b)%Z.
Proof.
  intros Hn Hb. pose proof (Z.add_lor_land (Z.shiftl a n) b) as E.
  rewrite <- Z.shiftl_mul_pow2 by done. enough (Z.land (Z.shiftl a n) b = 0)%Z by lia.
  apply Z.bits_inj'. intros i Hi. rewrite Z.land_spec, Z.bits_0.
  destruct (decide (i < n)%Z) as [Hlt|Hge].
  - by rewrite Z.shiftl_spec_low by done.
  - assert (Z.testbit b i = false) as ->; [|apply andb_false_r].
    destruct (decide (b = 0)%Z) as [->|Hb0]; [apply Z.bits_0|].
    apply Z.bits_above_log2; [lia|]. apply Z.lt_le_trans with n; [|lia]. apply Z.log2_lt_pow2; lia.
Qed.

(** In range, an id is the sum of its shifted fields, and has no sign. *)
Lemma make_id_eq t m s :
  (0 ≤ t < 2 ^ 41)%Z → (0 ≤ m < 1024)%Z → (0 ≤ s < 4096)%Z →
  make_id t m s = (t * 2 ^ 22 + (m * 2 ^ 12 + s))%Z.
Proof.
  intros Ht Hm Hs. unfold make_id.
  rewrite <- Z.lor_assoc, (lor_shiftl_add m s 12) by lia.
  rewrite (lor_shiftl_add t _ 22) by lia. apply i64_id. unfold two63. lia.
Qed.

(** The fields of an id can be read back, and ids are positive: for the
    machine numbers the options admit (below 1024), sequence numbers up to 4095
    and times until 2092. *)
Theorem make_id_fields t m s :
  (0 ≤ t < 2 ^ 41)%Z → (0 ≤ m < 1024)%Z → (0 < s ≤ 4095)%Z →
  let id := make_id t m s in
  (0 < id < two63)%Z ∧ id_timestamp id = t ∧ id_machine id = m ∧ id_sequence id = s.
Proof.
  intros Ht Hm Hs id. unfold id. rewrite make_id_eq by lia. unfold id_timestamp, id_machine, id_sequence, two63.
  change 1023%Z with (Z.ones 10). change 4095%Z with (Z.ones 12).
  rewrite !Z.shiftr_div_pow2, !Z.land_ones by lia. split_and!; [lia|lia| | |].
  - rewrite Z.div_add_l by lia. rewrite Z.div_small by lia. lia.
  - replace (t * 2 ^ 22 + (m * 2 ^ 12 + s))%Z with ((t * 2 ^ 10 + m) * 2 ^ 12 + s)%Z by lia.
    rewrite Z.div_add_l, (Z.div_small s) by lia. rewrite Z.add_0_r, Z.add_comm, Z.mod_add by lia.
    apply Z.mod_small. lia.
  - replace (t * 2 ^ 22 + (m * 2 ^ 12 + s))%Z with (s + (t * 2 ^ 10 + m) * 2 ^ 12)%Z by lia.
    rewrite Z.mod_add by lia. apply Z.mod_small. lia.
Qed.

(** ** Uniqueness *)

Lemma make_id_inj t m s t' m' s' :
  (0 ≤ t < 2 ^ 41)%Z → (0 ≤ m < 1024)%Z → (0 ≤ s < 4096)%Z →
  (0 ≤ t' < 2 ^ 41)%Z → (0 ≤ m' < 1024)%Z → (0 ≤ s' < 4096)%Z →
  make_id t m s = make_id t' m' s' → t = t' ∧ m = m' ∧ s = s'.
Proof. intros. rewrite !make_id_eq in * by lia. lia. Qed.

Lemma id_key_inj prefix t t' : id_key prefix t = id_key prefix t' → t = t'.
Proof.
  unfold id_key. induction prefix as [|c prefix IH]; simpl; intros E; simplify_eq; [done|auto].
Qed.

(** Every sequence number counter is well formed. *)
Definition counters (prefix : string) (r : redis) : Prop :=
  ∀ t, ∃ n, counter (id_key prefix t) n r ∧ (0 ≤ n)%Z.

Definition advances (prefix : string) (r r' : redis) : Prop :=
  ∀ t n, counter (id_key prefix t) n r → ∃ n', counter (id_key prefix t) n' r' ∧ (n ≤ n')%Z.

Lemma advances_counters prefix r r' : advances prefix r r' → counters prefix r → counters prefix r'.
Proof.
  intros Ha Hc t. destruct (Hc t) as (n & Hn & ?). destruct (Ha t n Hn) as (n' & ? & ?).
  exists n'. split; [done|lia].
Qed.

Lemma INCR_other prefix t t' r :
  t' ≠ t → r_keys (redis_command (INCR (id_key prefix t)) r).2 !! id_key prefix t' = r_keys r !! id_key prefix t'.
Proof.
  intros Hne. apply (touches_command _ _ (touches_INCR (id_key prefix t))). apply not_elem_of_cons.
  split; [|set_solver]. by intros E%id_key_inj.
Qed.

Lemma advances_INCR prefix t r : advances prefix r (redis_command (INCR (id_key prefix t)) r).2.
Proof.
  intros t' n Hn. destruct (decide (t' = t)) as [->|Hne].
  - destruct (redis_INCR_counter _ _ _ Hn) as [[_ ?]|[_ [?|?]]]; eexists; (split; [eassumption|lia]).
  - exists n. split; [|lia]. eapply counter_ext; [by apply INCR_other|exact Hn].
Qed.

Lemma generate_advances prefix machine readings r :
  advances prefix r (generate prefix machine readings r).2.
Proof.
  revert r. induction readings as [|now readings IH]; intros r; simpl.
  { intros t n Hn. exists n. split; [done|lia]. }
  pose proof (advances_INCR prefix (now - epoch) r) as Ha.
  unfold mbind, eff_bind. destruct (redis_command _ r) as [[reply|e] r1] eqn:E; simpl in *; [|done].
  unfold require_reply. destruct (0 <? reply)%Z; simpl; [|done]. destruct (reply <=? 4095)%Z; simpl; [done|].
  intros t n Hn. destruct (Ha t n Hn) as (n1 & Hn1 & ?).
  destruct (IH r1 t n1 Hn1) as (n2 & ? & ?). exists n2. split; [done|lia].
Qed.

Lemma generate_fresh prefix machine readings r id r' :
  counters prefix r → generate prefix machine readings r = (Ok (Some id), r') →
  ∃ now s, now ∈ readings ∧ id = make_id (now - epoch) machine s ∧ (0 < s ≤ 4095)%Z ∧
    counter (id_key prefix (now - epoch)) s r' ∧
    ∀ n, counter (id_key prefix (now - epoch)) n r → (n < s)%Z.
Proof.
  revert r. induction readings as [|now readings IH]; intros r Hc; simpl; [done|].
  pose proof (advances_INCR prefix (now - epoch) r) as Ha.
  destruct (Hc (now - epoch)%Z) as (n & Hn & Hn0). pose proof (redis_INCR_counter _ _ _ Hn) as Hinc.
  unfold mbind, eff_bind. destruct (redis_command _ r) as [[reply|e] r1] eqn:E; simpl in *; [|done].
  destruct Hinc as [[[= ->] Hn1]|[[? ?] _]]; [|done].
  unfold require_reply. destruct (0 <? n + 1)%Z; simpl; [|done].
  destruct (n + 1 <=? 4095)%Z eqn:Hle; simpl.
  - intros [= <- <-]. apply Z.leb_le in Hle. exists now, (n + 1)%Z.
    split_and!; [left|done|lia|lia|done|]. intros n' Hn'. rewrite (counter_unique _ _ _ _ Hn' Hn). lia.
  - intros Hg. destruct (IH r1 (advances_counters _ _ _ Ha Hc) Hg) as (now' & s & Hin & -> & Hs & Hc' & Hlt).
    exists now', s. split_and!; [by right|done|lia|lia|done|].
    intros n' Hn'. destruct (Ha _ _ Hn') as (n1 & Hn1' & ?). specialize (Hlt _ Hn1'). lia.
Qed.

(** Generators of one kind on all nodes, in any order; the list holds the ids
    answered. [id_other] writes no counter of this kind. *)
Inductive id_step (prefix : string) : redis * list Z → redis * list Z → Prop :=
  | id_generated machine readings r log id r' :
      (0 ≤ machine < 1024)%Z → Forall time_fits readings →
      generate prefix machine readings r = (Ok (Some id), r') → id_step prefix (r, log) (r', id :: log)
  | id_unanswered machine readings r log :
      id_step prefix (r, log) ((generate prefix machine readings r).2, log)
  | id_other r log r' :
      (∀ t, r_keys r' !! id_key prefix t = r_keys r !! id_key prefix t) → id_step prefix (r, log) (r', log).

Definition accounted (prefix : string) (r : redis) (id : Z) : Prop :=
  ∃ t m s n, id = make_id t m s ∧ (0 ≤ t < 2 ^ 41)%Z ∧ (0 ≤ m < 1024)%Z ∧ (0 < s ≤ 4095)%Z ∧
    counter (id_key prefix t) n r ∧ (s ≤ n)%Z.

Definition ids_ok (prefix : string) (x : redis * list Z) : Prop :=
  counters prefix x.1 ∧ Forall (accounted prefix x.1) x.2 ∧ NoDup x.2.

Lemma accounted_advances prefix r r' id : advances prefix r r' → accounted prefix r id → accounted prefix r' id.
Proof.
  intros Ha (t & m & s & n & ? & ? & ? & ? & Hn & ?). destruct (Ha t n Hn) as (n' & ? & ?).
  exists t, m, s, n'. split_and!; try done; lia.
Qed.

Lemma advances_ids_ok prefix r r' log : advances prefix r r' → ids_ok prefix (r, log) → ids_ok prefix (r', log).
Proof.
  intros Ha (Hc & Hl & Hnd). split_and!; [by eapply advances_counters| |done].
  eapply Forall_impl; [exact Hl|]. intros. by eapply accounted_advances.
Qed.

Lemma id_step_ok prefix x y : id_step prefix x y → ids_ok prefix x → ids_ok prefix y.
Proof.
  destruct 1 as [machine readings r log id r' Hm Hr Hg|machine readings r log|r log r' Ho]; intros Hok.
  - pose proof (generate_advances prefix machine readings r) as Ha. rewrite Hg in Ha. simpl in Ha.
    destruct Hok as (Hc & Hl & Hnd). simpl in *.
    destruct (generate_fresh _ _ _ _ _ _ Hc Hg) as (now & s & Hin & -> & Hs & Hn & Hfresh).
    rewrite Forall_forall in Hr. specialize (Hr now Hin). unfold time_fits in Hr.
    destruct (advances_ids_ok prefix r r' log Ha) as (Hc' & Hl' & _); [done|].
    split_and!; simpl; [done| |].
    + constructor; [|done]. exists (now - epoch)%Z, machine, s, s. split_and!; try done; lia.
    + constructor; [|done]. intros Hold. rewrite Forall_forall in Hl.
      destruct (Hl _ Hold) as (t & m & s' & n & E & Ht & Hm' & Hs' & Hn' & Hle).
      apply make_id_inj in E as (Et & _ & <-); try lia.
      subst t. specialize (Hfresh _ Hn'). lia.
  - eapply advances_ids_ok; [|done]. apply generate_advances.
  - eapply advances_ids_ok; [|done]. intros t n Hn. exists n. split; [|lia].
    eapply counter_ext; [apply Ho|exact Hn].
Qed.

(** C36: no id is handed out twice: from a Redis whose counters of the kind are
    well formed, whatever the interleaving of generators on all nodes, their
    machine numbers (below 1024), clocks (even stepping back, between 2023 and
    2092) and lost replies, the ids answered are pairwise distinct and positive. *)
Theorem ids_unique prefix r r' log :
  counters prefix r → rtc (id_step prefix) (r, []) (r', log) →
  NoDup log ∧ Forall (λ id, 0 < id < two63)%Z log.
Proof.
  intros Hc Hr. assert (ids_ok prefix (r', log)) as (_ & Hl & Hnd).
  { assert (ids_ok prefix (r, [])) as H0 by (split_and!; [done|by constructor|by constructor]).
    revert H0. induction Hr; eauto using id_step_ok. }
  split; [done|]. eapply Forall_impl; [exact Hl|].
  intros id (t & m & s & n & -> & ? & ? & ? & _). rewrite make_id_eq by lia. unfold two63. lia.
Qed.

(** A generator returns as soon as its clock shows a millisecond with a free
    sequence number: if one of its readings has fewer than 4095 ids taken, no
    command fails and no counter is about to overflow, it answers with an id. *)
Theorem generate_returns prefix machine readings r now :
  counters prefix r → r_faults r = [] → now ∈ readings →
  (∀ n, counter (id_key prefix (now - epoch)) n r → n < 4095)%Z →
  (∀ t n, counter (id_key prefix t) n r → n + Z.of_nat (length readings) < two63)%Z →
  ∃ id, (generate prefix machine readings r).1 = Ok (Some id).
Proof.
  revert r. induction readings as [|x readings IH]; intros r Hc Hf Hin Hfree Hmax; [by inversion Hin|].
  destruct (Hc (x - epoch)%Z) as (n & Hn & Hn0). pose proof (Hmax _ _ Hn) as Hn63. simpl in Hn63. simpl.
  pose proof (INCR_other prefix (x - epoch)) as Hother. pose proof (advances_INCR prefix (x - epoch) r) as Ha.
  pose proof (redis_INCR_counter _ _ _ Hn) as Hinc. cbv zeta in Hinc.
  assert ((redis_command (INCR (id_key prefix (x - epoch))) r).1 = Ok (n + 1)%Z ∧
    r_faults (redis_command (INCR (id_key prefix (x - epoch))) r).2 = []) as [E1 Ef].
  { unfold redis_command. rewrite Hf. simpl.
    rewrite (INCR_counter _ n); [|by destruct Hn; [left|right]].
    assert (is_i64 (n + 1) = true) as -> by (apply bool_decide_eq_true; unfold two63 in *; lia). done. }
  specialize (Hother). unfold mbind, eff_bind.
  destruct (redis_command (INCR (id_key prefix (x - epoch))) r) as [o r1] eqn:E. simpl in *. subst o.
  destruct Hinc as [[_ Hn1]|[[? ?] _]]; [|done].
  unfold require_reply. rewrite (proj2 (Z.ltb_lt 0 (n + 1))) by lia. simpl.
  destruct (n + 1 <=? 4095)%Z eqn:Hle; [by eexists|]. apply Z.leb_gt in Hle.
  assert (x ≠ now) as Hne by (intros ->; specialize (Hfree _ Hn); lia).
  assert (∀ t, t ≠ (x - epoch)%Z → r_keys r1 !! id_key prefix t = r_keys r !! id_key prefix t) as Hsame.
  { intros t Ht. pose proof (Hother t r Ht) as Eo. by rewrite E in Eo. }
  apply (IH r1); [by eapply advances_counters|done|by inversion Hin| |].
  - intros m Hm. apply Hfree. eapply counter_ext; [|exact Hm]. symmetry. apply Hsame. lia.
  - intros t m Hm. destruct (decide (t = x - epoch)%Z) as [->|Ht].
    + rewrite (counter_unique _ _ _ _ Hm Hn1). lia.
    + assert (counter (id_key prefix t) m r) as Hm'; [|specialize (Hmax _ _ Hm'); lia].
      eapply counter_ext; [|exact Hm]. symmetry. by apply Hsame.
Qed.

(** ** A concrete run: two machines, the same millisecond *)

Definition demo_now : Z := epoch + 1000.
Definition demo_ids : redis * list Z :=
  let a := generate_id id_message 1 [demo_now] (MkRedis ∅ 0 []) in
  let b := generate_id id_message 2 [demo_now] a.2 in
  match a.1, b.1 with
  | Ok (Some x), Ok (Some y) => (b.2, [y; x])
  | _, _ => (b.2, [])
  end.

Lemma demo_counters prefix : counters prefix (MkRedis ∅ 0 []).
Proof. intros t. exists 0%Z. split; [by right|lia]. Qed.

Lemma make_id_fields_witness : id_sequence (make_id 1000 7 42) = 42%Z.
Proof. apply (make_id_fields 1000 7 42); lia. Defined.

Lemma ids_unique_witness : NoDup demo_ids.2 ∧ length demo_ids.2 = 2.
Proof.
  split; [|vm_compute; reflexivity].
  refine (proj1 (ids_unique (id_prefix id_message) (MkRedis ∅ 0 []) demo_ids.1 demo_ids.2 (demo_counters _) _)).
  assert (Forall time_fits [demo_now]) as Ht.
  { constructor; [vm_compute; split; congruence|constructor]. }
  eapply rtc_l; [apply (id_generated _ 1 [demo_now] (MkRedis ∅ 0 []) [] 4194308097); [lia|exact Ht|]|].
  { vm_compute. reflexivity. }
  eapply rtc_l; [|apply rtc_refl].
  apply (id_generated _ 2 [demo_now] _ [4194308097%Z] 4194312194); [lia|exact Ht|].
  vm_compute. reflexivity.
Defined.

Lemma generate_returns_witness :
  ∃ id, (generate (id_prefix id_group) 1 [demo_now] (MkRedis ∅ 0 [])).1 = Ok (Some id).
Proof.
  apply (generate_returns (id_prefix id_group) 1 [demo_now] (MkRedis ∅ 0 []) demo_now (demo_counters _));
    [done|left| |]; intros; by match goal with H : counter _ _ _ |- _ => destruct H as [?|[_ ->]] end.
Defined.
