(* ===== verification/Verification.v ===== *)
(** * Verification codes: the Redis scripts of gate/io/driver.cc

    A code proves that its bearer reads the mail of an address. It is stored
    with a deadline, can be used once, and is void after a number of wrong
    guesses; a cooldown limits how often codes are issued. *)

From S2P Require Import Prelude Decimal Redis.

Definition verification_prefix (email : string) : string := "im:verify:{" +:+ email +:+ "}:".
Definition code_key (email : string) : string := verification_prefix email +:+ "code".
Definition cooldown_key (email : string) : string := verification_prefix email +:+ "cooldown".
Definition attempts_key (email : string) : string := verification_prefix email +:+ "attempts".

Definition check_reply (condition : bool) : Eff redis unit :=
  if condition then mret tt else throw (RuntimeError "unexpected Redis reply").

Definition issue_script (email code : string) (ttl cooldown : Z) : Eff redis Z :=
  cooling ← EXISTS (cooldown_key email);
  if cooling : bool then mret 0%Z
  else
    SETEX (code_key email) ttl code ;;
    SETEX (cooldown_key email) cooldown "1" ;;
    DEL (attempts_key email) ;;
    mret 1%Z.

Definition issue_verification_code (email code : string) (ttl_seconds cooldown_seconds : Z) : Eff redis bool :=
  result ← redis_command (issue_script email code ttl_seconds cooldown_seconds);
  check_reply ((result =? 0) || (result =? 1))%Z ;;
  mret (result =? 1)%Z.

(** A nil reply has an empty text. *)
Definition get_verification_code (email : string) : Eff redis string :=
  result ← redis_command (GET (code_key email));
  mret (default "" result).

Definition clear_script (email code : string) : Eff redis Z :=
  current ← GET (code_key email);
  if negb (bool_decide (current = Some code)) then mret 0%Z
  else DEL (code_key email) ;; DEL (attempts_key email) ;; DEL (cooldown_key email) ;; mret 1%Z.

Definition clear_verification_code (email code : string) : Eff redis bool :=
  result ← redis_command (clear_script email code);
  mret (result =? 1)%Z.

Definition consume_script (email code : string) (max_attempts : Z) : Eff redis Z :=
  current ← GET (code_key email);
  match current with
  | None => mret 0%Z
  | Some current =>
      if bool_decide (current = code) then
        DEL (code_key email) ;; DEL (attempts_key email) ;; DEL (cooldown_key email) ;; mret 1%Z
      else
        attempts ← INCR (attempts_key email);
        ttl ← TTL (code_key email);
        (when ((attempts =? 1)%Z && (0 <? ttl)%Z) do EXPIRE (attempts_key email) ttl) ;;
        (when (max_attempts <=? attempts)%Z do (DEL (code_key email) ;; DEL (attempts_key email))) ;;
        mret 0%Z
  end.

Definition consume_verification_code (email code : string) (max_attempts : Z) : Eff redis bool :=
  reply ← redis_command (consume_script email code max_attempts);
  check_reply ((reply =? 0) || (reply =? 1))%Z ;;
  mret (reply =? 1)%Z.

(** driver::execute(set_chat_token): the token of a signed-in user. *)
Definition set_chat_token (uid : Z) (token : string) (ttl_seconds : Z) : Eff redis unit :=
  redis_command (SETEX ("im:chatAuth:" +:+ pretty uid) ttl_seconds token).

(** ** Keys *)

Lemma verify_keys_distinct email :
  code_key email ≠ cooldown_key email ∧ code_key email ≠ attempts_key email ∧ attempts_key email ≠ cooldown_key email.
Proof.
  unfold code_key, cooldown_key, attempts_key.
  split_and!; intros E%(inj (String.append _)); discriminate.
Qed.

Definition verify_keys (email : string) : list string := [code_key email; attempts_key email; cooldown_key email].

(** The keys of an address are its own. *)
Lemma verify_keys_other e e' :
  e ≠ e' → (code_key e ∉ verify_keys e') ∧ (attempts_key e ∉ verify_keys e').
Proof.
  intros Hne. unfold verify_keys, code_key, attempts_key, cooldown_key, verification_prefix.
  assert (∀ t, (("im:verify:{" +:+ (e +:+ "}:")) +:+ t = ("im:verify:{" +:+ (e' +:+ "}:")) +:+ t) → e = e') as Hinj.
  { intros t E%string_app_inj_r%(inj (String.append _))%string_app_inj_r. done. }
  rewrite !not_elem_of_cons.
  split_and!; try (intros E; by apply Hinj in E); try set_solver;
    intros E; apply (f_equal last_char) in E; by rewrite !last_char_app in E.
Qed.

(** ** What the operations touch *)

Ltac touching_verify :=
  match goal with |- Touches ?ks _ => unfold ks || idtac end;
  repeat first [ apply touches_command | progress touching_commands ].

Lemma touches_issue e code ttl cd : Touches (verify_keys e) (issue_verification_code e code ttl cd).
Proof. unfold issue_verification_code, issue_script, verify_keys, check_reply. touching_verify. Qed.
Lemma touches_get_code e : Touches [] (get_verification_code e).
Proof. unfold get_verification_code. touching_verify. Qed.
Lemma touches_clear e code : Touches (verify_keys e) (clear_verification_code e code).
Proof. unfold clear_verification_code, clear_script, verify_keys. touching_verify. Qed.
Lemma touches_consume e code max : Touches (verify_keys e) (consume_verification_code e code max).
Proof. unfold consume_verification_code, consume_script, verify_keys, check_reply. touching_verify. Qed.

(** The operations of all Gates, with [max] as the configured attempts, and
    codes issued for the addresses in [issues]; [verify_other]: time passes,
    faults change, other keys are written. *)
Inductive verify_step (issues : string → Prop) (max : Z) (r : redis) : redis → Prop :=
  | verify_issue e code ttl cd : issues e → verify_step issues max r (issue_verification_code e code ttl cd r).2
  | verify_get e : verify_step issues max r (get_verification_code e r).2
  | verify_clear e code : verify_step issues max r (clear_verification_code e code r).2
  | verify_consume e code : verify_step issues max r (consume_verification_code e code max r).2
  | verify_other r' :
      (∀ e k, k ∈ verify_keys e → r_keys r' !! k = r_keys r !! k) → (r_time r ≤ r_time r')%Z →
      verify_step issues max r r'.

Lemma weakens_consume e code max : weakens (code_key e) (consume_verification_code e code max).
Proof.
  assert (∀ B (m : Eff redis B), Touches [attempts_key e; cooldown_key e] m → weakens (code_key e) m) as Hrest.
  { intros B m Hm. eapply weakens_touches; [exact Hm|]. pose proof (verify_keys_distinct e). set_solver. }
  apply weakens_bind; [|intros; apply Hrest; unfold check_reply; touching_commands].
  apply weakens_command, weakens_bind; [apply Hrest, touches_GET|]. intros [current|]; [|apply Hrest, _].
  case_match.
  - apply weakens_bind; [apply weakens_DEL|]. intros _. apply Hrest. touching_commands.
  - apply weakens_bind; [apply Hrest; touching_commands|]. intros attempts.
    apply weakens_bind; [apply Hrest; touching_commands|]. intros ttl.
    apply weakens_bind; [apply Hrest; touching_commands|]. intros _.
    apply weakens_bind; [|intros _; apply Hrest, _].
    case_match; [|apply Hrest, _]. apply weakens_bind; [apply weakens_DEL|]. intros _. apply Hrest. touching_commands.
Qed.

Lemma weakens_clear e code : weakens (code_key e) (clear_verification_code e code).
Proof.
  assert (∀ B (m : Eff redis B), Touches [attempts_key e; cooldown_key e] m → weakens (code_key e) m) as Hrest.
  { intros B m Hm. eapply weakens_touches; [exact Hm|]. pose proof (verify_keys_distinct e). set_solver. }
  apply weakens_bind; [|intros; apply Hrest; touching_commands].
  apply weakens_command, weakens_bind; [apply Hrest, touches_GET|]. intros current.
  case_match; [apply Hrest, _|]. apply weakens_bind; [apply weakens_DEL|]. intros _. apply Hrest. touching_commands.
Qed.

(** A code that is gone stays gone until one is issued for the address. *)
Lemma code_gone_step e max r r' :
  verify_step (λ e', e' ≠ e) max r r' → r_keys r !! code_key e = None → r_keys r' !! code_key e = None.
Proof.
  intros Hs Hgone.
  assert (∀ A (m : Eff redis A), weakens (code_key e) m → r_keys (m r).2 !! code_key e = None) as Hw.
  { intros A m Hm. destruct (r_keys (m r).2 !! code_key e) as [x|] eqn:E; [|done].
    destruct (Hm r x E) as (y & Hy & _). congruence. }
  assert (∀ e' A (m : Eff redis A), Touches (verify_keys e') m → e' ≠ e → r_keys (m r).2 !! code_key e = None) as Ht.
  { intros e' A m Hm Hne. destruct (Hm r) as [_ ->]; [done|]. by apply verify_keys_other. }
  destruct Hs as [e' code ttl cd Hne|e'|e' code|e' code|r' Hk _].
  - by eapply Ht; [apply touches_issue|].
  - apply Hw, weakens_idle, touches_get_code.
  - destruct (decide (e' = e)) as [->|Hne]; [apply Hw, weakens_clear|by eapply Ht; [apply touches_clear|]].
  - destruct (decide (e' = e)) as [->|Hne]; [apply Hw, weakens_consume|by eapply Ht; [apply touches_consume|]].
  - rewrite (Hk e); [done|left].
Qed.

(** ** Using a code *)

Lemma GET_eq k r :
  GET k r = match value_at r k with
            | None => (Ok None, r)
            | Some (RString text) => (Ok (Some text), r)
            | Some (RSet _) => wrong_type r
            end.
Proof. unfold GET, mbind, eff_bind, get. simpl. by destruct (value_at r k) as [[]|]. Qed.

(** The wrong-guess branch of the script. *)
Definition wrong_guess (e : string) (max : Z) : Eff redis Z :=
  attempts ← INCR (attempts_key e);
  ttl ← TTL (code_key e);
  (when ((attempts =? 1)%Z && (0 <? ttl)%Z) do EXPIRE (attempts_key e) ttl) ;;
  (when (max <=? attempts)%Z do (DEL (code_key e) ;; DEL (attempts_key e))) ;;
  mret 0%Z.

Lemma consume_script_eq e c max r :
  consume_script e c max r =
  match value_at r (code_key e) with
  | None => (Ok 0%Z, r)
  | Some (RString v) =>
      if bool_decide (v = c)
      then (Ok 1%Z, set_keys (delete (cooldown_key e) (delete (attempts_key e) (delete (code_key e) (r_keys r)))) r)
      else wrong_guess e max r
  | Some (RSet _) => wrong_type r
  end.
Proof.
  unfold consume_script. unfold mbind at 1, eff_bind at 1. rewrite GET_eq.
  destruct (value_at r (code_key e)) as [[v|m]|]; [|done|done]. by case_bool_decide.
Qed.

Lemma wrong_guess_answer e max r : (wrong_guess e max r).1 ≠ Ok 1%Z.
Proof.
  intros (a & r1 & _ & H)%bind_inv. apply bind_inv in H as (ttl & r2 & _ & H).
  apply bind_inv in H as (u & r3 & _ & H). by apply bind_inv in H as (u' & r4 & _ & H).
Qed.

Definition sent (r : redis) : redis := MkRedis (r_keys r) (r_time r) (tail (r_faults r)).

Lemma consume_true e c max r :
  (consume_verification_code e c max r).1 = Ok true →
  value_at r (code_key e) = Some (RString c) ∧
  r_keys (consume_verification_code e c max r).2 =
    delete (cooldown_key e) (delete (attempts_key e) (delete (code_key e) (r_keys r))).
Proof.
  unfold consume_verification_code, redis_command. unfold mbind at 1 3, eff_bind at 1 3.
  destruct (default NoFault (head (r_faults r))); [|done|done]. fold (sent r).
  rewrite consume_script_eq. change (value_at (sent r) (code_key e)) with (value_at r (code_key e)).
  destruct (value_at r (code_key e)) as [[v|m]|]; [|done|done]. case_bool_decide as Hv; [by subst|].
  pose proof (wrong_guess_answer e max (sent r)) as Hw.
  destruct (wrong_guess e max (sent r)) as [[z|x] r']; [|done]. unfold mbind, eff_bind, check_reply. simpl in *.
  destruct (_ || _); [|done]. simpl. intros [= Hz%Z.eqb_eq]. congruence.
Qed.

(** A verification code is good for one use: after it was accepted for an
    address, and until another code is issued for that address, no code at all
    is accepted for it, whatever the Gates do, whatever replies are lost, and
    however much time passes. *)
Theorem code_used_once e c max r r2 c' :
  (consume_verification_code e c max r).1 = Ok true →
  rtc (verify_step (λ e', e' ≠ e) max) (consume_verification_code e c max r).2 r2 →
  (consume_verification_code e c' max r2).1 ≠ Ok true.
Proof.
  intros [_ Hkeys]%consume_true Hr. destruct (verify_keys_distinct e) as (H1 & H2 & H3).
  assert (r_keys r2 !! code_key e = None) as Hgone.
  { apply (rtc_ind_r (λ x, r_keys x !! code_key e = None) _) in Hr; [done| |].
    - rewrite Hkeys. rewrite !lookup_delete_ne by done. apply lookup_delete_eq.
    - intros x y _ Hs IH. by apply (code_gone_step _ _ _ _ Hs). }
  intros [Hv _]%consume_true. unfold value_at, entry_at in Hv. by rewrite Hgone in Hv.
Qed.

(** ** Guessing a code *)

(** The count of the attempts against a code with the deadline [d], [n] guesses
    having been answered "wrong". The script lets the count expire with the code,
    but with the code's TTL rounded to seconds: the count may go up to half a
    second before the code does. It then starts again, once, and no longer
    expires. *)
Inductive tally (e : string) (max d : Z) (n : nat) (r : redis) : Prop :=
  | tally_none : n = 0 → r_keys r !! attempts_key e = None → tally e max d n r
  | tally_first a dl : (1 ≤ a < max)%Z → (Z.of_nat n ≤ a)%Z →
      r_keys r !! attempts_key e = Some (RString (pretty a), dl) → (∀ t, dl = Some t → d - 499 ≤ t)%Z → tally e max d n r
  | tally_again a : (1 ≤ a < max)%Z → (Z.of_nat n ≤ a + (max - 1))%Z → (d - 498 ≤ r_time r)%Z →
      r_keys r !! attempts_key e = Some (RString (pretty a), None) → tally e max d n r.

(** A code that can still be used has such a count. *)
Definition guessed (e : string) (max d : Z) (n : nat) (r : redis) : Prop :=
  ∀ v dl, r_keys r !! code_key e = Some (v, dl) → live (r_time r) (v, dl) = true → dl = Some d ∧ tally e max d n r.

(** One step of the world, with the number of guesses for [e] that were
    answered with "wrong" so far. *)
Inductive guess_step (e : string) (max : Z) : redis * nat → redis * nat → Prop :=
  | guess_wrong r n c : (consume_verification_code e c max r).1 = Ok false →
      guess_step e max (r, n) ((consume_verification_code e c max r).2, S n)
  | guess_other r n r' : verify_step (λ e', e' ≠ e) max r r' → guess_step e max (r, n) (r', n).

Lemma tally_ext e max d n r r' :
  r_keys r' !! attempts_key e = r_keys r !! attempts_key e → (r_time r ≤ r_time r')%Z →
  tally e max d n r → tally e max d n r'.
Proof.
  intros Ha Ht [Hn Hk|a dl Han Hna Hk Hd|a Han Hna Hd Hk]; rewrite <- Ha in Hk.
  - by apply tally_none.
  - by eapply tally_first.
  - eapply tally_again; [done..|lia|done].
Qed.

Lemma tally_S e max d n r : tally e max d (S n) r → tally e max d n r.
Proof.
  intros [Hn Hk|a dl Han Hna Hk Hd|a Han Hna Hd Hk]; [lia| |].
  - eapply tally_first; [done|lia|done..].
  - eapply tally_again; [done|lia|done..].
Qed.

Lemma guessed_ext e max d n r r' :
  r_keys r' !! code_key e = r_keys r !! code_key e → r_keys r' !! attempts_key e = r_keys r !! attempts_key e →
  (r_time r ≤ r_time r')%Z → guessed e max d n r → guessed e max d n r'.
Proof.
  intros Hc Ha Ht Hg v dl Hv Hl. rewrite Hc in Hv. destruct (Hg v dl Hv) as [-> Htally].
  - destruct dl as [dl|]; [|done]. unfold live in *. simpl in *. lia.
  - split; [done|]. by apply (tally_ext _ _ _ _ r).
Qed.

Lemma guessed_gone e max d n r : r_keys r !! code_key e = None → guessed e max d n r.
Proof. intros Hg v dl Hv. congruence. Qed.

Lemma INCR_present k z dl r :
  r_keys r !! k = Some (RString (pretty z), dl) → live (r_time r) (RString (pretty z), dl) = true → is_i64 (z + 1) = true →
  INCR k r = (Ok (z + 1)%Z, set_keys (<[k := (RString (pretty (z + 1)%Z), dl)]> (r_keys r)) r).
Proof.
  intros Hk Hl Hz. unfold INCR, entry_at, mbind, eff_bind, option_bind, get. simpl. rewrite Hk, Hl. simpl.
  rewrite read_decimal_pretty, Hz. done.
Qed.

Lemma INCR_absent k r :
  entry_at r k = None → INCR k r = (Ok 1%Z, set_keys (<[k := (RString (pretty 1%Z), None)]> (r_keys r)) r).
Proof. intros Hk. unfold INCR, mbind, eff_bind, get. simpl. by rewrite Hk. Qed.

Lemma TTL_live k v d r :
  r_keys r !! k = Some (v, Some d) → (r_time r ≤ d)%Z → TTL k r = (Ok ((d - r_time r + 500) / 1000)%Z, r).
Proof.
  intros Hk Hd. unfold TTL, entry_at, mbind, eff_bind, option_bind, get. simpl. rewrite Hk. simpl.
  unfold live. simpl. apply Z.leb_le in Hd. by rewrite Hd.
Qed.

Lemma EXPIRE_live k v dl ttl r :
  r_keys r !! k = Some (v, dl) → live (r_time r) (v, dl) = true → (0 < ttl)%Z →
  EXPIRE k ttl r = (Ok tt, set_keys (<[k := (v, Some (r_time r + 1000 * ttl)%Z)]> (r_keys r)) r).
Proof.
  intros Hk Hl Ht. unfold EXPIRE, entry_at, mbind, eff_bind, option_bind, get. simpl. rewrite Hk, Hl. simpl.
  destruct (Z.leb_spec ttl 0); [lia|done].
Qed.

(** What a wrong guess against a usable code records, and that it voids the code
    when it is the last one allowed: [a] attempts now, [dl] the deadline of their
    count. *)
Definition recorded (e : string) (max a : Z) (dl : option Z) (r : redis) : redis :=
  let keys := <[attempts_key e := (RString (pretty a), dl)]> (r_keys r) in
  set_keys (if (max <=? a)%Z then delete (attempts_key e) (delete (code_key e) keys) else keys) r.

Lemma wrong_guess_next e max r v d a dl :
  r_keys r !! code_key e = Some (v, Some d) → (r_time r ≤ d)%Z → (1 ≤ a < two31)%Z →
  r_keys r !! attempts_key e = Some (RString (pretty a), dl) → live (r_time r) (RString (pretty a), dl) = true →
  wrong_guess e max r = (Ok 0%Z, recorded e max (a + 1) dl r).
Proof.
  intros Hv Hd Ha Hatt Hl. destruct (verify_keys_distinct e) as (_ & Hca & _).
  assert (is_i64 (a + 1) = true) as Hi by (apply bool_decide_eq_true; unfold two63, two31 in *; lia).
  unfold wrong_guess, recorded. rewrite (bind_Ok _ _ _ _ _ (INCR_present _ _ _ _ Hatt Hl Hi)).
  erewrite bind_Ok; [|eapply TTL_live; [simpl; by rewrite lookup_insert_ne|done]].
  destruct (Z.eqb_spec (a + 1) 1); [lia|]. simpl. by destruct (max <=? a + 1)%Z.
Qed.

(** The first attempt of a count. *)
Lemma wrong_guess_first e max r v d :
  r_keys r !! code_key e = Some (v, Some d) → (r_time r ≤ d)%Z → entry_at r (attempts_key e) = None →
  let ttl := ((d - r_time r + 500) / 1000)%Z in
  wrong_guess e max r = (Ok 0%Z, recorded e max 1 (if (0 <? ttl)%Z then Some (r_time r + 1000 * ttl)%Z else None) r).
Proof.
  intros Hv Hd Hatt ttl. destruct (verify_keys_distinct e) as (_ & Hca & _).
  unfold wrong_guess, recorded. rewrite (bind_Ok _ _ _ _ _ (INCR_absent _ _ Hatt)).
  erewrite bind_Ok; [|eapply TTL_live; [simpl; by rewrite lookup_insert_ne|done]].
  simpl. fold ttl. destruct (Z.ltb_spec 0 ttl) as [Ht|Ht]; simpl.
  - erewrite bind_Ok; [|eapply EXPIRE_live; [apply lookup_insert_eq|done|simpl; lia]].
    simpl. rewrite insert_insert_eq. by destruct (max <=? 1)%Z.
  - by destruct (max <=? 1)%Z.
Qed.

(** The count after a wrong guess is one of the [S n]. *)
Lemma recorded_guessed e max d n a dl r v :
  r_keys r !! code_key e = Some (v, Some d) →
  (let r' := set_keys (<[attempts_key e := (RString (pretty a), dl)]> (r_keys r)) r in
   (a < max)%Z → tally e max d (S n) r') →
  guessed e max d (S n) (recorded e max a dl r).
Proof.
  intros Hv Ht. destruct (verify_keys_distinct e) as (_ & Hca & _). unfold recorded. destruct (Z.leb_spec max a) as [Hm|Hm].
  - apply guessed_gone. simpl. by rewrite lookup_delete_ne, lookup_delete_eq.
  - intros v' dl'. simpl. rewrite lookup_insert_ne, Hv by done. intros [= <- <-] _. split; [done|]. by apply Ht.
Qed.

Lemma wrong_guess_counts e max d n r v :
  (0 < max < two31)%Z → tally e max d n r →
  r_keys r !! code_key e = Some (v, Some d) → (r_time r ≤ d)%Z → guessed e max d (S n) (wrong_guess e max r).2.
Proof.
  intros Hmax Ht Hv Hd.
  assert (∀ x, entry_at r (attempts_key e) = None → (x = 0 ∨ d - 498 ≤ r_time r)%Z → (0 ≤ x)%Z → (Z.of_nat n ≤ x)%Z → (x < max)%Z →
          guessed e max d (S n) (wrong_guess e max r).2) as Hfirst.
  { intros x He Hx Hx0 Hn Hxm. rewrite (wrong_guess_first e max r v d) by done. simpl.
    eapply recorded_guessed; [done|]. intros r' H1. simpl. destruct Hx as [->|Hlate].
    - apply (tally_first _ _ _ _ _ 1 (if (0 <? (d - r_time r + 500) / 1000)%Z then Some (r_time r + 1000 * ((d - r_time r + 500) / 1000))%Z else None)); [lia|lia|apply lookup_insert_eq|]. intros t. case_match; [|done]. intros [= <-].
      pose proof (Z.mod_pos_bound (d - r_time r + 500) 1000). pose proof (Z.div_mod (d - r_time r + 500) 1000). lia.
    - eapply (tally_again _ _ _ _ _ 1); [lia|lia|done|]. simpl. rewrite lookup_insert_eq. case_match eqn:E; [|done].
      apply Z.ltb_lt in E. pose proof (Z.div_lt_upper_bound (d - r_time r + 500) 1000 1). lia. }
  destruct Ht as [-> Hk|a dl Ha Hn Hk Hdl|a Ha Hn Hlate Hk].
  - apply (Hfirst 0%Z); [|by left|lia..]. unfold entry_at. by rewrite Hk.
  - destruct (live (r_time r) (RString (pretty a), dl)) eqn:Hl.
    + rewrite (wrong_guess_next e max r v d a dl) by (done || lia).
      eapply recorded_guessed; [done|]. intros r' H1. apply (tally_first _ _ _ _ _ (a + 1) dl); [lia|lia|apply lookup_insert_eq|done].
    + destruct dl as [t|]; [|done]. apply (Hfirst a); [|right|lia..].
      * unfold entry_at. rewrite Hk. simpl. by rewrite Hl.
      * specialize (Hdl t eq_refl). unfold live in Hl. simpl in Hl. lia.
  - rewrite (wrong_guess_next e max r v d a None) by (done || lia).
    eapply recorded_guessed; [done|]. intros r' H1. apply (tally_again _ _ _ _ _ (a + 1)); [lia|lia|done|apply lookup_insert_eq].
Qed.

Lemma guessed_sent e max d n r : guessed e max d n r → guessed e max d n (sent r).
Proof. by apply guessed_ext. Qed.

Lemma consume_guessed e c max d n r :
  (0 < max < two31)%Z → guessed e max d n r →
  let run := consume_verification_code e c max r in
  guessed e max d n run.2 ∧ (run.1 = Ok false → guessed e max d (S n) run.2).
Proof.
  intros Hmax Hg run. pose proof (guessed_sent _ _ _ _ _ Hg) as Hg'. destruct (verify_keys_distinct e) as (Hcc & Hca & _).
  set (script := consume_script e c max (sent r)).
  assert (guessed e max d n script.2 ∧ (script.1 = Ok 0%Z → guessed e max d (S n) script.2)) as Hscript.
  { unfold script. rewrite consume_script_eq. change (value_at (sent r) (code_key e)) with (value_at r (code_key e)).
    unfold value_at, entry_at. destruct (r_keys r !! code_key e) as [[x dl]|] eqn:Hx; simpl.
    2: { split; intros; by apply guessed_gone. }
    destruct (live (r_time r) (x, dl)) eqn:Hl; simpl.
    2: { split; [done|]. intros _ v dl' Hv Hl'. simpl in *. congruence. }
    destruct x as [v|m]; simpl; [|done]. destruct (Hg' _ _ Hx Hl) as (-> & Ht).
    case_bool_decide.
    - split; [|done]. apply guessed_gone. simpl. rewrite !lookup_delete_ne by done. apply lookup_delete_eq.
    - assert (guessed e max d (S n) (wrong_guess e max (sent r)).2) as Hw.
      { apply (wrong_guess_counts e max d n (sent r) (RString v)); [done..|].
        unfold live in Hl. simpl in *. lia. }
      split; [|done]. intros v' dl' Hv' Hl'. destruct (Hw v' dl' Hv' Hl'). split; [done|]. by apply tally_S. }
  unfold run, consume_verification_code, redis_command. unfold mbind, eff_bind. fold (sent r).
  destruct (default NoFault (head (r_faults r))); simpl.
  - fold script. destruct script as [[z|x] r'] eqn:E; simpl in *; [|by split; [apply Hscript|]].
    unfold check_reply. destruct (_ || _) eqn:Hz; simpl; [|by split; [apply Hscript|]].
    split; [apply Hscript|]. intros [= Hf]. apply Hscript.
    destruct (Z.eqb_spec z 0), (Z.eqb_spec z 1); simpl in *; congruence.
  - by split.
  - split; [apply Hscript|done].
Qed.

Lemma clear_guessed e c max d n r : guessed e max d n r → guessed e max d n (clear_verification_code e c r).2.
Proof.
  intros Hg%guessed_sent. destruct (verify_keys_distinct e) as (Hcc & Hca & _).
  assert (guessed e max d n (clear_script e c (sent r)).2) as Hscript.
  { unfold clear_script. unfold mbind at 1, eff_bind at 1. rewrite GET_eq.
    destruct (value_at (sent r) (code_key e)) as [[v|m]|]; [|exact Hg|exact Hg].
    case_match; [exact Hg|]. apply guessed_gone. simpl. rewrite !lookup_delete_ne by done. apply lookup_delete_eq. }
  unfold clear_verification_code, redis_command, mbind, eff_bind. fold (sent r).
  destruct (default NoFault (head (r_faults r))); simpl; [|exact Hg|done].
  destruct (clear_script e c (sent r)) as [[z|x] r']; exact Hscript.
Qed.

Lemma guess_step_guessed e max d r n r' n' :
  (0 < max < two31)%Z → guess_step e max (r, n) (r', n') → guessed e max d n r → guessed e max d n' r'.
Proof.
  intros Hmax Hs Hg. inversion Hs as [? ? c Hc|? ? ? Hv]; subst.
  { by apply consume_guessed. }
  assert (∀ e0 A (m : Eff redis A), Touches (verify_keys e0) m → e0 ≠ e → guessed e max d n' (m r).2) as Ht.
  { intros e0 A m Hm Hne. destruct (Hm r) as [Htime Hk]. destruct (verify_keys_other e e0) as [? ?]; [done|].
    apply (guessed_ext e max d n' r); [by apply Hk..| |done]. by rewrite Htime. }
  destruct Hv as [e0 code ttl cd Hne|e0|e0 code|e0 code|r' Hk Htime].
  - by eapply Ht; [apply touches_issue|].
  - destruct (touches_get_code e0 r) as [Htime Hk].
    apply (guessed_ext e max d n' r); [by apply Hk; set_solver..| |done]. by rewrite Htime.
  - destruct (decide (e0 = e)) as [->|Hne]; [by apply clear_guessed|by eapply Ht; [apply touches_clear|]].
  - destruct (decide (e0 = e)) as [->|Hne]; [by apply consume_guessed|by eapply Ht; [apply touches_consume|]].
  - apply (guessed_ext e max d n' r); [apply (Hk e); set_solver..|done|done].
Qed.

Lemma issue_guessed e c ttl cd max r :
  (issue_verification_code e c ttl cd r).1 = Ok true →
  guessed e max (r_time r + 1000 * ttl) 0 (issue_verification_code e c ttl cd r).2.
Proof.
  destruct (verify_keys_distinct e) as (Hcc & Hca & Hac).
  unfold issue_verification_code, redis_command, issue_script. unfold mbind, eff_bind.
  destruct (default NoFault (head (r_faults r))); simpl; [|done|done].
  unfold EXISTS, mbind, eff_bind, get. simpl. case_bool_decide; simpl; [done|].
  unfold SETEX, mbind, eff_bind. destruct (ttl <=? 0)%Z eqn:E1; simpl; [done|].
  destruct (cd <=? 0)%Z eqn:E2; simpl; [done|]. intros _ v dl. simpl.
  rewrite lookup_delete_ne, lookup_insert_ne, lookup_insert_eq by done. intros [= <- <-] _. split; [done|].
  apply tally_none; [done|]. simpl. by rewrite lookup_delete_eq.
Qed.

(** C37: the guesses against a code are limited. From the moment a code is issued
    for an address, and until another one is: once [max] guesses for the address
    were answered "wrong", no code is accepted for it, except in the last half
    second before the code expires; and once [2 * max - 1] were, none is accepted
    at any time. In between anything may happen: guesses whose replies are lost,
    operations for other addresses, and any passing of time. (The half second is
    real: the script gives the count of the attempts the TTL of the code in
    rounded seconds, see [guesses_start_again].) *)
Theorem guesses_limited e c ttl cd max r r' n c' :
  (0 < max < two31)%Z → (issue_verification_code e c ttl cd r).1 = Ok true →
  rtc (guess_step e max) ((issue_verification_code e c ttl cd r).2, 0) (r', n) →
  ((max ≤ Z.of_nat n)%Z ∧ (r_time r' ≤ r_time r + 1000 * ttl - 500)%Z ∨ (2 * max - 1 ≤ Z.of_nat n)%Z) →
  (consume_verification_code e c' max r').1 ≠ Ok true.
Proof.
  intros Hmax Hi Hr Hn.
  assert (guessed e max (r_time r + 1000 * ttl) n r') as Hg.
  { apply (rtc_ind_r (λ x, guessed e max (r_time r + 1000 * ttl) x.2 x.1) _) in Hr; [done|by apply issue_guessed|].
    intros [x k] [y l] _ Hs IH. by eapply guess_step_guessed. }
  intros [Hv _]%consume_true. unfold value_at, entry_at in Hv.
  destruct (r_keys r' !! code_key e) as [[v dl]|] eqn:Hx; simpl in Hv; [|done].
  destruct (live _ _) eqn:Hl; [|done]. destruct (Hg _ _ Hx Hl) as (_ & [-> _|a ? ? ? _ _|a ? ? ? _]); lia.
Qed.

(** ** A concrete run *)

Definition demo_mail : string := "ann@example.org".
Definition demo_issued : redis := (issue_verification_code demo_mail "123456" 180 60 (MkRedis ∅ 0 [])).2.
Definition demo_used : redis := (consume_verification_code demo_mail "123456" 2 demo_issued).2.
Definition demo_guess (r : redis) : redis := (consume_verification_code demo_mail "000000" 2 r).2.

Lemma code_used_once_witness :
  (consume_verification_code demo_mail "123456" 2 demo_issued).1 = Ok true ∧
  (consume_verification_code demo_mail "123456" 2 demo_used).1 ≠ Ok true.
Proof.
  split; [vm_compute; reflexivity|].
  apply (code_used_once demo_mail "123456" 2 demo_issued demo_used "123456"); [vm_compute; reflexivity|].
  apply rtc_refl.
Defined.

Lemma guesses_limited_witness :
  (consume_verification_code demo_mail "123456" 2 (demo_guess demo_issued)).1 = Ok true ∧
  (consume_verification_code demo_mail "123456" 2 (demo_guess (demo_guess demo_issued))).1 ≠ Ok true.
Proof.
  split; [vm_compute; reflexivity|].
  apply (guesses_limited demo_mail "123456" 180 60 2 (MkRedis ∅ 0 []) _ 2 "123456");
    [by split|vm_compute; reflexivity| |left; split; [done|vm_compute; discriminate]].
  apply (rtc_l _ _ (demo_guess demo_issued, 1)); [apply guess_wrong; vm_compute; reflexivity|].
  apply rtc_once, guess_wrong. vm_compute. reflexivity.
Defined.

(** The count of the attempts goes before the code: of the two guesses allowed,
    the first, 501 ms after the code was issued for 180 s, gives the count 179 s;
    the second, in the last half second of the code, is counted as a first one
    again, and the code is accepted after it. *)
Definition at_time (t : Z) (r : redis) : redis := MkRedis (r_keys r) t (r_faults r).
Example guesses_start_again :
  let early := demo_guess (at_time 501 demo_issued) in
  let late := at_time 179900 early in
  (consume_verification_code demo_mail "000000" 2 late).1 = Ok false ∧
  (consume_verification_code demo_mail "123456" 2 (demo_guess late)).1 = Ok true.
Proof. vm_compute. done. Qed.
