(* ===== verification/Program.v ===== *)
(** * Coroutines as programs of events

    A transaction is a coroutine: it runs, and suspends when it awaits an
    operation of its I/O queue, reads a clock, or hands a frame to a transport.
    Between two suspensions of one transaction any other may run. A transaction
    is therefore a tree ([program E]) of the events [E] it performs, with a
    continuation for every possible answer; what the answers can be is left to
    the environment, so that a theorem about all runs covers every behaviour of
    the services it calls and of the other transactions. *)

From S2P Require Import Prelude.

Inductive program (E : Type → Type) (A : Type) : Type :=
  | Done (o : outcome A)
  | Await {R : Type} (e : E R) (k : outcome R → program E A).
Arguments Done {_ _} _.
Arguments Await {_ _ _} _ _.

(** An observed event with its answer. *)
Inductive observation (E : Type → Type) : Type :=
  | Obs {R : Type} (e : E R) (answer : outcome R).
Arguments Obs {_ _} _ _.

Section program.
Context {E : Type → Type}.
#[local] Abbreviation prog := (program E).
#[local] Abbreviation event := E.
#[local] Abbreviation obs := (observation E).

Fixpoint prog_bind {A B} (f : A → prog B) (m : prog A) : prog B :=
  match m with
  | Done (Ok a) => f a
  | Done (Throw e) => Done (Throw e)
  | Await e k => Await e (λ o, prog_bind f (k o))
  end.

#[global] Instance prog_mret : MRet prog := λ A a, Done (Ok a).
#[global] Instance prog_mbind : MBind prog := λ A B f m, prog_bind f m.

Definition perform {R} (e : event R) : prog R := Await e Done.
(** try/catch *)
Fixpoint prog_catch {A} (h : exn → prog A) (m : prog A) : prog A :=
  match m with
  | Done (Ok a) => Done (Ok a)
  | Done (Throw e) => h e
  | Await e k => Await e (λ o, prog_catch h (k o))
  end.

(** for (x : l) *)
Fixpoint for_each {A B} (l : list A) (acc : B) (f : B → A → prog B) : prog B :=
  match l with
  | [] => mret acc
  | x :: l => acc ← f acc x; for_each l acc f
  end.

(** ** Runs

    The traces a program can have. *)

Fixpoint runs {A} (m : prog A) (t : list obs) (r : outcome A) : Prop :=
  match m with
  | Done o => t = [] ∧ r = o
  | Await e k => ∃ o t', t = Obs e o :: t' ∧ runs (k o) t' r
  end.

Lemma runs_bind {A B} (m : prog A) (f : A → prog B) t r :
  runs (m ≫= f) t r ↔
  (∃ t1 t2 a, t = t1 ++ t2 ∧ runs m t1 (Ok a) ∧ runs (f a) t2 r) ∨
  (∃ e, runs m t (Throw e) ∧ r = Throw e).
Proof.
  unfold mbind, prog_mbind. revert t. induction m as [[a|e]|R e k IH]; intros t; simpl.
  - split.
    + intros Hr. left. exists [], t, a. done.
    + intros [(t1 & t2 & a' & -> & [-> [= ->]] & Hr)|(e & [_ [=]] & _)]. done.
  - split.
    + intros [-> ->]. right. eauto.
    + intros [(t1 & t2 & a' & _ & [_ [=]] & _)|(e' & [-> [= ->]] & ->)]. done.
  - split.
    + intros (o & t' & -> & [(t1 & t2 & a & -> & Hm & Hf)|(e' & Hm & ->)]%IH).
      * left. exists (Obs e o :: t1), t2, a. split_and!; [done| |done]. eauto.
      * right. exists e'. split; [|done]. eauto.
    + intros [(t1 & t2 & a & -> & (o & t1' & -> & Hm) & Hf)|(e' & (o & t' & -> & Hm) & ->)].
      * exists o, (t1' ++ t2). split; [done|]. apply IH. left. by exists t1', t2, a.
      * exists o, t'. split; [done|]. apply IH. right. by exists e'.
Qed.

Lemma runs_catch {A} (h : exn → prog A) (m : prog A) t r :
  runs (prog_catch h m) t r ↔
  (∃ a, runs m t (Ok a) ∧ r = Ok a) ∨
  (∃ t1 t2 e, t = t1 ++ t2 ∧ runs m t1 (Throw e) ∧ runs (h e) t2 r).
Proof.
  revert t. induction m as [[a|e]|R e k IH]; intros t; simpl.
  - split; [intros [-> ->]; left; eauto|].
    intros [(a' & [-> [= ->]] & ->)|(t1 & t2 & e & _ & [_ [=]] & _)]. done.
  - split.
    + intros Hr. right. exists [], t, e. done.
    + intros [(a' & [_ [=]] & _)|(t1 & t2 & e' & -> & [-> [= ->]] & Hr)]. done.
  - split.
    + intros (o & t' & -> & [(a & Hm & ->)|(t1 & t2 & e' & -> & Hm & Hh)]%IH).
      * left. exists a. split; [|done]. by exists o, t'.
      * right. exists (Obs e o :: t1), t2, e'. split_and!; [done| |done]. eauto.
    + intros [(a & (o & t' & -> & Hm) & ->)|(t1 & t2 & e' & -> & (o & t1' & -> & Hm) & Hh)].
      * exists o, t'. split; [done|]. apply IH. left. by exists a.
      * exists o, (t1' ++ t2). split; [done|]. apply IH. right. by exists t1', t2, e'.
Qed.

Lemma runs_perform {R} (e : event R) t r : runs (perform e) t r ↔ t = [Obs e r].
Proof.
  split.
  - intros (o & t' & -> & -> & ->). done.
  - intros ->. simpl. eauto.
Qed.

(** ** Properties of every event of every run *)

Fixpoint always {A} (P : ∀ R, event R → Prop) (m : prog A) : Prop :=
  match m with
  | Done _ => True
  | @Await _ _ R e k => P R e ∧ ∀ o, always P (k o)
  end.

Lemma always_bind {A B} P (m : prog A) (f : A → prog B) :
  always P m → (∀ a, always P (f a)) → always P (m ≫= f).
Proof.
  unfold mbind, prog_mbind. intros Hm Hf. induction m as [[a|e]|R e k IH]; simpl in *; [done|done|].
  destruct Hm as [HP Hk]. split; [done|]. intros o. apply IH, Hk.
Qed.

Lemma always_catch {A} P (h : exn → prog A) (m : prog A) :
  always P m → (∀ e, always P (h e)) → always P (prog_catch h m).
Proof.
  intros Hm Hh. induction m as [[a|e]|R e k IH]; simpl in *; [done|done|].
  destruct Hm as [HP Hk]. split; [done|]. intros o. apply IH, Hk.
Qed.

Lemma always_perform P {R} (e : event R) : P R e → always P (perform e).
Proof. done. Qed.

Lemma always_for_each {A B} P (l : list A) (acc : B) f :
  (∀ acc x, always P (f acc x)) → always P (for_each l acc f).
Proof.
  intros Hf. revert acc. induction l as [|x l IH]; intros acc; simpl; [done|].
  apply always_bind; [apply Hf|]. intros a. apply IH.
Qed.

Lemma always_mono {A} (P Q : ∀ R, event R → Prop) (m : prog A) :
  (∀ R e, P R e → Q R e) → always P m → always Q m.
Proof. intros HPQ. induction m as [o|R e k IH]; simpl; [done|]. intros [? ?]. eauto. Qed.

Lemma always_runs {A} P (m : prog A) t r :
  always P m → runs m t r → Forall (λ x, match x with Obs e _ => P _ e end) t.
Proof.
  revert t. induction m as [o|R e k IH]; simpl; intros t Ha.
  - intros [-> _]. constructor.
  - destruct Ha as [HP Hk]. intros (o & t' & -> & Hr). constructor; [done|]. by eapply IH.
Qed.

(** ** Properties of every value returned *)

Fixpoint ensures {A} (Q : A → Prop) (m : prog A) : Prop :=
  match m with
  | Done (Ok a) => Q a
  | Done (Throw _) => True
  | Await e k => ∀ o, ensures Q (k o)
  end.

Lemma ensures_bind {A B} (Q : B → Prop) (m : prog A) (f : A → prog B) :
  ensures (λ a, ensures Q (f a)) m → ensures Q (m ≫= f).
Proof.
  unfold mbind, prog_mbind. induction m as [[a|e]|R e k IH]; simpl; [done|done|]. intros Hk o. apply IH, Hk.
Qed.

Lemma ensures_catch {A} (Q : A → Prop) (h : exn → prog A) (m : prog A) :
  ensures Q m → (∀ e, ensures Q (h e)) → ensures Q (prog_catch h m).
Proof. intros Hm Hh. induction m as [[a|e]|R e k IH]; simpl in *; [done|apply Hh|]. intros o. apply IH, Hm. Qed.

Lemma ensures_mono {A} (Q Q' : A → Prop) (m : prog A) : (∀ a, Q a → Q' a) → ensures Q m → ensures Q' m.
Proof. intros HQ. induction m as [[a|e]|R e k IH]; simpl; auto. Qed.

Lemma ensures_any {A} (m : prog A) (Q : A → Prop) : (∀ a, Q a) → ensures Q m.
Proof. intros HQ. induction m as [[a|e]|R e k IH]; simpl; auto. Qed.

Lemma ensures_runs {A} (Q : A → Prop) (m : prog A) t a : ensures Q m → runs m t (Ok a) → Q a.
Proof.
  revert t. induction m as [[a'|e]|R e k IH]; simpl; intros t Hq.
  - by intros [_ [= ->]].
  - by intros [_ [=]].
  - intros (o & t' & _ & Hr). by eapply IH.
Qed.

(** ** Properties of an event in view of what was observed before it *)

Fixpoint guarded {A} (P : list obs → ∀ R, event R → Prop) (past : list obs) (m : prog A) : Prop :=
  match m with
  | Done _ => True
  | @Await _ _ R e k => P past R e ∧ ∀ o, guarded P (past ++ [Obs e o]) (k o)
  end.

Lemma guarded_always {A} P (m : prog A) past : always (λ R e, ∀ past, P past R e) m → guarded P past m.
Proof. revert past. induction m as [o|R e k IH]; intros past; simpl; [done|]. intros [HP Hk]. auto. Qed.

Lemma guarded_bind {A B} P past (m : prog A) (f : A → prog B) :
  guarded P past m → (∀ t a, runs m t (Ok a) → guarded P (past ++ t) (f a)) → guarded P past (m ≫= f).
Proof.
  unfold mbind, prog_mbind. revert past. induction m as [[a|e]|R e k IH]; intros past; simpl.
  - intros _ Hf. rewrite <- (app_nil_r past). by apply Hf.
  - done.
  - intros [HP Hk] Hf. split; [done|]. intros o. apply IH; [apply Hk|].
    intros t a Hr. rewrite <- app_assoc. apply Hf. simpl. eauto.
Qed.

Lemma guarded_catch {A} P past (h : exn → prog A) (m : prog A) :
  guarded P past m → (∀ t e, runs m t (Throw e) → guarded P (past ++ t) (h e)) → guarded P past (prog_catch h m).
Proof.
  revert past. induction m as [[a|e]|R e k IH]; intros past; simpl.
  - done.
  - intros _ Hf. rewrite <- (app_nil_r past). by apply Hf.
  - intros [HP Hk] Hf. split; [done|]. intros o. apply IH; [apply Hk|].
    intros t x Hr. rewrite <- app_assoc. apply Hf. simpl. eauto.
Qed.

Lemma guarded_for_each {A B} P past (l : list A) (acc : B) f :
  (∀ t acc x, guarded P (past ++ t) (f acc x)) → guarded P past (for_each l acc f).
Proof.
  revert past acc. induction l as [|x l IH]; intros past acc Hf; simpl; [done|].
  apply guarded_bind; [rewrite <- (app_nil_r past); apply Hf|]. intros t a _. apply IH.
  intros t' acc' x'. rewrite <- app_assoc. apply Hf.
Qed.

Lemma guarded_runs {A} P past (m : prog A) t1 {R} (e : event R) o t2 r :
  guarded P past m → runs m (t1 ++ Obs e o :: t2) r → P (past ++ t1) R e.
Proof.
  revert past t1. induction m as [o'|R' e' k IH]; intros past t1; simpl.
  - intros _ [Ht _]. by destruct t1.
  - intros [HP Hk] (o' & t' & Ht & Hr). destruct t1 as [|x t1]; simpl in Ht.
    + apply (f_equal (λ l : list obs, match l with Obs e'' _ :: _ => P past _ e'' | [] => True end)) in Ht. simpl in Ht.
      rewrite app_nil_r. by rewrite Ht.
    + apply (f_equal tail) in Ht as Ht'. apply (f_equal head) in Ht. simpl in Ht, Ht'. subst t'.
      assert (x = Obs e' o') as -> by congruence. rewrite (cons_middle _ past t1), app_assoc. by eapply IH.
Qed.

(** ** Running a program against an implementation of its events *)

Fixpoint interp {W A} (h : ∀ R, event R → Eff W R) (m : prog A) : Eff W A := λ w,
  match m with
  | Done o => (o, w)
  | Await e k => let '(o, w') := h _ e w in interp h (k o) w'
  end.

Lemma interp_bind {W A B} h (m : prog A) (f : A → prog B) (w : W) :
  interp h (m ≫= f) w =
    match interp h m w with
    | (Ok a, w') => interp h (f a) w'
    | (Throw e, w') => (Throw e, w')
    end.
Proof.
  unfold mbind, prog_mbind. revert w. induction m as [[a|e]|R e k IH]; intros w; simpl; [done|done|].
  destruct (h R e w) as [o w']. apply IH.
Qed.

Lemma interp_catch {W A} h c (m : prog A) (w : W) :
  interp h (prog_catch c m) w =
    match interp h m w with
    | (Ok a, w') => (Ok a, w')
    | (Throw e, w') => interp h (c e) w'
    end.
Proof.
  revert w. induction m as [[a|e]|R e k IH]; intros w; simpl; [done|done|].
  destruct (h R e w) as [o w']. apply IH.
Qed.

Lemma interp_perform {W R} h (e : event R) (w : W) : interp h (perform e) w = h R e w.
Proof. simpl. by destruct (h R e w). Qed.

(** Such a run is one of the runs of the program. *)
Lemma interp_runs {W A} (h : ∀ R, event R → Eff W R) (m : prog A) w : ∃ t, runs m t (interp h m w).1.
Proof.
  revert w. induction m as [o|R e k IH]; intros w; simpl; [by exists []|].
  destruct (h R e w) as [o w']. destruct (IH o w') as [t Ht]. eexists. by exists o, t.
Qed.
End program.

(** ** Walking through a program of known shape *)

(** An answer that was observed. *)
Ltac seen :=
  first [assumption | apply elem_of_app; first [right; apply list_elem_of_singleton; reflexivity | left; seen]].

(** One goal for each event. *)
Ltac walk :=
  repeat first
    [ done
    | match goal with
      | |- guarded _ _ (if ?b then _ else _) => destruct b eqn:?; simpl
      | |- guarded _ _ (match ?x with _ => _ end) => destruct x eqn:?; simpl
      | |- guarded _ _ (prog_bind _ (if ?b then _ else _)) => destruct b eqn:?; simpl
      | |- guarded _ _ (prog_bind _ (match ?x with _ => _ end)) => destruct x eqn:?; simpl
      | |- guarded _ _ (Done _) => exact I
      | |- guarded _ _ (Await _ _) => split; [simpl; try exact I|intros [?|?]; simpl]
      | |- _ ∧ ∀ _ : outcome _, _ => split; [simpl; try exact I|intros [?|?]; simpl]
      end ].
