(* ===== verification/Process.v ===== *)
(** * Events of the Message service

    The operations of its I/O queue and the other events its transactions
    perform. *)

From S2P Require Import Prelude Codec Records FileTypes Ids Program.
Import db.

(** registered_operations: the operations of the Message I/O queue. *)
Inductive operation : Type → Type :=
  | sql {R} (op : mysql_operation R) : operation R
  | get_session_op (uid : Z) (device_id : string) : operation SessionLease
  | get_sessions_op (uid : Z) : operation (list SessionLease)
  | generate_id_op (kind : id_kind) : operation Z
  | upload_file (request : file.UploadRequest) : operation file.UploadResponse
  | download_file (request : file.DownloadRequest) : operation file.DownloadResponse.

(** message_transport::stream_route *)
Record stream_route := MkRoute {
  sr_gateway_id : string; sr_instance_id : string; sr_shard_id : Z; sr_token : Z }.

(** What a transaction does to the outside: submit an operation, read the
    clock, reply on the stream of the command, forward to a Gateway. *)
Inductive event : Type → Type :=
  | Io {R} (op : operation R) : event R
  | Now : event string
  | Expiry : event string
  | Reply (origin : stream_route) (result : CommandResult) : event bool
  | Forward (lease : SessionLease) (envelope : ClientForwardEnvelope) : event ClientForwardStatus.

Abbreviation prog := (program event).
Abbreviation obs := (observation event).

Definition io {R} (op : operation R) : prog R := perform (Io op).
