(* ===== verification/Protocol.v ===== *)
(** * Request registries and envelopes

    What the Gateway (gateway/api/protocol.cc) and the Message service
    (message/api/protocol.cc) accept as a request, how a request is dispatched,
    how a push becomes an envelope for a Gateway, and which Message shard owns
    the stream of a Gateway (common/include/message_route.hh). *)

From S2P Require Import Prelude Codec Process.
From Stdlib Require Import Ascii.

(** ** message_route::owner_shard: 64-bit FNV-1a *)

Definition fnv_offset : Z := 14695981039346656037.
Definition fnv_prime : Z := 1099511628211.

Fixpoint fnv1a (hash : Z) (bytes : string) : Z :=
  match bytes with
  | "" => hash
  | String byte bytes => fnv1a (u64 (Z.lxor hash (Z.of_N (N_of_ascii byte)) * fnv_prime)) bytes
  end.

Definition owner_shard (gateway_id : string) (shard_count : Z) : Z :=
  (fnv1a fnv_offset gateway_id mod shard_count)%Z.

(** ** The Message service *)

(** message_transaction::delivery and request_context *)
Record delivery := MkDelivery { recipient_uid : Z; dl_packet : Packet; excluded_device_id : string }.
Record request_context := MkContext {
  origin : stream_route; rc_command : CommandEnvelope; rc_packet : Packet; deliveries : list delivery }.

(** The member functions of message_transaction::service a route points to. *)
Inductive handler :=
  | h_send_text | h_send_group_text | h_send_file | h_send_group_file | h_acknowledge | h_pull_messages
  | h_apply_friend | h_reply_friend | h_pull_friends | h_pull_friend_applications
  | h_create_group | h_apply_group | h_reply_group | h_pull_group | h_quit_group | h_kick_group_member
  | h_upload | h_download.

Definition message_registry : list (Operation * handler) :=
  [ (OP_SEND_TEXT, h_send_text);
    (OP_SEND_GROUP_TEXT, h_send_group_text);
    (OP_SEND_FILE, h_send_file);
    (OP_SEND_GROUP_FILE, h_send_group_file);
    (OP_ACKNOWLEDGE, h_acknowledge);
    (OP_PULL_CONVERSATION_MESSAGES, h_pull_messages);
    (OP_ADD_FRIEND, h_apply_friend);
    (OP_REPLY_FRIEND, h_reply_friend);
    (OP_PULL_FRIEND_LIST, h_pull_friends);
    (OP_PULL_FRIEND_APPLICATIONS, h_pull_friend_applications);
    (OP_CREATE_GROUP, h_create_group);
    (OP_JOIN_GROUP, h_apply_group);
    (OP_REPLY_JOIN_GROUP, h_reply_group);
    (OP_PULL_GROUP_MEMBERS, h_pull_group);
    (OP_QUIT_GROUP, h_quit_group);
    (OP_KICK_GROUP_MEMBER, h_kick_group_member);
    (OP_UPLOAD_FILE, h_upload);
    (OP_UPLOAD_FILE_CHUNK, h_upload);
    (OP_COMPLETE_FILE_UPLOAD, h_upload);
    (OP_DOWNLOAD_FILE, h_download) ].

(** The first endpoint of a registry with the operation. *)
Definition find_route {A} (registry : list (Operation * A)) (operation : Operation) : option A :=
  (λ x, x.2.2) <$> list_find (λ endpoint, endpoint.1 = operation) registry.

Definition route_for (operation : Operation) : option handler := find_route message_registry operation.

Section message_protocol.
Context `{!ProtobufCodec Packet}.

(** decode: the error, and the context with the parsed packet. *)
Definition decode (context : request_context) : Z * request_context :=
  let command := context.(rc_command) in
  if (command.(ce_actor_uid) <=? 0)%Z || bool_decide (command.(ce_request_id) = "") ||
     bool_decide (command.(ce_connection_id) = "") || (command.(ce_connection_generation) =? 0)%Z ||
     bool_decide (command.(ce_actor_device_id) = "") ||
     bool_decide (36 < String.length command.(ce_actor_device_id))
  then (error_code AuthenticationRequired, context)
  else
    match ParseFromString command.(ce_packet) with
    | None => (error_code ProtobufPacket, context)
    | Some packet =>
        let context := MkContext context.(origin) command packet context.(deliveries) in
        if negb (TcpRequestMatchesOperation command.(ce_operation) packet)
        then (error_code ProtobufPacket, context)
        else
          match route_for command.(ce_operation) with
          | None => (error_code NotFound, context)
          | Some _ => (error_code Success, context)
          end
    end.

Definition make_forward (d : delivery) (forward_id : string) : ClientForwardEnvelope :=
  let '(conversation, seq) :=
    match pk_payload d.(dl_packet) with
    | text_message_push b => (tmp_conversation_id b, tmp_conversation_seq b)
    | file_message_push b => (fmp_conversation_id b, fmp_conversation_seq b)
    | read_receipt_push b => (rrp_conversation_id b, rrp_conversation_seq b)
    | _ => (0, 0)%Z
    end in
  MkClientForwardEnvelope forward_id d.(recipient_uid) "" 0
    (TcpPacketReliableSequence d.(dl_packet)) conversation seq (SerializeToString d.(dl_packet)) "".
End message_protocol.

(** ** The Gateway *)

Module gateway_protocol.

Inductive processing := login | immediate | forward.
#[global] Instance processing_eq_dec : EqDecision processing.
Proof. solve_decision. Defined.

(** The connection's member functions a route points to. *)
Inductive endpoint := e_login | e_ping | e_quit | e_acknowledge_request | e_forward.

Definition registry : list (Operation * (processing * endpoint)) :=
  [ (OP_LOGIN, (login, e_login));
    (OP_PING, (immediate, e_ping));
    (OP_QUIT, (immediate, e_quit));
    (OP_ACKNOWLEDGE, (immediate, e_acknowledge_request));
    (OP_PULL_FRIEND_LIST, (forward, e_forward));
    (OP_PULL_FRIEND_APPLICATIONS, (forward, e_forward));
    (OP_PULL_CONVERSATION_MESSAGES, (forward, e_forward));
    (OP_PULL_GROUP_MEMBERS, (forward, e_forward));
    (OP_UPDATE_USER_INFO, (forward, e_forward));
    (OP_SEARCH_USER, (forward, e_forward));
    (OP_ADD_FRIEND, (forward, e_forward));
    (OP_REPLY_FRIEND, (forward, e_forward));
    (OP_REMOVE_FRIEND, (forward, e_forward));
    (OP_SEND_TEXT, (forward, e_forward));
    (OP_SEND_FILE, (forward, e_forward));
    (OP_UPLOAD_FILE, (forward, e_forward));
    (OP_CREATE_GROUP, (forward, e_forward));
    (OP_JOIN_GROUP, (forward, e_forward));
    (OP_REPLY_JOIN_GROUP, (forward, e_forward));
    (OP_QUIT_GROUP, (forward, e_forward));
    (OP_SEND_GROUP_TEXT, (forward, e_forward));
    (OP_UPLOAD_FILE_CHUNK, (forward, e_forward));
    (OP_COMPLETE_FILE_UPLOAD, (forward, e_forward));
    (OP_DOWNLOAD_FILE, (forward, e_forward));
    (OP_KICK_GROUP_MEMBER, (forward, e_forward));
    (OP_SEND_GROUP_FILE, (forward, e_forward)) ].

Definition gateway_route_for (operation : Operation) : outcome (processing * endpoint) :=
  match find_route registry operation with
  | Some endpoint => Ok endpoint
  | None => Throw (InvalidArgument "unregistered Gateway operation")
  end.

Definition default_login : LoginRequest := MkLoginRequest 0 "" "" false "" 0 "" "".
Definition packet_of (request : ClientRequest) : Packet := default default_packet request.(cr_packet).
Definition login_of (packet : Packet) : LoginRequest :=
  match pk_payload packet with login_request body => body | _ => default_login end.

(** find_first_of: a carriage return or line feed *)
Fixpoint has_line_break (s : string) : bool :=
  match s with
  | "" => false
  | String c s => bool_decide (c = "010"%char) || bool_decide (c = "013"%char) || has_line_break s
  end.

Definition validate (request : ClientRequest) : Z :=
  if bool_decide (request.(cr_operation) = OP_LOGIN) then
    let login := login_of (packet_of request) in
    if (lr_uid login <=? 0)%Z || bool_decide (lr_device_id login = "") ||
       bool_decide (36 < String.length (lr_device_id login)) || has_line_break (lr_device_id login) ||
       bool_decide (lr_auth_token login = "")
    then error_code TokenInvalid
    else if lr_init_profile login &&
       (bool_decide (64 < String.length (lr_name login)) || bool_decide (16 < String.length (lr_sex login)) ||
        bool_decide (512 < String.length (lr_head_image_url login)) ||
        (lr_age login <? 0)%Z || (32767 <? lr_age login)%Z)
    then error_code ProtobufPacket
    else 0
  else 0.

Section decode.
Context `{!ProtobufCodec ClientEnvelope}.

Definition gateway_decode (payload : string) : outcome ClientRequest :=
  match ParseFromString payload with
  | Some (request body) =>
      if bool_decide (body.(cr_request_id) = "") ||
         negb (TcpRequestMatchesOperation body.(cr_operation) (packet_of body))
      then Throw (InvalidArgument "invalid Gateway protobuf request")
      else match gateway_route_for body.(cr_operation) with
           | Ok _ => Ok body
           | Throw e => Throw e
           end
  | _ => Throw (InvalidArgument "invalid Gateway protobuf request")
  end.
End decode.
End gateway_protocol.

(** ** Theorems *)

Lemma find_route_Some {A} (registry : list (Operation * A)) op a :
  find_route registry op = Some a → (op, a) ∈ registry.
Proof.
  unfold find_route. destruct (list_find _ _) as [[i [op' a']]|] eqn:E; simpl; [|done]. intros [= <-].
  apply list_find_Some in E as (Hi & <- & _). by eapply list_elem_of_lookup_2.
Qed.

Lemma find_route_None {A} (registry : list (Operation * A)) op :
  find_route registry op = None → op ∉ registry.*1.
Proof.
  unfold find_route. destruct (list_find _ _) as [[i [op' a']]|] eqn:E; [done|]. intros _.
  apply list_find_None in E. rewrite Forall_forall in E.
  intros ((op' & a') & -> & Hin)%list_elem_of_fmap. by apply (E _ Hin).
Qed.

(** With [n] shards the owner of a Gateway is one of them. *)
Lemma owner_shard_range gateway_id n : (0 < n)%Z → (0 ≤ owner_shard gateway_id n < n)%Z.
Proof. intros Hn. unfold owner_shard. by apply Z.mod_pos_bound. Qed.

(** What decode accepts: the command names an authenticated user, device and
    connection, its packet parses and is the request of its operation, and the
    operation has a handler, so that the dispatch that follows always finds one.
    Everything else is refused. *)
Theorem decode_accepts `{!ProtobufCodec Packet} context context' :
  decode context = (error_code Success, context') ↔
  let command := rc_command context in
  (0 < ce_actor_uid command)%Z ∧ ce_request_id command ≠ "" ∧ ce_connection_id command ≠ "" ∧
  ce_connection_generation command ≠ 0%Z ∧ ce_actor_device_id command ≠ "" ∧
  String.length (ce_actor_device_id command) ≤ 36 ∧
  ParseFromString (ce_packet command) = Some (rc_packet context') ∧
  ce_operation command = TcpPacketRequestOperation (rc_packet context') ∧
  is_Some (route_for (ce_operation command)) ∧
  context' = MkContext (origin context) command (rc_packet context') (deliveries context).
Proof.
  unfold decode. cbv zeta. split.
  - destruct (_ || _) eqn:E; [done|]. rewrite !orb_false_iff, Z.leb_gt, Z.eqb_neq, !bool_decide_eq_false in E.
    destruct (ParseFromString _) as [packet|] eqn:Ep; [|done].
    destruct (TcpRequestMatchesOperation _ _) eqn:Em; simpl; [|done].
    destruct (route_for _) eqn:Er; [|done]. intros [= <-]. simpl.
    apply TcpRequestMatchesOperation_true in Em as [_ Em].
    destruct E as [[[[[? ?] ?] ?] ?] ?]. split_and!; try done; lia.
  - intros (Hu & Hr & Hc & Hg & Hd & Hl & Hp & Hm & Hroute & ->). simpl in *.
    rewrite (proj2 (Z.leb_gt _ _)) by lia. rewrite !bool_decide_eq_false_2 by (done || lia).
    rewrite (proj2 (Z.eqb_neq _ _)) by done. simpl. rewrite Hp.
    assert (TcpRequestMatchesOperation (ce_operation (rc_command context)) (rc_packet context') = true) as ->.
    { apply TcpRequestMatchesOperation_true. split; [|done]. intros E. rewrite E in Hroute.
      destruct Hroute as [? [=]]. }
    simpl. destruct Hroute as [h ->]. done.
Qed.

(** The registries are unambiguous: no operation is listed twice, in the
    Gateway or in the Message service, and every operation the Message service
    handles can reach it through the Gateway. *)
Theorem registries_consistent :
  NoDup message_registry.*1 ∧ NoDup gateway_protocol.registry.*1 ∧
  ∀ op h, route_for op = Some h → ∃ r, gateway_protocol.gateway_route_for op = Ok r.
Proof.
  split_and!; [apply (bool_decide_unpack _); vm_compute; exact I..|].
  intros op h Hr%find_route_Some. apply (list_elem_of_fmap_2 fst) in Hr. simpl in Hr.
  unfold gateway_protocol.gateway_route_for. destruct (find_route gateway_protocol.registry op) as [r|] eqn:E; [by exists r|].
  apply find_route_None in E. exfalso. apply E.
  assert (Forall (λ op, op ∈ gateway_protocol.registry.*1) message_registry.*1) as Hall.
  { apply (bool_decide_unpack _). vm_compute. exact I. }
  rewrite Forall_forall in Hall. by apply Hall.
Qed.

(** The Gateway forwards exactly three operations that have no Message
    handler. Whoever sends them, a command for one of them is answered NotFound
    when it passes the identity and payload checks, and refused otherwise. *)
Theorem forwarded_without_handler `{!ProtobufCodec Packet} :
  let forwarded := omap (λ x, if bool_decide (x.2.1 = gateway_protocol.forward) then Some x.1 else None)
                     gateway_protocol.registry in
  filter (λ op, route_for op = None) forwarded = [OP_UPDATE_USER_INFO; OP_SEARCH_USER; OP_REMOVE_FRIEND] ∧
  ∀ context, ce_operation (rc_command context) ∈ filter (λ op, route_for op = None) forwarded →
    (decode context).1 ∈ error_code <$> [AuthenticationRequired; ProtobufPacket; NotFound].
Proof.
  split; [vm_compute; reflexivity|].
  intros context [Hop _]%list_elem_of_filter. unfold decode. rewrite Hop.
  repeat case_match; simpl; set_solver.
Qed.
