(* ===== verification/StateService.v ===== *)
(** * The State service

    Models state/options.cc and state/service.cc: the topology that is read from
    the configuration, the choice of a Gateway for a client and the list of
    Message nodes; and the client of the choice in the Gate
    (gate/io/grpc_client.cc). *)

From S2P Require Import Prelude Codec Seastar Grpc Yaml.

(** ** Options *)

(** state_service::gateway_node *)
Record state_gateway := MkStateGateway { sg_id : string; sg_host : string; sg_port : Z; sg_active : bool }.

(** state::ServiceNode *)
Record service_node := MkServiceNode {
  sv_node_id : string; sv_host : string; sv_port : Z; sv_status : string; sv_weight : Z; sv_shard_count : Z }.

Record state_options := MkStateOptions {
  so_host : string; so_port : Z; so_max_requests : Z; so_gateways : list state_gateway; so_messages : list service_node }.

Section options.
Context `{!Yaml}.

Definition load_max_requests (config : yaml) : outcome Z :=
  transaction ← at_key config "transaction";
  max_requests ←
    (if defined transaction then n ← at_key transaction "maxRequests"; mret (default 512%Z (as_int64 n)) else mret 512%Z);
  if (max_requests <=? 0)%Z
  then Throw (InvalidArgument "State transaction.maxRequests must be positive") else Ok (u64 max_requests).

Definition load_gateway (source : yaml) : outcome state_gateway :=
  name ← at_key source "name";
  name ← required (as_string name);
  host ← at_key source "host";
  host ← required (as_string host);
  port ← at_key source "port";
  port ← required (as_uint16 port);
  state ← at_key source "status";
  let active := bool_decide (default "active" (as_string state) = "active") in
  Ok (MkStateGateway name host port (active && negb (bool_decide (host = "")) && negb (port =? 0)%Z)).

(** [None]: the node is left out. *)
Definition load_message (source : yaml) : outcome (option service_node) :=
  host ← at_key source "host";
  host ← required (as_string host);
  port ← at_key source "port";
  port ← required (as_uint16 port);
  state ← at_key source "status";
  let state := default "active" (as_string state) in
  if negb (bool_decide (state = "active")) || bool_decide (host = "") || (port =? 0)%Z then Ok None
  else
    name ← at_key source "name";
    name ← required (as_string name);
    weight ← at_key source "weight";
    shards ← at_key source "shards";
    Ok (Some (MkServiceNode name host port state (default 1%Z (as_unsigned weight)) (default 1%Z (as_unsigned shards)))).

Definition load_options (config : yaml) : outcome state_options :=
  max_requests ← load_max_requests config;
  self ← at_key config "self";
  host ← at_key self "host";
  host ← required (as_string host);
  port ← at_key self "port";
  port ← required (as_uint16 port);
  gateways ← at_key config "gateways";
  gateways ← map_outcome load_gateway (sequence gateways);
  messages ← at_key config "messages";
  messages ← map_outcome load_message (sequence messages);
  Ok (MkStateOptions host port max_requests gateways (omap id messages)).
End options.

(** ** The service *)

Section service.
Context {SEM : Semaphore}.

(** state::ConnectUserRsp *)
Record connect_user_rsp := MkConnectUserRsp { cu_ip : string; cu_port : Z; cu_node_id : string }.

Record state_service := MkStateService {
  ss_options : state_options; ss_capacity : semaphore; ss_next_gateway : Z; ss_stopping : bool }.

Definition ss_set_next (z : Z) (s : state_service) : state_service :=
  MkStateService (ss_options s) (ss_capacity s) z (ss_stopping s).
Definition ss_set_capacity (c : semaphore) (s : state_service) : state_service :=
  MkStateService (ss_options s) c (ss_next_gateway s) (ss_stopping s).

Definition state_start (o : state_options) : state_service :=
  MkStateService o (semaphore_init (so_max_requests o)) 0 false.

(** [submit]: [None] when the call was taken, with a unit it has until OnDone. *)
Definition state_submit (s : state_service) : option status * state_service :=
  if ss_stopping s then (Some (MkStatus UNAVAILABLE "State is stopping"), s)
  else
    match try_get_units (ss_capacity s) 1 with
    | None => (Some (MkStatus RESOURCE_EXHAUSTED "State request capacity exceeded"), s)
    | Some c => (None, ss_set_capacity c s)
    end.
Definition state_OnDone (s : state_service) : state_service := ss_set_capacity (signal_units (ss_capacity s) 1) s.

(** [execute]: the operation of a call, unless the service stops meanwhile. *)
Definition state_execute {A} (operation : state_service → (status * A) * state_service) (output : A)
    (s : state_service) : (status * A) * state_service :=
  if ss_stopping s then ((MkStatus UNAVAILABLE "State is stopping", output), s) else operation s.

(** The loop of PickConnectionGateway over the offsets [offset], ..., [count - 1]. *)
Fixpoint first_active (rest : nat) (gateways : list state_gateway) (start offset : Z) : option state_gateway :=
  match rest with
  | 0 => None
  | S rest =>
      match gateways !! Z.to_nat ((start + offset) mod Z.of_nat (length gateways)) with
      | None => None
      | Some node => if sg_active node then Some node else first_active rest gateways start (offset + 1)
      end
  end.

Definition empty_rsp : connect_user_rsp := MkConnectUserRsp "" 0 "".

Definition PickConnectionGateway (s : state_service) : (status * connect_user_rsp) * state_service :=
  let gateways := so_gateways (ss_options s) in
  let count := Z.of_nat (length gateways) in
  if (count =? 0)%Z then ((MkStatus UNAVAILABLE "no connection gateway configured", empty_rsp), s)
  else
    let start := (ss_next_gateway s mod count)%Z in
    let s := ss_set_next (u64 (ss_next_gateway s + 1)) s in
    match first_active (length gateways) gateways start 0 with
    | None => ((MkStatus UNAVAILABLE "no active connection gateway", empty_rsp), s)
    | Some node => ((status_ok, MkConnectUserRsp (sg_host node) (sg_port node) (sg_id node)), s)
    end.

Definition ListMessageNodes (s : state_service) : (status * list service_node) * state_service :=
  ((status_ok, so_messages (ss_options s)), s).
End service.

(** ** The Gate's client *)

Section client.
Context `{!ProtobufCodec connect_user_rsp}.

(** pick_gateway, given the status and the bytes the call was answered with
    ([None]: the buffer cannot be read). *)
Definition grpc_pick_gateway (st : status) (response : option string) : outcome (string * Z * string) :=
  if negb (is_ok st) then Throw (RuntimeError ("State RPC failed: " +:+ st_message st))
  else
    bytes ← match response with Some bytes => mret bytes | None => Throw (RuntimeError "invalid State RPC response") end;
    match ParseFromString bytes with
    | None => Throw (RuntimeError "State RPC returned no gateway")
    | Some message =>
        if bool_decide (cu_ip message = "") || (cu_port message <=? 0)%Z || (65535 <? cu_port message)%Z
        then Throw (RuntimeError "State RPC returned no gateway")
        else Ok (cu_ip message, cu_port message, cu_node_id message)
    end.
End client.

(** ** The topology that is loaded *)

Section topology.
Context `{!Yaml}.

Lemma load_gateway_usable source node :
  load_gateway source = Ok node → sg_active node = true → sg_host node ≠ "" ∧ (0 < sg_port node < 65536)%Z.
Proof.
  unfold load_gateway. intros Hl Ha. loaded Hl. injection Hl as <-. simpl in *.
  apply andb_true_iff in Ha as [[_ Hh]%andb_true_iff Hp]. apply negb_true_iff, bool_decide_eq_false in Hh.
  apply negb_true_iff, Z.eqb_neq in Hp. split; [done|].
  match goal with H : required (as_uint16 _) = Ok _ |- _ => apply required_Ok, as_uint16_range in H; lia end.
Qed.

Lemma load_message_usable source node :
  load_message source = Ok (Some node) →
  sv_status node = "active" ∧ sv_host node ≠ "" ∧ (0 < sv_port node < 65536)%Z ∧ (0 ≤ sv_shard_count node < 2 ^ 32)%Z.
Proof.
  unfold load_message. intros Hl. loaded Hl.
  destruct (_ || _) eqn:Hc; [by injection Hl|]. loaded Hl. injection Hl as <-. simpl.
  apply orb_false_iff in Hc as [[Hs Hh]%orb_false_iff Hp].
  apply negb_false_iff, bool_decide_eq_true in Hs. apply bool_decide_eq_false in Hh. apply Z.eqb_neq in Hp.
  split; [done|]. split; [done|]. split; [|apply as_unsigned_or].
  match goal with H : required (as_uint16 _) = Ok _ |- _ => apply required_Ok, as_uint16_range in H; lia end.
Qed.

Lemma load_max_requests_positive config n : load_max_requests config = Ok n → (0 < n)%Z.
Proof.
  unfold load_max_requests. intros Hl. loaded Hl. rename a0 into m. assert (is_i64 m = true) as Hm.
  { destruct (defined a); [|by injection E0 as <-]. loaded E0. injection E0 as <-.
    destruct (as_int64 _) eqn:Ei; [by eapply as_int64_range|done]. }
  destruct (Z.leb_spec m 0); [done|]. injection Hl as <-. unfold is_i64 in Hm. apply bool_decide_eq_true in Hm.
  rewrite u64_id; [done|]. unfold two63, two64 in *. lia.
Qed.

Lemma load_options_usable config o :
  load_options config = Ok o →
  (0 < so_max_requests o)%Z ∧
  (∀ node, node ∈ so_gateways o → sg_active node = true → sg_host node ≠ "" ∧ (0 < sg_port node < 65536)%Z) ∧
  (∀ node, node ∈ so_messages o →
     sv_status node = "active" ∧ sv_host node ≠ "" ∧ (0 < sv_port node < 65536)%Z ∧ (0 ≤ sv_shard_count node < 2 ^ 32)%Z).
Proof.
  unfold load_options. intros Hl. loaded Hl. injection Hl as <-. simpl. split_and!.
  - by eapply load_max_requests_positive.
  - intros node Hn Ha. match goal with H : map_outcome load_gateway _ = Ok _ |- _ =>
      destruct (map_outcome_elem _ _ _ _ H Hn) as (source & Hs) end. by eapply load_gateway_usable.
  - intros node [[m|] [Hm ?]]%list_elem_of_omap; simplify_eq/=.
    match goal with H : map_outcome load_message _ = Ok _ |- _ =>
      destruct (map_outcome_elem _ _ _ _ H Hm) as (source & Hs) end. by eapply load_message_usable.
Qed.
End topology.

(** ** The choice of a Gateway *)

Section choice.
Context {SEM : Semaphore}.

Lemma first_active_Some rest gateways start offset node :
  first_active rest gateways start offset = Some node → node ∈ gateways ∧ sg_active node = true.
Proof.
  revert offset. induction rest as [|rest IH]; intros offset; simpl; [done|].
  destruct (gateways !! _) as [n|] eqn:E; [|done]. destruct (sg_active n) eqn:Ha; [|apply IH].
  intros [= <-]. split; [by eapply list_elem_of_lookup_2|done].
Qed.

(** Over as many offsets as there are nodes the loop passes all of them. *)
Lemma first_active_None rest gateways start offset i node :
  (0 ≤ start)%Z → (0 ≤ offset)%Z → first_active rest gateways start offset = None →
  gateways !! i = Some node →
  (∃ j, (offset ≤ j < offset + Z.of_nat rest)%Z ∧ ((start + j) mod Z.of_nat (length gateways) = Z.of_nat i)%Z) →
  sg_active node = false.
Proof.
  intros Hs. revert offset. induction rest as [|rest IH]; intros offset Ho; simpl; [intros _ _ (j & ? & _); lia|].
  set (n := Z.of_nat (length gateways)). intros Hf Hi (j & Hj & Hm).
  pose proof (lookup_lt_Some _ _ _ Hi) as Hlen.
  pose proof (Z.mod_pos_bound (start + offset) n ltac:(lia)) as Hb.
  destruct (lookup_lt_is_Some_2 gateways (Z.to_nat ((start + offset) mod n))) as [x Hx]; [lia|].
  rewrite Hx in Hf. destruct (sg_active x) eqn:Ha; [done|].
  destruct (decide (j = offset)) as [->|Hne].
  - fold n in Hm. rewrite Hm, Nat2Z.id, Hi in Hx. congruence.
  - apply (IH (offset + 1)%Z); [lia|done|done|]. exists j. split; [lia|done].
Qed.

(** Some offset leads from any cursor to any node. *)
Lemma offset_to start n i : (0 < n)%Z → (0 ≤ i < n)%Z →
  ∃ j, (0 ≤ j < n)%Z ∧ ((start + j) mod n = i)%Z.
Proof.
  intros Hn Hi. exists ((i - start) mod n)%Z. split; [by apply Z.mod_pos_bound|].
  rewrite Z.add_mod_idemp_r by lia. replace (start + (i - start))%Z with i by lia. by apply Z.mod_small.
Qed.

Definition picks (m : nat) (s : state_service) : state_service := Nat.iter m (λ s, (PickConnectionGateway s).2) s.

Lemma picks_cursor m s :
  (0 ≤ ss_next_gateway s)%Z → (ss_next_gateway s + Z.of_nat m < two64)%Z → so_gateways (ss_options s) ≠ [] →
  ss_options (picks m s) = ss_options s ∧ ss_next_gateway (picks m s) = (ss_next_gateway s + Z.of_nat m)%Z.
Proof.
  intros Hn Hm Hg. induction m as [|m IH]; [split; [done|simpl; lia]|].
  destruct IH as [Ho Hc]; [lia|]. unfold picks in *. simpl. set (s' := Nat.iter m _ s) in *.
  unfold PickConnectionGateway. rewrite Ho.
  destruct (Z.eqb_spec (Z.of_nat (length (so_gateways (ss_options s)))) 0) as [E|_].
  { destruct (so_gateways (ss_options s)); [done|]. simpl in E. lia. }
  rewrite Hc, u64_id by lia.
  destruct (first_active _ _ _ _); simpl; (split; [done|lia]).
Qed.

Lemma pick_spec s :
  let gateways := so_gateways (ss_options s) in
  (0 ≤ ss_next_gateway s)%Z →
  (∃ node, node ∈ gateways ∧ sg_active node = true ∧
     (PickConnectionGateway s).1 = (status_ok, MkConnectUserRsp (sg_host node) (sg_port node) (sg_id node))) ∨
  ((∀ node, node ∈ gateways → sg_active node = false) ∧
   ∃ message, (PickConnectionGateway s).1 = (MkStatus UNAVAILABLE message, empty_rsp)).
Proof.
  intros gateways Hn. unfold PickConnectionGateway. fold gateways. set (n := Z.of_nat (length gateways)).
  destruct (Z.eqb_spec n 0) as [E|Hne].
  { right. split; [|by eexists]. intros node Hin. destruct gateways; [by apply elem_of_nil in Hin|]. done. }
  set (start := (ss_next_gateway s mod n)%Z).
  assert (0 ≤ start < n)%Z as Hs by (apply Z.mod_pos_bound; lia).
  destruct (first_active _ _ start 0) as [node|] eqn:Hf; simpl.
  - left. exists node. by apply first_active_Some in Hf as [? ?].
  - right. split; [|by eexists]. intros node [i Hi]%list_elem_of_lookup.
    eapply (first_active_None _ _ _ _ i node _ _ Hf Hi). fold n.
    pose proof (lookup_lt_Some _ _ _ Hi). destruct (offset_to start n (Z.of_nat i)) as (j & Hj & Hm); [lia|lia|].
    exists j. split; [lia|done].
    Unshelve. all: lia.
Qed.

(** The cursor at an active node picks it. *)
Lemma pick_at s i node :
  let gateways := so_gateways (ss_options s) in
  gateways !! i = Some node → sg_active node = true → (ss_next_gateway s mod Z.of_nat (length gateways) = Z.of_nat i)%Z →
  (PickConnectionGateway s).1 = (status_ok, MkConnectUserRsp (sg_host node) (sg_port node) (sg_id node)).
Proof.
  intros gateways Hi Ha Hc. pose proof (lookup_lt_Some _ _ _ Hi) as Hl. unfold PickConnectionGateway. fold gateways.
  destruct (Z.eqb_spec (Z.of_nat (length gateways)) 0); [lia|]. rewrite Hc.
  destruct (length gateways) as [|l] eqn:El; [lia|]. simpl first_active. rewrite El, Z.add_0_r.
  rewrite Z.mod_small by lia. by rewrite Nat2Z.id, Hi, Ha.
Qed.

(** C38: clients get a Gateway. With the topology as it was loaded, and at any
    cursor: when a Gateway is active, what the Gate reads of the answer is the
    address of an active one, and when none is, the Gate's call fails; the answer
    never is one the Gate would refuse. And no active Gateway is passed over: in
    as many picks as there are Gateways every active one is picked (as long as
    the cursor does not wrap). *)
Theorem clients_get_gateways `{!Yaml} `{!ProtobufCodec connect_user_rsp} config s :
  let o := ss_options s in
  let answer := (PickConnectionGateway s).1 in
  load_options config = Ok o → (0 ≤ ss_next_gateway s)%Z →
  ((∃ node, node ∈ so_gateways o ∧ sg_active node = true ∧
      (serializable answer.2 →
       grpc_pick_gateway answer.1 (Some (SerializeToString answer.2)) = Ok (sg_host node, sg_port node, sg_id node))) ∨
   ((∀ node, node ∈ so_gateways o → sg_active node = false) ∧
    ∀ response, ∃ e, grpc_pick_gateway answer.1 response = Throw e)) ∧
  (∀ i node, so_gateways o !! i = Some node → sg_active node = true →
     (ss_next_gateway s + Z.of_nat (length (so_gateways o)) ≤ two64)%Z →
     ∃ m, m < length (so_gateways o) ∧
       (PickConnectionGateway (picks m s)).1 = (status_ok, MkConnectUserRsp (sg_host node) (sg_port node) (sg_id node))).
Proof.
  intros o answer Hl Hn. destruct (load_options_usable _ _ Hl) as (_ & Hg & _). split.
  - destruct (pick_spec s Hn) as [(node & Hin & Ha & E)|(Hno & message & E)]; fold answer in E; rewrite E; simpl.
    + left. exists node. split_and!; [done|done|]. intros Hser. unfold grpc_pick_gateway, mbind, outcome_bind, mret, outcome_ret. simpl.
      rewrite parse_serialize by done. destruct (Hg _ Hin Ha) as [Hh Hp]. simpl.
      rewrite bool_decide_eq_false_2 by done. simpl.
      destruct (Z.leb_spec (sg_port node) 0); [lia|]. destruct (Z.ltb_spec 65535 (sg_port node)); [lia|]. done.
    + right. split; [done|]. intros bytes. by eexists.
  - intros i node Hi Ha Hw. pose proof (lookup_lt_Some _ _ _ Hi) as Hlt. set (n := Z.of_nat (length (so_gateways o))) in *.
    destruct (offset_to (ss_next_gateway s) n (Z.of_nat i)) as (j & Hj & Hm); [lia|lia|].
    exists (Z.to_nat j). split; [lia|].
    destruct (picks_cursor (Z.to_nat j) s) as [Ho Hc]; [lia|lia|by intros E; unfold o in Hi; rewrite E in Hi|].
    apply (pick_at _ i); rewrite ?Ho; [done|done|]. rewrite Hc, Z2Nat.id by lia. done.
Qed.
End choice.

(** ** A configuration with two Gateways, of which one is off *)

Definition demo_rsp : connect_user_rsp := MkConnectUserRsp "10.0.0.2" 8002 "gw-2".
Program Definition demo_rsp_codec : ProtobufCodec connect_user_rsp := {|
  SerializeToString _ := "rsp"; ParseFromString _ := Some demo_rsp; serializable m := m = demo_rsp |}.
Next Obligation. by intros ? ->. Qed.

Definition demo_gateway_entry (name host state : string) (port : Z) : demo_yaml :=
  YMap [("name", YText name); ("host", YText host); ("port", YNumber port); ("status", YText state)].
Definition demo_state_config : demo_yaml :=
  YMap [("self", YMap [("host", YText "state"); ("port", YNumber 9000)]);
        ("gateways", YList [demo_gateway_entry "gw-1" "10.0.0.1" "off" 8001; demo_gateway_entry "gw-2" "10.0.0.2" "active" 8002])].

Section runs.
#[local] Existing Instance counting_semaphore.
#[local] Existing Instance demo_yaml_reader.
#[local] Existing Instance demo_rsp_codec.

Definition demo_state_options : state_options :=
  MkStateOptions "state" 9000 512 [MkStateGateway "gw-1" "10.0.0.1" 8001 false; MkStateGateway "gw-2" "10.0.0.2" 8002 true] [].

Lemma clients_get_gateways_witness :
  (PickConnectionGateway (state_start demo_state_options)).1 = (status_ok, demo_rsp) ∧
  ∃ m, m < 2 ∧ (PickConnectionGateway (picks m (state_start demo_state_options))).1 = (status_ok, demo_rsp).
Proof.
  split; [vm_compute; reflexivity|].
  refine (proj2 (clients_get_gateways demo_state_config (state_start demo_state_options) _ _) 1
    (MkStateGateway "gw-2" "10.0.0.2" 8002 true) _ _ _).
  - vm_compute. reflexivity.
  - simpl. lia.
  - reflexivity.
  - reflexivity.
  - vm_compute. congruence.
Defined.
End runs.
