(* ===== verification/GateProtocol.v ===== *)
(** * The Gate's HTTP interface: gate/api/email.cc and gate/api/protocol.cc

    Decoding and validation of the requests, and the normal form of mail
    addresses. ProtoJSON is an interface; the messages of gate_api.proto are
    records whose optional fields are options. *)

From S2P Require Import Prelude Codec.
From Stdlib Require Import Ascii.

(** ** email.cc *)

Fixpoint drop_while (p : ascii → bool) (l : bytes) : bytes :=
  match l with
  | [] => []
  | c :: l' => if p c then drop_while p l' else l
  end.

(** The characters from the first to the last that is not a space. *)
Definition trim (l : bytes) : bytes := reverse (drop_while isspace (reverse (drop_while isspace l))).

Definition normalize_email (email : string) : string := text_of (tolower <$> trim (bytes_of email)).

(** [find] from a position on; [rfind]. *)
Definition find_from (c : ascii) (from : nat) (l : bytes) : option nat :=
  (λ x, from + x.1) <$> list_find (λ d, d = c) (drop from l).
Definition rfind (c : ascii) (l : bytes) : option nat :=
  (λ x, length l - S x.1) <$> list_find (λ d, d = c) (reverse l).

Definition forbidden : bytes := ["032"; "009"; "013"; "010"; "{"; "}"]%char.

Definition is_valid_email (email : string) : bool :=
  let l := bytes_of email in
  if bool_decide (email = "") || (254 <? length l)%nat || existsb (λ c, bool_decide (c ∈ forbidden)) l then false
  else
    match find_from "@" 0 l with
    | None => false
    | Some at_ =>
        if (at_ =? 0)%nat || negb (bool_decide (rfind "@" l = Some at_)) || (length l <? at_ + 3)%nat then false
        else
          match find_from "." (at_ + 2) l with
          | None => false
          | Some dot => (dot + 1 <? length l)%nat
          end
    end.

(** ** Messages (gate_api.proto) *)

Module gate_api.
Record verification_request := MkVerificationRequest { vr_email : option string }.
Record verification_response := MkVerificationResponse {
  vp_error : option Z; vp_email : option string; vp_issued : option bool; vp_code : option string }.
Record sign_in_request := MkSignInRequest { sir_username : option string; sir_password : option string }.
Record sign_in_response := MkSignInResponse {
  sip_error : option Z; sip_init : option Z; sip_uid : option Z; sip_ip : option string; sip_port : option Z;
  sip_gateway_id : option string; sip_chat_token : option string; sip_chat_token_expires_in : option Z }.
Record gateway_request := MkGatewayRequest { gr_uid : option Z }.
Record gateway_response := MkGatewayResponse { gp_error : option Z; gp_host : option string; gp_port : option Z }.
(** sign_up_request and reset_password_request have the same fields. *)
Record account_request := MkAccountRequest {
  ar_username : option string; ar_password : option string; ar_email : option string; ar_verifycode : option string }.
Record sign_up_response := MkSignUpResponse {
  sup_error : option Z; sup_uid : option Z; sup_username : option string; sup_email : option string }.
Record reset_password_response := MkResetPasswordResponse { rpp_error : option Z; rpp_username : option string }.
End gate_api.
Import gate_api.

(** google::protobuf::util::JsonStringToMessage and MessageToJsonString. *)
Class ProtoJson (A : Type) := {
  json_parse : string → option A;
  json_print : A → option string
}.

(** ** protocol.cc *)

Definition text (s : option string) : string := default "" s.

Definition credentials (username password : string) : bool :=
  negb (bool_decide (username = "")) && (String.length username <=? 64)%nat &&
  negb (bool_decide (password = "")) && (String.length password <=? 128)%nat.

Definition is_digit (c : ascii) : bool := let n := N_of_ascii c in ((48 <=? n) && (n <=? 57))%N.

Definition set_email (e : string) (q : account_request) : account_request :=
  MkAccountRequest (ar_username q) (ar_password q) (Some e) (ar_verifycode q).

(** validate_verification: the error, and the request with its address normalised. *)
Definition validate_verification (q : account_request) : Z * account_request :=
  if negb (bool_decide (is_Some (ar_username q))) || negb (bool_decide (is_Some (ar_password q))) ||
     negb (bool_decide (is_Some (ar_email q))) || negb (bool_decide (is_Some (ar_verifycode q))) ||
     negb (credentials (text (ar_username q)) (text (ar_password q)))
  then (error_code JsonParser, q)
  else
    let q := set_email (normalize_email (text (ar_email q))) q in
    if negb (is_valid_email (text (ar_email q))) then (error_code EmailNotMatch, q)
    else
      let code := bytes_of (text (ar_verifycode q)) in
      if negb (length code =? 6)%nat || negb (forallb is_digit code) then (error_code VerificationCodeInvalid, q)
      else (0%Z, q).

Section decode.
Context `{!ProtoJson verification_request} `{!ProtoJson sign_in_request} `{!ProtoJson gateway_request}
  `{!ProtoJson account_request}.

Definition decode_verification (body : string) : Z * verification_request :=
  match json_parse body with
  | Some (MkVerificationRequest (Some email)) =>
      let e := normalize_email email in
      (if is_valid_email e then 0%Z else error_code EmailNotMatch, MkVerificationRequest (Some e))
  | Some q => (error_code JsonParser, q)
  | None => (error_code JsonParser, MkVerificationRequest None)
  end.

Definition decode_sign_in (body : string) : Z * sign_in_request :=
  match json_parse body with
  | Some q =>
      if negb (bool_decide (is_Some (sir_username q))) || negb (bool_decide (is_Some (sir_password q))) ||
         negb (credentials (text (sir_username q)) (text (sir_password q)))
      then (error_code JsonParser, q) else (0%Z, q)
  | None => (error_code JsonParser, MkSignInRequest None None)
  end.

Definition decode_gateway (body : string) : Z * gateway_request :=
  match json_parse body with
  | Some (MkGatewayRequest (Some uid)) =>
      (if (0 <? uid)%Z then 0%Z else error_code UidInvalid, MkGatewayRequest (Some uid))
  | Some q => (error_code JsonParser, q)
  | None => (error_code JsonParser, MkGatewayRequest None)
  end.

(** decode of sign_up_request and of reset_password_request. *)
Definition decode_account (body : string) : Z * account_request :=
  match json_parse body with
  | Some q => validate_verification q
  | None => (error_code JsonParser, MkAccountRequest None None None None)
  end.
End decode.

(** ** Addresses have a normal form *)

Lemma isspace_tolower c : isspace (tolower c) = isspace c.
Proof. by destruct c as [[] [] [] [] [] [] [] []]. Qed.
Lemma tolower_tolower c : tolower (tolower c) = tolower c.
Proof. by destruct c as [[] [] [] [] [] [] [] []]. Qed.

Lemma drop_while_map l : drop_while isspace (tolower <$> l) = tolower <$> drop_while isspace l.
Proof. induction l as [|c l IH]; simpl; [done|]. rewrite isspace_tolower. by destruct (isspace c). Qed.

Lemma drop_while_idem p l : drop_while p (drop_while p l) = drop_while p l.
Proof. induction l as [|c l IH]; simpl; [done|]. destruct (p c) eqn:E; simpl; [done|]. by rewrite E. Qed.

Lemma drop_while_suffix p l : drop_while p l `suffix_of` l.
Proof.
  induction l as [|c l IH]; simpl; [done|]. destruct (p c); [|done]. by apply suffix_cons_r.
Qed.

Lemma trim_map l : trim (tolower <$> l) = tolower <$> trim l.
Proof.
  unfold trim. rewrite drop_while_map, <- fmap_reverse, drop_while_map. by rewrite fmap_reverse.
Qed.

Lemma trim_idem l : trim (trim l) = trim l.
Proof.
  assert (drop_while isspace (trim l) = trim l) as Hd.
  { unfold trim. set (m := drop_while isspace l).
    destruct (drop_while_suffix isspace (reverse m)) as [pre Hpre].
    assert (m = reverse (drop_while isspace (reverse m)) ++ reverse pre) as Hm.
    { by rewrite <- reverse_app, <- Hpre, reverse_involutive. }
    destruct (reverse (drop_while isspace (reverse m))) as [|c t]; [done|].
    assert (drop_while isspace m = m) as Hi by apply drop_while_idem. rewrite Hm in Hi. simpl in *.
    destruct (isspace c) eqn:E; [|done]. exfalso.
    pose proof (suffix_length _ _ (drop_while_suffix isspace (t ++ reverse pre))) as Hl. rewrite Hi in Hl. simpl in Hl. lia. }
  unfold trim at 1. rewrite Hd. unfold trim. by rewrite reverse_involutive, drop_while_idem.
Qed.

Lemma normalize_email_idem e : normalize_email (normalize_email e) = normalize_email e.
Proof.
  unfold normalize_email. rewrite String.list_ascii_of_string_of_list_ascii, trim_map, trim_idem.
  f_equal. rewrite <- list_fmap_compose. apply list_fmap_ext. intros i c _. apply tolower_tolower.
Qed.

Lemma nonempty_length (s : string) : negb (bool_decide (s = "")) = true → 0 < String.length s.
Proof. destruct s; simpl; [done|lia]. Qed.

(** What the Gate passes to its account handlers: a sign-up or reset
    request that decodes without an error has every field, a user name and a
    password within their limits, a code of six digits, and a valid address
    that is its own normal form and has no space or brace (so that it names its
    own Redis keys). The address is the normal form of the one that was sent. *)
Theorem decoded_account_wellformed `{!ProtoJson account_request} body q :
  decode_account body = (0%Z, q) →
  ∃ sent username password e code,
    json_parse body = Some sent ∧ q = MkAccountRequest (Some username) (Some password) (Some e) (Some code) ∧
    ar_username sent = Some username ∧ ar_password sent = Some password ∧
    e = normalize_email (text (ar_email sent)) ∧ normalize_email e = e ∧ is_valid_email e = true ∧
    (∀ c, c ∈ bytes_of e → c ∉ forbidden) ∧
    0 < String.length username ≤ 64 ∧ 0 < String.length password ≤ 128 ∧
    String.length code = 6 ∧ forallb is_digit (bytes_of code) = true.
Proof.
  unfold decode_account. destruct (json_parse body) as [[u p e c]|]; [|done].
  unfold validate_verification. simpl.
  destruct u as [u|], p as [p|], e as [e|], c as [c|]; try done. simpl.
  destruct (credentials u p) eqn:Hc; simpl; [|done].
  destruct (is_valid_email (normalize_email e)) eqn:He; simpl; [|done].
  destruct (Nat.eqb_spec (length (bytes_of c)) 6) as [Hl|]; simpl; [|done].
  destruct (forallb is_digit (bytes_of c)) eqn:Hd; simpl; [|done]. intros [= <-].
  unfold credentials in Hc. repeat apply andb_true_iff in Hc as [Hc ?].
  exists (MkAccountRequest (Some u) (Some p) (Some e) (Some c)), u, p, (normalize_email e), c.
  split_and!; try done.
  - apply normalize_email_idem.
  - intros x Hx Hf. unfold is_valid_email in He.
    destruct (existsb (λ c, bool_decide (c ∈ forbidden)) (bytes_of (normalize_email e))) eqn:Hex.
    { by rewrite orb_true_r in He. }
    apply not_true_iff_false in Hex. apply Hex, existsb_exists. exists x.
    split; [by apply list_elem_of_In|by apply bool_decide_eq_true].
  - by apply nonempty_length.
  - by apply Nat.leb_le.
  - by apply nonempty_length.
  - by apply Nat.leb_le.
  - by rewrite <- bytes_length.
Qed.

Definition demo_account : account_request :=
  MkAccountRequest (Some "ann") (Some "secret") (Some " Ann@Example.org ") (Some "123456").
Definition demo_json : ProtoJson account_request := {|
  json_parse body := if bool_decide (body = "{}") then Some demo_account else None;
  json_print _ := None |}.

Lemma decoded_account_wellformed_witness :
  normalize_email "ann@example.org" = "ann@example.org" ∧
  ∃ username, Some "ann" = Some username ∧ 0 < String.length username ≤ 64.
Proof.
  destruct (@decoded_account_wellformed demo_json "{}"
    (MkAccountRequest (Some "ann") (Some "secret") (Some "ann@example.org") (Some "123456")))
    as (s & u & p & e & c & Hs & Hq & _ & _ & _ & He & _ & _ & Hu & _); [vm_compute; reflexivity|].
  simplify_eq. split; [exact He|]. eexists. split; [reflexivity|exact Hu].
Defined.
