(* ===== verification/Options.v ===== *)
(** * The options of the services

    What each service reads from its configuration at start, with the checks it
    makes: gateway/io/options.cc, message/io/options.cc, gate/io/options.cc,
    file/options.cc and common/include/GrpcSecurity.h. The environment, the files
    of credentials and the random instance id are parameters. *)

From S2P Require Import Prelude Decimal Yaml Seastar Queue GateProtocol.
From Stdlib Require Import Ascii.

Section options.
Context `{!Yaml} (read_file : string → option string) (getenv : string → option string).

(** ** Fields *)

Definition text_at (n : yaml) (key : string) : outcome string := c ← at_key n key; required (as_string c).
Definition text_or (n : yaml) (key fallback : string) : outcome string :=
  c ← at_key n key; mret (default fallback (as_string c)).
Definition port_at (n : yaml) (key : string) : outcome Z := c ← at_key n key; required (as_uint16 c).
Definition port_or (n : yaml) (key : string) (fallback : Z) : outcome Z :=
  c ← at_key n key; mret (default fallback (as_uint16 c)).
Definition unsigned_at (n : yaml) (key : string) : outcome Z := c ← at_key n key; required (as_unsigned c).
Definition unsigned_or (n : yaml) (key : string) (fallback : Z) : outcome Z :=
  c ← at_key n key; mret (default fallback (as_unsigned c)).
Definition size_or (n : yaml) (key : string) (fallback : Z) : outcome Z :=
  c ← at_key n key; mret (default fallback (as_size c)).
Definition int_or (n : yaml) (key : string) (fallback : Z) : outcome Z :=
  c ← at_key n key; mret (default fallback (as_int c)).
Definition bool_or (n : yaml) (key : string) (fallback : bool) : outcome bool :=
  c ← at_key n key; mret (default fallback (as_bool c)).

Definition unless (condition : bool) (e : exn) : outcome unit := if condition then Throw e else Ok tt.

(** ** Parts the services share *)

(** io::endpoint, io::mysql_options *)
Record endpoint := MkEndpoint { ep_host : string; ep_port : Z }.
Record mysql_options := MkMysqlOptions {
  my_address : endpoint; my_user : string; my_password : string; my_schema : string; my_ca_file : string }.

Definition load_endpoint (n : yaml) : outcome endpoint :=
  host ← text_at n "host"; port ← port_at n "port"; mret (MkEndpoint host port).

Definition load_mysql (server : yaml) : outcome mysql_options :=
  mysql ← at_key server "mysql";
  host ← text_at mysql "host";
  port ← port_or mysql "port" 3306;
  user ← text_at mysql "user";
  password ← text_at mysql "password";
  schema ← text_at mysql "schema";
  ca_file ← text_or mysql "caFile" "";
  mret (MkMysqlOptions (MkEndpoint host port) user password schema ca_file).

(** queue_limits, as unsigned integers *)
Record limits := MkQueueOptions { q_pending : Z; q_bytes : Z; q_concurrency : Z }.

(** They are handed to the constructor of the queue, for Gate as loaded: only the
    constructor checks them. *)
Definition queue_limits_of (l : limits) : queue_limits :=
  MkLimits (Z.to_nat (q_pending l)) (q_bytes l) (Z.to_nat (q_concurrency l)).

Definition load_queue (server : yaml) (fallback : limits) : outcome limits :=
  queue ← at_key server "io";
  if defined queue then
    pending ← size_or queue "maxPending" (q_pending fallback);
    bytes ← size_or queue "maxBytes" (q_bytes fallback);
    concurrency ← unsigned_or queue "concurrency" (q_concurrency fallback);
    mret (MkQueueOptions pending bytes concurrency)
  else mret fallback.

Definition load_requests (server : yaml) (requests bytes : Z) : outcome (Z * Z) :=
  transaction ← at_key server "transaction";
  if defined transaction then
    requests ← size_or transaction "maxRequests" requests;
    bytes ← size_or transaction "maxBytes" bytes;
    mret (requests, bytes)
  else mret (requests, bytes).

Definition zero (z : Z) : bool := (z =? 0)%Z.

(** ** GrpcSecurity.h *)

Record security := MkSecurity {
  sc_environment : string; sc_mode : string; sc_root : string; sc_chain : string; sc_key : string }.
Definition Mtls (s : security) : bool := bool_decide (sc_mode s = "mtls").

Definition security_text (source : yaml) (key fallback : string) : outcome string :=
  c ← at_key source key; if defined c then required (as_string c) else mret fallback.

Definition LoadGrpcSecurityConfig (server : yaml) : outcome security :=
  source ← at_key server "transportSecurity";
  result ←
    (if defined source then
       environment ← security_text source "environment" "development";
       mode ← security_text source "mode" "insecure";
       root ← security_text source "rootCertificates" "";
       chain ← security_text source "certificateChain" "";
       key ← security_text source "privateKey" "";
       mret (MkSecurity environment mode root chain key)
     else mret (MkSecurity "development" "insecure" "" "" ""));
  unless (bool_decide (sc_environment result = "production") && negb (bool_decide (sc_mode result = "mtls")))
    (RuntimeError "production Gateway-Message transport requires mTLS") ;;
  unless (negb (bool_decide (sc_mode result = "insecure")) && negb (bool_decide (sc_mode result = "mtls")))
    (RuntimeError ("unsupported gRPC transport security mode: " +:+ sc_mode result)) ;;
  unless (Mtls result &&
          (bool_decide (sc_root result = "") || bool_decide (sc_chain result = "") || bool_decide (sc_key result = "")))
    (RuntimeError "mTLS requires rootCertificates, certificateChain and privateKey") ;;
  mret result.

Definition ReadCredentialFile (path : string) : outcome string :=
  match read_file path with
  | Some content => Ok content
  | None => Throw (RuntimeError ("cannot open gRPC credential file: " +:+ path))
  end.

(** What the credentials are built of. The server asks for and verifies the
    client's certificate. *)
Inductive credentials := InsecureCredentials | SslCredentials (root chain key : string).

Definition BuildChannelCredentials (config : security) : outcome credentials :=
  if negb (Mtls config) then mret InsecureCredentials
  else
    root ← ReadCredentialFile (sc_root config);
    chain ← ReadCredentialFile (sc_chain config);
    key ← ReadCredentialFile (sc_key config);
    mret (SslCredentials root chain key).
Definition BuildServerCredentials (config : security) : outcome credentials :=
  if negb (Mtls config) then mret InsecureCredentials
  else
    root ← ReadCredentialFile (sc_root config);
    key ← ReadCredentialFile (sc_key config);
    chain ← ReadCredentialFile (sc_chain config);
    mret (SslCredentials root chain key).

(** ** Redis *)

Record redis_options := MkRedisOptions {
  ro_master_name : string; ro_password : string; ro_sentinel_password : string; ro_sentinels : list endpoint }.

Definition load_redis (redis : yaml) : outcome redis_options :=
  master_name ← text_at redis "masterName";
  password ← text_or redis "password" "";
  sentinel_password ← text_or redis "sentinelPassword" "";
  sentinels ← at_key redis "sentinels";
  sentinels ← map_outcome load_endpoint (sequence sentinels);
  mret (MkRedisOptions master_name password sentinel_password sentinels).

Definition no_sentinel (r : redis_options) : bool := match ro_sentinels r with [] => true | _ => false end.

(** ** Gateway *)

Record gateway_config := MkGatewayConfig {
  gc_gateway_id : string; gc_instance_id : string; gc_port : Z; gc_command_rate_limit : Z; gc_mysql : mysql_options;
  gc_state_rpc : endpoint; gc_redis : redis_options; gc_queue : limits;
  gc_max_requests : Z; gc_max_request_bytes : Z; gc_max_writes : Z; gc_max_write_bytes : Z;
  gc_max_pending : Z; gc_max_pending_bytes : Z; gc_credentials : credentials }.

Definition load_transport (server : yaml) (writes write_bytes pending pending_bytes : Z) : outcome (Z * Z * Z * Z) :=
  transport ← at_key server "transport";
  if defined transport then
    writes ← size_or transport "maxWrites" writes;
    write_bytes ← size_or transport "maxWriteBytes" write_bytes;
    pending ← size_or transport "maxPending" pending;
    pending_bytes ← size_or transport "maxPendingBytes" pending_bytes;
    mret (writes, write_bytes, pending, pending_bytes)
  else mret (writes, write_bytes, pending, pending_bytes).

(** [uuid]: the random instance id. *)
Definition load_gateway_options (uuid : string) (server : yaml) : outcome gateway_config :=
  self ← at_key server "self";
  gateway_id ← text_at self "name";
  port ← port_at self "port";
  command_rate_limit ← unsigned_or self "commandRateLimit" 100;
  mysql ← load_mysql server;
  state_rpc ← at_key server "stateRPC";
  state_rpc ← load_endpoint state_rpc;
  redis ← at_key server "redis";
  redis ← load_redis redis;
  unless (no_sentinel redis) (InvalidArgument "Redis Sentinel is required") ;;
  '(max_requests, max_request_bytes) ← load_requests server 512 (64 * 1024 * 1024);
  queue ← load_queue server (MkQueueOptions 512 (64 * 1024 * 1024) 16);
  '(max_writes, max_write_bytes, max_pending, max_pending_bytes) ←
    load_transport server 65536 (512 * 1024 * 1024) 32768 (256 * 1024 * 1024);
  unless (zero max_requests || zero max_request_bytes || zero max_writes || zero max_write_bytes || zero max_pending ||
          zero max_pending_bytes || zero (q_pending queue) || zero (q_bytes queue) || zero (q_concurrency queue))
    (InvalidArgument "Gateway capacities must be positive") ;;
  security ← LoadGrpcSecurityConfig server;
  message_credentials ← BuildChannelCredentials security;
  mret (MkGatewayConfig gateway_id uuid port command_rate_limit mysql state_rpc redis queue max_requests
          max_request_bytes max_writes max_write_bytes max_pending max_pending_bytes message_credentials).

(** ** Message *)

Record message_config := MkMessageConfig {
  mc_node_id : string; mc_listener : endpoint; mc_shards : Z; mc_mtls : bool; mc_credentials : credentials;
  mc_mysql : mysql_options; mc_ca_pem : string; mc_file_rpc : endpoint; mc_redis : redis_options; mc_machine_id : Z;
  mc_queue : limits; mc_max_requests : Z; mc_max_request_bytes : Z; mc_max_writes : Z; mc_max_write_bytes : Z }.

Definition load_writes (server : yaml) (writes write_bytes : Z) : outcome (Z * Z) :=
  transport ← at_key server "transport";
  if defined transport then
    writes ← size_or transport "maxWrites" writes;
    write_bytes ← size_or transport "maxWriteBytes" write_bytes;
    mret (writes, write_bytes)
  else mret (writes, write_bytes).

Definition load_message_options (server : yaml) : outcome message_config :=
  self ← at_key server "self";
  node_id ← text_at self "name";
  listener ← load_endpoint self;
  shards ← unsigned_or self "shards" 1;
  unless (zero shards || zero (ep_port listener) || (65535 <? ep_port listener + shards - 1)%Z)
    (InvalidArgument "invalid Message shard port range") ;;
  security ← LoadGrpcSecurityConfig server;
  server_credentials ← BuildServerCredentials security;
  mysql ← load_mysql server;
  ca_pem ← (if bool_decide (my_ca_file mysql = "") then mret "" else ReadCredentialFile (my_ca_file mysql));
  file_rpc ← at_key server "file";
  file_rpc ← load_endpoint file_rpc;
  redis ← at_key server "redis";
  master_name ← text_at redis "masterName";
  password ← text_or redis "password" "";
  sentinel_password ← text_or redis "sentinelPassword" "";
  machine_id ← unsigned_at redis "machineId";
  sentinels ← at_key redis "sentinels";
  sentinels ← map_outcome load_endpoint (sequence sentinels);
  let redis := MkRedisOptions master_name password sentinel_password sentinels in
  unless (no_sentinel redis || (1023 <? machine_id)%Z)
    (InvalidArgument "Message requires Redis Sentinel and a 10-bit machine ID") ;;
  '(max_requests, max_request_bytes) ← load_requests server 512 (64 * 1024 * 1024);
  queue ← load_queue server (MkQueueOptions 512 (64 * 1024 * 1024) 16);
  '(max_writes, max_write_bytes) ← load_writes server 32768 (256 * 1024 * 1024);
  unless (zero max_requests || zero max_request_bytes || zero max_writes || zero max_write_bytes ||
          zero (q_pending queue) || zero (q_bytes queue) || zero (q_concurrency queue))
    (InvalidArgument "Message capacities must be positive") ;;
  mret (MkMessageConfig node_id listener shards (Mtls security) server_credentials mysql ca_pem file_rpc redis
          machine_id queue max_requests max_request_bytes max_writes max_write_bytes).

(** ** File

    [canonical]: the directory of the executable that a relative root is under. *)

Record file_config := MkFileConfig { fc_listener : endpoint; fc_root : string; fc_max_requests : Z; fc_max_bytes : Z }.

Definition is_relative (path : string) : bool :=
  match path with String c _ => negb (bool_decide (c = "/"%char)) | "" => true end.

Definition load_limits (config : yaml) : outcome (Z * Z) :=
  transaction ← at_key config "transaction";
  '(requests, bytes) ←
    (if defined transaction then
       requests ← at_key transaction "maxRequests";
       bytes ← at_key transaction "maxBytes";
       mret (default 64%Z (as_int64 requests), default (64 * 1024 * 1024)%Z (as_int64 bytes))
     else mret (64, 64 * 1024 * 1024)%Z);
  unless ((requests <=? 0)%Z || (bytes <=? 0)%Z)
    (InvalidArgument "File transaction.maxRequests and maxBytes must be positive") ;;
  mret (u64 requests, u64 bytes).

Definition load_file_options (canonical : string) (config : yaml) : outcome file_config :=
  self ← at_key config "self";
  listener ← load_endpoint self;
  root ← text_at self "storageRoot";
  '(requests, bytes) ← load_limits config;
  mret (MkFileConfig listener (if is_relative root then canonical +:+ "/" +:+ root else root) requests bytes).

(** ** Gate *)

Definition environment (name value : string) : string := default value (getenv name).
Definition environment_bool (name : string) (value : bool) : outcome bool :=
  let configured := environment name (if value then "true" else "false") in
  if bool_decide (configured ∈ ["1"; "true"; "on"]) then Ok true
  else if bool_decide (configured ∈ ["0"; "false"; "off"]) then Ok false
  else Throw (InvalidArgument ("invalid boolean: " +:+ name)).

(** std::stoul: white space, a sign, and the digits that follow; a negative
    number wraps. *)
Definition digits_value (s : string) : outcome Z :=
  match s with
  | String c _ =>
      match digit_of c with
      | Some _ =>
          let n := Z.of_N (digit_prefix 0 s) in if is_u64 n then Ok n else Throw (LogicError "stoul: out of range")
      | None => Throw (InvalidArgument "stoul")
      end
  | "" => Throw (InvalidArgument "stoul")
  end.
Definition stoul (s : string) : outcome Z :=
  match drop_while isspace (bytes_of s) with
  | c :: rest =>
      if bool_decide (c = "-"%char) then n ← digits_value (text_of rest); mret (u64 (- n))
      else if bool_decide (c = "+"%char) then digits_value (text_of rest)
      else digits_value (text_of (c :: rest))
  | [] => Throw (InvalidArgument "stoul")
  end.

Record smtp_address := MkSmtp { smtp_host : string; smtp_port : Z; smtp_implicit_tls : bool }.

Definition unwanted : bytes := ["/"; "013"; "010"; "@"]%char.

Definition parse_smtp_url (url : string) : outcome smtp_address :=
  let implicit_tls := String.prefix "smtps://" url in
  unless (negb implicit_tls && negb (String.prefix "smtp://" url))
    (InvalidArgument "SMTP URL must use smtp:// or smtps://") ;;
  let authority := drop (if implicit_tls then 8 else 7) (bytes_of url) in
  let colon := rfind ":" authority in
  let host := match colon with None => authority | Some n => take n authority end in
  port ←
    match colon with
    | None => mret (if implicit_tls then 465 else 587)%Z
    | Some n => stoul (text_of (drop (n + 1) authority))
    end;
  unless (bool_decide (host = []) || zero port || (65535 <? port)%Z ||
          existsb (λ c, bool_decide (c ∈ unwanted)) authority)
    (InvalidArgument "invalid SMTP authority") ;;
  mret (MkSmtp (text_of host) port implicit_tls).

Record verification_options := MkVerificationOptions {
  vo_max_attempts : Z; vo_code_ttl_seconds : Z; vo_cooldown_seconds : Z; vo_expose_code : bool }.

Definition load_verification (verification : yaml) : outcome verification_options :=
  if defined verification then
    max_attempts ← int_or verification "maxAttempts" 5;
    code_ttl ← int_or verification "codeTtlSeconds" 180;
    cooldown ← int_or verification "resendCooldownSeconds" 60;
    expose ← bool_or verification "exposeCodeInResponse" false;
    mret (MkVerificationOptions max_attempts code_ttl cooldown expose)
  else mret (MkVerificationOptions 5 180 60 false).

Record email_options := MkEmailOptions {
  eo_enabled : bool; eo_user : string; eo_password : string; eo_ca_file : string; eo_url : string }.

(** Without a verification node the email node is empty, which has no children. *)
Definition load_email (verification : yaml) : outcome email_options :=
  let url := "smtps://smtp.qq.com:465" in
  email ← (if defined verification then at_key verification "email" else mret verification);
  if defined email then
    enabled ← bool_or email "enabled" false;
    user ← text_or email "username" "";
    password ← text_or email "password" "";
    ca_file ← text_or email "caFile" "";
    url ← text_or email "smtpUrl" url;
    mret (MkEmailOptions enabled user password ca_file url)
  else mret (MkEmailOptions false "" "" "" url).

Record gate_config := MkGateConfig {
  gt_mysql : mysql_options; gt_state_rpc : endpoint; gt_machine_id : Z; gt_redis : redis_options;
  gt_verification : verification_options; gt_email : email_options; gt_smtp : smtp_address; gt_queue : limits;
  gt_max_requests : Z; gt_max_request_bytes : Z }.

(** The variables IMM_VERIFY_* take precedence over the configuration. *)
Definition load_gate_options (server : yaml) : outcome gate_config :=
  mysql ← load_mysql server;
  state_rpc ← at_key server "stateRPC";
  state_rpc ← load_endpoint state_rpc;
  redis ← at_key server "redis";
  machine_id ← unsigned_at redis "machineId";
  unless (1023 <? machine_id)%Z (InvalidArgument "Redis machineId must be at most 1023") ;;
  redis ← load_redis redis;
  unless (no_sentinel redis) (InvalidArgument "at least one Redis Sentinel is required") ;;
  verification ← at_key server "verification";
  v ← load_verification verification;
  e ← load_email verification;
  enabled ← environment_bool "IMM_VERIFY_SEND_EMAIL" (eo_enabled e);
  expose ← environment_bool "IMM_VERIFY_EXPOSE_CODE" (vo_expose_code v);
  let user := environment "IMM_VERIFY_EMAIL_USER" (eo_user e) in
  let password := environment "IMM_VERIFY_EMAIL_PASS" (eo_password e) in
  let url := environment "IMM_VERIFY_SMTP_URL" (eo_url e) in
  smtp ← parse_smtp_url url;
  unless ((vo_max_attempts v <=? 0)%Z || (vo_code_ttl_seconds v <=? 0)%Z || (vo_cooldown_seconds v <=? 0)%Z)
    (InvalidArgument "verification TTL and cooldown must be positive") ;;
  queue ← load_queue server (MkQueueOptions 128 (1024 * 1024) 4);
  '(max_requests, max_request_bytes) ← load_requests server 128 (16 * 1024 * 1024);
  unless (zero max_requests || zero max_request_bytes)
    (InvalidArgument "transaction admission limits must be positive") ;;
  mret (MkGateConfig mysql state_rpc machine_id redis
          (MkVerificationOptions (vo_max_attempts v) (vo_code_ttl_seconds v) (vo_cooldown_seconds v) expose)
          (MkEmailOptions enabled user password (eo_ca_file e) url) smtp queue max_requests max_request_bytes).

(** ** What a loaded configuration satisfies *)

Lemma unless_Ok b e u : unless b e = Ok u → b = false.
Proof. by destruct b. Qed.

Ltac checked :=
  repeat match goal with
  | H : unless _ _ = Ok _ |- _ => apply unless_Ok in H
  | H : _ || _ = false |- _ => apply orb_false_iff in H as [? ?]
  | H : zero _ = false |- _ => apply Z.eqb_neq in H
  | H : (_ <? _)%Z = false |- _ => apply Z.ltb_ge in H
  | H : (_ <=? _)%Z = false |- _ => apply Z.leb_gt in H
  end.

Lemma size_or_range n key fallback z : (0 ≤ fallback)%Z → size_or n key fallback = Ok z → (0 ≤ z)%Z.
Proof.
  intros Hf Hz. unfold size_or in Hz. loaded Hz. injection Hz as <-. destruct (as_size _) eqn:Ez; [|done].
  apply as_size_range, bool_decide_eq_true in Ez. simpl. lia.
Qed.
Lemma unsigned_or_range n key fallback z :
  (0 ≤ fallback < 2 ^ 32)%Z → unsigned_or n key fallback = Ok z → (0 ≤ z < 2 ^ 32)%Z.
Proof.
  intros Hf Hz. unfold unsigned_or in Hz. loaded Hz. injection Hz as <-. destruct (as_unsigned _) eqn:Ez; [|done].
  by apply as_unsigned_range in Ez.
Qed.
Lemma unsigned_at_range n key z : unsigned_at n key = Ok z → (0 ≤ z < 2 ^ 32)%Z.
Proof. intros Hz. unfold unsigned_at in Hz. loaded Hz. by eapply as_unsigned_range, required_Ok. Qed.
Lemma load_endpoint_range n e : load_endpoint n = Ok e → (0 ≤ ep_port e < 65536)%Z.
Proof.
  intros He. unfold load_endpoint, port_at in He. loaded He. injection He as <-. simpl.
  match goal with H : _ ≫= _ = Ok _ |- _ => loaded H; by eapply as_uint16_range, required_Ok end.
Qed.

Ltac ranged := first [by eapply size_or_range; [|eassumption] | by eapply unsigned_or_range; [|eassumption]].

Lemma load_queue_range server d q :
  (0 ≤ q_pending d)%Z → (0 ≤ q_bytes d)%Z → (0 ≤ q_concurrency d < 2 ^ 32)%Z → load_queue server d = Ok q →
  (0 ≤ q_pending q)%Z ∧ (0 ≤ q_bytes q)%Z ∧ (0 ≤ q_concurrency q < 2 ^ 32)%Z.
Proof.
  intros Hp Hb Hc Hq. unfold load_queue in Hq. loaded Hq. destruct (defined _); [|by injection Hq as <-].
  loaded Hq. injection Hq as <-. simpl.
  split; [ranged|]. split; [ranged|ranged].
Qed.
Lemma load_requests_range server n b p : (0 ≤ n)%Z → (0 ≤ b)%Z → load_requests server n b = Ok p → (0 ≤ p.1)%Z ∧ (0 ≤ p.2)%Z.
Proof.
  intros Hn Hb Hp. unfold load_requests in Hp. loaded Hp. destruct (defined _); [|by injection Hp as <-].
  loaded Hp. injection Hp as <-. simpl. split; ranged.
Qed.
Lemma load_writes_range server n b p : (0 ≤ n)%Z → (0 ≤ b)%Z → load_writes server n b = Ok p → (0 ≤ p.1)%Z ∧ (0 ≤ p.2)%Z.
Proof.
  intros Hn Hb Hp. unfold load_writes in Hp. loaded Hp. destruct (defined _); [|by injection Hp as <-].
  loaded Hp. injection Hp as <-. simpl. split; ranged.
Qed.
Lemma load_transport_range server a b c d p :
  (0 ≤ a)%Z → (0 ≤ b)%Z → (0 ≤ c)%Z → (0 ≤ d)%Z → load_transport server a b c d = Ok p →
  (0 ≤ p.1.1.1)%Z ∧ (0 ≤ p.1.1.2)%Z ∧ (0 ≤ p.1.2)%Z ∧ (0 ≤ p.2)%Z.
Proof.
  intros Ha Hb Hc Hd Hp. unfold load_transport in Hp. loaded Hp. destruct (defined _); [|by injection Hp as <-].
  loaded Hp. injection Hp as <-. simpl. split_and!; ranged.
Qed.

(** Production means certificates on both sides. *)
Lemma security_checked server s :
  LoadGrpcSecurityConfig server = Ok s →
  (sc_environment s = "production" → Mtls s = true) ∧
  (Mtls s = true → sc_root s ≠ "" ∧ sc_chain s ≠ "" ∧ sc_key s ≠ "").
Proof.
  intros Hs. unfold LoadGrpcSecurityConfig in Hs. apply outcome_bind_Ok in Hs as (source & _ & Hs).
  apply outcome_bind_Ok in Hs as (r & _ & Hs). loaded Hs. injection Hs as ->. checked. split.
  - intros Hp. destruct (bool_decide_reflect (sc_mode s = "mtls")) as [Hm|Hm]; [by apply bool_decide_eq_true|].
    match goal with H : _ && negb false = false |- _ => rewrite bool_decide_eq_true_2 in H by done; done end.
  - intros Hm. rewrite Hm in *. simpl in *. checked.
    repeat match goal with H : bool_decide _ = false |- _ => apply bool_decide_eq_false in H end. done.
Qed.
Lemma production_channel s c :
  Mtls s = true → BuildChannelCredentials s = Ok c → ∃ root chain key, c = SslCredentials root chain key.
Proof. intros Hm Hc. unfold BuildChannelCredentials in Hc. rewrite Hm in Hc. simpl in Hc. loaded Hc. injection Hc as <-. eauto. Qed.
Lemma production_server s c :
  Mtls s = true → BuildServerCredentials s = Ok c → ∃ root chain key, c = SslCredentials root chain key.
Proof. intros Hm Hc. unfold BuildServerCredentials in Hc. rewrite Hm in Hc. simpl in Hc. loaded Hc. injection Hc as <-. eauto. Qed.

Definition production (server : yaml) : Prop :=
  ∀ s, LoadGrpcSecurityConfig server = Ok s → sc_environment s = "production".

Definition limits_positive (q : limits) : Prop := (0 < q_pending q)%Z ∧ (0 < q_bytes q)%Z ∧ (0 < q_concurrency q)%Z.

Lemma sentinels_checked r : no_sentinel r = false → ro_sentinels r ≠ [].
Proof. unfold no_sentinel. by destruct (ro_sentinels r). Qed.

(** Take apart a load, and bound what it read. *)
Ltac taken_apart H :=
  repeat first [progress loaded H | match type of H with (let '(_, _) := ?p in _) = Ok _ => destruct p as [? ?] end];
  injection H as <-; simpl; checked.
Ltac bounded :=
  repeat match goal with
  | H : load_requests _ _ _ = Ok _ |- _ => apply load_requests_range in H as [? ?]; [|done..]; simpl in *
  | H : load_writes _ _ _ = Ok _ |- _ => apply load_writes_range in H as [? ?]; [|done..]; simpl in *
  | H : load_transport _ _ _ _ _ = Ok _ |- _ =>
      apply load_transport_range in H as (? & ? & ? & ?); [|done..]; simpl in *
  | H : load_queue _ _ = Ok _ |- _ => apply load_queue_range in H as (? & ? & ?); [|done..]; simpl in *
  | H : load_endpoint _ = Ok _ |- _ => apply load_endpoint_range in H
  | H : unsigned_or _ _ _ = Ok _ |- _ => apply unsigned_or_range in H; [|done]
  | H : unsigned_at _ _ = Ok _ |- _ => apply unsigned_at_range in H
  end.

Lemma gateway_options_sound uuid server c :
  load_gateway_options uuid server = Ok c →
  (0 < gc_max_requests c)%Z ∧ (0 < gc_max_request_bytes c)%Z ∧ (0 < gc_max_writes c)%Z ∧ (0 < gc_max_write_bytes c)%Z ∧
  (0 < gc_max_pending c)%Z ∧ (0 < gc_max_pending_bytes c)%Z ∧ limits_positive (gc_queue c) ∧
  ro_sentinels (gc_redis c) ≠ [] ∧
  (production server → ∃ root chain key, gc_credentials c = SslCredentials root chain key).
Proof.
  intros Hc. unfold load_gateway_options in Hc. taken_apart Hc. bounded. unfold limits_positive.
  split_and!; try lia; [by apply sentinels_checked|].
  intros Hp. match goal with H : LoadGrpcSecurityConfig _ = Ok ?s |- _ =>
    destruct (security_checked _ _ H) as [Hm _]; specialize (Hm (Hp _ H)) end. by eapply production_channel.
Qed.

Lemma message_options_sound server c :
  load_message_options server = Ok c →
  (0 < mc_max_requests c)%Z ∧ (0 < mc_max_request_bytes c)%Z ∧ (0 < mc_max_writes c)%Z ∧ (0 < mc_max_write_bytes c)%Z ∧
  limits_positive (mc_queue c) ∧ ro_sentinels (mc_redis c) ≠ [] ∧ (0 ≤ mc_machine_id c < 1024)%Z ∧
  (0 < mc_shards c)%Z ∧ (0 < ep_port (mc_listener c) ∧ ep_port (mc_listener c) + mc_shards c - 1 < 65536)%Z ∧
  (production server → ∃ root chain key, mc_credentials c = SslCredentials root chain key).
Proof.
  intros Hc. unfold load_message_options in Hc. cbv zeta in Hc. taken_apart Hc. bounded. unfold limits_positive.
  split_and!; try lia; 
    [match goal with H : no_sentinel _ = false |- _ => exact (sentinels_checked _ H) end|].
  intros Hp. match goal with H : LoadGrpcSecurityConfig _ = Ok ?s |- _ =>
    destruct (security_checked _ _ H) as [Hm _]; specialize (Hm (Hp _ H)) end. by eapply production_server.
Qed.

Lemma stoul_range s z : stoul s = Ok z → (0 ≤ z)%Z.
Proof.
  assert (∀ d n, digits_value d = Ok n → (0 ≤ n)%Z) as Hd.
  { intros [|c d] n; simpl; [done|]. destruct (digit_of c); [|done].
    destruct (is_u64 _); [|done]. intros [= <-]. lia. }
  unfold stoul. destruct (drop_while _ _) as [|c rest]; [done|].
  destruct (bool_decide _); [intros Hs; loaded Hs; injection Hs as <-; apply u64_range|].
  destruct (bool_decide _); apply Hd.
Qed.

(** The address of the mail server: nothing in it that would end a line or
    change the authority. *)
Lemma smtp_checked url a :
  parse_smtp_url url = Ok a →
  smtp_host a ≠ "" ∧ (0 < smtp_port a < 65536)%Z ∧ Forall (λ c, c ∉ unwanted) (bytes_of (smtp_host a)).
Proof.
  intros Ha. unfold parse_smtp_url in Ha. apply outcome_bind_Ok in Ha as ([] & _ & Ha). cbv zeta in Ha.
  set (authority := drop _ (bytes_of url)) in Ha. set (host := match rfind ":" authority with None => _ | Some _ => _ end) in Ha.
  apply outcome_bind_Ok in Ha as (port & Ep & Ha). loaded Ha. injection Ha as <-. simpl. checked.
  match goal with H : bool_decide (host = []) = false |- _ => apply bool_decide_eq_false in H end.
  split; [|split].
  - intros Eh. apply (f_equal (λ s, bytes_of s)) in Eh. rewrite String.list_ascii_of_string_of_list_ascii in Eh. done.
  - assert (0 ≤ port)%Z; [|lia]. destruct (rfind ":" authority); [by eapply stoul_range|].
    injection Ep as <-. by destruct (String.prefix _ _).
  - rewrite String.list_ascii_of_string_of_list_ascii.
    match goal with H : existsb _ authority = false |- _ => rename H into Hex end.
    assert (Forall (λ c, c ∉ unwanted) authority) as Hall.
    { apply Forall_forall. intros c Hc Hin. apply not_true_iff_false in Hex. apply Hex, existsb_exists. exists c.
      split; [by apply list_elem_of_In|by apply bool_decide_eq_true]. }
    unfold host. destruct (rfind ":" authority); [by apply Forall_take|done].
Qed.

(** The constructor of the queue takes positive limits and no others. *)
Lemma queue_made_iff {SEM : Semaphore} {BQ : BoundedQueue} {Operation Result : Type} l shard :
  limits_positive l ↔ ∃ q, make_queue (Operation := Operation) (Result := Result) (queue_limits_of l) shard = Ok q.
Proof.
  unfold limits_positive, make_queue, queue_limits_of. simpl.
  destruct (Nat.eqb_spec (Z.to_nat (q_pending l)) 0), (Nat.eqb_spec (Z.to_nat (q_concurrency l)) 0),
    (Z.leb_spec (q_bytes l) 0); simpl; (split; [intros; first [lia|by eexists]|intros [q Hq]; first [done|lia]]).
Qed.

Lemma gate_options_sound server c :
  load_gate_options server = Ok c →
  (0 < gt_max_requests c)%Z ∧ (0 < gt_max_request_bytes c)%Z ∧ ro_sentinels (gt_redis c) ≠ [] ∧
  (0 ≤ gt_machine_id c < 1024)%Z ∧ (0 < vo_max_attempts (gt_verification c))%Z ∧
  (0 < vo_code_ttl_seconds (gt_verification c))%Z ∧ (0 < vo_cooldown_seconds (gt_verification c))%Z ∧
  smtp_host (gt_smtp c) ≠ "" ∧ (0 < smtp_port (gt_smtp c) < 65536)%Z ∧
  Forall (λ c, c ∉ unwanted) (bytes_of (smtp_host (gt_smtp c))).
Proof.
  intros Hc. unfold load_gate_options in Hc. cbv zeta in Hc. taken_apart Hc. bounded.
  match goal with H : parse_smtp_url _ = Ok _ |- _ => destruct (smtp_checked _ _ H) as (? & ? & ?) end.
  split_and!; try lia; try done. by apply sentinels_checked.
Qed.

Lemma file_options_sound canonical config c :
  load_file_options canonical config = Ok c → (0 < fc_max_requests c)%Z ∧ (0 < fc_max_bytes c)%Z.
Proof.
  intros Hc. unfold load_file_options in Hc. taken_apart Hc.
  match goal with H : load_limits _ = Ok _ |- _ => rename H into Hl end. unfold load_limits in Hl.
  apply outcome_bind_Ok in Hl as (transaction & _ & Hl).
  apply outcome_bind_Ok in Hl as ([requests bytes] & Eb & Hl). loaded Hl. injection Hl as <- <-. checked.
  assert (is_i64 requests = true ∧ is_i64 bytes = true) as [Hr Hb].
  { destruct (defined transaction); [|injection Eb as <- <-; by split]. loaded Eb. injection Eb as <- <-.
    split; match goal with |- context [as_int64 ?n] => destruct (as_int64 n) eqn:Ez end;
      first [exact (as_int64_range _ _ Ez)|reflexivity]. }
  apply bool_decide_eq_true in Hr, Hb. rewrite !u64_id by (unfold two63, two64 in *; lia). lia.
Qed.

(** C39: what a service has loaded is fit to run with. Whatever the configuration
    and the environment: all capacities of the Gateway, the Message and the File
    service are positive, and so are the limits of Gate's requests; the limits of
    Gate's I/O queue are not checked when they are loaded, but the queue is
    constructed from them exactly when they are positive. The machine ids of the
    id generators have ten bits, there is a Sentinel to ask, the ports of all Message shards exist, the
    verification options are positive, the host of the mail server cannot end a
    line or change the authority, and in production both ends of the Gateway's
    streams have certificates. *)
Theorem loaded_options_sound server :
  (∀ uuid c, load_gateway_options uuid server = Ok c →
     (0 < gc_max_requests c)%Z ∧ (0 < gc_max_request_bytes c)%Z ∧ (0 < gc_max_writes c)%Z ∧
     (0 < gc_max_write_bytes c)%Z ∧ (0 < gc_max_pending c)%Z ∧ (0 < gc_max_pending_bytes c)%Z ∧
     limits_positive (gc_queue c) ∧ ro_sentinels (gc_redis c) ≠ [] ∧
     (production server → ∃ root chain key, gc_credentials c = SslCredentials root chain key)) ∧
  (∀ c, load_message_options server = Ok c →
     (0 < mc_max_requests c)%Z ∧ (0 < mc_max_request_bytes c)%Z ∧ (0 < mc_max_writes c)%Z ∧
     (0 < mc_max_write_bytes c)%Z ∧ limits_positive (mc_queue c) ∧ ro_sentinels (mc_redis c) ≠ [] ∧
     (0 ≤ mc_machine_id c < 1024)%Z ∧ (0 < mc_shards c)%Z ∧
     (0 < ep_port (mc_listener c) ∧ ep_port (mc_listener c) + mc_shards c - 1 < 65536)%Z ∧
     (production server → ∃ root chain key, mc_credentials c = SslCredentials root chain key)) ∧
  (∀ c, load_gate_options server = Ok c →
     (0 < gt_max_requests c)%Z ∧ (0 < gt_max_request_bytes c)%Z ∧ ro_sentinels (gt_redis c) ≠ [] ∧
     (0 ≤ gt_machine_id c < 1024)%Z ∧ (0 < vo_max_attempts (gt_verification c))%Z ∧
     (0 < vo_code_ttl_seconds (gt_verification c))%Z ∧ (0 < vo_cooldown_seconds (gt_verification c))%Z ∧
     smtp_host (gt_smtp c) ≠ "" ∧ (0 < smtp_port (gt_smtp c) < 65536)%Z ∧
     Forall (λ c, c ∉ unwanted) (bytes_of (smtp_host (gt_smtp c))) ∧
     ∀ (SEM : Semaphore) (BQ : BoundedQueue) (Operation Result : Type) shard, limits_positive (gt_queue c) ↔
       ∃ q, make_queue (Operation := Operation) (Result := Result) (queue_limits_of (gt_queue c)) shard = Ok q) ∧
  (∀ canonical c, load_file_options canonical server = Ok c → (0 < fc_max_requests c)%Z ∧ (0 < fc_max_bytes c)%Z).
Proof.
  split; [|split; [|split]].
  - intros *. apply gateway_options_sound.
  - intros *. apply message_options_sound.
  - intros c (? & ? & ? & ? & ? & ? & ? & ? & ? & ?)%gate_options_sound. do 10 (split; [done|]).
    intros. apply queue_made_iff.
  - intros *. apply file_options_sound.
Qed.
End options.

(** ** A configuration that loads *)

Section runs.
#[local] Existing Instance demo_yaml_reader.

Definition demo_address (host : string) (port : Z) : list (string * demo_yaml) :=
  [("host", YText host); ("port", YNumber port)].
Definition demo_server_config : yaml :=
  YMap [("self", YMap (("name", YText "gw-1") :: demo_address "0.0.0.0" 8001));
        ("mysql", YMap (demo_address "db" 3306 ++
           [("user", YText "imm"); ("password", YText "secret"); ("schema", YText "imm")]));
        ("stateRPC", YMap (demo_address "state" 9000));
        ("redis", YMap [("masterName", YText "main"); ("machineId", YNumber 7);
           ("sentinels", YList [YMap (demo_address "sentinel" 26379)])]);
        ("io", YMap [("concurrency", YNumber 8)]);
        ("transportSecurity", YMap [("environment", YText "production"); ("mode", YText "mtls");
           ("rootCertificates", YText "ca"); ("certificateChain", YText "chain"); ("privateKey", YText "key")])].
Definition demo_read_file (path : string) : option string := Some path.
Definition demo_getenv (name : string) : option string := None.

Lemma loaded_options_sound_witness :
  (∃ c, load_gateway_options demo_read_file "uuid" demo_server_config = Ok c ∧ limits_positive (gc_queue c) ∧
     ∃ root chain key, gc_credentials c = SslCredentials root chain key) ∧
  (∃ c, load_gate_options demo_getenv demo_server_config = Ok c ∧ (0 ≤ gt_machine_id c < 1024)%Z).
Proof.
  destruct (loaded_options_sound demo_read_file demo_getenv demo_server_config) as (Hgw & _ & Hgate & _). split.
  - eexists. split; [vm_compute; reflexivity|].
    destruct (Hgw "uuid" _ ltac:(vm_compute; reflexivity)) as (_ & _ & _ & _ & _ & _ & Hq & _ & Hp).
    split; [exact Hq|]. apply Hp. intros s Hs. vm_compute in Hs. injection Hs as <-. reflexivity.
  - eexists. split; [vm_compute; reflexivity|].
    destruct (Hgate _ ltac:(vm_compute; reflexivity)) as (_ & _ & _ & Hm & _). exact Hm.
Defined.
End runs.
