(* ===== verification/FdWatch.v ===== *)
(** * Watching a socket of a protocol library

    common/reactor/fd_watch.hh: two tasks wait, one for each direction, until the
    owner is interested in the direction and then until the socket is ready,
    and run the owner's callback. [stop] ends both.

    A task is what its coroutine awaits. A callback runs within [ready]; the
    owner's model does what it does and then continues the task with
    [loop_head]. *)

From S2P Require Import Prelude.

Inductive direction := Readable | Writable.
#[global] Instance direction_eq_dec : EqDecision direction.
Proof. solve_decision. Defined.

(** [Waiting] for the condition variable, [Polling] the descriptor. *)
Inductive task := Waiting | Polling | Ended (failure : option string).

Record watch := MkWatch {
  wt_enabled : bool * bool; wt_tasks : task * task; wt_closing : bool }.

Definition at_dir {A} (d : direction) (x : A * A) : A := match d with Readable => x.1 | Writable => x.2 end.
Definition put_dir {A} (d : direction) (a : A) (x : A * A) : A * A :=
  match d with Readable => (a, x.2) | Writable => (x.1, a) end.
Definition set_task (d : direction) (t : task) (w : watch) : watch :=
  MkWatch (wt_enabled w) (put_dir d t (wt_tasks w)) (wt_closing w).

(** create: nothing is enabled, so both tasks wait *)
Definition watch_create : watch := MkWatch (false, false) (Waiting, Waiting) false.
Definition watch_set (d : direction) (enabled : bool) (w : watch) : watch :=
  MkWatch (put_dir d enabled (wt_enabled w)) (wt_tasks w) (wt_closing w).
(** stop, up to the await of the tasks *)
Definition watch_stop (w : watch) : watch := MkWatch (wt_enabled w) (wt_tasks w) true.

(** run: the head of the loop *)
Definition loop_head (d : direction) (w : watch) : watch :=
  set_task d (if wt_closing w then Ended None else Waiting) w.

(** run: the wait for the condition variable ends *)
Definition woken (d : direction) (w : watch) : option watch :=
  match at_dir d (wt_tasks w) with
  | Waiting =>
      if wt_closing w then Some (set_task d (Ended None) w)
      else if at_dir d (wt_enabled w) then Some (set_task d Polling w) else None
  | _ => None
  end.

(** run: the wait for the descriptor ends or fails; whether the callback runs *)
Definition ready (d : direction) (failure : option string) (w : watch) : option (watch * bool) :=
  match at_dir d (wt_tasks w), failure with
  | Polling, Some e => Some (set_task d (Ended (if wt_closing w then None else Some e)) w, false)
  | Polling, None =>
      if negb (wt_closing w) && at_dir d (wt_enabled w) then Some (w, true) else Some (loop_head d w, false)
  | _, _ => None
  end.

(** stop: when_all_succeed of the tasks *)
Definition tasks_result (w : watch) : option (outcome unit) :=
  match wt_tasks w with
  | (Ended a, Ended b) =>
      Some match a, b with
           | Some e, _ | None, Some e => Throw (RuntimeError e)
           | None, None => Ok tt
           end
  | _ => None
  end.

Definition running (t : task) : nat := match t with Ended _ => 0 | _ => 1 end.
(** The tasks that have not ended. *)
Definition tasks_left (w : watch) : nat := running (wt_tasks w).1 + running (wt_tasks w).2.

Lemma tasks_done w : tasks_left w = 0 → is_Some (tasks_result w).
Proof. destruct w as [e [[] []] c]; unfold tasks_left; simpl; try lia. intros _. by eexists. Qed.
Lemma tasks_left_bound w : tasks_left w ≤ 2.
Proof. destruct w as [e [[] []] c]; unfold tasks_left; simpl; lia. Qed.

(** A task that a stopped watch continues is at its end. *)
Lemma woken_ends d w w' :
  wt_closing w = true → woken d w = Some w' → wt_closing w' = true ∧ S (tasks_left w') = tasks_left w.
Proof. unfold woken. destruct w as [e [[] []] c], d; simpl; intros -> [= <-]; simpl; done. Qed.
Lemma ready_ends d f w w' called :
  wt_closing w = true → ready d f w = Some (w', called) →
  called = false ∧ wt_closing w' = true ∧ S (tasks_left w') = tasks_left w.
Proof. unfold ready. destruct w as [e [[] []] c], d, f; simpl; intros ->; intros [= <- <-]; done. Qed.

(** A stopped watch has a task to continue, or all have ended. *)
Lemma stopped_progress w :
  wt_closing w = true → tasks_left w ≠ 0 →
  ∃ d, is_Some (woken d w) ∨ ∀ f, is_Some (ready d f w).
Proof.
  intros Hc Hl. unfold woken, ready. rewrite Hc. destruct w as [e [t1 t2] c]; unfold tasks_left in Hl; simpl in *.
  destruct t1; [by exists Readable; left|exists Readable; right; intros []; by eexists|].
  destruct t2; [by exists Writable; left|exists Writable; right; intros []; by eexists|]. simpl in Hl. lia.
Qed.

(** Nothing but [watch_stop] closes a watch. *)
Lemma woken_closing d w w' : woken d w = Some w' → wt_closing w' = wt_closing w.
Proof.
  unfold woken. destruct (at_dir d (wt_tasks w)); [|done..]. destruct (wt_closing w) eqn:E; [by intros [= <-]|].
  by destruct (at_dir d (wt_enabled w)); intros [= <-].
Qed.
Lemma ready_closing d f w w' called : ready d f w = Some (w', called) → wt_closing w' = wt_closing w.
Proof.
  unfold ready. destruct (at_dir d (wt_tasks w)), f; try done; [by intros [= <- <-]|].
  by destruct (negb _ && _); intros [= <- <-].
Qed.

(** Without failures of the descriptor, stopping a watch succeeds. *)
Definition unfailed (w : watch) : Prop :=
  ∀ d e, at_dir d (wt_tasks w) ≠ Ended (Some e).
Lemma unfailed_result w r : unfailed w → tasks_result w = Some r → r = Ok tt.
Proof.
  intros Hu. pose proof (Hu Readable) as H1. pose proof (Hu Writable) as H2. unfold tasks_result. simpl in *.
  destruct (wt_tasks w) as [[| |[]] [| |[]]]; simpl in *; try done; try (by destruct (H1 _ eq_refl)); try (by destruct (H2 _ eq_refl)).
  by intros [= <-].
Qed.
