(* ===== verification/Smtp.v ===== *)
(** * Verification mails

    Models gate/io/smtp_connection.cc and driver::execute(send_verification_email)
    of gate/io/driver.cc: the dialogue with a mail server, the switch to TLS, and
    what counts as an accepted mail. OpenSSL's base64 is a parameter. *)

From S2P Require Import Prelude Options.
From Stdlib Require Import Ascii.

(** What the bytes of a socket travel on. *)
Inductive transport := Plain | Secured.
#[global] Instance transport_eq_dec : EqDecision transport.
Proof. solve_decision. Defined.

(** One suspension: it may fail, and driver::abort may have run meanwhile. *)
Record suspension := MkSuspension { sp_abort : bool; sp_failure : option exn }.

(** An smtp_connection (its optional members by the transport they are on), the
    driver's [_stopping], and the peer: the bytes it sends on each transport, the
    texts it is sent, and what happens at the suspensions ahead (none are left:
    they succeed). *)
Record mail_world := MkMailWorld {
  mw_socket : option transport; mw_input : option transport; mw_output : option transport;
  mw_aborted : bool; mw_accepted : bool; mw_stopping : bool;
  mw_plain : bytes; mw_secured : bytes;
  mw_sent : list (transport * string);
  mw_ahead : list suspension }.

Definition set_socket (s i o : option transport) (w : mail_world) : mail_world :=
  MkMailWorld s i o (mw_aborted w) (mw_accepted w) (mw_stopping w) (mw_plain w) (mw_secured w) (mw_sent w) (mw_ahead w).
Definition set_flags (aborted accepted stopping : bool) (w : mail_world) : mail_world :=
  MkMailWorld (mw_socket w) (mw_input w) (mw_output w) aborted accepted stopping
    (mw_plain w) (mw_secured w) (mw_sent w) (mw_ahead w).
Definition set_unread (t : transport) (b : bytes) (w : mail_world) : mail_world :=
  MkMailWorld (mw_socket w) (mw_input w) (mw_output w) (mw_aborted w) (mw_accepted w) (mw_stopping w)
    (if t is Plain then b else mw_plain w) (if t is Secured then b else mw_secured w) (mw_sent w) (mw_ahead w).
Definition set_sent (l : list (transport * string)) (w : mail_world) : mail_world :=
  MkMailWorld (mw_socket w) (mw_input w) (mw_output w) (mw_aborted w) (mw_accepted w) (mw_stopping w)
    (mw_plain w) (mw_secured w) l (mw_ahead w).
Definition set_ahead (l : list suspension) (w : mail_world) : mail_world :=
  MkMailWorld (mw_socket w) (mw_input w) (mw_output w) (mw_aborted w) (mw_accepted w) (mw_stopping w)
    (mw_plain w) (mw_secured w) (mw_sent w) l.

Definition unread (t : transport) (w : mail_world) : bytes :=
  match t with Plain => mw_plain w | Secured => mw_secured w end.

(** co_await *)
Definition suspend : Eff mail_world unit := λ w,
  match mw_ahead w with
  | [] => (Ok tt, w)
  | s :: ahead =>
      let w := set_ahead ahead w in
      let w := if sp_abort s then set_flags true (mw_accepted w) true w else w in
      (match sp_failure s with None => Ok tt | Some e => Throw e end, w)
  end.

(** An optional member that is used while it is empty. *)
Definition no_stream : exn := LogicError "empty stream".

(** ** smtp_connection *)

Definition streams : Eff mail_world unit :=
  modify (λ w, set_socket (mw_socket w) (mw_socket w) (mw_socket w) w).

(** _input->read_exactly(1); [None]: the peer closed its side. *)
Definition read_exactly_1 : Eff mail_world (option ascii) := λ w,
  match mw_input w with
  | None => (Throw no_stream, w)
  | Some t =>
      match suspend w with
      | (Throw e, w) => (Throw e, w)
      | (Ok _, w) =>
          match unread t w with
          | [] => (Ok None, w)
          | c :: rest => (Ok (Some c), set_unread t rest w)
          end
      end
  end.

(** The inner loop of reply: bytes up to a newline, at most [n] more. *)
Fixpoint read_line (n : nat) (line : bytes) : Eff mail_world bytes :=
  match n with
  | 0 => mret line
  | S n =>
      byte ← read_exactly_1;
      match byte with
      | None => throw (RuntimeError "SMTP peer disconnected")
      | Some c => if bool_decide (c = "010"%char) then mret (line ++ [c]) else read_line n (line ++ [c])
      end
  end.

Definition digit (c : ascii) : Z := Z.of_N (N_of_ascii c) - 48.
Definition between (low high : ascii) (c : ascii) : bool :=
  (N_of_ascii low <=? N_of_ascii c)%N && (N_of_ascii c <=? N_of_ascii high)%N.

(** What reply makes of a line: its code and the byte after it. *)
Definition parse_line (line : bytes) : option (Z * ascii) :=
  match line with
  | a :: b :: c :: separator :: rest =>
      if (length line <? 5)%nat
         || negb (bool_decide (drop (length line - 2) line = ["013"%char; "010"%char]))
         || negb (between "2" "5" a) || negb (between "0" "9" b) || negb (between "0" "9" c)
      then None
      else Some (digit a * 100 + digit b * 10 + digit c, separator)%Z
  | _ => None
  end.

Definition max_line : nat := Z.to_nat 4096.
Definition max_lines : nat := 32.

Fixpoint reply_lines (n : nat) (status : Z) : Eff mail_world Z :=
  match n with
  | 0 => throw (RuntimeError "SMTP response too long")
  | S n =>
      line ← read_line max_line [];
      match parse_line line with
      | None => throw (RuntimeError "invalid SMTP response")
      | Some (code, separator) =>
          if negb (status =? 0)%Z && negb (status =? code)%Z
          then throw (RuntimeError "inconsistent SMTP multiline response")
          else if bool_decide (separator = " "%char) then mret code
          else if negb (bool_decide (separator = "-"%char)) then throw (RuntimeError "invalid SMTP continuation")
          else reply_lines n code
      end
  end.
Definition reply : Eff mail_world Z := reply_lines max_lines 0.

Definition write_text (text : string) : Eff mail_world unit := λ w,
  match mw_output w with
  | None => (Throw no_stream, w)
  | Some t => suspend (set_sent (mw_sent w ++ [(t, text)]) w)
  end.
Definition flush : Eff mail_world unit := λ w,
  match mw_output w with None => (Throw no_stream, w) | Some _ => suspend w end.

Definition smtp_command (text : string) (expected : Z) : Eff mail_world unit :=
  write_text text ;; flush ;;
  status ← reply;
  if (status =? expected)%Z then mret tt
  else throw (RuntimeError ("SMTP rejected command, status=" +:+ pretty status)).

Definition smtp_abort : Eff mail_world unit :=
  modify (λ w, set_flags true (mw_accepted w) (mw_stopping w) w).

Definition crlf : string := String "013" (String "010" "").
Definition ehlo : string := "EHLO imm" +:+ crlf.
Definition starttls : string := "STARTTLS" +:+ crlf.
Definition quit : string := "QUIT" +:+ crlf.

Record verification_mail := MkMail { ml_recipient : string; ml_code : string; ml_ttl_seconds : Z }.

Definition mail_text (user : string) (mail : verification_mail) : string :=
  "To: " +:+ ml_recipient mail +:+ crlf +:+ "From: " +:+ user +:+ crlf +:+
  "Subject: IMM verification code" +:+ crlf +:+ "Content-Type: text/plain; charset=utf-8" +:+ crlf +:+ crlf +:+
  "Your IMM verification code is " +:+ ml_code mail +:+ ". It expires in " +:+ pretty (ml_ttl_seconds mail) +:+
  " seconds." +:+ crlf +:+ "." +:+ crlf.

Section smtp.
Context (base64 : string → string).

(** The commands from AUTH to the text of the mail, with the status each expects. *)
Definition submission (o : email_options) (mail : verification_mail) : list (string * Z) :=
  [("AUTH LOGIN" +:+ crlf, 334); (base64 (eo_user o) +:+ crlf, 334); (base64 (eo_password o) +:+ crlf, 235);
   ("MAIL FROM:<" +:+ eo_user o +:+ ">" +:+ crlf, 250); ("RCPT TO:<" +:+ ml_recipient mail +:+ ">" +:+ crlf, 250);
   ("DATA" +:+ crlf, 354); (mail_text (eo_user o) mail, 250)]%Z.

Definition send_mail (s : smtp_address) (o : email_options) (mail : verification_mail) : Eff mail_world unit :=
  suspend ;;
  modify (λ w, set_socket (Some (if smtp_implicit_tls s then Secured else Plain)) (mw_input w) (mw_output w) w) ;;
  streams ;;
  greeting ← reply;
  if negb (greeting =? 220)%Z then throw (RuntimeError "SMTP greeting rejected") else
  smtp_command ehlo 250 ;;
  (if smtp_implicit_tls s then mret tt
   else
     smtp_command starttls 220 ;;
     modify (set_socket None None None) ;;
     suspend ;;
     modify (set_socket (Some Secured) None None) ;;
     streams ;;
     smtp_command ehlo 250) ;;
  forM (submission o mail) (λ '(text, expected), smtp_command text expected) ;;
  modify (λ w, set_flags (mw_aborted w) true (mw_stopping w) w) ;;
  catch (smtp_command quit 221) (λ _, smtp_abort).

(** Closing a stream; a failure matters unless the mail was accepted or the
    connection aborted. *)
Definition close_stream (reset : mail_world → mail_world) : Eff mail_world unit :=
  catch suspend (λ e w, if negb (mw_aborted w) && negb (mw_accepted w) then (Throw e, w) else (Ok tt, w)) ;;
  modify reset.

Definition smtp_close : Eff mail_world unit :=
  w ← get;
  (if mw_output w is Some _ then close_stream (λ w, set_socket (mw_socket w) (mw_input w) None w) else mret tt) ;;
  w ← get;
  (if mw_input w is Some _ then close_stream (λ w, set_socket (mw_socket w) None (mw_output w) w) else mret tt) ;;
  modify (λ w, set_socket None (mw_input w) (mw_output w) w).

Definition running : Eff mail_world unit := λ w, (if mw_stopping w then Throw Stopped else Ok tt, w).

(** driver::execute(send_verification_email) *)
Definition execute_send_verification_email (s : smtp_address) (o : email_options) (mail : verification_mail) :
    Eff mail_world unit :=
  running ;;
  failure ← catch (suspend ;; running ;; send_mail s o mail ;; mret None) (λ e, smtp_abort ;; mret (Some e));
  smtp_close ;;
  match failure with Some e => throw e | None => mret tt end.
End smtp.

(** A connection as it is constructed. *)
Definition fresh_mail (stopping : bool) (plain secured : bytes) (ahead : list suspension) : mail_world :=
  MkMailWorld None None None false false stopping plain secured [] ahead.
