(* ===== verification/SmtpTheorems.v ===== *)
(** * What the Gate's mail client guarantees

    Whatever the mail server sends and whatever fails: how its replies are read,
    what is sent to it on which transport, and when a mail counts as sent. *)

From S2P Require Import Prelude Decimal Options Smtp.
From Stdlib Require Import Ascii.

#[local] Opaque max_line max_lines.
#[local] Arguments submission : simpl never.

(** ** Replies of a mail server

    RFC 5321: a code of three digits on every line, a hyphen after it on all
    lines but the last. *)

Definition newline : ascii := "010"%char.
Definition is_line (code : Z) (separator : ascii) (line : bytes) : Prop :=
  ∃ a b c body,
    line = a :: b :: c :: separator :: (body ++ ["013"%char; newline]) ∧ (newline ∉ body) ∧
    between "2" "5" a = true ∧ between "0" "9" b = true ∧ between "0" "9" c = true ∧
    code = (digit a * 100 + digit b * 10 + digit c)%Z ∧ length line ≤ max_line.

(** A reply of [n] lines. *)
Inductive is_reply (code : Z) : nat → bytes → Prop :=
  | reply_last line : is_line code " " line → is_reply code 1 line
  | reply_more n line rest : is_line code "-" line → is_reply code n rest → is_reply code (S n) (line ++ rest).

(** A sequence of replies that the client can read. *)
Fixpoint replies (codes : list Z) (text : bytes) : Prop :=
  match codes with
  | [] => text = []
  | code :: codes => ∃ n r rest, text = r ++ rest ∧ is_reply code n r ∧ n ≤ max_lines ∧ replies codes rest
  end.

(** ** Reading *)

(** A step that only reads: what was sent, the streams and the acceptance stay. *)
Definition same (w w' : mail_world) : Prop :=
  mw_socket w' = mw_socket w ∧ mw_input w' = mw_input w ∧ mw_output w' = mw_output w ∧
  mw_accepted w' = mw_accepted w ∧ mw_sent w' = mw_sent w ∧ (mw_aborted w = true → mw_aborted w' = true).

(** [b] was read from [t]. *)
Definition taken (t : transport) (b : bytes) (w w' : mail_world) : Prop :=
  unread t w = b ++ unread t w' ∧ ∀ t', t' ≠ t → unread t' w' = unread t' w.
Definition untouched (w w' : mail_world) : Prop := ∀ t, unread t w' = unread t w.

#[global] Instance same_preorder : PreOrder same.
Proof. split; unfold same; [done|]. intros x y z. naive_solver congruence. Qed.

Lemma taken_trans t a b w1 w2 w3 : taken t a w1 w2 → taken t b w2 w3 → taken t (a ++ b) w1 w3.
Proof.
  intros [E1 H1] [E2 H2]. split; [by rewrite E1, E2, app_assoc|]. intros t' Ht. by rewrite H2, H1.
Qed.
Lemma taken_nil t w w' : untouched w w' → taken t [] w w'.
Proof. intros H. split; [by rewrite H|]. intros t' _. apply H. Qed.
Lemma untouched_taken t b w1 w2 w3 : untouched w1 w2 → taken t b w2 w3 → taken t b w1 w3.
Proof. intros H H'. change b with ([] ++ b). eapply taken_trans; [by apply taken_nil|done]. Qed.
Lemma taken_untouched t b w1 w2 w3 : taken t b w1 w2 → untouched w2 w3 → taken t b w1 w3.
Proof. intros H H'. rewrite <- (app_nil_r b). eapply taken_trans; [done|by apply taken_nil]. Qed.

Lemma suspend_spec w : same w (suspend w).2 ∧ untouched w (suspend w).2.
Proof. unfold suspend. destruct (mw_ahead w) as [|[[] [e|]] l]; done. Qed.

Lemma read_byte_spec t w :
  mw_input w = Some t →
  wp read_exactly_1 (λ r w', same w w' ∧
    match r with Ok (Some c) => taken t [c] w w' | Ok None => untouched w w' | Throw _ => True end) w.
Proof.
  intros Hi. unfold wp, read_exactly_1. rewrite Hi. destruct (suspend_spec w) as [Hs Hu].
  destruct (suspend w) as [[[]|e] w1]; simpl in *; [|done].
  destruct (unread t w1) as [|c rest] eqn:E; [done|]. split; [done|]. split.
  - rewrite <- Hu, E. by destruct t.
  - intros t' Ht. rewrite <- Hu. by destruct t, t'.
Qed.

(** A line as far as it was read: up to its newline, or as much as fits. *)
Definition line_read (n : nat) (line : bytes) : Prop :=
  length line ≤ n ∧ (newline ∉ line ∨ ∃ l, line = l ++ [newline] ∧ newline ∉ l).

Lemma read_line_spec t n acc w :
  mw_input w = Some t →
  wp (read_line n acc) (λ r w', same w w' ∧
    match r with Ok line => ∃ l, line = acc ++ l ∧ taken t l w w' ∧ line_read n l | Throw _ => True end) w.
Proof.
  revert acc w. induction n as [|n IH]; intros acc w Hi; simpl.
  { apply wp_ret. split; [done|]. exists []. rewrite app_nil_r. split_and!; [done|by apply taken_nil|].
    split; [simpl; lia|]. left. apply not_elem_of_nil. }
  apply wp_bind. eapply wp_mono; [by apply read_byte_spec|]. intros [[c|]|e] w1 [Hs Ht]; [|by apply wp_throw|done].
  case_bool_decide as Hc.
  { apply wp_ret. split; [done|]. exists [c]. split_and!; [done|done|]. split; [simpl; lia|]. right.
    exists []. subst c. split; [done|]. apply not_elem_of_nil. }
  eapply wp_mono; [apply IH; by destruct Hs as (_ & -> & _)|]. intros [line|e] w2 [Hs2 Hl]; [|split; [by etransitivity|done]].
  split; [by etransitivity|]. destruct Hl as (l & -> & Ht2 & Hn & Hl). exists (c :: l).
  split_and!; [by rewrite <- app_assoc|by eapply (taken_trans _ [c])|]. split; [simpl; lia|].
  destruct Hl as [Hl|(l' & -> & Hl)].
  - left. by rewrite not_elem_of_cons.
  - right. exists (c :: l'). by rewrite not_elem_of_cons.
Qed.

Lemma parse_line_sound line code separator :
  parse_line line = Some (code, separator) → line_read max_line line → separator ≠ "013"%char →
  is_line code separator line.
Proof.
  intros Hp [Hn Hl] Hs. unfold parse_line in Hp. destruct line as [|a [|b [|c [|s rest]]]]; try done.
  destruct (length _ <? 5)%nat eqn:H5; [done|]. rewrite orb_false_l in Hp.
  case_bool_decide as Hd; [|done]. simpl negb in Hp. rewrite orb_false_l in Hp.
  destruct (between "2" "5" a) eqn:Ha, (between "0" "9" b) eqn:Hb, (between "0" "9" c) eqn:Hc; try done.
  simpl in Hp. injection Hp as <- <-. apply Nat.ltb_ge in H5. simpl in Hd, H5.
  destruct rest as [|x [|y rest]]; [simpl in H5; lia|simpl in Hd; by injection Hd as -> ->|].
  assert (∃ body, x :: y :: rest = body ++ ["013"%char; newline]) as [body E].
  { exists (take (length rest) (x :: y :: rest)). rewrite <- (take_drop (length rest) (x :: y :: rest)) at 1. f_equal.
    exact Hd. }
  rewrite E in *. exists a, b, c, body. split_and!; try done.
  intros Hin. destruct Hl as [Hl|(l & El & Hl)].
  - apply Hl. rewrite !elem_of_cons, elem_of_app. auto 10.
  - change (a :: b :: c :: s :: body ++ ["013"%char; newline]) with ([a; b; c; s] ++ body ++ ["013"%char] ++ [newline]) in El.
    rewrite !app_assoc in El. apply app_inj_tail in El as [<- _]. apply Hl. rewrite !elem_of_app. auto.
Qed.

Lemma reply_lines_sound t n status w :
  mw_input w = Some t →
  wp (reply_lines n status) (λ r w', same w w' ∧
    match r with
    | Ok code => ∃ k text, taken t text w w' ∧ is_reply code k text ∧ k ≤ n ∧ (status = 0 ∨ status = code)%Z
    | Throw _ => True
    end) w.
Proof.
  revert status w. induction n as [|n IH]; intros status w Hi; simpl reply_lines; [by apply wp_throw|].
  apply wp_bind. eapply wp_mono; [by apply (read_line_spec t)|].
  intros [line|e] w1 [Hs Hl]; [|done]. destruct Hl as (l & -> & Ht & Hl). rewrite app_nil_l in *.
  destruct (parse_line l) as [[code separator]|] eqn:Hp; [|by apply wp_throw].
  destruct (negb (status =? 0)%Z && negb (status =? code)%Z) eqn:E; [by apply wp_throw|].
  assert (status = 0 ∨ status = code)%Z as Hst by (rewrite andb_false_iff, !negb_false_iff, !Z.eqb_eq in E; done).
  case_bool_decide as H1.
  { apply wp_ret. split; [done|]. exists 1, l. split_and!; [done| |lia|done].
    apply reply_last. subst separator. by apply parse_line_sound. }
  case_bool_decide as H2; simpl negb; [|by apply wp_throw]. subst separator.
  eapply wp_mono; [apply IH; by destruct Hs as (_ & -> & _)|]. intros [code'|e] w2 [Hs2 Hr]; [|split; [by etransitivity|done]].
  split; [by etransitivity|]. destruct Hr as (k & text & Ht2 & Hr & Hk & Hc).
  assert (is_line code "-" l) as Hline by (by apply parse_line_sound).
  assert (code' = code) as ->.
  { destruct Hc as [->| ->]; [|done]. exfalso. destruct Hline as (a & b & c & body & _ & _ & Ha & Hb & Hcc & Hz & _).
    unfold between, digit in *. rewrite !andb_true_iff, !N.leb_le in *.
    change (N_of_ascii "2") with 50%N in *. change (N_of_ascii "0") with 48%N in *. lia. }
  exists (S k), (l ++ text). split_and!; [by eapply taken_trans|by constructor|lia|done].
Qed.

(** What [reply] returns is the code of the reply it has read. *)
Lemma reply_sound t w :
  mw_input w = Some t →
  wp reply (λ r w', same w w' ∧
    match r with Ok code => ∃ k text, taken t text w w' ∧ is_reply code k text ∧ k ≤ max_lines | Throw _ => True end) w.
Proof.
  intros Hi. eapply wp_mono; [by apply (reply_lines_sound t)|]. intros [code|e] w' [Hs Hr]; [|done].
  split; [done|]. naive_solver.
Qed.

(** A reply that arrives is read to its end and no further. *)
Lemma read_line_complete t l rest n acc w :
  mw_input w = Some t → mw_ahead w = [] → unread t w = l ++ newline :: rest → newline ∉ l → length l < n →
  read_line n acc w = (Ok (acc ++ l ++ [newline]), set_unread t rest w).
Proof.
  revert n acc w. induction l as [|c l IH]; intros n acc w Hi Ha Hu Hn Hl; destruct n as [|n]; try (simpl in Hl; lia).
  - simpl. rewrite bind_eq. unfold read_exactly_1, suspend. rewrite Hi, Ha, Hu. simpl. done.
  - apply not_elem_of_cons in Hn as [Hc Hn].
    simpl. rewrite bind_eq. unfold read_exactly_1, suspend. rewrite Hi, Ha, Hu. simpl.
    rewrite bool_decide_eq_false_2 by done. rewrite IH; [| | |by destruct t|done|simpl in Hl; lia]; [|by destruct t..].
    by destruct t; rewrite <- !app_assoc.
Qed.

Lemma parse_line_complete code separator line :
  is_line code separator line → parse_line line = Some (code, separator).
Proof.
  intros (a & b & c & body & -> & _ & Ha & Hb & Hc & -> & _). unfold parse_line. rewrite Ha, Hb, Hc.
  set (line := a :: b :: c :: separator :: _). assert (line = (a :: b :: c :: separator :: body) ++ ["013"%char; newline]) as E by done.
  assert (length line = S (S (S (S (length body + 2))))) as El by (rewrite E; simpl; rewrite length_app; done).
  rewrite (proj2 (Nat.ltb_ge _ _)) by lia. rewrite bool_decide_eq_true_2; [done|].
  rewrite El, E. rewrite drop_app_length'; [done|simpl; lia].
Qed.

Lemma read_line_reply t code separator line rest w :
  mw_input w = Some t → mw_ahead w = [] → is_line code separator line → separator ≠ newline → unread t w = line ++ rest →
  read_line max_line [] w = (Ok line, set_unread t rest w).
Proof.
  intros Hi Ha (a & b & c & body & -> & Hn & Hda & Hb & Hc & _ & Hlen) Hs Hu.
  assert (∀ low high x, (48 ≤ N_of_ascii low)%N → between low high x = true → x ≠ newline) as Hd.
  { unfold between. intros low high x Hlow [H1 _]%andb_true_iff ->. apply N.leb_le in H1.
    change (N_of_ascii newline) with 10%N in H1. lia. }
  rewrite (read_line_complete t (a :: b :: c :: separator :: body ++ ["013"%char]) rest max_line [] w Hi Ha).
  - simpl. by rewrite <- app_assoc.
  - rewrite Hu. simpl. by rewrite <- !app_assoc.
  - rewrite !not_elem_of_cons, not_elem_of_app, list_elem_of_singleton.
    split_and!; [by eapply not_eq_sym, Hd, Hda|by eapply not_eq_sym, Hd, Hb|by eapply not_eq_sym, Hd, Hc|by apply not_eq_sym|done|done].
  - simpl in *. rewrite length_app in *. simpl in *. lia.
Qed.

Lemma reply_lines_complete t code k text rest n status w :
  mw_input w = Some t → mw_ahead w = [] → is_reply code k text → k ≤ n → (status = 0 ∨ status = code)%Z →
  unread t w = text ++ rest →
  reply_lines n status w = (Ok code, set_unread t rest w).
Proof.
  intros Hi Ha Hr. revert n status w Hi Ha. induction Hr as [line Hl|k line text Hl Hr IH]; intros n status w Hi Ha Hk Hst Hu.
  all: destruct n as [|n]; [lia|]; simpl reply_lines; rewrite bind_eq.
  - rewrite (read_line_reply t code " " line rest w Hi Ha Hl) by done. simpl.
    rewrite (parse_line_complete _ _ _ Hl). destruct Hst as [->| ->]; [done|].
    rewrite Z.eqb_refl, andb_false_r. done.
  - rewrite (read_line_reply t code "-" line (text ++ rest) w Hi Ha Hl) by (done || by rewrite Hu, app_assoc).
    simpl fst. simpl snd. cbv iota. rewrite (parse_line_complete _ _ _ Hl).
    assert (negb (status =? 0)%Z && negb (status =? code)%Z = false) as ->.
    { destruct Hst as [->| ->]; [done|]. by rewrite Z.eqb_refl, andb_false_r. }
    rewrite bool_decide_eq_false_2, bool_decide_eq_true_2 by done. simpl negb. cbv iota.
    rewrite (IH n code); [by destruct t|by destruct t|by destruct t|lia|by right|by destruct t].
Qed.

Lemma reply_complete t code k text rest w :
  mw_input w = Some t → mw_ahead w = [] → is_reply code k text → k ≤ max_lines → unread t w = text ++ rest →
  reply w = (Ok code, set_unread t rest w).
Proof. intros. eapply reply_lines_complete; eauto. Qed.

(** ** Commands *)

(** After [texts] were sent on [t] and the replies [codes] to them read from it. *)
Definition conversed (t : transport) (texts : list string) (codes : list Z) (w w' : mail_world) : Prop :=
  mw_socket w' = mw_socket w ∧ mw_input w' = mw_input w ∧ mw_output w' = mw_output w ∧
  mw_accepted w' = mw_accepted w ∧ mw_sent w' = mw_sent w ++ ((λ x, (t, x)) <$> texts) ∧
  ∃ said, replies codes said ∧ taken t said w w'.

(** As far as a failed conversation came. *)
Definition attempted (t : transport) (texts : list string) (w w' : mail_world) : Prop :=
  mw_socket w' = mw_socket w ∧ mw_input w' = mw_input w ∧ mw_output w' = mw_output w ∧
  mw_accepted w' = mw_accepted w ∧ mw_sent w' = mw_sent w ++ ((λ x, (t, x)) <$> texts).

Lemma replies_app codes codes' text text' :
  replies codes text → replies codes' text' → replies (codes ++ codes') (text ++ text').
Proof.
  revert text. induction codes as [|c codes IH]; intros text; simpl.
  - by intros ->.
  - intros (n & r & rest & -> & Hr & Hn & Hc) Hc'. exists n, r, (rest ++ text'). split_and!; [by rewrite app_assoc|done..|].
    by apply IH.
Qed.

Lemma command_spec t text expected w :
  mw_input w = Some t → mw_output w = Some t →
  wp (smtp_command text expected) (λ r w',
    match r with Ok _ => conversed t [text] [expected] w w' | Throw _ => attempted t [text] w w' end) w.
Proof.
  intros Hi Ho. unfold smtp_command. apply wp_bind. unfold wp at 1, write_text. rewrite Ho.
  set (w0 := set_sent _ w). destruct (suspend_spec w0) as [Hs0 Hu0].
  assert (∀ w', same w0 w' → attempted t [text] w w') as Hatt.
  { intros w' (? & ? & ? & ? & ? & _). by split_and!. }
  destruct (suspend w0) as [[[]|e] w1]; simpl in Hs0, Hu0 |- *; [|by apply Hatt].
  apply wp_bind. unfold wp at 1, flush. destruct (suspend_spec w1) as [Hs1 Hu1].
  assert (mw_output w1 = Some t) as -> by (destruct Hs0 as (_ & _ & -> & _); done).
  destruct (suspend w1) as [[[]|e] w2]; simpl in Hs1, Hu1 |- *; [|apply Hatt; by etransitivity].
  apply wp_bind. eapply wp_mono.
  { apply (reply_sound t). destruct Hs1 as (_ & -> & _). destruct Hs0 as (_ & -> & _). done. }
  intros [code|e] w3 [Hs2 Hr]; [|apply Hatt; etransitivity; [done|by etransitivity]].
  assert (same w0 w3) as Hs by (etransitivity; [done|by etransitivity]).
  destruct (Z.eqb_spec code expected) as [->|]; [|by apply wp_throw, Hatt].
  apply wp_ret. destruct Hr as (k & said & Ht & Hr & Hk). destruct Hs as (? & ? & ? & ? & ? & _).
  split_and!; try done. exists said. split.
  - exists k, said, []. by rewrite app_nil_r.
  - apply (untouched_taken _ _ _ w1); [|by apply (untouched_taken _ _ _ w2)]. intros t'. rewrite Hu0. by destruct t'.
Qed.

Lemma conversed_trans t a b ca cb w1 w2 w3 :
  conversed t a ca w1 w2 → conversed t b cb w2 w3 → conversed t (a ++ b) (ca ++ cb) w1 w3.
Proof.
  intros (? & ? & ? & ? & E1 & said & Hr & Ht) (? & ? & ? & ? & E2 & said' & Hr' & Ht').
  split_and!; [congruence..| |].
  - by rewrite E2, E1, fmap_app, app_assoc.
  - exists (said ++ said'). split; [by apply replies_app|by eapply taken_trans].
Qed.
Lemma conversed_attempted t a b ca w1 w2 w3 :
  conversed t a ca w1 w2 → attempted t b w2 w3 → attempted t (a ++ b) w1 w3.
Proof.
  intros (? & ? & ? & ? & E1 & _) (? & ? & ? & ? & E2). split_and!; [congruence..|].
  by rewrite E2, E1, fmap_app, app_assoc.
Qed.

Lemma commands_spec t l w :
  mw_input w = Some t → mw_output w = Some t →
  wp (forM l (λ '(text, expected), smtp_command text expected)) (λ r w',
    match r with Ok _ => conversed t l.*1 l.*2 w w' | Throw _ => ∃ k, attempted t (take k l.*1) w w' end) w.
Proof.
  revert w. induction l as [|[text expected] l IH]; intros w Hi Ho; simpl.
  { apply wp_ret. split_and!; try done; [by rewrite app_nil_r|]. exists []. split; [done|by apply taken_nil]. }
  apply wp_bind. eapply wp_mono; [by apply command_spec|]. intros [[]|e] w1 H1; [|by exists 1].
  eapply wp_mono; [apply IH; [by destruct H1 as (_ & -> & _)|by destruct H1 as (_ & _ & -> & _)]|].
  intros [[]|e] w2.
  - intros H2. by apply (conversed_trans t [text] _ [expected] _ w w1 w2).
  - intros [k H2]. exists (S k). by apply (conversed_attempted t [text] _ [expected] w w1 w2).
Qed.

Section smtp_theorems.
Context (base64 : string → string).

(** From the authentication to the end. *)
Lemma submission_spec o mail w :
  mw_input w = Some Secured → mw_output w = Some Secured →
  wp (forM (submission base64 o mail) (λ '(text, expected), smtp_command text expected) ;;
      modify (λ w, set_flags (mw_aborted w) true (mw_stopping w) w) ;;
      catch (smtp_command quit 221) (λ _, smtp_abort)) (λ r w',
    match r with
    | Ok _ => mw_accepted w' = true ∧
        mw_sent w' = mw_sent w ++ ((λ x, (Secured, x)) <$> ((submission base64 o mail).*1 ++ [quit])) ∧
        ∃ said rest, unread Secured w = said ++ rest ∧ replies (submission base64 o mail).*2 said
    | Throw _ => mw_accepted w' = mw_accepted w ∧
        ∃ k, mw_sent w' = mw_sent w ++ ((λ x, (Secured, x)) <$> take k (submission base64 o mail).*1)
    end) w.
Proof.
  intros Hi Ho. apply wp_bind. eapply wp_mono; [by apply (commands_spec Secured)|]. intros [[]|e] w1 H1.
  2: { destruct H1 as (k & _ & _ & _ & Ha & Hs). split; [done|]. by exists k. }
  destruct H1 as (_ & Hi1 & Ho1 & _ & Hs & said & Hr & Ht).
  apply wp_bind. set (w2 := set_flags (mw_aborted w1) true (mw_stopping w1) w1). change (modify _ w1) with (Ok tt, w2).
  unfold wp at 1. simpl. apply wp_catch.
  assert (∃ said rest, unread Secured w = said ++ rest ∧ replies (submission base64 o mail).*2 said) as Hsaid.
  { exists said, (unread Secured w1). split; [apply Ht|done]. }
  eapply wp_mono; [apply (command_spec Secured quit 221 w2); simpl; congruence|].
  intros [[]|e] w3 H3.
  - destruct H3 as (_ & _ & _ & Ha & Hs3 & _). split_and!; [done| |done]. rewrite Hs3.
    change (mw_sent w2) with (mw_sent w1). by rewrite Hs, <- app_assoc.
  - destruct H3 as (_ & _ & _ & Ha & Hs3). split_and!; [done| |done]. transitivity (mw_sent w3); [done|].
    rewrite Hs3. change (mw_sent w2) with (mw_sent w1). by rewrite Hs, <- app_assoc.
Qed.

(** STARTTLS and the greeting on the secured connection. *)
Lemma upgrade_spec w :
  mw_input w = Some Plain → mw_output w = Some Plain →
  wp (smtp_command starttls 220 ;;
      modify (set_socket None None None) ;; suspend ;; modify (set_socket (Some Secured) None None) ;; streams ;;
      smtp_command ehlo 250) (λ r w',
    mw_accepted w' = mw_accepted w ∧
    match r with
    | Ok _ => mw_input w' = Some Secured ∧ mw_output w' = Some Secured ∧
        mw_sent w' = mw_sent w ++ [(Plain, starttls); (Secured, ehlo)] ∧
        (∃ said, replies [220%Z] said ∧ unread Plain w = said ++ unread Plain w') ∧
        ∃ said, replies [250%Z] said ∧ unread Secured w = said ++ unread Secured w'
    | Throw _ => ∃ k, mw_sent w' = mw_sent w ++ take k [(Plain, starttls); (Secured, ehlo)]
    end) w.
Proof.
  intros Hi Ho. apply wp_bind. eapply wp_mono; [by apply (command_spec Plain)|]. intros [[]|e] w1 H1.
  2: { destruct H1 as (_ & _ & _ & Ha & Hs). split; [done|]. by exists 1. }
  destruct H1 as (_ & _ & _ & Ha & Hs & said & Hr & Ht & Ht').
  apply wp_bind. unfold wp at 1. simpl. set (w2 := set_socket None None None w1). apply wp_bind. unfold wp at 1.
  destruct (suspend_spec w2) as [Hs2 Hu2]. destruct (suspend w2) as [[[]|e] w3]; simpl in Hs2, Hu2 |- *.
  2: { destruct Hs2 as (_ & _ & _ & Ha2 & Hs2 & _). split; [by rewrite Ha2|]. exists 1. by rewrite Hs2. }
  apply wp_bind. unfold wp at 1. simpl. apply wp_bind. unfold wp at 1. simpl. set (w4 := set_socket _ _ _ _).
  eapply wp_mono; [by apply (command_spec Secured ehlo 250 w4)|].
  destruct Hs2 as (_ & _ & _ & Ha2 & Hs2 & _).
  intros [[]|e] w5 H5.
  - destruct H5 as (_ & Hi5 & Ho5 & Ha5 & Hs5 & said5 & Hr5 & Ht5 & Ht5'). split; [by rewrite Ha5; simpl; rewrite Ha2|].
    split_and!; [done|done|by rewrite Hs5; simpl; rewrite Hs2; simpl; rewrite Hs, <- app_assoc| |].
    + exists said. split; [done|]. change (unread Plain w = said ++ unread Plain w5). rewrite Ht, (Ht5' Plain) by done. f_equal. symmetry. apply (Hu2 Plain).
    + exists said5. split; [done|]. change (unread Secured w = said5 ++ unread Secured w5). rewrite <- Ht5. change (unread Secured w4) with (unread Secured w3).
      rewrite (Hu2 Secured). symmetry. by apply (Ht' Secured).
  - destruct H5 as (_ & _ & _ & Ha5 & Hs5). split; [by rewrite Ha5; simpl; rewrite Ha2|]. exists 2. rewrite Hs5. simpl.
    rewrite Hs2. simpl. by rewrite Hs, <- app_assoc.
Qed.

(** ** The whole dialogue *)

Definition opening (s : smtp_address) : list (transport * string) :=
  if smtp_implicit_tls s then [(Secured, ehlo)] else [(Plain, ehlo); (Plain, starttls); (Secured, ehlo)].
Definition dialogue (s : smtp_address) (o : email_options) (mail : verification_mail) : list (transport * string) :=
  opening s ++ ((λ x, (Secured, x)) <$> ((submission base64 o mail).*1 ++ [quit])).
Definition plain_codes (s : smtp_address) : list Z := if smtp_implicit_tls s then [] else [220; 250; 220]%Z.
Definition secured_codes (s : smtp_address) : list Z :=
  ((if smtp_implicit_tls s then [220; 250] else [250]) ++ [334; 334; 235; 250; 250; 354; 250])%Z.

(** The server took the mail: its replies are the expected ones. *)
Definition taken_by_server (s : smtp_address) (plain secured : bytes) : Prop :=
  (∃ said rest, plain = said ++ rest ∧ replies (plain_codes s) said) ∧
  (∃ said rest, secured = said ++ rest ∧ replies (secured_codes s) said).

Lemma opening_spec s w :
  wp (suspend ;;
      modify (λ w, set_socket (Some (if smtp_implicit_tls s then Secured else Plain)) (mw_input w) (mw_output w) w) ;;
      streams ;;
      greeting ← reply;
      if negb (greeting =? 220)%Z then throw (RuntimeError "SMTP greeting rejected") else smtp_command ehlo 250) (λ r w',
    let t := if smtp_implicit_tls s then Secured else Plain in
    mw_accepted w' = mw_accepted w ∧
    match r with
    | Ok _ => mw_input w' = Some t ∧ mw_output w' = Some t ∧ mw_sent w' = mw_sent w ++ [(t, ehlo)] ∧
        ∃ said, replies [220; 250]%Z said ∧ taken t said w w'
    | Throw _ => mw_sent w' = mw_sent w ∨ mw_sent w' = mw_sent w ++ [(t, ehlo)]
    end) w.
Proof.
  set (t := if smtp_implicit_tls s then Secured else Plain).
  apply wp_bind. unfold wp at 1. destruct (suspend_spec w) as [(_ & _ & _ & Ha & Hs & _) Hu].
  destruct (suspend w) as [[[]|e] w1]; simpl in Ha, Hs, Hu |- *; [|by auto].
  apply wp_bind. unfold wp at 1. simpl. apply wp_bind. unfold wp at 1. simpl. set (w2 := set_socket _ _ _ _).
  apply wp_bind. eapply wp_mono; [by apply (reply_sound t w2)|]. intros [code|e] w3 [(_ & Hi3 & Ho3 & Ha3 & Hs3 & _) Hr].
  2: { split; [by rewrite Ha3|]. left. by rewrite Hs3. }
  destruct (Z.eqb_spec code 220) as [->|]; simpl negb; cbv iota.
  2: { apply wp_throw. split; [by rewrite Ha3|]. left. by rewrite Hs3. }
  eapply wp_mono; [by apply (command_spec t ehlo 250 w3); rewrite ?Hi3, ?Ho3|].
  intros [[]|e] w4 H4.
  - destruct H4 as (_ & Hi4 & Ho4 & Ha4 & Hs4 & said4 & Hr4 & Ht4). split; [by rewrite Ha4, Ha3|].
    split_and!; [by rewrite Hi4, Hi3|by rewrite Ho4, Ho3|by rewrite Hs4, Hs3; simpl; rewrite Hs|].
    destruct Hr as (k & said & Ht & Hrep & Hk). exists (said ++ said4). split.
    + by exists k, said, said4.
    + apply (untouched_taken _ _ _ w2); [intros t'; rewrite <- (Hu t'); by destruct t'|]. by eapply taken_trans.
  - destruct H4 as (_ & _ & _ & Ha4 & Hs4). split; [by rewrite Ha4, Ha3|]. right. rewrite Hs4, Hs3. simpl. by rewrite Hs.
Qed.

(** send_mail in its three parts. *)
Lemma send_mail_parts s o mail w :
  send_mail base64 s o mail w =
    ((suspend ;;
      modify (λ w, set_socket (Some (if smtp_implicit_tls s then Secured else Plain)) (mw_input w) (mw_output w) w) ;;
      streams ;;
      greeting ← reply;
      if negb (greeting =? 220)%Z then throw (RuntimeError "SMTP greeting rejected") else smtp_command ehlo 250) ;;
     (if smtp_implicit_tls s then mret tt
      else
        smtp_command starttls 220 ;;
        modify (set_socket None None None) ;; suspend ;; modify (set_socket (Some Secured) None None) ;; streams ;;
        smtp_command ehlo 250) ;;
     forM (submission base64 o mail) (λ '(text, expected), smtp_command text expected) ;;
     modify (λ w, set_flags (mw_aborted w) true (mw_stopping w) w) ;;
     catch (smtp_command quit 221) (λ _, smtp_abort)) w.
Proof.
  unfold send_mail, streams, modify, mbind, eff_bind. destruct (suspend w) as [[[]|e] w1]; [|done]. cbv beta iota zeta.
  destruct (reply _) as [[code|e] w2]; [|done]. by destruct (negb (code =? 220)%Z).
Qed.

(** A text that may travel unprotected. *)
Definition protected (p : transport * string) : Prop := p.1 = Secured ∨ p.2 = ehlo ∨ p.2 = starttls.

Lemma protected_opening s k : Forall protected (take k (opening s)).
Proof. apply Forall_take. unfold opening. destruct (smtp_implicit_tls s); rewrite ?Forall_cons, Forall_nil; unfold protected; naive_solver. Qed.
Lemma protected_secured l : Forall protected ((λ x, (Secured, x)) <$> l).
Proof. apply Forall_fmap, Forall_true. by left. Qed.

Lemma send_mail_spec s o mail w :
  mw_accepted w = false → mw_sent w = [] →
  wp (send_mail base64 s o mail) (λ r w',
    match r with
    | Ok _ => mw_accepted w' = true ∧ mw_sent w' = dialogue s o mail ∧ taken_by_server s (mw_plain w) (mw_secured w)
    | Throw _ => mw_accepted w' = false ∧ Forall protected (mw_sent w')
    end) w.
Proof.
  intros Ha Hs. eapply wp_ext; [apply send_mail_parts|]. apply wp_bind.
  eapply wp_mono; [apply (opening_spec s w)|]. intros [[]|e] w1 [Ha1 H1].
  2: { split; [congruence|]. rewrite Hs in H1. destruct H1 as [-> | ->]; [constructor|]. constructor; [by right; left|constructor]. }
  destruct H1 as (Hi1 & Ho1 & Hs1 & said1 & Hr1 & Ht1). rewrite Hs in Hs1. simpl in Hs1. apply wp_bind.
  destruct (smtp_implicit_tls s) eqn:Etls.
  - apply wp_ret. eapply wp_mono; [by apply submission_spec|]. intros [[]|e] w2 H2.
    + destruct H2 as (? & Hs2 & said2 & rest & Hu & Hr2). split_and!; [done| |].
      { rewrite Hs2, Hs1. unfold dialogue, opening. by rewrite Etls. }
      unfold taken_by_server, plain_codes, secured_codes. rewrite Etls. split; [by exists [], (mw_plain w)|].
      exists (said1 ++ said2), rest. split; [|by apply (replies_app [220; 250]%Z)].
      destruct Ht1 as [Ht1 _]. change (mw_secured w) with (unread Secured w). by rewrite Ht1, Hu, app_assoc.
    + destruct H2 as (Ha2 & k & Hs2). split; [congruence|]. rewrite Hs2, Hs1.
      apply Forall_app_2; [constructor; [by left|constructor]|apply protected_secured].
  - eapply wp_mono; [by apply upgrade_spec|]. intros [[]|e] w2 [Ha2 H2].
    2: { destruct H2 as [k Hs2]. split; [congruence|]. rewrite Hs2, Hs1.
      pose proof (protected_opening s (S k)) as Hp. unfold opening in Hp. by rewrite Etls in Hp. }
    destruct H2 as (Hi2 & Ho2 & Hs2 & (saidp & Hrp & Hup) & saids & Hrs & Hus).
    eapply wp_mono; [by apply submission_spec|]. intros [[]|e] w3 H3.
    + destruct H3 as (? & Hs3 & said3 & rest & Hu & Hr3). split_and!; [done| |].
      { rewrite Hs3, Hs2, Hs1. unfold dialogue, opening. by rewrite Etls. }
      destruct Ht1 as [Ht1 Ht1']. unfold taken_by_server, plain_codes, secured_codes. rewrite Etls. split.
      * exists (said1 ++ saidp), (unread Plain w2). split; [|by apply (replies_app [220; 250]%Z)].
        change (mw_plain w) with (unread Plain w). by rewrite Ht1, Hup, app_assoc.
      * exists (saids ++ said3), rest. split; [|by apply (replies_app [250]%Z)].
        change (mw_secured w) with (unread Secured w). by rewrite <- (Ht1' Secured), Hus, Hu, app_assoc.
    + destruct H3 as (Ha3 & k & Hs3). split; [congruence|]. rewrite Hs3, Hs2, Hs1.
      pose proof (protected_opening s 3) as Hp. unfold opening in Hp. rewrite Etls in Hp.
      apply Forall_app_2; [done|apply protected_secured].
Qed.

(** ** The operation of the driver *)

Lemma close_stream_spec reset w :
  (∀ w, mw_accepted (reset w) = mw_accepted w ∧ mw_sent (reset w) = mw_sent w ∧ mw_aborted (reset w) = mw_aborted w) →
  wp (close_stream reset) (λ r w',
    mw_accepted w' = mw_accepted w ∧ mw_sent w' = mw_sent w ∧
    (mw_aborted w = true → mw_aborted w' = true) ∧ (mw_aborted w = true ∨ mw_accepted w = true → r = Ok tt)) w.
Proof.
  intros Hr. apply wp_bind, wp_catch. unfold wp at 1. destruct (suspend_spec w) as [(_ & _ & _ & Ha & Hs & Hb) _].
  destruct (suspend w) as [[[]|e] w1]; simpl in Ha, Hs, Hb |- *.
  - destruct (Hr w1) as (H1 & H2 & H3). unfold wp, modify. simpl. rewrite H1, H2, H3, Ha, Hs. auto.
  - unfold wp. destruct (negb (mw_aborted w1) && negb (mw_accepted w1)) eqn:E; simpl.
    + split_and!; [done..|]. apply andb_true_iff in E as [E1 E2]. rewrite negb_true_iff in E1, E2.
      intros [H|H]; [by rewrite Hb in E1|congruence].
    + destruct (Hr w1) as (H1 & H2 & H3). unfold wp, modify. simpl. rewrite H1, H2, H3, Ha, Hs. auto.
Qed.

Lemma smtp_close_spec w :
  wp smtp_close (λ r w',
    mw_accepted w' = mw_accepted w ∧ mw_sent w' = mw_sent w ∧ (mw_aborted w = true ∨ mw_accepted w = true → r = Ok tt)) w.
Proof.
  unfold smtp_close. apply wp_bind. unfold wp at 1. simpl. apply wp_bind.
  apply (wp_mono _ (λ r w', mw_accepted w' = mw_accepted w ∧ mw_sent w' = mw_sent w ∧
    (mw_aborted w = true → mw_aborted w' = true) ∧ (mw_aborted w = true ∨ mw_accepted w = true → r = Ok tt))).
  { destruct (mw_output w); [by apply close_stream_spec|]. apply wp_ret. auto. }
  intros [[]|e] w1 (Ha & Hs & Hb & Hok); [|done]. apply wp_bind. unfold wp at 1. simpl. apply wp_bind.
  apply (wp_mono _ (λ r w', mw_accepted w' = mw_accepted w1 ∧ mw_sent w' = mw_sent w1 ∧
    (mw_aborted w1 = true → mw_aborted w' = true) ∧ (mw_aborted w1 = true ∨ mw_accepted w1 = true → r = Ok tt))).
  { destruct (mw_input w1); [by apply close_stream_spec|]. apply wp_ret. auto. }
  rewrite <- Ha, <- Hs. intros [[]|e] w2 (Ha2 & Hs2 & _ & Hok2); [done|]. split_and!; [done..|].
  intros [H|H]; [|by apply Hok2; right]. apply Hok2. left. auto.
Qed.

(** What a run of the operation leaves, from a connection as it is constructed. *)
Definition mail_outcome (s : smtp_address) (o : email_options) (mail : verification_mail) (plain secured : bytes)
    (r : outcome unit) (w' : mail_world) : Prop :=
  (r = Ok tt ↔ mw_accepted w' = true) ∧
  (mw_accepted w' = true → mw_sent w' = dialogue s o mail ∧ taken_by_server s plain secured) ∧
  Forall protected (mw_sent w').

(** Before the connection is closed. *)
Definition mail_tried (s : smtp_address) (o : email_options) (mail : verification_mail) (plain secured : bytes)
    (failure : option exn) (w : mail_world) : Prop :=
  match failure with
  | None => mw_accepted w = true ∧ mw_sent w = dialogue s o mail ∧ taken_by_server s plain secured
  | Some _ => mw_aborted w = true ∧ mw_accepted w = false ∧ Forall protected (mw_sent w)
  end.

Lemma close_outcome s o mail plain secured failure w :
  mail_tried s o mail plain secured failure w →
  wp (smtp_close ;; match failure with Some e => throw e | None => mret tt end) (mail_outcome s o mail plain secured) w.
Proof.
  intros Hp. apply wp_bind. eapply wp_mono; [apply smtp_close_spec|]. intros r w2 (Ha & Hs & Hok). destruct failure as [e|].
  - destruct Hp as (Hab & Hacc & Hpr). rewrite Hok by auto. apply wp_throw. unfold mail_outcome. rewrite Ha, Hs, Hacc.
    by split_and!.
  - destruct Hp as (Hacc & Hsent & Ht). rewrite Hok by auto. apply wp_ret. unfold mail_outcome. rewrite Ha, Hs, Hacc, Hsent.
    split_and!; [done..|]. apply Forall_app_2; [|apply protected_secured].
    rewrite <- (firstn_all (opening s)). apply protected_opening.
Qed.

Lemma execute_outcome s o mail stopping plain secured ahead :
  wp (execute_send_verification_email base64 s o mail) (mail_outcome s o mail plain secured)
    (fresh_mail stopping plain secured ahead).
Proof.
  set (w := fresh_mail stopping plain secured ahead). unfold execute_send_verification_email.
  apply wp_bind. unfold wp at 1, running. subst w.
  destruct stopping; simpl; [unfold mail_outcome; simpl; split_and!; try done; constructor|].
  set (w := fresh_mail false plain secured ahead). apply wp_bind, wp_catch.
  apply (wp_mono _ (λ r w', match r with
    | Ok failure => mail_tried s o mail plain secured failure w'
    | Throw _ => mw_accepted w' = false ∧ Forall protected (mw_sent w') end)).
  { apply wp_bind. unfold wp at 1. destruct (suspend_spec w) as [(_ & _ & _ & Ha & Hs & _) Hu].
    assert (Forall protected (mw_sent (suspend w).2)) as Hf by (rewrite Hs; constructor).
    destruct (suspend w) as [[[]|e] w1]; simpl in Ha, Hs, Hu, Hf |- *; [|done].
    apply wp_bind. unfold wp at 1, running. destruct (mw_stopping w1); simpl; [done|].
    apply wp_bind. eapply wp_mono; [by apply send_mail_spec|]. intros [[]|e] w2 H2; [|done].
    apply wp_ret. by rewrite (Hu Plain : mw_plain w1 = plain), (Hu Secured : mw_secured w1 = secured) in H2. }
  intros [failure|e] w1 H1; [by apply close_outcome|]. apply wp_bind. unfold wp at 1. simpl. by apply close_outcome.
Qed.

(** ** Without failures a mail that the server takes is sent *)

(** [w'] follows [w] after [t] was read up to [rest], with no failure ahead. *)
Definition read_up_to (t : transport) (rest : bytes) (w w' : mail_world) : Prop :=
  mw_input w' = mw_input w ∧ mw_output w' = mw_output w ∧ mw_ahead w' = [] ∧ mw_stopping w' = mw_stopping w ∧
  unread t w' = rest ∧ ∀ t', t' ≠ t → unread t' w' = unread t' w.

Lemma reply_quiet t code k text rest w :
  mw_input w = Some t → mw_ahead w = [] → is_reply code k text → k ≤ max_lines → unread t w = text ++ rest →
  wp reply (λ r w', r = Ok code ∧ read_up_to t rest w w') w.
Proof.
  intros. unfold wp. erewrite reply_complete by done. split; [done|].
  split_and!; [done..|by destruct t|]. intros t' ?. by destruct t, t'.
Qed.

Lemma command_quiet t text expected k r rest w :
  mw_input w = Some t → mw_output w = Some t → mw_ahead w = [] →
  is_reply expected k r → k ≤ max_lines → unread t w = r ++ rest →
  wp (smtp_command text expected) (λ r w', r = Ok tt ∧ read_up_to t rest w w') w.
Proof.
  intros Hi Ho Ha Hr Hk Hu. unfold smtp_command. apply wp_bind. unfold wp at 1, write_text. rewrite Ho.
  unfold suspend. simpl. rewrite Ha. apply wp_bind. unfold wp at 1, flush, suspend. simpl. rewrite Ho, Ha.
  apply wp_bind. eapply wp_mono; [apply (reply_quiet t expected k r rest); try done; by destruct t|].
  intros r' w1 [-> Hw]. by rewrite Z.eqb_refl.
Qed.

Lemma commands_quiet t l said rest w :
  mw_input w = Some t → mw_output w = Some t → mw_ahead w = [] →
  replies l.*2 said → unread t w = said ++ rest →
  wp (forM l (λ '(text, expected), smtp_command text expected)) (λ r w', r = Ok tt ∧ read_up_to t rest w w') w.
Proof.
  revert said w. induction l as [|[text expected] l IH]; intros said w Hi Ho Ha Hr Hu; simpl in *.
  { subst said. apply wp_ret. split; [done|]. by split_and!. }
  destruct Hr as (k & r & said' & -> & Hr & Hk & Hl). rewrite <- app_assoc in Hu. apply wp_bind.
  eapply wp_mono; [by apply (command_quiet t text expected k r (said' ++ rest))|].
  intros _ w1 (-> & Hi1 & Ho1 & Ha1 & Hs1 & Hu1 & Ht1). eapply wp_mono; [apply (IH said'); [by rewrite Hi1|by rewrite Ho1|done..]|].
  intros _ w2 (-> & Hi2 & Ho2 & Ha2 & Hs2 & Hu2 & Ht2). split; [done|]. split_and!; [congruence..|].
  intros t' Ht. by rewrite Ht2, Ht1.
Qed.

Lemma opening_quiet s t r rest w :
  t = (if smtp_implicit_tls s then Secured else Plain) → mw_ahead w = [] →
  replies [220; 250]%Z r → unread t w = r ++ rest →
  wp (suspend ;;
      modify (λ w, set_socket (Some (if smtp_implicit_tls s then Secured else Plain)) (mw_input w) (mw_output w) w) ;;
      streams ;;
      greeting ← reply;
      if negb (greeting =? 220)%Z then throw (RuntimeError "SMTP greeting rejected") else smtp_command ehlo 250) (λ r w',
    r = Ok tt ∧ mw_input w' = Some t ∧ mw_output w' = Some t ∧ mw_ahead w' = [] ∧ unread t w' = rest ∧
    ∀ t', t' ≠ t → unread t' w' = unread t' w) w.
Proof.
  intros Et Ha (k1 & r1 & r' & -> & Hr1 & Hk1 & k2 & r2 & e & -> & Hr2 & Hk2 & ->) Hu. rewrite <- Et, app_nil_r in *.
  apply wp_bind. unfold wp at 1, suspend. rewrite Ha. apply wp_bind. unfold wp at 1. simpl. apply wp_bind. unfold wp at 1. simpl.
  set (w1 := set_socket _ _ _ _). rewrite <- app_assoc in Hu. apply wp_bind.
  eapply wp_mono; [apply (reply_quiet t 220 k1 r1 (r2 ++ rest) w1); try done; by destruct t|].
  intros _ w2 (-> & Hi & Ho & Ha2 & _ & Hu2 & Ht). eapply wp_mono; [by apply (command_quiet t ehlo 250 k2 r2 rest w2)|].
  intros _ w3 (-> & Hi3 & Ho3 & Ha3 & _ & Hu3 & Ht3). split_and!; [done|by rewrite Hi3, Hi|by rewrite Ho3, Ho|done|done|].
  intros t' Ht'. rewrite Ht3, Ht by done. by destruct t'.
Qed.

Lemma submission_quiet o mail said rest w :
  mw_input w = Some Secured → mw_output w = Some Secured → mw_ahead w = [] →
  replies (submission base64 o mail).*2 said → mw_secured w = said ++ rest →
  wp (forM (submission base64 o mail) (λ '(text, expected), smtp_command text expected) ;;
      modify (λ w, set_flags (mw_aborted w) true (mw_stopping w) w) ;;
      catch (smtp_command quit 221) (λ _, smtp_abort)) (λ r w', r = Ok tt) w.
Proof.
  intros Hi Ho Ha Hr Hu. apply wp_bind. eapply wp_mono; [by apply (commands_quiet Secured _ said rest)|].
  intros _ w1 [-> _]. apply wp_bind. unfold wp at 1. simpl. apply wp_catch.
  unfold wp at 1. by destruct (smtp_command quit 221 _) as [[[]|e] w2].
Qed.

Lemma send_mail_quiet s o mail w :
  mw_ahead w = [] → taken_by_server s (mw_plain w) (mw_secured w) → wp (send_mail base64 s o mail) (λ r w', r = Ok tt) w.
Proof.
  intros Ha [(sp & rp & Ep & Hp) (ss & rs & Es & Hs)]. eapply wp_ext; [apply send_mail_parts|]. apply wp_bind.
  unfold plain_codes, secured_codes in *. destruct (smtp_implicit_tls s) eqn:Etls.
  - destruct Hs as (k1 & r1 & x & -> & H1 & Hk1 & k2 & r2 & rest & -> & H2 & Hk2 & Hr). rewrite <- !app_assoc in Es.
    eapply wp_mono.
    { pose proof (opening_quiet s Secured (r1 ++ r2) (rest ++ rs)) as Ho. rewrite Etls in Ho. apply Ho; [done|done| |].
      - exists k1, r1, r2. split_and!; [done..|]. exists k2, r2, []. by rewrite app_nil_r.
      - simpl. by rewrite Es, app_assoc. }
    intros _ w1 (-> & Hi1 & Ho1 & Ha1 & Hu1 & _). apply wp_bind, wp_ret. by eapply submission_quiet.
  - destruct Hp as (k1 & r1 & x & -> & H1 & Hk1 & k2 & r2 & y & -> & H2 & Hk2 & k3 & r3 & z & -> & H3 & Hk3 & ->).
    destruct Hs as (k4 & r4 & rest & -> & H4 & Hk4 & Hr). rewrite app_nil_r, <- !app_assoc in Ep. rewrite <- !app_assoc in Es.
    eapply wp_mono.
    { pose proof (opening_quiet s Plain (r1 ++ r2) (r3 ++ rp)) as Ho. rewrite Etls in Ho. apply Ho; [done|done| |].
      - exists k1, r1, r2. split_and!; [done..|]. exists k2, r2, []. by rewrite app_nil_r.
      - simpl. by rewrite Ep, !app_assoc. }
    intros _ w1 (-> & Hi1 & Ho1 & Ha1 & Hu1 & Ht1). apply wp_bind. apply wp_bind.
    eapply wp_mono; [by apply (command_quiet Plain starttls 220 k3 r3 rp w1)|].
    intros _ w2 (-> & _ & _ & Ha2 & _ & Hu2 & Ht2). apply wp_bind. unfold wp at 1. simpl. apply wp_bind.
    unfold wp at 1, suspend. simpl. rewrite Ha2. apply wp_bind. unfold wp at 1. simpl. apply wp_bind. unfold wp at 1. simpl.
    eapply wp_mono; [apply (command_quiet Secured ehlo 250 k4 r4 (rest ++ rs)); try done|].
    { change (unread Secured w2 = r4 ++ rest ++ rs). by rewrite (Ht2 Secured), (Ht1 Secured). }
    intros _ w3 (-> & Hi3 & Ho3 & Ha3 & _ & Hu3 & _). by eapply submission_quiet.
Qed.

Lemma execute_quiet s o mail plain secured :
  taken_by_server s plain secured →
  (execute_send_verification_email base64 s o mail (fresh_mail false plain secured [])).1 = Ok tt.
Proof.
  intros Ht. set (w := fresh_mail false plain secured []).
  change (wp (execute_send_verification_email base64 s o mail) (λ r _, r = Ok tt) w).
  apply wp_bind. unfold wp at 1. simpl. apply wp_bind, wp_catch. apply wp_bind. unfold wp at 1. simpl.
  apply wp_bind. unfold wp at 1. simpl. apply wp_bind.
  pose proof (send_mail_spec s o mail w eq_refl eq_refl) as Hspec. pose proof (send_mail_quiet s o mail w eq_refl Ht) as Hok.
  unfold wp in Hspec, Hok |- * at 1. destruct (send_mail base64 s o mail w) as [r w1]. simpl in Hspec, Hok |- *. subst r.
  destruct Hspec as (Ha & _ & _). simpl. apply wp_bind. eapply wp_mono; [apply smtp_close_spec|].
  intros r w2 (_ & _ & Hr). by rewrite Hr by auto.
Qed.

(** ** The mail as the server reads it *)

(** The lines of a text, without their newlines. *)
Fixpoint split_lines (line : bytes) (text : bytes) : list bytes :=
  match text with
  | [] => if bool_decide (line = []) then [] else [line]
  | c :: text => if bool_decide (c = newline) then line :: split_lines [] text else split_lines (line ++ [c]) text
  end.

Lemma split_lines_line acc l rest :
  newline ∉ l → split_lines acc (l ++ newline :: rest) = (acc ++ l) :: split_lines [] rest.
Proof.
  revert acc. induction l as [|c l IH]; intros acc Hl; simpl.
  - by rewrite app_nil_r.
  - apply not_elem_of_cons in Hl as [Hc Hl]. rewrite bool_decide_eq_false_2 by done. rewrite IH by done.
    by rewrite <- app_assoc.
Qed.

(** A line as it is sent. *)
Definition sent_line (s : string) : bytes := bytes_of s ++ ["013"%char].

Lemma split_lines_sent s rest :
  newline ∉ bytes_of s → split_lines [] (bytes_of (s +:+ crlf +:+ rest)) = sent_line s :: split_lines [] (bytes_of rest).
Proof.
  intros Hs. rewrite !bytes_app. change (bytes_of crlf) with ["013"%char; newline]. unfold sent_line.
  rewrite <- (split_lines_line [] (bytes_of s ++ ["013"%char])).
  - f_equal. by rewrite <- !app_assoc.
  - rewrite not_elem_of_app, list_elem_of_singleton. done.
Qed.

Lemma mail_text_lines user mail :
  free_of newline user = true → free_of newline (ml_recipient mail) = true → free_of newline (ml_code mail) = true →
  split_lines [] (bytes_of (mail_text user mail)) = sent_line <$>
    ["To: " +:+ ml_recipient mail; "From: " +:+ user; "Subject: IMM verification code";
     "Content-Type: text/plain; charset=utf-8"; "";
     "Your IMM verification code is " +:+ ml_code mail +:+ ". It expires in " +:+ pretty (ml_ttl_seconds mail) +:+ " seconds.";
     "."].
Proof.
  intros Hu%free_of_bytes Hr%free_of_bytes Hc%free_of_bytes. unfold mail_text.
  assert (newline ∉ bytes_of (pretty (ml_ttl_seconds mail))) as Ht by (by apply free_of_bytes, free_of_Z).
  assert (∀ s, free_of newline s = true → newline ∉ bytes_of s) as Hf by apply free_of_bytes.
  rewrite (string_app_assoc "To: "), split_lines_sent by (rewrite bytes_app, not_elem_of_app; auto).
  rewrite (string_app_assoc "From: "), split_lines_sent by (rewrite bytes_app, not_elem_of_app; auto).
  rewrite !split_lines_sent by (by apply Hf).
  change (crlf +:+ ?r) with ("" +:+ crlf +:+ r). rewrite split_lines_sent by (by apply Hf).
  assert (∀ a b c d e f : string, a +:+ b +:+ c +:+ d +:+ e +:+ f = (a +:+ b +:+ c +:+ d +:+ e) +:+ f) as E5
    by (intros; by rewrite <- !string_app_assoc).
  rewrite E5, split_lines_sent by (rewrite !bytes_app, !not_elem_of_app; auto 10).
  change ("." +:+ crlf) with ("." +:+ crlf +:+ ""). rewrite split_lines_sent by (by apply Hf). done.
Qed.
End smtp_theorems.

(** C26: A mail counts as sent exactly when the mail server took it. Whatever the
    server sends, whatever fails and whenever the driver is stopped: the
    operation succeeds if and only if the connection saw the acceptance, and then
    the whole dialogue was sent, in its order, and the server's replies were the
    expected ones up to the 250 for the text; a failure after that, at QUIT or
    while closing, does not turn the mail into a failed one. When nothing fails
    and the server takes the mail, the operation succeeds. The text has, for a
    recipient, a sender and a code without line breaks, seven lines, of which
    only the last is a lone dot. *)
Theorem mail_sent_iff_accepted base64 s o mail stopping plain secured ahead :
  let '(r, w) := execute_send_verification_email base64 s o mail (fresh_mail stopping plain secured ahead) in
  (r = Ok tt ↔ mw_accepted w = true) ∧
  (r = Ok tt → mw_sent w = dialogue base64 s o mail ∧ taken_by_server s plain secured) ∧
  (stopping = false ∧ ahead = [] ∧ taken_by_server s plain secured → r = Ok tt) ∧
  (free_of newline (eo_user o) && free_of newline (ml_recipient mail) && free_of newline (ml_code mail) = true →
   ∃ lines, split_lines [] (bytes_of (mail_text (eo_user o) mail)) = lines ++ [sent_line "."] ∧
     length lines = 6 ∧ sent_line "." ∉ lines).
Proof.
  pose proof (execute_outcome base64 s o mail stopping plain secured ahead) as (Hacc & Hsent & _).
  pose proof (λ H, execute_quiet base64 s o mail plain secured H) as Hq. unfold fresh_mail in *.
  destruct (execute_send_verification_email _ _ _ _ _) as [r w] eqn:E. simpl in Hacc, Hsent. split_and!; [done|tauto| |].
  - intros (-> & -> & Ht). specialize (Hq Ht). by rewrite E in Hq.
  - intros [[Hu Hr]%andb_true_iff Hc]%andb_true_iff. rewrite mail_text_lines by done. rewrite !fmap_cons.
    eexists [_; _; _; _; _; _]. split_and!; [done|done|]. rewrite !not_elem_of_cons. split_and!; try done. apply not_elem_of_nil.
Qed.

(** C27: Credentials and codes travel encrypted. Whatever the server sends and
    whatever fails, all that the Gate ever sends outside TLS is EHLO and
    STARTTLS: neither the user name and password of the mail account nor the
    recipient and the code. *)
Theorem credentials_travel_encrypted base64 s o mail stopping plain secured ahead t text :
  (t, text) ∈ mw_sent (execute_send_verification_email base64 s o mail (fresh_mail stopping plain secured ahead)).2 →
  t = Secured ∨ text = ehlo ∨ text = starttls.
Proof.
  intros Hin. pose proof (execute_outcome base64 s o mail stopping plain secured ahead) as (_ & _ & Hp).
  rewrite Forall_forall in Hp. exact (Hp _ Hin).
Qed.

(** ** A run *)

Definition demo_reply (s : string) : bytes := bytes_of s ++ ["013"%char; "010"%char].
Definition demo_mail : verification_mail := MkMail "ann@example.org" "123456" 180.
Definition demo_email : email_options := MkEmailOptions true "gate@example.org" "secret" "" "smtp://mail.example.org".
Definition demo_relay : smtp_address := MkSmtp "mail.example.org" 587 false.
Definition demo_plain : bytes :=
  demo_reply "220 mail.example.org" ++ demo_reply "250-mail.example.org" ++ demo_reply "250 STARTTLS" ++ demo_reply "220 go".
Definition demo_secured : bytes :=
  concat (demo_reply <$> ["250 mail"; "334 user"; "334 password"; "235 ok"; "250 ok"; "250 ok"; "354 go"; "250 queued"]).

(** The password is sent, on the secured connection. *)
Lemma credentials_travel_encrypted_witness :
  let sent := mw_sent (execute_send_verification_email id demo_relay demo_email demo_mail
                         (fresh_mail false demo_plain demo_secured [])).2 in
  (Secured, "secret" +:+ crlf) ∈ sent ∧ (Plain, starttls) ∈ sent ∧ (Plain, "secret" +:+ crlf) ∉ sent.
Proof.
  assert (mw_sent (execute_send_verification_email id demo_relay demo_email demo_mail (fresh_mail false demo_plain demo_secured [])).2 !! 5 =
    Some (Secured, "secret" +:+ crlf)) as H1 by (vm_compute; reflexivity).
  assert (mw_sent (execute_send_verification_email id demo_relay demo_email demo_mail (fresh_mail false demo_plain demo_secured [])).2 !! 1 =
    Some (Plain, starttls)) as H2 by (vm_compute; reflexivity).
  split; [by eapply list_elem_of_lookup_2|]. split; [by eapply list_elem_of_lookup_2|]. intros H3.
  destruct (credentials_travel_encrypted id demo_relay demo_email demo_mail false demo_plain demo_secured [] _ _ H3)
    as [E|[E|E]]; [discriminate E|vm_compute in E; discriminate E|vm_compute in E; discriminate E].
Defined.

(** The peer is gone after it took the mail: the mail is sent all the same. *)
Example demo_sent :
  (execute_send_verification_email id demo_relay demo_email demo_mail (fresh_mail false demo_plain demo_secured [])).1 = Ok tt.
Proof. vm_compute. done. Qed.
