(* ===== verification/MysqlConnection.v ===== *)
(** * Connections to MySQL

    Models common/reactor/mysql_connection.cc. The MariaDB connector is an
    interface: a call of its non-blocking API either returns or asks to be
    continued when the socket is ready; what the calls mean is stated by laws
    over the stages of a prepared statement. *)

From S2P Require Import Prelude Options.
From Stdlib Require Import Ascii.

(** ** The connector *)

(** A started call: [Pending mask k] waits for an event of [mask] and is
    continued with the events that occurred. *)
Inductive nonblocking (A : Type) :=
  | Returned (a : A)
  | Pending (mask : Z) (continue : Z → nonblocking A).
Arguments Returned {_} _.
Arguments Pending {_} _ _.

(** Every way the call can return. *)
Fixpoint returns {A} (P : A → Prop) (t : nonblocking A) : Prop :=
  match t with Returned a => P a | Pending _ k => ∀ events, returns P (k events) end.

Definition MYSQL_WAIT_READ : Z := 1.
Definition MYSQL_WAIT_WRITE : Z := 2.
Definition MYSQL_WAIT_EXCEPT : Z := 4.
Definition MYSQL_WAIT_TIMEOUT : Z := 8.
Definition MYSQL_NO_DATA : Z := 100.
Definition MYSQL_DATA_TRUNCATED : Z := 101.
Definition duplicate_key : Z := 1062.

(** It waits for something that [wait] can wait for. *)
Fixpoint waitable {A} (t : nonblocking A) : Prop :=
  match t with
  | Returned _ => True
  | Pending mask k =>
      Z.land mask MYSQL_WAIT_EXCEPT = 0%Z ∧ Z.land mask (8 + 2 + 1) ≠ 0%Z ∧ ∀ events, waitable (k events)
  end.

(** mysql_parameter *)
Inductive mysql_parameter := Text (s : string) | Integer (z : Z).

Definition mysql_row : Type := list (option string).

(** What the server answered to a statement. *)
Record sql_answer := MkAnswer {
  an_error : option (Z * string); an_columns : nat; an_rows : list mysql_row; an_affected : Z; an_insert_id : Z }.

Definition answer_ok (an : sql_answer) : Prop :=
  Forall (λ row, length row = an_columns an) (an_rows an) ∧ (an_columns an = 0 → an_rows an = []) ∧
  (∀ e, an_error an = Some e → e.1 ≠ 0%Z ∧ an_columns an = 0).

(** A statement the server has executed. *)
Record executed := MkExecuted { ex_sql : string; ex_parameters : list mysql_parameter; ex_answer : sql_answer }.

(** How far a prepared statement is. *)
Inductive stage :=
  | NoStatement
  | Initialized
  | Prepared (sql : string)
  | Bound (sql : string) (parameters : list mysql_parameter)
  | Executed (an : sql_answer)
  | Stored (an : sql_answer) (row : option mysql_row) (rest : list mysql_row).

(** The buffer of a result column, in bytes. *)
Definition buffer_size : nat := Z.to_nat 1024.

(** What a fetch leaves in the buffer of a column: nothing for NULL, otherwise
    the length of the value and as much of it as fits. *)
Definition fetched (v : option string) : option (nat * bytes) :=
  match v with None => None | Some s => Some (String.length s, take buffer_size (bytes_of s)) end.

(** What a connection is opened with; with TLS, the name of the peer and the
    certificate authority are given. *)
Record connect_arguments := MkConnectArguments {
  ca_ip : string; ca_user : string; ca_password : string; ca_schema : string; ca_port : Z;
  ca_tls : option (string * string) }.

Class Connector := {
  mysql : Type;
  mysql_error : mysql → string;
  stmt_errno : mysql → Z;
  stmt_error : mysql → string;
  stmt_init : mysql → option mysql;
  stmt_prepare : string → mysql → nonblocking (Z * mysql);
  stmt_bind_param : list mysql_parameter → mysql → Z * mysql;
  stmt_execute : mysql → nonblocking (Z * mysql);
  stmt_field_count : mysql → nat;
  stmt_bind_result : mysql → Z * mysql;
  stmt_store_result : mysql → nonblocking (Z * mysql);
  stmt_num_rows : mysql → nat;
  stmt_fetch : mysql → nonblocking (Z * list (option (nat * bytes)) * mysql);
  stmt_fetch_column : nat → nat → mysql → Z * bytes;
  stmt_affected_rows : mysql → Z;
  stmt_insert_id : mysql → Z;
  stmt_close : mysql → nonblocking (Z * mysql);
  real_query : string → mysql → nonblocking (Z * mysql);
  field_count : mysql → nat;
  real_connect : connect_arguments → mysql → nonblocking (bool * mysql);
  disconnect : mysql → nonblocking unit;
  (** what the calls did: statements executed so far, the stage of the current
      one, and whether the network and the client library work *)
  history : mysql → list executed;
  at_stage : mysql → stage;
  works : mysql → bool
}.

(** What the connector documents. A status of zero is success; what a call
    leaves when it fails is not specified, except that a statement that was
    refused by the server was executed with an error. *)
Class ConnectorLaws `{Connector} := {
  init_law m m' : stmt_init m = Some m' → at_stage m' = Initialized ∧ history m' = history m ∧ works m' = works m;
  prepare_law sql m :
    returns (λ r, history r.2 = history m ∧
      (r.1 = 0%Z → at_stage m = Initialized → at_stage r.2 = Prepared sql ∧ works r.2 = works m)) (stmt_prepare sql m);
  bind_param_law ps m :
    let r := stmt_bind_param ps m in history r.2 = history m ∧
    (r.1 = 0%Z → ∀ sql, at_stage m = Prepared sql → at_stage r.2 = Bound sql ps ∧ works r.2 = works m);
  execute_law m sql ps :
    at_stage m = Bound sql ps →
    returns (λ r,
      (r.1 = 0%Z → ∃ an, answer_ok an ∧ an_error an = None ∧ at_stage r.2 = Executed an ∧
        history r.2 = history m ++ [MkExecuted sql ps an] ∧ works r.2 = works m) ∧
      (r.1 ≠ 0%Z → (stmt_errno r.2 ≠ 0)%Z ∧ (works m = true ∨ stmt_errno r.2 = duplicate_key →
        ∃ an, answer_ok an ∧ an_error an = Some (stmt_errno r.2, stmt_error r.2) ∧ at_stage r.2 = Executed an ∧
        history r.2 = history m ++ [MkExecuted sql ps an] ∧ works r.2 = works m))) (stmt_execute m);
  field_count_law m an : at_stage m = Executed an → stmt_field_count m = an_columns an;
  bind_result_law m :
    let r := stmt_bind_result m in history r.2 = history m ∧ (r.1 = 0%Z → at_stage r.2 = at_stage m ∧ works r.2 = works m);
  store_law m an :
    at_stage m = Executed an →
    returns (λ r, history r.2 = history m ∧
      (r.1 = 0%Z → at_stage r.2 = Stored an None (an_rows an) ∧ works r.2 = works m)) (stmt_store_result m);
  num_rows_law m an row rest : at_stage m = Stored an row rest → stmt_num_rows m = length (an_rows an);
  fetch_law m an row rest :
    at_stage m = Stored an row rest →
    returns (λ r, history r.2 = history m ∧
      match rest with
      | [] => r.1.1 ≠ 0%Z ∧ r.1.1 ≠ MYSQL_DATA_TRUNCATED ∧ at_stage r.2 = Stored an None [] ∧ works r.2 = works m
      | next :: rest => r.1.1 ≠ MYSQL_NO_DATA ∧ (r.1.1 = 0%Z ∨ r.1.1 = MYSQL_DATA_TRUNCATED →
          r.1.2 = fetched <$> next ∧ at_stage r.2 = Stored an (Some next) rest ∧ works r.2 = works m)
      end) (stmt_fetch m);
  fetch_column_law m an row rest i v :
    at_stage m = Stored an (Some row) rest → row !! i = Some (Some v) →
    let r := stmt_fetch_column i (String.length v) m in r.1 = 0%Z → r.2 = bytes_of v;
  affected_law m an row rest :
    at_stage m = Executed an ∨ at_stage m = Stored an row rest →
    stmt_affected_rows m = an_affected an ∧ stmt_insert_id m = an_insert_id an;
  close_law m : returns (λ r, history r.2 = history m ∧ (r.1 = 0%Z → at_stage r.2 = NoStatement ∧ works r.2 = works m)) (stmt_close m);
  (** without failures of the network or the library every call can be waited
      for, and succeeds *)
  works_init m : works m = true → is_Some (stmt_init m);
  works_prepare sql m : works m = true → waitable (stmt_prepare sql m) ∧ returns (λ r, r.1 = 0%Z) (stmt_prepare sql m);
  works_bind_param ps m : works m = true → (stmt_bind_param ps m).1 = 0%Z;
  works_execute m : works m = true → waitable (stmt_execute m);
  works_bind_result m : works m = true → (stmt_bind_result m).1 = 0%Z;
  works_store m : works m = true → waitable (stmt_store_result m) ∧ returns (λ r, r.1 = 0%Z) (stmt_store_result m);
  works_fetch m :
    works m = true →
    waitable (stmt_fetch m) ∧
    returns (λ r, r.1.1 = 0%Z ∨ r.1.1 = MYSQL_NO_DATA ∨ r.1.1 = MYSQL_DATA_TRUNCATED) (stmt_fetch m);
  works_fetch_column m i n : works m = true → (stmt_fetch_column i n m).1 = 0%Z;
  works_close m : works m = true → waitable (stmt_close m) ∧ returns (λ r, r.1 = 0%Z) (stmt_close m)
}.

(** ** mysql_connection *)

Section connection.
Context `{!Connector}.

(** What a wait meets: the descriptor cannot be duplicated; the connection is
    aborted, the wait fails, or the timer expires meanwhile; the events that poll
    then reports. *)
Record socket_event := MkEvent {
  ev_duplicate : option exn; ev_abort : bool; ev_failure : option exn; ev_expired : bool; ev_poll : outcome Z }.

Record connection := MkConnection {
  mc_mysql : option mysql; mc_statement : bool; mc_abort : bool; mc_ahead : list socket_event }.

Definition POLLIN : Z := 1.
Definition POLLOUT : Z := 4.
Definition POLLERR : Z := 8.
Definition POLLHUP : Z := 16.
Definition ready : socket_event := MkEvent None false None false (Ok (Z.lor POLLIN POLLOUT)).

Definition next_event : Eff connection socket_event := λ c,
  (Ok (default ready (head (mc_ahead c))), MkConnection (mc_mysql c) (mc_statement c) (mc_abort c) (tail (mc_ahead c))).

Definition mysql_abort : Eff connection unit := modify (λ c, MkConnection None false true (mc_ahead c)).
Definition aborted : Eff connection bool := λ c, (Ok (mc_abort c), c).

Definition has (mask flags : Z) : bool := negb (Z.land mask flags =? 0)%Z.

Definition wait (requested : Z) : Eff connection Z :=
  if has requested MYSQL_WAIT_EXCEPT then throw (RuntimeError "unsupported MySQL exceptional socket wait")
  else if negb (has requested (Z.lor MYSQL_WAIT_READ MYSQL_WAIT_WRITE)) then
    if negb (has requested MYSQL_WAIT_TIMEOUT) then throw (RuntimeError "invalid MySQL wait mask")
    else
      event ← next_event;
      (if ev_abort event then mysql_abort else mret tt) ;;
      stop ← aborted;
      if (stop : bool) then throw (RuntimeError "Sleep is aborted") else mret MYSQL_WAIT_TIMEOUT
  else
    event ← next_event;
    match ev_duplicate event with
    | Some e => throw e
    | None =>
        (if ev_abort event then mysql_abort else mret tt) ;;
        stop ← aborted;
        if (stop : bool) then throw (RuntimeError "MySQL operation aborted")
        else if ev_expired event && has requested MYSQL_WAIT_TIMEOUT then mret MYSQL_WAIT_TIMEOUT
        else
          match ev_failure event, ev_poll event with
          | Some e, _ | None, Throw e => throw e
          | None, Ok events =>
              mret (Z.lor (if has events (Z.lor POLLIN (Z.lor POLLERR POLLHUP)) then MYSQL_WAIT_READ else 0)
                          (if has events (Z.lor POLLOUT (Z.lor POLLERR POLLHUP)) then MYSQL_WAIT_WRITE else 0))
          end
    end.

(** A call that was started, with the waits it asks for. *)
Fixpoint drive {A} (t : nonblocking A) : Eff connection A :=
  match t with
  | Returned a => mret a
  | Pending mask continue => events ← wait mask; drive (continue events)
  end.

(** Using a connection that was aborted, which the drivers never do. *)
Definition no_connection : exn := LogicError "no connection".
Definition handle : Eff connection mysql := λ c,
  (match mc_mysql c with Some m => Ok m | None => Throw no_connection end, c).
Definition set_mysql (m : mysql) : Eff connection unit :=
  modify (λ c, MkConnection (Some m) (mc_statement c) (mc_abort c) (mc_ahead c)).
Definition set_statement (b : bool) : Eff connection unit :=
  modify (λ c, MkConnection (mc_mysql c) b (mc_abort c) (mc_ahead c)).

Definition check (status : Z) : Eff connection unit :=
  if (status =? 0)%Z then mret tt
  else
    m ← handle;
    c ← get;
    throw (RuntimeError (if mc_statement c then stmt_error m else mysql_error m)).

(** A call on the connection. *)
Definition call (t : mysql → nonblocking (Z * mysql)) : Eff connection Z :=
  m ← handle; r ← drive (t m); set_mysql r.2 ;; mret r.1.
Definition call_now (t : mysql → Z * mysql) : Eff connection Z :=
  m ← handle; set_mysql (t m).2 ;; mret (t m).1.

(** ** Results

    The buffers of the columns are shared by all rows. *)
Record column := MkColumn { cl_storage : bytes; cl_length : nat; cl_null : bool }.
Definition empty_column : column := MkColumn (replicate buffer_size "000"%char) 0 false.

(** What a fetch does to a buffer. *)
Definition fill (c : column) (f : option (nat * bytes)) : column :=
  match f with
  | None => MkColumn (cl_storage c) (cl_length c) true
  | Some (n, data) => MkColumn (data ++ drop (length data) (cl_storage c)) n false
  end.

Definition read_column (index : nat) (c : column) : Eff connection (option string) :=
  if cl_null c then mret None
  else if (cl_length c <=? length (cl_storage c))%nat then mret (Some (text_of (take (cl_length c) (cl_storage c))))
  else
    m ← handle;
    let '(status, value) := stmt_fetch_column index (cl_length c) m in
    check status ;; mret (Some (text_of value)).

Fixpoint read_columns (index : nat) (l : list column) : Eff connection mysql_row :=
  match l with
  | [] => mret []
  | c :: l => v ← read_column index c; row ← read_columns (S index) l; mret (v :: row)
  end.

(** The fetch loop. Its fuel is one fetch for each row that the client has
    stored and one for the end. *)
Fixpoint fetch_rows (fuel : nat) (columns : list column) (rows : list mysql_row) : Eff connection (list mysql_row) :=
  match fuel with
  | 0 => throw (LogicError "more rows than were stored")
  | S fuel =>
      m ← handle;
      r ← drive (stmt_fetch m);
      let '(status, data, m) := r in
      set_mysql m ;;
      let columns := zip_with fill columns data in
      if (status =? MYSQL_NO_DATA)%Z then mret rows
      else
        (if (status =? MYSQL_DATA_TRUNCATED)%Z then mret tt else check status) ;;
        row ← read_columns 0 columns;
        fetch_rows fuel columns (rows ++ [row])
  end.

Record mysql_rows_result := MkRowsResult {
  rr_rows : list mysql_row; rr_affected_rows : Z; rr_insert_id : Z; rr_error : Z; rr_diagnostic : string }.

Definition query_result (columns : nat) (error : Z) : Eff connection (list mysql_row) :=
  if negb (columns =? 0)%nat && (error =? 0)%Z then
    status ← call_now stmt_bind_result; check status ;;
    status ← call stmt_store_result; check status ;;
    m ← handle;
    fetch_rows (S (stmt_num_rows m)) (replicate columns empty_column) []
  else mret [].

Definition query_rows (sql : string) (parameters : list mysql_parameter) : Eff connection mysql_rows_result :=
  m ← handle;
  match stmt_init m with
  | None => set_statement false ;; throw (RuntimeError "MySQL statement allocation failed")
  | Some m =>
      set_mysql m ;; set_statement true ;;
      status ← call (stmt_prepare sql); check status ;;
      status ← call_now (stmt_bind_param parameters); check status ;;
      status ← call stmt_execute;
      m ← handle;
      let '(error, diagnostic) := if (status =? 0)%Z then (0%Z, "") else (stmt_errno m, stmt_error m) in
      (if negb (status =? 0)%Z && negb (error =? duplicate_key)%Z then check status else mret tt) ;;
      let columns := stmt_field_count m in
      rows ← query_result columns error;
      m ← handle;
      let result := MkRowsResult rows (if (columns =? 0)%nat then u64 (stmt_affected_rows m) else Z.of_nat (length rows))
                      (stmt_insert_id m) error diagnostic in
      closed ← call stmt_close; set_statement false ;; check closed ;;
      mret result
  end.

(** mysql_result *)
Record mysql_result := MkResult { mr_row : list string; mr_error : Z }.

(** The first row, its values bounded. *)
Fixpoint bounded_values (row : mysql_row) : Eff connection (list string) :=
  match row with
  | [] => mret []
  | Some v :: row =>
      if (buffer_size <? String.length v)%nat then throw (RuntimeError "invalid bounded query result")
      else l ← bounded_values row; mret (v :: l)
  | None :: _ => throw (RuntimeError "invalid bounded query result")
  end.

Definition query (sql : string) (parameters : list mysql_parameter) : Eff connection mysql_result :=
  rows ← query_rows sql parameters;
  row ← bounded_values (default [] (head (rr_rows rows)));
  mret (MkResult row (rr_error rows)).

Definition command (sql : string) : Eff connection unit :=
  status ← call (real_query sql); check status ;;
  m ← handle;
  if (field_count m =? 0)%nat then mret tt else throw (RuntimeError "MySQL command must not return rows").

(** connect; [ca_pem] is the content of the authority file *)
Definition connect (numeric_ip : string) (config : mysql_options) (ca_pem : string) : Eff connection unit :=
  let tls := if bool_decide (ca_pem = "") then None else Some (ep_host (my_address config), ca_pem) in
  m ← handle;
  r ← drive (real_connect (MkConnectArguments numeric_ip (my_user config) (my_password config) (my_schema config)
                             (ep_port (my_address config)) tls) m);
  set_mysql r.2 ;;
  if (r.1 : bool) then mret tt else (m ← handle; throw (RuntimeError (mysql_error m))).

Definition close : Eff connection unit := λ c,
  match mc_mysql c with
  | None => (Ok tt, c)
  | Some m => (drive (disconnect m) ;; modify (λ c, MkConnection None (mc_statement c) (mc_abort c) (mc_ahead c))) c
  end.
End connection.
