(* ===== verification/MysqlConnectionTheorems.v ===== *)
(** * What a MySQL connection guarantees

    Over every behaviour of the socket and of the other coroutines: a query that
    returns has been executed once and returns what the server answered, and an
    aborted connection delivers nothing. *)

From S2P Require Import Prelude MysqlConnection.
From Stdlib Require Import Ascii.

#[local] Opaque buffer_size.

Section theorems.
Context `{!Connector} `{!ConnectorLaws}.

(** An aborted connection has released its client. *)
Definition abort_ok (c : connection) : Prop := mc_abort c = true → mc_mysql c = None ∧ mc_statement c = false.

(** Nothing fails: the socket is ready, nobody aborts, the client works. *)
Definition quiet (c : connection) : Prop :=
  mc_ahead c = [] ∧ mc_abort c = false ∧ ∃ m, mc_mysql c = Some m ∧ works m = true.

(** [m] keeps the first; what it returns satisfies [Q], and it does not return
    when the connection was aborted meanwhile. When [G] holds, which is that
    nothing fails, nothing fails afterwards either, and what [m] throws
    satisfies [E]. *)
Context (G : Prop).
Definition delivers {A} (m : Eff connection A) (E : exn → connection → Prop) (Q : A → connection → Prop) (c : connection) : Prop :=
  (G → quiet c) →
  wp m (λ r c', (abort_ok c → abort_ok c') ∧
    match r with
    | Ok a => Q a c' ∧ mc_abort c' = mc_abort c ∧ (G → quiet c')
    | Throw e => G → E e c'
    end) c.

Lemma delivers_ret {A} (a : A) E (Q : A → connection → Prop) c : Q a c → delivers (mret a) E Q c.
Proof. intros ? ?. apply wp_ret. auto. Qed.
Lemma delivers_throw {A} e (E : exn → connection → Prop) (Q : A → connection → Prop) c : (G → quiet c → E e c) → delivers (throw e) E Q c.
Proof. intros ? ?. apply wp_throw. auto. Qed.
Lemma delivers_bind {A B} (m : Eff connection A) (k : A → Eff connection B) E Q c :
  delivers m E (λ a c', (G → quiet c') → delivers (k a) E Q c') c → delivers (m ≫= k) E Q c.
Proof.
  intros Hm Hg. apply wp_bind. eapply wp_mono; [by apply Hm|]. intros [a|e] c1 [Hok H1]; [|auto].
  destruct H1 as (Hk & Ha & Hq). eapply wp_mono; [by apply Hk|]. intros r c2 [Hok2 H2]. split; [auto|].
  destruct r as [b|]; [|auto]. destruct H2 as (? & ? & ?). split_and!; [done|congruence|auto].
Qed.
Lemma delivers_mono {A} (m : Eff connection A) (E E' : exn → connection → Prop) (Q Q' : A → connection → Prop) c :
  delivers m E Q c → (∀ e c', E e c' → E' e c') → (∀ a c', Q a c' → Q' a c') → delivers m E' Q' c.
Proof. intros Hm HE HQ Hg. eapply wp_mono; [by apply Hm|]. intros [a|e] c1 [Hok H1]; [|auto]. destruct H1. auto. Qed.

Definition never (e : exn) (c : connection) : Prop := False.
Lemma never_any (E : exn → connection → Prop) e c : never e c → E e c.
Proof. done. Qed.

(** ** Waiting *)

Lemma wait_delivers mask c :
  Z.land mask MYSQL_WAIT_EXCEPT = 0%Z ∧ Z.land mask (8 + 2 + 1) ≠ 0%Z ∨ ¬ G →
  delivers (wait mask) never (λ _ c', mc_mysql c' = mc_mysql c ∧ mc_statement c' = mc_statement c) c.
Proof.
  intros Hw. unfold wait. destruct (has mask MYSQL_WAIT_EXCEPT) eqn:E0.
  { apply delivers_throw. intros Hg Hq. unfold has in E0. destruct Hw as [[Hw _]|]; [|done]. by rewrite Hw in E0. }
  destruct (has mask (Z.lor MYSQL_WAIT_READ MYSQL_WAIT_WRITE)) eqn:E1; simpl negb; cbv iota.
  - unfold delivers, wp, abort_ok, quiet, mbind, eff_bind. intros Hg. simpl. destruct (mc_ahead c) as [|ev ahead] eqn:Ec; simpl.
    { destruct (mc_abort c) eqn:E; naive_solver. }
    destruct (ev_duplicate ev); simpl; [naive_solver|]. destruct (ev_abort ev); simpl; [naive_solver|].
    destruct (mc_abort c) eqn:E; simpl; [naive_solver|].
    destruct (ev_expired ev && has mask MYSQL_WAIT_TIMEOUT); simpl; [naive_solver|].
    destruct (ev_failure ev); [naive_solver|]. destruct (ev_poll ev); naive_solver.
  - destruct (has mask MYSQL_WAIT_TIMEOUT) eqn:E2; simpl negb; cbv iota.
    + unfold delivers, wp, abort_ok, quiet, mbind, eff_bind. intros Hg. simpl. destruct (mc_ahead c) as [|ev ahead] eqn:Ec; simpl.
      { destruct (mc_abort c) eqn:E; naive_solver. }
      destruct (ev_abort ev); simpl; [naive_solver|]. destruct (mc_abort c) eqn:E; naive_solver.
    + apply delivers_throw. intros Hg Hq. destruct Hw as [[_ Hw]|]; [|done]. apply Hw. unfold has in *.
      rewrite negb_false_iff, Z.eqb_eq in *.
      change (8 + 2 + 1)%Z with (Z.lor (Z.lor MYSQL_WAIT_READ MYSQL_WAIT_WRITE) MYSQL_WAIT_TIMEOUT).
      by rewrite Z.land_lor_distr_r, E1, E2.
Qed.

Lemma drive_delivers {A} (P : A → Prop) (t : nonblocking A) c :
  returns P t → (G → waitable t) →
  delivers (drive t) never (λ a c', P a ∧ mc_mysql c' = mc_mysql c ∧ mc_statement c' = mc_statement c) c.
Proof.
  revert c. induction t as [a|mask k IH]; intros c Ht Hw; simpl in *; [by apply delivers_ret|].
  apply delivers_bind. eapply delivers_mono; [apply wait_delivers|done|].
  { destruct (decide (Z.land mask MYSQL_WAIT_EXCEPT = 0%Z ∧ Z.land mask (8 + 2 + 1) ≠ 0%Z)) as [|Hn]; [by left|].
    right. intros Hq. apply Hn. naive_solver. }
  intros events c1 [Hm Hs] Hq1. eapply delivers_mono; [apply IH; [apply Ht|naive_solver]|done|].
  intros a c2 (? & ? & ?). split_and!; [done|congruence..].
Qed.

(** ** Calls *)

Lemma returns_mono {A} (P Q : A → Prop) t : (∀ a, P a → Q a) → returns P t → returns Q t.
Proof. intros HPQ. induction t; simpl; auto. Qed.
Lemma returns_and {A} (P Q : A → Prop) t : returns P t → returns Q t → returns (λ a, P a ∧ Q a) t.
Proof. induction t; simpl; auto. Qed.

Definition on (m : mysql) (c : connection) : Prop := mc_mysql c = Some m.

Lemma quiet_works m c : on m c → quiet c → works m = true.
Proof. intros Hm (_ & _ & m' & Hm' & Hw). unfold on in Hm. congruence. Qed.

Lemma handle_delivers m c : on m c → delivers handle never (λ m' c', m' = m ∧ c' = c) c.
Proof. intros Hm Hg. unfold wp, handle. by rewrite Hm. Qed.

(** A new state of the client. *)
Lemma set_mysql_delivers m m' c :
  on m c → (G → works m' = true) →
  delivers (set_mysql m') never (λ _ c', on m' c' ∧ mc_statement c' = mc_statement c) c.
Proof.
  intros Hm Hw Hg. unfold wp, set_mysql, modify. simpl. split.
  - unfold abort_ok. simpl. intros Hok Ha. apply Hok in Ha as [Ha _]. unfold on in Hm. congruence.
  - split_and!; [done..|]. intros HG. destruct (Hg HG) as (? & ? & _). split_and!; [done..|]. exists m'. auto.
Qed.

Lemma call_delivers (P : Z * mysql → Prop) t m c :
  on m c → returns P (t m) → (works m = true → waitable (t m)) → (works m = true → ∀ r, P r → works r.2 = true) →
  delivers (call t) never (λ st c', ∃ m', on m' c' ∧ P (st, m') ∧ mc_statement c' = mc_statement c) c.
Proof.
  intros Hm Ht Hw Hw'. intros Hg. assert (G → works m = true) as HG by (intros HG; by eapply quiet_works; auto).
  revert Hg. unfold call. apply delivers_bind. eapply delivers_mono; [by apply handle_delivers|done|].
  intros ? ? [-> ->] _. apply delivers_bind. eapply delivers_mono; [apply (drive_delivers P); auto|done|].
  intros [st m'] c1 (HP & Hm1 & Hs1) Hg1. simpl.
  apply delivers_bind. eapply delivers_mono; [apply (set_mysql_delivers m); [by unfold on; rewrite Hm1|]|done|].
  { intros Hq. by apply (Hw' (HG Hq) (st, m')). }
  intros _ c2 [Hm2 Hs2] _. apply delivers_ret. exists m'. split_and!; [done..|congruence].
Qed.

Lemma call_now_delivers t m c :
  on m c → (works m = true → works (t m).2 = true) →
  delivers (call_now t) never (λ st c', st = (t m).1 ∧ on (t m).2 c' ∧ mc_statement c' = mc_statement c) c.
Proof.
  intros Hm Hw Hg. revert Hg. unfold call_now. apply delivers_bind. intros Hg. revert Hg.
  eapply delivers_mono; [by apply handle_delivers|done|]. intros ? ? [-> ->] Hg.
  apply delivers_bind. eapply delivers_mono; [apply (set_mysql_delivers m); [done|]|done|].
  { intros HG. apply Hw. by eapply quiet_works; auto. }
  intros _ c2 [Hm2 Hs2] _. by apply delivers_ret.
Qed.

Lemma check_delivers st c : (G → st = 0%Z) → delivers (check st) never (λ _ c', st = 0%Z ∧ c' = c) c.
Proof.
  intros Hst Hg. unfold check. destruct (Z.eqb_spec st 0) as [|Hn].
  - apply (delivers_ret tt never (λ _ c', st = 0%Z ∧ c' = c)); done.
  - unfold wp, handle, mbind, eff_bind. destruct (mc_mysql c); simpl; (split; [done|intros HG; by apply Hn, Hst]).
Qed.

Lemma check_throws {A} st m c (k : Eff connection A) E Q :
  st ≠ 0%Z → on m c → mc_statement c = true → (G → E (RuntimeError (stmt_error m)) c) →
  delivers (check st ;; k) E Q c.
Proof.
  intros Hst Hm Hs HE Hg. unfold wp, check, handle, mbind, eff_bind. destruct (Z.eqb_spec st 0); [done|].
  unfold on in Hm. rewrite Hm. simpl. by rewrite Hs.
Qed.

Lemma set_statement_delivers b m c :
  on m c → delivers (set_statement b) never (λ _ c', on m c' ∧ mc_statement c' = b) c.
Proof.
  intros Hm Hg. unfold wp, set_statement, modify. simpl. split; [|done]. unfold abort_ok. simpl. intros Hok Ha.
  apply Hok in Ha as [Ha _]. unfold on in Hm. congruence.
Qed.

(** A call whose failure ends the operation. *)
Lemma call_check {A} t (P : mysql → Prop) m c (k : Eff connection A) E Q :
  on m c → returns (λ r, r.1 = 0%Z → P r.2 ∧ works r.2 = works m) (t m) →
  (works m = true → waitable (t m) ∧ returns (λ r, r.1 = 0%Z) (t m)) →
  (∀ m' c', on m' c' → P m' → mc_statement c' = mc_statement c → delivers k E Q c') →
  delivers (status ← call t; check status ;; k) E Q c.
Proof.
  intros Hm Ht Hw Hk Hg. assert (G → works m = true) as HG by (intros HG; by eapply quiet_works; auto). revert Hg.
  apply delivers_bind. eapply delivers_mono.
  { eapply (call_delivers (λ r, (r.1 = 0%Z → P r.2 ∧ works r.2 = works m) ∧ (works m = true → r.1 = 0%Z))); [done| |by apply Hw|].
    - destruct (works m); [by apply returns_and; [|eapply returns_mono; [|by apply Hw]; auto]|].
      eapply returns_mono; [|done]. intros r Hr. by split.
    - intros Hwm r [H1 H2]. destruct H1 as [_ ->]; auto. }
  { apply never_any. }
  intros st c1 (m' & Hm' & [H1 H2] & Hs) _. apply delivers_bind. eapply delivers_mono; [apply check_delivers|apply never_any|].
  { intros HGG. auto. }
  intros _ ? [-> ->] _. apply (Hk m'); [done| |done]. by apply H1.
Qed.

Lemma call_now_check {A} t (P : mysql → Prop) m c (k : Eff connection A) E Q :
  on m c → ((t m).1 = 0%Z → P (t m).2 ∧ works (t m).2 = works m) → (works m = true → (t m).1 = 0%Z) →
  (∀ m' c', on m' c' → P m' → mc_statement c' = mc_statement c → delivers k E Q c') →
  delivers (status ← call_now t; check status ;; k) E Q c.
Proof.
  intros Hm Ht Hw Hk Hg. assert (G → works m = true) as HG by (intros HG; by eapply quiet_works; auto). revert Hg.
  apply delivers_bind. eapply delivers_mono; [apply call_now_delivers; [done|]|apply never_any|].
  { intros Hwm. destruct (Ht (Hw Hwm)) as [_ ->]. done. }
  intros st c1 (-> & Hm' & Hs) _. apply delivers_bind. eapply delivers_mono; [apply check_delivers|apply never_any|].
  { auto. }
  intros _ ? [H1 ->] _. apply (Hk (t m).2); [done| |done]. by apply Ht.
Qed.

(** ** Rows *)

Lemma fill_length c f : length (cl_storage c) = buffer_size → (∀ n data, f = Some (n, data) → length data ≤ buffer_size) →
  length (cl_storage (fill c f)) = buffer_size.
Proof.
  intros Hc Hf. destruct f as [[n data]|]; simpl; [|done]. rewrite length_app, length_drop.
  specialize (Hf _ _ eq_refl). lia.
Qed.

Lemma text_bytes s : text_of (bytes_of s) = s.
Proof. apply String.string_of_list_ascii_of_string. Qed.

Lemma read_column_delivers an row rest i v col m c :
  on m c → at_stage m = Stored an (Some row) rest → row !! i = Some v → length (cl_storage col) = buffer_size →
  delivers (read_column i (fill col (fetched v))) never (λ v' c', v' = v ∧ c' = c) c.
Proof.
  intros Hm Hs Hi Hc. unfold read_column. destruct v as [s|]; simpl; [|by apply delivers_ret].
  rewrite length_app, length_take, length_drop, bytes_length, Hc.
  replace (min buffer_size (String.length s) + (buffer_size - min buffer_size (String.length s))) with buffer_size by lia.
  destruct (Nat.leb_spec (String.length s) buffer_size) as [Hl|Hl].
  - rewrite (take_ge (bytes_of s)) by (by rewrite bytes_length).
    rewrite take_app_length' by (by rewrite bytes_length). rewrite text_bytes. by apply delivers_ret.
  - apply delivers_bind. eapply delivers_mono; [by apply handle_delivers|done|]. intros ? ? [-> ->] Hg.
    pose proof (fetch_column_law m an row rest i s Hs Hi) as Hcol. simpl in Hcol.
    pose proof (works_fetch_column m i (String.length s)) as Hw. destruct (stmt_fetch_column i (String.length s) m) as [st value].
    apply delivers_bind. eapply delivers_mono; [apply check_delivers|done|].
    { intros HG. apply Hw. by eapply quiet_works; auto. }
    intros _ c1 [-> ->] _. simpl in Hcol. rewrite Hcol, text_bytes by done. by apply delivers_ret.
Qed.

Lemma read_columns_delivers an row rest i suffix cols m c :
  on m c → at_stage m = Stored an (Some row) rest → drop i row = suffix → length cols = length suffix →
  Forall (λ col, length (cl_storage col) = buffer_size) cols →
  delivers (read_columns i (zip_with fill cols (fetched <$> suffix))) never (λ l c', l = suffix ∧ c' = c) c.
Proof.
  intros Hm Hs. revert i cols. induction suffix as [|v suffix IH]; intros i cols Hd Hl Hc.
  { destruct cols; [|done]. by apply delivers_ret. }
  destruct cols as [|col cols]; [done|]. apply Forall_cons in Hc as [Hcol Hc]. simpl.
  pose proof (lookup_drop row i 0) as Hi. rewrite Hd, Nat.add_0_r in Hi. symmetry in Hi. simpl in Hi.
  apply delivers_bind. eapply delivers_mono; [by eapply read_column_delivers|done|]. intros ? ? [-> ->] _.
  apply delivers_bind. eapply delivers_mono; [apply IH; [|by injection Hl|done]|done|].
  { rewrite <- (Nat.add_1_r i), <- drop_drop, Hd. done. }
  intros ? ? [-> ->] _. by apply delivers_ret.
Qed.

Lemma fill_columns cols row :
  Forall (λ col, length (cl_storage col) = buffer_size) cols →
  Forall (λ col, length (cl_storage col) = buffer_size) (zip_with fill cols (fetched <$> row)).
Proof.
  revert row. induction cols as [|col cols IH]; intros row Hc; [constructor|]. apply Forall_cons in Hc as [Hcol Hc].
  destruct row as [|v row]; simpl; [constructor|]. constructor; [|by apply IH]. apply fill_length; [done|].
  intros n data. destruct v as [s|]; simpl; [|done]. intros [= _ <-]. rewrite length_take. lia.
Qed.

Lemma fetch_rows_delivers fuel an row rest cols rows m c :
  on m c → at_stage m = Stored an row rest → length cols = an_columns an →
  Forall (λ col, length (cl_storage col) = buffer_size) cols → Forall (λ r, length r = an_columns an) rest →
  length rest < fuel →
  delivers (fetch_rows fuel cols rows) never (λ l c', l = rows ++ rest ∧
    ∃ m' row', on m' c' ∧ at_stage m' = Stored an row' [] ∧ history m' = history m ∧ mc_statement c' = mc_statement c) c.
Proof.
  revert rest cols rows row m c. induction fuel as [|fuel IH]; intros rest cols rows row m c Hm Hs Hl Hc Hr Hf; [lia|]. simpl.
  intros Hg. assert (G → works m = true) as HG by (intros HG; by eapply quiet_works; auto). revert Hg.
  apply delivers_bind. eapply delivers_mono; [by apply handle_delivers|done|]. intros ? ? [-> ->] _.
  apply delivers_bind. eapply delivers_mono.
  { eapply drive_delivers.
    - apply (returns_and (λ r, works m = true → r.1.1 = 0%Z ∨ r.1.1 = MYSQL_NO_DATA ∨ r.1.1 = MYSQL_DATA_TRUNCATED));
        [|by eapply fetch_law].
      destruct (works m) eqn:Ew; [eapply returns_mono; [|by apply works_fetch]; auto|].
      eapply returns_mono; [|by apply (fetch_law m an row rest)]. done.
    - intros HGG. by apply works_fetch, HG. }
  { done. }
  intros [[status data] m'] c1 ((Hst & Hh & Hlaw) & Hm1 & Hs1) Hg1. simpl in Hst, Hh, Hlaw |- *.
  assert (G → works m' = true) as Hw'.
  { intros HGG. specialize (Hst (HG HGG)). destruct rest as [|next rest]; [by destruct Hlaw as (_ & _ & _ & ->); apply HG|].
    destruct Hlaw as [Hn Hlaw]. destruct Hlaw as (_ & _ & ->); [naive_solver|by apply HG]. }
  apply delivers_bind. eapply delivers_mono; [apply (set_mysql_delivers m); [by unfold on; rewrite Hm1|done]|done|].
  intros _ c2 [Hm2 Hs2] Hg2. destruct (Z.eqb_spec status MYSQL_NO_DATA) as [->|Hnd].
  { destruct rest as [|next rest]; [|by destruct Hlaw]. destruct Hlaw as (_ & _ & Hst' & _). apply delivers_ret.
    rewrite app_nil_r. split; [done|]. exists m', None. split_and!; [done..|congruence]. }
  apply delivers_bind. eapply (delivers_mono _ never _ (λ _ c', (status = 0%Z ∨ status = MYSQL_DATA_TRUNCATED) ∧ c' = c2)); [|done|].
  { destruct (Z.eqb_spec status MYSQL_DATA_TRUNCATED) as [->|Ht]; [apply delivers_ret; auto|].
    eapply delivers_mono; [apply check_delivers|done|naive_solver]. intros HGG. specialize (Hst (HG HGG)). naive_solver. }
  intros _ ? [Hok ->] _. destruct rest as [|next rest]; [naive_solver|]. destruct Hlaw as [_ Hlaw].
  destruct (Hlaw Hok) as (-> & Hst' & _). apply Forall_cons in Hr as [Hn Hr].
  apply delivers_bind. eapply delivers_mono.
  { eapply (read_columns_delivers an next rest 0 next cols m' c2); [done|done|done|congruence|done]. }
  { done. }
  intros ? ? [-> ->] _. eapply delivers_mono; [eapply (IH rest)|done|]; [done|done| |by apply fill_columns|done|simpl in Hf; lia|].
  { rewrite length_zip_with, length_fmap. lia. }
  intros l c3 [-> (m3 & row3 & ? & ? & ? & ?)]. split; [by rewrite <- app_assoc|].
  exists m3, row3. split_and!; [done..|congruence|congruence].
Qed.

(** ** Queries *)

#[local] Arguments fetch_rows : simpl never.

(** What a query makes of the server's answer. *)
Definition result_of (an : sql_answer) : mysql_rows_result :=
  MkRowsResult (an_rows an) (if (an_columns an =? 0)%nat then u64 (an_affected an) else Z.of_nat (length (an_rows an)))
    (an_insert_id an) (default (0%Z, "") (an_error an)).1 (default (0%Z, "") (an_error an)).2.

(** The server executed the statement and refused it, for another reason than a
    duplicate key. *)
Definition refused (sql : string) (ps : list mysql_parameter) (before : list executed) (e : exn) (c : connection) : Prop :=
  ∃ an m code diagnostic, on m c ∧ history m = before ++ [MkExecuted sql ps an] ∧
    an_error an = Some (code, diagnostic) ∧ code ≠ duplicate_key ∧ e = RuntimeError diagnostic.

(** It answered, and [r] is what it answered. *)
Definition answered (sql : string) (ps : list mysql_parameter) (before : list executed) (r : mysql_rows_result)
    (c : connection) : Prop :=
  ∃ an m, answer_ok an ∧ r = result_of an ∧ (rr_error r = 0 ∨ rr_error r = duplicate_key)%Z ∧ on m c ∧
    history m = before ++ [MkExecuted sql ps an] ∧ at_stage m = NoStatement ∧ mc_statement c = false.

Lemma query_result_delivers an m c :
  on m c → at_stage m = Executed an → answer_ok an →
  delivers (query_result (an_columns an) (default (0%Z, "") (an_error an)).1) never (λ l c', l = an_rows an ∧
    ∃ m' row', on m' c' ∧ (at_stage m' = Executed an ∨ at_stage m' = Stored an row' []) ∧ history m' = history m ∧
      mc_statement c' = mc_statement c) c.
Proof.
  intros Hm Hs (Hr & Hz & He). unfold query_result. destruct (Nat.eqb_spec (an_columns an) 0) as [E|E]; simpl negb; simpl andb; cbv iota.
  { apply delivers_ret. split; [by rewrite Hz|]. exists m, None. auto. }
  destruct (an_error an) as [e|] eqn:Ee; [by destruct (He e) as [_ ?]|]. simpl.
  pose proof (bind_result_law m) as [Hh1 Hb].
  apply (call_now_check _ (λ m', at_stage m' = Executed an ∧ history m' = history m) m).
  { done. }
  { intros H1. destruct (Hb H1) as [-> ->]. done. }
  { apply works_bind_result. }
  intros m1 c1 Hm1 [Hst1 Hh] Hs1.
  apply (call_check _ (λ m', at_stage m' = Stored an None (an_rows an) ∧ history m' = history m) m1).
  { done. }
  { eapply returns_mono; [|by apply store_law]. intros r [Hh2 H2] Hr0. destruct (H2 Hr0) as [? ?]. split_and!; [done|congruence|done]. }
  { apply works_store. }
  intros m2 c2 Hm2 [Hst2 Hh2] Hs2. apply delivers_bind. eapply delivers_mono; [by apply handle_delivers|done|].
  intros ? ? [-> ->] _. rewrite (num_rows_law _ _ _ _ Hst2).
  eapply delivers_mono; [apply (fetch_rows_delivers _ an None (an_rows an) _ [] m2 c2)|done|].
  1-2, 5: done.
  { by rewrite length_replicate. }
  { apply Forall_replicate, length_replicate. }
  { lia. }
  intros l c3 [-> (m3 & row3 & ? & ? & ? & ?)]. split; [done|]. exists m3, row3. split_and!; [done|by right|congruence|congruence].
Qed.

(** The end of a query: its results and the closing of the statement. *)
Lemma query_end_delivers an m c :
  on m c → at_stage m = Executed an → answer_ok an →
  delivers (
    rows ← query_result (an_columns an) (default (0%Z, "") (an_error an)).1;
    m ← handle;
    let result := MkRowsResult rows (if (an_columns an =? 0)%nat then u64 (stmt_affected_rows m) else Z.of_nat (length rows))
                    (stmt_insert_id m) (default (0%Z, "") (an_error an)).1 (default (0%Z, "") (an_error an)).2 in
    closed ← call stmt_close; set_statement false ;; check closed ;; mret result) never (λ r c',
    r = result_of an ∧ mc_statement c' = false ∧ ∃ m', on m' c' ∧ at_stage m' = NoStatement ∧ history m' = history m) c.
Proof.
  intros Hm Hs Hok. apply delivers_bind. eapply delivers_mono; [by apply query_result_delivers|done|].
  intros rows c1 [-> (m1 & row1 & Hm1 & Hst1 & Hh1 & Hs1)] Hg1. assert (G → works m1 = true) as HG1
    by (intros HG; by eapply quiet_works; auto).
  apply delivers_bind. eapply delivers_mono; [by apply handle_delivers|done|]. intros ? ? [-> ->] _.
  destruct (affected_law m1 an row1 []) as [-> ->]; [done|]. cbv zeta.
  apply delivers_bind. eapply delivers_mono.
  { eapply (call_delivers (λ r, (history r.2 = history m1 ∧ (r.1 = 0%Z → at_stage r.2 = NoStatement ∧ works r.2 = works m1)) ∧
      (works m1 = true → r.1 = 0%Z))); [done| |by apply works_close|].
    - destruct (works m1) eqn:Ew.
      + apply returns_and; [rewrite <- Ew; apply close_law|]. eapply returns_mono; [|by apply works_close]. auto.
      + rewrite <- Ew. eapply returns_mono; [|apply close_law]. intros r Hr. split; [done|congruence].
    - intros Hw r [[_ H1] H2]. destruct H1 as [_ ->]; auto. }
  { done. }
  intros closed c2 (m2 & Hm2 & [[Hh2 H2] Hw2] & Hs2) _. apply delivers_bind.
  eapply delivers_mono; [by apply set_statement_delivers|done|]. intros _ c3 [Hm3 Hs3] _. apply delivers_bind.
  eapply delivers_mono; [apply check_delivers|done|]; [auto|]. intros _ ? [Hc ->] _. apply delivers_ret.
  split_and!; [done|done|]. exists m2. split_and!; [done|by apply H2|simpl in Hh2; congruence].
Qed.

Lemma query_rows_delivers sql ps m c :
  on m c → delivers (query_rows sql ps) (refused sql ps (history m)) (answered sql ps (history m)) c.
Proof.
  intros Hm. unfold query_rows. intros Hg. assert (G → works m = true) as HG by (intros HG; by eapply quiet_works; auto).
  revert Hg. apply delivers_bind. eapply delivers_mono; [by apply handle_delivers|apply never_any|]. intros ? ? [-> ->] Hg.
  destruct (stmt_init m) as [m0|] eqn:Ei.
  2: { apply delivers_bind. eapply delivers_mono; [by apply set_statement_delivers|apply never_any|]. intros _ c1 _ _.
    apply delivers_throw. intros HGG _. destruct (works_init m (HG HGG)) as [? ?]. congruence. }
  destruct (init_law _ _ Ei) as (Hst0 & Hh0 & Hw0).
  apply delivers_bind. eapply delivers_mono; [by apply (set_mysql_delivers m); [|rewrite Hw0]|apply never_any|].
  intros _ c1 [Hm1 _] _. apply delivers_bind. eapply delivers_mono; [by apply (set_statement_delivers true m0)|apply never_any|].
  intros _ c2 [Hm2 Hs2] _.
  apply (call_check _ (λ m', at_stage m' = Prepared sql ∧ history m' = history m) m0); [done| |apply works_prepare|].
  { eapply returns_mono; [|apply prepare_law]. intros r [Hh H1] Hr. destruct (H1 Hr Hst0). split_and!; [done|congruence|done]. }
  intros m3 c3 Hm3 [Hst3 Hh3] Hs3.
  apply (call_now_check _ (λ m', at_stage m' = Bound sql ps ∧ history m' = history m) m3); [done| |apply works_bind_param|].
  { intros Hr. destruct (bind_param_law ps m3) as [Hh H1]. destruct (H1 Hr sql Hst3). split_and!; [done|congruence|done]. }
  clear Hg HG. intros m4 c4 Hm4 [Hst4 Hh4] Hs4 Hg. assert (G → works m4 = true) as HG by (intros HG; by eapply quiet_works; auto).
  revert Hg. apply delivers_bind. eapply delivers_mono.
  { eapply call_delivers; [done|by apply execute_law|apply works_execute|].
    intros Hw [st m'] [H1 H2]. simpl in *. destruct (decide (st = 0%Z)) as [E|E].
    - destruct (H1 E) as (? & ? & ? & ? & ? & ->). done.
    - destruct (H2 E) as [_ H3]. destruct H3 as (? & ? & ? & ? & ? & ->); auto. }
  { apply never_any. }
  intros st c5 (m5 & Hm5 & [H1 H2] & Hs5) Hg5. simpl in H1, H2.
  apply delivers_bind. eapply delivers_mono; [by apply handle_delivers|apply never_any|]. intros ? ? [-> ->] _.
  destruct (Z.eqb_spec st 0) as [->|Hst]; simpl negb; simpl andb; cbv iota.
  - destruct (H1 eq_refl) as (an & Hok & He & Hst5 & Hh5 & _). rewrite (field_count_law _ _ Hst5).
    eapply delivers_mono; [apply delivers_bind, delivers_ret; intros _|apply never_any|].
    { pose proof (query_end_delivers an m5 c5 Hm5 Hst5 Hok) as Hend. rewrite He in Hend. exact Hend. }
    intros r c6 (-> & Hs6 & m6 & Hm6 & Hst6 & Hh6). exists an, m6. split_and!; try done; [left; by simpl; rewrite He|congruence].
  - destruct (H2 Hst) as [Hn H3]. destruct (Z.eqb_spec (stmt_errno m5) duplicate_key) as [E|E]; simpl negb; cbv iota.
    + destruct H3 as (an & Hok & He & Hst5 & Hh5 & _); [auto|]. rewrite (field_count_law _ _ Hst5).
      eapply delivers_mono; [apply delivers_bind, delivers_ret; intros _|apply never_any|].
      { pose proof (query_end_delivers an m5 c5 Hm5 Hst5 Hok) as Hend. rewrite He in Hend. exact Hend. }
      intros r c6 (-> & Hs6 & m6 & Hm6 & Hst6 & Hh6). exists an, m6.
      split_and!; try done; [right; by simpl; rewrite He|congruence].
    + apply (check_throws st m5); [done|done|congruence|]. intros HGG. destruct H3 as (an & Hok & He & Hst5 & Hh5 & _); [auto|].
      exists an, m5, (stmt_errno m5), (stmt_error m5). split_and!; [done|congruence|done..].
Qed.
End theorems.

(** C16: A query returns what the server answered. Whatever the socket does and
    however long the calls of the connector take: a query that returns was
    executed by the server exactly once, with its parameters, and its result is
    that answer, all rows and columns of it, with NULLs and values of any length
    as they are, or the duplicate key that was reported; an aborted connection
    has released its client and never returns a result; and when nothing fails,
    a query returns, unless the server refused the statement, which is then the
    error. *)
Theorem queries_return_the_answer `{!Connector} `{!ConnectorLaws} sql ps m c :
  mc_mysql c = Some m → mc_abort c = false →
  let '(r, c') := query_rows sql ps c in
  (mc_abort c' = true → mc_mysql c' = None ∧ mc_statement c' = false) ∧
  match r with
  | Ok result => answered sql ps (history m) result c' ∧ mc_abort c' = false
  | Throw e => quiet c → refused sql ps (history m) e c'
  end.
Proof.
  intros Hm Ha. pose proof (query_rows_delivers (quiet c) sql ps m c Hm (λ H, H)) as [Hok Hr].
  destruct (query_rows sql ps c) as [r c']. simpl in Hok, Hr. split; [apply Hok; unfold abort_ok; congruence|].
  destruct r; [|done]. destruct Hr as (? & -> & _). done.
Qed.

(** ** A connector

    A client with a server behind it that answers [answers]. *)

Section demo.
Context (answers : string → list mysql_parameter → sql_answer) (answers_ok : ∀ sql ps, answer_ok (answers sql ps)).

Record demo_client := MkDemo { dm_stage : stage; dm_history : list executed; dm_works : bool }.
Definition later {A} (a : A) : nonblocking A := Pending MYSQL_WAIT_READ (λ _, Returned a).
Definition demo_status (m : demo_client) : Z := if dm_works m then 0 else 1.
Definition at_stage_of (s : stage) (m : demo_client) : demo_client := MkDemo s (dm_history m) (dm_works m).

Definition demo_error (m : demo_client) : Z * string :=
  match dm_stage m with
  | Executed an => default (2013%Z, "Lost connection") (an_error an)
  | _ => (2013%Z, "Lost connection")
  end.

Definition demo_execute (m : demo_client) : Z * demo_client :=
  match dm_stage m with
  | Bound sql ps =>
      if dm_works m then
        let an := answers sql ps in
        (match an_error an with None => 0%Z | Some _ => 1%Z end,
         MkDemo (Executed an) (dm_history m ++ [MkExecuted sql ps an]) true)
      else (1%Z, at_stage_of NoStatement m)
  | _ => (1%Z, m)
  end.

Definition demo_fetch (m : demo_client) : Z * list (option (nat * bytes)) * demo_client :=
  match dm_stage m with
  | Stored an _ [] => (MYSQL_NO_DATA, [], at_stage_of (Stored an None []) m)
  | Stored an _ (next :: rest) =>
      (if dm_works m then MYSQL_DATA_TRUNCATED else 1%Z, fetched <$> next, at_stage_of (Stored an (Some next) rest) m)
  | _ => (MYSQL_NO_DATA, [], m)
  end.

Definition demo_answer (m : demo_client) : sql_answer :=
  match dm_stage m with Executed an | Stored an _ _ => an | _ => MkAnswer None 0 [] 0 0 end.
Definition demo_bind (ps : list mysql_parameter) (m : demo_client) : demo_client :=
  match dm_stage m with Prepared sql => at_stage_of (Bound sql ps) m | _ => m end.
Definition demo_store (m : demo_client) : demo_client :=
  match dm_stage m with Executed an => at_stage_of (Stored an None (an_rows an)) m | _ => m end.
Definition demo_column (i n : nat) (m : demo_client) : bytes :=
  match dm_stage m with
  | Stored _ (Some row) _ => match row !! i with Some (Some v) => take n (bytes_of v) | _ => [] end
  | _ => []
  end.

#[local] Instance demo_connector : Connector := {|
  mysql := demo_client;
  mysql_error _ := "Lost connection";
  stmt_errno m := (demo_error m).1;
  stmt_error m := (demo_error m).2;
  stmt_init m := Some (at_stage_of Initialized m);
  stmt_prepare sql m := later (demo_status m, at_stage_of (Prepared sql) m);
  stmt_bind_param ps m := (demo_status m, demo_bind ps m);
  stmt_execute m := later (demo_execute m);
  stmt_field_count m := an_columns (demo_answer m);
  stmt_bind_result m := (demo_status m, m);
  stmt_store_result m := later (demo_status m, demo_store m);
  stmt_num_rows m := length (an_rows (demo_answer m));
  stmt_fetch m := later (demo_fetch m);
  stmt_fetch_column i n m := (demo_status m, demo_column i n m);
  stmt_affected_rows m := an_affected (demo_answer m);
  stmt_insert_id m := an_insert_id (demo_answer m);
  stmt_close m := later (demo_status m, at_stage_of NoStatement m);
  real_query sql m := later (demo_status m, m);
  field_count _ := 0;
  real_connect ip m := later (dm_works m, m);
  disconnect m := later tt;
  history := dm_history;
  at_stage := dm_stage;
  works := dm_works
|}.

#[local] Instance demo_connector_laws : ConnectorLaws.
Proof using answers_ok.
  assert (∀ m : demo_client, dm_works m = true → demo_status m = 0%Z) as Hst by (intros m Hm; unfold demo_status; by rewrite Hm).
  split; simpl; try done.
  - by intros m m' [= <-].
  - intros ps m. unfold demo_bind. destruct (dm_stage m); simpl; naive_solver.
  - intros m sql ps Hs _. unfold demo_execute. rewrite Hs. destruct (dm_works m) eqn:Hw; simpl; [|naive_solver].
    pose proof (answers_ok sql ps) as Hok. destruct (an_error (answers sql ps)) as [[code text]|] eqn:He; simpl.
    + split; [done|]. intros _. unfold demo_error. simpl. rewrite He. simpl. split; [by destruct Hok as (_ & _ & Hok); apply (Hok _ He)|]. intros _. eauto 10.
    + split; [|done]. intros _. eauto 10.
  - intros m an Hs. unfold demo_answer. by rewrite Hs.
  - intros m an Hs _. unfold demo_store. rewrite Hs. done.
  - intros m an row rest Hs. unfold demo_answer. by rewrite Hs.
  - intros m an row rest Hs _. unfold demo_fetch. rewrite Hs. destruct rest; simpl; [done|]. destruct (dm_works m); simpl; naive_solver.
  - intros m an row rest i v Hs Hi _. unfold demo_column. rewrite Hs, Hi. apply take_ge. by rewrite bytes_length.
  - intros m an row rest. unfold demo_answer. by intros [-> | ->].
  - intros sql m Hm. split; [split; done|]. intros _. auto.
  - intros m Hm. split; [split; done|]. intros _. auto.
  - intros m Hm. split; [split; done|]. intros _. unfold demo_fetch. rewrite Hm. destruct (dm_stage m) as [| | | | |? ? []]; simpl; auto.
  - auto.
  - intros m Hm. split; [split; done|]. intros _. auto.
Qed.
End demo.

(** ** A query *)

Definition demo_long : string := text_of (replicate (Z.to_nat 1500) "x"%char).
Definition demo_answers (sql : string) (ps : list mysql_parameter) : sql_answer :=
  if String.prefix "SELECT" sql
  then MkAnswer None 2 [[Some "a"; None]; [Some demo_long; Some "b"]; [Some "c"; Some ""]] 0 0
  else MkAnswer (Some (duplicate_key, "Duplicate entry")) 0 [] 0 0.

Lemma demo_answers_ok sql ps : answer_ok (demo_answers sql ps).
Proof.
  unfold demo_answers. destruct (String.prefix "SELECT" sql); split_and!; simpl; try done; [by repeat constructor|].
  by intros e [= <-].
Qed.

#[local] Instance demo_mysql : Connector := demo_connector demo_answers.
#[local] Instance demo_mysql_laws : ConnectorLaws := demo_connector_laws demo_answers demo_answers_ok.
Definition demo_connection : connection := MkConnection (Some (MkDemo NoStatement [] true : mysql)) false false [].

Lemma queries_return_the_answer_witness :
  (query_rows "SELECT x, y" [Integer 7] demo_connection).1 =
    Ok (MkRowsResult [[Some "a"; None]; [Some demo_long; Some "b"]; [Some "c"; Some ""]] 3 0 0 "") ∧
  ∃ an, history <$> mc_mysql (query_rows "SELECT x, y" [Integer 7] demo_connection).2 =
    Some [MkExecuted "SELECT x, y" [Integer 7] an].
Proof.
  split; [vm_compute; reflexivity|].
  pose proof (queries_return_the_answer "SELECT x, y" [Integer 7] _ demo_connection eq_refl eq_refl) as Hr.
  destruct (query_rows "SELECT x, y" [Integer 7] demo_connection) as [[r|e] c'] eqn:E; [|by vm_compute in E].
  destruct Hr as [_ [(an & m & _ & _ & _ & Hm & Hh & _) _]]. exists an. simpl. unfold on in Hm. rewrite Hm. exact (f_equal Some Hh).
Defined.
