(* ===== verification/RedisAccess.v ===== *)
(** * How the drivers reach Redis

    discover_master and redis_command of gate/io/driver.cc and
    gateway/io/driver.cc, which open a connection for each command, and of
    message/io/driver.cc, which keeps one to the master and asks the Sentinels
    before each use of it. Redis and the Sentinels are a parameter: what a server
    does with a command. *)

From S2P Require Import Prelude Decimal Options.
From Stdlib Require Import Ascii.

(** redis_reply *)
Inductive reply_type := ReplyString | ReplyArray | ReplyInteger | ReplyNil | ReplyStatus | ReplyError.
#[global] Instance reply_type_eq_dec : EqDecision reply_type.
Proof. solve_decision. Defined.
Record redis_reply := MkReply {
  rp_type : reply_type; rp_integer : Z; rp_text : string; rp_elements : list string }.

(** Where a server listens: a numeric address and a port. *)
Definition server_address : Type := string * Z.

(** The servers, as the drivers see them, and the addresses of their names.
    Authentication and questions to a Sentinel change nothing. *)
Class RedisServers := {
  cluster : Type;
  dns : string → string;
  serve : server_address → list string → cluster → redis_reply * cluster
}.
Class RedisServersLaws `{RedisServers} := {
  serve_auth a password c : (serve a ["AUTH"; password] c).2 = c;
  serve_sentinel a name c : (serve a ["SENTINEL"; "get-master-addr-by-name"; name] c).2 = c
}.

Section access.
Context `{!RedisServers}.

(** What a suspension meets: the driver is stopped meanwhile, and the operation
    fails before or after it took effect. *)
Record hop := MkHop { hp_stop : bool; hp_fault : fault }.

(** A driver with its connections to Redis: where each is connected, which are
    not closed yet and which are registered for abort(). *)
Record access := MkAccess {
  ac_cluster : cluster; ac_stopping : bool;
  ac_next : nat; ac_connected : gmap nat server_address; ac_live : gset nat; ac_registered : gset nat;
  ac_ahead : list hop;
  (** the commands that servers executed, with the reply *)
  ac_log : list (server_address * list string * redis_reply) }.

Definition set_stopping (b : bool) (w : access) : access :=
  MkAccess (ac_cluster w) b (ac_next w) (ac_connected w) (ac_live w) (ac_registered w) (ac_ahead w) (ac_log w).
Definition set_connected (m : gmap nat server_address) (w : access) : access :=
  MkAccess (ac_cluster w) (ac_stopping w) (ac_next w) m (ac_live w) (ac_registered w) (ac_ahead w) (ac_log w).
Definition set_open (n : nat) (live registered : gset nat) (w : access) : access :=
  MkAccess (ac_cluster w) (ac_stopping w) n (ac_connected w) live registered (ac_ahead w) (ac_log w).
Definition set_hops (l : list hop) (w : access) : access :=
  MkAccess (ac_cluster w) (ac_stopping w) (ac_next w) (ac_connected w) (ac_live w) (ac_registered w) l (ac_log w).
Definition set_cluster (c : cluster) (log : list (server_address * list string * redis_reply)) (w : access) : access :=
  MkAccess c (ac_stopping w) (ac_next w) (ac_connected w) (ac_live w) (ac_registered w) (ac_ahead w) log.

Definition calm : hop := MkHop false NoFault.

(** co_await of an operation with the effect [m]. *)
Definition hop_to {A} (m : Eff access A) : Eff access A := λ w,
  let h := default calm (head (ac_ahead w)) in
  let w := set_hops (tail (ac_ahead w)) w in
  let w := if hp_stop h then set_stopping true w else w in
  match hp_fault h with
  | NoFault => m w
  | FailBefore e => (Throw (RuntimeError e), w)
  | FailAfter e => (Throw (RuntimeError e), (m w).2)
  end.

Definition check_running : Eff access unit := λ w, (if ac_stopping w then Throw Stopped else Ok tt, w).

(** _dns.resolve_name *)
Definition resolve_name (host : string) : Eff access string := hop_to (mret (dns host)).

(** redis_connection: construction and registration, connect, command, close
    and the removal from the registered ones *)
Definition open_connection : Eff access nat := λ w,
  (Ok (ac_next w), set_open (S (ac_next w)) ({[ac_next w]} ∪ ac_live w) ({[ac_next w]} ∪ ac_registered w) w).
Definition redis_connect (id : nat) (ip : string) (port : Z) : Eff access unit :=
  hop_to (modify (λ w, set_connected (<[id := (ip, port)]> (ac_connected w)) w)).
Definition redis_send (id : nat) (arguments : list string) : Eff access redis_reply :=
  hop_to (λ w,
    match ac_connected w !! id with
    | None => (Throw (RuntimeError "Redis command submission failed"), w)
    | Some a =>
        let '(reply, c) := serve a arguments (ac_cluster w) in
        let w := set_cluster c (ac_log w ++ [(a, arguments, reply)]) w in
        match rp_type reply with
        | ReplyError => (Throw (RuntimeError (rp_text reply)), w)
        | _ => (Ok reply, w)
        end
    end).
(** close() ends in any case, but may report a failed watch *)
Definition redis_close (id : nat) : Eff access unit := λ w,
  hop_to (mret tt)
    (set_open (ac_next w) (ac_live w ∖ {[id]}) (ac_registered w) (set_connected (delete id (ac_connected w)) w)).
Definition unregister (id : nat) : Eff access unit :=
  modify (λ w, set_open (ac_next w) (ac_live w) (ac_registered w ∖ {[id]}) w).

(** A block whose locals are destroyed at its end, however it ends. *)
Definition deferred {A} (cleanup : Eff access unit) (m : Eff access A) : Eff access A := λ w,
  let '(r, w) := m w in (r, (cleanup w).2).

(** try/catch into a value *)
Definition attempted {A} (m : Eff access A) : Eff access (outcome A) := λ w, let '(r, w) := m w in (Ok r, w).
Definition from_outcome {A} (o : outcome A) : Eff access A := λ w, (o, w).

Definition require (condition : bool) (e : string) : Eff access unit :=
  if condition then mret tt else throw (RuntimeError e).

(** What a Sentinel answered: the host and the port of the master. *)
Definition master_address (invalid : string) (reply : redis_reply) : Eff access endpoint :=
  match rp_type reply, rp_elements reply with
  | ReplyArray, [host; port] =>
      port ← from_outcome (stoul port);
      require ((0 <? port)%Z && (port <=? 65535)%Z) invalid ;;
      mret (MkEndpoint host port)
  | _, _ => throw (RuntimeError invalid)
  end.

(** ** Gate and Gateway: a connection for each command *)

Definition authenticate (id : nat) (password : string) : Eff access unit :=
  if bool_decide (password = "") then mret tt else redis_send id ["AUTH"; password] ;; mret tt.

(** One turn of the loop over the Sentinels. *)
Definition ask_sentinel (o : redis_options) (invalid : string) (address : endpoint) : Eff access (outcome endpoint) :=
  check_running ;;
  id ← open_connection;
  deferred (unregister id)
    (result ← attempted (
       ip ← resolve_name (ep_host address);
       check_running ;;
       redis_connect id ip (ep_port address) ;;
       authenticate id (ro_sentinel_password o) ;;
       reply ← redis_send id ["SENTINEL"; "get-master-addr-by-name"; ro_master_name o];
       master_address invalid reply);
     redis_close id ;; mret result).

(** rethrow_exception of no exception: there is a Sentinel (load_options). *)
Definition no_failure : exn := LogicError "no exception".

Fixpoint ask_sentinels (ask : endpoint → Eff access (outcome endpoint)) (sentinels : list endpoint) (last : exn) :
    Eff access endpoint :=
  match sentinels with
  | [] => throw last
  | address :: sentinels =>
      result ← ask address;
      match result with Ok master => mret master | Throw e => ask_sentinels ask sentinels e end
  end.

Definition discover_master (o : redis_options) (invalid : string) : Eff access endpoint :=
  ask_sentinels (ask_sentinel o invalid) (ro_sentinels o) no_failure.

Definition redis_command (o : redis_options) (invalid : string) (arguments : list string) : Eff access redis_reply :=
  check_running ;;
  address ← discover_master o invalid;
  id ← open_connection;
  deferred (unregister id)
    (result ← attempted (
       ip ← resolve_name (ep_host address);
       check_running ;;
       redis_connect id ip (ep_port address) ;;
       authenticate id (ro_password o) ;;
       redis_send id arguments);
     redis_close id ;;
     from_outcome result).

(** The texts of check_reply. *)
Definition gate_redis_command (o : redis_options) := redis_command o "unexpected Redis reply".
Definition gateway_discover_redis_master (o : redis_options) := discover_master o "invalid Redis response".
Definition gateway_redis_command (o : redis_options) := redis_command o "invalid Redis response".

(** ** Message: one connection to the master

    [_redis] with [_redis_address]; [_redis_slot] lets one operation use it at a
    time. *)
Record master_link := MkLink { ml_id : nat; ml_address : endpoint }.

Definition invalid_response : string := "invalid Redis response".
Definition is_ok (reply : redis_reply) : bool := bool_decide (rp_type reply = ReplyStatus) && bool_decide (rp_text reply = "OK").

Definition authenticate_checked (id : nat) (password : string) : Eff access unit :=
  if bool_decide (password = "") then mret tt
  else reply ← redis_send id ["AUTH"; password]; require (is_ok reply) invalid_response.

Definition ask_sentinel_checked (o : redis_options) (address : endpoint) : Eff access (outcome endpoint) :=
  check_running ;;
  id ← open_connection;
  deferred (unregister id)
    (result ← attempted (
       ip ← resolve_name (ep_host address);
       check_running ;;
       redis_connect id ip (ep_port address) ;;
       authenticate_checked id (ro_sentinel_password o) ;;
       reply ← redis_send id ["SENTINEL"; "get-master-addr-by-name"; ro_master_name o];
       master_address invalid_response reply);
     redis_close id ;; mret result).

Definition discover_redis_master (o : redis_options) : Eff access endpoint :=
  ask_sentinels (ask_sentinel_checked o) (ro_sentinels o) no_failure.

Definition with_link : Type := access * option master_link.
Definition drop_link : Eff with_link unit := λ '(w, l),
  match l with
  | None => (Ok tt, (w, None))
  | Some l =>
      match redis_close (ml_id l) w with
      | (Ok _, w) => (Ok tt, ((unregister (ml_id l) w).2, None))
      | (Throw e, w) => (Throw e, (w, Some l))
      end
  end.

Definition same_endpoint (a b : endpoint) : bool :=
  bool_decide (ep_host a = ep_host b) && (ep_port a =? ep_port b)%Z.

(** The part of redis_command that may fail. *)
Definition use_link (o : redis_options) (arguments : list string) : Eff with_link redis_reply :=
  address ← lift (discover_redis_master o);
  l ← get_local;
  (match l with
   | Some l => if same_endpoint (ml_address l) address then mret tt else drop_link
   | None => mret tt
   end) ;;
  l ← get_local;
  (match l with
   | Some _ => mret tt
   | None =>
       ip ← lift (resolve_name (ep_host address));
       lift check_running ;;
       id ← lift open_connection;
       set_local (λ _, Some (MkLink id address)) ;;
       lift (redis_connect id ip (ep_port address)) ;;
       lift (authenticate_checked id (ro_password o))
   end) ;;
  l ← get_local;
  match l with
  | Some l => lift (redis_send (ml_id l) arguments)
  | None => throw no_failure
  end.

Definition message_redis_command (o : redis_options) (arguments : list string) : Eff with_link redis_reply := λ s,
  match check_running s.1 with
  | (Throw e, w) => (Throw e, (w, s.2))
  | (Ok _, w) =>
      match use_link o arguments (w, s.2) with
      | (Ok reply, s) => (Ok reply, s)
      | (Throw e, s) => (drop_link ;; throw e) s
      end
  end.
End access.
