(* ===== verification/RedisAccessTheorems.v ===== *)
(** * What the drivers guarantee about Redis

    Under any failures of connections, any answers of the Sentinels and a stop at
    any point: a command is executed at most once, by the server the Sentinels
    named for it, and the connections opened for it are closed. *)

From S2P Require Import Prelude Options RedisAccess.

Section theorems.
Context `{!RedisServers} `{!RedisServersLaws}.

(** Commands that change nothing. *)
Definition is_question (arguments : list string) : Prop :=
  (∃ password, arguments = ["AUTH"; password]) ∨
  (∃ name, arguments = ["SENTINEL"; "get-master-addr-by-name"; name]).
Definition question (x : server_address * list string * redis_reply) : Prop := is_question x.1.2.

Lemma question_serve a arguments c : is_question arguments → (serve a arguments c).2 = c.
Proof. intros [[p ->]|[n ->]]; [apply serve_auth|apply serve_sentinel]. Qed.

(** Only questions were asked. *)
Definition asked (w w' : access) : Prop :=
  ac_cluster w' = ac_cluster w ∧ ∃ qs, Forall question qs ∧ ac_log w' = ac_log w ++ qs.
(** The connections are as they were. *)
Definition kept (w w' : access) : Prop :=
  ac_next w' = ac_next w ∧ ac_live w' = ac_live w ∧ ac_registered w' = ac_registered w.

#[export] Instance asked_preorder : PreOrder asked.
Proof.
  split.
  - intros w. split; [done|]. exists []. by rewrite app_nil_r.
  - intros w1 w2 w3 (E1 & q1 & H1 & L1) (E2 & q2 & H2 & L2). split; [congruence|]. exists (q1 ++ q2).
    split; [by apply Forall_app|]. by rewrite L2, L1, app_assoc.
Qed.
#[export] Instance kept_preorder : PreOrder kept.
Proof. split; unfold kept; [done|]. intros w1 w2 w3. intuition congruence. Qed.

(** ** Primitives *)

Lemma hop_spec {A} (m : Eff access A) (Q : outcome A → access → Prop) w :
  (∀ w', ac_cluster w' = ac_cluster w → ac_log w' = ac_log w → kept w w' → ac_connected w' = ac_connected w →
     (∀ e, Q (Throw e) w') ∧ Q (m w').1 (m w').2 ∧ ∀ e, Q (Throw e) (m w').2) →
  wp (hop_to m) Q w.
Proof.
  intros HQ. unfold wp, hop_to. set (h := default calm _). set (w1 := set_hops _ w).
  destruct (HQ (if hp_stop h then set_stopping true w1 else w1)) as (H1 & H2 & H3); [by destruct (hp_stop h)..|].
  destruct (hp_fault h); [apply H2|apply H1|apply H3].
Qed.

Definition inert (w w' : access) : Prop := asked w w' ∧ kept w w'.
#[export] Instance inert_preorder : PreOrder inert.
Proof. split; unfold inert; [by split|]. intros w1 w2 w3 [] []. split; by etransitivity. Qed.

Lemma same_asked w w' : ac_cluster w' = ac_cluster w → ac_log w' = ac_log w → asked w w'.
Proof. intros. split; [done|]. exists []. by rewrite app_nil_r. Qed.

Lemma resolve_inert host w : inert w (resolve_name host w).2.
Proof. apply (hop_spec _ (λ _, inert w)). intros w' Hc Hl Hk _. split_and!; intros; (split; [by apply same_asked|done]). Qed.
Lemma connect_inert id ip port w : inert w (redis_connect id ip port w).2.
Proof. apply (hop_spec _ (λ _, inert w)). intros w' Hc Hl Hk _. split_and!; intros; (split; [by apply same_asked|done]). Qed.
Lemma running_inert w : inert w (check_running w).2.
Proof. reflexivity. Qed.

(** What a send does: nothing, or one command at the server of its connection. *)
Definition executed (id : nat) (arguments : list string) (w : access) (r : outcome redis_reply) (w' : access) : Prop :=
  ∃ a reply, ac_connected w !! id = Some a ∧ serve a arguments (ac_cluster w) = (reply, ac_cluster w') ∧
    ac_log w' = ac_log w ++ [(a, arguments, reply)] ∧ ∀ x, r = Ok x → x = reply ∧ rp_type reply ≠ ReplyError.

Lemma send_executes id arguments w :
  wp (redis_send id arguments) (λ r w', kept w w' ∧ ac_connected w' = ac_connected w ∧
    ((ac_cluster w' = ac_cluster w ∧ ac_log w' = ac_log w ∧ ∃ e, r = Throw e) ∨ executed id arguments w r w')) w.
Proof.
  apply hop_spec. intros w' Hc Hl Hk Hn. rewrite Hn. split; [eauto 10|]. unfold executed.
  destruct (ac_connected w !! id) as [a|] eqn:Ea; [|split; eauto 10].
  rewrite Hc. destruct (serve a arguments (ac_cluster w)) as [reply c] eqn:Es.
  assert (kept w (set_cluster c (ac_log w' ++ [(a, arguments, reply)]) w')) as Hk' by done.
  assert (∀ r, (∀ x, r = Ok x → x = reply ∧ rp_type reply ≠ ReplyError) →
    ∃ a' reply', Some a = Some a' ∧ serve a' arguments (ac_cluster w) = (reply', c) ∧
      ac_log w' ++ [(a, arguments, reply)] = ac_log w ++ [(a', arguments, reply')] ∧
      ∀ x, r = Ok x → x = reply' ∧ rp_type reply' ≠ ReplyError) as Hx by (intros r Hr; exists a, reply; by rewrite Hl).
  destruct (rp_type reply) eqn:Et; simpl; (split; [|intros e]; (split_and!; [done|done|right; apply Hx; naive_solver congruence])).
Qed.

Lemma send_question id arguments w : is_question arguments → inert w (redis_send id arguments w).2.
Proof.
  intros Hq. destruct (send_executes id arguments w) as (Hk & _ & [(Hc & Hl & _)|(a & reply & _ & Hs & Hl & _)]).
  - split; [by apply same_asked|done].
  - split; [|done]. split; [by rewrite <- (question_serve a arguments (ac_cluster w) Hq), Hs|].
    exists [(a, arguments, reply)]. split; [by constructor|done].
Qed.

(** ** Blocks *)

Definition Inert {A} (m : Eff access A) : Prop := ∀ w, inert w (m w).2.

Lemma Inert_bind {A B} (m : Eff access A) (k : A → Eff access B) : Inert m → (∀ a, Inert (k a)) → Inert (m ≫= k).
Proof.
  intros Hm Hk w. rewrite bind_eq. destruct (m w).1 as [a|e] eqn:E; [|apply Hm]. etransitivity; [apply Hm|apply Hk].
Qed.
Lemma Inert_pure {A} (m : Eff access A) : (∀ w, (m w).2 = w) → Inert m.
Proof. intros Hm w. by rewrite Hm. Qed.
Definition ids_ok (w : access) : Prop := ∀ i, i ∈ ac_live w ∪ ac_registered w → i < ac_next w.

(** The connections that are open are those that were. *)
Definition tidy (w w' : access) : Prop :=
  ac_live w' = ac_live w ∧ ac_registered w' = ac_registered w ∧ ac_next w ≤ ac_next w'.
#[export] Instance tidy_preorder : PreOrder tidy.
Proof. split; unfold tidy; [auto|]. intros w1 w2 w3 (? & ? & ?) (? & ? & ?). split_and!; [congruence..|lia]. Qed.
Lemma kept_tidy w w' : kept w w' → tidy w w'.
Proof. intros (? & ? & ?). split_and!; [done..|lia]. Qed.
Lemma tidy_ids w w' : tidy w w' → ids_ok w → ids_ok w'.
Proof. intros (E1 & E2 & Hn) Hok i. rewrite E1, E2. intros Hi. apply Hok in Hi. lia. Qed.

Lemma close_spec id w :
  wp (redis_close id) (λ r w', ac_cluster w' = ac_cluster w ∧ ac_log w' = ac_log w ∧ ac_next w' = ac_next w ∧
    ac_live w' = ac_live w ∖ {[id]} ∧ ac_registered w' = ac_registered w) w.
Proof.
  set (w1 := set_open (ac_next w) (ac_live w ∖ {[id]}) (ac_registered w) (set_connected (delete id (ac_connected w)) w)).
  change (wp (hop_to (mret tt)) (λ r w', ac_cluster w' = ac_cluster w ∧
    ac_log w' = ac_log w ∧ ac_next w' = ac_next w ∧ ac_live w' = ac_live w ∖ {[id]} ∧ ac_registered w' = ac_registered w) w1).
  apply hop_spec. intros w' Hc Hl (Hn & Hv & Hr) _. split_and!; intros; done.
Qed.

(** A connection for a block: whatever the block does, the connection is closed
    and forgotten, and the block's outcome or a failure of close is the result. *)
Lemma block_spec {A B} (body : nat → Eff access A) (finish : outcome A → Eff access B) (f : outcome A → outcome B)
    (Q : outcome A → access → Prop) w :
  ids_ok w →
  (∀ id w1, ac_cluster w1 = ac_cluster w → ac_log w1 = ac_log w →
     kept w1 (body id w1).2 ∧ Q (body id w1).1 (body id w1).2) →
  (∀ o w, finish o w = (f o, w)) →
  wp (id ← open_connection;
      deferred (unregister id) (result ← attempted (body id); redis_close id ;; finish result)) (λ r w',
    tidy w w' ∧ ∃ o w2, Q o w2 ∧ ac_cluster w' = ac_cluster w2 ∧ ac_log w' = ac_log w2 ∧
      (r = f o ∨ ∃ e, r = Throw e)) w.
Proof.
  intros Hok Hb Hf. apply wp_bind. unfold wp at 1. simpl. set (id := ac_next w). set (w1 := set_open _ _ _ _).
  destruct (Hb id w1 eq_refl eq_refl) as [(Hn & Hv & Hr) HQ].
  unfold wp, deferred, attempted. rewrite bind_eq. destruct (body id w1) as [o w2]. simpl in Hn, Hv, Hr, HQ |- *.
  rewrite bind_eq. destruct (close_spec id w2) as (Hc3 & Hl3 & Hn3 & Hv3 & Hr3).
  assert ((id ∉ ac_live w) ∧ (id ∉ ac_registered w)) as [Hnl Hnr].
  { split; intros Hi; (assert (id < ac_next w); [apply Hok; set_solver|unfold id in *; lia]). }
  assert (∀ r : outcome B, (r = f o ∨ ∃ e, r = Throw e) →
    let w' := (unregister id (redis_close id w2).2).2 in
    tidy w w' ∧ ∃ o' w2', Q o' w2' ∧ ac_cluster w' = ac_cluster w2' ∧ ac_log w' = ac_log w2' ∧
      (r = f o' ∨ ∃ e, r = Throw e)) as Hend.
  { intros r Hr'. simpl. split; [|exists o, w2; auto]. unfold tidy. simpl. rewrite Hv3, Hr3, Hv, Hr, Hn3, Hn. simpl.
    split_and!; [set_solver|set_solver|lia]. }
  destruct (redis_close id w2) as [[[]|e] w3]; simpl in *; [|apply Hend; eauto].
  rewrite Hf. simpl. apply Hend. auto.
Qed.

(** ** The Sentinels *)

Definition names (reply : redis_reply) (ep : endpoint) : Prop :=
  rp_type reply = ReplyArray ∧
  ∃ port, rp_elements reply = [ep_host ep; port] ∧ stoul port = Ok (ep_port ep) ∧ (0 < ep_port ep ≤ 65535)%Z.
Definition sentinel_question (o : redis_options) : list string := ["SENTINEL"; "get-master-addr-by-name"; ro_master_name o].

(** The last thing that was asked is the master, and [ep] the answer. *)
Definition just_named (o : redis_options) (ep : endpoint) (w : access) : Prop :=
  ∃ before a reply, ac_log w = before ++ [(a, sentinel_question o, reply)] ∧ names reply ep.

Lemma master_address_spec invalid reply w :
  (master_address invalid reply w).2 = w ∧
  ∀ ep, (master_address invalid reply w).1 = Ok ep → names reply ep.
Proof.
  unfold master_address, names. destruct (rp_type reply); try done.
  destruct (rp_elements reply) as [|host [|port [|? ?]]]; try done. rewrite bind_eq. unfold from_outcome. simpl.
  destruct (stoul port) as [n|e] eqn:Es; simpl; [|done]. rewrite bind_eq. unfold require.
  destruct ((0 <? n)%Z && (n <=? 65535)%Z) eqn:En; simpl; [|done]. split; [done|]. intros ep [= <-]. split; [done|].
  exists port. simpl. apply andb_true_iff in En as [?%Z.ltb_lt ?%Z.leb_le]. split_and!; [done..|lia|lia].
Qed.

(** What a turn of the loop does once it has a connection, for an
    authentication that only asks. *)
Lemma ask_body_spec o invalid (auth : nat → Eff access unit) address id w :
  (∀ id, Inert (auth id)) →
  let m :=
    ip ← resolve_name (ep_host address);
    check_running ;;
    redis_connect id ip (ep_port address) ;;
    auth id ;;
    reply ← redis_send id (sentinel_question o);
    master_address invalid reply in
  inert w (m w).2 ∧ ∀ ep, (m w).1 = Ok ep → just_named o ep (m w).2.
Proof.
  intros Hauth m. assert (is_question (sentinel_question o)) as Hq by (right; by eexists). split.
  - apply Inert_bind; [intros ?; apply resolve_inert|]. intros ip.
    apply Inert_bind; [intros ?; apply running_inert|]. intros _.
    apply Inert_bind; [intros ?; apply connect_inert|]. intros _.
    apply Inert_bind; [apply Hauth|]. intros _.
    apply Inert_bind; [intros ?; by apply send_question|]. intros reply.
    apply Inert_pure. intros w'. apply master_address_spec.
  - assert (wp m (λ r w', ∀ ep, r = Ok ep → just_named o ep w') w) as Hm; [|exact Hm].
    apply wp_bind. unfold wp at 1. destruct (resolve_name _ w) as [[ip|e] w1]; [simpl|done].
    apply wp_bind. unfold wp at 1. destruct (check_running w1) as [[[]|e] w2]; [simpl|done].
    apply wp_bind. unfold wp at 1. destruct (redis_connect _ _ _ w2) as [[[]|e] w3]; [simpl|done].
    apply wp_bind. unfold wp at 1. destruct (auth id w3) as [[[]|e] w4]; [simpl|done].
    apply wp_bind. eapply wp_mono; [apply send_executes|]. intros [reply|e] w5 (_ & _ & Hs); [|done].
    destruct Hs as [(_ & _ & ? & [=])|(a & reply' & _ & _ & Hl & Hr)]. destruct (Hr _ eq_refl) as [-> _].
    unfold wp. destruct (master_address_spec invalid reply' w5) as [E Hn]. rewrite E. intros ep Hep.
    exists (ac_log w4), a, reply'. auto.
Qed.

Lemma authenticate_inert id password : Inert (authenticate id password).
Proof.
  unfold authenticate. case_bool_decide; [by apply Inert_pure|].
  apply Inert_bind; [intros w; apply send_question; left; by eexists|]. intros _. by apply Inert_pure.
Qed.
Lemma authenticate_checked_inert id password : Inert (authenticate_checked id password).
Proof.
  unfold authenticate_checked. case_bool_decide; [by apply Inert_pure|].
  apply Inert_bind; [intros w; apply send_question; left; by eexists|]. intros r. apply Inert_pure. intros w.
  unfold require. by destruct (is_ok r).
Qed.

(** What one or more turns leave. *)
Definition inquired {A} (o : redis_options) (named : A → option endpoint) (w : access) (r : outcome A) (w' : access) : Prop :=
  tidy w w' ∧ asked w w' ∧ ∀ a ep, r = Ok a → named a = Some ep → just_named o ep w'.
Definition found (o : outcome endpoint) : option endpoint := match o with Ok ep => Some ep | Throw _ => None end.

Lemma ask_block o invalid (auth : nat → Eff access unit) address w :
  (∀ id, Inert (auth id)) → ids_ok w →
  wp (check_running ;;
      id ← open_connection;
      deferred (unregister id)
        (result ← attempted (
           ip ← resolve_name (ep_host address);
           check_running ;;
           redis_connect id ip (ep_port address) ;;
           auth id ;;
           reply ← redis_send id (sentinel_question o);
           master_address invalid reply);
         redis_close id ;; mret result)) (inquired o found w) w.
Proof.
  intros Hauth Hok. apply wp_bind. unfold wp at 1, check_running. destruct (ac_stopping w); simpl.
  { split_and!; [reflexivity|reflexivity|done]. }
  eapply wp_mono.
  { apply (block_spec _ _ (λ o, Ok o) (λ r w', asked w w' ∧ ∀ ep, r = Ok ep → just_named o ep w')); [done| |done].
    intros id w1 Hc Hl. destruct (ask_body_spec o invalid auth address id w1 Hauth) as [[Ha Hk] Hn].
    split_and!; [done| |done]. etransitivity; [by apply same_asked|done]. }
  intros r w' (Ht & x & w2 & [Ha Hn] & Hc & Hl & Hr). split_and!; [done| |].
  - etransitivity; [done|]. by apply same_asked.
  - intros y ep -> Hy. destruct Hr as [[= ->]|[? [=]]]. destruct x as [ep'|]; [|done]. injection Hy as ->.
    unfold just_named. rewrite Hl. by apply Hn.
Qed.

Lemma ask_sentinels_spec o (ask : endpoint → Eff access (outcome endpoint)) sentinels last w :
  (∀ address w, ids_ok w → wp (ask address) (inquired o found w) w) → ids_ok w →
  wp (ask_sentinels ask sentinels last) (inquired o Some w) w.
Proof.
  intros Hask. revert last w. induction sentinels as [|address sentinels IH]; intros last w Hok; simpl.
  { apply wp_throw. split_and!; [reflexivity|reflexivity|done]. }
  apply wp_bind. eapply wp_mono; [by apply Hask|]. intros [[ep|e]|e] w1 (Ht & Ha & Hn).
  - apply wp_ret. split_and!; [done..|]. intros x ep' [= <-] [= <-]. by apply (Hn (Ok ep)).
  - eapply wp_mono; [apply IH; by eapply tidy_ids|]. intros r w2 (Ht2 & Ha2 & Hn2). split_and!; [by etransitivity..|done].
  - split_and!; [done..|]. intros; done.
Qed.

Lemma discover_master_spec o invalid w : ids_ok w → wp (discover_master o invalid) (inquired o Some w) w.
Proof.
  intros. apply ask_sentinels_spec; [|done]. intros address w' Hok. unfold ask_sentinel.
  apply (ask_block o invalid (λ id, authenticate id (ro_sentinel_password o))); [|done]. intros id. apply authenticate_inert.
Qed.
Lemma discover_redis_master_spec o w : ids_ok w → wp (discover_redis_master o) (inquired o Some w) w.
Proof.
  intros. apply ask_sentinels_spec; [|done]. intros address w' Hok. unfold ask_sentinel_checked.
  apply (ask_block o _ (λ id, authenticate_checked id (ro_sentinel_password o))); [|done].
  intros id. apply authenticate_checked_inert.
Qed.

(** ** Commands *)

Definition is_auth (x : server_address * list string * redis_reply) : Prop := ∃ password, x.1.2 = ["AUTH"; password].

(** The master was asked for and is [ep]; only authentication followed. *)
Definition named (o : redis_options) (ep : endpoint) (w : access) : Prop :=
  ∃ before a reply auths, ac_log w = before ++ (a, sentinel_question o, reply) :: auths ∧ names reply ep ∧ Forall is_auth auths.

Definition address_of (ep : endpoint) : server_address := (dns (ep_host ep), ep_port ep).

(** What an operation with the command [arguments] did: it asked questions and
    failed, or the server of the master that the Sentinels named executed the
    command once, and its reply is the result, if there is one. *)
Definition commanded (o : redis_options) (arguments : list string) (w : access) (r : outcome redis_reply) (w' : access) : Prop :=
  (asked w w' ∧ ∃ e, r = Throw e) ∨
  ∃ w1 ep reply, asked w w1 ∧ named o ep w1 ∧
    serve (address_of ep) arguments (ac_cluster w) = (reply, ac_cluster w') ∧
    ac_log w' = ac_log w1 ++ [(address_of ep, arguments, reply)] ∧
    ∀ x, r = Ok x → x = reply ∧ rp_type reply ≠ ReplyError.

(** Nothing but authentication, and connections stay connected. *)
Definition authed (w w' : access) : Prop :=
  inert w w' ∧ ac_connected w' = ac_connected w ∧ ∃ auths, ac_log w' = ac_log w ++ auths ∧ Forall is_auth auths.

Lemma auth_authed id password w : authed w (redis_send id ["AUTH"; password] w).2.
Proof.
  split; [apply send_question; left; by eexists|].
  destruct (send_executes id ["AUTH"; password] w) as (_ & Hn & [(_ & Hl & _)|(a & reply & _ & _ & Hl & _)]).
  - split; [done|]. exists []. by rewrite app_nil_r.
  - split; [done|]. exists [(a, ["AUTH"; password], reply)]. split; [done|]. constructor; [by eexists|done].
Qed.
Lemma authed_refl w : authed w w.
Proof. split; [reflexivity|]. split; [done|]. exists []. by rewrite app_nil_r. Qed.

Lemma authenticate_authed id password w : authed w (authenticate id password w).2.
Proof.
  unfold authenticate. case_bool_decide; [apply authed_refl|]. rewrite bind_eq.
  pose proof (auth_authed id password w) as Ha. by destruct (redis_send _ _ w) as [[]].
Qed.
Lemma authenticate_checked_authed id password w : authed w (authenticate_checked id password w).2.
Proof.
  unfold authenticate_checked. case_bool_decide; [apply authed_refl|]. rewrite bind_eq.
  pose proof (auth_authed id password w) as Ha. destruct (redis_send _ _ w) as [[r|]]; [|done].
  simpl in *. unfold require. by destruct (is_ok r).
Qed.

Lemma connect_ok id ip port w :
  wp (redis_connect id ip port) (λ r w', inert w w' ∧ ac_log w' = ac_log w ∧
    (r = Ok tt → ac_connected w' !! id = Some (ip, port))) w.
Proof.
  apply hop_spec. intros w' Hc Hl Hk _.
  split; [intros e|split; [|intros e]]; (split; [split; [by apply same_asked|done]|split; [done|]]); try done.
  intros _. apply lookup_insert_eq.
Qed.

Lemma resolve_named host w :
  wp (resolve_name host) (λ r w', inert w w' ∧ ac_log w' = ac_log w ∧ ∀ ip, r = Ok ip → ip = dns host) w.
Proof.
  apply hop_spec. intros w' Hc Hl Hk _.
  split; [intros e|split; [|intros e]]; (split; [split; [by apply same_asked|done]|split; [done|naive_solver]]).
Qed.

Lemma named_log o ep w w' auths :
  named o ep w → ac_log w' = ac_log w ++ auths → Forall is_auth auths → named o ep w'.
Proof.
  intros (before & a & reply & auths0 & E & Hn & Ha) E' Ha'. exists before, a, reply, (auths0 ++ auths).
  split_and!; [by rewrite E', E, <- app_assoc|done|by apply Forall_app].
Qed.
Lemma just_named_named o ep w : just_named o ep w → named o ep w.
Proof. intros (before & a & reply & E & Hn). by exists before, a, reply, []. Qed.

Lemma send_commanded o ep id arguments w0 w :
  asked w0 w → named o ep w → (∀ a, ac_connected w !! id = Some a → a = address_of ep) →
  wp (redis_send id arguments) (λ r w', kept w w' ∧ ac_connected w' = ac_connected w ∧ commanded o arguments w0 r w') w.
Proof.
  intros Ha Hn Hi. eapply wp_mono; [apply send_executes|]. intros r w' (Hk & Hcn & [(Hc & Hl & He)|Hx]).
  - split_and!; [done..|]. left. split; [|done]. etransitivity; [done|by apply same_asked].
  - split_and!; [done..|]. right. destruct Hx as (a & reply & Hi' & Hs & Hl & Hr). apply Hi in Hi' as ->.
    exists w, ep, reply. split_and!; [done..| |done|done]. destruct Ha as [Hc _]. by rewrite <- Hc.
Qed.
Lemma commanded_throw o arguments w w1 w' e :
  asked w w1 → asked w1 w' → commanded o arguments w (Throw e) w'.
Proof. intros. left. split; [by etransitivity|eauto]. Qed.

(** The use of a new connection to the master. *)
Lemma master_body o ep arguments (auth : nat → Eff access unit) id w0 w :
  (∀ id w, authed w (auth id w).2) → asked w0 w → named o ep w →
  wp (ip ← resolve_name (ep_host ep);
      check_running ;; redis_connect id ip (ep_port ep) ;; auth id ;; redis_send id arguments)
    (λ r w', kept w w' ∧ commanded o arguments w0 r w') w.
Proof.
  intros Hauth Ha Hn. apply wp_bind. eapply wp_mono; [apply resolve_named|]. intros [ip|e] w1 ([Ha1 Hk1] & Hl1 & Hip).
  2: { split; [done|by eapply commanded_throw]. }
  rewrite (Hip ip eq_refl). apply wp_bind. unfold wp at 1, check_running. destruct (ac_stopping w1); simpl.
  { split; [done|by eapply commanded_throw]. }
  apply wp_bind. eapply wp_mono; [apply connect_ok|]. intros [[]|e] w2 ([Ha2 Hk2] & Hl2 & Hc2).
  2: { split; [by etransitivity|]. eapply commanded_throw; [done|by etransitivity]. }
  assert (asked w0 w2) as Ha02 by (etransitivity; [done|by etransitivity]). assert (kept w w2) as Hk02 by by etransitivity.
  apply wp_bind. unfold wp at 1. destruct (Hauth id w2) as ([Ha3 Hk3] & Hc3 & auths & Hl3 & Hf).
  destruct (auth id w2) as [[[]|e] w3]; simpl in *.
  2: { split; [by etransitivity|by eapply commanded_throw]. }
  eapply wp_mono; [apply (send_commanded o ep id arguments w0 w3)|].
  - by etransitivity.
  - eapply named_log; [done| |done]. by rewrite Hl3, Hl2, Hl1.
  - intros a. rewrite Hc3. intros E. pose proof (eq_trans (eq_sym E) (Hc2 eq_refl)) as E2. by injection E2.
  - intros r w4 (Hk4 & _ & Hx). split; [|done]. etransitivity; [done|by etransitivity].
Qed.

Lemma redis_command_spec o invalid arguments w :
  ids_ok w → wp (redis_command o invalid arguments) (λ r w', tidy w w' ∧ commanded o arguments w r w') w.
Proof.
  intros Hok. unfold redis_command. apply wp_bind. unfold wp at 1, check_running. destruct (ac_stopping w); simpl.
  { split; [reflexivity|]. by eapply (commanded_throw _ _ w w). }
  apply wp_bind. eapply wp_mono; [by apply discover_master_spec|]. intros [ep|e] w1 (Ht & Ha & Hn).
  2: { split; [done|]. by eapply commanded_throw. }
  eapply wp_mono.
  { apply (block_spec _ _ (λ x, x) (commanded o arguments w)); [by eapply tidy_ids| |done].
    intros id w2 Hc Hl. apply (master_body o ep arguments (λ id, authenticate id (ro_password o)) id w w2).
    - intros. apply authenticate_authed.
    - etransitivity; [done|by apply same_asked].
    - eapply (named_log o ep w1); [by apply just_named_named, (Hn ep ep)| |constructor]. by rewrite Hl, app_nil_r. }
  intros r w' (Ht' & x & w2 & Hx & Hc & Hl & Hr). split; [by etransitivity|].
  assert (commanded o arguments w x w') as Hx'.
  { destruct Hx as [[Hax Hex]|(w3 & ep' & reply & H1 & H2 & H3 & H4 & H5)].
    - left. split; [|done]. etransitivity; [done|by apply same_asked].
    - right. exists w3, ep', reply. rewrite Hc, Hl. by split_and!. }
  destruct Hr as [-> |[e ->]]; [done|]. destruct Hx' as [[Hax _]|(w3 & ep' & reply & H1 & H2 & H3 & H4 & _)]; [left; eauto|].
  right. exists w3, ep', reply. by split_and!.
Qed.

(** ** The connection that the Message driver keeps *)

(** [m] leaves the other connections where they are connected. *)
Definition Only (id : nat) {A} (m : Eff access A) : Prop :=
  ∀ w i, i ≠ id → ac_connected (m w).2 !! i = ac_connected w !! i.

Lemma Only_bind id {A B} (m : Eff access A) (k : A → Eff access B) : Only id m → (∀ a, Only id (k a)) → Only id (m ≫= k).
Proof. intros Hm Hk w i Hi. rewrite bind_eq. destruct (m w).1; [rewrite Hk by done|]; by apply Hm. Qed.
Lemma Only_same id {A} (m : Eff access A) : (∀ w, ac_connected (m w).2 = ac_connected w) → Only id m.
Proof. intros Hm w i _. by rewrite Hm. Qed.
Lemma Only_hop id {A} (m : Eff access A) : Only id m → Only id (hop_to m).
Proof.
  intros Hm w i Hi. apply (hop_spec m (λ _ w', ac_connected w' !! i = ac_connected w !! i) w).
  intros w' _ _ _ E. rewrite <- E. split_and!; intros; try done; by apply Hm.
Qed.
Lemma Only_resolve id host : Only id (resolve_name host).
Proof. apply Only_hop. by apply Only_same. Qed.
Lemma Only_connect id ip port : Only id (redis_connect id ip port).
Proof. apply Only_hop. intros w i Hi. simpl. by rewrite lookup_insert_ne. Qed.
Lemma Only_send id arguments : Only id (redis_send id arguments).
Proof. apply Only_same. intros w. destruct (send_executes id arguments w) as (_ & E & _). done. Qed.
Lemma Only_close id : Only id (redis_close id).
Proof.
  intros w i Hi. unfold redis_close. set (w1 := set_open _ _ _ _).
  assert (Only id (hop_to (mret tt))) as Hh by (by apply Only_hop, Only_same).
  rewrite (Hh w1 i Hi). simpl. by rewrite lookup_delete_ne.
Qed.

Lemma ask_only o invalid (auth : nat → Eff access unit) address w i :
  (∀ id w, authed w (auth id w).2) → i < ac_next w →
  ac_connected (
    (check_running ;;
     id ← open_connection;
     deferred (unregister id)
       (result ← attempted (
          ip ← resolve_name (ep_host address);
          check_running ;;
          redis_connect id ip (ep_port address) ;;
          auth id ;;
          reply ← redis_send id (sentinel_question o);
          master_address invalid reply);
        redis_close id ;; mret result)) w).2 !! i = ac_connected w !! i.
Proof.
  intros Hauth Hi. rewrite bind_eq. unfold check_running at 1 2 3 4. simpl. destruct (ac_stopping w); [done|].
  rewrite bind_eq. simpl. set (w1 := set_open _ _ _ w). unfold deferred.
  assert (∀ (m : Eff access (outcome endpoint)), Only (ac_next w) m →
    ac_connected ((let '(r, w') := m w1 in (r, (unregister (ac_next w) w').2))).2 !! i = ac_connected w !! i) as Hm.
  { intros m Hm. specialize (Hm w1 i). destruct (m w1) as [r w2]. simpl in *. apply Hm. lia. }
  apply Hm. apply Only_bind; [|intros x; apply Only_bind; [apply Only_close|intros _; by apply Only_same]].
  intros w2 j Hj. unfold attempted. set (m := _ ≫= _). assert (Only (ac_next w) m) as Hb; [|specialize (Hb w2 j Hj); by destruct (m w2)].
  apply Only_bind; [apply Only_resolve|]. intros ip. apply Only_bind; [by apply Only_same|]. intros _.
  apply Only_bind; [apply Only_connect|]. intros _.
  apply Only_bind; [apply Only_same; intros w3; by destruct (Hauth (ac_next w) w3) as (_ & -> & _)|]. intros _.
  apply Only_bind; [apply Only_send|]. intros reply. apply Only_same. intros w3.
  by destruct (master_address_spec invalid reply w3) as [-> _].
Qed.

Lemma discover_only o w i :
  ids_ok w → i < ac_next w → ac_connected (discover_redis_master o w).2 !! i = ac_connected w !! i.
Proof.
  unfold discover_redis_master. generalize no_failure as last. revert w.
  induction (ro_sentinels o) as [|address sentinels IH]; intros w last Hok Hi; simpl; [done|]. rewrite bind_eq.
  pose proof (ask_only o invalid_response (λ id, authenticate_checked id (ro_sentinel_password o)) address w i
    (λ id w, authenticate_checked_authed id _ w) Hi) as Ho.
  pose proof (ask_block o invalid_response (λ id, authenticate_checked id (ro_sentinel_password o)) address w
    (λ id, authenticate_checked_inert id _) Hok) as (Ht & _ & _).
  change (ac_connected (ask_sentinel_checked o address w).2 !! i = ac_connected w !! i) in Ho.
  change (tidy w (ask_sentinel_checked o address w).2) in Ht.
  destruct (ask_sentinel_checked o address w) as [[[ep|e]|e] w1]; simpl in *; [done| |done].
  rewrite IH; [done|by eapply tidy_ids|]. destruct Ht as (_ & _ & Ht). lia.
Qed.

Definition link_ids (l : option master_link) : gset nat := match l with Some l => {[ml_id l]} | None => ∅ end.

(** Besides the link, what is open is what was. *)
Definition others (s s' : with_link) : Prop :=
  ac_live s'.1 ∖ link_ids s'.2 = ac_live s.1 ∖ link_ids s.2 ∧
  ac_registered s'.1 ∖ link_ids s'.2 = ac_registered s.1 ∖ link_ids s.2.
Definition sane (s : with_link) : Prop := ids_ok s.1 ∧ ∀ lk, s.2 = Some lk → ml_id lk < ac_next s.1.
Definition held (s s' : with_link) : Prop := sane s' ∧ others s s'.
(** The link leads, if anywhere, to the server of its address. *)
Definition leads (s : with_link) : Prop :=
  ∀ lk a, s.2 = Some lk → ac_connected s.1 !! ml_id lk = Some a → a = address_of (ml_address lk).

Lemma held_trans s1 s2 s3 : held s1 s2 → held s2 s3 → held s1 s3.
Proof. intros [_ [? ?]] [? [? ?]]. split; [done|]. split; congruence. Qed.
Lemma held_tidy w w' l : sane (w, l) → tidy w w' → held (w, l) (w', l).
Proof.
  intros [Hi Hl] Ht. split; [split|]; simpl in *.
  - by eapply tidy_ids.
  - intros lk E. destruct Ht as (_ & _ & Ht). specialize (Hl lk E). lia.
  - destruct Ht as (E1 & E2 & _). split; simpl; congruence.
Qed.
Lemma held_kept w w' l : sane (w, l) → kept w w' → held (w, l) (w', l).
Proof. intros. apply held_tidy; [done|by apply kept_tidy]. Qed.
Lemma held_new w id ep :
  sane (w, None) → id = ac_next w →
  held (w, None) (set_open (S (ac_next w)) ({[id]} ∪ ac_live w) ({[id]} ∪ ac_registered w) w, Some (MkLink id ep)).
Proof.
  intros [Hi _] ->. split; [split|]; simpl in *.
  - intros i Hx. simpl in *. destruct (decide (i = ac_next w)) as [->|]; [lia|].
    assert (i < ac_next w); [apply Hi; set_solver|lia].
  - intros lk [= <-]. simpl. lia.
  - assert (∀ i, i ∈ ac_live w ∪ ac_registered w → i ≠ ac_next w) by (intros i Hx ->; specialize (Hi _ Hx); lia).
    split; simpl; set_solver.
Qed.

Lemma close_forgets id w : ac_connected (redis_close id w).2 !! id = None.
Proof.
  unfold redis_close. set (w1 := set_open _ _ _ _).
  apply (hop_spec (mret tt) (λ _ w', ac_connected w' !! id = None) w1). intros w' _ _ _ E.
  assert (ac_connected w' !! id = None) by (rewrite E; apply lookup_delete_eq). split_and!; intros; done.
Qed.

(** Whatever the link was, what is left of it leads nowhere else. *)
Lemma drop_link_spec w l :
  sane (w, l) →
  wp drop_link (λ r s', held (w, l) s' ∧ leads s' ∧ ac_cluster s'.1 = ac_cluster w ∧ ac_log s'.1 = ac_log w ∧
    (r = Ok tt → s'.2 = None)) (w, l).
Proof.
  intros [Hi Hl]. simpl in Hi, Hl. unfold wp, drop_link. destruct l as [lk|].
  2: { simpl. split_and!; [|done..]. split; [by split|by split]. }
  destruct (close_spec (ml_id lk) w) as (Hc & Hlg & Hn & Hv & Hr). pose proof (close_forgets (ml_id lk) w) as Hf.
  destruct (redis_close (ml_id lk) w) as [[[]|e] w']; simpl in Hc, Hlg, Hn, Hv, Hr, Hf |- *.
  - split_and!; [|done..]. split; [split|].
    + intros i. simpl. rewrite Hv, Hr, Hn. intros Hx. apply Hi. set_solver.
    + done.
    + split; simpl; rewrite ?Hv, ?Hr; set_solver.
  - split_and!; [|intros lk' a [= <-]; simpl; by rewrite Hf|done..]. split; [split|].
    + intros i. simpl. rewrite Hv, Hr, Hn. intros Hx. apply Hi. set_solver.
    + intros lk' [= <-]. simpl. rewrite Hn. by apply Hl.
    + split; simpl; rewrite ?Hv, ?Hr; set_solver.
Qed.

(** A new link: what is done before the command is sent. *)
Lemma open_link_spec o ep w0 w :
  sane (w, None) → asked w0 w → named o ep w →
  wp (ip ← lift (resolve_name (ep_host ep));
      lift check_running ;;
      id ← lift open_connection;
      set_local (λ _, Some (MkLink id ep)) ;;
      lift (redis_connect id ip (ep_port ep)) ;;
      lift (authenticate_checked id (ro_password o))) (λ r s',
    held (w, None) s' ∧ asked w0 s'.1 ∧
    (r = Ok tt → named o ep s'.1 ∧ ∃ id, s'.2 = Some (MkLink id ep) ∧ ac_connected s'.1 !! id = Some (address_of ep)))
    (w, None).
Proof.
  intros Hp Ha Hn. apply wp_bind, wp_lift. eapply wp_mono; [apply resolve_named|]. intros [ip|e] w1 ([Ha1 Hk1] & Hl1 & Hip).
  2: { simpl. split_and!; [by apply held_kept|by etransitivity|done]. }
  rewrite (Hip ip eq_refl). assert (held (w, None) (w1, None)) as Hm1 by (by apply held_kept).
  apply wp_bind, wp_lift. unfold wp at 1, check_running. destruct (ac_stopping w1); simpl.
  { split_and!; [done|by etransitivity|done]. }
  apply wp_bind, wp_lift. unfold wp at 1. simpl. set (id := ac_next w1). set (w2 := set_open _ _ _ w1).
  assert (held (w, None) (w2, Some (MkLink id ep))) as Hm2.
  { eapply held_trans; [done|]. apply held_new; [apply Hm1|done]. }
  apply wp_bind, wp_set_local. apply wp_bind, wp_lift. eapply wp_mono; [apply connect_ok|].
  intros r w3 ([Ha3 Hk3] & Hl3 & Hc3).
  assert (held (w, None) (w3, Some (MkLink id ep))) as Hm3.
  { eapply held_trans; [done|]. apply held_kept; [apply Hm2|done]. }
  assert (asked w0 w3) as Ha03 by (etransitivity; [done|]; by etransitivity).
  destruct r as [[]|e]; [|done]. apply wp_lift. unfold wp.
  destruct (authenticate_checked_authed id (ro_password o) w3) as ([Ha4 Hk4] & Hc4 & auths & Hl4 & Hf).
  destruct (authenticate_checked id (ro_password o) w3) as [r w4]; simpl in *.
  split_and!; [eapply held_trans; [done|]; apply held_kept; [apply Hm3|done]|by etransitivity|]. intros _. split.
  - eapply named_log; [done| |done]. by rewrite Hl4, Hl3, <- Hl1.
  - exists id. rewrite Hc4. auto.
Qed.

Lemma same_endpoint_eq a b : same_endpoint a b = true → a = b.
Proof.
  unfold same_endpoint. destruct a, b. simpl. intros [E1 E2]%andb_prop. apply bool_decide_eq_true in E1.
  apply Z.eqb_eq in E2. congruence.
Qed.

(** The link is [ep]'s, or there is none. *)
Definition link_to (ep : endpoint) (s : with_link) : Prop :=
  ∀ lk, s.2 = Some lk → ml_address lk = ep.

Lemma drop_other_spec o ep w0 w l :
  sane (w, l) → leads (w, l) → asked w0 w → named o ep w →
  wp (match l with
      | Some l => if same_endpoint (ml_address l) ep then mret tt else drop_link
      | None => mret tt
      end) (λ r s', held (w, l) s' ∧ leads s' ∧ asked w0 s'.1 ∧ named o ep s'.1 ∧ (r = Ok tt → link_to ep s')) (w, l).
Proof.
  intros Hs Hl Ha Hn. assert (held (w, l) (w, l)) as Hh by (split; [done|by split]).
  destruct l as [lk|]; [|by apply wp_ret].
  destruct (same_endpoint (ml_address lk) ep) eqn:E.
  { apply wp_ret. split_and!; [done..|]. intros _ lk' [= <-]. by apply same_endpoint_eq. }
  eapply wp_mono; [by apply drop_link_spec|]. intros r [w' l'] (Hh' & Hl' & Hc & Hg & Hr). simpl in *. split_and!.
  - done.
  - done.
  - etransitivity; [done|by apply same_asked].
  - eapply named_log; [done|by rewrite app_nil_r|done].
  - intros Er lk' E'. simpl in E'. rewrite Hr in E' by done. done.
Qed.

Lemma ensure_link_spec o ep w0 w l :
  sane (w, l) → leads (w, l) → link_to ep (w, l) → asked w0 w → named o ep w →
  wp (match l with
      | Some _ => mret tt
      | None =>
          ip ← lift (resolve_name (ep_host ep));
          lift check_running ;;
          id ← lift open_connection;
          set_local (λ _, Some (MkLink id ep)) ;;
          lift (redis_connect id ip (ep_port ep)) ;;
          lift (authenticate_checked id (ro_password o))
      end) (λ r s', held (w, l) s' ∧ asked w0 s'.1 ∧ (r = Ok tt → named o ep s'.1 ∧ leads s' ∧ link_to ep s')) (w, l).
Proof.
  intros Hs Hl He Ha Hn. destruct l as [lk|].
  { apply wp_ret. split_and!; [by split|done..]. }
  eapply wp_mono; [by apply open_link_spec|]. intros r [w' l'] (Hh & Ha' & Hr). split_and!; [done..|]. intros Er.
  destruct (Hr Er) as (Hn' & id & El & Hc). simpl in El. subst l'. split_and!; [done| |].
  - intros lk a [= <-] E. simpl in *. pose proof (eq_trans (eq_sym E) Hc) as E2. by injection E2.
  - by intros lk [= <-].
Qed.

Lemma use_link_spec o arguments w l :
  sane (w, l) → leads (w, l) →
  wp (use_link o arguments) (λ r s', held (w, l) s' ∧ commanded o arguments w r s'.1 ∧ ∀ x, r = Ok x → leads s') (w, l).
Proof.
  intros Hs Hl. unfold use_link. apply wp_bind, wp_lift.
  pose proof (λ i, discover_only o w i (proj1 Hs)) as Ho.
  pose proof (discover_redis_master_spec o w (proj1 Hs)) as Hd. unfold wp in Hd |- *.
  destruct (discover_redis_master o w) as [[ep|e] w1]; simpl in Hd, Ho |- *; destruct Hd as (Ht & Ha & Hn).
  2: { split_and!; [by apply held_tidy|by left; eauto|done]. }
  specialize (Hn ep ep eq_refl eq_refl). apply just_named_named in Hn.
  assert (held (w, l) (w1, l)) as Hh by by apply held_tidy.
  assert (leads (w1, l)) as Hl1.
  { intros lk a E. simpl. rewrite Ho by by apply Hs. by apply Hl. }
  apply wp_bind, wp_get_local, wp_bind.
  eapply wp_mono; [apply drop_other_spec; [apply Hh|done..]|]. intros r2 [w2 l2] (Hh2 & Hl2 & Ha2 & Hn2 & Hr2). simpl in *.
  pose proof (held_trans _ _ _ Hh Hh2) as Hh02. destruct r2 as [[]|e].
  2: { split_and!; [done|left; eauto|done]. }
  apply wp_bind, wp_get_local, wp_bind.
  eapply wp_mono; [apply (ensure_link_spec o ep w); [apply Hh2|by auto..]|]. intros r3 [w3 l3] (Hh3 & Ha3 & Hr3). simpl in *.
  pose proof (held_trans _ _ _ Hh02 Hh3) as Hh03. destruct r3 as [[]|e].
  2: { split_and!; [done|left; eauto|done]. }
  destruct (Hr3 eq_refl) as (Hn3 & Hl3 & He3). apply wp_bind, wp_get_local. destruct l3 as [lk|].
  2: { apply wp_throw. split_and!; [done|left; eauto|done]. }
  apply wp_lift. eapply wp_mono; [apply (send_commanded o ep _ arguments w w3); [done..|]|].
  - intros a E. rewrite (Hl3 lk a eq_refl E). simpl. by rewrite (He3 lk eq_refl).
  - intros r w4 (Hk & Hc & Hx). split_and!.
    + eapply held_trans; [done|]. apply held_kept; [apply Hh3|done].
    + done.
    + intros x _ lk' a. simpl. rewrite Hc. apply Hl3.
Qed.

Lemma message_redis_command_spec o arguments w l :
  sane (w, l) → leads (w, l) →
  wp (message_redis_command o arguments) (λ r s', held (w, l) s' ∧ leads s' ∧ commanded o arguments w r s'.1) (w, l).
Proof.
  intros Hs Hl. unfold wp, message_redis_command, check_running. simpl.
  assert (held (w, l) (w, l)) as Hh0 by (split; [done|by split]).
  destruct (ac_stopping w). { split_and!; [done..|]. by eapply (commanded_throw _ _ w w). }
  destruct (use_link_spec o arguments w l Hs Hl) as (Hh & Hx & Hr).
  destruct (use_link o arguments (w, l)) as [[x|e] [w1 l1]]; simpl in *; [eauto|].
  change (wp (drop_link ;; throw e) (λ r s', held (w, l) s' ∧ leads s' ∧ commanded o arguments w r s'.1) (w1, l1)).
  apply wp_bind. eapply wp_mono; [apply drop_link_spec, Hh|]. intros r [w2 l2] (Hh2 & Hl2 & Hc & Hg & _).
  pose proof (held_trans _ _ _ Hh Hh2) as Hh02.
  assert (∀ e', commanded o arguments w (Throw e') w2) as Hcm.
  { intros e'. destruct Hx as [[Ha _]|(w' & ep & reply & Ha & Hn & Hs' & Hg' & _)]; simpl in *.
    - left. split; [|eauto]. etransitivity; [done|by apply same_asked].
    - right. exists w', ep, reply. split_and!; [done|done|by rewrite Hc|by rewrite Hg|done]. }
  destruct r as [[]|e']; [apply wp_throw|]; by auto.
Qed.

(** ** Where nothing fails *)

Definition undisturbed (w : access) : Prop := ac_ahead w = [] ∧ ac_stopping w = false.
Definition goes_on (w w' : access) : Prop := undisturbed w' ∧ ac_cluster w' = ac_cluster w ∧ ac_connected w' = ac_connected w.

Lemma hop_calm {A} (m : Eff access A) w : undisturbed w → hop_to m w = m w.
Proof. intros [E _]. destruct w. simpl in E. subst. done. Qed.
Lemma running_calm w : undisturbed w → check_running w = (Ok tt, w).
Proof. intros [_ E]. unfold check_running. by rewrite E. Qed.

Lemma resolve_calm host w : undisturbed w → resolve_name host w = (Ok (dns host), w).
Proof. intros. unfold resolve_name. by rewrite hop_calm. Qed.
Lemma connect_calm id ip port w :
  undisturbed w → redis_connect id ip port w = (Ok tt, set_connected (<[id := (ip, port)]> (ac_connected w)) w).
Proof. intros. unfold redis_connect. by rewrite hop_calm. Qed.

Lemma send_calm id a arguments w reply c :
  undisturbed w → ac_connected w !! id = Some a → serve a arguments (ac_cluster w) = (reply, c) →
  rp_type reply ≠ ReplyError →
  redis_send id arguments w = (Ok reply, set_cluster c (ac_log w ++ [(a, arguments, reply)]) w).
Proof. intros Hw Hi Hs Hr. unfold redis_send. rewrite hop_calm, Hi, Hs by done. by destruct (rp_type reply). Qed.

(** The server [a] lets a driver that authenticates with [auth] in. *)
Definition lets_in (auth : nat → Eff access unit) (a : server_address) (c : cluster) : Prop :=
  ∀ id w, undisturbed w → ac_cluster w = c → ac_connected w !! id = Some a →
    ∃ w', auth id w = (Ok tt, w') ∧ goes_on w w'.

Lemma authenticate_lets_in password a c :
  (password ≠ "" → rp_type (serve a ["AUTH"; password] c).1 ≠ ReplyError) →
  lets_in (λ id, authenticate id password) a c.
Proof.
  intros Hp id w Hw <- Hi. unfold authenticate. case_bool_decide as E; [by exists w|].
  pose proof (serve_auth a password (ac_cluster w)) as Hc. specialize (Hp E).
  destruct (serve a _ (ac_cluster w)) as [reply c'] eqn:Es. simpl in *. subst c'.
  rewrite bind_eq, (send_calm id a _ w reply (ac_cluster w)) by done. simpl. eexists. by split.
Qed.
Lemma authenticate_checked_lets_in password a c :
  (password ≠ "" → is_ok (serve a ["AUTH"; password] c).1) →
  lets_in (λ id, authenticate_checked id password) a c.
Proof.
  intros Hp id w Hw <- Hi. unfold authenticate_checked. case_bool_decide as E; [by exists w|].
  pose proof (serve_auth a password (ac_cluster w)) as Hc. specialize (Hp E).
  destruct (serve a _ (ac_cluster w)) as [reply c'] eqn:Es. simpl in *. subst c'.
  rewrite bind_eq, (send_calm id a _ w reply (ac_cluster w)); try done; simpl.
  - eexists. split; [unfold require; by rewrite (proj1 (Is_true_true _) Hp)|by split].
  - unfold is_ok in Hp. intros Er. rewrite Er in Hp. by destruct Hp.
Qed.

Lemma master_address_calm invalid reply ep w :
  names reply ep → master_address invalid reply w = (Ok ep, w).
Proof.
  intros (Ht & port & Hp & Hs & Hr1 & Hr2). unfold master_address. rewrite Ht, Hp, bind_eq. unfold from_outcome. simpl.
  rewrite Hs. simpl. unfold require. rewrite (proj2 (Z.ltb_lt _ _)), (proj2 (Z.leb_le _ _)) by lia. by destruct ep.
Qed.

Lemma body_calm {A} (auth : nat → Eff access unit) (m : nat → Eff access A) address id w x c :
  undisturbed w → lets_in auth (address_of address) (ac_cluster w) →
  (∀ w', undisturbed w' → ac_cluster w' = ac_cluster w → ac_connected w' !! id = Some (address_of address) →
     ∃ w'', m id w' = (Ok x, w'') ∧ undisturbed w'' ∧ ac_cluster w'' = c) →
  ∃ w', (ip ← resolve_name (ep_host address);
         check_running ;; redis_connect id ip (ep_port address) ;; auth id ;; m id) w = (Ok x, w') ∧
    undisturbed w' ∧ ac_cluster w' = c.
Proof.
  intros Hw Ha Hm. rewrite bind_eq, resolve_calm by done. simpl. rewrite bind_eq, running_calm by done. simpl.
  rewrite bind_eq, connect_calm by done. simpl. set (w2 := set_connected _ w).
  assert (ac_connected w2 !! id = Some (address_of address)) as Hi by apply lookup_insert_eq.
  destruct (Ha id w2) as (w3 & E3 & Hw3 & Hc3 & Hi3); [done..|]. rewrite bind_eq, E3. simpl.
  apply Hm; [done|by rewrite Hc3|by rewrite Hi3].
Qed.

(** The use of a connection in a block that closes it. *)
Lemma block_calm {A B} (body : nat → Eff access A) (finish : outcome A → Eff access B) w x y :
  undisturbed w →
  (∀ id w', undisturbed w' → ac_cluster w' = ac_cluster w →
     ∃ w'', body id w' = (Ok x, w'') ∧ undisturbed w'' ∧ ac_cluster w'' = y.2) →
  (∀ w, finish (Ok x) w = (Ok y.1, w)) →
  ∃ w', (id ← open_connection;
         deferred (unregister id) (result ← attempted (body id); redis_close id ;; finish result)) w = (Ok y.1, w') ∧
    undisturbed w' ∧ ac_cluster w' = y.2.
Proof.
  intros Hw Hb Hf. rewrite bind_eq. simpl. set (id := ac_next w). set (w1 := set_open _ _ _ w).
  destruct (Hb id w1) as (w2 & E2 & Hw2 & Hc2); [done..|]. unfold deferred. rewrite bind_eq.
  assert (attempted (body id) w1 = (Ok (Ok x), w2)) as -> by (unfold attempted; by rewrite E2). simpl.
  unfold redis_close. rewrite bind_eq, hop_calm by done. simpl. rewrite Hf. eexists. by split.
Qed.

Lemma ask_calm o invalid (auth : nat → Eff access unit) address ep w :
  undisturbed w → lets_in auth (address_of address) (ac_cluster w) →
  names (serve (address_of address) (sentinel_question o) (ac_cluster w)).1 ep →
  ∃ w', (check_running ;;
         id ← open_connection;
         deferred (unregister id)
           (result ← attempted (
              ip ← resolve_name (ep_host address);
              check_running ;;
              redis_connect id ip (ep_port address) ;;
              auth id ;;
              reply ← redis_send id (sentinel_question o);
              master_address invalid reply);
            redis_close id ;; mret result)) w = (Ok (Ok ep), w') ∧ undisturbed w' ∧ ac_cluster w' = ac_cluster w.
Proof.
  intros Hw Ha Hn. rewrite bind_eq, running_calm by done. simpl.
  apply (block_calm _ _ w ep (Ok ep, ac_cluster w)); [done| |done]. intros id w1 Hw1 Hc1. simpl.
  apply (body_calm auth (λ id, reply ← redis_send id (sentinel_question o); master_address invalid reply));
    [done|by rewrite Hc1|]. intros w2 Hw2 Hc2 Hi2.
  pose proof (serve_sentinel (address_of address) (ro_master_name o) (ac_cluster w)) as Hs. fold (sentinel_question o) in Hs.
  destruct (serve _ _ (ac_cluster w)) as [reply c'] eqn:Es. simpl in *. subst c'.
  rewrite bind_eq, (send_calm id (address_of address) _ w2 reply (ac_cluster w)); [|done|done|congruence|].
  - simpl. rewrite (master_address_calm _ _ ep) by done. by eexists.
  - destruct Hn as [Hn _]. by rewrite Hn.
Qed.

(** The first Sentinel answers, and the master executes the command. *)
Definition reachable (o : redis_options) (sentinel_auth auth : nat → Eff access unit) (arguments : list string)
    (reply : redis_reply) (c c' : cluster) : Prop :=
  ∃ first rest ep, ro_sentinels o = first :: rest ∧ lets_in sentinel_auth (address_of first) c ∧
    names (serve (address_of first) (sentinel_question o) c).1 ep ∧ lets_in auth (address_of ep) c ∧
    serve (address_of ep) arguments c = (reply, c') ∧ rp_type reply ≠ ReplyError.

Lemma redis_command_calm o invalid arguments reply c' w :
  undisturbed w →
  reachable o (λ id, authenticate id (ro_sentinel_password o)) (λ id, authenticate id (ro_password o))
    arguments reply (ac_cluster w) c' →
  ∃ w', redis_command o invalid arguments w = (Ok reply, w') ∧ undisturbed w' ∧ ac_cluster w' = c'.
Proof.
  intros Hw (first & rest & ep & Hs & Hf & Hn & Ha & Hr & Hne). unfold redis_command.
  rewrite bind_eq, running_calm by done. simpl. rewrite bind_eq.
  assert (∃ w1, discover_master o invalid w = (Ok ep, w1) ∧ undisturbed w1 ∧ ac_cluster w1 = ac_cluster w) as (w1 & E1 & Hw1 & Hc1).
  { unfold discover_master. rewrite Hs. simpl. rewrite bind_eq.
    destruct (ask_calm o invalid _ first ep w Hw Hf Hn) as (w1 & E1 & ?). exists w1. split; [|done].
    unfold ask_sentinel. fold (sentinel_question o). by rewrite E1. }
  rewrite E1. simpl.
  apply (block_calm _ _ w1 reply (reply, c')); [done| |done]. intros id w2 Hw2 Hc2. simpl.
  apply (body_calm (λ id, authenticate id (ro_password o)) (λ id, redis_send id arguments)); [done|by rewrite Hc2, Hc1|].
  intros w3 Hw3 Hc3 Hi3. rewrite (send_calm id (address_of ep) _ w3 reply c'); [|done|done|by rewrite Hc3, Hc2, Hc1|done]. by eexists.
Qed.

(** The same for the driver that keeps a link. *)
Lemma lift_Ok {A B} (m : Eff access A) (k : A → Eff with_link B) w l a w' :
  m w = (Ok a, w') → (lift m ≫= k) (w, l) = k a (w', l).
Proof. intros E. rewrite bind_eq. unfold lift. by rewrite E. Qed.

Lemma drop_link_calm w l :
  undisturbed w → ∃ w', drop_link (w, l) = (Ok tt, (w', None)) ∧ undisturbed w' ∧ ac_cluster w' = ac_cluster w.
Proof.
  intros Hw. unfold drop_link. destruct l as [lk|]; [|by exists w]. unfold redis_close. rewrite hop_calm by done. simpl. by eexists.
Qed.

Lemma open_link_calm o ep arguments reply c' w :
  undisturbed w → lets_in (λ id, authenticate_checked id (ro_password o)) (address_of ep) (ac_cluster w) →
  serve (address_of ep) arguments (ac_cluster w) = (reply, c') → rp_type reply ≠ ReplyError →
  ∃ s', (l ← get_local;
    (match l with
     | Some _ => mret tt
     | None =>
         ip ← lift (resolve_name (ep_host ep));
         lift check_running ;;
         id ← lift open_connection;
         set_local (λ _, Some (MkLink id ep)) ;;
         lift (redis_connect id ip (ep_port ep)) ;;
         lift (authenticate_checked id (ro_password o))
     end) ;;
    l ← get_local;
    match l with
    | Some l => lift (redis_send (ml_id l) arguments)
    | None => throw no_failure
    end) (w, None) = (Ok reply, s') ∧ undisturbed s'.1 ∧ ac_cluster s'.1 = c'.
Proof.
  intros Hw Ha Hs Hr. rewrite bind_eq. simpl. rewrite bind_eq.
  set (id := ac_next w). set (w1 := set_open (S id) ({[id]} ∪ ac_live w) ({[id]} ∪ ac_registered w) w).
  set (w2 := set_connected (<[id := address_of ep]> (ac_connected w1)) w1).
  assert (ac_connected w2 !! id = Some (address_of ep)) as Hi by apply lookup_insert_eq.
  destruct (Ha id w2) as (w3 & E3 & Hw3 & Hc3 & Hi3); [done..|].
  assert ((ip ← lift (resolve_name (ep_host ep));
         lift check_running ;;
         id ← lift open_connection;
         set_local (λ _, Some (MkLink id ep)) ;;
         lift (redis_connect id ip (ep_port ep)) ;;
         lift (authenticate_checked id (ro_password o))) (w, None) = (Ok tt, (w3, Some (MkLink id ep)))) as ->.
  { rewrite (lift_Ok _ _ _ _ _ _ (resolve_calm _ _ Hw)), (lift_Ok _ _ _ _ _ _ (running_calm _ Hw)).
    rewrite (lift_Ok _ _ _ _ id w1) by done. rewrite bind_eq. simpl.
    rewrite (lift_Ok _ _ _ _ _ _ (connect_calm id _ _ w1 Hw)). unfold lift.
    change (set_connected _ w1) with w2. by rewrite E3. }
  simpl. rewrite bind_eq. simpl.
  rewrite (send_calm id (address_of ep) _ w3 reply c'); [|done|by rewrite Hi3|by rewrite Hc3|done]. by eexists.
Qed.

(** Where nothing fails, either there is a result, or the connection of the link
    was gone; then the command was not executed and the link is given up. *)
Lemma message_redis_command_calm o arguments reply c' w l :
  undisturbed w → sane (w, l) → leads (w, l) →
  reachable o (λ id, authenticate_checked id (ro_sentinel_password o)) (λ id, authenticate_checked id (ro_password o))
    arguments reply (ac_cluster w) c' →
  ∃ r s', message_redis_command o arguments (w, l) = (r, s') ∧ undisturbed s'.1 ∧
    (r = Ok reply ∧ ac_cluster s'.1 = c' ∨
     (∃ lk, l = Some lk ∧ ac_connected w !! ml_id lk = None) ∧ (∃ e, r = Throw e) ∧ s'.2 = None ∧ ac_cluster s'.1 = ac_cluster w).
Proof.
  intros Hw [Hok Hlk] Hl (first & rest & ep & Hs & Hf & Hn & Ha & Hr & Hne). unfold message_redis_command. simpl in Hok.
  rewrite running_calm by done. simpl.
  assert (∃ w1, discover_redis_master o w = (Ok ep, w1) ∧ undisturbed w1 ∧ ac_cluster w1 = ac_cluster w) as (w1 & E1 & Hw1 & Hc1).
  { unfold discover_redis_master. rewrite Hs. simpl. rewrite bind_eq.
    destruct (ask_calm o invalid_response _ first ep w Hw Hf Hn) as (w1 & E1 & ?). exists w1. split; [|done].
    unfold ask_sentinel_checked. fold (sentinel_question o). by rewrite E1. }
  unfold use_link. rewrite (lift_Ok _ _ _ _ _ _ E1), bind_eq. simpl.
  assert (∀ w2, undisturbed w2 → ac_cluster w2 = ac_cluster w → _) as Hopen
    by (intros w2 Hw2 Hc2; apply (open_link_calm o ep arguments reply c' w2 Hw2); by rewrite ?Hc2).
  destruct l as [lk|].
  2: { rewrite bind_eq. simpl. destruct (Hopen w1 Hw1 Hc1) as (s' & -> & ? & ?). exists (Ok reply), s'. split; [done|]. by auto. }
  destruct (same_endpoint (ml_address lk) ep) eqn:Es.
  - apply same_endpoint_eq in Es.
    rewrite bind_eq. simpl. rewrite bind_eq. simpl. rewrite bind_eq. simpl. rewrite bind_eq. simpl.
    destruct (ac_connected w !! ml_id lk) as [a|] eqn:Ei.
    + assert (ac_connected w1 !! ml_id lk = Some a) as Ei1.
      { rewrite <- Ei, <- (discover_only o w (ml_id lk) Hok (Hlk lk eq_refl)), E1. done. }
      assert (a = address_of ep) as -> by (rewrite <- Es; by eapply Hl).
      rewrite (send_calm _ _ _ w1 reply c' Hw1 Ei1) by (done || by rewrite Hc1). eexists _, _. split; [done|]. simpl. auto.
    + assert (ac_connected w1 !! ml_id lk = None) as Ei1.
      { rewrite <- Ei, <- (discover_only o w (ml_id lk) Hok (Hlk lk eq_refl)), E1. done. }
      unfold redis_send. rewrite hop_calm, Ei1 by done. simpl. rewrite bind_eq.
      destruct (drop_link_calm w1 (Some lk) Hw1) as (w2 & -> & Hw2 & Hc2). simpl. eexists _, _. split; [done|]. split; [done|].
      right. split; [by exists lk|]. split; [by eexists|]. split; [done|]. simpl. congruence.
  - rewrite bind_eq. destruct (drop_link_calm w1 (Some lk) Hw1) as (w2 & -> & Hw2 & Hc2). simpl.
    destruct (Hopen w2 Hw2) as (s' & -> & ? & ?); [congruence|]. exists (Ok reply), s'. split; [done|]. by auto.
Qed.

(** C17: However resolutions, connections, commands and closes fail and whenever
    the driver is stopped, a Redis command of any of the three drivers is
    executed at most once, by the server of the endpoint that a Sentinel named
    in this very operation, and nothing but authentications and questions to
    Sentinels is sent besides; a result is that server's reply and not an error.
    The Gate and the Gateway leave no connection behind; the Message Service at
    most the one it keeps, which still leads to the address it is kept for. Where
    nothing fails meanwhile and the first Sentinel answers, the Gate and the
    Gateway have a result; so has the Message Service, unless the connection that
    it kept was gone: then the command fails without being executed, and the link
    is given up, so that the next command opens a new one. *)
Theorem commands_reach_the_master o invalid arguments w l :
  sane (w, l) → leads (w, l) →
  wp (redis_command o invalid arguments) (λ r w', tidy w w' ∧ commanded o arguments w r w') w ∧
  wp (message_redis_command o arguments) (λ r s', held (w, l) s' ∧ leads s' ∧ commanded o arguments w r s'.1) (w, l) ∧
  (∀ reply c', undisturbed w →
    reachable o (λ id, authenticate id (ro_sentinel_password o)) (λ id, authenticate id (ro_password o))
      arguments reply (ac_cluster w) c' →
    (∃ w', redis_command o invalid arguments w = (Ok reply, w') ∧ undisturbed w' ∧ ac_cluster w' = c')) ∧
  ∀ reply c', undisturbed w →
    reachable o (λ id, authenticate_checked id (ro_sentinel_password o)) (λ id, authenticate_checked id (ro_password o))
      arguments reply (ac_cluster w) c' →
    ∃ r s', message_redis_command o arguments (w, l) = (r, s') ∧ undisturbed s'.1 ∧
      (r = Ok reply ∧ ac_cluster s'.1 = c' ∨
       (∃ lk, l = Some lk ∧ ac_connected w !! ml_id lk = None) ∧ (∃ e, r = Throw e) ∧ s'.2 = None ∧
         ac_cluster s'.1 = ac_cluster w).
Proof.
  intros Hs Hl. split; [|split; [|split]].
  - apply redis_command_spec, Hs.
  - by apply message_redis_command_spec.
  - intros reply c'. apply redis_command_calm.
  - intros reply c' Hw. by apply message_redis_command_calm.
Qed.
End theorems.

(** A Sentinel and the master that it names, with a counter. *)
Definition demo_serve (a : server_address) (arguments : list string) (c : Z) : redis_reply * Z :=
  match arguments with
  | ["SENTINEL"; "get-master-addr-by-name"; _] => (MkReply ReplyArray 0 "" ["db"; "6379"], c)
  | ["INCR"] => if bool_decide (a = ("10.0.0.2", 6379%Z)) then (MkReply ReplyInteger (c + 1) "" [], (c + 1)%Z) else (MkReply ReplyError 0 "READONLY" [], c)
  | _ => (MkReply ReplyStatus 0 "OK" [], c)
  end.
#[local] Instance demo_servers : RedisServers :=
  {| cluster := Z; dns := λ host, if bool_decide (host = "db") then "10.0.0.2" else "10.0.0.1"; serve := demo_serve |}.
#[local] Instance demo_servers_laws : RedisServersLaws.
Proof. split; done. Qed.

Definition demo_options : redis_options := MkRedisOptions "mymaster" "secret" "guard" [MkEndpoint "sentinel" 26379].
Definition demo_access : access := MkAccess 41%Z false 0 ∅ ∅ ∅ [] [].
Definition demo_link : master_link := MkLink 0 (MkEndpoint "old" 6379).
Definition demo_kept : access :=
  MkAccess 41%Z false 1 {[0 := ("10.0.0.1", 6379%Z)]} {[0]} {[0]} [] [].

(** A kept link to what is no longer the master is replaced. *)
Lemma commands_reach_the_master_witness :
  sane (demo_kept, Some demo_link) ∧ leads (demo_kept, Some demo_link) ∧
  (∃ w', redis_command demo_options "unexpected Redis reply" ["INCR"] demo_kept = (Ok (MkReply ReplyInteger 42 "" []), w') ∧
     undisturbed w' ∧ ac_cluster w' = 42%Z) ∧
  wp (message_redis_command demo_options ["INCR"]) (λ r s', held (demo_kept, Some demo_link) s' ∧ leads s' ∧
    commanded demo_options ["INCR"] demo_kept r s'.1) (demo_kept, Some demo_link).
Proof.
  assert (sane (demo_kept, Some demo_link)) as Hs.
  { split; [intros i; simpl; rewrite elem_of_union, !elem_of_singleton; lia|]. intros lk [= <-]. simpl. lia. }
  assert (leads (demo_kept, Some demo_link)) as Hl by (intros lk a [= <-] [= <-]; done).
  destruct (commands_reach_the_master demo_options "unexpected Redis reply" ["INCR"] demo_kept (Some demo_link) Hs Hl)
    as (_ & Hm & Hc & _).
  split; [exact Hs|]. split; [exact Hl|]. split; [|exact Hm]. apply Hc; [done|].
  exists (MkEndpoint "sentinel" 26379), [], (MkEndpoint "db" 6379). split; [done|].
  split; [by apply authenticate_lets_in|]. split; [by split; [|eexists]|]. split; [by apply authenticate_lets_in|]. done.
Defined.

Definition outcome_of (s : outcome redis_reply * with_link) : option Z * option (nat * string) * Z :=
  (match s.1 with Ok r => Some (rp_integer r) | Throw _ => None end,
   match s.2.2 with Some l => Some (ml_id l, ep_host (ml_address l)) | None => None end, ac_cluster s.2.1).
Example demo_failover :
  outcome_of (message_redis_command demo_options ["INCR"] (demo_kept, Some demo_link)) = (Some 42%Z, Some (2, "db"), 42%Z).
Proof. vm_compute. reflexivity. Qed.
(** The reply is lost: the command may have been executed, and the link is given up. *)
Example demo_lost_reply :
  outcome_of (message_redis_command demo_options ["INCR"]
    (set_hops (repeat calm 9 ++ [MkHop false (FailAfter "reset")]) demo_kept, Some demo_link)) = (None, None, 42%Z).
Proof. vm_compute. reflexivity. Qed.
(** The kept connection is gone: the command fails, the next one has a result. *)
Example demo_gone :
  let first := message_redis_command demo_options ["INCR"] (demo_kept, Some (MkLink 7 (MkEndpoint "db" 6379))) in
  outcome_of first = (None, None, 41%Z) ∧
  outcome_of (message_redis_command demo_options ["INCR"] first.2) = (Some 42%Z, Some (3, "db"), 42%Z).
Proof. vm_compute. done. Qed.
