(* ===== verification/RedisConnection.v ===== *)
(** * A connection to Redis

    common/reactor/redis_connection.cc: hiredis driven by the readiness of its
    socket (FdWatch) and by a timer, with a promise for connect() and one for
    each command.

    hiredis is a parameter: while it handles readiness or a timeout it does a
    list of activities, which are its calls of the connection's callbacks. What
    it promises is [sensible]: it reports the outcome of connecting once, and
    before it gives a connection up; it answers the commands in the order of
    their submission; when its context is freed, it answers the remaining ones
    with no reply and calls the cleanup hook, where it is installed. *)

From S2P Require Import Prelude Yaml RedisAccess FdWatch.

(** What hiredis gives a reply callback. *)
Record raw_reply := MkRaw {
  rw_type : reply_type; rw_integer : Z; rw_text : option string; rw_elements : list (option string) }.

(** completed: the reply is copied *)
Fixpoint copy_elements (items : list (option string)) : outcome (list string) :=
  match items with
  | [] => Ok []
  | None :: _ => Throw (RuntimeError "invalid Sentinel response")
  | Some text :: items => texts ← copy_elements items; Ok (text :: texts)
  end.
Definition copy_reply (reply : option raw_reply) : outcome redis_reply :=
  match reply with
  | None => Throw (RuntimeError "Redis connection closed")
  | Some reply =>
      match rw_type reply with
      | ReplyError => Throw (RuntimeError (default "" (rw_text reply)))
      | ReplyArray =>
          elements ← copy_elements (rw_elements reply);
          Ok (MkReply ReplyArray (rw_integer reply) (default "" (rw_text reply)) elements)
      | type => Ok (MkReply type (rw_integer reply) (default "" (rw_text reply)) [])
      end
  end.

(** A context of hiredis: whether the hooks are installed, whether the outcome
    of connecting was reported, and the callbacks it holds. *)
Record hiredis := MkHiredis { hr_hooked : bool; hr_notified : bool; hr_pending : list nat }.

Inductive phase := Opened | Closing | Closed (result : outcome unit).

(** [rc_called]: connect() was called; [rc_results] are the commands' promises as they were set, [rc_connects] what
    connect() ended with. *)
Record redis := MkRedis {
  rc_context : option hiredis; rc_watch : option watch; rc_stopped : bool;
  rc_called : bool; rc_connecting : bool; rc_connects : list (outcome unit); rc_timer : bool;
  rc_next : nat; rc_results : list (nat * outcome redis_reply); rc_phase : phase }.

Definition set_context (c : option hiredis) (s : redis) : redis :=
  MkRedis c (rc_watch s) (rc_stopped s) (rc_called s) (rc_connecting s) (rc_connects s) (rc_timer s) (rc_next s) (rc_results s) (rc_phase s).
Definition set_watch (w : option watch) (stopped : bool) (s : redis) : redis :=
  MkRedis (rc_context s) w stopped (rc_called s) (rc_connecting s) (rc_connects s) (rc_timer s) (rc_next s) (rc_results s) (rc_phase s).
Definition set_connecting (b : bool) (results : list (outcome unit)) (s : redis) : redis :=
  MkRedis (rc_context s) (rc_watch s) (rc_stopped s) (rc_called s) b results (rc_timer s) (rc_next s) (rc_results s) (rc_phase s).
Definition set_timer (b : bool) (s : redis) : redis :=
  MkRedis (rc_context s) (rc_watch s) (rc_stopped s) (rc_called s) (rc_connecting s) (rc_connects s) b (rc_next s) (rc_results s) (rc_phase s).
Definition set_results (n : nat) (results : list (nat * outcome redis_reply)) (s : redis) : redis :=
  MkRedis (rc_context s) (rc_watch s) (rc_stopped s) (rc_called s) (rc_connecting s) (rc_connects s) (rc_timer s) n results (rc_phase s).
Definition set_called (s : redis) : redis :=
  MkRedis (rc_context s) (rc_watch s) (rc_stopped s) true (rc_connecting s) (rc_connects s) (rc_timer s) (rc_next s) (rc_results s) (rc_phase s).
Definition set_phase (p : phase) (s : redis) : redis :=
  MkRedis (rc_context s) (rc_watch s) (rc_stopped s) (rc_called s) (rc_connecting s) (rc_connects s) (rc_timer s) (rc_next s) (rc_results s) p.

Definition fresh_redis : redis := MkRedis None None false false false [] false 0 [] Opened.

(** ** The callbacks *)

Definition settle_connect (r : outcome unit) (s : redis) : redis := set_connecting false (rc_connects s ++ [r]) s.
(** connected *)
Definition redis_connected (failure : option string) (s : redis) : redis :=
  if rc_connecting s then
    settle_connect (match failure with None => Ok tt | Some e => Throw (RuntimeError e) end) s
  else s.
(** completed *)
Definition redis_completed (reply : option raw_reply) (id : nat) (s : redis) : redis :=
  set_results (rc_next s) (rc_results s ++ [(id, copy_reply reply)]) s.
(** cleanup *)
Definition redis_cleanup (s : redis) : redis :=
  set_timer false (set_context None (set_watch (watch_stop <$> rc_watch s) true s)).

(** redisAsyncFree *)
Definition redis_free (c : hiredis) (s : redis) : redis :=
  let s := foldl (λ s id, redis_completed None id s) s (hr_pending c) in
  if hr_hooked c then redis_cleanup s else s.

(** ** What hiredis does *)

Inductive activity :=
| Notify (failure : option string)
| Answer (reply : option raw_reply)
| Interest (d : direction) (enabled : bool)
| ScheduleTimer
| Disconnect.

Definition perform (a : activity) (c : hiredis) (s : redis) : redis :=
  match a with
  | Notify failure => redis_connected failure (set_context (Some (MkHiredis (hr_hooked c) true (hr_pending c))) s)
  | Answer reply =>
      match hr_pending c with
      | [] => s
      | id :: pending => redis_completed reply id (set_context (Some (MkHiredis (hr_hooked c) (hr_notified c) pending)) s)
      end
  | Interest d enabled => set_watch (watch_set d enabled <$> rc_watch s) (rc_stopped s) s
  | ScheduleTimer => if hr_hooked c then set_timer true s else s
  | Disconnect => redis_free c s
  end.
(** redisAsyncHandleRead, redisAsyncHandleWrite, redisAsyncHandleTimeout *)
Fixpoint perform_all (l : list activity) (s : redis) : redis :=
  match rc_context s, l with
  | Some c, a :: l => perform_all l (perform a c s)
  | _, _ => s
  end.

Fixpoint sensible (notified : bool) (l : list activity) : bool :=
  match l with
  | [] => true
  | Notify _ :: l => negb notified && sensible true l
  | Disconnect :: _ => notified
  | _ :: l => sensible notified l
  end.
(** What it does while a callback is set or a command is submitted. *)
Definition is_request (a : activity) : bool :=
  match a with Interest _ _ | ScheduleTimer => true | _ => false end.
Definition notified (s : redis) : bool := match rc_context s with Some c => hr_notified c | None => true end.

(** ** The operations *)

(** What redisAsyncConnectWithOptions and the duplication of its socket lead to. *)
Inductive connect_start := Refused (error : string) | NotDuplicated (error : string) | Started.

Definition redis_open (start : connect_start) (requests : list activity) (s : redis) : redis :=
  let s := set_called s in
  match start with
  | Refused e => settle_connect (Throw (RuntimeError e)) s
  | NotDuplicated e => settle_connect (Throw (RuntimeError e)) (set_context (Some (MkHiredis false false [])) s)
  | Started =>
      perform_all requests
        (set_connecting true (rc_connects s)
          (set_watch (Some watch_create) false (set_context (Some (MkHiredis true false [])) s)))
  end.

Definition redis_submit (accepted : bool) (requests : list activity) (s : redis) : redis :=
  let id := rc_next s in
  match rc_context s, accepted with
  | Some c, true =>
      perform_all requests
        (set_results (S id) (rc_results s) (set_context (Some (MkHiredis (hr_hooked c) (hr_notified c) (hr_pending c ++ [id]))) s))
  | _, _ => set_results (S id) (rc_results s ++ [(id, Throw (RuntimeError "Redis command submission failed"))]) s
  end.

Definition redis_abort (s : redis) : redis :=
  let s := if rc_connecting s then settle_connect (Throw (RuntimeError "Redis connect aborted")) s else s in
  match rc_context s with
  | Some c => redis_free c (set_context None s)
  | None => s
  end.

(** close, up to the await of [_stopped], and from there *)
Definition redis_close_begin (s : redis) : redis :=
  let s := redis_abort s in
  if rc_stopped s then set_phase Closing s else set_phase (Closed (Ok tt)) (set_watch None false s).
Definition redis_close_end (s : redis) : option redis :=
  match rc_phase s, rc_watch s with
  | Closing, Some w =>
      match tasks_result w with
      | Some (Ok _) => Some (set_phase (Closed (Ok tt)) (set_watch None false s))
      | Some (Throw e) => Some (set_phase (Closed (Throw e)) s)
      | None => None
      end
  | _, _ => None
  end.

(** ** What happens to a connection *)

Inductive event :=
| Connect (start : connect_start) (requests : list activity)
| Command (accepted : bool) (requests : list activity)
| Abort
| Close
| CloseEnd
| Woken (d : direction)
| Ready (d : direction) (failure : option string) (l : list activity)
| Timeout (l : list activity).

Definition continue (d : direction) (s : redis) : redis := set_watch (loop_head d <$> rc_watch s) (rc_stopped s) s.

(** [None]: the event cannot happen. *)
Definition redis_step (e : event) (s : redis) : option redis :=
  match e with
  | Connect start requests =>
      match rc_phase s with
      | Opened => if negb (rc_called s) && forallb is_request requests then Some (redis_open start requests s) else None
      | _ => None
      end
  | Command accepted requests => if forallb is_request requests then Some (redis_submit accepted requests s) else None
  | Abort => Some (redis_abort s)
  | Close => match rc_phase s with Opened => Some (redis_close_begin s) | _ => None end
  | CloseEnd => redis_close_end s
  | Woken d =>
      match (match rc_watch s with Some w => woken d w | None => None end) with
      | Some w => Some (set_watch (Some w) (rc_stopped s) s)
      | None => None
      end
  | Ready d failure l =>
      match (match rc_watch s with Some w => ready d failure w | None => None end) with
      | Some (w, called) =>
          let s := set_watch (Some w) (rc_stopped s) s in
          if called then if sensible (notified s) l then Some (continue d (perform_all l s)) else None else Some s
      | None => None
      end
  | Timeout l =>
      if rc_timer s && sensible (notified s) l then Some (perform_all l (set_timer false s)) else None
  end.

Fixpoint redis_run (es : list event) (s : redis) : option redis :=
  match es with
  | [] => Some s
  | e :: es => match redis_step e s with Some s => redis_run es s | None => None end
  end.
