(* ===== verification/RedisConnectionTheorems.v ===== *)
(** * The promises of a connection to Redis

    Whatever hiredis reports and in whatever order events arrive, connect() and
    every command are answered exactly once as soon as there is no context, and
    close() ends with nothing left that could call the connection. *)

From S2P Require Import Prelude Yaml RedisAccess FdWatch RedisConnection.

Definition pending (s : redis) : list nat := match rc_context s with Some c => hr_pending c | None => [] end.

(** The commands are those that were answered and those that hiredis holds. *)
Definition ids_accounted (s : redis) : Prop := (rc_results s).*1 ++ pending s ≡ₚ seq 0 (rc_next s).

Definition connect_ok (s : redis) : Prop :=
  match rc_called s, rc_connecting s with
  | false, _ => rc_connecting s = false ∧ rc_connects s = [] ∧ rc_context s = None ∧ rc_stopped s = false
  | true, true => rc_connects s = [] ∧ ∃ c, rc_context s = Some c ∧ hr_hooked c = true ∧ hr_notified c = false
  | true, false => ∃ r, rc_connects s = [r]
  end.

(** A watch runs while there is a context that it serves, and afterwards until
    it is awaited. *)
Definition watch_ok (s : redis) : Prop :=
  match rc_context s with
  | Some c =>
      rc_stopped s = false ∧
      if hr_hooked c then ∃ w, rc_watch s = Some w ∧ wt_closing w = false else rc_watch s = None ∧ rc_timer s = false
  | None =>
      rc_timer s = false ∧
      if rc_stopped s then ∃ w, rc_watch s = Some w ∧ wt_closing w = true else rc_watch s = None
  end.

Definition phase_ok (s : redis) : Prop :=
  match rc_phase s with
  | Opened => True
  | Closing => rc_context s = None ∧ rc_stopped s = true
  | Closed r => rc_context s = None ∧ rc_stopped s = match r with Ok _ => false | Throw _ => true end
  end.

Record redis_ok (s : redis) : Prop := MkOk {
  ok_ids : ids_accounted s; ok_connect : connect_ok s; ok_watch : watch_ok s; ok_phase : phase_ok s }.

Lemma fresh_redis_ok : redis_ok fresh_redis.
Proof. split; unfold ids_accounted, connect_ok, watch_ok, phase_ok; simpl; split_and?; done. Qed.

(** Free: the commands that were pending are answered. *)
Lemma completed_all l s :
  foldl (λ s id, redis_completed None id s) s l =
    set_results (rc_next s) (rc_results s ++ ((λ id, (id, copy_reply None)) <$> l)) s.
Proof.
  revert s. induction l as [|id l IH]; intros s; simpl; [rewrite app_nil_r; by destruct s|].
  rewrite IH. unfold redis_completed. destruct s; simpl. by rewrite <- app_assoc.
Qed.
Lemma answered_ids (l : list nat) : ((λ id, (id, copy_reply None)) <$> l).*1 = l.
Proof. rewrite <- list_fmap_compose. induction l as [|i l IH]; [done|]. simpl. f_equal. exact IH. Qed.

Lemma free_ok c s s0 :
  redis_ok s → rc_context s = Some c → rc_connecting s = false → rc_called s = true →
  s0 = s ∧ hr_hooked c = true ∨ s0 = set_context None s →
  redis_ok (redis_free c s0) ∧ rc_context (redis_free c s0) = None ∧
  (rc_phase (redis_free c s0) = rc_phase s ∧ rc_called (redis_free c s0) = true).
Proof.
  intros [Hi Hc Hw Hp] Ec En Ef Hs. unfold redis_free. rewrite completed_all.
  assert (hr_hooked c = true ∨ hr_hooked c = false ∧ s0 = set_context None s) as Hs' by (destruct (hr_hooked c); naive_solver).
  unfold ids_accounted, connect_ok, watch_ok, phase_ok, pending in *. rewrite Ec, En in *.
  destruct s as [ctx w st cd cn cs tm n rs ph]. simpl in *. subst.
  assert ((rs ++ ((λ id, (id, copy_reply None)) <$> hr_pending c)).*1 ++ [] ≡ₚ seq 0 n) as Hids.
  { by rewrite app_nil_r, fmap_app, answered_ids. }
  destruct Hs' as [Eh|[Eh ->]]; rewrite Eh in *; simpl.
  - destruct Hw as (-> & w' & -> & Hw). assert (s0 = MkRedis (Some c) (Some w') false true false cs tm n rs ph ∨ s0 = MkRedis None (Some w') false true false cs tm n rs ph) as [-> | ->] by naive_solver.
    all: split_and!; [split; try done; unfold ids_accounted, connect_ok, watch_ok, phase_ok; simpl|done|done|done].
    all: try (destruct ph; naive_solver).
  - destruct Hw as (-> & -> & ->). split_and!; [split; try done; unfold ids_accounted, connect_ok, watch_ok, phase_ok; simpl|done|done|done].
    all: try (destruct ph; naive_solver).
Qed.

Lemma not_connecting s c :
  redis_ok s → rc_called s = true → rc_context s = Some c → hr_notified c = true → rc_connecting s = false.
Proof.
  intros [_ Hc _ _] Hf Ec En. unfold connect_ok in Hc. rewrite Hf in Hc. destruct (rc_connecting s); [naive_solver|done].
Qed.

Definition now_notified (a : activity) (b : bool) : bool := match a with Notify _ => true | _ => b end.

Lemma perform_ok a c s :
  redis_ok s → rc_context s = Some c → rc_called s = true →
  (hr_hooked c = true ∧ (a = Disconnect → hr_notified c = true) ∨ is_request a = true) →
  redis_ok (perform a c s) ∧ (rc_phase (perform a c s) = rc_phase s ∧ rc_called (perform a c s) = true) ∧
  ∀ c', rc_context (perform a c s) = Some c' → hr_hooked c' = hr_hooked c ∧ hr_notified c' = now_notified a (hr_notified c).
Proof.
  intros Hok Ec Hf Ha. destruct a as [failure|reply|d enabled| |]; simpl in *.
  - destruct Ha as [[Eh _]|]; [|done]. destruct Hok as [Hi Hc Hw Hp].
    unfold ids_accounted, connect_ok, watch_ok, phase_ok, pending, redis_connected, settle_connect in *.
    destruct s as [ctx w st cd cn cs tm n rs ph]. simpl in *. subst. rewrite Eh in *.
    destruct cn; simpl; (split; [split; unfold ids_accounted, connect_ok, watch_ok, phase_ok; simpl|split; [done|naive_solver]]);
      rewrite ?Eh; try done; destruct ph; naive_solver.
  - destruct Ha as [[Eh _]|]; [|done]. destruct (hr_pending c) as [|id rest] eqn:Ep; [naive_solver|].
    destruct Hok as [Hi Hc Hw Hp]. unfold ids_accounted, connect_ok, watch_ok, phase_ok, pending, redis_completed in *.
    destruct s as [ctx w st cd cn cs tm n rs ph]. simpl in *. subst. rewrite Eh, Ep in *.
    split; [split; unfold ids_accounted, connect_ok, watch_ok, phase_ok, pending; simpl|split; [done|naive_solver]]; rewrite ?Eh; try done.
    + by rewrite fmap_app, <- app_assoc.
    + destruct ph, cn; naive_solver.
    + destruct ph; naive_solver.
  - destruct Hok as [Hi Hc Hw Hp]. unfold ids_accounted, connect_ok, watch_ok, phase_ok, pending in *.
    destruct s as [ctx w st cd cn cs tm n rs ph]. simpl in *. subst.
    split; [split; unfold ids_accounted, connect_ok, watch_ok, phase_ok, pending; simpl|split; [done|naive_solver]]; try done.
    destruct Hw as [-> Hw]. split; [done|]. destruct (hr_hooked c); [|naive_solver].
    destruct Hw as (w' & -> & Hw). by eexists.
  - destruct (hr_hooked c) eqn:Eh; [|naive_solver].
    destruct Hok as [Hi Hc Hw Hp]. unfold ids_accounted, connect_ok, watch_ok, phase_ok, pending in *.
    destruct s as [ctx w st cd cn cs tm n rs ph]. simpl in *. subst.
    split; [split; unfold ids_accounted, connect_ok, watch_ok, phase_ok, pending; simpl|split; [done|naive_solver]]; try done.
    rewrite Eh in *. done.
  - destruct Ha as [[Eh Hn]|]; [|done]. destruct (free_ok c s s) as (Hok' & Ec' & Ep' & Ed'); auto.
    + by eapply not_connecting; eauto.
    + split_and!; [done..|]. by rewrite Ec'.
Qed.

Lemma perform_all_ok l s :
  redis_ok s → rc_called s = true →
  (∀ c, rc_context s = Some c → hr_hooked c = true ∧ sensible (hr_notified c) l = true ∨ forallb is_request l = true) →
  redis_ok (perform_all l s) ∧ rc_phase (perform_all l s) = rc_phase s.
Proof.
  revert s. induction l as [|a l IH]; intros s Hok Hf Hl; simpl; destruct (rc_context s) as [c|] eqn:Ec; try done.
  specialize (Hl c eq_refl). destruct (perform_ok a c s Hok Ec Hf) as (Hok' & (Hf' & Hd') & Hc').
  { destruct Hl as [[Hh Hs]|Hr]; [left; split; [done|]; intros ->; done|right]. by apply andb_true_iff in Hr as [? _]. }
  rewrite <- Hf'. apply IH; [done..|]. intros c' Ec'. destruct (Hc' c' Ec') as [-> ->].
  destruct Hl as [[Hh Hs]|Hr]; [|right; by apply andb_true_iff in Hr as [_ ?]].
  destruct a; simpl in *; auto.
  - apply andb_true_iff in Hs as [_ ?]. auto.
  - exfalso. destruct (free_ok c s s) as (_ & En & _); auto; [by eapply not_connecting; eauto|]. by rewrite En in Ec'.
Qed.

Lemma open_ok start requests s :
  redis_ok s → rc_called s = false → rc_phase s = Opened → forallb is_request requests = true → redis_ok (redis_open start requests s).
Proof.
  intros [Hi Hc Hw Hp] Hf Hph Hr. unfold redis_open. unfold connect_ok in Hc. rewrite Hf in Hc.
  destruct Hc as (En & Es & Ec & Et). unfold ids_accounted, watch_ok, phase_ok, pending in *.
  destruct s as [ctx w st cd cn cs tm n rs ph]. simpl in *. subst. destruct Hw as [-> ->].
  destruct start; simpl.
  - split; unfold ids_accounted, connect_ok, watch_ok, phase_ok, pending; simpl; eauto.
  - split; unfold ids_accounted, connect_ok, watch_ok, phase_ok, pending; simpl; eauto.
  - apply perform_all_ok; [|done|intros c [= <-]; by right].
    split; unfold ids_accounted, connect_ok, watch_ok, phase_ok, pending; simpl; eauto 10.
Qed.

Lemma redis_submit_ok accepted requests s :
  redis_ok s → forallb is_request requests = true → redis_ok (redis_submit accepted requests s).
Proof.
  intros Hok Hr. unfold redis_submit.
  assert (redis_ok (set_results (S (rc_next s)) (rc_results s ++ [(rc_next s, Throw (RuntimeError "Redis command submission failed"))]) s)) as Hfail.
  { destruct Hok as [Hi Hc Hw Hp]. destruct s as [ctx w st cd cn cs tm n rs ph].
    split; unfold ids_accounted, connect_ok, watch_ok, phase_ok, pending in *; simpl in *; try done.
    rewrite fmap_app. by apply (issue_settled _ _ n). }
  destruct (rc_context s) as [c|] eqn:Ec, accepted; try done.
  assert (rc_called s = true) as Hf.
  { destruct Hok as [_ Hc _ _]. unfold connect_ok in Hc. destruct (rc_called s); [done|naive_solver]. }
  apply perform_all_ok; [|by destruct s|intros c' _; by right].
  destruct Hok as [Hi Hc Hw Hp]. destruct s as [ctx w st cd cn cs tm n rs ph].
  unfold ids_accounted, connect_ok, watch_ok, phase_ok, pending in *; simpl in *; subst.
  split; unfold ids_accounted, connect_ok, watch_ok, phase_ok, pending; simpl; try done.
  - by apply issue_outstanding.
  - destruct ph, cn; naive_solver.
  - destruct ph; naive_solver.
Qed.

Lemma abort_ok s :
  redis_ok s →
  redis_ok (redis_abort s) ∧ rc_context (redis_abort s) = None ∧ rc_phase (redis_abort s) = rc_phase s.
Proof.
  intros Hok. unfold redis_abort. set (s1 := if rc_connecting s then _ else s).
  assert (redis_ok s1 ∧ rc_connecting s1 = false ∧ rc_context s1 = rc_context s ∧ rc_phase s1 = rc_phase s) as (Hok1 & En1 & Ec1 & Ep1).
  { subst s1. destruct (rc_connecting s) eqn:En; [|done]. destruct Hok as [Hi Hc Hw Hp].
    destruct s as [ctx w st cd cn cs tm n rs ph]. unfold ids_accounted, connect_ok, watch_ok, phase_ok, pending in *; simpl in *; subst.
    split_and!; [|done..]. split; unfold ids_accounted, connect_ok, watch_ok, phase_ok, pending; simpl; try done.
    destruct cd; naive_solver. }
  rewrite Ec1. destruct (rc_context s) as [c|] eqn:Ec; [|by rewrite Ec1].
  destruct (free_ok c s1 (set_context None s1)) as (? & ? & ? & ?); [done..| |by right|by rewrite <- Ep1].
  destruct Hok1 as [_ Hc _ _]. unfold connect_ok in Hc. destruct (rc_called s1); [done|naive_solver].
Qed.

Lemma close_begin_ok s : redis_ok s → rc_phase s = Opened → redis_ok (redis_close_begin s).
Proof.
  intros Hok Hph. destruct (abort_ok s Hok) as (Hok' & Ec & Ep). unfold redis_close_begin.
  set (s' := redis_abort s) in *. rewrite <- Ep in Hph. clearbody s'. destruct Hok' as [Hi Hc Hw Hp].
  destruct s' as [ctx w st cd cn cs tm n rs ph]. unfold ids_accounted, connect_ok, watch_ok, phase_ok, pending in *; simpl in *; subst.
  destruct st; (split; unfold ids_accounted, connect_ok, watch_ok, phase_ok, pending; simpl; try done); destruct cd, cn; naive_solver.
Qed.

Lemma close_end_ok s s' : redis_ok s → redis_close_end s = Some s' → redis_ok s'.
Proof.
  intros [Hi Hc Hw Hp]. unfold redis_close_end. destruct s as [ctx w st cd cn cs tm n rs ph].
  unfold ids_accounted, connect_ok, watch_ok, phase_ok, pending in *; simpl in *.
  destruct ph; try done. destruct w as [w|]; [|done]. destruct Hp as [-> ->].
  destruct (tasks_result w) as [[[]|e]|]; intros [= <-];
    (split; unfold ids_accounted, connect_ok, watch_ok, phase_ok, pending; simpl; try done); destruct cd, cn; naive_solver.
Qed.

(** A task makes a step that calls nothing. *)
Lemma step_watch_ok s w w' :
  redis_ok s → rc_watch s = Some w → wt_closing w' = wt_closing w → redis_ok (set_watch (Some w') (rc_stopped s) s).
Proof.
  intros [Hi Hc Hw Hp] Ew Ec. destruct s as [ctx w0 st cd cn cs tm n rs ph].
  unfold ids_accounted, connect_ok, watch_ok, phase_ok, pending in *; simpl in *; subst.
  split; try done. unfold watch_ok; simpl. destruct ctx as [c|]; [destruct (hr_hooked c)|destruct st]; naive_solver.
Qed.
Lemma continue_ok d s : redis_ok s → redis_ok (continue d s).
Proof.
  intros Hok. unfold continue. destruct (rc_watch s) as [w|] eqn:Ew; simpl.
  - by apply (step_watch_ok s w).
  - destruct s; simpl in *; by subst.
Qed.

Lemma watched_hooked s w c : redis_ok s → rc_watch s = Some w → rc_context s = Some c → hr_hooked c = true.
Proof. intros [_ _ Hw _] Ew Ec. unfold watch_ok in Hw. rewrite Ec, Ew in Hw. destruct (hr_hooked c); naive_solver. Qed.
Lemma watched_called s w : redis_ok s → rc_watch s = Some w → rc_called s = true.
Proof.
  intros [_ Hc Hw _] Ew. unfold watch_ok, connect_ok in *. rewrite Ew in Hw. destruct (rc_called s); [done|].
  destruct Hc as (_ & _ & Hc & Hs). rewrite Hc, Hs in Hw. naive_solver.
Qed.

Lemma redis_step_ok e s s' : redis_ok s → redis_step e s = Some s' → redis_ok s'.
Proof.
  intros Hok. destruct e as [start requests|accepted requests| | | |d|d failure l|l]; simpl.
  - destruct (rc_phase s) eqn:Ep; try done. destruct (rc_called s) eqn:Ed; [done|]. simpl.
    destruct (forallb is_request requests) eqn:Er; intros [= <-]. by apply open_ok.
  - destruct (forallb is_request requests) eqn:Er; intros [= <-]. by apply redis_submit_ok.
  - intros [= <-]. by apply abort_ok.
  - destruct (rc_phase s) eqn:Ep; intros [= <-]. by apply close_begin_ok.
  - by apply close_end_ok.
  - destruct (rc_watch s) as [w|] eqn:Ew; [|done]. destruct (woken d w) as [w'|] eqn:Ed; intros [= <-].
    eapply step_watch_ok; [done..|]. by eapply woken_closing.
  - destruct (rc_watch s) as [w|] eqn:Ew; [|done]. destruct (ready d failure w) as [[w' called]|] eqn:Ed; [|done].
    assert (redis_ok (set_watch (Some w') (rc_stopped s) s)) as Hok'.
    { eapply step_watch_ok; [done..|]. by eapply ready_closing. }
    set (s1 := set_watch _ _ s) in *. destruct called; [|by intros [= <-]].
    destruct (sensible (notified s1) l) eqn:Es; intros [= <-]. apply continue_ok, perform_all_ok; [done| |].
    + by apply (watched_called s w).
    + intros c Ec. left. split; [by apply (watched_hooked s1 w')|]. unfold notified in Es. by rewrite Ec in Es.
  - destruct (rc_timer s) eqn:Et; simpl; [|done]. destruct (sensible (notified s) l) eqn:Es; intros [= <-].
    assert (∃ c, rc_context s = Some c ∧ hr_hooked c = true ∧ rc_called s = true) as (c & Ec & Eh & Ed).
    { destruct Hok as [_ Hc Hw _]. unfold watch_ok, connect_ok in *. rewrite Et in Hw.
      destruct (rc_context s) as [c|]; [|naive_solver]. exists c. destruct (hr_hooked c), (rc_called s); naive_solver. }
    apply perform_all_ok; [|done|].
    + destruct Hok as [Hi Hc Hw Hp]. split; try done. unfold watch_ok in *. simpl in *. rewrite Ec, Eh in *. done.
    + intros c' Ec'. left. simpl in Ec'. rewrite Ec in Ec'. injection Ec' as <-. unfold notified in Es. by rewrite Ec in Es.
Qed.

Lemma redis_run_ok es s s' : redis_ok s → redis_run es s = Some s' → redis_ok s'.
Proof.
  revert s. induction es as [|e es IH]; intros s Hok; simpl; [by intros [= <-]|].
  destruct (redis_step e s) as [s1|] eqn:E; [|done]. apply IH. by eapply redis_step_ok.
Qed.

(** C23: From a new connection, whatever hiredis reports, whenever the socket is
    ready, the timer fires or the owner submits commands, aborts and closes: no
    command's promise is set twice, and when the context is gone every command
    that was submitted has been answered; connect() ends at most once, and has
    ended when the context is gone; and after close() succeeded there is neither
    a context, nor a watch, nor a timer that could call the connection, and the
    assertion of the destructor holds. *)
Theorem redis_promises_kept es s :
  redis_run es fresh_redis = Some s →
  NoDup (rc_results s).*1 ∧
  (rc_context s = None → ∀ id, id < rc_next s → id ∈ (rc_results s).*1) ∧
  length (rc_connects s) ≤ 1 ∧
  (rc_called s = true → rc_context s = None → ∃ r, rc_connects s = [r]) ∧
  (rc_phase s = Closed (Ok tt) →
     rc_context s = None ∧ rc_stopped s = false ∧ rc_watch s = None ∧ rc_timer s = false).
Proof.
  intros Hr. destruct (redis_run_ok _ _ _ fresh_redis_ok Hr) as [Hi Hc Hw Hp].
  unfold ids_accounted, connect_ok, watch_ok, phase_ok, pending in *. split_and!.
  - pose proof (NoDup_seq 0 (rc_next s)) as Hn. rewrite <- Hi in Hn. by apply NoDup_app in Hn as [? _].
  - intros Ec id Hid. rewrite Ec, app_nil_r in Hi. rewrite Hi. apply elem_of_seq. lia.
  - destruct (rc_called s), (rc_connecting s); [|destruct Hc as [r ->]; simpl; lia|..]; destruct Hc as (E & E' & _); rewrite ?E, ?E'; simpl; lia.
  - intros Ed Ec. rewrite Ed, Ec in Hc. destruct (rc_connecting s); [naive_solver|done].
  - intros Ep. rewrite Ep in Hp. destruct Hp as [Ec Es]. rewrite Ec, Es in Hw. by destruct Hw.
Qed.

(** ** close() *)

Definition is_task (e : event) : bool := match e with Woken _ | Ready _ _ _ => true | _ => false end.
Definition left_tasks (s : redis) : nat := match rc_watch s with Some w => tasks_left w | None => 0 end.

Lemma closing_watch s : redis_ok s → rc_phase s = Closing → ∃ w, rc_watch s = Some w ∧ wt_closing w = true ∧
  rc_context s = None ∧ rc_timer s = false ∧ rc_connecting s = false ∧ rc_stopped s = true.
Proof.
  intros [_ Hc Hw Hp] Ep. unfold connect_ok, watch_ok, phase_ok in *. rewrite Ep in Hp. destruct Hp as [Ec Es].
  rewrite Ec, Es in Hw. destruct Hw as (Et & w & Ew & Hw). exists w. rewrite Ec in Hc.
  destruct (rc_called s), (rc_connecting s); naive_solver.
Qed.

Lemma closing_step e s s' :
  redis_ok s → rc_phase s = Closing → redis_step e s = Some s' → rc_phase s' = Closing →
  left_tasks s' + (if is_task e then 1 else 0) = left_tasks s.
Proof.
  intros Hok Ep He Ep'. destruct (closing_watch s Hok Ep) as (w & Ew & Hw & Ec & Et & En & Es). unfold left_tasks. rewrite Ew.
  destruct e as [start requests|accepted requests| | | |d|d failure l|l]; simpl in *.
  - by rewrite Ep in He.
  - destruct (forallb is_request requests); [|done]. injection He as <-. unfold redis_submit. rewrite Ec. simpl. rewrite Ew. lia.
  - injection He as <-. unfold redis_abort. rewrite En, Ec, Ew. lia.
  - by rewrite Ep in He.
  - unfold redis_close_end in He. rewrite Ep, Ew in He. by destruct (tasks_result w) as [[]|]; [injection He as <-..|].
  - rewrite Ew in He. destruct (woken d w) as [w'|] eqn:Ed; [|done]. injection He as <-. simpl.
    apply woken_ends in Ed as [_ ?]; [lia|done].
  - rewrite Ew in He. destruct (ready d failure w) as [[w' called]|] eqn:Ed; [|done].
    apply ready_ends in Ed as (-> & _ & ?); [|done]. injection He as <-. simpl. lia.
  - by rewrite Et in He.
Qed.

Lemma closing_stays e s s' :
  rc_phase s ≠ Opened → redis_step e s = Some s' → redis_ok s →
  rc_phase s' = rc_phase s ∨ rc_phase s = Closing ∧ ∃ r, rc_phase s' = Closed r.
Proof.
  intros Hp He Hok. destruct e as [start requests|accepted requests| | | |d|d failure l|l]; simpl in He.
  - by destruct (rc_phase s).
  - destruct (forallb is_request requests); [|done]. injection He as <-.
    assert (rc_context s = None) as Ec by (destruct Hok as [_ _ _ Hph]; unfold phase_ok in Hph; destruct (rc_phase s); naive_solver).
    unfold redis_submit. rewrite Ec. by left.
  - injection He as <-. left. by rewrite (proj2 (proj2 (abort_ok s Hok))).
  - by destruct (rc_phase s).
  - unfold redis_close_end in He. destruct (rc_phase s); try done. destruct (rc_watch s) as [w|]; [|done].
    right. split; [done|]. destruct (tasks_result w) as [[]|]; [injection He as <-..|done]; by eexists.
  - destruct (match rc_watch s with Some w => woken d w | None => None end); [|done]. injection He as <-. by left.
  - destruct (match rc_watch s with Some w => ready d failure w | None => None end) as [[w called]|]; [|done].
    destruct called; [|injection He as <-; by left]. destruct (sensible _ l); [|done]. injection He as <-.
    assert (rc_context s = None) as Ec by (destruct Hok as [_ _ _ Hph]; unfold phase_ok in Hph; destruct (rc_phase s); naive_solver).
    destruct l; simpl; rewrite Ec; by left.
  - assert (rc_timer s = false) as Et.
    { destruct Hok as [_ _ Hw Hph]; unfold phase_ok, watch_ok in *; destruct (rc_phase s), (rc_context s); naive_solver. }
    by rewrite Et in He.
Qed.

Fixpoint task_steps (es : list event) : nat :=
  match es with [] => 0 | e :: es => (if is_task e then 1 else 0) + task_steps es end.

Lemma closed_forever es s s' r :
  redis_ok s → rc_phase s = Closed r → redis_run es s = Some s' → rc_phase s' = Closed r.
Proof.
  revert s. induction es as [|e es IH]; intros s Hok Ep; simpl; [by intros [= <-]|].
  destruct (redis_step e s) as [s1|] eqn:E; [|done]. apply IH; [by eapply redis_step_ok|].
  destruct (closing_stays e s s1) as [Hs|[Hs _]]; try done; [by rewrite Ep|by rewrite Hs|by rewrite Ep in Hs].
Qed.

Lemma closing_steps es s s' :
  redis_ok s → rc_phase s = Closing → redis_run es s = Some s' → rc_phase s' = Closing →
  left_tasks s' + task_steps es = left_tasks s.
Proof.
  revert s. induction es as [|e es IH]; intros s Hok Ep; simpl; [intros [= <-]; lia|].
  destruct (redis_step e s) as [s1|] eqn:E; [|done]. intros Hr Ep'.
  assert (redis_ok s1) as Hok1 by by eapply redis_step_ok.
  assert (rc_phase s1 = Closing) as Ep1.
  { destruct (closing_stays e s s1) as [Hs|(_ & r & Hs)]; try done; [by rewrite Ep|by rewrite Hs|].
    pose proof (closed_forever es s1 s' r Hok1 Hs Hr). congruence. }
  pose proof (closing_step e s s1 Hok Ep E Ep1). specialize (IH s1 Hok1 Ep1 Hr Ep'). lia.
Qed.

(** The descriptor fails only after the watch was stopped. *)
Fixpoint undamaged (es : list event) (s : redis) : Prop :=
  match es with
  | [] => True
  | e :: es =>
      match e with Ready _ (Some _) _ => rc_context s = None | _ => True end ∧
      match redis_step e s with Some s => undamaged es s | None => True end
  end.
Definition watch_unfailed (s : redis) : Prop := match rc_watch s with Some w => unfailed w | None => True end.

Lemma unfailed_put d t w : unfailed w → (∀ e, t ≠ Ended (Some e)) → unfailed (set_task d t w).
Proof. intros Hw Ht [] e; specialize (Hw Readable e) as H1; specialize (Hw Writable e) as H2; destruct d; simpl; auto. Qed.
Lemma perform_all_unfailed l s : watch_unfailed s → watch_unfailed (perform_all l s).
Proof.
  revert s. induction l as [|a l IH]; intros s Hs; simpl; destruct (rc_context s) as [c|]; try done. apply IH.
  unfold watch_unfailed in *. destruct a; simpl.
  - unfold redis_connected, settle_connect. simpl. by destruct (rc_connecting s).
  - by destruct (hr_pending c).
  - destruct (rc_watch s); [|done]. intros []; apply Hs.
  - by destruct (hr_hooked c).
  - unfold redis_free. rewrite completed_all. destruct (hr_hooked c); simpl; [|done]. by destruct (rc_watch s).
Qed.
Lemma abort_unfailed s : watch_unfailed s → watch_unfailed (redis_abort s).
Proof.
  unfold watch_unfailed, redis_abort, settle_connect, redis_free. intros Hs.
  destruct (rc_connecting s); simpl; (destruct (rc_context s) as [c|]; [|done]); rewrite completed_all; destruct (hr_hooked c); simpl; try done; by destruct (rc_watch s).
Qed.

Lemma unfailed_step e s s' :
  redis_ok s → watch_unfailed s → match e with Ready _ (Some _) _ => rc_context s = None | _ => True end →
  redis_step e s = Some s' → watch_unfailed s'.
Proof.
  intros Hok Hs He. destruct e as [start requests|accepted requests| | | |d|d failure l|l]; simpl.
  - destruct (rc_phase s); try done. destruct (negb (rc_called s) && _); intros [= <-].
    destruct start; [done..|]. apply perform_all_unfailed. by intros [] e.
  - destruct (forallb _ _); intros [= <-]. unfold redis_submit. destruct (rc_context s), accepted; try done. by apply perform_all_unfailed.
  - intros [= <-]. by apply abort_unfailed.
  - destruct (rc_phase s); intros [= <-]. unfold redis_close_begin. pose proof (abort_unfailed s Hs). by destruct (rc_stopped _).
  - unfold redis_close_end. destruct (rc_phase s), (rc_watch s) as [w|] eqn:Ew; try done. destruct (tasks_result w) as [[]|]; intros [= <-]; done.
  - unfold watch_unfailed in *. destruct (rc_watch s) as [w|] eqn:Ew; [|done]. unfold woken.
    destruct (at_dir d (wt_tasks w)); try done. destruct (wt_closing w), (at_dir d (wt_enabled w)); intros [= <-]; by apply unfailed_put.
  - unfold watch_unfailed in Hs. destruct (rc_watch s) as [w|] eqn:Ew; [|done]. unfold ready.
    destruct (at_dir d (wt_tasks w)) eqn:Et; try done. destruct failure as [f|].
    + intros [= <-]. simpl. apply unfailed_put; [done|]. destruct Hok as [_ _ Hw _]. unfold watch_ok in Hw. rewrite He, Ew in Hw.
      destruct Hw as [_ Hw]. destruct (rc_stopped s); [|done]. destruct Hw as (w' & [= <-] & ->). done.
    + assert (∀ s1, watch_unfailed s1 → watch_unfailed (continue d s1)) as Hcont.
      { intros s1 H1. unfold watch_unfailed, continue in *. simpl. destruct (rc_watch s1); [|done]. apply unfailed_put; [done|]. by destruct (wt_closing _). }
      destruct (negb (wt_closing w) && _).
      * destruct (sensible _ l); intros [= <-]. apply Hcont. by apply perform_all_unfailed.
      * intros [= <-]. simpl. apply unfailed_put; [done|]. by destruct (wt_closing w).
  - destruct (rc_timer s && _); intros [= <-]. by apply perform_all_unfailed.
Qed.

Lemma undamaged_run es s s' :
  redis_ok s → watch_unfailed s → undamaged es s → redis_run es s = Some s' → watch_unfailed s'.
Proof.
  revert s. induction es as [|e es IH]; intros s Hok Hs Hu; simpl; [by intros [= <-]|].
  simpl in Hu. destruct Hu as [He Hu]. destruct (redis_step e s) as [s1|] eqn:E; [|done].
  apply IH; [by eapply redis_step_ok|by eapply unfailed_step|done].
Qed.

Lemma close_progress s :
  redis_ok s → rc_phase s = Closing → ∃ e s', (is_task e = true ∨ e = CloseEnd) ∧ redis_step e s = Some s'.
Proof.
  intros Hok Ep. destruct (closing_watch s Hok Ep) as (w & Ew & Hw & _).
  destruct (decide (tasks_left w = 0)) as [El|El].
  - destruct (tasks_done w El) as [r Er]. exists CloseEnd. simpl. unfold redis_close_end. rewrite Ep, Ew, Er.
    destruct r as [[]|]; eauto.
  - destruct (stopped_progress w Hw El) as (d & [[w' E]|E]).
    + exists (Woken d). simpl. rewrite Ew, E. eauto.
    + destruct (E None) as [[w' called] E']. exists (Ready d None []). simpl. rewrite Ew, E'.
      apply ready_ends in E' as [-> _]; [|done]. eauto.
Qed.

(** Close() completes: while it waits, at most two more steps of the watch's
    tasks happen, whatever else does, and one of them or the end of close() can
    happen at any time; it succeeds unless the readiness of the socket failed
    before the connection was given up. *)
Theorem redis_close_completes es s :
  redis_run es fresh_redis = Some s → rc_phase s = Closing →
  (∃ e s', (is_task e = true ∨ e = CloseEnd) ∧ redis_step e s = Some s') ∧
  (∀ es' s', redis_run es' s = Some s' → rc_phase s' = Closing → task_steps es' ≤ 2) ∧
  (undamaged es fresh_redis → ∀ s', redis_step CloseEnd s = Some s' → rc_phase s' = Closed (Ok tt)).
Proof.
  intros Hr Ep. pose proof (redis_run_ok _ _ _ fresh_redis_ok Hr) as Hok.
  destruct (closing_watch s Hok Ep) as (w & Ew & Hw & _). split_and!.
  - by apply close_progress.
  - intros es' s' Hr' Ep'. pose proof (closing_steps es' s s' Hok Ep Hr' Ep'). pose proof (tasks_left_bound w).
    assert (left_tasks s = tasks_left w) by (unfold left_tasks; by rewrite Ew). lia.
  - intros Hu s'. assert (watch_unfailed s) as Hf by (by apply (undamaged_run es fresh_redis); [apply fresh_redis_ok|..]).
    unfold watch_unfailed in Hf. rewrite Ew in Hf. simpl. unfold redis_close_end. rewrite Ep, Ew.
    destruct (tasks_result w) as [r|] eqn:Er; [|done]. rewrite (unfailed_result w r Hf Er). by intros [= <-].
Qed.

(** ** A run *)

Definition demo_reply : raw_reply := MkRaw ReplyArray 0 None [Some "db"; Some "6379"].
Definition demo_open : list event :=
  [Connect Started [Interest Writable true]; Woken Writable;
   Ready Writable None [Notify None; Interest Readable true; Interest Writable false];
   Command true [Interest Writable true; ScheduleTimer]; Command true [ScheduleTimer];
   Woken Readable; Ready Readable None [Answer (Some demo_reply)]].
Definition demo_closing : list event := demo_open ++ [Close; Woken Readable].
Definition demo_state (es : list event) : redis := default fresh_redis (redis_run es fresh_redis).

Lemma redis_promises_kept_witness :
  redis_run (demo_closing ++ [Woken Writable; CloseEnd]) fresh_redis =
    Some (demo_state (demo_closing ++ [Woken Writable; CloseEnd])) ∧
  rc_results (demo_state (demo_closing ++ [Woken Writable; CloseEnd])) =
    [(0, Ok (MkReply ReplyArray 0 "" ["db"; "6379"])); (1, Throw (RuntimeError "Redis connection closed"))] ∧
  rc_watch (demo_state (demo_closing ++ [Woken Writable; CloseEnd])) = None.
Proof.
  assert (redis_run (demo_closing ++ [Woken Writable; CloseEnd]) fresh_redis =
    Some (demo_state (demo_closing ++ [Woken Writable; CloseEnd]))) as Hr by (vm_compute; reflexivity).
  split; [exact Hr|]. split; [vm_compute; reflexivity|].
  destruct (redis_promises_kept _ _ Hr) as (_ & _ & _ & _ & Hc). apply Hc. vm_compute. reflexivity.
Defined.

Lemma redis_close_completes_witness :
  rc_phase (demo_state demo_closing) = Closing ∧
  ∃ e s', (is_task e = true ∨ e = CloseEnd) ∧ redis_step e (demo_state demo_closing) = Some s'.
Proof.
  split; [vm_compute; reflexivity|].
  destruct (redis_close_completes demo_closing (demo_state demo_closing)) as [He _];
    [vm_compute; reflexivity..|exact He].
Defined.

(** A watch that failed makes close() throw: [_stopped] is left behind, which
    the destructor asserts against. *)
Example damaged_watch_outlives_close :
  let s := demo_state (demo_open ++ [Woken Readable; Ready Readable (Some "poll") []; Close; Woken Writable; CloseEnd]) in
  rc_phase s = Closed (Throw (RuntimeError "poll")) ∧ rc_stopped s = true.
Proof. vm_compute. split; reflexivity. Qed.
