(* ===== verification/DnsResolver.v ===== *)
(** * Name resolution

    common/reactor/dns_resolver.cc: the hosts file as it was at the start,
    lookups by c-ares, which is driven by the readiness of its sockets (FdWatch)
    and a timer, and the end of all of it.

    c-ares is a parameter: while it processes a socket or a timeout, and while a
    lookup is started, it does a list of activities, which are its calls of
    the resolver's callbacks. It answers a lookup once; ares_cancel answers those
    that are left. Seastar's readiness is taken to fail only on a descriptor
    that was closed. *)

From S2P Require Import Prelude FdWatch.
From Stdlib Require Import Ascii.

(** seastar::net::inet_address *)
Class InetAddress := {
  inet_address : Type;
  parse_numerical : string → option inet_address;
  in_family : inet_address → Z
}.

Definition AF_UNSPEC : Z := 0.
Definition AF_INET : Z := 2.
Definition AF_INET6 : Z := 10.

(** normalize *)
Definition normalize (host : string) : string := text_of (tolower <$> bytes_of host).

(** std::getline over a file *)
Fixpoint getlines (line : bytes) (text : bytes) : list bytes :=
  match text with
  | [] => match line with [] => [] | _ => [line] end
  | c :: text => if bool_decide (c = "010"%char) then line :: getlines [] text else getlines (line ++ [c]) text
  end.
(** erase from the first '#' *)
Fixpoint before_hash (line : bytes) : bytes :=
  match line with
  | [] => []
  | c :: line => if bool_decide (c = "#"%char) then [] else c :: before_hash line
  end.
(** operator>> of a stream: the words of a line *)
Fixpoint words (word : bytes) (line : bytes) : list string :=
  match line with
  | [] => match word with [] => [] | _ => [text_of word] end
  | c :: line =>
      if isspace c then match word with [] => words [] line | _ => text_of word :: words [] line end
      else words (word ++ [c]) line
  end.

Section resolver.
Context `{!InetAddress}.

Abbreviation hosts_table := (gmap string (list inet_address)).
Definition push_host (name : string) (ip : inet_address) (hosts : hosts_table) : hosts_table :=
  <[normalize name := default [] (hosts !! normalize name) ++ [ip]]> hosts.

(** dns_resolver: one line of the hosts file, and the file *)
Definition read_host_line (hosts : hosts_table) (line : bytes) : hosts_table :=
  let fields := words [] (before_hash line) in
  match parse_numerical (default "" (head fields)) with
  | None => hosts
  | Some ip => foldl (λ hosts name, push_host name ip hosts) hosts (tail fields)
  end.
Definition read_hosts (file : string) : hosts_table := foldl read_host_line ∅ (getlines [] (bytes_of file)).

(** ** The state *)

Inductive resolver_phase := ResolverOpen | ResolverClosing | ResolverClosed.

(** [dr_watches] are the watches by descriptor, [dr_objects] the watch objects by
    address, which their tasks keep alive; [dr_queries] are the lookups that
    c-ares holds, [dr_results] the promises as they were set. *)
Record resolver := MkResolver {
  dr_channel : bool; dr_timer : bool;
  dr_watches : gmap Z nat; dr_objects : gmap nat watch; dr_retired : list nat;
  dr_hosts : hosts_table; dr_pending : nat;
  dr_next : nat; dr_queries : list nat; dr_results : list (nat * outcome (list inet_address));
  dr_phase : resolver_phase }.

Definition dr_set_channel (c t : bool) (s : resolver) : resolver :=
  MkResolver c t (dr_watches s) (dr_objects s) (dr_retired s) (dr_hosts s) (dr_pending s) (dr_next s) (dr_queries s) (dr_results s) (dr_phase s).
Definition dr_set_watches (w : gmap Z nat) (o : gmap nat watch) (r : list nat) (s : resolver) : resolver :=
  MkResolver (dr_channel s) (dr_timer s) w o r (dr_hosts s) (dr_pending s) (dr_next s) (dr_queries s) (dr_results s) (dr_phase s).
Definition dr_set_lookups (p n : nat) (q : list nat) (r : list (nat * outcome (list inet_address))) (s : resolver) : resolver :=
  MkResolver (dr_channel s) (dr_timer s) (dr_watches s) (dr_objects s) (dr_retired s) (dr_hosts s) p n q r (dr_phase s).
Definition dr_set_phase (p : resolver_phase) (s : resolver) : resolver :=
  MkResolver (dr_channel s) (dr_timer s) (dr_watches s) (dr_objects s) (dr_retired s) (dr_hosts s) (dr_pending s) (dr_next s) (dr_queries s) (dr_results s) p.

(** dns_resolver *)
Definition make_resolver (hosts_file : string) : resolver :=
  MkResolver true false ∅ ∅ [] (read_hosts hosts_file) 0 0 [] [] ResolverOpen.

(** ** The callbacks of c-ares *)

(** [available]: a retired watch whose tasks have ended *)
Definition ended (s : resolver) (id : nat) : bool :=
  match dr_objects s !! id with
  | Some w => match tasks_result w with Some _ => true | None => false end
  | None => true
  end.
Definition retire (fd : Z) (s : resolver) : resolver :=
  match dr_watches s !! fd with
  | None => s
  | Some id =>
      dr_set_watches (delete fd (dr_watches s)) (alter watch_stop id (dr_objects s))
        (filter (λ id, ended s id = false) (dr_retired s) ++ [id]) s
  end.

Definition socket_state (fd : Z) (read write : bool) (s : resolver) : resolver :=
  if negb read && negb write then retire fd s
  else
    let s :=
      match dr_watches s !! fd with
      | Some _ => s
      | None =>
          let id := fresh (dom (dr_objects s)) in
          dr_set_watches (<[fd := id]> (dr_watches s)) (<[id := watch_create]> (dr_objects s)) (dr_retired s) s
      end in
    match dr_watches s !! fd with
    | Some id =>
        dr_set_watches (dr_watches s)
          (alter (λ w, watch_set Writable write (watch_set Readable read w)) id (dr_objects s)) (dr_retired s) s
    | None => s
    end.

(** A node of an answer of c-ares. *)
Record node := MkNode { ai_family : Z; ai_addr : inet_address }.
Inductive ares_answer := AresFailed (error : string) | AresNodes (nodes : list node).

(** completed: the addresses of an answer *)
Definition node_addresses (nodes : list node) : list inet_address :=
  ai_addr <$> filter (λ n, ai_family n = AF_INET ∨ ai_family n = AF_INET6) nodes.
Definition lookup_result (channel : bool) (answer : ares_answer) : outcome (list inet_address) :=
  if negb channel then Throw Stopped
  else
    match answer with
    | AresFailed e => Throw (RuntimeError e)
    | AresNodes nodes =>
        match node_addresses nodes with
        | [] => Throw (RuntimeError "DNS returned no addresses")
        | addresses => Ok addresses
        end
    end.
Definition lookup_completed (q : nat) (answer : ares_answer) (s : resolver) : resolver :=
  dr_set_lookups (dr_pending s - 1) (dr_next s) (filter (λ q', q' ≠ q) (dr_queries s))
    (dr_results s ++ [(q, lookup_result (dr_channel s) answer)]) s.

(** ** What c-ares does *)

Inductive ares_activity :=
| AresAnswer (q : nat) (answer : ares_answer)
| AresSocket (fd : Z) (read write : bool).

Definition ares_perform (s : resolver) (a : ares_activity) : resolver :=
  match a with
  | AresAnswer q answer => if bool_decide (q ∈ dr_queries s) then lookup_completed q answer s else s
  | AresSocket fd read write => socket_state fd read write s
  end.
Definition ares_all (l : list ares_activity) (s : resolver) : resolver := foldl ares_perform s l.

(** ** The operations *)

Definition update_timer (s : resolver) : resolver :=
  dr_set_channel (dr_channel s) (dr_channel s && negb (dr_pending s =? 0)) s.
(** process, with what ares_process_fd does *)
Definition dns_process (l : list ares_activity) (s : resolver) : resolver :=
  if dr_channel s then update_timer (ares_all l s) else s.

(** resolve_all: what is known without a lookup *)
Definition family_matches (family : Z) (ip : inet_address) : bool :=
  (family =? AF_UNSPEC)%Z || (in_family ip =? family)%Z.
Definition local_addresses (hosts : hosts_table) (host : string) (family : Z) : list inet_address :=
  match parse_numerical host with
  | Some ip => if family_matches family ip then [ip] else []
  | None => filter (λ ip, family_matches family ip = true) (default [] (hosts !! normalize host))
  end.

(** resolve_all, with what ares_getaddrinfo does; the number of the future *)
Definition resolve_all (host : string) (family : Z) (l : list ares_activity) (s : resolver) : nat * resolver :=
  let q := dr_next s in
  let answered r := (q, dr_set_lookups (dr_pending s) (S q) (dr_queries s) (dr_results s ++ [(q, r)]) s) in
  if negb (dr_channel s) then answered (Throw Stopped)
  else
    match local_addresses (dr_hosts s) host family with
    | [] =>
        let s := dr_set_lookups (S (dr_pending s)) (S q) (dr_queries s ++ [q]) (dr_results s) s in
        (q, update_timer (ares_all l s))
    | addresses => answered (Ok addresses)
    end.

(** resolve_name: of what resolve_all gives; [None] would be front() of nothing *)
Definition resolve_name_of (r : outcome (list inet_address)) : outcome (option inet_address) :=
  match r with Ok addresses => Ok (head addresses) | Throw e => Throw e end.

(** close, up to the await of the watches, and from there *)
Definition cancel_all (s : resolver) : resolver :=
  foldl (λ s q, lookup_completed q (AresFailed "cancelled") s) s (dr_queries s).
(** [while (!_watches.empty())]: as many turns as there are watches *)
Definition retire_all (s : resolver) : resolver :=
  foldl (λ s fd, retire fd s) s (map_to_list (dr_watches s)).*1.
Definition dns_close_begin (l : list ares_activity) (s : resolver) : resolver :=
  let s := dr_set_channel (dr_channel s) false s in
  let s := if dr_channel s then ares_all l (cancel_all (dr_set_channel false false s)) else s in
  dr_set_phase ResolverClosing (retire_all s).
Definition dns_close_end (s : resolver) : option resolver :=
  match dr_phase s with
  | ResolverClosing =>
      if forallb (ended s) (dr_retired s)
      then Some (dr_set_phase ResolverClosed (dr_set_watches (dr_watches s) (dr_objects s) [] s)) else None
  | _ => None
  end.

(** ** What happens to a resolver *)

Inductive resolver_event :=
| Resolve (host : string) (family : Z) (l : list ares_activity)
| TimerFires (l : list ares_activity)
| TaskWoken (id : nat) (d : direction)
| TaskReady (id : nat) (d : direction) (failure : option string) (l : list ares_activity)
| CloseResolver (l : list ares_activity)
| CloseResolverEnd.

Definition is_release (a : ares_activity) : bool :=
  match a with AresSocket _ read write => negb read && negb write | _ => false end.
Definition set_object (id : nat) (w : watch) (s : resolver) : resolver :=
  dr_set_watches (dr_watches s) (<[id := w]> (dr_objects s)) (dr_retired s) s.

Definition resolver_step (e : resolver_event) (s : resolver) : option resolver :=
  match e with
  | Resolve host family l => Some (resolve_all host family l s).2
  | TimerFires l => if dr_timer s then Some (dns_process l (dr_set_channel (dr_channel s) false s)) else None
  | TaskWoken id d =>
      match (match dr_objects s !! id with Some w => woken d w | None => None end) with
      | Some w => Some (set_object id w s)
      | None => None
      end
  | TaskReady id d failure l =>
      match dr_objects s !! id with
      | Some w =>
          if negb (wt_closing w) && (if failure is Some _ then true else false) then None
          else
            match ready d failure w with
            | Some (w, called) =>
                let s := set_object id w s in
                if called then
                  let s := dns_process l s in
                  Some (dr_set_watches (dr_watches s) (alter (loop_head d) id (dr_objects s)) (dr_retired s) s)
                else Some s
            | None => None
            end
      | None => None
      end
  | CloseResolver l =>
      match dr_phase s with
      | ResolverOpen => if forallb is_release l then Some (dns_close_begin l s) else None
      | _ => None
      end
  | CloseResolverEnd => dns_close_end s
  end.

Fixpoint resolver_run (es : list resolver_event) (s : resolver) : option resolver :=
  match es with
  | [] => Some s
  | e :: es => match resolver_step e s with Some s => resolver_run es s | None => None end
  end.
End resolver.
