(* ===== verification/DnsTheorems.v ===== *)
(** * Lookups end, and the resolver can be closed

    The table of hosts is what the hosts file lists; every lookup is answered
    exactly once, with at least one address or a failure; a timer is armed as
    long as c-ares holds a lookup; and close() ends all watches. *)

From S2P Require Import Prelude FdWatch DnsResolver.
From Stdlib Require Import Ascii.

Section theorems.
Context `{!InetAddress}.

(** ** The hosts file *)

Definition line_entries (line : bytes) : list (string * inet_address) :=
  let fields := words [] (before_hash line) in
  match parse_numerical (default "" (head fields)) with
  | None => []
  | Some ip => (λ name, (normalize name, ip)) <$> tail fields
  end.
Definition host_entries (file : string) : list (string * inet_address) := getlines [] (bytes_of file) ≫= line_entries.
Definition addresses_of (name : string) (l : list (string * inet_address)) : list inet_address :=
  (filter (λ e, e.1 = name) l).*2.

Lemma addresses_of_app name l k : addresses_of name (l ++ k) = addresses_of name l ++ addresses_of name k.
Proof. unfold addresses_of. by rewrite filter_app, fmap_app. Qed.

Lemma push_all_lookup name ip names hosts :
  default [] (foldl (λ h n, push_host n ip h) hosts names !! name) =
    default [] (hosts !! name) ++ addresses_of name ((λ n, (normalize n, ip)) <$> names).
Proof.
  revert hosts. induction names as [|n names IH]; intros hosts; simpl; [by rewrite app_nil_r|]. rewrite IH.
  unfold addresses_of, push_host. rewrite filter_cons. simpl. case_decide as E.
  - subst. rewrite lookup_insert_eq. simpl. by rewrite <- app_assoc.
  - by rewrite lookup_insert_ne.
Qed.
Lemma read_line_lookup name hosts line :
  default [] (read_host_line hosts line !! name) = default [] (hosts !! name) ++ addresses_of name (line_entries line).
Proof.
  unfold read_host_line, line_entries. destruct (parse_numerical _) as [ip|]; [apply push_all_lookup|]. by rewrite app_nil_r.
Qed.
Lemma read_hosts_lookup file name : default [] (read_hosts file !! name) = addresses_of name (host_entries file).
Proof.
  unfold read_hosts, host_entries. generalize (getlines [] (bytes_of file)) as lines. intros lines.
  enough (∀ hosts, default [] (foldl read_host_line hosts lines !! name) =
    default [] (hosts !! name) ++ addresses_of name (lines ≫= line_entries)) as Hg by by rewrite Hg, lookup_empty.
  induction lines as [|line lines IH]; intros hosts; simpl; [by rewrite app_nil_r|].
  by rewrite IH, read_line_lookup, <- app_assoc, <- addresses_of_app.
Qed.

(** ** Lookups *)

Record lookups_ok (s : resolver) : Prop := MkLookupsOk {
  lo_ids : (dr_results s).*1 ++ dr_queries s ≡ₚ seq 0 (dr_next s);
  lo_pending : dr_pending s = length (dr_queries s);
  lo_nonempty : ∀ q l, (q, Ok l) ∈ dr_results s → l ≠ [] }.

Lemma remove_query (q : nat) l : NoDup l → q ∈ l → l ≡ₚ q :: filter (λ q', q' ≠ q) l.
Proof.
  intros Hn Hq. apply NoDup_Permutation; [done| |].
  - apply NoDup_cons. split; [rewrite list_elem_of_filter; naive_solver|by apply NoDup_filter].
  - intros x. rewrite elem_of_cons, list_elem_of_filter. destruct (decide (x = q)); naive_solver.
Qed.
Lemma filter_absent (q : nat) (l : list nat) : q ∉ l → filter (λ q', q' ≠ q) l = l.
Proof.
  induction l as [|x l IH]; intros Hq; [done|]. apply not_elem_of_cons in Hq as [? ?].
  rewrite filter_cons_True by done. by rewrite IH.
Qed.
Lemma queries_nodup s : lookups_ok s → NoDup (dr_queries s).
Proof. intros [Hi _ _]. pose proof (NoDup_seq 0 (dr_next s)) as Hn. rewrite <- Hi in Hn. by apply NoDup_app in Hn as (_ & _ & ?). Qed.

Lemma lookup_result_nonempty channel answer l : lookup_result channel answer = Ok l → l ≠ [].
Proof. unfold lookup_result. destruct channel, answer; simpl; try done. destruct (node_addresses nodes) eqn:E; [done|by intros [= <-]]. Qed.

Lemma completed_ok q answer s : lookups_ok s → q ∈ dr_queries s → lookups_ok (lookup_completed q answer s).
Proof.
  intros Hok Hq. pose proof (remove_query q _ (queries_nodup s Hok) Hq) as Hp. destruct Hok as [Hi Hl Hn].
  split; simpl.
  - rewrite fmap_app, <- app_assoc. simpl. by rewrite <- Hp.
  - rewrite Hl. apply Permutation_length in Hp. simpl in Hp. lia.
  - intros q' l. rewrite elem_of_app, list_elem_of_singleton. intros [Hx|[= _ Hx]]; [by eapply Hn|]. by eapply lookup_result_nonempty.
Qed.
Lemma lookups_frame s s' :
  dr_results s' = dr_results s → dr_queries s' = dr_queries s → dr_next s' = dr_next s → dr_pending s' = dr_pending s →
  lookups_ok s → lookups_ok s'.
Proof. intros E1 E2 E3 E4 [Hi Hl Hn]. split; rewrite ?E1, ?E2, ?E3, ?E4; done. Qed.

(** ** Watches *)

Record watches_ok (s : resolver) : Prop := MkWatchesOk {
  wo_open fd id : dr_watches s !! fd = Some id → ∃ w, dr_objects s !! id = Some w ∧ wt_closing w = false;
  wo_inj fd fd' id : dr_watches s !! fd = Some id → dr_watches s !! fd' = Some id → fd = fd';
  wo_retired id : id ∈ dr_retired s → ∃ w, dr_objects s !! id = Some w ∧ wt_closing w = true;
  wo_objects id w : dr_objects s !! id = Some w →
    (∃ fd, dr_watches s !! fd = Some id) ∨ wt_closing w = true ∧ (id ∈ dr_retired s ∨ tasks_left w = 0) }.

Lemma watches_frame s s' :
  dr_watches s' = dr_watches s → dr_objects s' = dr_objects s → dr_retired s' = dr_retired s → watches_ok s → watches_ok s'.
Proof. intros E1 E2 E3 [H1 H2 H3 H4]. split; rewrite ?E1, ?E2, ?E3; eauto. Qed.

(** A watch object changes in place. *)
Lemma watches_update id w w' s :
  watches_ok s → dr_objects s !! id = Some w → wt_closing w' = wt_closing w →
  (wt_closing w = true → tasks_left w = 0 → tasks_left w' = 0) →
  watches_ok (dr_set_watches (dr_watches s) (<[id := w']> (dr_objects s)) (dr_retired s) s).
Proof.
  intros [H1 H2 H3 H4] Ew Ec Ht. split; simpl.
  - intros fd i Hf. destruct (H1 fd i Hf) as (w0 & E0 & Hc). destruct (decide (i = id)) as [->|].
    + rewrite lookup_insert_eq. exists w'. split; [done|]. rewrite Ec. congruence.
    + rewrite lookup_insert_ne by done. eauto.
  - exact H2.
  - intros i Hi. destruct (H3 i Hi) as (w0 & E0 & Hc). destruct (decide (i = id)) as [->|].
    + rewrite lookup_insert_eq. exists w'. split; [done|]. rewrite Ec. congruence.
    + rewrite lookup_insert_ne by done. eauto.
  - intros i w0 E0. destruct (decide (i = id)) as [->|].
    + rewrite lookup_insert_eq in E0. injection E0 as <-. destruct (H4 id w Ew) as [?|(Hc & [?|?])]; [by left|right..]; (split; [congruence|auto]).
    + rewrite lookup_insert_ne in E0 by done. by apply H4.
Qed.
Lemma ended_spec s id w : dr_objects s !! id = Some w → ended s id = true ↔ tasks_left w = 0.
Proof.
  intros E. unfold ended. rewrite E. destruct w as [e [[] []] c]; unfold tasks_left; simpl; split; try done; lia.
Qed.

Lemma retire_ok fd s : watches_ok s → watches_ok (retire fd s).
Proof.
  intros Hok. unfold retire. destruct (dr_watches s !! fd) as [id|] eqn:Ef; [|done].
  destruct Hok as [H1 H2 H3 H4]. destruct (H1 fd id Ef) as (w & Ew & Hc). rewrite (alter_to_insert _ _ _ w) by done.
  split; simpl.
  - intros fd' i. rewrite lookup_delete_Some. intros [Hne Hf]. destruct (H1 fd' i Hf) as (w0 & E0 & Hc0).
    rewrite lookup_insert_ne; [eauto|]. intros ->. by eapply Hne, H2.
  - intros fd1 fd2 i. rewrite !lookup_delete_Some. intros [_ ?] [_ ?]. by eapply H2.
  - intros i. rewrite elem_of_app, list_elem_of_singleton. intros [Hi| ->].
    + apply list_elem_of_filter in Hi as [_ Hi]. destruct (H3 i Hi) as (w0 & E0 & Hc0).
      rewrite lookup_insert_ne; [eauto|]. intros ->. congruence.
    + rewrite lookup_insert_eq. by eexists.
  - intros i w0 E0. destruct (decide (i = id)) as [->|Hne].
    + rewrite lookup_insert_eq in E0. injection E0 as <-. right. split; [done|]. left. set_solver.
    + rewrite lookup_insert_ne in E0 by done. destruct (H4 i w0 E0) as [[fd' Hf]|(Hc0 & Hr)].
      * left. exists fd'. rewrite lookup_delete_ne; [done|]. intros ->. congruence.
      * right. split; [done|]. destruct Hr as [Hr|Hr]; [|by right]. destruct (ended s i) eqn:Ee.
        -- right. by apply (ended_spec s i w0).
        -- left. apply elem_of_app. left. by apply list_elem_of_filter.
Qed.

Lemma interest_ok id f s :
  watches_ok s → (∀ w, wt_closing (f w) = wt_closing w ∧ (wt_closing w = true → tasks_left w = 0 → tasks_left (f w) = 0)) →
  watches_ok (dr_set_watches (dr_watches s) (alter f id (dr_objects s)) (dr_retired s) s).
Proof.
  intros Hok Hf. destruct (dr_objects s !! id) as [w|] eqn:E.
  - rewrite (alter_to_insert _ _ _ w) by done. apply (watches_update id w); [done|done|apply Hf..].
  - rewrite (alter_id f (dr_objects s) id); [by eapply watches_frame; [..|exact Hok]|]. congruence.
Qed.

Lemma create_ok fd s :
  watches_ok s → dr_watches s !! fd = None →
  let id := fresh (dom (dr_objects s)) in
  watches_ok (dr_set_watches (<[fd := id]> (dr_watches s)) (<[id := watch_create]> (dr_objects s)) (dr_retired s) s).
Proof.
  intros [H1 H2 H3 H4] Hf id. assert (dr_objects s !! id = None) as Hid by (apply not_elem_of_dom, is_fresh).
  split; simpl.
  - intros fd' i. rewrite lookup_insert_Some. intros [[-> <-]|[Hne Hw]]; [rewrite lookup_insert_eq; by eexists|].
    destruct (H1 fd' i Hw) as (w & Ew & Hc). rewrite lookup_insert_ne; [eauto|]. intros ->. congruence.
  - intros fd1 fd2 i. rewrite !lookup_insert_Some. intros [[<- <-]|[Hn1 Hw1]] [[<- E]|[Hn2 Hw2]]; try done.
    + destruct (H1 fd2 id Hw2) as (w & Ew & _). congruence.
    + destruct (H1 fd1 i Hw1) as (w & Ew & _). congruence.
    + by eapply H2.
  - intros i Hi. destruct (H3 i Hi) as (w & Ew & Hc). rewrite lookup_insert_ne; [eauto|]. intros ->. congruence.
  - intros i w. rewrite lookup_insert_Some. intros [[<- <-]|[Hne Hw]]; [left; exists fd; apply lookup_insert_eq|].
    destruct (H4 i w Hw) as [[fd' Hf']|?]; [left|by right]. exists fd'. rewrite lookup_insert_ne; [done|]. intros ->. congruence.
Qed.

Lemma socket_state_ok fd read write s : watches_ok s → watches_ok (socket_state fd read write s).
Proof.
  intros Hok. unfold socket_state. destruct (negb read && negb write); [by apply retire_ok|].
  set (s1 := match dr_watches s !! fd with Some _ => s | None => _ end).
  assert (watches_ok s1) as Hok1 by (subst s1; destruct (dr_watches s !! fd) eqn:E; [done|by apply create_ok]).
  destruct (dr_watches s1 !! fd); [|done]. apply interest_ok; [done|]. intros [e [] c]. done.
Qed.

(** What a callback leaves alone. *)
Definition same_frame (s s' : resolver) : Prop :=
  dr_channel s' = dr_channel s ∧ dr_timer s' = dr_timer s ∧ dr_phase s' = dr_phase s ∧ dr_hosts s' = dr_hosts s.
#[export] Instance same_frame_preorder : PreOrder same_frame.
Proof. split; unfold same_frame; [done|]. intros ??? (?&?&?&?) (?&?&?&?). split_and!; congruence. Qed.
Definition same_lookups (s s' : resolver) : Prop :=
  dr_results s' = dr_results s ∧ dr_queries s' = dr_queries s ∧ dr_next s' = dr_next s ∧ dr_pending s' = dr_pending s.

Lemma retire_same fd s : same_frame s (retire fd s) ∧ same_lookups s (retire fd s).
Proof. unfold retire. by destruct (dr_watches s !! fd). Qed.
Lemma socket_state_same fd read write s :
  same_frame s (socket_state fd read write s) ∧ same_lookups s (socket_state fd read write s).
Proof.
  unfold socket_state. destruct (negb read && negb write); [apply retire_same|].
  set (s1 := match dr_watches s !! fd with Some _ => s | None => _ end).
  assert (same_frame s s1 ∧ same_lookups s s1) as Hs by (subst s1; by destruct (dr_watches s !! fd)).
  by destruct (dr_watches s1 !! fd).
Qed.

Lemma ares_perform_ok s a :
  lookups_ok s → watches_ok s →
  lookups_ok (ares_perform s a) ∧ watches_ok (ares_perform s a) ∧ same_frame s (ares_perform s a).
Proof.
  intros Hl Hw. destruct a as [q answer|fd read write]; simpl.
  - case_bool_decide as Hq; [|done]. split_and!; [by apply completed_ok|by eapply watches_frame; [..|exact Hw]|done].
  - destruct (socket_state_same fd read write s) as [Hf (? & ? & ? & ?)].
    split_and!; [by eapply lookups_frame|by apply socket_state_ok|done].
Qed.
Lemma ares_all_ok l s :
  lookups_ok s → watches_ok s → lookups_ok (ares_all l s) ∧ watches_ok (ares_all l s) ∧ same_frame s (ares_all l s).
Proof.
  unfold ares_all. revert s. induction l as [|a l IH]; intros s Hl Hw; simpl; [done|].
  destruct (ares_perform_ok s a Hl Hw) as (Hl' & Hw' & Hf). destruct (IH _ Hl' Hw') as (? & ? & ?).
  split_and!; [done..|by etransitivity].
Qed.

(** ** close() *)

Lemma cancel_all_ok s :
  lookups_ok s → watches_ok s →
  let s' := cancel_all s in
  lookups_ok s' ∧ watches_ok s' ∧ same_frame s s' ∧ dr_queries s' = [] ∧
  (dr_channel s = false → dr_results s' = dr_results s ++ ((λ q, (q, Throw Stopped)) <$> dr_queries s)).
Proof.
  unfold cancel_all. intros Hl Hw. simpl.
  enough (∀ qs s, dr_queries s = qs → lookups_ok s → watches_ok s →
    let s' := foldl (λ s q, lookup_completed q (AresFailed "cancelled") s) s qs in
    lookups_ok s' ∧ watches_ok s' ∧ same_frame s s' ∧ dr_queries s' = [] ∧
    (dr_channel s = false → dr_results s' = dr_results s ++ ((λ q, (q, Throw Stopped)) <$> qs))) as Hg by by apply Hg.
  clear s Hl Hw. induction qs as [|q qs IH]; intros s Eq Hl Hw; simpl; [by rewrite app_nil_r|].
  set (s1 := lookup_completed q (AresFailed "cancelled") s).
  assert (dr_queries s1 = qs) as Eq1.
  { subst s1. simpl. pose proof (queries_nodup s Hl) as Hn. rewrite Eq in *. apply NoDup_cons in Hn as [Hn _].
    rewrite filter_cons_False by naive_solver. by apply filter_absent. }
  destruct (IH s1 Eq1) as (? & ? & Hf & ? & Hr).
  - apply completed_ok; [done|]. rewrite Eq. set_solver.
  - by eapply watches_frame; [..|exact Hw].
  - split_and!; [done|done|by etransitivity; [|exact Hf]|done|]. intros Ec. rewrite Hr by done. subst s1. simpl.
    unfold lookup_result. rewrite Ec. simpl. by rewrite <- app_assoc.
Qed.

Lemma retire_all_ok s :
  watches_ok s →
  let s' := retire_all s in
  watches_ok s' ∧ dr_watches s' = ∅ ∧ same_frame s s' ∧ same_lookups s s'.
Proof.
  unfold retire_all. intros Hw. simpl.
  enough (∀ fds s, watches_ok s → (∀ fd, is_Some (dr_watches s !! fd) → fd ∈ fds) →
    let s' := foldl (λ s fd, retire fd s) s fds in
    watches_ok s' ∧ dr_watches s' = ∅ ∧ same_frame s s' ∧ same_lookups s s') as Hg.
  { apply Hg; [done|]. intros fd [id E]. apply list_elem_of_fmap. exists (fd, id). split; [done|]. by apply elem_of_map_to_list. }
  clear s Hw. induction fds as [|fd fds IH]; intros s Hw Hd; simpl.
  - split_and!; [done| |done|done]. apply map_eq. intros fd. rewrite lookup_empty. destruct (dr_watches s !! fd) eqn:E; [|done].
    exfalso. specialize (Hd fd (mk_is_Some _ _ E)). set_solver.
  - destruct (retire_same fd s) as [Hf (? & ? & ? & ?)]. destruct (IH (retire fd s)) as (? & ? & Hf' & (? & ? & ? & ?)).
    + by apply retire_ok.
    + intros fd' [id E]. unfold retire in E. destruct (dr_watches s !! fd) as [i|] eqn:Ef.
      * simpl in E. apply lookup_delete_Some in E as [? E]. specialize (Hd fd' (mk_is_Some _ _ E)). set_solver.
      * specialize (Hd fd' (mk_is_Some _ _ E)). assert (fd' ≠ fd) by congruence. set_solver.
    + split_and!; [done|done|by etransitivity|..]. unfold same_lookups. split_and!; congruence.
Qed.

(** ** Every event *)

Definition resolver_phase_ok (s : resolver) : Prop :=
  match dr_phase s with
  | ResolverOpen => dr_channel s = true
  | ResolverClosing => dr_channel s = false ∧ dr_queries s = [] ∧ dr_watches s = ∅
  | ResolverClosed => dr_channel s = false ∧ dr_queries s = [] ∧ dr_watches s = ∅ ∧ dr_retired s = []
  end.
Record resolver_ok (s : resolver) : Prop := MkResolverOk {
  rs_lookups : lookups_ok s; rs_watches : watches_ok s;
  rs_timer : dr_timer s = dr_channel s && negb (dr_pending s =? 0);
  rs_phase : resolver_phase_ok s }.

Lemma make_resolver_ok file : resolver_ok (make_resolver file).
Proof. split; [split; simpl; [done..|]; set_solver|split; simpl; try set_solver; intros *; by rewrite lookup_empty|done..]. Qed.

Lemma open_phase s : resolver_ok s → dr_channel s = true → dr_phase s = ResolverOpen.
Proof. intros [_ _ _ Hp] Hc. unfold resolver_phase_ok in Hp. destruct (dr_phase s); naive_solver congruence. Qed.

Lemma updated_ok s : lookups_ok s → watches_ok s → dr_phase s = ResolverOpen → dr_channel s = true → resolver_ok (update_timer s).
Proof.
  intros Hl Hw Hp Hc. split; [by eapply lookups_frame; [..|exact Hl]|by eapply watches_frame; [..|exact Hw]|done|].
  unfold resolver_phase_ok. simpl. by rewrite Hp.
Qed.

Lemma dns_process_ok l s :
  lookups_ok s → watches_ok s → dr_phase s = ResolverOpen → dr_channel s = true → resolver_ok (dns_process l s).
Proof.
  intros Hl Hw Hp Hc. unfold dns_process. rewrite Hc. destruct (ares_all_ok l s Hl Hw) as (? & ? & (E1 & _ & E2 & _)).
  apply updated_ok; [done..|congruence|congruence].
Qed.

Lemma answered_ok r s :
  resolver_ok s → (∀ l, r = Ok l → l ≠ []) →
  resolver_ok (dr_set_lookups (dr_pending s) (S (dr_next s)) (dr_queries s) (dr_results s ++ [(dr_next s, r)]) s).
Proof.
  intros [[Hi Hl Hn] Hw Ht Hp] Hr. split; [|by eapply watches_frame; [..|exact Hw]|done|done]. split; cbn -[seq]; [|done|].
  - rewrite fmap_app. by apply issue_settled.
  - intros q l. rewrite elem_of_app, list_elem_of_singleton. intros [Hx|[= _ <-]]; [by eapply Hn|by apply Hr].
Qed.

Lemma resolve_all_ok host family l s : resolver_ok s → resolver_ok (resolve_all host family l s).2.
Proof.
  intros Hok. unfold resolve_all. destruct (dr_channel s) eqn:Ec; simpl; [|by apply answered_ok].
  destruct (local_addresses (dr_hosts s) host family) eqn:El; simpl; [|apply answered_ok; [done|by intros ? [= <-]]].
  pose proof (open_phase s Hok Ec) as Hp. destruct Hok as [[Hi Hn He] Hw Ht _].
  set (s1 := dr_set_lookups _ _ _ _ s).
  assert (lookups_ok s1) as Hl1.
  { split; cbn -[seq]; [by apply issue_outstanding|rewrite length_app, Hn; simpl; lia|done]. }
  assert (watches_ok s1) as Hw1 by by eapply watches_frame; [..|exact Hw].
  destruct (ares_all_ok l s1 Hl1 Hw1) as (? & ? & (E1 & _ & E2 & _)).
  apply updated_ok; [done..|by rewrite E2|by rewrite E1].
Qed.

Lemma close_resolver_ok l s : resolver_ok s → dr_phase s = ResolverOpen → resolver_ok (dns_close_begin l s).
Proof.
  intros [Hl Hw Ht Hp] Ep. unfold resolver_phase_ok in Hp. rewrite Ep in Hp. unfold dns_close_begin. simpl. rewrite Hp.
  set (s1 := dr_set_channel false false (dr_set_channel true false s)).
  assert (lookups_ok s1) as Hl1 by by eapply lookups_frame; [..|exact Hl].
  assert (watches_ok s1) as Hw1 by by eapply watches_frame; [..|exact Hw].
  destruct (cancel_all_ok s1 Hl1 Hw1) as (Hl2 & Hw2 & (Ec2 & Et2 & _) & Eq2 & _).
  destruct (ares_all_ok l _ Hl2 Hw2) as (Hl3 & Hw3 & (Ec3 & Et3 & _)).
  assert (dr_queries (ares_all l (cancel_all s1)) = []) as Eq3.
  { unfold ares_all. generalize (cancel_all s1) as s2, Eq2. intros s2. clear. revert s2. induction l as [|a l IH]; intros s2 E; [done|].
    simpl. apply IH. destruct a as [q answer|fd read write]; simpl.
    - by rewrite E, bool_decide_eq_false_2 by set_solver.
    - destruct (socket_state_same fd read write s2) as [_ (_ & -> & _)]. done. }
  destruct (retire_all_ok _ Hw3) as (Hw4 & Ew4 & (Ec4 & Et4 & _) & (Er4 & Eq4 & En4 & Ep4)).
  set (s4 := retire_all _) in *. split.
  - eapply lookups_frame; [..|exact Hl3]; done.
  - by eapply watches_frame; [..|exact Hw4].
  - simpl. rewrite Et4, Et3, Et2, Ec4, Ec3, Ec2. done.
  - unfold resolver_phase_ok. simpl. by rewrite Ec4, Ec3, Ec2, Eq4, Eq3.
Qed.

Lemma close_resolver_end_ok s s' : resolver_ok s → dns_close_end s = Some s' → resolver_ok s'.
Proof.
  intros [Hl Hw Ht Hp]. unfold dns_close_end, resolver_phase_ok in *. destruct (dr_phase s); try done.
  destruct (forallb (ended s) (dr_retired s)) eqn:Ee; [|done]. intros [= <-]. destruct Hp as (Ec & Eq & Ew). split.
  - by eapply lookups_frame; [..|exact Hl].
  - destruct Hw as [H1 H2 H3 H4]. split; simpl; [done|done|set_solver|].
    intros id w E. destruct (H4 id w E) as [?|(Hc & [Hr|?])]; [by left|right|right; auto]. split; [done|]. right.
    apply (ended_spec s id w E). rewrite forallb_forall in Ee. by apply Ee, list_elem_of_In.
  - done.
  - unfold resolver_phase_ok. simpl. done.
Qed.

Lemma object_ok id w w' s :
  resolver_ok s → dr_objects s !! id = Some w → wt_closing w' = wt_closing w →
  (wt_closing w = true → tasks_left w = 0 → tasks_left w' = 0) → resolver_ok (set_object id w' s).
Proof.
  intros [Hl Hw Ht Hp] E Hc Hz. split; [by eapply lookups_frame; [..|exact Hl]|by eapply watches_update|done|done].
Qed.

Lemma resolver_step_ok e s s' : resolver_ok s → resolver_step e s = Some s' → resolver_ok s'.
Proof.
  intros Hok. destruct e as [host family l|l|id d|id d failure l|l|]; simpl.
  - intros [= <-]. by apply resolve_all_ok.
  - destruct (dr_timer s) eqn:Et; [|done]. intros [= <-].
    assert (dr_channel s = true) as Ec by (destruct Hok as [_ _ Ht _]; rewrite Et in Ht; by destruct (dr_channel s)).
    pose proof (open_phase s Hok Ec). destruct Hok as [Hl Hw _ _].
    apply dns_process_ok; [by eapply lookups_frame; [..|exact Hl]|by eapply watches_frame; [..|exact Hw]|done|done].
  - destruct (dr_objects s !! id) as [w|] eqn:Ew; [|done]. destruct (woken d w) as [w'|] eqn:Ed; [|done]. intros [= <-].
    eapply object_ok; [done..|by eapply woken_closing|]. intros Hc Hz. destruct (woken_ends d w w' Hc Ed). lia.
  - destruct (dr_objects s !! id) as [w|] eqn:Ew; [|done]. destruct (negb (wt_closing w) && _); [done|].
    destruct (ready d failure w) as [[w' called]|] eqn:Ed; [|done].
    assert (resolver_ok (set_object id w' s)) as Hok1.
    { eapply object_ok; [done..|by eapply ready_closing|]. intros Hc Hz. destruct (ready_ends d failure w w' called Hc Ed) as (_ & _ & ?). lia. }
    set (s1 := set_object id w' s) in *. destruct called; [|by intros [= <-]]. intros [= <-].
    assert (resolver_ok (dns_process l s1)) as [Hl2 Hw2 Ht2 Hp2].
    { destruct (dr_channel s1) eqn:Ec; [|unfold dns_process; by rewrite Ec].
      pose proof (open_phase s1 Hok1 Ec). destruct Hok1. by apply dns_process_ok. }
    split; [by eapply lookups_frame; [..|exact Hl2]| |done|done]. apply interest_ok; [done|].
    intros [e [t1 t2] c]. split; [done|]. simpl. intros ->. destruct d; unfold tasks_left; simpl; lia.
  - destruct (dr_phase s) eqn:Ep; try done. destruct (forallb is_release l); [|done]. intros [= <-]. by apply close_resolver_ok.
  - by apply close_resolver_end_ok.
Qed.
Lemma resolver_run_ok es s s' : resolver_ok s → resolver_run es s = Some s' → resolver_ok s'.
Proof.
  revert s. induction es as [|e es IH]; intros s Hok; simpl; [by intros [= <-]|].
  destruct (resolver_step e s) as [s1|] eqn:E; [|done]. apply IH. by eapply resolver_step_ok.
Qed.

Lemma perform_hosts l s : dr_hosts (ares_all l s) = dr_hosts s.
Proof.
  unfold ares_all. revert s. induction l as [|a l IH]; intros s; [done|]. simpl. rewrite IH.
  destruct a as [q answer|fd read write]; simpl; [by case_bool_decide|].
  by destruct (socket_state_same fd read write s) as [(_ & _ & _ & ?) _].
Qed.
Lemma retire_hosts fds s : dr_hosts (foldl (λ s fd, retire fd s) s fds) = dr_hosts s.
Proof.
  revert s. induction fds as [|fd fds IH]; intros s; [done|]. simpl. rewrite IH.
  by destruct (retire_same fd s) as [(_ & _ & _ & ?) _].
Qed.
Lemma cancel_hosts qs s : dr_hosts (foldl (λ s q, lookup_completed q (AresFailed "cancelled") s) s qs) = dr_hosts s.
Proof. revert s. induction qs as [|q qs IH]; intros s; [done|]. simpl. by rewrite IH. Qed.
Lemma step_hosts e s s' : resolver_step e s = Some s' → dr_hosts s' = dr_hosts s.
Proof.
  destruct e as [host family l|l|id d|id d failure l|l|]; simpl.
  - intros [= <-]. unfold resolve_all. destruct (dr_channel s); simpl; [|done].
    destruct (local_addresses _ host family); simpl; [by rewrite perform_hosts|done].
  - destruct (dr_timer s); intros [= <-]. unfold dns_process. simpl. destruct (dr_channel s); simpl; [by rewrite perform_hosts|done].
  - destruct (match dr_objects s !! id with Some w => woken d w | None => None end); by intros [= <-].
  - destruct (dr_objects s !! id); [|done]. destruct (negb _ && _); [done|]. destruct (ready d failure w) as [[w' []]|]; intros [= <-]; [|done].
    unfold dns_process. simpl. destruct (dr_channel s); simpl; [by rewrite perform_hosts|done].
  - destruct (dr_phase s); try done. destruct (forallb is_release l); intros [= <-]. unfold dns_close_begin, retire_all, cancel_all.
    simpl. rewrite retire_hosts. destruct (dr_channel s); simpl; [by rewrite perform_hosts, cancel_hosts|done].
  - unfold dns_close_end. destruct (dr_phase s); try done. by destruct (forallb _ _); intros [= <-].
Qed.
Lemma run_hosts es s s' : resolver_run es s = Some s' → dr_hosts s' = dr_hosts s.
Proof.
  revert s. induction es as [|e es IH]; intros s; simpl; [by intros [= <-]|].
  destruct (resolver_step e s) as [s1|] eqn:E; [|done]. intros Hr. rewrite (IH _ Hr). by eapply step_hosts.
Qed.

(** C24: From a new resolver, whatever c-ares reports and whenever its sockets are
    ready, the timer fires or lookups are asked for: no lookup's promise is set
    twice; after close() began all are set; an answer has at least one address,
    so that resolve_name has one to return; the count of pending lookups is the
    number that c-ares holds, and the timer is armed exactly as long as there
    are some; a name of the hosts file is answered at once with the addresses of
    its lines, in their order; and after close() no watch, task, timer or lookup
    is left, as the destructor asserts. *)
Theorem lookups_settled file es s :
  resolver_run es (make_resolver file) = Some s →
  NoDup (dr_results s).*1 ∧
  (dr_channel s = false → ∀ q, q < dr_next s → q ∈ (dr_results s).*1) ∧
  (∀ q l, (q, Ok l) ∈ dr_results s → ∃ ip, resolve_name_of (Ok l) = Ok (Some ip)) ∧
  dr_pending s = length (dr_queries s) ∧
  dr_timer s = dr_channel s && negb (dr_pending s =? 0) ∧
  (∀ host family l addresses, dr_channel s = true → parse_numerical host = None →
     filter (λ ip, family_matches family ip = true) (addresses_of (normalize host) (host_entries file)) = addresses →
     addresses ≠ [] → dr_results (resolve_all host family l s).2 = dr_results s ++ [(dr_next s, Ok addresses)]) ∧
  (dr_phase s = ResolverClosed →
     dr_channel s = false ∧ dr_watches s = ∅ ∧ dr_retired s = [] ∧ dr_pending s = 0 ∧ dr_timer s = false ∧
     ∀ id w, dr_objects s !! id = Some w → tasks_left w = 0).
Proof.
  intros Hr. pose proof (run_hosts _ _ _ Hr) as Hh. simpl in Hh.
  destruct (resolver_run_ok _ _ _ (make_resolver_ok file) Hr) as [Hl Hw Ht Hp]. unfold resolver_phase_ok in Hp.
  destruct Hl as [Hi Hn He]. split_and!.
  - pose proof (NoDup_seq 0 (dr_next s)) as Hd. rewrite <- Hi in Hd. by apply NoDup_app in Hd as [? _].
  - intros Ec q Hq. assert (dr_queries s = []) as Eq by (destruct (dr_phase s); naive_solver congruence).
    rewrite Eq, app_nil_r in Hi. rewrite Hi. apply elem_of_seq. lia.
  - intros q l Hq. apply He in Hq. destruct l as [|ip l]; [done|]. by exists ip.
  - done.
  - done.
  - intros host family l addresses Ec Hnum <- Hne. unfold resolve_all. rewrite Ec. simpl. unfold local_addresses.
    rewrite Hnum, Hh, read_hosts_lookup. by destruct (filter _ _).
  - intros Ep. rewrite Ep in Hp. destruct Hp as (Ec & Eq & Ew & Er). rewrite Eq in Hn. rewrite Ec in Ht. split_and!; try done.
    intros id w E. destruct (wo_objects s Hw id w E) as [[fd Hf]|(_ & [Hin|?])]; [by rewrite Ew, lookup_empty in Hf|by rewrite Er in Hin; set_solver|done].
Qed.

(** ** close() completes *)

Definition watching (s : resolver) : nat := sum_list (values tasks_left (dr_objects s)).
Definition is_watch_task (e : resolver_event) : bool :=
  match e with TaskWoken _ _ | TaskReady _ _ _ _ => true | _ => false end.
Fixpoint watch_steps (es : list resolver_event) : nat :=
  match es with [] => 0 | e :: es => (if is_watch_task e then 1 else 0) + watch_steps es end.

Lemma watching_update s id w w' :
  dr_objects s !! id = Some w → S (tasks_left w') = tasks_left w → S (watching (set_object id w' s)) = watching s.
Proof.
  intros E Ht. unfold watching. simpl. rewrite (values_replace _ _ _ w w' E), (values_delete _ _ _ _ E). simpl. lia.
Qed.

Lemma all_closing s id w : resolver_ok s → dr_phase s ≠ ResolverOpen → dr_objects s !! id = Some w → wt_closing w = true.
Proof.
  intros [_ Hw _ Hp] Hph E. unfold resolver_phase_ok in Hp. destruct (wo_objects s Hw id w E) as [[fd Hf]|[? _]]; [|done].
  assert (dr_watches s = ∅) as Ew by (destruct (dr_phase s); naive_solver). by rewrite Ew, lookup_empty in Hf.
Qed.

Lemma shut_step e s s' :
  resolver_ok s → dr_phase s ≠ ResolverOpen → resolver_step e s = Some s' →
  dr_phase s' ≠ ResolverOpen ∧ watching s' + (if is_watch_task e then 1 else 0) = watching s.
Proof.
  intros Hok Hp. assert (dr_channel s = false ∧ dr_timer s = false) as [Ec Et].
  { destruct Hok as [_ _ Ht Hph]. unfold resolver_phase_ok in Hph. rewrite Ht. destruct (dr_phase s), (dr_channel s); naive_solver. }
  destruct e as [host family l|l|id d|id d failure l|l|]; simpl.
  - intros [= <-]. unfold resolve_all. rewrite Ec. split; [done|]. unfold watching. simpl. lia.
  - by rewrite Et.
  - destruct (dr_objects s !! id) as [w|] eqn:E; [|done]. destruct (woken d w) as [w'|] eqn:Ed; [|done]. intros [= <-].
    destruct (woken_ends d w w' (all_closing s id w Hok Hp E) Ed) as [_ Ht]. split; [done|].
    pose proof (watching_update s id w w' E Ht). lia.
  - destruct (dr_objects s !! id) as [w|] eqn:E; [|done]. destruct (negb _ && _); [done|].
    destruct (ready d failure w) as [[w' called]|] eqn:Ed; [|done].
    destruct (ready_ends d failure w w' called (all_closing s id w Hok Hp E) Ed) as (-> & _ & Ht). intros [= <-]. split; [done|].
    pose proof (watching_update s id w w' E Ht). lia.
  - by destruct (dr_phase s).
  - unfold dns_close_end. destruct (dr_phase s); try done. destruct (forallb _ _); intros [= <-]. split; [done|].
    unfold watching. simpl. lia.
Qed.

Lemma shut_run es s s' :
  resolver_ok s → dr_phase s ≠ ResolverOpen → resolver_run es s = Some s' → watching s' + watch_steps es = watching s.
Proof.
  revert s. induction es as [|e es IH]; intros s Hok Hp; simpl; [intros [= <-]; lia|].
  destruct (resolver_step e s) as [s1|] eqn:E; [|done]. intros Hr.
  destruct (shut_step e s s1 Hok Hp E) as [Hp1 Hs]. specialize (IH s1 (resolver_step_ok _ _ _ Hok E) Hp1 Hr). lia.
Qed.

(** Close() of the resolver completes: while it waits, the tasks of the
    watches make at most as many more steps as there are tasks left, whatever
    else happens, and one of them or the end of close() can happen at any time. *)
Theorem resolver_close_completes file es s :
  resolver_run es (make_resolver file) = Some s → dr_phase s = ResolverClosing →
  (∃ e s', (is_watch_task e = true ∨ e = CloseResolverEnd) ∧ resolver_step e s = Some s') ∧
  ∀ es' s', resolver_run es' s = Some s' → watch_steps es' ≤ watching s.
Proof.
  intros Hr Ep. pose proof (resolver_run_ok _ _ _ (make_resolver_ok file) Hr) as Hok.
  assert (dr_phase s ≠ ResolverOpen) as Hp by by rewrite Ep. split.
  - destruct (forallb (ended s) (dr_retired s)) eqn:Ee.
    { exists CloseResolverEnd. simpl. unfold dns_close_end. rewrite Ep, Ee. eauto. }
    apply not_true_iff_false in Ee. rewrite forallb_forall in Ee.
    assert (∃ id, id ∈ dr_retired s ∧ ended s id = false) as (id & Hin & Hid).
    { destruct (decide (Exists (λ id, ended s id = false) (dr_retired s))) as [Hx|Hx].
      - apply Exists_exists in Hx as (id & ? & ?). eauto.
      - destruct Ee. intros id Hid%list_elem_of_In. apply not_false_is_true. intros Hf. apply Hx, Exists_exists. eauto. }
    destruct (wo_retired s (rs_watches s Hok) id Hin) as (w & E & Hc).
    assert (tasks_left w ≠ 0) as Hl by (intros Hz; apply (ended_spec s id w E) in Hz; congruence).
    destruct (stopped_progress w Hc Hl) as (d & [[w' Hw]|Hw]).
    + exists (TaskWoken id d). simpl. rewrite E, Hw. eauto.
    + destruct (Hw None) as [[w' called] Hw']. exists (TaskReady id d None []). simpl. rewrite E, Hc, Hw'. simpl.
      apply ready_ends in Hw' as [-> _]; [|done]. eauto.
  - intros es' s' Hr'. pose proof (shut_run es' s s' Hok Hp Hr'). lia.
Qed.
End theorems.

(** ** A run *)

Definition demo_parse (s : string) : option Z :=
  if bool_decide (s = "127.0.0.1") then Some 1%Z else if bool_decide (s = "::1") then Some 2%Z else None.
#[local] Instance demo_inet : InetAddress :=
  {| inet_address := Z; parse_numerical := demo_parse; in_family ip := if (ip =? 2)%Z then AF_INET6 else AF_INET |}.
Definition newline : string := String "010"%char "".
Definition demo_hosts : string :=
  "127.0.0.1 localhost Gate # the gate" +:+ newline +:+ "# ::1 nobody" +:+ newline +:+ "::1  LOCALHOST".
Definition demo_events : list resolver_event :=
  [Resolve "LocalHost" AF_INET []; Resolve "db" AF_UNSPEC [AresSocket 7 true false]; Resolve "other" AF_INET [];
   TaskWoken 0 Readable;
   TaskReady 0 Readable None [AresAnswer 1 (AresNodes [MkNode AF_INET 9%Z; MkNode 1 8%Z])];
   CloseResolver [AresSocket 7 false false]; Resolve "late" AF_INET []; TaskWoken 0 Writable].
Definition demo_resolver (es : list resolver_event) : resolver :=
  default (make_resolver demo_hosts) (resolver_run es (make_resolver demo_hosts)).

Lemma lookups_settled_witness :
  resolver_run (demo_events ++ [TaskWoken 0 Readable; CloseResolverEnd]) (make_resolver demo_hosts) =
    Some (demo_resolver (demo_events ++ [TaskWoken 0 Readable; CloseResolverEnd])) ∧
  dr_results (demo_resolver (demo_events ++ [TaskWoken 0 Readable; CloseResolverEnd])) =
    [(0, Ok [1%Z]); (1, Ok [9%Z]); (2, Throw Stopped); (3, Throw Stopped)] ∧
  dr_pending (demo_resolver (demo_events ++ [TaskWoken 0 Readable; CloseResolverEnd])) = 0.
Proof.
  assert (resolver_run (demo_events ++ [TaskWoken 0 Readable; CloseResolverEnd]) (make_resolver demo_hosts) =
    Some (demo_resolver (demo_events ++ [TaskWoken 0 Readable; CloseResolverEnd]))) as Hr by (vm_compute; reflexivity).
  split; [exact Hr|]. split; [vm_compute; reflexivity|].
  destruct (lookups_settled demo_hosts _ _ Hr) as (_ & _ & _ & _ & _ & _ & Hc).
  destruct Hc as (_ & _ & _ & Hp & _); [vm_compute; reflexivity|exact Hp].
Defined.

Lemma resolver_close_completes_witness :
  dr_phase (demo_resolver demo_events) = ResolverClosing ∧
  ∃ e s', (is_watch_task e = true ∨ e = CloseResolverEnd) ∧ resolver_step e (demo_resolver demo_events) = Some s'.
Proof.
  split; [vm_compute; reflexivity|].
  destruct (resolver_close_completes demo_hosts demo_events (demo_resolver demo_events)) as [He _];
    [vm_compute; reflexivity..|exact He].
Defined.
