(* ===== verification/GrpcEngine.v ===== *)
(** * gRPC on the reactor

    common/reactor/grpc_engine.cc: the event engine that gRPC is given on a
    shard: callbacks to run now or later, connections, endpoints, listeners,
    name lookups, and the counters that the shutdown waits for.

    A state is a shard with its engines. What a coroutine or a scheduled task of
    the engine holds is in [sh_io] and [sh_tasks]; the callbacks that gRPC passes
    are numbered, and [sh_called] is the list of those that were called, with
    what they were given. A callback runs within the step that calls it, and
    what it asks of the engine follows as further steps. The totals of
    [observations] that nothing reads are left out, as are the memory allocators;
    a socket for a connection can be made. *)

From S2P Require Import Prelude Decimal GateProtocol Yaml Options.
From Stdlib Require Import Ascii.

(** absl::Status *)
Inductive status :=
| StatusOk
| Cancelled (message : string)
| Unavailable (message : string)
| DeadlineExceeded (message : string)
| NotFound (message : string)
| Unimplemented (message : string)
| FailedPrecondition (message : string)
| InvalidStatus (message : string).

(** A numeric address with its port. *)
Definition resolved_address : Type := string * Z.

(** What a callback is given. *)
Inductive answer :=
| Nothing
| WithStatus (s : status)
| WithEndpoint (endpoint : nat)
| WithAddresses (l : list resolved_address).

(** ** The state *)

Record observations := MkObserved {
  ob_endpoints : nat; ob_active_io : nat; ob_active_tasks : nat; ob_resolvers : nat; ob_listeners : nat }.

(** reactor_engine: the last id, and whether close_dns was called *)
Record engine := MkEngine { en_next_id : Z; en_closing : bool }.

(** reactor_endpoint::state, with what was written to the socket *)
Record endpoint_state := MkEndpointState {
  es_closing : bool; es_reading : bool; es_writing : bool; es_sent : list bytes }.
(** reactor_listener::state *)
Record listener_state := MkListener {
  ls_shutdown : option nat; ls_sockets : nat; ls_active : nat; ls_closing : bool; ls_started : bool; ls_status : status;
  ls_accepted : list nat }.
(** pending_connection *)
Record pending_connection := MkPending {
  pc_callback : option nat; pc_timeout : bool; pc_cancelled : bool; pc_expired : bool }.

(** An input or output operation whose coroutine has been scheduled, and may
    have started. *)
Inductive io_op :=
| IoConnect (key : nat * Z) (p : pending_connection)
| IoRead (endpoint : nat) (callback : nat)
| IoWrite (endpoint : nat) (callback : nat) (slices : list bytes)
| IoAccept (listener : nat)
| IoLookup (engine : nat) (callback : nat) (name default_port : string).
Record io := MkIo { io_started : bool; io_what : io_op }.

Inductive run_task :=
| RunCallback (callback : nat)
| RunConnect (operation : nat)
| RunUnimplemented (callback : nat) (message : string).

(** The socket of an endpoint, those of a listener, and that of a connection
    attempt, which has the number of its operation. [sh_shut] are those that were
    shut down: what is pending on them does not wait for the other end. *)
Inductive socket := EndpointFd (endpoint : nat) | ListenerFds (listener : nat) | ConnectFd (operation : nat).
#[global] Instance socket_eq_dec : EqDecision socket.
Proof. solve_decision. Defined.
#[global] Program Instance socket_countable : Countable socket :=
  inj_countable' (λ fd, match fd with EndpointFd n => inl (inl n) | ListenerFds n => inl (inr n) | ConnectFd n => inr n end)
    (λ x, match x with inl (inl n) => EndpointFd n | inl (inr n) => ListenerFds n | inr n => ConnectFd n end) _.
Next Obligation. by intros []. Qed.

Record shard := MkShard {
  sh_observed : observations;
  sh_ids : nat;
  sh_callbacks : nat;
  sh_called : list (nat * answer);
  sh_dropped : list nat;
  sh_lost : list nat;
  sh_engines : gmap nat engine;
  sh_timers : gmap (nat * Z) nat;
  sh_connections : gmap (nat * Z) nat;
  sh_io : gmap nat io;
  sh_tasks : gmap nat run_task;
  sh_endpoints : gmap nat endpoint_state;
  sh_listeners : gmap nat listener_state;
  sh_resolvers : gmap nat nat;
  sh_shut : gset socket }.

Definition put_observed (x : observations) (s : shard) : shard :=
  MkShard x (sh_ids s) (sh_callbacks s) (sh_called s) (sh_dropped s) (sh_lost s) (sh_engines s) (sh_timers s) (sh_connections s) (sh_io s) (sh_tasks s) (sh_endpoints s) (sh_listeners s) (sh_resolvers s) (sh_shut s).
Definition put_ids (x : nat) (s : shard) : shard :=
  MkShard (sh_observed s) x (sh_callbacks s) (sh_called s) (sh_dropped s) (sh_lost s) (sh_engines s) (sh_timers s) (sh_connections s) (sh_io s) (sh_tasks s) (sh_endpoints s) (sh_listeners s) (sh_resolvers s) (sh_shut s).
Definition put_callbacks (x : nat) (s : shard) : shard :=
  MkShard (sh_observed s) (sh_ids s) x (sh_called s) (sh_dropped s) (sh_lost s) (sh_engines s) (sh_timers s) (sh_connections s) (sh_io s) (sh_tasks s) (sh_endpoints s) (sh_listeners s) (sh_resolvers s) (sh_shut s).
Definition put_called (x : list (nat * answer)) (s : shard) : shard :=
  MkShard (sh_observed s) (sh_ids s) (sh_callbacks s) x (sh_dropped s) (sh_lost s) (sh_engines s) (sh_timers s) (sh_connections s) (sh_io s) (sh_tasks s) (sh_endpoints s) (sh_listeners s) (sh_resolvers s) (sh_shut s).
Definition put_dropped (x : list nat) (s : shard) : shard :=
  MkShard (sh_observed s) (sh_ids s) (sh_callbacks s) (sh_called s) x (sh_lost s) (sh_engines s) (sh_timers s) (sh_connections s) (sh_io s) (sh_tasks s) (sh_endpoints s) (sh_listeners s) (sh_resolvers s) (sh_shut s).
Definition put_lost (x : list nat) (s : shard) : shard :=
  MkShard (sh_observed s) (sh_ids s) (sh_callbacks s) (sh_called s) (sh_dropped s) x (sh_engines s) (sh_timers s) (sh_connections s) (sh_io s) (sh_tasks s) (sh_endpoints s) (sh_listeners s) (sh_resolvers s) (sh_shut s).
Definition put_engines (x : gmap nat engine) (s : shard) : shard :=
  MkShard (sh_observed s) (sh_ids s) (sh_callbacks s) (sh_called s) (sh_dropped s) (sh_lost s) x (sh_timers s) (sh_connections s) (sh_io s) (sh_tasks s) (sh_endpoints s) (sh_listeners s) (sh_resolvers s) (sh_shut s).
Definition put_timers (x : gmap (nat * Z) nat) (s : shard) : shard :=
  MkShard (sh_observed s) (sh_ids s) (sh_callbacks s) (sh_called s) (sh_dropped s) (sh_lost s) (sh_engines s) x (sh_connections s) (sh_io s) (sh_tasks s) (sh_endpoints s) (sh_listeners s) (sh_resolvers s) (sh_shut s).
Definition put_connections (x : gmap (nat * Z) nat) (s : shard) : shard :=
  MkShard (sh_observed s) (sh_ids s) (sh_callbacks s) (sh_called s) (sh_dropped s) (sh_lost s) (sh_engines s) (sh_timers s) x (sh_io s) (sh_tasks s) (sh_endpoints s) (sh_listeners s) (sh_resolvers s) (sh_shut s).
Definition put_io (x : gmap nat io) (s : shard) : shard :=
  MkShard (sh_observed s) (sh_ids s) (sh_callbacks s) (sh_called s) (sh_dropped s) (sh_lost s) (sh_engines s) (sh_timers s) (sh_connections s) x (sh_tasks s) (sh_endpoints s) (sh_listeners s) (sh_resolvers s) (sh_shut s).
Definition put_tasks (x : gmap nat run_task) (s : shard) : shard :=
  MkShard (sh_observed s) (sh_ids s) (sh_callbacks s) (sh_called s) (sh_dropped s) (sh_lost s) (sh_engines s) (sh_timers s) (sh_connections s) (sh_io s) x (sh_endpoints s) (sh_listeners s) (sh_resolvers s) (sh_shut s).
Definition put_endpoints (x : gmap nat endpoint_state) (s : shard) : shard :=
  MkShard (sh_observed s) (sh_ids s) (sh_callbacks s) (sh_called s) (sh_dropped s) (sh_lost s) (sh_engines s) (sh_timers s) (sh_connections s) (sh_io s) (sh_tasks s) x (sh_listeners s) (sh_resolvers s) (sh_shut s).
Definition put_listeners (x : gmap nat listener_state) (s : shard) : shard :=
  MkShard (sh_observed s) (sh_ids s) (sh_callbacks s) (sh_called s) (sh_dropped s) (sh_lost s) (sh_engines s) (sh_timers s) (sh_connections s) (sh_io s) (sh_tasks s) (sh_endpoints s) x (sh_resolvers s) (sh_shut s).
Definition put_resolvers (x : gmap nat nat) (s : shard) : shard :=
  MkShard (sh_observed s) (sh_ids s) (sh_callbacks s) (sh_called s) (sh_dropped s) (sh_lost s) (sh_engines s) (sh_timers s) (sh_connections s) (sh_io s) (sh_tasks s) (sh_endpoints s) (sh_listeners s) x (sh_shut s).

Definition put_shut (x : gset socket) (s : shard) : shard :=
  MkShard (sh_observed s) (sh_ids s) (sh_callbacks s) (sh_called s) (sh_dropped s) (sh_lost s) (sh_engines s) (sh_timers s) (sh_connections s) (sh_io s) (sh_tasks s) (sh_endpoints s) (sh_listeners s) (sh_resolvers s) x.

Definition no_observations : observations := MkObserved 0 0 0 0 0.
Definition fresh_shard : shard := MkShard no_observations 0 0 [] [] [] ∅ ∅ ∅ ∅ ∅ ∅ ∅ ∅ ∅.

Definition count_endpoints (f : nat → nat) (s : shard) : shard :=
  let o := sh_observed s in
  put_observed (MkObserved (f (ob_endpoints o)) (ob_active_io o) (ob_active_tasks o) (ob_resolvers o) (ob_listeners o)) s.
Definition count_io (f : nat → nat) (s : shard) : shard :=
  let o := sh_observed s in
  put_observed (MkObserved (ob_endpoints o) (f (ob_active_io o)) (ob_active_tasks o) (ob_resolvers o) (ob_listeners o)) s.
Definition count_tasks (f : nat → nat) (s : shard) : shard :=
  let o := sh_observed s in
  put_observed (MkObserved (ob_endpoints o) (ob_active_io o) (f (ob_active_tasks o)) (ob_resolvers o) (ob_listeners o)) s.
Definition count_resolvers (f : nat → nat) (s : shard) : shard :=
  let o := sh_observed s in
  put_observed (MkObserved (ob_endpoints o) (ob_active_io o) (ob_active_tasks o) (f (ob_resolvers o)) (ob_listeners o)) s.
Definition count_listeners (f : nat → nat) (s : shard) : shard :=
  let o := sh_observed s in
  put_observed (MkObserved (ob_endpoints o) (ob_active_io o) (ob_active_tasks o) (ob_resolvers o) (f (ob_listeners o))) s.

(** fd.shutdown(SHUT_RDWR) *)
Definition shut_down (fd : socket) (s : shard) : shard := put_shut ({[fd]} ∪ sh_shut s) s.

(** A callback that gRPC passes, and its call. *)
Definition take_callback (s : shard) : nat * shard := (sh_callbacks s, put_callbacks (S (sh_callbacks s)) s).
Definition call (cb : nat) (a : answer) (s : shard) : shard := put_called (sh_called s ++ [(cb, a)]) s.

(** seastar::schedule of an operation, and its end *)
Definition begin_io (op : io_op) (s : shard) : shard :=
  put_ids (S (sh_ids s)) (put_io (<[sh_ids s := MkIo false op]> (sh_io s)) (count_io S s)).
Definition end_io (i : nat) (s : shard) : shard := put_io (delete i (sh_io s)) (count_io pred s).
Definition update_io (i : nat) (op : io_op) (s : shard) : shard := put_io (<[i := MkIo true op]> (sh_io s)) s.
Definition schedule (t : run_task) (s : shard) : shard :=
  put_ids (S (sh_ids s)) (put_tasks (<[sh_ids s := t]> (sh_tasks s)) (count_tasks S s)).

(** ** reactor_endpoint *)

Definition fresh_endpoint : endpoint_state := MkEndpointState false false false [].
Definition make_endpoint (s : shard) : nat * shard :=
  (sh_ids s, put_ids (S (sh_ids s)) (put_endpoints (<[sh_ids s := fresh_endpoint]> (sh_endpoints s)) (count_endpoints S s))).

(** ~reactor_endpoint *)
Definition destroy_endpoint (e : nat) (s : shard) : option shard :=
  match sh_endpoints s !! e with
  | Some (MkEndpointState false r w d) =>
      Some (count_endpoints pred (shut_down (EndpointFd e) (put_endpoints (<[e := MkEndpointState true r w d]> (sh_endpoints s)) s)))
  | _ => None
  end.

(** Read and Write of an endpoint that gRPC has; a second one at a time aborts
    the process. *)
Definition endpoint_read (e : nat) (s : shard) : option shard :=
  match sh_endpoints s !! e with
  | Some (MkEndpointState false false w d) =>
      let '(cb, s) := take_callback s in
      Some (begin_io (IoRead e cb) (put_endpoints (<[e := MkEndpointState false true w d]> (sh_endpoints s)) s))
  | _ => None
  end.
Definition endpoint_write (e : nat) (slices : list bytes) (s : shard) : option shard :=
  match sh_endpoints s !! e with
  | Some (MkEndpointState false r false d) =>
      let '(cb, s) := take_callback s in
      Some (begin_io (IoWrite e cb slices) (put_endpoints (<[e := MkEndpointState false r true d]> (sh_endpoints s)) s))
  | _ => None
  end.

Definition closed_or (e : endpoint_state) (st : status) : answer :=
  WithStatus (if es_closing e then Cancelled "endpoint closed" else st).

(** read, from the completion of read_some on *)
Definition read_done (i e cb : nat) (r : string + bytes) (s : shard) : option shard :=
  match sh_endpoints s !! e with
  | Some st =>
      let status := match r with
                    | inr [] => Unavailable "peer closed"
                    | inr _ => StatusOk
                    | inl error => Unavailable error
                    end in
      let st := MkEndpointState (es_closing st) false (es_writing st) (es_sent st) in
      Some (call cb (closed_or st status) (end_io i (put_endpoints (<[e := st]> (sh_endpoints s)) s)))
  | None => None
  end.

(** write: a turn of the loop, with the completion of send_all, or its end *)
Definition write_end (i e cb : nat) (status : status) (s : shard) : option shard :=
  match sh_endpoints s !! e with
  | Some st =>
      let st := MkEndpointState (es_closing st) (es_reading st) false (es_sent st) in
      Some (call cb (closed_or st status) (end_io i (put_endpoints (<[e := st]> (sh_endpoints s)) s)))
  | None => None
  end.
Definition write_step (i e cb : nat) (slices : list bytes) (failure : option string) (s : shard) : option shard :=
  match slices, sh_endpoints s !! e with
  | [], _ => write_end i e cb StatusOk s
  | slice :: slices, Some st =>
      match failure with
      | Some error => write_end i e cb (Unavailable error) s
      | None =>
          let st := MkEndpointState (es_closing st) (es_reading st) (es_writing st) (es_sent st ++ [slice]) in
          Some (update_io i (IoWrite e cb slices) (put_endpoints (<[e := st]> (sh_endpoints s)) s))
      end
  | _, None => None
  end.

(** ** reactor_listener *)

Definition create_listener (s : shard) : shard :=
  let '(cb, s) := take_callback s in
  put_ids (S (sh_ids s)) (put_listeners (<[sh_ids s := MkListener (Some cb) 0 0 false false StatusOk []]> (sh_listeners s)) (count_listeners S s)).

(** state::complete *)
Definition complete (l : nat) (s : shard) : shard :=
  match sh_listeners s !! l with
  | Some (MkListener (Some cb) sockets 0 true started st a) =>
      call cb (WithStatus st)
        (put_listeners (<[l := MkListener None sockets 0 true started st a]> (sh_listeners s)) (count_listeners pred s))
  | _ => s
  end.

(** Bind: [bound] tells whether the socket could be bound *)
Definition listener_bind (l : nat) (bound : bool) (s : shard) : option (status * shard) :=
  match sh_listeners s !! l with
  | Some (MkListener cb sockets active false started st a) =>
      Some (if started then (InvalidStatus "invalid listener bind", s)
            else if bound then
              (StatusOk, put_listeners (<[l := MkListener cb (S sockets) active false started st a]> (sh_listeners s)) s)
            else (Unavailable "bind failed", s))
  | _ => None
  end.

(** Start: an accept loop for each socket *)
Definition start_accept (l : nat) (s : shard) : shard :=
  begin_io (IoAccept l)
    (put_listeners (alter (λ st, MkListener (ls_shutdown st) (ls_sockets st) (S (ls_active st)) (ls_closing st) (ls_started st) (ls_status st) (ls_accepted st)) l (sh_listeners s)) s).
Definition listener_start (l : nat) (s : shard) : option (status * shard) :=
  match sh_listeners s !! l with
  | Some (MkListener cb sockets active false started st a) =>
      Some (if started then (FailedPrecondition "listener already started", s)
            else (StatusOk, Nat.iter sockets (start_accept l)
                    (put_listeners (<[l := MkListener cb sockets active false true st a]> (sh_listeners s)) s)))
  | _ => None
  end.

(** ~reactor_listener *)
Definition destroy_listener (l : nat) (s : shard) : option shard :=
  match sh_listeners s !! l with
  | Some (MkListener cb sockets active false started st a) =>
      Some (complete l (put_listeners (<[l := MkListener cb sockets active true started st a]> (sh_listeners s)) (shut_down (ListenerFds l) s)))
  | _ => None
  end.

(** accept: a turn of the loop, with the completion of the accept *)
Definition accept_end (i l : nat) (st : listener_state) (status : status) (s : shard) : shard :=
  complete l (end_io i (put_listeners
    (<[l := MkListener (ls_shutdown st) (ls_sockets st) (pred (ls_active st)) (ls_closing st) (ls_started st) status (ls_accepted st)]> (sh_listeners s)) s)).
Definition accept_step (i l : nat) (failure : option string) (s : shard) : option shard :=
  match sh_listeners s !! l with
  | Some st =>
      Some (if ls_closing st then accept_end i l st (ls_status st) s
            else
              match failure with
              | Some e => accept_end i l st (Unavailable e) s
              | None =>
                  let '(e, s) := make_endpoint s in
                  put_listeners (<[l := MkListener (ls_shutdown st) (ls_sockets st) (ls_active st) (ls_closing st) (ls_started st) (ls_status st) (ls_accepted st ++ [e])]> (sh_listeners s)) s
              end)
  | None => None
  end.

(** ** reactor_dns *)

Definition get_resolver (engine : nat) (dns_server : string) (s : shard) : status * shard :=
  if bool_decide (dns_server = "") then
    (StatusOk, put_ids (S (sh_ids s)) (put_resolvers (<[sh_ids s := engine]> (sh_resolvers s)) (count_resolvers S s)))
  else (Unimplemented "custom gRPC DNS server option", s).
Definition destroy_resolver (r : nat) (s : shard) : option shard :=
  match sh_resolvers s !! r with
  | Some _ => Some (put_resolvers (delete r (sh_resolvers s)) (count_resolvers pred s))
  | None => None
  end.
Definition lookup_hostname (r : nat) (name default_port : string) (s : shard) : option shard :=
  match sh_resolvers s !! r with
  | Some engine => let '(cb, s) := take_callback s in Some (begin_io (IoLookup engine cb name default_port) s)
  | None => None
  end.
(** LookupSRV and LookupTXT *)
Definition lookup_unimplemented (r : nat) (message : string) (s : shard) : option shard :=
  match sh_resolvers s !! r with
  | Some _ => let '(cb, s) := take_callback s in Some (schedule (RunUnimplemented cb message) s)
  | None => None
  end.

(** The host and the port of a name. *)
Definition split_name (name default_port : string) : string * string :=
  match rfind ":" (bytes_of name) with
  | None => (name, default_port)
  | Some n => (text_of (take n (bytes_of name)), text_of (drop (n + 1) (bytes_of name)))
  end.
(** std::stoi *)
Definition stoi_digits (negative : bool) (s : string) : outcome Z :=
  n ← digits_value s;
  let n := if negative then (- n)%Z else n in
  if ((- 2 ^ 31 <=? n) && (n <? 2 ^ 31))%Z then Ok n else Throw (LogicError "stoi: out of range").
Definition stoi (s : string) : outcome Z :=
  match drop_while isspace (bytes_of s) with
  | c :: rest =>
      if bool_decide (c = "-"%char) then stoi_digits true (text_of rest)
      else if bool_decide (c = "+"%char) then stoi_digits false (text_of rest)
      else stoi_digits false (text_of (c :: rest))
  | [] => Throw (InvalidArgument "stoi")
  end.

(** lookup, up to resolve_all and from its completion on *)
Definition lookup_end (i cb : nat) (engine : nat) (r : answer) (s : shard) : shard :=
  let closing := match sh_engines s !! engine with Some e => en_closing e | None => false end in
  call cb (if closing then WithStatus (Cancelled "resolver closed") else r) (end_io i s).
Definition lookup_done (i engine cb : nat) (name default_port : string) (r : string + list string) (s : shard) : shard :=
  let '(host, port) := split_name name default_port in
  lookup_end i cb engine
    match stoi port, r with
    | Throw _, _ => WithStatus (NotFound "stoi")
    | Ok port, inr hosts => WithAddresses ((λ h, (h, port `mod` 65536)%Z) <$> hosts)
    | Ok _, inl error => WithStatus (NotFound error)
    end s.

(** LookupHostnameBlocking: a numeric address only. [inet_pton] is the C
    library's, for each family. *)
Section blocking.
Context (inet_pton4 inet_pton6 : string → option string).

(** std::from_chars of all of a text into an unsigned *)
Definition from_chars_unsigned (s : string) : option Z :=
  match s with
  | "" => None
  | _ => match read_digits 0 s with Some n => if (Z.of_N n <? 2 ^ 32)%Z then Some (Z.of_N n) else None | None => None end
  end.
Definition without_brackets (host : bytes) : bytes :=
  if bool_decide (head host = Some "["%char) && bool_decide (last host = Some "]"%char)
  then take (length host - 2) (drop 1 host) else host.
Definition lookup_hostname_blocking (input default_port : string) : status + list resolved_address :=
  let '(host, port_text) := split_name input default_port in
  let host := text_of (without_brackets (bytes_of host)) in
  match from_chars_unsigned port_text with
  | None => inl (InvalidStatus "listener requires numeric port")
  | Some port =>
      if (65535 <? port)%Z then inl (InvalidStatus "listener requires numeric port")
      else
        match inet_pton4 host, inet_pton6 host with
        | Some a, _ | None, Some a => inr [(a, port)]
        | None, None => inl (InvalidStatus "resolve listener hostname asynchronously before binding")
        end
  end.
End blocking.

(** ** reactor_engine *)

Definition make_engine (s : shard) : shard :=
  put_ids (S (sh_ids s)) (put_engines (<[sh_ids s := MkEngine 0 false]> (sh_engines s)) s).
Definition close_dns (e : nat) (s : shard) : option shard :=
  match sh_engines s !! e with
  | Some en => Some (put_engines (<[e := MkEngine (en_next_id en) true]> (sh_engines s)) s)
  | None => None
  end.
(** ++_next_id *)
Definition next_id (e : nat) (s : shard) : option (Z * shard) :=
  match sh_engines s !! e with
  | Some en => let id := (en_next_id en + 1)%Z in Some (id, put_engines (<[e := MkEngine id (en_closing en)]> (sh_engines s)) s)
  | None => None
  end.

(** Run, and the task *)
Definition engine_run (s : shard) : shard := let '(cb, s) := take_callback s in schedule (RunCallback cb) s.
Definition task_end (t : nat) (s : shard) : shard := put_tasks (delete t (sh_tasks s)) (count_tasks pred s).
Definition start_io (i : nat) (s : shard) : option shard :=
  match sh_io s !! i with
  | Some (MkIo false op) => Some (put_io (<[i := MkIo true op]> (sh_io s)) s)
  | _ => None
  end.
Definition run_task_step (t : nat) (s : shard) : option shard :=
  match sh_tasks s !! t with
  | Some (RunCallback cb) => Some (task_end t (call cb Nothing s))
  | Some (RunUnimplemented cb message) => Some (task_end t (call cb (WithStatus (Unimplemented message)) s))
  | Some (RunConnect i) => match start_io i s with Some s => Some (task_end t s) | None => None end
  | None => None
  end.

(** RunAfter, the timer, and Cancel *)
Definition run_after (e : nat) (s : shard) : option (Z * shard) :=
  match next_id e s with
  | Some (id, s) => let '(cb, s) := take_callback s in Some (id, put_timers (<[(e, id) := cb]> (sh_timers s)) s)
  | None => None
  end.
Definition timer_fires (k : nat * Z) (s : shard) : option shard :=
  match sh_timers s !! k with
  | Some cb => Some (call cb Nothing (put_timers (delete k (sh_timers s)) s))
  | None => None
  end.
Definition engine_cancel (k : nat * Z) (s : shard) : bool * shard :=
  match sh_timers s !! k with
  | Some cb => (true, put_dropped (sh_dropped s ++ [cb]) (put_timers (delete k (sh_timers s)) s))
  | None => (false, s)
  end.

(** Connect: the connection is entered and a task will start its coroutine *)
Definition engine_connect (e : nat) (s : shard) : option (Z * shard) :=
  match next_id e s with
  | Some (id, s) =>
      let '(cb, s) := take_callback s in
      let i := sh_ids s in
      let s := begin_io (IoConnect (e, id) (MkPending (Some cb) true false false)) s in
      Some (id, schedule (RunConnect i) (put_connections (<[(e, id) := i]> (sh_connections s)) s))
  | None => None
  end.
(** the timeout's callback *)
Definition connect_expires (i : nat) (s : shard) : option shard :=
  match sh_io s !! i with
  | Some (MkIo started (IoConnect k (MkPending cb true cancelled expired))) =>
      Some (shut_down (ConnectFd i) (put_io (<[i := MkIo started (IoConnect k (MkPending cb false cancelled true))]> (sh_io s)) s))
  | _ => None
  end.
Definition cancel_connect (k : nat * Z) (s : shard) : bool * shard :=
  match sh_connections s !! k with
  | None => (false, s)
  | Some i =>
      match sh_io s !! i with
      | Some (MkIo started (IoConnect k' (MkPending (Some cb) t cancelled expired))) =>
          (true, shut_down (ConnectFd i) (put_dropped (sh_dropped s ++ [cb])
             (put_io (<[i := MkIo started (IoConnect k' (MkPending None false true expired))]> (sh_io s))
               (put_connections (delete k (sh_connections s)) s))))
      | _ => (true, put_connections (delete k (sh_connections s)) s)
      end
  end.

(** What the connection of the socket ends with: it fails, or it succeeds and the
    endpoint can or, when its addresses cannot be read, cannot be made. *)
Inductive connect_result := ConnectFailed (error : string) | EndpointFailed | ConnectedTo.

(** connect, from the completion of fd.connect on *)
Definition connect_done (i : nat) (r : connect_result) (s : shard) : option shard :=
  match sh_io s !! i with
  | Some (MkIo true (IoConnect k p)) =>
      let s := put_connections (delete k (sh_connections s)) (end_io i s) in
      match pc_cancelled p, pc_callback p with
      | false, Some cb =>
          Some (if pc_expired p then call cb (WithStatus (DeadlineExceeded "connect timeout")) s
                else
                  match r with
                  | ConnectFailed error => call cb (WithStatus (Unavailable error)) s
                  | EndpointFailed => put_lost (sh_lost s ++ [cb]) s
                  | ConnectedTo => let '(e, s) := make_endpoint s in call cb (WithEndpoint e) s
                  end)
      | _, _ => Some s
      end
  | _ => None
  end.

(** pending_count, and what the two loops of the shutdown wait for *)
Definition engine_pending (e : nat) (s : shard) : nat :=
  size (filter (λ kv : nat * Z * nat, kv.1.1 = e) (sh_timers s)) + size (filter (λ kv : nat * Z * nat, kv.1.1 = e) (sh_connections s)).
Definition drained (s : shard) : bool :=
  let o := sh_observed s in
  (ob_active_io o =? 0) && (ob_active_tasks o =? 0) && (ob_endpoints o =? 0) && (ob_resolvers o =? 0) && (ob_listeners o =? 0).

(** ** What happens on a shard *)

(** What gRPC asks for. *)
Inductive request :=
| NewEngine | CloseDns (e : nat)
| Run | RunAfter (e : nat) | Cancel (k : nat * Z) | Connect (e : nat) | CancelConnect (k : nat * Z)
| Read (e : nat) | Write (e : nat) (slices : list bytes) | DestroyEndpoint (e : nat)
| CreateListener | Bind (l : nat) (bound : bool) | Start (l : nat) | DestroyListener (l : nat)
| GetResolver (e : nat) (dns_server : string) | DestroyResolver (r : nat) | LookupHostname (r : nat) (name default_port : string)
| LookupUnimplemented (r : nat) (message : string).

(** What the reactor continues. *)
Inductive continuation :=
| TaskRuns (t : nat) | TimerFires (k : nat * Z)
| Starts (i : nat) | ConnectExpires (i : nat) | ConnectDone (i : nat) (r : connect_result)
| ReadDone (i : nat) (r : string + bytes) | Sent (i : nat) (failure : option string)
| Accepted (i : nat) (failure : option string) | LookupDone (i : nat) (r : string + list string).

Definition request_step (q : request) (s : shard) : option shard :=
  match q with
  | NewEngine => Some (make_engine s)
  | CloseDns e => close_dns e s
  | Run => Some (engine_run s)
  | RunAfter e => snd <$> run_after e s
  | Cancel k => Some (engine_cancel k s).2
  | Connect e => snd <$> engine_connect e s
  | CancelConnect k => Some (cancel_connect k s).2
  | Read e => endpoint_read e s
  | Write e slices => endpoint_write e slices s
  | DestroyEndpoint e => destroy_endpoint e s
  | CreateListener => Some (create_listener s)
  | Bind l bound => snd <$> listener_bind l bound s
  | Start l => snd <$> listener_start l s
  | DestroyListener l => destroy_listener l s
  | GetResolver e dns_server => Some (get_resolver e dns_server s).2
  | DestroyResolver r => destroy_resolver r s
  | LookupHostname r name port => lookup_hostname r name port s
  | LookupUnimplemented r message => lookup_unimplemented r message s
  end.

(** The operations that start by a task of their own. *)
Definition starts_itself (op : io_op) : bool := match op with IoConnect _ _ => false | _ => true end.

Definition continuation_step (c : continuation) (s : shard) : option shard :=
  match c with
  | TaskRuns t => run_task_step t s
  | TimerFires k => timer_fires k s
  | Starts i => match sh_io s !! i with Some (MkIo false op) => if starts_itself op then start_io i s else None | _ => None end
  | ConnectExpires i => connect_expires i s
  | ConnectDone i r => connect_done i r s
  | ReadDone i r => match sh_io s !! i with Some (MkIo true (IoRead e cb)) => read_done i e cb r s | _ => None end
  | Sent i failure => match sh_io s !! i with Some (MkIo true (IoWrite e cb l)) => write_step i e cb l failure s | _ => None end
  | Accepted i failure => match sh_io s !! i with Some (MkIo true (IoAccept l)) => accept_step i l failure s | _ => None end
  | LookupDone i r =>
      match sh_io s !! i with
      | Some (MkIo true (IoLookup e cb name port)) => Some (lookup_done i e cb name port r s)
      | _ => None
      end
  end.

Definition shard_step (e : request + continuation) (s : shard) : option shard :=
  match e with inl q => request_step q s | inr c => continuation_step c s end.
Fixpoint shard_run (es : list (request + continuation)) (s : shard) : option shard :=
  match es with
  | [] => Some s
  | e :: es => match shard_step e s with Some s => shard_run es s | None => None end
  end.
