(* ===== verification/GrpcLedger.v ===== *)
(** * The ledger of a gRPC shard

    The counters of a shard are the numbers of what is outstanding, and each
    callback of gRPC was called once, was cancelled, or is held by what is
    outstanding: what the requests of gRPC, timers, tasks, endpoints, resolvers
    and connections keep of that. *)

From S2P Require Import Prelude Decimal GateProtocol Yaml Options GrpcEngine.
From stdpp Require Import gmultiset.

(** ** Sums over a map *)

Section sums.
Context `{Countable K} {V : Type}.

Definition total (f : V → nat) (m : gmap K V) : nat := map_fold (λ _ v n, f v + n) 0 m.
Definition gathered (f : V → gmultiset nat) (m : gmap K V) : gmultiset nat := map_fold (λ _ v x, f v ⊎ x) ∅ m.

Lemma total_insert f m i x : m !! i = None → total f (<[i := x]> m) = f x + total f m.
Proof. intros Hm. unfold total. rewrite map_fold_insert_L; [done| |done]. intros. lia. Qed.
Lemma total_delete f m i x : m !! i = Some x → total f m = f x + total f (delete i m).
Proof. intros Hm. rewrite <- (total_insert f (delete i m) i x) by apply lookup_delete_eq. by rewrite insert_delete_id. Qed.
Lemma total_update f m i x y : m !! i = Some x → total f (<[i := y]> m) + f x = total f m + f y.
Proof.
  intros Hm. rewrite <- insert_delete_eq, total_insert by apply lookup_delete_eq. rewrite (total_delete f m i x Hm). lia.
Qed.
Lemma total_ext f g m : (∀ i x, m !! i = Some x → f x = g x) → total f m = total g m.
Proof.
  induction m as [|i x m Hm _ IH] using map_first_key_ind; [done|]. intros Hfg. rewrite !total_insert by done.
  rewrite (Hfg i x), IH; [done| |by rewrite lookup_insert_eq]. intros j y Hj. apply (Hfg j). rewrite lookup_insert_ne; [done|congruence].
Qed.
Lemma total_size m : total (λ _, 1) m = size m.
Proof. induction m as [|i x m Hm _ IH] using map_first_key_ind; [done|]. rewrite total_insert, map_size_insert_None by done. by rewrite IH. Qed.
Lemma total_zero f m i x : total f m = 0 → m !! i = Some x → f x = 0.
Proof. intros Hz Hm. rewrite (total_delete f m i x Hm) in Hz. lia. Qed.

Lemma total_nonzero f m : total f m ≠ 0 → ∃ i x, m !! i = Some x ∧ f x ≠ 0.
Proof.
  induction m as [|i x m Hm _ IH] using map_first_key_ind; [done|]. rewrite total_insert by done. intros Hn.
  destruct (decide (f x = 0)) as [E|]; [|exists i, x; by rewrite lookup_insert_eq].
  destruct IH as (j & y & Hj & Hy); [lia|]. exists j, y. by rewrite lookup_insert_ne by congruence.
Qed.
Lemma gathered_insert f m i x : m !! i = None → gathered f (<[i := x]> m) = f x ⊎ gathered f m.
Proof. intros Hm. unfold gathered. rewrite map_fold_insert_L; [done| |done]. intros. multiset_solver. Qed.
Lemma gathered_delete f m i x : m !! i = Some x → gathered f m = f x ⊎ gathered f (delete i m).
Proof. intros Hm. rewrite <- (gathered_insert f (delete i m) i x) by apply lookup_delete_eq. by rewrite insert_delete_id. Qed.
Lemma gathered_update f m i x y : m !! i = Some x → gathered f (<[i := y]> m) ⊎ f x = gathered f m ⊎ f y.
Proof.
  intros Hm. rewrite <- insert_delete_eq, gathered_insert by apply lookup_delete_eq. rewrite (gathered_delete f m i x Hm).
  multiset_solver.
Qed.
Lemma gathered_empty f m : m = ∅ → gathered f m = ∅.
Proof. by intros ->. Qed.
End sums.

(** ** The ledger *)

Abbreviation bag := (gmultiset nat).
Definition maybe_one (o : option nat) : bag := match o with Some n => {[+ n +]} | None => ∅ end.
Definition io_callbacks (x : io) : bag :=
  match io_what x with
  | IoConnect _ p => maybe_one (pc_callback p)
  | IoRead _ cb | IoWrite _ cb _ | IoLookup _ cb _ _ => {[+ cb +]}
  | IoAccept _ => ∅
  end.
Definition task_callbacks (t : run_task) : bag :=
  match t with RunCallback cb | RunUnimplemented cb _ => {[+ cb +]} | RunConnect _ => ∅ end.
Definition bag_of (l : list nat) : bag := list_to_set_disj l.

(** The callbacks that something outstanding holds, and those that are done with. *)
Definition held (s : shard) : bag :=
  gathered (λ cb, {[+ cb +]}) (sh_timers s) ⊎ gathered io_callbacks (sh_io s) ⊎ gathered task_callbacks (sh_tasks s) ⊎
  gathered (λ st, maybe_one (ls_shutdown st)) (sh_listeners s).
Definition settled (s : shard) : bag := bag_of (sh_called s).*1 ⊎ bag_of (sh_dropped s) ⊎ bag_of (sh_lost s).

Definition live (e : endpoint_state) : nat := if es_closing e then 0 else 1.
Definition awaited (l : listener_state) : nat := match ls_shutdown l with Some _ => 1 | None => 0 end.
Definition accepts (l : nat) (x : io) : nat := match io_what x with IoAccept l' => if (l' =? l) then 1 else 0 | _ => 0 end.

Record ledger (s : shard) : Prop := MkLedger {
  lg_callbacks : settled s ⊎ held s = bag_of (seq 0 (sh_callbacks s));
  lg_io : ob_active_io (sh_observed s) = total (λ _, 1) (sh_io s);
  lg_tasks : ob_active_tasks (sh_observed s) = total (λ _, 1) (sh_tasks s);
  lg_endpoints : ob_endpoints (sh_observed s) = total live (sh_endpoints s);
  lg_resolvers : ob_resolvers (sh_observed s) = total (λ _, 1) (sh_resolvers s);
  lg_listeners : ob_listeners (sh_observed s) = total awaited (sh_listeners s);
  lg_active l st : sh_listeners s !! l = Some st → ls_active st = total (accepts l) (sh_io s);
  lg_fresh i : sh_ids s ≤ i →
    sh_io s !! i = None ∧ sh_tasks s !! i = None ∧ sh_endpoints s !! i = None ∧ sh_listeners s !! i = None ∧
    sh_resolvers s !! i = None ∧ sh_engines s !! i = None;
  lg_accept i b l : sh_io s !! i = Some (MkIo b (IoAccept l)) → is_Some (sh_listeners s !! l);
  lg_timers e id cb : sh_timers s !! (e, id) = Some cb → ∃ en, sh_engines s !! e = Some en ∧ (id ≤ en_next_id en)%Z;
  lg_keys i b e id p : sh_io s !! i = Some (MkIo b (IoConnect (e, id) p)) →
    ∃ en, sh_engines s !! e = Some en ∧ (id ≤ en_next_id en)%Z;
  lg_pending i b k p : sh_io s !! i = Some (MkIo b (IoConnect k p)) →
    if pc_cancelled p then pc_callback p = None else is_Some (pc_callback p) ∧ sh_connections s !! k = Some i;
  lg_connections k i : sh_connections s !! k = Some i →
    ∃ b p, sh_io s !! i = Some (MkIo b (IoConnect k p)) ∧ pc_cancelled p = false;
  lg_starts i k p : sh_io s !! i = Some (MkIo false (IoConnect k p)) → ∃ t, sh_tasks s !! t = Some (RunConnect i);
  lg_started t i : sh_tasks s !! t = Some (RunConnect i) →
    (∃ k p, sh_io s !! i = Some (MkIo false (IoConnect k p))) ∧ ∀ t', sh_tasks s !! t' = Some (RunConnect i) → t' = t;
  lg_endpoint i b e cb : sh_io s !! i = Some (MkIo b (IoRead e cb)) → is_Some (sh_endpoints s !! e);
  lg_writes i b e cb l : sh_io s !! i = Some (MkIo b (IoWrite e cb l)) → is_Some (sh_endpoints s !! e);
  lg_unique i j b b' k p p' : sh_io s !! i = Some (MkIo b (IoConnect k p)) → sh_io s !! j = Some (MkIo b' (IoConnect k p')) → i = j }.

Lemma fresh_ledger : ledger fresh_shard.
Proof. split; simpl; intros *; rewrite ?lookup_empty; try done. Qed.

Lemma bag_seq n : bag_of (seq 0 (S n)) = bag_of (seq 0 n) ⊎ {[+ n +]}.
Proof. unfold bag_of. rewrite seq_S, list_to_set_disj_app. simpl. multiset_solver. Qed.
Lemma bag_app l k : bag_of (l ++ k) = bag_of l ⊎ bag_of k.
Proof. apply list_to_set_disj_app. Qed.
Lemma bag_one n : bag_of [n] = {[+ n +]}.
Proof. unfold bag_of. simpl. multiset_solver. Qed.

(** What a step leaves of the lookups: a map of which one entry is new, gone or
    changed. *)
Ltac at_key :=
  repeat match goal with
  | H : <[?k := _]> _ !! ?j = Some _ |- _ => apply lookup_insert_Some in H as [[? ?]|[? H]]
  | H : delete _ _ !! _ = Some _ |- _ => apply lookup_delete_Some in H as [? H]
  end; simplify_eq.

#[global] Arguments seq : simpl never.
Ltac open_ledger Hl :=
  destruct (Hl) as [Hcb Hio Htk Hep Hrs Hls Hac Hfr Hacc Htm Hky Hpd Hcn Hst Hsd Hre Hwr Huq].
(** A fact about an entry that a step did not touch. *)
Ltac untouched := first [by rewrite lookup_insert_ne by congruence | by rewrite lookup_delete_ne by congruence | done].
Ltac same_endpoint Hl :=
  match goal with
  | |- is_Some (<[?e' := _]> _ !! ?e) => destruct (decide (e = e')) as [->|]; [by rewrite lookup_insert_eq|rewrite lookup_insert_ne by done]
  | |- _ => idtac
  end; first [by eapply (lg_endpoint _ Hl)|by eapply (lg_writes _ Hl)].
(** The parts of the ledger that a step leaves alone or changes in an obvious way. *)
Ltac other_entries Hl :=
  first
    [ let i := fresh "i" in let Hi := fresh "Hi" in
      intros i Hi; destruct (lg_fresh _ Hl i) as (? & ? & ? & ? & ? & ?); [lia|];
      rewrite ?lookup_insert_ne by (lia || congruence); rewrite ?lookup_delete_None; split_and!; solve [auto]
    | let k := fresh "k" in let i := fresh "i" in let b := fresh "b" in let p := fresh "p" in let Hi := fresh "Hi" in
      intros k i Hi; destruct (lg_connections _ Hl k i) as (b & p & ? & ?); [done|]; exists b, p; split; [untouched|done]
    | let k := fresh "k" in let i := fresh "i" in let t := fresh "t" in let p := fresh "p" in let Hi := fresh "Hi" in
      intros i k p Hi; at_key; destruct (lg_starts _ Hl i k p) as [t ?]; [done|]; exists t; untouched
    | let k := fresh "k" in let i := fresh "i" in let t := fresh "t" in let t' := fresh "t'" in let p := fresh "p" in
      let Ht := fresh "Ht" in let Ht' := fresh "Ht'" in let Hu := fresh "Hu" in
      intros t i Ht; at_key; destruct (lg_started _ Hl t i) as [(k & p & ?) Hu]; [done|];
      split; [exists k, p; untouched|intros t' Ht'; at_key; by apply Hu]
    | intros; at_key; same_endpoint Hl ].
(** [tac] refutes what the touched entry is not. *)
Tactic Notation "easy_parts" constr(Hl) "using" tactic3(tac) :=
  simpl; try done;
  try (rewrite ?total_insert by done; lia);
  try (solve [intros; at_key; solve [tac | eauto | by eapply (lg_pending _ Hl)]]);
  try (solve [other_entries Hl]).
Tactic Notation "easy_parts" constr(Hl) := easy_parts Hl using fail.

(** A task for a new callback. *)
Lemma schedule_ledger s t :
  ledger s → task_callbacks t = {[+ sh_callbacks s +]} → ledger (schedule t (put_callbacks (S (sh_callbacks s)) s)).
Proof.
  intros Hl Hc. destruct (lg_fresh s Hl (sh_ids s) ltac:(lia)) as (Ei & Et & Ee & El & Er & En).
  assert (∀ i, t ≠ RunConnect i) as Hn by (intros i ->; simpl in Hc; multiset_solver). open_ledger Hl.
  unfold schedule. simpl. split; easy_parts Hl.
  - unfold settled, held in *. simpl in *. rewrite bag_seq, gathered_insert, Hc, <- Hcb by done. multiset_solver.
Qed.
Lemma run_ledger s : ledger s → ledger (engine_run s).
Proof. intros Hl. by apply (schedule_ledger s (RunCallback (sh_callbacks s))). Qed.
Lemma lookup_unimplemented_ledger s s' r m : ledger s → lookup_unimplemented r m s = Some s' → ledger s'.
Proof.
  intros Hl. unfold lookup_unimplemented. destruct (sh_resolvers s !! r); [|done]. intros [= <-].
  by apply (schedule_ledger s (RunUnimplemented (sh_callbacks s) m)).
Qed.

(** A task that calls its callback. *)
Lemma task_ledger s t x cb a :
  ledger s → sh_tasks s !! t = Some x → task_callbacks x = {[+ cb +]} → ledger (task_end t (call cb a s)).
Proof.
  intros Hl Ht Hc. assert (∀ i, x ≠ RunConnect i) as Hn by (intros i ->; simpl in Hc; multiset_solver).
  pose proof (total_delete (λ _, 1) _ t _ Ht) as Hx. cbn beta in Hx. pose proof (gathered_delete task_callbacks _ t _ Ht) as Hg.
  open_ledger Hl. unfold task_end, call. split; easy_parts Hl.
  - unfold settled, held in *. simpl in *. rewrite fmap_app, bag_app. simpl. rewrite bag_one. rewrite Hg, Hc in Hcb. rewrite <- Hcb. multiset_solver.
Qed.

(** An endpoint's flags change. *)
Lemma endpoint_ledger s e st st' :
  ledger s → sh_endpoints s !! e = Some st → live st' = live st → ledger (put_endpoints (<[e := st']> (sh_endpoints s)) s).
Proof.
  intros Hl He Hv. pose proof (total_update live _ e st st' He) as Hu. open_ledger Hl. split; easy_parts Hl.
Qed.

(** An operation with a callback begins, and ends with the call of it. *)
Definition plain (op : io_op) (cb : nat) (s : shard) : Prop :=
  match op with
  | IoRead e cb' | IoWrite e cb' _ => cb' = cb ∧ is_Some (sh_endpoints s !! e)
  | IoLookup _ cb' _ _ => cb' = cb
  | _ => False
  end.
Lemma plain_callbacks op cb s b : plain op cb s → io_callbacks (MkIo b op) = {[+ cb +]} ∧ ∀ l, accepts l (MkIo b op) = 0.
Proof. unfold plain, io_callbacks, accepts. destruct op; simpl; naive_solver. Qed.

Lemma begin_ledger s op :
  ledger s → plain op (sh_callbacks s) s → ledger (begin_io op (put_callbacks (S (sh_callbacks s)) s)).
Proof.
  intros Hl Hp. destruct (lg_fresh s Hl (sh_ids s) ltac:(lia)) as (Ei & Et & Ee & El & Er & En).
  destruct (plain_callbacks op _ s false Hp) as [Hb Ha]. open_ledger Hl. unfold begin_io. simpl.
  split; easy_parts Hl using (by destruct Hp).
  - unfold settled, held in *. simpl in *. rewrite bag_seq, gathered_insert, Hb, <- Hcb by done. multiset_solver.
  - intros l st Hs. rewrite total_insert, Ha by done. by apply Hac.
Qed.

Lemma finish_ledger s i b op cb a :
  ledger s → sh_io s !! i = Some (MkIo b op) → plain op cb s → ledger (call cb a (end_io i s)).
Proof.
  intros Hl Hi Hp. destruct (plain_callbacks op cb s b Hp) as [Hb Ha].
  pose proof (total_delete (λ _, 1) _ i _ Hi) as Ht. cbn beta in Ht. pose proof (gathered_delete io_callbacks _ i _ Hi) as Hg.
  open_ledger Hl. unfold call, end_io. split; easy_parts Hl using (by destruct Hp).
  - unfold settled, held in *. simpl in *. rewrite fmap_app, bag_app. simpl. rewrite bag_one. rewrite Hg, Hb in Hcb. rewrite <- Hcb. multiset_solver.
  - intros l st Hs. rewrite (Hac l st Hs), (total_delete _ _ i _ Hi), Ha. done.
  - intros k j Hj. destruct (Hcn k j Hj) as (b' & p & Hx & Hy). exists b', p. rewrite lookup_delete_ne; [done|].
    intros ->. simplify_eq. by destruct Hp.
  - intros t j Hj. destruct (Hsd t j Hj) as [(k & p & Hx) Hu]. split; [|done]. exists k, p. rewrite lookup_delete_ne; [done|].
    intros ->. simplify_eq. by destruct Hp.
Qed.

Lemma read_ledger s s' e : ledger s → endpoint_read e s = Some s' → ledger s'.
Proof.
  intros Hl. unfold endpoint_read. destruct (sh_endpoints s !! e) as [[[] [] w d]|] eqn:E; try done. intros [= <-].
  set (st := MkEndpointState false true w d).
  apply (begin_ledger (put_endpoints (<[e := st]> (sh_endpoints s)) s) (IoRead e (sh_callbacks s))); [by eapply endpoint_ledger|].
  split; [done|]. simpl. by rewrite lookup_insert_eq.
Qed.
Lemma write_ledger s s' e l : ledger s → endpoint_write e l s = Some s' → ledger s'.
Proof.
  intros Hl. unfold endpoint_write. destruct (sh_endpoints s !! e) as [[[] r [] d]|] eqn:E; try done. intros [= <-].
  set (st := MkEndpointState false r true d).
  apply (begin_ledger (put_endpoints (<[e := st]> (sh_endpoints s)) s) (IoWrite e (sh_callbacks s) l)); [by eapply endpoint_ledger|].
  split; [done|]. simpl. by rewrite lookup_insert_eq.
Qed.
Lemma read_done_ledger s s' i b e cb r :
  ledger s → sh_io s !! i = Some (MkIo b (IoRead e cb)) → read_done i e cb r s = Some s' → ledger s'.
Proof.
  intros Hl Hi. unfold read_done. destruct (sh_endpoints s !! e) as [st|] eqn:E; [|done]. intros [= <-].
  eapply finish_ledger; [by eapply endpoint_ledger|exact Hi|]. split; [done|]. simpl. by rewrite lookup_insert_eq.
Qed.
Lemma write_end_ledger s s' i b e cb l st :
  ledger s → sh_io s !! i = Some (MkIo b (IoWrite e cb l)) → write_end i e cb st s = Some s' → ledger s'.
Proof.
  intros Hl Hi. unfold write_end. destruct (sh_endpoints s !! e) as [x|] eqn:E; [|done]. intros [= <-].
  eapply finish_ledger; [by eapply endpoint_ledger|exact Hi|]. split; [done|]. simpl. by rewrite lookup_insert_eq.
Qed.

(** An operation that is no connection starts or goes on. *)
Definition same_kind (op op' : io_op) : Prop :=
  match op, op' with
  | IoConnect _ _, _ | _, IoConnect _ _ => False
  | IoWrite e cb _, IoWrite e' cb' _ => e' = e ∧ cb' = cb
  | _, _ => op' = op
  end.
Lemma same_kind_callbacks op op' b b' :
  same_kind op op' → io_callbacks (MkIo b op) = io_callbacks (MkIo b' op') ∧ ∀ l, accepts l (MkIo b op) = accepts l (MkIo b' op').
Proof. unfold io_callbacks, accepts. destruct op, op'; simpl; naive_solver. Qed.

Lemma replace_ledger s i b op b' op' :
  ledger s → sh_io s !! i = Some (MkIo b op) → same_kind op op' → ledger (put_io (<[i := MkIo b' op']> (sh_io s)) s).
Proof.
  intros Hl Hi Hk. destruct (same_kind_callbacks op op' b b' Hk) as [Hb Ha].
  pose proof (total_update (λ _, 1) _ i _ (MkIo b' op') Hi) as Ht. cbn beta in Ht.
  pose proof (gathered_update io_callbacks _ i _ (MkIo b' op') Hi) as Hg.
  open_ledger Hl. split; easy_parts Hl using (by destruct op).
  - unfold settled, held in *. simpl in *. rewrite <- Hcb. rewrite Hb in Hg. multiset_solver.
  - intros k st Hs. pose proof (total_update (accepts k) _ i _ (MkIo b' op') Hi) as Hu.
    rewrite (Hac k st Hs). rewrite (Ha k) in Hu. lia.
  - intros j b0 l Hj. at_key; [|by eapply Hacc]. destruct op; simplify_eq/=; try done; by eapply Hacc.
  - intros k j Hj. destruct (Hcn k j Hj) as (b0 & p & Hx & Hy). exists b0, p. rewrite lookup_insert_ne; [done|].
    intros ->. simplify_eq. by destruct op'.
  - intros t j Hj. destruct (Hsd t j Hj) as [(k & p & Hx) Hu]. split; [|done]. exists k, p. rewrite lookup_insert_ne; [done|].
    intros ->. simplify_eq. by destruct op'.
  - intros j b0 e cb Hj. at_key; [|by eapply Hre]. destruct op; simplify_eq/=; try done; by eapply Hre.
  - intros j b0 e cb l Hj. at_key; [|by eapply Hwr]. destruct op; simplify_eq/=; try done; destruct_and?; simplify_eq; by eapply Hwr.
Qed.

Lemma write_step_ledger s s' i e cb l failure :
  ledger s → sh_io s !! i = Some (MkIo true (IoWrite e cb l)) → write_step i e cb l failure s = Some s' → ledger s'.
Proof.
  intros Hl Hi. unfold write_step. destruct l as [|slice l]; [by eapply write_end_ledger|].
  destruct (sh_endpoints s !! e) as [st|] eqn:E; [|done]. destruct failure; [by eapply write_end_ledger|]. intros [= <-].
  set (st' := MkEndpointState _ _ _ (_ ++ _)).
  eapply (replace_ledger (put_endpoints (<[e := st']> (sh_endpoints s)) s)); [by eapply endpoint_ledger|exact Hi|done].
Qed.

Lemma make_endpoint_ledger s : ledger s → ledger (make_endpoint s).2.
Proof.
  intros Hl. destruct (lg_fresh s Hl (sh_ids s) ltac:(lia)) as (Ei & Et & Ee & El & Er & En). open_ledger Hl.
  unfold make_endpoint. simpl. split; easy_parts Hl. rewrite total_insert by done. unfold live at 1. simpl. lia.
Qed.
Lemma destroy_endpoint_ledger s s' e : ledger s → destroy_endpoint e s = Some s' → ledger s'.
Proof.
  intros Hl. unfold destroy_endpoint. destruct (sh_endpoints s !! e) as [[[] r w d]|] eqn:E; try done. intros [= <-].
  pose proof (total_update live _ e _ (MkEndpointState true r w d) E) as Hu. unfold live in Hu at 2 4. simpl in Hu. open_ledger Hl. split; easy_parts Hl.
Qed.

(** ** Engines, timers and resolvers *)

Lemma make_engine_ledger s : ledger s → ledger (make_engine s).
Proof.
  intros Hl. destruct (lg_fresh s Hl (sh_ids s) ltac:(lia)) as (Ei & Et & Ee & El & Er & En). open_ledger Hl.
  unfold make_engine. split; easy_parts Hl.
  - intros e id cb Ht. destruct (Htm e id cb Ht) as (en & He & Hx). exists en. by rewrite lookup_insert_ne by congruence.
  - intros i b e id p Hi. destruct (Hky i b e id p Hi) as (en & He & Hx). exists en. by rewrite lookup_insert_ne by congruence.
Qed.
(** The last id of an engine grows. *)
Lemma engine_ledger s e en en' :
  ledger s → sh_engines s !! e = Some en → (en_next_id en ≤ en_next_id en')%Z →
  ledger (put_engines (<[e := en']> (sh_engines s)) s).
Proof.
  intros Hl He Hn. open_ledger Hl. split; easy_parts Hl.
  - intros e0 id cb Ht. destruct (Htm e0 id cb Ht) as (en0 & He0 & Hx). destruct (decide (e0 = e)) as [->|].
    + exists en'. rewrite lookup_insert_eq. simplify_eq. split; [done|lia].
    + exists en0. by rewrite lookup_insert_ne.
  - intros i b e0 id p Hi. destruct (Hky i b e0 id p Hi) as (en0 & He0 & Hx). destruct (decide (e0 = e)) as [->|].
    + exists en'. rewrite lookup_insert_eq. simplify_eq. split; [done|lia].
    + exists en0. by rewrite lookup_insert_ne.
Qed.

(** The id that an engine gives is none that is in use. *)
Lemma next_id_ledger s s' e id :
  ledger s → next_id e s = Some (id, s') →
  ledger s' ∧ sh_timers s' !! (e, id) = None ∧ sh_connections s' !! (e, id) = None ∧
  (∀ i b p, sh_io s' !! i ≠ Some (MkIo b (IoConnect (e, id) p))) ∧
  ∃ en, sh_engines s' !! e = Some en ∧ en_next_id en = id.
Proof.
  intros Hl. unfold next_id. destruct (sh_engines s !! e) as [en|] eqn:E; [|done]. intros [= <- <-].
  assert (∀ i b p, sh_io s !! i ≠ Some (MkIo b (IoConnect (e, en_next_id en + 1)%Z p))) as Hno.
  { intros i b p Hi. destruct (lg_keys s Hl _ _ _ _ _ Hi) as (en' & E' & Hx). simplify_eq. lia. }
  split_and!; simpl.
  - eapply engine_ledger; [done..|]. simpl. lia.
  - destruct (sh_timers s !! (e, (en_next_id en + 1)%Z)) eqn:Ht; [|done].
    destruct (lg_timers s Hl _ _ _ Ht) as (en' & E' & Hx). simplify_eq. lia.
  - destruct (sh_connections s !! _) as [i|] eqn:Hc; [|done].
    destruct (lg_connections s Hl _ _ Hc) as (b & p & Hi & _). by apply Hno in Hi.
  - done.
  - rewrite lookup_insert_eq. by eexists.
Qed.

Lemma run_after_ledger s s' e id : ledger s → run_after e s = Some (id, s') → ledger s'.
Proof.
  intros Hl. unfold run_after. destruct (next_id e s) as [[id' s1]|] eqn:E; [|done]. intros [= -> <-].
  destruct (next_id_ledger s s1 e id Hl E) as (Hl1 & Ht & _ & _ & en & He & <-). clear Hl E. rename Hl1 into Hl.
  open_ledger Hl. unfold take_callback. simpl. split; easy_parts Hl.
  - unfold settled, held in *. simpl in *. rewrite bag_seq, gathered_insert, <- Hcb by done. multiset_solver.
  - intros e0 id cb Hx. apply lookup_insert_Some in Hx as [[[= <- <-] <-]|[_ Hx]]; [|by eapply Htm].
    exists en. split; [done|lia].
Qed.
Lemma timer_gone_ledger s k cb :
  ledger s → sh_timers s !! k = Some cb →
  settled s ⊎ {[+ cb +]} ⊎ held (put_timers (delete k (sh_timers s)) s) = bag_of (seq 0 (sh_callbacks s)).
Proof.
  intros Hl Ht. rewrite <- (lg_callbacks s Hl). unfold held. simpl. rewrite (gathered_delete _ (sh_timers s) k cb Ht).
  multiset_solver.
Qed.
Lemma timer_fires_ledger s s' k : ledger s → timer_fires k s = Some s' → ledger s'.
Proof.
  intros Hl. unfold timer_fires. destruct (sh_timers s !! k) as [cb|] eqn:Ht; [|done]. intros [= <-].
  pose proof (timer_gone_ledger s k cb Hl Ht) as Hg. open_ledger Hl. unfold call. split; easy_parts Hl.
  rewrite <- Hg. unfold settled, held. simpl. rewrite fmap_app, bag_app. simpl. rewrite bag_one. multiset_solver.
Qed.
Lemma engine_cancel_ledger s k : ledger s → ledger (engine_cancel k s).2.
Proof.
  intros Hl. unfold engine_cancel. destruct (sh_timers s !! k) as [cb|] eqn:Ht; [|done]. simpl.
  pose proof (timer_gone_ledger s k cb Hl Ht) as Hg. open_ledger Hl. split; easy_parts Hl.
  rewrite <- Hg. unfold settled, held. simpl. rewrite bag_app, bag_one. multiset_solver.
Qed.

Lemma get_resolver_ledger s e d : ledger s → ledger (get_resolver e d s).2.
Proof.
  intros Hl. unfold get_resolver. case_bool_decide; [|done]. simpl.
  destruct (lg_fresh s Hl (sh_ids s) ltac:(lia)) as (Ei & Et & Ee & El & Er & En). open_ledger Hl. split; easy_parts Hl.
Qed.
Lemma destroy_resolver_ledger s s' r : ledger s → destroy_resolver r s = Some s' → ledger s'.
Proof.
  intros Hl. unfold destroy_resolver. destruct (sh_resolvers s !! r) as [e|] eqn:E; [|done]. intros [= <-].
  pose proof (total_delete (λ _, 1) _ r _ E) as Ht. cbn beta in Ht. open_ledger Hl. split; easy_parts Hl.
Qed.
Lemma lookup_hostname_ledger s s' r n p : ledger s → lookup_hostname r n p s = Some s' → ledger s'.
Proof.
  intros Hl. unfold lookup_hostname. destruct (sh_resolvers s !! r) as [e|]; [|done]. intros [= <-]. by apply begin_ledger.
Qed.
Lemma lookup_done_ledger s i b e cb n p r :
  ledger s → sh_io s !! i = Some (MkIo b (IoLookup e cb n p)) → ledger (lookup_done i e cb n p r s).
Proof. intros Hl Hi. unfold lookup_done. destruct (split_name n p). by eapply finish_ledger. Qed.

(** ** Connections *)

Lemma connect_ledger s s' e id : ledger s → engine_connect e s = Some (id, s') → ledger s'.
Proof.
  intros Hl. unfold engine_connect. destruct (next_id e s) as [[id' s1]|] eqn:E; [|done]. simpl. intros [= -> <-].
  destruct (next_id_ledger s s1 e id Hl E) as (Hl1 & _ & Hc & Hno & en & He & Hid). clear Hl E. rename Hl1 into Hl.
  destruct (lg_fresh s1 Hl (sh_ids s1) ltac:(lia)) as (Ei & Et & Ee & El & Er & En).
  assert (sh_tasks s1 !! S (sh_ids s1) = None) as Et' by (by apply (lg_fresh s1 Hl); lia).
  open_ledger Hl. unfold begin_io, schedule. simpl. split; easy_parts Hl.
  - unfold settled, held in *. simpl in *. rewrite bag_seq, !gathered_insert, <- Hcb by done. unfold io_callbacks at 1. simpl. multiset_solver.
  - intros l st Hs. rewrite total_insert by done. rewrite (Hac l st Hs). done.
  - intros i b e0 id0 p Hi. at_key; [|by eapply Hky]. exists en. split; [done|lia].
  - intros i b k p Hi. at_key; [simpl; split; [by eexists|apply lookup_insert_eq]|]. specialize (Hpd i b k p Hi).
    destruct (pc_cancelled p); [done|]. destruct Hpd as [? Hk]. split; [done|]. rewrite lookup_insert_ne; [done|]. congruence.
  - intros k i Hk. at_key; [eexists _, _; rewrite lookup_insert_eq; done|].
    destruct (Hcn k i Hk) as (b & p & Hx & Hy). exists b, p. by rewrite lookup_insert_ne by congruence.
  - intros i k p Hi. at_key; [exists (S (sh_ids s1)); apply lookup_insert_eq|].
    destruct (Hst i k p Hi) as [t Ht]. exists t. by rewrite lookup_insert_ne by congruence.
  - intros t i Ht. at_key.
    + split; [eexists _, _; by rewrite lookup_insert_eq|]. intros t' Ht'. at_key; [done|]. destruct (Hsd t' _ Ht') as [(k & p & Hx) _]. congruence.
    + destruct (Hsd t i Ht) as [(k & p & Hx) Hu]. split; [exists k, p; by rewrite lookup_insert_ne by congruence|].
      intros t' Ht'. at_key. by apply Hu.
  - intros i j b b' k p p' Hi Hj. at_key; [done| | |by eapply Huq]; exfalso; by eapply Hno.
Qed.

(** The task of a connection starts its coroutine. *)
Lemma start_connect_ledger s s' t i :
  ledger s → sh_tasks s !! t = Some (RunConnect i) → start_io i s = Some s' → ledger (task_end t s').
Proof.
  intros Hl Ht. unfold start_io. destruct (lg_started s Hl t i Ht) as [(k & p & Hi) Hu]. rewrite Hi. intros [= <-].
  pose proof (total_delete (λ _, 1) _ t _ Ht) as Hx. cbn beta in Hx. pose proof (gathered_delete task_callbacks _ t _ Ht) as Hg.
  pose proof (total_update (λ _, 1) _ i _ (MkIo true (IoConnect k p)) Hi) as Hy. cbn beta in Hy.
  pose proof (gathered_update io_callbacks _ i _ (MkIo true (IoConnect k p)) Hi) as Hg'.
  open_ledger Hl. unfold task_end. split; easy_parts Hl.
  - unfold settled, held in *. simpl in *. rewrite <- Hcb. unfold io_callbacks in Hg' at 2 4. simpl in Hg'. rewrite Hg. multiset_solver.
  - intros l st Hs. pose proof (total_update (accepts l) _ i _ (MkIo true (IoConnect k p)) Hi) as Hz. rewrite (Hac l st Hs).
    unfold accepts in Hz at 2 4. simpl in Hz. lia.
  - intros k' j Hj. destruct (Hcn k' j Hj) as (b & p' & Hx' & Hy'). destruct (decide (j = i)) as [->|].
    + rewrite lookup_insert_eq. simplify_eq. by eexists _, _.
    + exists b, p'. by rewrite lookup_insert_ne.
  - intros t' j Hj. at_key. destruct (Hsd t' j Hj) as [(k' & p' & Hx') Hu']. split.
    + exists k', p'. rewrite lookup_insert_ne; [done|]. intros ->. by destruct (Hu t' Hj).
    + intros t0 Ht0. at_key. by apply Hu'.
Qed.
