(* ===== verification/GrpcEngineTheorems.v ===== *)
(** * The shutdown of gRPC waits for everything

    The ends of connections and the listeners keep the ledger of a shard
    (GrpcLedger); so what drain_local_grpc and close_grpc_engine wait for is all
    there is, and no callback of gRPC is called twice, or lost where endpoints
    can be made. *)

From S2P Require Import Prelude Decimal GateProtocol Yaml Options GrpcEngine GrpcLedger.
From stdpp Require Import gmultiset.

(** ** The ends of a connection *)

Lemma expires_ledger s s' i : ledger s → connect_expires i s = Some s' → ledger s'.
Proof.
  intros Hl. unfold connect_expires.
  destruct (sh_io s !! i) as [[b [k [cb [] cancelled expired]| | | |]]|] eqn:Hi; try done. intros [= <-].
  set (p := MkPending cb true cancelled expired) in *. set (p' := MkPending cb false cancelled true).
  pose proof (total_update (λ _, 1) _ i _ (MkIo b (IoConnect k p')) Hi) as Hy. cbn beta in Hy.
  pose proof (gathered_update io_callbacks _ i _ (MkIo b (IoConnect k p')) Hi) as Hg.
  open_ledger Hl. split; easy_parts Hl.
  - unfold settled, held in *. simpl in *. rewrite <- Hcb. unfold io_callbacks in Hg at 2 4. simpl in Hg. multiset_solver.
  - intros l st Hs. pose proof (total_update (accepts l) _ i _ (MkIo b (IoConnect k p')) Hi) as Hz. rewrite (Hac l st Hs).
    unfold accepts in Hz at 2 4. simpl in Hz. lia.
  - intros j b0 k0 p0 Hj. at_key; [|by eapply Hpd]. exact (Hpd _ _ _ _ Hi).
  - intros k0 j Hj. destruct (Hcn k0 j Hj) as (b0 & p0 & Hx & Hc). destruct (decide (j = i)) as [->|].
    + rewrite lookup_insert_eq. simplify_eq. by eexists _, _.
    + exists b0, p0. by rewrite lookup_insert_ne.
  - intros t j Hj. destruct (Hsd t j Hj) as [(k0 & p0 & Hx) Hu]. split; [|done]. destruct (decide (j = i)) as [->|].
    + rewrite lookup_insert_eq. simplify_eq. by eexists _, _.
    + exists k0, p0. by rewrite lookup_insert_ne.
Qed.

Lemma cancel_connect_ledger s k : ledger s → ledger (cancel_connect k s).2.
Proof.
  intros Hl. unfold cancel_connect. destruct (sh_connections s !! k) as [i|] eqn:Hk; [|done].
  destruct (lg_connections s Hl k i Hk) as (b & p & Hi & Hc). pose proof (lg_pending s Hl _ _ _ _ Hi) as Hp. rewrite Hc in Hp.
  destruct Hp as [[cb Hcb'] _]. rewrite Hi. destruct p as [cb0 tm cc ex]. simpl in Hc, Hcb'. subst cc cb0. simpl.
  set (p := MkPending (Some cb) tm false ex) in *. set (p' := MkPending None false true ex).
  pose proof (total_update (λ _, 1) _ i _ (MkIo b (IoConnect k p')) Hi) as Hy. cbn beta in Hy.
  pose proof (gathered_update io_callbacks _ i _ (MkIo b (IoConnect k p')) Hi) as Hg.
  open_ledger Hl. split; easy_parts Hl.
  - unfold settled, held in *. simpl in *. rewrite <- Hcb, bag_app, bag_one. unfold io_callbacks in Hg at 2 4. simpl in Hg. multiset_solver.
  - intros l st Hs. pose proof (total_update (accepts l) _ i _ (MkIo b (IoConnect k p')) Hi) as Hz. rewrite (Hac l st Hs).
    unfold accepts in Hz at 2 4. simpl in Hz. lia.
  - intros j b0 k0 p0 Hj. at_key; [done|]. specialize (Hpd j b0 k0 p0 Hj). destruct (pc_cancelled p0); [done|].
    destruct Hpd as [? Hx]. split; [done|]. rewrite lookup_delete_ne; [done|]. intros ->. congruence.
  - intros k0 j Hj. at_key. destruct (Hcn k0 j Hj) as (b0 & p0 & Hx & Hc). exists b0, p0. rewrite lookup_insert_ne; [done|].
    intros ->. simplify_eq.
  - intros t j Hj. destruct (Hsd t j Hj) as [(k0 & p0 & Hx) Hu]. split; [|done]. destruct (decide (j = i)) as [->|].
    + rewrite lookup_insert_eq. simplify_eq. by eexists _, _.
    + exists k0, p0. by rewrite lookup_insert_ne.
Qed.

(** The coroutine of a connection ends: [s'] has settled its callback. *)
Lemma connect_end_ledger s i k p f :
  ledger s → sh_io s !! i = Some (MkIo true (IoConnect k p)) →
  let s' := put_connections (delete k (sh_connections s)) (end_io i s) in
  sh_callbacks (f s') = sh_callbacks s' → sh_observed (f s') = sh_observed s' → sh_ids (f s') = sh_ids s' →
  sh_engines (f s') = sh_engines s' → sh_timers (f s') = sh_timers s' → sh_connections (f s') = sh_connections s' →
  sh_io (f s') = sh_io s' → sh_tasks (f s') = sh_tasks s' → sh_endpoints (f s') = sh_endpoints s' →
  sh_listeners (f s') = sh_listeners s' → sh_resolvers (f s') = sh_resolvers s' →
  settled (f s') = settled s' ⊎ maybe_one (pc_callback p) →
  ledger (f s').
Proof.
  intros Hl Hi s' E1 E2 E3 E4 E5 E6 E7 E8 E9 E10 E11 Hs.
  pose proof (total_delete (λ _, 1) _ i _ Hi) as Ht. cbn beta in Ht. pose proof (gathered_delete io_callbacks _ i _ Hi) as Hg.
  open_ledger Hl. split; rewrite ?E1, ?E2, ?E3, ?E4, ?E5, ?E6, ?E7, ?E8, ?E9, ?E10, ?E11; subst s'; easy_parts Hl.
  - rewrite Hs. unfold held. rewrite E5, E7, E8, E10. unfold settled, held in *. simpl in *. rewrite Hg in Hcb. rewrite <- Hcb.
    unfold io_callbacks at 2. simpl. multiset_solver.
  - intros l st Hs'. rewrite (Hac l st Hs'), (total_delete _ _ i _ Hi). done.
  - intros j b0 k0 p0 Hj. at_key. pose proof (Hpd j b0 k0 p0 Hj) as Hx. destruct (pc_cancelled p0); [done|].
    destruct Hx as [? Hx]. split; [done|]. rewrite lookup_delete_ne; [done|]. intros ->. by destruct (Huq i j _ _ _ _ _ Hi Hj).
  - intros k0 j Hj. at_key. destruct (Hcn k0 j Hj) as (b0 & p0 & Hx & Hc). exists b0, p0. rewrite lookup_delete_ne; [done|].
    intros ->. simplify_eq.
Qed.

Lemma call_settled cb a s : settled (call cb a s) = settled s ⊎ {[+ cb +]}.
Proof. unfold settled, call. simpl. rewrite fmap_app, bag_app. simpl. rewrite bag_one. multiset_solver. Qed.

Lemma connect_done_ledger s s' i r : ledger s → connect_done i r s = Some s' → ledger s'.
Proof.
  intros Hl. unfold connect_done. destruct (sh_io s !! i) as [[[] [k p| | | |]]|] eqn:Hi; try done.
  pose proof (lg_pending s Hl _ _ _ _ Hi) as Hp. set (s1 := put_connections _ _).
  destruct (pc_cancelled p).
  { intros [= <-]. apply (connect_end_ledger s i k p id Hl Hi); try done. unfold id. rewrite Hp. simpl. multiset_solver. }
  destruct Hp as [[cb Hc] _]. rewrite Hc. intros [= <-].
  assert (∀ a, ledger (call cb a s1)) as Hcall.
  { intros a. apply (connect_end_ledger s i k p (call cb a) Hl Hi); try done. rewrite Hc. apply call_settled. }
  destruct (pc_expired p); [done|]. destruct r as [e| |]; [done| |].
  - apply (connect_end_ledger s i k p (λ s, put_lost (sh_lost s ++ [cb]) s) Hl Hi); try done.
    rewrite Hc. unfold settled. simpl. rewrite bag_app, bag_one. multiset_solver.
  - exact (make_endpoint_ledger _ (Hcall (WithEndpoint (sh_ids s1)))).
Qed.

(** ** Listeners *)

(** A listener changes, and its accept loops are what it counts. *)
Lemma listener_ledger s l st st' :
  ledger s → sh_listeners s !! l = Some st → ls_shutdown st' = ls_shutdown st → ls_active st' = ls_active st →
  ledger (put_listeners (<[l := st']> (sh_listeners s)) s).
Proof.
  intros Hl El Es Ea. pose proof (total_update awaited _ l st st' El) as Ht.
  pose proof (gathered_update (λ st, maybe_one (ls_shutdown st)) _ l st st' El) as Hg.
  assert (awaited st' = awaited st) as Hw by (unfold awaited; by rewrite Es). cbn beta in Hg. rewrite Es in Hg.
  open_ledger Hl. split; easy_parts Hl.
  - unfold settled, held in *. simpl in *. rewrite <- Hcb. multiset_solver.
  - intros l0 st0 Hx. at_key; [rewrite Ea; by apply Hac|by apply Hac].
  - intros i b l0 Hi. destruct (decide (l0 = l)) as [->|]; [by rewrite lookup_insert_eq|rewrite lookup_insert_ne by done; by eapply Hacc].
Qed.

Lemma create_listener_ledger s : ledger s → ledger (create_listener s).
Proof.
  intros Hl. destruct (lg_fresh s Hl (sh_ids s) ltac:(lia)) as (Ei & Et & Ee & El & Er & En).
  assert (GrpcLedger.total (accepts (sh_ids s)) (sh_io s) = 0) as Hz.
  { destruct (decide (GrpcLedger.total (accepts (sh_ids s)) (sh_io s) = 0)) as [|Hn]; [done|].
    apply total_nonzero in Hn as (i & x & Hi & Hx). unfold accepts in Hx. destruct x as [b [| | |l0|]]; try done. simpl in Hx.
    destruct (l0 =? sh_ids s) eqn:E; [|done]. apply Nat.eqb_eq in E as ->. destruct (lg_accept s Hl _ _ _ Hi). congruence. }
  open_ledger Hl. unfold create_listener, take_callback. simpl. split; easy_parts Hl.
  - unfold settled, held in *. simpl in *. rewrite bag_seq, gathered_insert, <- Hcb by done. simpl. multiset_solver.
  - rewrite total_insert by done. unfold awaited at 1. simpl. lia.
  - intros i b l Hi. destruct (Hacc i b l Hi). by rewrite lookup_insert_ne by congruence.
Qed.

Lemma bind_ledger s s' l b r : ledger s → listener_bind l b s = Some (r, s') → ledger s'.
Proof.
  intros Hl. unfold listener_bind. destruct (sh_listeners s !! l) as [[cb sk ac [] sd st a]|] eqn:E; try done.
  destruct sd; [by intros [= <- <-]|]. destruct b; [|by intros [= <- <-]]. intros [= <- <-]. by eapply listener_ledger.
Qed.

(** An accept loop is started. *)
Lemma start_accept_ledger s l : ledger s → is_Some (sh_listeners s !! l) → ledger (start_accept l s).
Proof.
  intros Hl [st El]. destruct (lg_fresh s Hl (sh_ids s) ltac:(lia)) as (Ei & Et & Ee & En & Er & Eg).
  unfold start_accept. rewrite (alter_to_insert _ _ _ st El). set (st' := MkListener _ _ (S _) _ _ _ _).
  pose proof (total_update awaited _ l st st' El) as Ht. assert (awaited st' = awaited st) as Hw by done.
  pose proof (gathered_update (λ st, maybe_one (ls_shutdown st)) _ l st st' El) as Hg. cbn beta in Hg.
  change (ls_shutdown st') with (ls_shutdown st) in Hg.
  open_ledger Hl. unfold begin_io. simpl. split; easy_parts Hl.
  - unfold settled, held in *. simpl in *. rewrite gathered_insert, <- Hcb by done. unfold io_callbacks at 1. simpl. multiset_solver.
  - intros l0 st0 Hx. rewrite total_insert by done. unfold accepts at 1. simpl. at_key.
    + rewrite Nat.eqb_refl. simpl. by rewrite (Hac _ _ El).
    + rewrite (proj2 (Nat.eqb_neq l l0)) by done. by apply Hac.
  - intros i b l0 Hi. destruct (decide (l0 = l)) as [->|]; [by rewrite lookup_insert_eq|rewrite lookup_insert_ne by done].
    at_key. by eapply Hacc.
Qed.
Lemma start_accept_listeners s l l' st :
  sh_listeners (start_accept l s) !! l' = Some st →
  ∃ st0, sh_listeners s !! l' = Some st0 ∧ ls_closing st = ls_closing st0 ∧ ls_shutdown st = ls_shutdown st0.
Proof.
  unfold start_accept. simpl. destruct (decide (l = l')) as [->|]; [|rewrite lookup_alter_ne by done; eauto].
  rewrite lookup_alter_eq. destruct (sh_listeners s !! l') as [st0|]; [|done]. intros [= <-]. by exists st0.
Qed.
Lemma start_all_ledger n s l : ledger s → is_Some (sh_listeners s !! l) → ledger (Nat.iter n (start_accept l) s).
Proof.
  intros Hl El.
  enough (ledger (Nat.iter n (start_accept l) s) ∧ is_Some (sh_listeners (Nat.iter n (start_accept l) s) !! l)) by tauto.
  induction n as [|n [IH [st E]]]; simpl; [done|]. split; [by apply start_accept_ledger|].
  rewrite lookup_alter_eq. rewrite E. by eexists.
Qed.
Lemma start_all_listeners n s l l' st :
  sh_listeners (Nat.iter n (start_accept l) s) !! l' = Some st →
  ∃ st0, sh_listeners s !! l' = Some st0 ∧ ls_closing st = ls_closing st0 ∧ ls_shutdown st = ls_shutdown st0.
Proof.
  revert st. induction n as [|n IH]; intros st; simpl; [eauto|]. intros Hs.
  apply start_accept_listeners in Hs as (st1 & H1 & -> & ->). by apply IH.
Qed.
Lemma start_ledger s s' l r : ledger s → listener_start l s = Some (r, s') → ledger s'.
Proof.
  intros Hl. unfold listener_start. destruct (sh_listeners s !! l) as [[cb sk ac [] sd st a]|] eqn:E; try done.
  destruct sd; [by intros [= <- <-]|]. intros [= <- <-].
  apply start_all_ledger; [by eapply listener_ledger|]. simpl. by rewrite lookup_insert_eq.
Qed.

Lemma complete_ledger s l : ledger s → ledger (complete l s).
Proof.
  intros Hl. unfold complete. destruct (sh_listeners s !! l) as [[[cb|] sk [|n] [] sd st a]|] eqn:E; try done.
  set (x := MkListener (Some cb) _ _ _ _ _ _) in *. set (x' := MkListener None _ _ _ _ _ _).
  pose proof (total_update awaited _ l x x' E) as Ht. unfold awaited in Ht at 2 4. simpl in Ht.
  pose proof (gathered_update (λ st, maybe_one (ls_shutdown st)) _ l x x' E) as Hg. simpl in Hg.
  open_ledger Hl. unfold call. split; easy_parts Hl.
  - unfold settled, held in *. simpl in *. rewrite <- Hcb, fmap_app, bag_app. simpl. rewrite bag_one. multiset_solver.
  - intros l0 st0 Hx. at_key; [by rewrite <- (Hac _ _ E)|by apply Hac].
  - intros i b l0 Hi. destruct (decide (l0 = l)) as [->|]; [by rewrite lookup_insert_eq|rewrite lookup_insert_ne by done; by eapply Hacc].
Qed.
Lemma shut_ledger s i : ledger s → ledger (shut_down i s).
Proof. intros []. by split. Qed.
Lemma destroy_listener_ledger s s' l : ledger s → destroy_listener l s = Some s' → ledger s'.
Proof.
  intros Hl. unfold destroy_listener. destruct (sh_listeners s !! l) as [[cb sk ac [] sd st a]|] eqn:E; try done.
  intros [= <-]. apply complete_ledger, (shut_ledger (put_listeners _ s) (ListenerFds l)). by eapply listener_ledger.
Qed.

Lemma accept_end_ledger s i b l st status :
  ledger s → sh_io s !! i = Some (MkIo b (IoAccept l)) → sh_listeners s !! l = Some st → ledger (accept_end i l st status s).
Proof.
  intros Hl Hi El. unfold accept_end. apply complete_ledger. set (st' := MkListener _ _ (pred _) _ _ _ _).
  pose proof (total_update awaited _ l st st' El) as Ht. assert (awaited st' = awaited st) as Hw by done.
  pose proof (gathered_update (λ st, maybe_one (ls_shutdown st)) _ l st st' El) as Hg. cbn beta in Hg.
  change (ls_shutdown st') with (ls_shutdown st) in Hg.
  pose proof (total_delete (λ _, 1) _ i _ Hi) as Hy. cbn beta in Hy. pose proof (gathered_delete io_callbacks _ i _ Hi) as Hg'.
  open_ledger Hl. unfold end_io. split; easy_parts Hl.
  - unfold settled, held in *. simpl in *. rewrite Hg' in Hcb. rewrite <- Hcb. unfold io_callbacks at 2. simpl. multiset_solver.
  - intros l0 st0 Hx. pose proof (total_delete (accepts l0) _ i _ Hi) as Hz. unfold accepts in Hz at 2. simpl in Hz. at_key.
    + rewrite Nat.eqb_refl in Hz. simpl. rewrite (Hac _ _ El). lia.
    + rewrite (proj2 (Nat.eqb_neq l l0)) in Hz by done. rewrite (Hac _ _ Hx). lia.
  - intros j b0 l0 Hj. at_key. destruct (decide (l0 = l)) as [->|]; [by rewrite lookup_insert_eq|rewrite lookup_insert_ne by done; by eapply Hacc].
Qed.
Lemma accept_step_ledger s s' i b l failure :
  ledger s → sh_io s !! i = Some (MkIo b (IoAccept l)) → accept_step i l failure s = Some s' → ledger s'.
Proof.
  intros Hl Hi. unfold accept_step. destruct (sh_listeners s !! l) as [st|] eqn:El; [|done]. intros [= <-].
  destruct (ls_closing st); [by eapply accept_end_ledger|]. destruct failure; [by eapply accept_end_ledger|].
  simpl. eapply (listener_ledger (make_endpoint s).2); [by apply make_endpoint_ledger|done..].
Qed.

(** ** Every step *)

Lemma start_ledger_io s s' i op :
  ledger s → sh_io s !! i = Some (MkIo false op) → starts_itself op = true → start_io i s = Some s' → ledger s'.
Proof.
  intros Hl Hi Ho. unfold start_io. rewrite Hi. intros [= <-]. eapply replace_ledger; [done..|]. by destruct op.
Qed.
Lemma run_task_ledger s s' t : ledger s → run_task_step t s = Some s' → ledger s'.
Proof.
  intros Hl. unfold run_task_step. destruct (sh_tasks s !! t) as [[cb|i|cb m]|] eqn:Ht; [| | |done].
  - intros [= <-]. by eapply task_ledger.
  - destruct (start_io i s) as [s1|] eqn:E; [|done]. intros [= <-]. by eapply start_connect_ledger.
  - intros [= <-]. by eapply task_ledger.
Qed.

Lemma request_ledger q s s' : ledger s → request_step q s = Some s' → ledger s'.
Proof.
  intros Hl. destruct q; simpl.
  - intros [= <-]. by apply make_engine_ledger.
  - unfold close_dns. destruct (sh_engines s !! e) as [en|] eqn:E; [|done]. intros [= <-]. by eapply engine_ledger.
  - intros [= <-]. by apply run_ledger.
  - destruct (run_after e s) as [[id s1]|] eqn:E; [|done]. intros [= <-]. by eapply run_after_ledger.
  - intros [= <-]. by apply engine_cancel_ledger.
  - destruct (engine_connect e s) as [[id s1]|] eqn:E; [|done]. intros [= <-]. by eapply connect_ledger.
  - intros [= <-]. by apply cancel_connect_ledger.
  - by apply read_ledger.
  - by apply write_ledger.
  - by apply destroy_endpoint_ledger.
  - intros [= <-]. by apply create_listener_ledger.
  - destruct (listener_bind l bound s) as [[r s1]|] eqn:E; [|done]. intros [= <-]. by eapply bind_ledger.
  - destruct (listener_start l s) as [[r s1]|] eqn:E; [|done]. intros [= <-]. by eapply start_ledger.
  - by apply destroy_listener_ledger.
  - intros [= <-]. by apply get_resolver_ledger.
  - by apply destroy_resolver_ledger.
  - by apply lookup_hostname_ledger.
  - by apply lookup_unimplemented_ledger.
Qed.
Lemma continuation_ledger c s s' : ledger s → continuation_step c s = Some s' → ledger s'.
Proof.
  intros Hl. destruct c; simpl.
  - by apply run_task_ledger.
  - by apply timer_fires_ledger.
  - destruct (sh_io s !! i) as [[[] op]|] eqn:Hi; try done. destruct (starts_itself op) eqn:Ho; [|done]. by eapply start_ledger_io.
  - by apply expires_ledger.
  - by apply connect_done_ledger.
  - destruct (sh_io s !! i) as [[[] []]|] eqn:Hi; try done. by eapply read_done_ledger.
  - destruct (sh_io s !! i) as [[[] []]|] eqn:Hi; try done. by eapply write_step_ledger.
  - destruct (sh_io s !! i) as [[[] []]|] eqn:Hi; try done. by eapply accept_step_ledger.
  - destruct (sh_io s !! i) as [[[] []]|] eqn:Hi; try done. intros [= <-]. by eapply lookup_done_ledger.
Qed.

(** ** A listener reports its end when its accept loops have ended *)

Definition listener_done (st : listener_state) : Prop := ls_shutdown st = None ↔ ls_closing st = true ∧ ls_active st = 0.
Definition listeners_done (s : shard) : Prop := ∀ l st, sh_listeners s !! l = Some st → listener_done st.

Lemma listeners_frame s s' : sh_listeners s' = sh_listeners s → listeners_done s → listeners_done s'.
Proof. intros E Hd l st. rewrite E. apply Hd. Qed.
Lemma listeners_put s l st : listeners_done s → listener_done st → listeners_done (put_listeners (<[l := st]> (sh_listeners s)) s).
Proof. intros Hd Hs l' st'. simpl. intros Hx. apply lookup_insert_Some in Hx as [[_ <-]|[_ Hx]]; [done|by eapply Hd]. Qed.

(** [complete] makes up for a listener that has just become complete. *)
Lemma complete_done s l st :
  listeners_done s → (ls_shutdown st = None → ls_closing st = true ∧ ls_active st = 0) →
  listeners_done (complete l (put_listeners (<[l := st]> (sh_listeners s)) s)).
Proof.
  intros Hd Hs. unfold complete. simpl. rewrite lookup_insert_eq.
  destruct st as [[cb|] sk ac cl sd x a]; simpl in Hs.
  - destruct ac as [|n], cl; try (apply listeners_put; [done|unfold listener_done; simpl; naive_solver]).
    intros l' st'. simpl. rewrite insert_insert_eq. intros Hx. apply lookup_insert_Some in Hx as [[_ <-]|[_ Hx]]; [|by eapply Hd].
    by unfold listener_done.
  - destruct (Hs eq_refl) as [-> ->]. apply listeners_put; [done|]. by unfold listener_done.
Qed.

Lemma start_all_done n s l st :
  listeners_done s → sh_listeners s !! l = Some st → ls_closing st = false → listeners_done (Nat.iter n (start_accept l) s).
Proof.
  intros Hd El Ec.
  assert (∀ l' st', sh_listeners (Nat.iter n (start_accept l) s) !! l' = Some st' →
    l' ≠ l → sh_listeners s !! l' = Some st') as Ho.
  { induction n as [|n IH]; intros l' st'; simpl; [done|]. intros Hx Hne. rewrite lookup_alter_ne in Hx by done. by apply IH. }
  intros l' st' Hx. destruct (decide (l' = l)) as [->|Hne]; [|by eapply Hd, Ho].
  apply start_all_listeners in Hx as (st0 & E0 & Hc & Hs). simplify_eq. unfold listener_done.
  pose proof (Hd _ _ El) as Hdl. unfold listener_done in Hdl. rewrite Hc, Hs, Ec. rewrite Hdl, Ec. naive_solver.
Qed.
