(* ===== verification/GrpcDrain.v ===== *)
(** * What the shutdown of gRPC waits for

    drain_local_grpc and close_grpc_engine poll the counters of a shard until
    they are zero. With the ledger (GrpcLedger, GrpcEngineTheorems): nothing is
    left then, every callback was called exactly once or cancelled, and the
    shard gets there when gRPC asks for nothing more. *)

From S2P Require Import Prelude Decimal GateProtocol Yaml Options GrpcEngine GrpcLedger GrpcEngineTheorems.
From stdpp Require Import gmultiset list.
From Stdlib Require Import Ascii.

(** ** Listeners, continued *)

Lemma request_done q s s' : listeners_done s → request_step q s = Some s' → listeners_done s'.
Proof.
  intros Hd. destruct q; simpl; intros Hq.
  11: { injection Hq as <-. intros l st. simpl. intros Hx. apply lookup_insert_Some in Hx as [[_ <-]|[_ Hx]]; [|by eapply Hd].
        unfold listener_done. simpl. naive_solver. }
  11: { unfold listener_bind in Hq. destruct (sh_listeners s !! l) as [[cb sk ac [] sd st a]|] eqn:E; try done. injection Hq as <-.
        destruct sd; [done|]. destruct bound; [|done]. simpl. apply listeners_put; [done|]. exact (Hd _ _ E). }
  11: { unfold listener_start in Hq. destruct (sh_listeners s !! l) as [[cb sk ac [] sd st a]|] eqn:E; try done. injection Hq as <-.
        destruct sd; [done|]. simpl. eapply start_all_done; [|simpl; apply lookup_insert_eq|done].
        apply listeners_put; [done|]. exact (Hd _ _ E). }
  11: { unfold destroy_listener in Hq. destruct (sh_listeners s !! l) as [[cb sk ac [] sd st a]|] eqn:E; try done. injection Hq as <-.
        apply (complete_done (shut_down (ListenerFds l) s)); [done|]. simpl. intros ->. pose proof (Hd _ _ E) as Hx. unfold listener_done in Hx. simpl in Hx. naive_solver. }
  all: eapply listeners_frame; [|exact Hd].
  - by injection Hq as <-.
  - unfold close_dns in Hq. destruct (sh_engines s !! e); [|done]. by injection Hq as <-.
  - by injection Hq as <-.
  - unfold run_after, next_id in Hq. destruct (sh_engines s !! e); [|done]. by injection Hq as <-.
  - injection Hq as <-. unfold engine_cancel. by destruct (sh_timers s !! k).
  - unfold engine_connect, next_id in Hq. destruct (sh_engines s !! e); [|done]. by injection Hq as <-.
  - injection Hq as <-. unfold cancel_connect. destruct (sh_connections s !! k) as [i|]; [|done].
    destruct (sh_io s !! i) as [[b [k' [[cb|] tm cc ex]| | | |]]|]; done.
  - unfold endpoint_read in Hq. destruct (sh_endpoints s !! e) as [[[] [] w d]|]; try done. by injection Hq as <-.
  - unfold endpoint_write in Hq. destruct (sh_endpoints s !! e) as [[[] r [] d]|]; try done. by injection Hq as <-.
  - unfold destroy_endpoint in Hq. destruct (sh_endpoints s !! e) as [[[] r w d]|]; try done. by injection Hq as <-.
  - injection Hq as <-. unfold get_resolver. by case_bool_decide.
  - unfold destroy_resolver in Hq. destruct (sh_resolvers s !! r); [|done]. by injection Hq as <-.
  - unfold lookup_hostname in Hq. destruct (sh_resolvers s !! r); [|done]. by injection Hq as <-.
  - unfold lookup_unimplemented in Hq. destruct (sh_resolvers s !! r); [|done]. by injection Hq as <-.
Qed.

(** What a continuation that is no accept does not touch. *)
Lemma write_end_frame i e cb st s s' :
  write_end i e cb st s = Some s' →
  sh_listeners s' = sh_listeners s ∧ sh_io s' = delete i (sh_io s) ∧ sh_tasks s' = sh_tasks s ∧ sh_timers s' = sh_timers s.
Proof. unfold write_end. destruct (sh_endpoints s !! e); [|done]. by intros [= <-]. Qed.
Lemma connect_done_frame i r s s' :
  connect_done i r s = Some s' →
  sh_listeners s' = sh_listeners s ∧ sh_io s' = delete i (sh_io s) ∧ sh_tasks s' = sh_tasks s ∧ sh_timers s' = sh_timers s.
Proof.
  unfold connect_done. destruct (sh_io s !! i) as [[[] [k p| | | |]]|]; try done.
  destruct (pc_cancelled p), (pc_callback p), (pc_expired p), r; by intros [= <-].
Qed.
Lemma lookup_done_frame i e cb n p r s :
  let s' := lookup_done i e cb n p r s in
  sh_listeners s' = sh_listeners s ∧ sh_io s' = delete i (sh_io s) ∧ sh_tasks s' = sh_tasks s ∧ sh_timers s' = sh_timers s.
Proof. unfold lookup_done. by destruct (split_name n p). Qed.

Lemma accept_end_done s i b l st status :
  ledger s → listeners_done s → sh_io s !! i = Some (MkIo b (IoAccept l)) → sh_listeners s !! l = Some st →
  listeners_done (accept_end i l st status s).
Proof.
  intros Hl Hd Hi El. unfold accept_end. set (st' := MkListener _ _ _ _ _ _ _).
  assert (listeners_done (complete l (put_listeners (<[l := st']> (sh_listeners (end_io i s))) (end_io i s)))) as Hx; [|exact Hx].
  apply complete_done; [by eapply listeners_frame; [|exact Hd]|]. simpl. intros Hn.
  destruct (proj1 (Hd _ _ El) Hn) as [Hc Ha]. rewrite Hc, Ha. done.
Qed.

(** The continuations of an accept loop. *)
Definition is_accept (c : continuation) : bool := match c with Accepted _ _ => true | _ => false end.
Lemma continuation_frame c s s' :
  is_accept c = false → continuation_step c s = Some s' → sh_listeners s' = sh_listeners s.
Proof.
  intros Ha. destruct c; simpl; try done; intros Hq.
  - unfold run_task_step, start_io in Hq. destruct (sh_tasks s !! t) as [[|operation|]|]; try done; [by injection Hq as <-| |by injection Hq as <-].
    destruct (sh_io s !! operation) as [[[] op]|]; try done. by injection Hq as <-.
  - unfold timer_fires in Hq. destruct (sh_timers s !! k); [|done]. by injection Hq as <-.
  - unfold start_io in Hq. destruct (sh_io s !! i) as [[[] op]|]; try done. destruct (starts_itself op); [|done]. by injection Hq as <-.
  - unfold connect_expires in Hq. destruct (sh_io s !! i) as [[b [k [cb [] cc ex]| | | |]]|]; try done. by injection Hq as <-.
  - by apply connect_done_frame in Hq as [? _].
  - destruct (sh_io s !! i) as [[[] [|endpoint cb| | |]]|]; try done. unfold read_done in Hq. destruct (sh_endpoints s !! endpoint); [|done]. by injection Hq as <-.
  - destruct (sh_io s !! i) as [[[] [| |endpoint cb slices| |]]|]; try done. unfold write_step in Hq. destruct slices as [|x l]; [by apply write_end_frame in Hq as [? _]|].
    destruct (sh_endpoints s !! endpoint); [|done]. destruct failure; [by apply write_end_frame in Hq as [? _]|]. by injection Hq as <-.
  - destruct (sh_io s !! i) as [[[] []]|]; try done. injection Hq as <-. apply lookup_done_frame.
Qed.

Lemma continuation_done c s s' : ledger s → listeners_done s → continuation_step c s = Some s' → listeners_done s'.
Proof.
  intros Hl Hd Hq. destruct (is_accept c) eqn:Ha; [|by eapply listeners_frame; [by eapply continuation_frame|exact Hd]].
  destruct c; try done. simpl in Hq. destruct (sh_io s !! i) as [[[] [| | |l|]]|] eqn:Hi; try done. unfold accept_step in Hq.
  destruct (sh_listeners s !! l) as [st|] eqn:El; [|done]. injection Hq as <-.
  destruct (ls_closing st) eqn:Ec; [by eapply accept_end_done|]. destruct failure; [by eapply accept_end_done|].
  simpl. apply (listeners_put (make_endpoint s).2); [by eapply listeners_frame; [|exact Hd]|].
  pose proof (Hd _ _ El) as Hx. unfold listener_done in *. simpl. by rewrite Ec in *.
Qed.

Lemma shard_run_ok es s s' :
  ledger s → listeners_done s → shard_run es s = Some s' → ledger s' ∧ listeners_done s'.
Proof.
  revert s. induction es as [|e es IH]; intros s Hl Hd; simpl; [by intros [= <-]|].
  destruct (shard_step e s) as [s1|] eqn:E; [|done]. destruct e as [q|c]; simpl in E; apply IH.
  - by eapply request_ledger.
  - by eapply request_done.
  - by eapply continuation_ledger.
  - by eapply continuation_done.
Qed.
Lemma fresh_shard_ok es s : shard_run es fresh_shard = Some s → ledger s ∧ listeners_done s.
Proof. apply shard_run_ok; [apply fresh_ledger|]. intros l st. simpl. by rewrite lookup_empty. Qed.

(** ** When the counters are zero *)

Definition done_with (s : shard) : list nat := (sh_called s).*1 ++ sh_dropped s ++ sh_lost s.

Lemma settled_bag s : settled s = bag_of (done_with s).
Proof. unfold settled, done_with. rewrite !bag_app. multiset_solver. Qed.
Lemma bag_elements (l : list nat) : elements (bag_of l) ≡ₚ l.
Proof.
  induction l as [|x l IH]; [done|]. unfold bag_of in *. rewrite list_to_set_disj_cons, gmultiset_elements_disj_union, gmultiset_elements_singleton.
  simpl. by rewrite IH.
Qed.
Lemma ledger_perm s : ledger s → done_with s ++ elements (held s) ≡ₚ seq 0 (sh_callbacks s).
Proof.
  intros Hl. rewrite <- (bag_elements (seq 0 _)), <- (lg_callbacks s Hl), gmultiset_elements_disj_union, settled_bag.
  by rewrite bag_elements.
Qed.

Lemma size_empty `{Countable K} {V} (m : gmap K V) : GrpcLedger.total (λ _, 1) m = 0 → m = ∅.
Proof. rewrite total_size. apply map_size_empty_inv. Qed.
Lemma pending_empty (m : gmap (nat * Z) nat) :
  (∀ e, size (filter (λ kv : nat * Z * nat, kv.1.1 = e) m) = 0) → m = ∅.
Proof.
  intros Hm. apply map_eq. intros [e id]. rewrite lookup_empty. destruct (m !! (e, id)) as [x|] eqn:E; [|done].
  specialize (Hm e). apply map_size_empty_inv in Hm.
  assert (filter (λ kv : nat * Z * nat, kv.1.1 = e) m !! (e, id) = Some x) as Hx by (by apply map_lookup_filter_Some).
  by rewrite Hm, lookup_empty in Hx.
Qed.

Lemma drained_counts s :
  drained s = true →
  ob_active_io (sh_observed s) = 0 ∧ ob_active_tasks (sh_observed s) = 0 ∧ ob_endpoints (sh_observed s) = 0 ∧
  ob_resolvers (sh_observed s) = 0 ∧ ob_listeners (sh_observed s) = 0.
Proof. unfold drained. rewrite !andb_true_iff, !Nat.eqb_eq. tauto. Qed.

(** ** What is given up is shut down

    The sockets of endpoints and listeners that gRPC has destroyed, and of
    connections that are cancelled or whose time is up, have been shut down, so
    that the operations on them do not wait for the other end any more. *)
Record shut_ok (s : shard) : Prop := {
  so_endpoint e st : sh_endpoints s !! e = Some st → es_closing st = true → EndpointFd e ∈ sh_shut s;
  so_listener l st : sh_listeners s !! l = Some st → ls_closing st = true → ListenerFds l ∈ sh_shut s;
  so_connect i b k p : sh_io s !! i = Some (MkIo b (IoConnect k p)) → pc_timeout p = false →
    ConnectFd i ∈ sh_shut s;
  so_given_up i b k p : sh_io s !! i = Some (MkIo b (IoConnect k p)) → ConnectFd i ∈ sh_shut s →
    pc_expired p = true ∨ pc_cancelled p = true;
  so_numbers i : ConnectFd i ∈ sh_shut s → i < sh_ids s }.

Lemma complete_closing l s l' st :
  sh_listeners (complete l s) !! l' = Some st → ∃ st0, sh_listeners s !! l' = Some st0 ∧ ls_closing st = ls_closing st0.
Proof.
  unfold complete. destruct (sh_listeners s !! l) as [[[cb|] sk [|n] [] sd x a]|] eqn:E; try by eauto.
  simpl. intros Hx. apply lookup_insert_Some in Hx as [[<- <-]|[_ Hx]]; by eauto.
Qed.
Lemma complete_rest l s :
  sh_io (complete l s) = sh_io s ∧ sh_endpoints (complete l s) = sh_endpoints s ∧ sh_shut (complete l s) = sh_shut s ∧
  sh_ids (complete l s) = sh_ids s.
Proof. unfold complete. by destruct (sh_listeners s !! l) as [[[cb|] sk [|n] [] sd x a]|]. Qed.
Lemma complete_shut l s : shut_ok s → shut_ok (complete l s).
Proof.
  intros [He Hl Hc Hg Hn]. destruct (complete_rest l s) as (E1 & E2 & E3 & E4). split; rewrite ?E1, ?E2, ?E3, ?E4; try done.
  intros l' st (st0 & H0 & ->)%complete_closing. by apply Hl.
Qed.

(** A step that leaves sockets alone but for new or changed operations, none of
    them a connection that is given up. *)
Ltac still_shut Hs :=
  let He := fresh "He" in let Hls := fresh "Hls" in let Hco := fresh "Hco" in let Hgu := fresh "Hgu" in let Hnu := fresh "Hnu" in
  destruct (Hs) as [He Hls Hco Hgu Hnu]; split; simpl; intros; at_key; simpl in *;
  repeat match goal with H : _ ∈ {[_]} ∪ _ |- _ => apply elem_of_union in H as [H%elem_of_singleton|H]; simplify_eq end;
  rewrite ?elem_of_union, ?elem_of_singleton;
  first
    [ discriminate
    | by auto
    | solve [eapply He; eassumption]
    | solve [eapply Hls; eassumption]
    | solve [eapply Hco; eassumption]
    | solve [eapply Hgu; eassumption]
    | right; solve [eapply He; eassumption]
    | right; solve [eapply Hls; eassumption]
    | right; solve [eapply Hco; eassumption]
    | match goal with H : ConnectFd _ ∈ _ |- _ => apply Hnu in H; lia end
    | match goal with Hi : sh_io _ !! _ = Some _, H : ConnectFd _ ∈ _ |- _ => by destruct (Hgu _ _ _ _ Hi H); auto end ].

Lemma start_all_shut n l s : shut_ok s → shut_ok (Nat.iter n (start_accept l) s).
Proof.
  intros Hs. induction n as [|n IH]; [done|]. simpl Nat.iter. set (s1 := Nat.iter n _ s) in *. destruct IH as [He Hls Hco Hgu Hnu]. split.
  - exact He.
  - intros l' st (st0 & H0 & -> & _)%start_accept_listeners. by apply Hls.
  - simpl. intros i b k p Hi Hp. at_key. by eapply Hco.
  - simpl. intros i b k p Hi Hp. at_key. by eapply Hgu.
  - simpl. intros i Hi%Hnu. lia.
Qed.

Lemma io_number s i x : ledger s → sh_io s !! i = Some x → i < sh_ids s.
Proof. intros Hl Hi. destruct (decide (i < sh_ids s)) as [|Hn]; [done|]. destruct (lg_fresh s Hl i) as (E & _); [lia|]. congruence. Qed.

Lemma request_shut q s s' : ledger s → shut_ok s → request_step q s = Some s' → shut_ok s'.
Proof.
  intros Hl Hs. destruct q; simpl; intros Hq.
  - injection Hq as <-. still_shut Hs.
  - unfold close_dns in Hq. destruct (sh_engines s !! e); [|done]. injection Hq as <-. still_shut Hs.
  - injection Hq as <-. still_shut Hs.
  - unfold run_after, next_id in Hq. destruct (sh_engines s !! e); [|done]. injection Hq as <-. still_shut Hs.
  - injection Hq as <-. unfold engine_cancel. destruct (sh_timers s !! k); [|done]. still_shut Hs.
  - unfold engine_connect, next_id in Hq. destruct (sh_engines s !! e); [|done]. injection Hq as <-. still_shut Hs.
  - injection Hq as <-. unfold cancel_connect. destruct (sh_connections s !! k) as [i|]; [|done].
    destruct (sh_io s !! i) as [[b [k' [[cb|] t cc ex]| | | |]]|] eqn:Hi; simpl; try still_shut Hs.
    pose proof (io_number _ _ _ Hl Hi). still_shut Hs.
  - unfold endpoint_read in Hq. destruct (sh_endpoints s !! e) as [[[] [] w d]|]; try done. injection Hq as <-. still_shut Hs.
  - unfold endpoint_write in Hq. destruct (sh_endpoints s !! e) as [[[] r [] d]|]; try done. injection Hq as <-. still_shut Hs.
  - unfold destroy_endpoint in Hq. destruct (sh_endpoints s !! e) as [[[] r w d]|]; try done. injection Hq as <-. still_shut Hs.
  - injection Hq as <-. still_shut Hs.
  - unfold listener_bind in Hq. destruct (sh_listeners s !! l) as [[cb sk ac [] sd st a]|] eqn:E; try done. injection Hq as <-.
    destruct sd; [done|]. destruct bound; [|done]. still_shut Hs.
  - unfold listener_start in Hq. destruct (sh_listeners s !! l) as [[cb sk ac [] sd st a]|] eqn:E; try done. injection Hq as <-.
    destruct sd; [done|]. apply start_all_shut. still_shut Hs.
  - unfold destroy_listener in Hq. destruct (sh_listeners s !! l) as [[cb sk ac [] sd st a]|] eqn:E; try done. injection Hq as <-.
    apply complete_shut. still_shut Hs.
  - injection Hq as <-. unfold get_resolver. case_bool_decide; [|done]. still_shut Hs.
  - unfold destroy_resolver in Hq. destruct (sh_resolvers s !! r); [|done]. injection Hq as <-. still_shut Hs.
  - unfold lookup_hostname in Hq. destruct (sh_resolvers s !! r); [|done]. injection Hq as <-. still_shut Hs.
  - unfold lookup_unimplemented in Hq. destruct (sh_resolvers s !! r); [|done]. injection Hq as <-. still_shut Hs.
Qed.

Lemma continuation_shut c s s' : ledger s → shut_ok s → continuation_step c s = Some s' → shut_ok s'.
Proof.
  intros Hl Hs. destruct c; simpl; intros Hq.
  - unfold run_task_step, start_io in Hq. destruct (sh_tasks s !! t) as [[|operation|]|]; try done; [injection Hq as <-; still_shut Hs| |injection Hq as <-; still_shut Hs].
    destruct (sh_io s !! operation) as [[[] op]|] eqn:Hi; try done. injection Hq as <-. still_shut Hs.
  - unfold timer_fires in Hq. destruct (sh_timers s !! k); [|done]. injection Hq as <-. still_shut Hs.
  - unfold start_io in Hq. destruct (sh_io s !! i) as [[[] op]|] eqn:Hi; try done. destruct (starts_itself op); [|done]. injection Hq as <-. still_shut Hs.
  - unfold connect_expires in Hq. destruct (sh_io s !! i) as [[b [k [cb [] cc ex]| | | |]]|] eqn:Hi; try done. injection Hq as <-.
    pose proof (io_number _ _ _ Hl Hi). still_shut Hs.
  - unfold connect_done in Hq. destruct (sh_io s !! i) as [[[] [k p| | | |]]|] eqn:Hi; try done.
    destruct (pc_cancelled p), (pc_callback p); injection Hq as <-; try still_shut Hs.
    destruct (pc_expired p); [still_shut Hs|]. destruct r; still_shut Hs.
  - destruct (sh_io s !! i) as [[[] [|e cb| | |]]|] eqn:Hi; try done. unfold read_done in Hq. destruct (sh_endpoints s !! e) eqn:Ee; [|done].
    injection Hq as <-. still_shut Hs.
  - destruct (sh_io s !! i) as [[[] [| |e cb l| |]]|] eqn:Hi; try done. unfold write_step, write_end in Hq.
    destruct (sh_endpoints s !! e) eqn:Ee; [|by destruct l, failure]. destruct l as [|x l]; [|destruct failure]; injection Hq as <-; still_shut Hs.
  - destruct (sh_io s !! i) as [[[] [| | |l|]]|] eqn:Hi; try done. unfold accept_step in Hq.
    destruct (sh_listeners s !! l) as [st|] eqn:El; [|done]. injection Hq as <-.
    destruct (ls_closing st) eqn:Ec; [|destruct failure]; try (apply complete_shut); still_shut Hs.
  - destruct (sh_io s !! i) as [[[] [| | | |e cb n p]]|] eqn:Hi; try done. injection Hq as <-. unfold lookup_done. destruct (split_name n p).
    still_shut Hs.
Qed.

Lemma shard_run_shut es s s' : ledger s → shut_ok s → shard_run es s = Some s' → shut_ok s'.
Proof.
  revert s. induction es as [|e es IH]; intros s Hl Hs; simpl; [by intros [= <-]|].
  destruct (shard_step e s) as [s1|] eqn:E; [|done]. destruct e as [q|c]; simpl in E; apply IH.
  - by eapply request_ledger.
  - by eapply request_shut.
  - by eapply continuation_ledger.
  - by eapply continuation_shut.
Qed.
Lemma fresh_shut : shut_ok fresh_shard.
Proof. split; simpl; intros *; rewrite ?lookup_empty; set_solver. Qed.

(** ** When gRPC asks for nothing more *)

Definition op_work (op : io_op) : nat :=
  match op with
  | IoConnect _ p => 1 + (if pc_timeout p then 1 else 0)
  | IoWrite _ _ l => 1 + length l
  | _ => 1
  end.
Definition io_work (x : io) : nat := (if io_started x then 0 else 1) + op_work (io_what x).
Definition work (s : shard) : nat :=
  GrpcLedger.total io_work (sh_io s) + GrpcLedger.total (λ _, 1) (sh_tasks s) + GrpcLedger.total (λ _, 1) (sh_timers s).
Definition listeners_closing (s : shard) : Prop := ∀ l st, sh_listeners s !! l = Some st → ls_closing st = true.

Lemma op_work_pos op : 1 ≤ op_work op.
Proof. destruct op; simpl; lia. Qed.
Lemma work_delete s s' i x :
  sh_io s !! i = Some x → sh_io s' = delete i (sh_io s) → sh_tasks s' = sh_tasks s → sh_timers s' = sh_timers s → work s' < work s.
Proof.
  intros Hi E1 E2 E3. unfold work. rewrite E1, E2, E3, (total_delete io_work _ i x Hi). unfold io_work at 2.
  pose proof (op_work_pos (io_what x)). lia.
Qed.
Lemma work_update s s' i x y :
  sh_io s !! i = Some x → sh_io s' = <[i := y]> (sh_io s) → sh_tasks s' = sh_tasks s → sh_timers s' = sh_timers s →
  io_work y < io_work x → work s' < work s.
Proof. intros Hi E1 E2 E3 Hw. unfold work. rewrite E1, E2, E3. pose proof (total_update io_work _ i x y Hi). lia. Qed.

Lemma complete_frame l s :
  sh_io (complete l s) = sh_io s ∧ sh_tasks (complete l s) = sh_tasks s ∧ sh_timers (complete l s) = sh_timers s.
Proof. unfold complete. by destruct (sh_listeners s !! l) as [[[cb|] sk [|n] [] sd st a]|]. Qed.
Lemma accept_end_frame i l st status s :
  let s' := accept_end i l st status s in
  sh_io s' = delete i (sh_io s) ∧ sh_tasks s' = sh_tasks s ∧ sh_timers s' = sh_timers s.
Proof. unfold accept_end. cbv zeta. set (s1 := end_io _ _). destruct (complete_frame l s1) as (-> & -> & ->). done. Qed.

Lemma run_task_work t s s' : run_task_step t s = Some s' → work s' < work s.
Proof.
  unfold run_task_step. destruct (sh_tasks s !! t) as [x|] eqn:Ht; [|done].
  pose proof (total_delete (λ _, 1) _ t x Ht) as Hd. cbn beta in Hd.
  destruct x as [cb|i|cb m]; [intros [= <-]; unfold work; simpl; lia| |intros [= <-]; unfold work; simpl; lia].
  unfold start_io. destruct (sh_io s !! i) as [[[] op]|] eqn:Hi; try done. intros [= <-].
  pose proof (total_update io_work _ i _ (MkIo true op) Hi) as Hu. unfold io_work in Hu at 2 4. simpl in Hu. unfold work. simpl. lia.
Qed.

Lemma continuation_work c s s' : listeners_closing s → continuation_step c s = Some s' → work s' < work s.
Proof.
  intros Hc. destruct c; simpl.
  - apply run_task_work.
  - unfold timer_fires. destruct (sh_timers s !! k) as [cb|] eqn:Ht; [|done]. intros [= <-].
    pose proof (total_delete (λ _, 1) _ k cb Ht) as Hd. cbn beta in Hd. unfold work. simpl. lia.
  - destruct (sh_io s !! i) as [[[] op]|] eqn:Hi; try done. destruct (starts_itself op); [|done]. unfold start_io. rewrite Hi.
    intros [= <-]. eapply work_update; [done..|]. unfold io_work. simpl. lia.
  - unfold connect_expires. destruct (sh_io s !! i) as [[b [k [cb [] cc ex]| | | |]]|] eqn:Hi; try done. intros [= <-].
    eapply work_update; [done..|]. unfold io_work. simpl. lia.
  - intros Hq. assert (is_Some (sh_io s !! i)) as [x Hi] by (unfold connect_done in Hq; destruct (sh_io s !! i); [by eexists|done]).
    apply connect_done_frame in Hq as (_ & ? & ? & ?). by eapply work_delete.
  - destruct (sh_io s !! i) as [[[] [|e cb| | |]]|] eqn:Hi; try done. unfold read_done. destruct (sh_endpoints s !! e); [|done].
    intros [= <-]. by eapply work_delete.
  - destruct (sh_io s !! i) as [[[] [| |e cb l| |]]|] eqn:Hi; try done. unfold write_step.
    destruct l as [|x l]; [intros Hq; apply write_end_frame in Hq as (_ & ? & ? & ?); by eapply work_delete|].
    destruct (sh_endpoints s !! e); [|done].
    destruct failure; [intros Hq; apply write_end_frame in Hq as (_ & ? & ? & ?); by eapply work_delete|].
    intros [= <-]. eapply work_update; [done..|]. unfold io_work. simpl. lia.
  - destruct (sh_io s !! i) as [[[] [| | |l|]]|] eqn:Hi; try done. unfold accept_step.
    destruct (sh_listeners s !! l) as [st|] eqn:El; [|done]. rewrite (Hc _ _ El). intros [= <-].
    destruct (accept_end_frame i l st (ls_status st) s) as (? & ? & ?). by eapply work_delete.
  - destruct (sh_io s !! i) as [[[] [| | | |e cb n p]]|] eqn:Hi; try done. intros [= <-].
    destruct (lookup_done_frame i e cb n p r s) as (_ & ? & ? & ?). by eapply work_delete.
Qed.

Lemma closing_kept c s s' : listeners_closing s → continuation_step c s = Some s' → listeners_closing s'.
Proof.
  intros Hc Hq. destruct (is_accept c) eqn:Ha; [|intros l st; rewrite (continuation_frame c s s') by done; apply Hc].
  destruct c; try done. simpl in Hq. destruct (sh_io s !! i) as [[[] [| | |l|]]|] eqn:Hi; try done. unfold accept_step in Hq.
  destruct (sh_listeners s !! l) as [st|] eqn:El; [|done]. rewrite (Hc _ _ El) in Hq. injection Hq as <-.
  unfold accept_end, complete. simpl. rewrite lookup_insert_eq. rewrite (Hc _ _ El).
  assert (∀ st', ls_closing st' = true → listeners_closing (put_listeners (<[l := st']> (sh_listeners s)) s)) as Hp.
  { intros st' Hs l' x Hx. simpl in Hx. apply lookup_insert_Some in Hx as [[_ <-]|[_ Hx]]; [done|by eapply Hc]. }
  intros l' x Hx. destruct (ls_shutdown st), (pred (ls_active st)); simpl in Hx; rewrite ?insert_insert_eq in Hx; by eapply Hp, Hx.
Qed.

(** What goes on without the other end of a connection: tasks and timers, among
    them the timeout of a connection attempt; what waits for a socket only when
    the socket was shut down; and lookups, which the resolver ends itself. *)
Definition by_itself (c : continuation) (s : shard) : bool :=
  match c with
  | ConnectDone i _ => bool_decide (ConnectFd i ∈ sh_shut s)
  | ReadDone i _ => match sh_io s !! i with Some (MkIo _ (IoRead e _)) => bool_decide (EndpointFd e ∈ sh_shut s) | _ => false end
  | Sent i _ =>
      match sh_io s !! i with
      | Some (MkIo _ (IoWrite e _ l)) => bool_decide (l = []) || bool_decide (EndpointFd e ∈ sh_shut s)
      | _ => false
      end
  | Accepted i _ => match sh_io s !! i with Some (MkIo _ (IoAccept l)) => bool_decide (ListenerFds l ∈ sh_shut s) | _ => false end
  | TaskRuns _ | TimerFires _ | Starts _ | ConnectExpires _ | LookupDone _ _ => true
  end.
Fixpoint quiet_run (cs : list continuation) (s : shard) : option shard :=
  match cs with
  | [] => Some s
  | c :: cs =>
      if by_itself c s then match continuation_step c s with Some s => quiet_run cs s | None => None end else None
  end.
Lemma quiet_run_run cs s s' : quiet_run cs s = Some s' → shard_run (inr <$> cs) s = Some s'.
Proof.
  revert s. induction cs as [|c cs IH]; intros s; simpl; [done|]. destruct (by_itself c s); [|done].
  destruct (continuation_step c s); [apply IH|done].
Qed.

(** gRPC has destroyed its endpoints, listeners and resolvers. *)
Definition given_up (s : shard) : Prop :=
  (∀ e st, sh_endpoints s !! e = Some st → es_closing st = true) ∧ listeners_closing s ∧ sh_resolvers s = ∅.

Definition outstanding (s : shard) : Prop := sh_io s ≠ ∅ ∨ sh_tasks s ≠ ∅ ∨ sh_timers s ≠ ∅.

Lemma task_progress s t x : ledger s → sh_tasks s !! t = Some x → ∃ s', continuation_step (TaskRuns t) s = Some s'.
Proof.
  intros Hl Ht. simpl. unfold run_task_step. rewrite Ht. destruct x as [cb|i|cb m]; [by eexists| |by eexists].
  destruct (lg_started s Hl t i Ht) as [(k & p & Hi) _]. unfold start_io. rewrite Hi. by eexists.
Qed.
(** Something outstanding goes on by itself once everything is given up. *)
Lemma io_progress s i x :
  ledger s → shut_ok s → given_up s → sh_io s !! i = Some x → ∃ c s', by_itself c s = true ∧ continuation_step c s = Some s'.
Proof.
  intros Hl [He Hls Hco _ _] (Gep & Gl & _) Hi. destruct x as [[] op].
  - destruct op as [k p|e cb|e cb l|l|e cb n p].
    + destruct (pc_timeout p) eqn:Ht.
      * exists (ConnectExpires i). simpl. unfold connect_expires. rewrite Hi. destruct p as [cb t cc ex]. simpl in Ht. subst t. by eexists.
      * exists (ConnectDone i (ConnectFailed "")). simpl. rewrite bool_decide_eq_true_2 by (by eapply Hco).
        unfold connect_done. rewrite Hi. destruct (pc_cancelled p), (pc_callback p); by eexists.
    + destruct (lg_endpoint s Hl _ _ _ _ Hi) as [st Est]. exists (ReadDone i (inl "")). simpl.
      rewrite Hi, bool_decide_eq_true_2 by (eapply He; [done|by eapply Gep]). unfold read_done. rewrite Est. by eexists.
    + destruct (lg_writes s Hl _ _ _ _ _ Hi) as [st Est]. exists (Sent i None). simpl.
      rewrite Hi, (bool_decide_eq_true_2 (EndpointFd e ∈ _)), orb_true_r by (eapply He; [done|by eapply Gep]).
      unfold write_step, write_end. rewrite Est. destruct l; by eexists.
    + destruct (lg_accept s Hl _ _ _ Hi) as [st El]. exists (Accepted i None). simpl.
      rewrite Hi, bool_decide_eq_true_2 by (eapply Hls; [done|by eapply Gl]). unfold accept_step. rewrite El. by eexists.
    + exists (LookupDone i (inl "")). simpl. rewrite Hi. by eexists.
  - destruct (starts_itself op) eqn:Ho.
    + exists (Starts i). simpl. rewrite Hi, Ho. unfold start_io. rewrite Hi. by eexists.
    + destruct op as [k p| | | |]; try done. destruct (lg_starts s Hl _ _ _ Hi) as [t Ht].
      destruct (task_progress s t _ Hl Ht) as [s' Hs]. by exists (TaskRuns t), s'.
Qed.

Lemma complete_endpoints l s : sh_endpoints (complete l s) = sh_endpoints s ∧ sh_resolvers (complete l s) = sh_resolvers s.
Proof. unfold complete. by destruct (sh_listeners s !! l) as [[[cb|] sk [|n] [] sd x a]|]. Qed.

(** What goes on by itself brings no endpoint back. *)
Lemma given_up_kept c s s' :
  shut_ok s → given_up s → by_itself c s = true → continuation_step c s = Some s' → given_up s'.
Proof.
  intros Hs (Gep & Gl & Gr) Hb Hq. pose proof (closing_kept c s s' Gl Hq) as Gl'.
  enough ((∀ e st, sh_endpoints s' !! e = Some st → es_closing st = true) ∧ sh_resolvers s' = ∅) by (unfold given_up; tauto).
  destruct c; simpl in Hq.
  - unfold run_task_step, start_io in Hq. destruct (sh_tasks s !! t) as [[|operation|]|]; try done; [by injection Hq as <-| |by injection Hq as <-].
    destruct (sh_io s !! operation) as [[[] op]|]; try done. by injection Hq as <-.
  - unfold timer_fires in Hq. destruct (sh_timers s !! k); [|done]. by injection Hq as <-.
  - unfold start_io in Hq. destruct (sh_io s !! i) as [[[] op]|]; try done. destruct (starts_itself op); [|done]. by injection Hq as <-.
  - unfold connect_expires in Hq. destruct (sh_io s !! i) as [[b [k [cb [] cc ex]| | | |]]|]; try done. by injection Hq as <-.
  - unfold connect_done in Hq. destruct (sh_io s !! i) as [[[] [k p| | | |]]|] eqn:Hi; try done.
    simpl in Hb. apply bool_decide_eq_true in Hb. destruct (so_given_up s Hs _ _ _ _ Hi Hb) as [Hx|Hx]; rewrite Hx in Hq.
    + destruct (pc_cancelled p), (pc_callback p); by injection Hq as <-.
    + by injection Hq as <-.
  - destruct (sh_io s !! i) as [[[] [|e cb| | |]]|]; try done. unfold read_done in Hq. destruct (sh_endpoints s !! e) as [st|] eqn:Ee; [|done].
    injection Hq as <-. split; [|done]. simpl. intros e' st' Hx. at_key; [exact (Gep _ _ Ee)|by eapply Gep].
  - destruct (sh_io s !! i) as [[[] [| |e cb l| |]]|]; try done. unfold write_step, write_end in Hq.
    destruct (sh_endpoints s !! e) as [st|] eqn:Ee; [|by destruct l, failure].
    destruct l as [|x l]; [|destruct failure]; injection Hq as <-; (split; [|done]); simpl; intros e' st' Hx; at_key; first [exact (Gep _ _ Ee)|by eapply Gep].
  - destruct (sh_io s !! i) as [[[] [| | |l|]]|]; try done. unfold accept_step in Hq.
    destruct (sh_listeners s !! l) as [st|] eqn:El; [|done]. rewrite (Gl _ _ El) in Hq. injection Hq as <-. unfold accept_end.
    set (s1 := end_io _ _). by destruct (complete_endpoints l s1) as [-> ->].
  - destruct (sh_io s !! i) as [[[] [| | | |e cb n p]]|]; try done. injection Hq as <-. unfold lookup_done. by destruct (split_name n p).
Qed.

Lemma quiet_run_kept cs s s' :
  ledger s → listeners_done s → shut_ok s → given_up s → quiet_run cs s = Some s' →
  ledger s' ∧ listeners_done s' ∧ shut_ok s' ∧ given_up s'.
Proof.
  revert s. induction cs as [|c cs IH]; intros s Hl Hd Hs Hg; simpl; [by intros [= <-]|].
  destruct (by_itself c s) eqn:Hb; [|done]. destruct (continuation_step c s) as [s1|] eqn:E; [|done]. apply IH.
  - by eapply continuation_ledger.
  - by eapply continuation_done.
  - by eapply continuation_shut.
  - by eapply given_up_kept.
Qed.

Lemma continuations_bound cs s s' :
  listeners_closing s → shard_run (inr <$> cs) s = Some s' → length cs + work s' ≤ work s.
Proof.
  revert s. induction cs as [|c cs IH]; intros s Hc; simpl; [intros [= <-]; lia|].
  destruct (continuation_step c s) as [s1|] eqn:E; [|done]. intros Hr.
  pose proof (continuation_work c s s1 Hc E). specialize (IH s1 (closing_kept c s s1 Hc E) Hr). lia.
Qed.

(** C15: Whatever gRPC asks of the event engine of a shard and in whatever order
    sockets, timers, lookups and scheduled tasks complete: no callback is called
    twice, and none after Cancel or CancelConnect said it was cancelled; and when
    the loops of drain_local_grpc and close_grpc_engine end, there is no
    operation, task, timer, connection attempt, resolver, open endpoint or
    listener left on the shard, and every callback was called once, was
    cancelled, or was lost because the endpoint of a new connection could not be
    made. *)
Theorem grpc_shutdown_complete es s :
  shard_run es fresh_shard = Some s →
  NoDup (done_with s) ∧
  (drained s = true → (∀ e, engine_pending e s = 0) →
     sh_io s = ∅ ∧ sh_tasks s = ∅ ∧ sh_timers s = ∅ ∧ sh_connections s = ∅ ∧ sh_resolvers s = ∅ ∧
     (∀ e st, sh_endpoints s !! e = Some st → es_closing st = true) ∧
     (∀ l st, sh_listeners s !! l = Some st → ls_shutdown st = None ∧ ls_closing st = true ∧ ls_active st = 0) ∧
     (sh_called s).*1 ++ sh_dropped s ++ sh_lost s ≡ₚ seq 0 (sh_callbacks s)).
Proof.
  intros Hr. destruct (fresh_shard_ok es s Hr) as [Hl Hd]. pose proof (ledger_perm s Hl) as Hp. split.
  { pose proof (NoDup_seq 0 (sh_callbacks s)) as Hn. rewrite <- Hp in Hn. by apply NoDup_app in Hn as [? _]. }
  intros Hz Hpend. apply drained_counts in Hz as (Z1 & Z2 & Z3 & Z4 & Z5).
  rewrite (lg_io s Hl) in Z1. rewrite (lg_tasks s Hl) in Z2. rewrite (lg_endpoints s Hl) in Z3.
  rewrite (lg_resolvers s Hl) in Z4. rewrite (lg_listeners s Hl) in Z5.
  assert (sh_timers s = ∅) as Et by (apply pending_empty; intros e; specialize (Hpend e); unfold engine_pending in Hpend; lia).
  assert (sh_connections s = ∅) as Ec by (apply pending_empty; intros e; specialize (Hpend e); unfold engine_pending in Hpend; lia).
  pose proof (size_empty _ Z1) as Ei. pose proof (size_empty _ Z2) as Ek.
  assert (∀ l st, sh_listeners s !! l = Some st → ls_shutdown st = None) as Hn.
  { intros l st El. pose proof (total_zero awaited _ l st Z5 El) as Hw. unfold awaited in Hw. by destruct (ls_shutdown st). }
  split_and!; try done.
  - by apply size_empty.
  - intros e st He. pose proof (total_zero live _ e st Z3 He) as Hv. unfold live in Hv. by destruct (es_closing st).
  - intros l st El. pose proof (Hn l st El) as En. split; [done|]. by apply (Hd l st El).
  - assert (held s = ∅) as Hh.
    { unfold held. rewrite Et, Ei, Ek. assert (gathered (λ st, maybe_one (ls_shutdown st)) (sh_listeners s) = ∅) as ->; [|done].
      clear -Hn. induction (sh_listeners s) as [|l st m Hm _ IH] using map_first_key_ind; [done|].
      rewrite gathered_insert by done. rewrite (Hn l st) by apply lookup_insert_eq. rewrite IH; [done|].
      intros l' st' H'. apply (Hn l'). rewrite lookup_insert_ne; [done|congruence]. }
    by rewrite Hh, gmultiset_elements_empty, app_nil_r in Hp.
Qed.

Lemma total_all_zero {A} (f : A → nat) (m : gmap nat A) : (∀ i x, m !! i = Some x → f x = 0) → GrpcLedger.total f m = 0.
Proof.
  intros Hm. destruct (decide (GrpcLedger.total f m = 0)) as [|Hn]; [done|]. apply total_nonzero in Hn as (i & x & Hi & Hx).
  by rewrite (Hm i x Hi) in Hx.
Qed.
Lemma rest_drained s :
  ledger s → listeners_done s → given_up s → ¬ outstanding s → drained s = true ∧ ∀ e, engine_pending e s = 0.
Proof.
  intros Hl Hd (Gep & Gl & Gr) Ho.
  assert (sh_io s = ∅ ∧ sh_tasks s = ∅ ∧ sh_timers s = ∅) as (Ei & Et & Em).
  { unfold outstanding in Ho. split_and!; apply dec_stable; tauto. }
  assert (sh_connections s = ∅) as Ec.
  { apply map_eq. intros k. rewrite lookup_empty. destruct (sh_connections s !! k) as [i|] eqn:Ek; [|done].
    destruct (lg_connections s Hl k i Ek) as (b & p & Hi & _). by rewrite Ei, lookup_empty in Hi. }
  split; [|intros e; unfold engine_pending; by rewrite Em, Ec, !map_filter_empty, !map_size_empty].
  unfold drained. rewrite (lg_io s Hl), (lg_tasks s Hl), (lg_endpoints s Hl), (lg_resolvers s Hl), (lg_listeners s Hl), Ei, Et, Gr.
  assert (GrpcLedger.total live (sh_endpoints s) = 0) as ->.
  { apply total_all_zero. intros e st Hx. unfold live. by rewrite (Gep _ _ Hx). }
  assert (GrpcLedger.total awaited (sh_listeners s) = 0) as ->; [|done].
  apply total_all_zero. intros l st Hx. unfold awaited. rewrite (proj2 (Hd _ _ Hx)); [done|]. split; [by eapply Gl|].
  rewrite (lg_active s Hl _ _ Hx), Ei. done.
Qed.

(** C25: When gRPC has destroyed its endpoints, listeners and resolvers on a shard
    and asks for nothing more, the shard comes to rest: only boundedly many things
    go on, whatever the other ends do; and as long as the loops of
    drain_local_grpc and close_grpc_engine still wait, something goes on by
    itself, with no help of the other end of any connection: tasks and timers,
    and what was woken because its socket was shut down. (Lookups are ended by
    the resolver, see [lookups_settled]; a callback may not ask for more.) *)
Theorem grpc_shutdown_terminates es s :
  shard_run es fresh_shard = Some s → given_up s →
  (∀ cs s', shard_run (inr <$> cs) s = Some s' → length cs ≤ work s) ∧
  ∀ cs s', quiet_run cs s = Some s' →
    (drained s' = true ∧ ∀ e, engine_pending e s' = 0) ∨ ∃ c s'', by_itself c s' = true ∧ continuation_step c s' = Some s''.
Proof.
  intros Hr Hg. destruct (fresh_shard_ok es s Hr) as [Hl Hd].
  pose proof (shard_run_shut es _ _ fresh_ledger fresh_shut Hr) as Hs. split.
  - intros cs s' Hc. pose proof (continuations_bound cs s s' (proj1 (proj2 Hg)) Hc). lia.
  - intros cs s' Hc. destruct (quiet_run_kept cs s s' Hl Hd Hs Hg Hc) as (Hl' & Hd' & Hs' & Hg'). clear -Hl' Hd' Hs' Hg'.
    destruct (decide (sh_io s' = ∅)) as [Ei|Ho].
    2: { apply map_choose in Ho as (i & x & Hi). right. by eapply io_progress. }
    destruct (decide (sh_tasks s' = ∅)) as [Et|Ho].
    2: { apply map_choose in Ho as (i & x & Hi). destruct (task_progress s' i x Hl' Hi) as [s'' Hx]. right. by exists (TaskRuns i), s''. }
    destruct (decide (sh_timers s' = ∅)) as [Em|Ho].
    2: { apply map_choose in Ho as (k & x & Hi). right. exists (TimerFires k). simpl. unfold timer_fires. rewrite Hi. by eexists. }
    left. apply rest_drained; try done. unfold outstanding. tauto.
Qed.

(** ** A write *)

(** The slices of a write are sent in order, and then its callback is called. *)
Lemma write_completes l s i e cb st :
  sh_io s !! i = Some (MkIo true (IoWrite e cb l)) → sh_endpoints s !! e = Some st →
  ∃ s', shard_run (replicate (S (length l)) (inr (Sent i None))) s = Some s' ∧
    sh_endpoints s' !! e = Some (MkEndpointState (es_closing st) (es_reading st) false (es_sent st ++ l)) ∧
    sh_called s' = sh_called s ++ [(cb, closed_or st StatusOk)] ∧ sh_io s' = delete i (sh_io s).
Proof.
  revert s st. induction l as [|x l IH]; intros s st Hi He.
  - eexists. cbn [replicate length shard_run shard_step continuation_step]. rewrite Hi. unfold write_step, write_end. rewrite He.
    split; [done|]. simpl. rewrite lookup_insert_eq, app_nil_r. done.
  - cbn [replicate length shard_run shard_step continuation_step]. rewrite Hi. unfold write_step at 1. rewrite He.
    set (st1 := MkEndpointState _ _ _ (_ ++ [x])). set (s1 := update_io i _ _).
    destruct (IH s1 st1) as (s' & Hr & Hs & Hc & Hd); [apply lookup_insert_eq|simpl; apply lookup_insert_eq|].
    exists s'. split; [exact Hr|]. rewrite Hs, Hc, Hd. simpl. rewrite <- app_assoc, delete_insert_eq. done.
Qed.

(** ** Runs *)

Definition demo_requests : list (request + continuation) :=
  [inl NewEngine; inl (RunAfter 0); inl (RunAfter 0); inl (GrpcEngine.Cancel (0, 1%Z)); inl (Connect 0); inl (Connect 0);
   inl (CancelConnect (0, 4%Z)); inr (TimerFires (0, 2%Z)); inr (TaskRuns 2); inr (ConnectDone 1 ConnectedTo);
   inl (Write 5 [["a"%char]; ["b"%char]]); inl (Read 5); inr (Starts 6); inr (Sent 6 None);
   inl CreateListener; inl (Bind 8 true); inl (Start 8); inr (Starts 9); inr (Accepted 9 None);
   inl (DestroyListener 8); inl (DestroyEndpoint 5); inl (DestroyEndpoint 10)].
Definition demo_rest : list continuation :=
  [Sent 6 None; Sent 6 None; Starts 7; ReadDone 7 (inl "shut down"); Accepted 9 (Some "shut down"); TaskRuns 4; ConnectDone 3 (ConnectFailed "shut down")].
Definition demo_shard (es : list (request + continuation)) : shard := default fresh_shard (shard_run es fresh_shard).

Lemma grpc_shutdown_complete_witness :
  shard_run (demo_requests ++ (inr <$> demo_rest)) fresh_shard = Some (demo_shard (demo_requests ++ (inr <$> demo_rest))) ∧
  drained (demo_shard (demo_requests ++ (inr <$> demo_rest))) = true ∧
  sh_called (demo_shard (demo_requests ++ (inr <$> demo_rest))) =
    [(1, Nothing); (2, WithEndpoint 5); (4, WithStatus (Cancelled "endpoint closed"));
     (5, WithStatus (Cancelled "endpoint closed")); (6, WithStatus StatusOk)] ∧
  NoDup (done_with (demo_shard (demo_requests ++ (inr <$> demo_rest)))).
Proof.
  assert (shard_run (demo_requests ++ (inr <$> demo_rest)) fresh_shard =
    Some (demo_shard (demo_requests ++ (inr <$> demo_rest)))) as Hr by (vm_compute; reflexivity).
  split; [exact Hr|]. split; [vm_compute; reflexivity|]. split; [vm_compute; reflexivity|].
  destruct (grpc_shutdown_complete _ _ Hr) as [Hn _]. exact Hn.
Defined.

Lemma grpc_shutdown_terminates_witness :
  shard_run demo_requests fresh_shard = Some (demo_shard demo_requests) ∧ given_up (demo_shard demo_requests) ∧
  quiet_run demo_rest (demo_shard demo_requests) = Some (demo_shard (demo_requests ++ (inr <$> demo_rest))) ∧
  length demo_rest ≤ work (demo_shard demo_requests).
Proof.
  assert (shard_run demo_requests fresh_shard = Some (demo_shard demo_requests)) as Hr by (vm_compute; reflexivity).
  assert (quiet_run demo_rest (demo_shard demo_requests) = Some (demo_shard (demo_requests ++ (inr <$> demo_rest)))) as Hq
    by (vm_compute; reflexivity).
  assert (given_up (demo_shard demo_requests)) as Hg.
  { split; [|split].
    - assert (forallb (λ x, es_closing x.2) (map_to_list (sh_endpoints (demo_shard demo_requests))) = true) as El by (vm_compute; reflexivity).
      intros e st Hx%elem_of_map_to_list. rewrite forallb_forall in El. apply (El (e, st)). exact (proj1 (list_elem_of_In _ _) Hx).
    - assert (forallb (λ x, ls_closing x.2) (map_to_list (sh_listeners (demo_shard demo_requests))) = true) as El by (vm_compute; reflexivity).
      intros l st Hx%elem_of_map_to_list. rewrite forallb_forall in El. apply (El (l, st)). exact (proj1 (list_elem_of_In _ _) Hx).
    - vm_compute. reflexivity. }
  split; [exact Hr|]. split; [exact Hg|]. split; [exact Hq|].
  destruct (grpc_shutdown_terminates _ _ Hr Hg) as [Hb _]. apply (Hb demo_rest _ (quiet_run_run _ _ _ Hq)).
Defined.

(** When the addresses of a new connection cannot be read, the callback of the
    attempt is never called, and nothing is left that could call it. *)
Example lost_callback :
  let s := demo_shard [inl NewEngine; inl (Connect 0); inr (TaskRuns 2); inr (ConnectDone 1 EndpointFailed)] in
  sh_called s = [] ∧ sh_lost s = [0] ∧ drained s = true.
Proof. vm_compute. repeat split; reflexivity. Qed.
(** After one failed accept a listening socket is not accepted from again. *)
Example failed_accept_ends_listening :
  let s := demo_shard [inl CreateListener; inl (Bind 0 true); inl (Start 0); inr (Starts 1); inr (Accepted 1 (Some "too many open files"))] in
  map_to_list (sh_io s) = [] ∧ ls_closing <$> sh_listeners s !! 0 = Some false.
Proof. vm_compute. split; reflexivity. Qed.
