(* ===== verification/FileStorage.v ===== *)
(** * File storage: file/protocol.cc and file/storage.cc

    The validation of requests, the object keys, and the chunked uploads and
    downloads of the File service against a file system. A file system is a map
    from paths to bytes with a list of the faults ahead; OpenSSL's digest is an
    interface. An open [seastar::file] is represented by its path: the storage
    never renames a file it holds open, and the service serialises the requests
    of a key. *)

From S2P Require Import Prelude Decimal FileTypes Protocol.
From Stdlib Require Import Ascii.
Import file.

(** ** Requests (protocol.cc) *)

Definition max_file_size : Z := 100 * 1024 * 1024.
Definition max_chunk_size : Z := 1024 * 1024.

(** [std::isalnum] in the "C" locale. *)
Definition isalnum (c : ascii) : bool :=
  let n := N_of_ascii c in
  ((48 <=? n) && (n <=? 57) || (65 <=? n) && (n <=? 90) || (97 <=? n) && (n <=? 122))%N.

Definition safe_id (id : string) : bool :=
  (String.length id =? 36)%nat && forallb (λ c, isalnum c || (c =? "-")%char) (bytes_of id).

Definition display_name (value : string) (maximum : nat) : bool :=
  negb (bool_decide (value = "")) && (String.length value <=? maximum)%nat &&
  forallb (λ c, (32 <=? N_of_ascii c)%N && negb (N_of_ascii c =? 127)%N) (bytes_of value).

Definition upload_file_of (q : UploadRequest) : FileInfo := default default_info (uq_file q).
Definition download_file_of (q : DownloadRequest) : FileInfo := default default_info (dq_file q).

Definition valid_upload (q : UploadRequest) : bool :=
  let f := upload_file_of q in
  bool_decide (is_Some (uq_file q)) && (0 <? uq_user_id q)%Z && safe_id (ff_file_id f) &&
  display_name (ff_file_name f) 255 && display_name (ff_file_type f) 128 &&
  existsb (λ c, (c =? "/")%char) (bytes_of (ff_file_type f)) && (String.length (ff_sha256 f) =? 32)%nat &&
  (0 <=? ff_file_size f)%Z && (ff_file_size f <=? max_file_size)%Z && (0 <=? uq_offset q)%Z &&
  (Z.of_nat (String.length (uq_data q)) <=? max_chunk_size)%Z.

Definition valid_download (q : DownloadRequest) : bool :=
  bool_decide (is_Some (dq_file q)) && (0 <? dq_user_id q)%Z && safe_id (ff_file_id (download_file_of q)) &&
  (0 <=? dq_offset q)%Z.

Definition object_key (uid : Z) (id : string) : string := pretty uid +:+ "/" +:+ id.

(** file_service::owner_shard: the same 64-bit FNV-1a as for the Gateways, of an
    object's key. *)
Definition object_owner_shard (key : string) (shards : Z) : Z := fnv1a fnv_offset key mod shards.

(** ** The file system *)

(** What happens to a call: it answers, fails before or after it took effect,
    or (a write) takes only its first [n] bytes. *)
Inductive disk_fault := DiskNone | DiskError | DiskLost | DiskShort (n : nat).

Record disk := MkDisk { d_files : gmap string bytes; d_faults : list disk_fault }.

Definition set_files (m : gmap string bytes) (d : disk) : disk := MkDisk m d.(d_faults).
Definition EIO : Z := 5.
Definition ENOENT : Z := 2.
Definition system_error : exn := RuntimeError "system error".

Definition next_disk_fault : Eff disk disk_fault := λ d,
  (Ok (default DiskNone (head d.(d_faults))), MkDisk d.(d_files) (tail d.(d_faults))).

Definition disk_call {A} (run : Eff disk A) : Eff disk A :=
  f ← next_disk_fault;
  match f with
  | DiskError => throw system_error
  | DiskLost => run ;; throw system_error
  | _ => run
  end.

(** A call with no effect on the files: touching a directory, closing a file,
    a digest operation. *)
Definition library_call (what : string) : Eff disk unit :=
  f ← next_disk_fault;
  match f with DiskError | DiskLost => throw (RuntimeError what) | _ => mret tt end.

(** [file_stat]: the size, or the code of a [std::system_error]. *)
Definition file_stat (path : string) : Eff disk (Z + nat) :=
  f ← next_disk_fault;
  match f with
  | DiskError | DiskLost => mret (inl EIO)
  | _ => d ← get; mret (match d_files d !! path with Some b => inr (length b) | None => inl ENOENT end)
  end.

Definition contents (path : string) : Eff disk bytes :=
  d ← get;
  match d_files d !! path with Some b => mret b | None => throw system_error end.

Definition open_ro (path : string) : Eff disk unit := disk_call (contents path ;; mret tt).
Definition open_create (path : string) : Eff disk unit :=
  disk_call (modify (λ d, set_files (partial_alter (λ o, Some (default [] o)) path (d_files d)) d)).
Definition dma_read_bulk (path : string) (offset count : nat) : Eff disk bytes :=
  disk_call (b ← contents path; mret (take count (drop offset b))).

Definition zero_byte : ascii := "000"%char.

(** The bytes of a file after [new] is written at [begin]; a gap reads as zeros. *)
Definition overwrite (old : bytes) (begin : nat) (new : bytes) : bytes :=
  resize begin zero_byte old ++ new ++ drop (begin + length new) old.

Definition dma_write (path : string) (begin : nat) (buffer : bytes) : Eff disk nat :=
  f ← next_disk_fault;
  let write n :=
    b ← contents path;
    modify (λ d, set_files (<[path := overwrite b begin (take n buffer)]> (d_files d)) d) in
  match f with
  | DiskError => throw system_error
  | DiskLost => write (length buffer) ;; throw system_error
  | DiskShort n => write n ;; mret (Nat.min n (length buffer))
  | DiskNone => write (length buffer) ;; mret (length buffer)
  end.

Definition truncate (path : string) (size : nat) : Eff disk unit :=
  disk_call (b ← contents path; modify (λ d, set_files (<[path := resize size zero_byte b]> (d_files d)) d)).

Definition rename_file (from to : string) : Eff disk unit :=
  disk_call (b ← contents from; modify (λ d, set_files (<[to := b]> (delete from (d_files d))) d)).

(** ** The digest (EVP_DigestInit_ex, EVP_DigestUpdate, EVP_DigestFinal_ex)

    Hashing in pieces is hashing the concatenation, and a digest has 32 bytes. *)
Class Sha256 := {
  md_ctx : Type;
  digest_init : md_ctx;
  digest_update : md_ctx → bytes → md_ctx;
  digest_final : md_ctx → string;
  digest_pieces l :
    digest_final (foldl digest_update digest_init l) = digest_final (digest_update digest_init (concat l));
  digest_size c : String.length (digest_final c) = 32
}.

Definition SHA256 `{Sha256} (b : bytes) : string := digest_final (digest_update digest_init b).

(** ** storage.cc *)

Definition hash_block : nat := Z.to_nat 65536.
#[global] Opaque hash_block.

Lemma hash_block_pos : 0 < hash_block.
Proof. apply Nat.ltb_lt. vm_compute. reflexivity. Qed.

Section storage.
Context `{!Sha256}.
(** The configured root, with its separator, and [disk_write_dma_alignment]. *)
Context (root : string) (alignment : nat).

Definition object_path (uid : Z) (id : string) : string := root +:+ object_key uid id.
Definition part_path (uid : Z) (id : string) : string := object_path uid id +:+ ".part".

Definition file_size (path : string) : Eff disk (option nat) :=
  r ← file_stat path;
  match r with
  | inr size => mret (Some size)
  | inl code => if (code =? ENOENT)%Z then mret None else throw system_error
  end.

Definition read_range (path : string) (offset count : nat) : Eff disk bytes :=
  b ← dma_read_bulk path offset count;
  mret (take (Nat.min count (length b)) b).

(** The loop of sha256; each round reads at least one byte. *)
Fixpoint hash_from (fuel : nat) (path : string) (size offset : nat) (context : md_ctx) : Eff disk md_ctx :=
  if (offset <? size)%nat then
    match fuel with
    | O => throw (LogicError "fuel")
    | S fuel =>
        b ← read_range path offset (Nat.min hash_block (size - offset));
        if bool_decide (b = []) then throw (RuntimeError "cannot hash file")
        else
          library_call "cannot hash file" ;;
          hash_from fuel path size (offset + length b) (digest_update context b)
    end
  else mret context.

Definition sha256 (path : string) (size : nat) : Eff disk string :=
  library_call "cannot initialize sha256" ;;
  context ← hash_from size path size 0 digest_init;
  library_call "cannot finish sha256" ;;
  let digest := digest_final context in
  if (String.length digest =? 32)%nat then mret digest else throw (RuntimeError "cannot finish sha256").

(** [finally]: the file is closed whatever the outcome. *)
Definition finally {A} (m : Eff disk A) (close : Eff disk unit) : Eff disk A := λ d,
  match m d with
  | (Ok a, d') => (close ;; mret a) d'
  | (Throw e, d') => (Throw e, (close d').2)
  end.

Definition with_file {A} (open : Eff disk unit) (function : Eff disk A) : Eff disk A :=
  open ;; finally function (library_call "close").

Definition memcpy (buffer : bytes) (at_ : nat) (source : bytes) : bytes :=
  take at_ buffer ++ source ++ drop (at_ + length source) buffer.

Definition append (path : string) (offset : nat) (data : bytes) : Eff disk unit :=
  if bool_decide (data = []) then mret tt
  else
    let begin := offset `div` alignment * alignment in
    let end_ := (offset + length data + alignment - 1) `div` alignment * alignment in
    let buffer := replicate (end_ - begin) zero_byte in
    buffer ← (if (begin <? offset)%nat then
                prefix ← read_range path begin (offset - begin);
                if (length prefix =? offset - begin)%nat then mret (memcpy buffer 0 prefix)
                else throw (RuntimeError "cannot read upload tail")
              else mret buffer);
    let buffer := memcpy buffer (offset - begin) data in
    written ← dma_write path begin buffer;
    if (written =? length buffer)%nat then truncate path (offset + length data)
    else throw (RuntimeError "short file write").

Definition write_and_hash (path : string) (request : UploadRequest) (current next : nat) : Eff disk string :=
  append path current (bytes_of (uq_data request)) ;;
  if uq_complete request && (Z.of_nat next =? u64 (ff_file_size (upload_file_of request)))%Z
  then sha256 path next else mret "".

Definition storage_start : Eff disk unit := library_call "touch".

(** The chunk of a request at another offset than the stored progress: does it
    contradict the bytes already stored? *)
Definition contradicts (partial : string) (current : nat) (request : UploadRequest) : Eff disk bool :=
  let data := bytes_of (uq_data request) in
  if (u64 (uq_offset request) <? Z.of_nat current)%Z && negb (bool_decide (data = [])) then
    let count := Nat.min (length data) (Z.to_nat (u64 (Z.of_nat current - uq_offset request))) in
    existing ← with_file (open_ro partial) (read_range partial (Z.to_nat (uq_offset request)) count);
    mret (negb (bool_decide (existing = take count data)))
  else mret false.

Definition upload (request : UploadRequest) : Eff disk UploadResponse :=
  let f := upload_file_of request in
  let uid := uq_user_id request in
  let size := u64 (ff_file_size f) in
  let data := bytes_of (uq_data request) in
  let respond status next message : Eff disk UploadResponse := mret (MkUploaded uid status next message) in
  let object := object_path uid (ff_file_id f) in
  let partial := part_path uid (ff_file_id f) in
  library_call "touch" ;;
  completed ← file_size object;
  match completed with
  | Some n =>
      digest ← with_file (open_ro object) (sha256 object n);
      if negb (Z.of_nat n =? size)%Z || negb (bool_decide (digest = ff_sha256 f))
      then respond FAILED 0%Z "completed file metadata mismatch"
      else respond SUCCESS (i64 (Z.of_nat n)) ""
  | None =>
      stored ← file_size partial;
      let current := default 0 stored in
      if negb (u64 (uq_offset request) =? Z.of_nat current)%Z then
        bad ← contradicts partial current request;
        if (bad : bool) then respond FAILED 0%Z "retried chunk does not match stored bytes"
        else respond PARTIAL (i64 (Z.of_nat current)) "upload offset differs from stored progress"
      else if (size <? Z.of_nat current)%Z || (size - Z.of_nat current <? Z.of_nat (length data))%Z then
        respond FAILED 0%Z "chunk exceeds declared size"
      else
        let next := current + length data in
        digest ← with_file (open_create partial) (write_and_hash partial request current next);
        if uq_complete request && (Z.of_nat next =? size)%Z then
          if negb (bool_decide (digest = ff_sha256 f)) then respond FAILED 0%Z "file sha256 mismatch"
          else rename_file partial object ;; respond SUCCESS (i64 (Z.of_nat next)) ""
        else respond PARTIAL (i64 (Z.of_nat next)) ""
  end.

Definition download (request : DownloadRequest) : Eff disk DownloadResponse :=
  let failed message : Eff disk DownloadResponse := mret (MkDownloaded "" 0 false FAILED message) in
  let object := object_path (dq_user_id request) (ff_file_id (download_file_of request)) in
  o ← file_size object;
  match o with
  | None => failed "file unavailable"
  | Some size =>
      if (Z.of_nat size <? u64 (dq_offset request))%Z then failed "offset exceeds file size"
      else
        let count := Z.to_nat (Z.min (Z.max (dq_limit request) 1)
                                 (Z.min max_chunk_size (u64 (Z.of_nat size - dq_offset request)))) in
        data ← (if (count =? 0)%nat then mret []
                else
                  data ← with_file (open_ro object) (read_range object (Z.to_nat (dq_offset request)) count);
                  if (length data =? count)%nat then mret data else throw (RuntimeError "short file read"));
        let next := i64 (dq_offset request + Z.of_nat (length data)) in
        mret (MkDownloaded (text_of data) next (next =? Z.of_nat size)%Z SUCCESS "")
  end.
End storage.
