(* ===== verification/FileTheorems.v ===== *)
(** * What the file storage guarantees

    Integrity of completed objects under any faults, the page-aligned append
    against the plain one, and the round trip of uploads and downloads. *)

From S2P Require Import Prelude Decimal FileTypes Protocol FileStorage.
From Stdlib Require Import Ascii.
Import file.

(** ** Bytes *)

Lemma memcpy_fill (n at_ : nat) (pre src : bytes) :
  length pre = at_ → at_ + length src ≤ n →
  memcpy (pre ++ replicate (n - at_) zero_byte) at_ src = pre ++ src ++ replicate (n - at_ - length src) zero_byte.
Proof.
  intros Hp Hn. unfold memcpy. rewrite take_app_length' by done. f_equal. f_equal.
  rewrite drop_app_ge by lia. rewrite drop_replicate. f_equal. lia.
Qed.

Lemma overwrite_tail (old : bytes) begin new :
  begin ≤ length old → length old ≤ begin + length new →
  overwrite old begin new = take begin old ++ new.
Proof.
  intros Hb Hn. unfold overwrite. rewrite resize_le by done. rewrite drop_ge by done. by rewrite app_nil_r.
Qed.

(** The page-aligned buffer that append writes, cut to the new size, is the old
    file followed by the data. *)
Lemma aligned_write (alignment : nat) (old data : bytes) :
  0 < alignment →
  let offset := length old in
  let begin := offset `div` alignment * alignment in
  let end_ := (offset + length data + alignment - 1) `div` alignment * alignment in
  let buffer := replicate (end_ - begin) zero_byte in
  let buffer := if (begin <? offset)%nat then memcpy buffer 0 (drop begin old) else buffer in
  resize (offset + length data) zero_byte (overwrite old begin (memcpy buffer (offset - begin) data)) = old ++ data.
Proof.
  intros Ha offset begin end_ buffer buffer'.
  assert (begin ≤ offset) as Hbo.
  { unfold begin. rewrite Nat.mul_comm. apply Nat.Div0.mul_div_le. }
  assert (offset + length data ≤ end_) as Hend.
  { unfold end_. pose proof (Nat.div_mod (offset + length data + alignment - 1) alignment).
    pose proof (Nat.mod_upper_bound (offset + length data + alignment - 1) alignment). lia. }
  assert (buffer' = drop begin old ++ replicate (end_ - begin - (offset - begin)) zero_byte) as ->.
  { unfold buffer', buffer. destruct (Nat.ltb_spec begin offset).
    - unfold memcpy. simpl. f_equal. rewrite drop_replicate, length_drop. f_equal.
    - rewrite drop_ge by (unfold offset in *; lia). simpl. f_equal. lia. }
  rewrite memcpy_fill by (rewrite ?length_drop; unfold offset in *; lia).
  rewrite overwrite_tail.
  - rewrite app_assoc, take_drop, app_assoc. rewrite resize_app_le by (rewrite length_app; unfold offset; lia).
    rewrite resize_all_alt; [done|]. by rewrite length_app.
  - done.
  - rewrite !length_app, length_drop, length_replicate. unfold offset in *. lia.
Qed.

(** ** Runs under any faults *)

Definition triple {A} (F : gmap string bytes) (m : Eff disk A) (Q : A → gmap string bytes → Prop)
    (E : gmap string bytes → Prop) : Prop :=
  ∀ fs, match m (MkDisk F fs) with (Ok a, d) => Q a (d_files d) | (Throw _, d) => E (d_files d) end.

Section triples.
Implicit Types (F : gmap string bytes) (E : gmap string bytes → Prop).

Lemma triple_ret {A} F (a : A) (Q : A → _ → Prop) E : Q a F → triple F (mret a) Q E.
Proof. by intros ? fs. Qed.

Lemma triple_throw {A} F e (Q : A → _ → Prop) E : E F → triple F (throw e) Q E.
Proof. by intros ? fs. Qed.

Lemma triple_bind {A B} F (m : Eff disk A) (k : A → Eff disk B) Q E :
  triple F m (λ a F', triple F' (k a) Q E) E → triple F (m ≫= k) Q E.
Proof.
  intros Hm fs. specialize (Hm fs). unfold mbind, eff_bind.
  destruct (m (MkDisk F fs)) as [[a|e] [F' fs']]; [apply Hm|done].
Qed.

Lemma triple_mono {A} F (m : Eff disk A) (Q Q' : A → _ → Prop) (E E' : _ → Prop) :
  triple F m Q E → (∀ a F', Q a F' → Q' a F') → (∀ F', E F' → E' F') → triple F m Q' E'.
Proof. intros Hm HQ HE fs. specialize (Hm fs). destruct (m _) as [[] ?]; auto. Qed.

Lemma triple_fault {B} F (k : disk_fault → Eff disk B) Q E :
  (∀ f, triple F (k f) Q E) → triple F (next_disk_fault ≫= k) Q E.
Proof. intros Hk fs. apply (Hk (default DiskNone (head fs)) (tail fs)). Qed.

Lemma triple_call {A} F (run : Eff disk A) (Q : A → _ → Prop) E :
  triple F run Q E → triple F run (λ _, E) E → E F → triple F (disk_call run) Q E.
Proof.
  intros HQ HE HF. apply triple_fault. intros []; [done|by apply triple_throw| |done].
  apply triple_bind. eapply triple_mono; [exact HE| |done]. intros ???. by apply triple_throw.
Qed.

Lemma triple_library F what (Q : unit → _ → Prop) E : Q tt F → E F → triple F (library_call what) Q E.
Proof. intros. apply triple_fault. intros []; try (by apply triple_throw); by apply triple_ret. Qed.

Lemma triple_contents F path (Q : bytes → _ → Prop) E :
  (∀ b, F !! path = Some b → Q b F) → E F → triple F (contents path) Q E.
Proof.
  intros HQ HE fs. unfold contents, mbind, eff_bind. simpl. destruct (F !! path) as [b|] eqn:Hb; simpl; auto.
Qed.

Lemma triple_size F path (Q : option nat → _ → Prop) E :
  Q (length <$> F !! path) F → E F → triple F (file_size path) Q E.
Proof.
  intros HQ HE. unfold file_size, file_stat. apply triple_bind, triple_fault.
  intros f. assert (triple F (d ← get; mret match d_files d !! path with
      Some b => inr (length b) | None => inl ENOENT end)
    (λ a F', triple F' (match a with inr size => mret (Some size)
       | inl code => if (code =? ENOENT)%Z then mret None else throw system_error end) Q E) E) as Hok.
  { intros fs. simpl. intros fs'. destruct (F !! path); simpl in *; done. }
  destruct f; try exact Hok; apply triple_ret; simpl; by apply triple_throw.
Qed.

Lemma triple_open_ro F path (Q : unit → _ → Prop) E :
  (is_Some (F !! path) → Q tt F) → E F → triple F (open_ro path) Q E.
Proof.
  intros HQ HE. apply triple_call; [| |done]; apply triple_bind, triple_contents; try done;
    intros b Hb; apply triple_ret; eauto.
Qed.

Lemma triple_open_create F path (Q : unit → _ → Prop) E :
  let F' := <[path := default [] (F !! path)]> F in
  Q tt F' → E F → E F' → triple F (open_create path) Q E.
Proof.
  intros F' HQ HE HE'. assert (partial_alter (λ o, Some (default [] o)) path F = F') as HF'.
  { apply map_eq. intros k. unfold F'. destruct (decide (k = path)) as [->|Hk].
    - by rewrite lookup_partial_alter_eq, lookup_insert_eq.
    - by rewrite lookup_partial_alter_ne, lookup_insert_ne. }
  apply triple_call; [| |done]; intros fs; simpl; by rewrite HF'.
Qed.

Lemma triple_read F path offset count (Q : bytes → _ → Prop) E :
  (∀ b, F !! path = Some b → Q (take count (drop offset b)) F) → E F → triple F (read_range path offset count) Q E.
Proof.
  intros HQ HE. apply triple_bind, triple_call; [| |done]; apply triple_bind, triple_contents; try done;
    intros b Hb; apply triple_ret; [|done].
  apply triple_ret. rewrite take_ge; [by apply HQ|]. rewrite length_take. lia.
Qed.

Lemma triple_write F path begin buffer (Q : nat → _ → Prop) E :
  (∀ n b, Q n (<[path := b]> F)) → (∀ b, E (<[path := b]> F)) → E F → triple F (dma_write path begin buffer) Q E.
Proof.
  intros HQ HE HF. apply triple_fault. intros f.
  assert (∀ (R : unit → gmap string bytes → Prop) n, (∀ b, R tt (<[path := b]> F)) →
    triple F (b ← contents path;
      modify (λ d, set_files (<[path := overwrite b begin (take n buffer)]> (d_files d)) d)) R E) as Hw.
  { intros R n HR. apply triple_bind, triple_contents; [|done]. intros b Hb fs. apply HR. }
  destruct f; [|by apply triple_throw| |]; apply triple_bind, Hw; intros b;
    first [by apply triple_ret|by apply triple_throw].
Qed.

Lemma triple_truncate F path size (Q : unit → _ → Prop) E :
  (∀ b, F !! path = Some b → Q tt (<[path := resize size zero_byte b]> F)) →
  (∀ b, E (<[path := b]> F)) → E F → triple F (truncate path size) Q E.
Proof.
  intros HQ HE HF. apply triple_call; [| |done]; apply triple_bind, triple_contents; try done;
    intros b Hb fs; simpl; auto.
Qed.

Lemma triple_rename F from to (Q : unit → _ → Prop) E :
  (∀ b, F !! from = Some b → Q tt (<[to := b]> (delete from F)) ∧ E (<[to := b]> (delete from F))) →
  E F → triple F (rename_file from to) Q E.
Proof.
  intros HQ HF. apply triple_call; [| |done]; apply triple_bind, triple_contents; try done;
    intros b Hb fs; by apply HQ.
Qed.

Lemma triple_with_file {A} F open (m : Eff disk A) Q E :
  triple F open (λ _ F', triple F' m (λ a F'', Q a F'' ∧ E F'') E) E → triple F (with_file open m) Q E.
Proof.
  intros Ho. apply triple_bind. eapply triple_mono; [exact Ho| |done].
  intros u F' Hm fs. specialize (Hm fs). unfold finally. simpl.
  assert (∀ F (R : unit → _ → Prop) E, R tt F → E F → triple F (library_call "close") R E) as Hclose.
  { intros. by apply triple_library. }
  destruct (m (MkDisk F' fs)) as [[a|e] [F'' fs'']].
  - destruct Hm as [HQ HE]. by apply (triple_bind F'' _ _ Q E), Hclose; [apply triple_ret|].
  - specialize (Hclose F'' (λ _, E) E Hm Hm fs''). simpl. by destruct (library_call "close" _) as [[] ?].
Qed.
End triples.

Section storage_proofs.
Context {SHA : Sha256} (root : string) (alignment : nat).
Implicit Types (F : gmap string bytes) (E : gmap string bytes → Prop).

(** A digest that is computed is the digest of the file's first [size] bytes. *)
Lemma triple_hash_from fuel F path size b off l (Q : md_ctx → _ → Prop) E :
  F !! path = Some b → size ≤ length b → concat l = take off b → off ≤ size →
  (∀ l', concat l' = take size b → Q (foldl digest_update digest_init l') F) → E F →
  triple F (hash_from fuel path size off (foldl digest_update digest_init l)) Q E.
Proof.
  intros Hb Hsize. revert off l.
  induction fuel as [|fuel IH]; intros off l Hl Hoff HQ HE; simpl.
  - destruct (Nat.ltb_spec off size); [by apply triple_throw|]. apply triple_ret, HQ.
    rewrite Hl. f_equal. lia.
  - destruct (Nat.ltb_spec off size); [|by apply triple_ret, HQ; rewrite Hl; f_equal; lia].
    apply triple_bind, triple_read; [|done]. intros b' Hb'. assert (b' = b) as -> by congruence.
    case_bool_decide as Hnil; [by apply triple_throw|].
    apply triple_bind, triple_library; [|done].
    set (chunk := take _ (drop off b)) in *.
    replace (digest_update (foldl digest_update digest_init l) chunk)
      with (foldl digest_update digest_init (l ++ [chunk])) by (by rewrite foldl_snoc).
    apply IH; [|unfold chunk; rewrite length_take, length_drop; lia|done|done].
    rewrite concat_app, Hl. simpl. rewrite app_nil_r. unfold chunk. rewrite length_take, length_drop.
    rewrite (Nat.min_l _ (length b - off)) by lia. apply take_take_drop.
Qed.

Lemma SHA256_pieces l : digest_final (foldl digest_update digest_init l) = SHA256 (concat l).
Proof. apply digest_pieces. Qed.

Lemma triple_sha256 F path size b (Q : string → _ → Prop) E :
  F !! path = Some b → size ≤ length b → Q (SHA256 (take size b)) F → E F → triple F (sha256 path size) Q E.
Proof.
  intros Hb Hsize HQ HE. apply triple_bind, triple_library; [|done].
  apply triple_bind. apply (triple_hash_from _ _ _ _ b 0 []); try done; [lia|].
  intros l Hl. apply triple_bind, triple_library; [|done].
  cbv zeta. rewrite SHA256_pieces, Hl. case_match; [by apply triple_ret|by apply triple_throw].
Qed.

(** Whatever happens, append changes its file only; when it returns the file
    has the new length. *)
Lemma triple_append F path b data (Q : unit → _ → Prop) E :
  F !! path = Some b → (∀ b', length b' = length b + length data → Q tt (<[path := b']> F)) →
  (∀ b', E (<[path := b']> F)) → triple F (append alignment path (length b) data) Q E.
Proof.
  intros Hb HQ HE. pose proof (insert_id _ _ _ Hb) as Hid.
  assert (E F) as HF by (rewrite <- Hid; apply HE).
  unfold append. case_bool_decide as Hd.
  { subst. apply triple_ret. rewrite <- Hid. apply HQ. simpl. lia. }
  set (begin := _ * alignment). set (buffer := replicate _ _).
  assert (∀ buf, triple F (written ← dma_write path begin buf;
      (if (written =? length buf)%nat then truncate path (length b + length data)
       else throw (RuntimeError "short file write"))) Q E) as Hw.
  { intros buf. apply triple_bind, triple_write; [|done..]. intros n b'.
    case_match; [|by apply triple_throw]. apply triple_truncate; [| |done].
    - intros b'' _. rewrite insert_insert_eq. apply HQ. by rewrite length_resize.
    - intros b''. rewrite insert_insert_eq. apply HE. }
  apply triple_bind. case_match; [|by apply triple_ret].
  apply triple_bind, triple_read; [|done]. intros b' _. case_match; [by apply triple_ret|by apply triple_throw].
Qed.

(** ** One upload *)

Definition upload_object (q : UploadRequest) : string := object_path root (uq_user_id q) (ff_file_id (upload_file_of q)).
Definition upload_part (q : UploadRequest) : string := part_path root (uq_user_id q) (ff_file_id (upload_file_of q)).

(** The bytes have the size and the digest the request declares. *)
Definition declared (q : UploadRequest) (b : bytes) : Prop :=
  Z.of_nat (length b) = u64 (ff_file_size (upload_file_of q)) ∧ SHA256 b = ff_sha256 (upload_file_of q).

(** What an upload may do to the files: write its own partial file, or move
    verified bytes to an object that did not exist. *)
Definition upload_change (q : UploadRequest) F F' : Prop :=
  F' = F ∨ (∃ b, F' = <[upload_part q := b]> F) ∨
  (F !! upload_object q = None ∧ uq_complete q = true ∧
   ∃ b, declared q b ∧ F' = <[upload_object q := b]> (delete (upload_part q) F)).

Lemma triple_write_and_hash F q b (Q : string → _ → Prop) E :
  let next := length b + length (bytes_of (uq_data q)) in
  F !! upload_part q = Some b →
  (∀ b' digest, length b' = next →
     (uq_complete q && (Z.of_nat next =? u64 (ff_file_size (upload_file_of q)))%Z = true → digest = SHA256 b') →
     Q digest (<[upload_part q := b']> F)) →
  (∀ b', E (<[upload_part q := b']> F)) →
  triple F (write_and_hash alignment (upload_part q) q (length b) next) Q E.
Proof.
  intros next Hb HQ HE. apply triple_bind, (triple_append _ _ b); [done| |done].
  intros b' Hb'. case_match eqn:Hc.
  - apply (triple_sha256 _ _ _ b'); [by rewrite lookup_insert_eq|unfold next; lia| |done].
    apply HQ; [done|]. intros _. by rewrite take_ge by (unfold next; lia).
  - apply triple_ret, HQ; [done|]. done.
Qed.

Lemma triple_contradicts F q current (Q : bool → _ → Prop) E :
  (∀ bad, Q bad F) → E F → triple F (contradicts (upload_part q) current q) Q E.
Proof.
  intros HQ HE. unfold contradicts. case_match; [|by apply triple_ret].
  apply triple_bind, triple_with_file, triple_open_ro; [|done]. intros _.
  apply triple_read; [|done]. intros b _. split; [|done]. by apply triple_ret.
Qed.

Lemma object_not_part uid id : object_path root uid id ≠ part_path root uid id.
Proof. unfold part_path. intros E%(f_equal String.length). rewrite string_length_app in E. simpl in E. lia. Qed.

Lemma triple_upload F q :
  triple F (upload root alignment q)
    (λ r F', upload_change q F F' ∧
       (us_status r = SUCCESS → ∃ b, F' !! upload_object q = Some b ∧ declared q b))
    (upload_change q F).
Proof.
  assert (upload_change q F F) as Hsame by (by left).
  apply triple_bind, triple_library; [|done]. apply triple_bind, triple_size; [|done].
  fold (upload_object q) (upload_part q).
  destruct (F !! upload_object q) as [b|] eqn:Hobj; simpl.
  { apply triple_bind, triple_with_file, triple_open_ro; [|done]. intros _.
    apply (triple_sha256 _ _ _ b); [done|done| |done]. split; [|done]. rewrite take_ge by done.
    case_match eqn:Hc; apply triple_ret; (split; [done|]); [done|]. intros _.
    apply orb_false_iff in Hc as [?%negb_false_iff%Z.eqb_eq Hd%negb_false_iff%bool_decide_eq_true].
    by exists b. }
  apply triple_bind, triple_size; [|done].
  set (current := default 0 (length <$> F !! upload_part q)).
  case_match.
  { apply triple_bind, triple_contradicts; [|done]. intros []; by apply triple_ret. }
  case_match; [by apply triple_ret|].
  set (b := default [] (F !! upload_part q)).
  assert (current = length b) as -> by (unfold current, b; by destruct (F !! upload_part q)).
  set (Fb := <[upload_part q := b]> F).
  assert (∀ b', upload_change q F (<[upload_part q := b']> Fb)) as Hpart.
  { intros b'. right; left. exists b'. apply insert_insert_eq. }
  apply triple_bind, triple_with_file, triple_open_create; [|done|].
  - fold b Fb. apply triple_write_and_hash; [by apply lookup_insert_eq| |done].
    intros b' digest Hlen Hdigest. split; [|apply Hpart]. unfold Fb. rewrite insert_insert_eq.
    assert (upload_change q F (<[upload_part q := b']> F)) as Hc by (right; left; by exists b').
    case_match eqn:Hcomplete; [|by apply triple_ret].
    case_match eqn:Hd; [by apply triple_ret|]. apply triple_bind, triple_rename; [|done].
    rewrite lookup_insert_eq. intros ? [= <-]. rewrite delete_insert_eq.
    assert (declared q b') as Hdecl.
    { apply andb_true_iff in Hcomplete as [_ Hsize%Z.eqb_eq].
      apply negb_false_iff, bool_decide_eq_true in Hd. split; [by rewrite Hlen|]. by rewrite <- Hdigest. }
    assert (upload_change q F (<[upload_object q := b']> (delete (upload_part q) F))) as Hmove.
    { right; right. apply andb_true_iff in Hcomplete as [? _]. eauto 10. }
    split; [|done]. apply triple_ret. split; [done|]. intros _. exists b'. split; [apply lookup_insert_eq|done].
  - right; left. by exists b.
Qed.

(** ** Paths *)

Lemma safe_id_length id : safe_id id = true → String.length id = 36.
Proof. unfold safe_id. by intros [?%Nat.eqb_eq _]%andb_true_iff. Qed.

Lemma object_path_inj uid id uid' id' : object_path root uid id = object_path root uid' id' → uid = uid' ∧ id = id'.
Proof. unfold object_path, object_key. by intros E%(inj (String.append _))%number_split. Qed.

(** The partial file of an upload is never the object of another file. *)
Lemma part_not_object uid id uid' id' :
  safe_id id = true → safe_id id' = true → object_path root uid id ≠ part_path root uid' id'.
Proof.
  intros H1%safe_id_length H2%safe_id_length E. unfold part_path, object_path, object_key in E.
  rewrite <- !string_app_assoc in E. apply (inj (String.append _)) in E.
  change (("/" +:+ id') +:+ ".part") with (String "/" (id' +:+ ".part")) in E.
  apply number_split in E as [_ E]; [|done..]. apply (f_equal String.length) in E. rewrite string_length_app in E. simpl in E. lia.
Qed.

Lemma upload_change_object q F F' uid id :
  safe_id (ff_file_id (upload_file_of q)) = true → safe_id id = true → upload_change q F F' →
  F' !! object_path root uid id = F !! object_path root uid id ∨
  F !! object_path root uid id = None ∧ uid = uq_user_id q ∧ id = ff_file_id (upload_file_of q) ∧
  uq_complete q = true ∧ ∃ b, F' !! object_path root uid id = Some b ∧ declared q b.
Proof.
  intros Hq Hid [->|[[b ->]|(Hnone & Hc & b & Hd & ->)]]; [by left| |].
  - left. rewrite lookup_insert_ne; [done|]. intros E. by apply (part_not_object uid id (uq_user_id q) _ Hid Hq).
  - destruct (decide (object_path root uid id = upload_object q)) as [E|E].
    + right. rewrite E, lookup_insert_eq. split; [done|]. apply object_path_inj in E as [-> ->]. eauto 10.
    + left. rewrite lookup_insert_ne by done. apply lookup_delete_ne. intros E'. by apply (part_not_object uid id (uq_user_id q) _ Hid Hq).
Qed.

Lemma valid_upload_file q :
  valid_upload q = true →
  safe_id (ff_file_id (upload_file_of q)) = true ∧ (0 ≤ ff_file_size (upload_file_of q) ≤ max_file_size)%Z.
Proof.
  unfold valid_upload. intros H. repeat apply andb_true_iff in H as [H ?]. split; [done|lia].
Qed.

Lemma triple_download F q : triple F (download root q) (λ _ F', F' = F) (λ F', F' = F).
Proof.
  apply triple_bind, triple_size; [|done]. case_match; [|by apply triple_ret].
  case_match; [by apply triple_ret|]. apply triple_bind.
  case_match; [by apply triple_ret, triple_ret|].
  apply triple_bind, triple_with_file, triple_open_ro; [|done]. intros _.
  apply triple_read; [|done]. intros b _. split; [|done].
  case_match; [by apply triple_ret, triple_ret|by apply triple_throw].
Qed.

(** The requests the storage runs, and any change of the faults ahead. *)
Inductive storage_step (d : disk) : disk → Prop :=
  | step_upload q : valid_upload q = true → storage_step d (upload root alignment q d).2
  | step_download q : valid_download q = true → storage_step d (download root q d).2
  | step_faults fs : storage_step d (MkDisk (d_files d) fs).

Lemma upload_changes q d : upload_change q (d_files d) (d_files (upload root alignment q d).2).
Proof.
  destruct d as [F fs]. pose proof (triple_upload F q fs) as Hu.
  destruct (upload _ _ _ _) as [[r|e] d']; [apply Hu|done].
Qed.

Lemma objects_persist d d' uid id b :
  rtc storage_step d d' → safe_id id = true →
  d_files d !! object_path root uid id = Some b → d_files d' !! object_path root uid id = Some b.
Proof.
  intros Hr Hid. induction Hr as [|d d1 d' Hs _ IH]; [done|]. intros Hb. apply IH.
  destruct Hs as [q Hq|q _|fs]; [| |done].
  - apply valid_upload_file in Hq as [Hq _].
    destruct (upload_change_object q _ _ uid id Hq Hid (upload_changes q d)) as [->|[? _]]; congruence.
  - destruct d as [F fs]. pose proof (triple_download F q fs) as Hd.
    destruct (download _ _ _) as [[r|e] d1]; simpl in *; by rewrite Hd.
Qed.

(** Only verified files become objects, and an object never changes: under
    any faults an upload leaves every object of every user as it was, except
    that it may create the object of its own user and file id, when the request
    completes it and the stored bytes have the declared size and SHA-256. When
    the answer is SUCCESS that object is there. And whatever requests follow,
    an object that exists keeps its bytes. *)
Theorem objects_verified q d uid id :
  let before := d_files d !! object_path root uid id in
  let d' := (upload root alignment q d).2 in
  valid_upload q = true → safe_id id = true →
  (d_files d' !! object_path root uid id = before ∨
   before = None ∧ uid = uq_user_id q ∧ id = ff_file_id (upload_file_of q) ∧ uq_complete q = true ∧
   ∃ b, d_files d' !! object_path root uid id = Some b ∧ declared q b) ∧
  (∀ r, (upload root alignment q d).1 = Ok r → us_status r = SUCCESS →
     ∃ b, d_files d' !! upload_object q = Some b ∧ declared q b) ∧
  (∀ d2 b, rtc storage_step d' d2 → d_files d' !! object_path root uid id = Some b →
     d_files d2 !! object_path root uid id = Some b).
Proof.
  intros before d' Hq Hid. split_and!.
  - apply upload_change_object, upload_changes; [by apply valid_upload_file|done].
  - intros r Hr Hs. destruct d as [F fs]. pose proof (triple_upload F q fs) as Hu. subst d'.
    destruct (upload _ _ _ _) as [r' d']. simpl in *. subst r'. by apply Hu.
  - intros d2 b Hr. by apply objects_persist.
Qed.

(** ** Runs without faults *)

Context (alignment_pos : 0 < alignment).

Abbreviation quiet F := (MkDisk F []).

Lemma size_quiet F path : file_size path (quiet F) = (Ok (length <$> F !! path), quiet F).
Proof.
  unfold file_size, file_stat, mbind, eff_bind. simpl. by destruct (F !! path).
Qed.

Lemma read_quiet F path b offset count :
  F !! path = Some b → read_range path offset count (quiet F) = (Ok (take count (drop offset b)), quiet F).
Proof.
  intros Hb. unfold read_range, dma_read_bulk, disk_call, contents, mbind, eff_bind. simpl. rewrite Hb. simpl.
  unfold mret, eff_ret. rewrite (take_ge (take _ _)); [done|]. rewrite length_take. lia.
Qed.

Lemma with_file_quiet {A} F F1 F2 open (m : Eff disk A) a :
  open (quiet F) = (Ok tt, quiet F1) → m (quiet F1) = (Ok a, quiet F2) →
  with_file open m (quiet F) = (Ok a, quiet F2).
Proof. intros Ho Hm. unfold with_file. rewrite (bind_Ok _ _ _ _ _ Ho). unfold finally. by rewrite Hm. Qed.

Lemma open_ro_quiet F path b : F !! path = Some b → open_ro path (quiet F) = (Ok tt, quiet F).
Proof.
  intros Hb. unfold open_ro, disk_call, contents, mbind, eff_bind. simpl. by rewrite Hb.
Qed.

Lemma open_create_quiet F path :
  open_create path (quiet F) = (Ok tt, quiet (<[path := default [] (F !! path)]> F)).
Proof.
  unfold open_create, disk_call, mbind, eff_bind. simpl. unfold modify, set_files. simpl. do 2 f_equal.
  apply map_eq. intros k. destruct (decide (k = path)) as [->|Hk].
  - by rewrite lookup_partial_alter_eq, lookup_insert_eq.
  - by rewrite lookup_partial_alter_ne, lookup_insert_ne.
Qed.

Lemma append_quiet F path old data :
  F !! path = Some old →
  append alignment path (length old) data (quiet F) = (Ok tt, quiet (<[path := old ++ data]> F)).
Proof using alignment_pos.
  intros Ho. unfold append. case_bool_decide as Hd.
  { subst. rewrite app_nil_r, insert_id by done. done. }
  pose proof (aligned_write alignment old data alignment_pos) as Hw. cbv zeta in Hw.
  set (begin := _ * alignment) in *. set (buffer := replicate _ _) in *.
  erewrite bind_Ok.
  2: { instantiate (1 := quiet F).
       instantiate (1 := if (begin <? length old)%nat then memcpy buffer 0 (drop begin old) else buffer).
       case_match; [|done]. rewrite (bind_Ok _ _ _ _ _ (read_quiet _ _ _ _ _ Ho)).
       rewrite take_ge by (rewrite length_drop; done). by rewrite length_drop, Nat.eqb_refl. }
  set (buf := memcpy _ _ data) in *.
  unfold dma_write, mbind, eff_bind. simpl. unfold contents, mbind, eff_bind. simpl. rewrite Ho. simpl.
  rewrite Nat.eqb_refl, firstn_all. unfold truncate, disk_call, contents, mbind, eff_bind. simpl.
  rewrite lookup_insert_eq. simpl. unfold modify, set_files. simpl. by rewrite insert_insert_eq, Hw.
Qed.

Lemma hash_from_quiet fuel F path size b off l :
  F !! path = Some b → size ≤ length b → concat l = take off b → off ≤ size → size - off ≤ fuel →
  ∃ l', concat l' = take size b ∧
    hash_from fuel path size off (foldl digest_update digest_init l) (quiet F) =
    (Ok (foldl digest_update digest_init l'), quiet F).
Proof.
  intros Hb Hsize. revert off l.
  induction fuel as [|fuel IH]; intros off l Hl Hoff Hfuel; simpl.
  - exists l. destruct (Nat.ltb_spec off size); [lia|]. split; [|done]. rewrite Hl. f_equal. lia.
  - destruct (Nat.ltb_spec off size).
    2: { exists l. split; [|done]. rewrite Hl. f_equal. lia. }
    rewrite (bind_Ok _ _ _ _ _ (read_quiet _ _ _ _ _ Hb)).
    pose proof hash_block_pos. set (chunk := take _ (drop off b)).
    assert (length chunk = hash_block `min` (size - off)) as Hlen.
    { unfold chunk. rewrite length_take, length_drop. lia. }
    rewrite bool_decide_eq_false_2 by (intros E; rewrite E in Hlen; simpl in Hlen; lia).
    destruct (IH (off + length chunk) (l ++ [chunk])) as (l' & Hl' & Hrun); [|lia..|].
    { rewrite concat_app, Hl. simpl. rewrite app_nil_r. unfold chunk at 1. rewrite Hlen. apply take_take_drop. }
    exists l'. split; [done|]. rewrite foldl_snoc in Hrun.
    unfold library_call, mbind, eff_bind. simpl. apply Hrun.
Qed.

Lemma sha256_quiet F path b :
  F !! path = Some b → sha256 path (length b) (quiet F) = (Ok (SHA256 b), quiet F).
Proof.
  intros Hb. unfold sha256. rewrite (bind_Ok _ _ _ tt (quiet F)) by done.
  destruct (hash_from_quiet (length b) F path (length b) b 0 []) as (l & Hl & Hrun); try done; [lia..|].
  rewrite (bind_Ok _ _ _ _ _ Hrun), (bind_Ok _ _ _ tt (quiet F)) by done. cbv zeta.
  rewrite digest_size. simpl. by rewrite SHA256_pieces, Hl, firstn_all.
Qed.

(** The routines on pages and blocks compute what the plain ones do. append
    reads the last page back, extends it in a buffer of whole pages, writes the
    pages and truncates; without faults, and with any page size, what results is
    the old file followed by the data. sha256 reads blocks until it has the size;
    what it returns is the digest of the whole file at once. *)
Theorem paged_io_matches_plain F path old data :
  F !! path = Some old →
  let F' := <[path := old ++ data]> F in
  append alignment path (length old) data (quiet F) = (Ok tt, quiet F') ∧
  sha256 path (length (old ++ data)) (quiet F') = (Ok (SHA256 (old ++ data)), quiet F').
Proof using alignment_pos.
  intros Ho F'. split; [by apply append_quiet|]. apply sha256_quiet, lookup_insert_eq.
Qed.

(** A chunk at the stored progress is appended; the last one is verified and
    makes the object. *)
Lemma upload_quiet F q :
  let f := upload_file_of q in
  let b := default [] (F !! upload_part q) in
  let b' := b ++ bytes_of (uq_data q) in
  let n := Z.of_nat (length b') in
  F !! upload_object q = None → uq_offset q = Z.of_nat (length b) →
  (n ≤ ff_file_size f ≤ max_file_size)%Z →
  (uq_complete q = true → n = ff_file_size f ∧ SHA256 b' = ff_sha256 f) →
  upload root alignment q (quiet F) =
  (Ok (MkUploaded (uq_user_id q) (if uq_complete q then SUCCESS else PARTIAL) n ""),
   quiet (if uq_complete q then <[upload_object q := b']> (delete (upload_part q) F) else <[upload_part q := b']> F)).
Proof using alignment_pos.
  intros f b b' n Hobj Hoff Hsize Hdone.
  assert (max_file_size < two63)%Z as Hmax by done. assert (two63 < two64)%Z as Hmax' by done.
  assert (n = Z.of_nat (length b) + Z.of_nat (length (bytes_of (uq_data q))))%Z as Hn.
  { unfold n, b'. rewrite length_app. lia. }
  unfold upload. cbv zeta. fold (upload_object q) (upload_part q). fold f.
  rewrite (bind_Ok _ _ _ tt (quiet F)) by done. rewrite (bind_Ok _ _ _ _ _ (size_quiet _ _)), Hobj. simpl.
  rewrite (bind_Ok _ _ _ _ _ (size_quiet _ _)).
  assert (default 0 (length <$> F !! upload_part q) = length b) as Hcur by (unfold b; by destruct (F !! upload_part q)).
  rewrite Hcur, Hoff, !u64_id by lia. rewrite Z.eqb_refl. simpl.
  assert (∀ x y z : Z, (y ≤ x)%Z → (z ≤ x - y)%Z → ((x <? y)%Z || (x - y <? z)%Z) = false) as Hlt.
  { intros. apply orb_false_iff. lia. }
  rewrite Hlt by lia.
  set (next := length b + length (bytes_of (uq_data q))). assert (Z.of_nat next = n) as Hnext by (unfold next; lia).
  set (F1 := <[upload_part q := b]> F).
  assert (write_and_hash alignment (upload_part q) q (length b) next (quiet F1) =
    (Ok (if uq_complete q then SHA256 b' else ""), quiet (<[upload_part q := b']> F))) as Hw.
  { unfold write_and_hash. erewrite bind_Ok by (apply append_quiet, lookup_insert_eq).
    unfold F1. rewrite insert_insert_eq. fold b'. rewrite Hnext. fold f. rewrite u64_id by lia.
    destruct (uq_complete q) eqn:Hc; [|done]. destruct (Hdone eq_refl) as [<- _]. rewrite Z.eqb_refl. simpl.
    replace next with (length b') by (unfold n in *; lia). by apply sha256_quiet, lookup_insert_eq. }
  rewrite (bind_Ok _ _ _ _ _ (with_file_quiet _ _ _ _ _ _ (open_create_quiet _ _) Hw)), Hnext.
  rewrite i64_id by lia. destruct (uq_complete q) eqn:Hc; [|done].
  destruct (Hdone eq_refl) as [Hs Hd]. rewrite Hs, Z.eqb_refl, Hd, bool_decide_eq_true_2 by done. simpl.
  unfold rename_file, disk_call, contents, mbind, eff_bind. simpl. rewrite lookup_insert_eq. simpl.
  unfold modify, set_files. simpl. by rewrite delete_insert_eq.
Qed.

(** How many bytes a download returns from [off] on. *)
Definition download_count (limit : Z) (off size : nat) : nat :=
  Z.to_nat (Z.min (Z.max limit 1) (Z.min max_chunk_size (Z.of_nat size - Z.of_nat off))).

Lemma download_count_spec limit off size :
  off + download_count limit off size ≤ Nat.max off size ∧ (off < size → 0 < download_count limit off size).
Proof. unfold download_count, max_chunk_size. lia. Qed.

Lemma download_quiet F f uid b off limit :
  F !! object_path root uid (ff_file_id f) = Some b → off ≤ length b → (Z.of_nat (length b) ≤ max_file_size)%Z →
  let n := download_count limit off (length b) in
  download root (MkDownload (Some f) uid (Z.of_nat off) limit) (quiet F) =
  (Ok (MkDownloaded (text_of (take n (drop off b))) (Z.of_nat (off + n)) (off + n =? length b)%nat SUCCESS ""), quiet F).
Proof.
  intros Hb Hoff Hmax n. assert (max_file_size < two63 < two64)%Z as Htwo by done.
  pose proof (download_count_spec limit off (length b)) as [Hn _]. fold n in Hn.
  unfold download, download_file_of. cbv zeta. simpl. rewrite (bind_Ok _ _ _ _ _ (size_quiet _ _)), Hb. simpl.
  rewrite !u64_id by lia. destruct (Z.ltb_spec (Z.of_nat (length b)) (Z.of_nat off)); [lia|].
  fold (download_count limit off (length b)). fold n.
  assert (length (take n (drop off b)) = n) as Hlen by (rewrite length_take, length_drop; lia).
  erewrite bind_Ok.
  2: { instantiate (1 := quiet F). instantiate (1 := take n (drop off b)).
       destruct (Nat.eqb_spec n 0) as [E|_]; [by rewrite E|].
       rewrite Nat2Z.id. rewrite (bind_Ok _ _ _ _ _ (with_file_quiet _ _ _ _ _ _
         (open_ro_quiet _ _ _ Hb) (read_quiet _ _ _ _ _ Hb))).
       by rewrite Hlen, Nat.eqb_refl. }
  rewrite Hlen, i64_id, <- Nat2Z.inj_add by lia.
  assert ((Z.of_nat (off + n) =? Z.of_nat (length b))%Z = (off + n =? length b)%nat) as ->; [|done].
  destruct (Nat.eqb_spec (off + n) (length b)); [apply Z.eqb_eq|apply Z.eqb_neq]; lia.
Qed.

(** ** The round trip *)

(** A client that sends the chunks of a file in order, following next_offset. *)
Fixpoint upload_all (f : FileInfo) (uid offset : Z) (chunks : list string) : Eff disk UploadResponse :=
  match chunks with
  | [] => throw (LogicError "nothing to send")
  | [c] => upload root alignment (MkUpload (Some f) uid offset c true)
  | c :: cs =>
      r ← upload root alignment (MkUpload (Some f) uid offset c false);
      upload_all f uid (us_next_offset r) cs
  end.

(** A client that downloads until the answer is complete. *)
Fixpoint download_all (fuel : nat) (f : FileInfo) (uid offset limit : Z) : Eff disk bytes :=
  match fuel with
  | O => throw (LogicError "fuel")
  | S fuel =>
      r ← download root (MkDownload (Some f) uid offset limit);
      if negb (bool_decide (ds_status r = SUCCESS)) then throw (RuntimeError (ds_message r))
      else if ds_complete r then mret (bytes_of (ds_data r))
      else rest ← download_all fuel f uid (ds_next_offset r) limit; mret (bytes_of (ds_data r) ++ rest)
  end.

Definition content_of (chunks : list string) : bytes := chunks ≫= λ c, bytes_of c.

Lemma upload_chunk_quiet F f uid c complete :
  let object := object_path root uid (ff_file_id f) in
  let part := part_path root uid (ff_file_id f) in
  let b := default [] (F !! part) in
  let b' := b ++ bytes_of c in
  let n := Z.of_nat (length b') in
  F !! object = None → (n ≤ ff_file_size f ≤ max_file_size)%Z →
  (complete = true → n = ff_file_size f ∧ SHA256 b' = ff_sha256 f) →
  upload root alignment (MkUpload (Some f) uid (Z.of_nat (length b)) c complete) (quiet F) =
  (Ok (MkUploaded uid (if complete then SUCCESS else PARTIAL) n ""),
   quiet (if complete then <[object := b']> (delete part F) else <[part := b']> F)).
Proof using alignment_pos.
  intros object part b b' n Ho Hs Hc.
  exact (upload_quiet F (MkUpload (Some f) uid (Z.of_nat (length b)) c complete) Ho eq_refl Hs Hc).
Qed.

Lemma upload_all_quiet F f uid chunks :
  let object := object_path root uid (ff_file_id f) in
  let part := part_path root uid (ff_file_id f) in
  let b := default [] (F !! part) in
  let content := b ++ content_of chunks in
  chunks ≠ [] → F !! object = None → (ff_file_size f ≤ max_file_size)%Z →
  Z.of_nat (length content) = ff_file_size f → SHA256 content = ff_sha256 f →
  ∃ F', upload_all f uid (Z.of_nat (length b)) chunks (quiet F) =
      (Ok (MkUploaded uid SUCCESS (ff_file_size f) ""), quiet F') ∧ F' !! object = Some content.
Proof using alignment_pos.
  revert F. induction chunks as [|c [|c' cs] IH]; intros F object part b content Hne Hobj Hmax Hlen Hsha; [done| |].
  - unfold content, content_of in *. simpl in *. rewrite app_nil_r in *.
    pose proof (upload_chunk_quiet F f uid c true Hobj) as Hu. fold object part b in Hu. rewrite Hlen in Hu.
    rewrite Hu by (done || lia). eexists. split; [done|]. apply lookup_insert_eq.
  - assert (content = (b ++ bytes_of c) ++ content_of (c' :: cs)) as Hc.
    { unfold content, content_of. simpl. by rewrite <- !app_assoc. }
    change (upload_all f uid (Z.of_nat (length b)) (c :: c' :: cs)) with
      (r ← upload root alignment (MkUpload (Some f) uid (Z.of_nat (length b)) c false);
       upload_all f uid (us_next_offset r) (c' :: cs)).
    erewrite bind_Ok.
    2: { apply upload_chunk_quiet; [done| |done]. fold part b. rewrite Hc, length_app in Hlen. lia. }
    fold part b. cbn [us_next_offset].
    specialize (IH (<[part := b ++ bytes_of c]> F)). cbv zeta in IH. fold part object in IH.
    rewrite lookup_insert_eq in IH. simpl default in IH. rewrite <- Hc in IH. apply IH; try done.
    rewrite lookup_insert_ne; [done|]. intros E. symmetry in E. by apply object_not_part in E.
Qed.

Lemma download_all_quiet fuel F f uid b off limit :
  F !! object_path root uid (ff_file_id f) = Some b → (Z.of_nat (length b) ≤ max_file_size)%Z →
  off ≤ length b → length b - off < fuel →
  download_all fuel f uid (Z.of_nat off) limit (quiet F) = (Ok (drop off b), quiet F).
Proof.
  intros Hb Hmax. revert off. induction fuel as [|fuel IH]; intros off Hoff Hfuel; [lia|]. simpl.
  pose proof (download_count_spec limit off (length b)) as [Hn Hpos].
  erewrite bind_Ok by (by apply download_quiet). set (n := download_count limit off (length b)) in *.
  cbn [ds_status ds_complete ds_data ds_next_offset]. rewrite bool_decide_eq_true_2 by done. cbn [negb].
  rewrite String.list_ascii_of_string_of_list_ascii.
  destruct (Nat.eqb_spec (off + n) (length b)) as [E|E].
  - rewrite take_ge by (rewrite length_drop; lia). done.
  - rewrite (bind_Ok _ _ _ _ _ (IH (off + n) ltac:(lia) ltac:(lia))).
    unfold mret, eff_ret. rewrite <- drop_drop. by rewrite take_drop.
Qed.

(** C10: what was uploaded is what is downloaded: a client that sends a file in
    any chunks, following next_offset, is answered SUCCESS at the end, where
    nothing fails meanwhile and the id was not used before; whatever
    requests of anyone and whatever faults follow, a download of the file that
    meets no fault itself, with
    any page size and following next_offset until complete, returns exactly the
    bytes sent. *)
Theorem upload_download F f uid chunks :
  let content := content_of chunks in
  chunks ≠ [] → safe_id (ff_file_id f) = true →
  F !! object_path root uid (ff_file_id f) = None → F !! part_path root uid (ff_file_id f) = None →
  (ff_file_size f ≤ max_file_size)%Z → Z.of_nat (length content) = ff_file_size f → SHA256 content = ff_sha256 f →
  ∃ d1, upload_all f uid 0 chunks (quiet F) = (Ok (MkUploaded uid SUCCESS (ff_file_size f) ""), d1) ∧
    ∀ F2 limit fuel, rtc storage_step d1 (quiet F2) → length content < fuel →
      (download_all fuel f uid 0 limit (quiet F2)).1 = Ok content.
Proof using alignment_pos.
  intros content Hne Hid Hobj Hpart Hmax Hlen Hsha.
  destruct (upload_all_quiet F f uid chunks) as (F1 & Hrun & Hstored); rewrite ?Hpart; try done.
  rewrite Hpart in Hrun, Hstored. simpl in Hrun, Hstored. fold content in Hstored.
  exists (quiet F1). split; [done|]. intros F2 limit fuel Hr Hfuel.
  eapply (objects_persist _ _ _ _ content Hr Hid) in Hstored.
  rewrite (download_all_quiet fuel F2 f uid content 0); [done|done|lia|lia|lia].
Qed.

(** ** An interrupted append *)

(** The bytes of a new file after append's write of [data], before its
    truncate: padded to the alignment. *)
Definition padded (data : bytes) : bytes :=
  data ++ replicate ((length data + alignment - 1) `div` alignment * alignment - length data) zero_byte.

Lemma padded_longer data : length data `mod` alignment ≠ 0 → length data < length (padded data).
Proof using alignment_pos.
  intros Hm. unfold padded. rewrite length_app, length_replicate.
  pose proof (Nat.div_mod (length data) alignment) as Hd.
  pose proof (Nat.mod_upper_bound (length data) alignment).
  assert (length data < (length data + alignment - 1) `div` alignment * alignment); [|lia].
  apply (Nat.lt_le_trans _ ((length data `div` alignment + 1) * alignment)); [lia|].
  apply Nat.mul_le_mono_r. apply Nat.div_le_lower_bound; lia.
Qed.

Lemma append_interrupted F path data :
  data ≠ [] → F !! path = Some [] →
  (append alignment path 0 data (MkDisk F [DiskNone; DiskError])) = (Throw system_error, quiet (<[path := padded data]> F)).
Proof using alignment_pos.
  intros Hd Hp. unfold append. rewrite bool_decide_eq_false_2 by done.
  rewrite Nat.Div0.div_0_l by lia. simpl (0 * alignment). simpl (0 <? 0)%nat. cbv iota. simpl (0 + _).
  rewrite (bind_Ok _ _ _ (replicate ((length data + alignment - 1) `div` alignment * alignment - 0) zero_byte)
    (MkDisk F [DiskNone; DiskError])) by done.
  rewrite Nat.sub_0_r, (Nat.sub_0_r 0).
  assert (memcpy (replicate ((length data + alignment - 1) `div` alignment * alignment) zero_byte) 0 data = padded data) as ->.
  { unfold memcpy, padded. simpl. by rewrite drop_replicate. }
  unfold dma_write, mbind, eff_bind. simpl. unfold contents, mbind, eff_bind. simpl. rewrite Hp. simpl.
  rewrite Nat.eqb_refl, firstn_all. unfold overwrite. simpl. rewrite drop_nil, app_nil_r. done.
Qed.

(** The first chunk of a file whose truncate fails. *)
Lemma upload_interrupted F f uid c :
  let part := part_path root uid (ff_file_id f) in
  F !! object_path root uid (ff_file_id f) = None → F !! part = None → c ≠ "" →
  (Z.of_nat (String.length c) ≤ ff_file_size f ≤ max_file_size)%Z →
  upload root alignment (MkUpload (Some f) uid 0 c false)
    (MkDisk F [DiskNone; DiskNone; DiskNone; DiskNone; DiskNone; DiskError]) =
  (Throw system_error, quiet (<[part := padded (bytes_of c)]> F)).
Proof using alignment_pos.
  intros part Hobj Hpart Hc Hsize. assert (max_file_size < two64)%Z as Hmax by done.
  assert (bytes_of c ≠ []) as Hd by (by destruct c).
  unfold upload, upload_file_of. cbv zeta. simpl. fold part.
  rewrite (bind_Ok _ _ _ tt (MkDisk F [DiskNone; DiskNone; DiskNone; DiskNone; DiskError])) by done.
  rewrite (bind_Ok _ _ _ None (MkDisk F [DiskNone; DiskNone; DiskNone; DiskError]))
    by (unfold file_size, file_stat, mbind, eff_bind; simpl; by rewrite Hobj).
  rewrite (bind_Ok _ _ _ None (MkDisk F [DiskNone; DiskNone; DiskError]))
    by (unfold file_size, file_stat, mbind, eff_bind; simpl; by rewrite Hpart).
  simpl. rewrite u64_id by lia.
  destruct (_ || _) eqn:Hlt.
  { apply orb_true_iff in Hlt as [?%Z.ltb_lt|Hlt%Z.ltb_lt]; [lia|]. rewrite bytes_length in Hlt. lia. }
  apply bind_Throw. unfold with_file.
  erewrite bind_Ok.
  2: { unfold open_create, disk_call, mbind, eff_bind. simpl. reflexivity. }
  unfold finally, write_and_hash, set_files. simpl.
  rewrite (bind_Throw _ _ _ system_error (quiet (<[part := padded (bytes_of c)]> F))); [done|].
  rewrite append_interrupted; [|done|by rewrite lookup_partial_alter_eq, Hpart].
  do 2 f_equal. apply map_eq. intros k. destruct (decide (k = part)) as [->|Hk].
  - by rewrite !lookup_insert_eq.
  - by rewrite !lookup_insert_ne, lookup_partial_alter_ne.
Qed.

(** C40: an interrupted append misreports the progress: when the truncate after
    the padded write of a first chunk fails, a retry of that chunk is answered
    PARTIAL with a next_offset beyond the bytes that were sent, although the
    offset to resume at must be the number of bytes stored. *)
Theorem interrupted_upload_overreports F f uid c :
  let q := MkUpload (Some f) uid 0 c false in
  let interrupted := MkDisk F [DiskNone; DiskNone; DiskNone; DiskNone; DiskNone; DiskError] in
  F !! object_path root uid (ff_file_id f) = None → F !! part_path root uid (ff_file_id f) = None →
  (Z.of_nat (String.length c) ≤ ff_file_size f ≤ max_file_size)%Z → String.length c `mod` alignment ≠ 0 →
  ∃ next, (upload root alignment q (upload root alignment q interrupted).2).1 =
      Ok (MkUploaded uid PARTIAL (i64 next) "upload offset differs from stored progress") ∧
    (Z.of_nat (String.length c) < next)%Z.
Proof using alignment_pos.
  intros q interrupted Hobj Hpart Hsize Hmod.
  assert (c ≠ "") as Hc by (intros ->; apply Hmod; apply Nat.Div0.mod_0_l).
  unfold interrupted, q. rewrite upload_interrupted by done. simpl.
  set (F1 := <[_ := _]> F). set (n := length (padded (bytes_of c))).
  assert (F1 !! part_path root uid (ff_file_id f) = Some (padded (bytes_of c))) as Hp by apply lookup_insert_eq.
  exists (Z.of_nat n). split; [|rewrite <- bytes_length in *; pose proof (padded_longer _ Hmod); unfold n; lia].
  assert (F1 !! object_path root uid (ff_file_id f) = None) as Ho.
  { unfold F1. rewrite lookup_insert_ne; [done|]. intros E. symmetry in E. by apply object_not_part in E. }
  unfold upload, upload_file_of. cbv zeta. simpl.
  rewrite (bind_Ok _ _ _ tt (quiet F1)) by done.
  rewrite (bind_Ok _ _ _ _ _ (size_quiet _ _)), Ho. simpl.
  rewrite (bind_Ok _ _ _ _ _ (size_quiet _ _)), Hp. simpl. fold n.
  assert (0 < n) as Hn.
  { unfold n. rewrite <- bytes_length in Hmod. pose proof (padded_longer _ Hmod). lia. }
  assert (match Z.of_nat n with 0%Z => true | _ => false end = false) as -> by (destruct n; [lia|done]). simpl.
  rewrite (bind_Ok _ _ _ false (quiet F1)); [done|].
  unfold contradicts. simpl. change (u64 0) with 0%Z.
  destruct (Z.ltb_spec 0 (Z.of_nat n)); [|lia]. rewrite bool_decide_eq_false_2 by (by destruct c). simpl.
  rewrite (bind_Ok _ _ _ _ _ (with_file_quiet _ _ _ _ _ _ (open_ro_quiet _ _ _ Hp) (read_quiet _ _ _ _ _ Hp))).
  simpl. rewrite bool_decide_eq_true_2; [done|]. unfold padded. rewrite drop_0. apply take_app_le. lia.
Qed.
End storage_proofs.

(** ** A concrete storage: a digest of the first bytes, pages of four bytes *)

Lemma foldl_app_concat (l : list bytes) b : foldl app b l = b ++ concat l.
Proof.
  revert b. induction l as [|x l IH]; intros b; simpl; [by rewrite app_nil_r|]. by rewrite IH, app_assoc.
Qed.

Program Definition prefix_digest : Sha256 := {|
  md_ctx := bytes; digest_init := []; digest_update := app;
  digest_final c := text_of (resize 32 zero_byte c) |}.
Next Obligation. intros l. simpl. by rewrite foldl_app_concat. Qed.
Next Obligation. intros c. simpl. rewrite text_length. apply length_resize. Qed.

Section runs.
#[local] Existing Instance prefix_digest.

Definition demo_id : string := "123e4567-e89b-12d3-a456-426614174000".
Definition demo_file : FileInfo :=
  MkFile demo_id "note.txt" "text/plain" 7 (SHA256 (bytes_of "abcdefg")).
Definition demo_last : UploadRequest := MkUpload (Some demo_file) 1001 0 "abcdefg" true.

Lemma paged_io_matches_plain_witness :
  append 4 "f" 6 (bytes_of "ghijk") (MkDisk {[ "f" := bytes_of "abcdef" ]} []) =
    (Ok tt, MkDisk (<[ "f" := bytes_of "abcdef" ++ bytes_of "ghijk" ]> {[ "f" := bytes_of "abcdef" ]}) []).
Proof.
  refine (proj1 (paged_io_matches_plain 4 ltac:(lia) {[ "f" := bytes_of "abcdef" ]} "f" (bytes_of "abcdef")
    (bytes_of "ghijk") _)). reflexivity.
Defined.

Lemma objects_verified_witness :
  ∃ b, d_files (upload "/data/" 4 demo_last (MkDisk ∅ [])).2 !! object_path "/data/" 1001 demo_id = Some b ∧
    declared demo_last b.
Proof.
  refine (proj1 (proj2 (objects_verified "/data/" 4 demo_last (MkDisk ∅ []) 1001 demo_id _ _))
    (MkUploaded 1001 SUCCESS 7 "") _ _); vm_compute; reflexivity.
Defined.

Lemma upload_download_witness :
  ∃ d1, upload_all "/data/" 4 demo_file 1001 0 ["abc"; "defg"] (MkDisk ∅ []) = (Ok (MkUploaded 1001 SUCCESS 7 ""), d1) ∧
    (download_all "/data/" 8 demo_file 1001 0 2 (MkDisk (d_files d1) [])).1 = Ok (bytes_of "abcdefg").
Proof.
  destruct (upload_download "/data/" 4 ltac:(lia) ∅ demo_file 1001 ["abc"; "defg"]) as (d1 & Hrun & Hdown);
    [done|vm_compute; reflexivity|done|done|vm_compute; congruence|reflexivity|vm_compute; reflexivity|].
  exists d1. split; [exact Hrun|]. apply Hdown; [|vm_compute; lia]. apply rtc_once, step_faults.
Defined.

Lemma interrupted_upload_overreports_witness :
  ∃ next, (upload "/data/" 4 (MkUpload (Some demo_file) 1001 0 "abc" false)
      (MkDisk {[ part_path "/data/" 1001 demo_id := padded 4 (bytes_of "abc") ]} [])).1 =
      Ok (MkUploaded 1001 PARTIAL (i64 next) "upload offset differs from stored progress") ∧ (3 < next)%Z.
Proof.
  refine (interrupted_upload_overreports "/data/" 4 ltac:(lia) ∅ demo_file 1001 "abc" _ _ _ _);
    [done|done|vm_compute; split; congruence|vm_compute; congruence].
Defined.
End runs.
