(* ===== verification/FileService.v ===== *)
(** * The File service

    Models file/service.cc: the admission of calls, the validation, the shard
    that owns an object, and the lock of an object with its reference counted
    state. The requests of one object are serialised by that lock, which is what
    allows the storage operations (FileStorage) to be functions on the disk.

    [store] is cut where it awaits the lock: a task is a coroutine that called
    it. A task that has the lock runs its storage operation as one step; the
    files of other objects have other paths. *)

From S2P Require Import Prelude Seastar Budget Grpc FileTypes FileStorage.
Import file.

(** ** Requests and results *)

Inductive file_request := upload_request (q : UploadRequest) | download_request (q : DownloadRequest).
Inductive file_response := upload_response (r : UploadResponse) | download_response (r : DownloadResponse).

(** std::visit of [valid] and of [object_key] *)
Definition valid (q : file_request) : bool :=
  match q with upload_request q => valid_upload q | download_request q => valid_download q end.
Definition key_of (q : file_request) : string :=
  match q with
  | upload_request q => object_key (uq_user_id q) (ff_file_id (upload_file_of q))
  | download_request q => object_key (dq_user_id q) (ff_file_id (download_file_of q))
  end.

Definition default_download : DownloadResponse := MkDownloaded "" 0 false SUCCESS "".

(** The response of a call before it is delivered. *)
Definition initial_response (q : file_request) : file_response :=
  match q with
  | upload_request q => upload_response (MkUploaded (uq_user_id q) SUCCESS 0 "")
  | download_request _ => download_response default_download
  end.
Definition invalid_response (q : file_request) : file_response :=
  match q with
  | upload_request q => upload_response (MkUploaded (uq_user_id q) FAILED 0 "invalid file upload request")
  | download_request _ => download_response (MkDownloaded "" 0 false FAILED "invalid file download request")
  end.

(** ** One shard *)

Section service.
Context {SEM : Semaphore} `{!Exclusive} `{!Sha256} (root : string) (alignment : nat).

Definition dispatch (q : file_request) : Eff disk file_response :=
  match q with
  | upload_request q => r ← upload root alignment q; mret (upload_response r)
  | download_request q => r ← download root q; mret (download_response r)
  end.

(** A coroutine inside [store]: its units of the two budgets, its reference to
    the state of its object, and whether it has the lock. *)
Record task := MkTask { tk_request : file_request; tk_units : capacity_units; tk_state : nat; tk_running : bool }.
Definition tk_key (k : task) : string := key_of (tk_request k).
Definition tk_start (k : task) : task := MkTask (tk_request k) (tk_units k) (tk_state k) true.

(** [fs_heap] are the object states by address; [fs_arrived] and [fs_started]
    record the tasks in the order in which they asked for and got a lock. *)
Record file_shard := MkFileShard {
  fs_stopping : bool; fs_operations : budget;
  fs_objects : gmap string nat; fs_heap : gmap nat exclusive; fs_next : nat;
  fs_tasks : gmap nat task;
  fs_arrived : list (string * nat); fs_started : list (string * nat) }.

(** use_count of an object state: its entry in the table, and the tasks. *)
Definition use_count (a : nat) (s : file_shard) : nat :=
  size (filter (λ e : string * nat, e.2 = a) (fs_objects s)) +
  size (filter (λ e : nat * task, tk_state e.2 = a) (fs_tasks s)).

(** The state of the object, which is made when there is none. *)
Definition object_state (key : string) (s : file_shard) : nat * file_shard :=
  match fs_objects s !! key with
  | Some a => (a, s)
  | None =>
      (fs_next s, MkFileShard (fs_stopping s) (fs_operations s) (<[key := fs_next s]> (fs_objects s))
        (<[fs_next s := exclusive_init]> (fs_heap s)) (S (fs_next s)) (fs_tasks s)
        (fs_arrived s) (fs_started s))
  end.

(** [store] until it has or awaits the lock; [Some]: it returned this status. *)
Definition store_begin (i : nat) (q : file_request) (bytes : Z) (s : file_shard) : option status * file_shard :=
  if fs_stopping s then (Some (MkStatus UNAVAILABLE "File is stopping"), s)
  else
    match acquire bytes (fs_operations s) with
    | (Throw _, b) =>
        (Some (MkStatus RESOURCE_EXHAUSTED "File storage capacity exceeded"),
         MkFileShard (fs_stopping s) b (fs_objects s) (fs_heap s) (fs_next s) (fs_tasks s)
           (fs_arrived s) (fs_started s))
    | (Ok units, b) =>
        let '(a, s) := object_state (key_of q) s in
        let '(ready, x) := get_unit i (default exclusive_init (fs_heap s !! a)) in
        (None,
         MkFileShard (fs_stopping s) b (fs_objects s) (<[a := x]> (fs_heap s)) (fs_next s)
           (<[i := MkTask q units a ready]> (fs_tasks s))
           (fs_arrived s ++ [(key_of q, i)])
           (if ready then fs_started s ++ [(key_of q, i)] else fs_started s))
    end.

(** The unit of the lock goes to the next task of the object. *)
Definition return_lock (k : task) (s : file_shard) : file_shard :=
  let '(next, x) := return_unit (default exclusive_init (fs_heap s !! tk_state k)) in
  MkFileShard (fs_stopping s) (fs_operations s) (fs_objects s) (<[tk_state k := x]> (fs_heap s)) (fs_next s)
    (match next with Some j => alter tk_start j (fs_tasks s) | None => fs_tasks s end) (fs_arrived s)
    (match next with Some j => fs_started s ++ [(tk_key k, j)] | None => fs_started s end).

(** When the table and this task have the last references, the entry goes. *)
Definition drop_state (k : task) (s : file_shard) : file_shard :=
  if (use_count (tk_state k) s =? 2)%nat
  then MkFileShard (fs_stopping s) (fs_operations s) (delete (tk_key k) (fs_objects s))
         (delete (tk_state k) (fs_heap s)) (fs_next s) (fs_tasks s) (fs_arrived s) (fs_started s)
  else s.

(** The rest of [store] for a task that has the lock: the storage operation,
    whatever its outcome, then the lock, the state and the units are returned.
    The shards share the disk. *)
Definition store_end (i : nat) (k : task) (d : disk) (s : file_shard) :
    outcome (status * file_response) * disk * file_shard :=
  let '(r, d) := dispatch (tk_request k) d in
  let s := drop_state k (return_lock k s) in
  (match r with Ok output => Ok (status_ok, output) | Throw e => Throw e end, d,
   MkFileShard (fs_stopping s) (release (tk_units k) (fs_operations s)) (fs_objects s) (fs_heap s) (fs_next s)
     (delete i (fs_tasks s)) (fs_arrived s) (fs_started s)).

Definition shard_stopping (s : file_shard) : file_shard :=
  MkFileShard true (fs_operations s) (fs_objects s) (fs_heap s) (fs_next s) (fs_tasks s)
    (fs_arrived s) (fs_started s).

(** ** The shard a call arrives at *)

(** [submit]: the units a call holds until OnDone, or the status it is
    rejected with. [size]: ByteSizeLong. *)
Definition call_bytes (size : Z) : Z := size + max_chunk_size + 65536.
Definition submit (stopping : bool) (size : Z) (calls : budget) : (capacity_units + status) * budget :=
  if stopping then (inr (MkStatus UNAVAILABLE "File is stopping"), calls)
  else
    match acquire (call_bytes size) calls with
    | (Throw _, b) => (inr (MkStatus RESOURCE_EXHAUSTED "File request capacity exceeded"), b)
    | (Ok units, b) => (inl units, b)
    end.

(** [execute]: where a call goes, and what it is finished with, given what
    [store] of that shard returned. *)
Definition call_owner (q : file_request) (shards : Z) : option Z :=
  if valid q then Some (object_owner_shard (key_of q) shards) else None.
Definition execute (q : file_request) (stored : outcome (status * file_response)) : status * file_response :=
  if negb (valid q) then (status_ok, invalid_response q)
  else
    match stored with
    | Throw e => (MkStatus INTERNAL (what e), initial_response q)
    | Ok (st, output) =>
        if is_ok st then (st, output) else (st, initial_response q)
    end.
End service.
