(* ===== verification/FileServiceTheorems.v ===== *)
(** * The locks of the File service

    In every interleaving of the calls of all shards, the requests of an object
    run one at a time and in the order of their arrival, the table of objects
    holds exactly the objects in use, and the disk changes only by whole storage
    operations. *)

From S2P Require Import Prelude Seastar Budget Grpc FileTypes FileStorage FileTheorems FileService.
Import file.

(** The tasks of an object in a log of tasks. *)
Definition of_key (key : string) (log : list (string * nat)) : list nat := (filter (λ e, e.1 = key) log).*2.

Lemma of_key_snoc key key' i log :
  of_key key (log ++ [(key', i)]) = of_key key log ++ (if decide (key' = key) then [i] else []).
Proof.
  unfold of_key. rewrite filter_app, fmap_app. f_equal. rewrite filter_cons, filter_nil. simpl. by case_decide.
Qed.

(** A map with one entry. *)
Lemma size_one `{Countable K} {V} (m : gmap K V) i x :
  m !! i = Some x → (size m = 1 ↔ ∀ j y, m !! j = Some y → j = i).
Proof.
  intros Hi. rewrite <- (insert_delete_id m i x Hi) at 1. rewrite map_size_insert_None by apply lookup_delete_eq. split.
  - intros [= Hs] j y Hj. apply map_size_empty_inv in Hs. destruct (decide (j = i)) as [|Hne]; [done|].
    by rewrite <- (lookup_delete_ne _ i j), Hs, lookup_empty in Hj by done.
  - intros Hu. f_equal. apply map_size_empty_iff, map_empty. intros j.
    destruct (decide (j = i)) as [->|Hne]; [apply lookup_delete_eq|]. rewrite lookup_delete_ne by done.
    destruct (m !! j) eqn:E; [|done]. by destruct Hne; eapply Hu.
Qed.

Section locks.
Context {SEM : Semaphore} `{!Exclusive} `{!Sha256} (root : string) (alignment : nat).
Implicit Types (s : file_shard) (k : task) (i j a : nat) (key : string).

(** The tasks of an object: [i] has the lock, the others wait in the lock's
    order. *)
Record in_line (key : string) (x : exclusive) (i : nat) (tasks : gmap nat task) : Prop := {
  line_taken : taken x = true;
  line_nodup : NoDup (i :: waiters x);
  line_all j k : tasks !! j = Some k → tk_key k = key → j ∈ i :: waiters x;
  line_task j : j ∈ i :: waiters x →
    ∃ k, tasks !! j = Some k ∧ tk_key k = key ∧ tk_running k = bool_decide (j = i)
}.

(** The tasks that wait for the lock of an object. *)
Definition waiting (key : string) (s : file_shard) : list nat :=
  match fs_objects s !! key ≫= λ a, fs_heap s !! a with Some x => waiters x | None => [] end.

Record shard_inv (count bytes : Z) (s : file_shard) : Prop := {
  inv_task i k : fs_tasks s !! i = Some k → fs_objects s !! tk_key k = Some (tk_state k);
  inv_inj key key' a : fs_objects s !! key = Some a → fs_objects s !! key' = Some a → key = key';
  inv_next key a : fs_objects s !! key = Some a → a < fs_next s;
  inv_line key a : fs_objects s !! key = Some a → ∃ x i, fs_heap s !! a = Some x ∧ in_line key x i (fs_tasks s);
  inv_order key : of_key key (fs_arrived s) = of_key key (fs_started s) ++ waiting key s;
  inv_units : balanced count bytes (values tk_units (fs_tasks s)) (fs_operations s)
}.

(** ** Lines *)

Lemma line_alone key i q units a x :
  key_of q = key → taken x = true → waiters x = [] → ∀ tasks,
  (∀ j k, tasks !! j = Some k → tk_key k ≠ key) →
  in_line key x i (<[i := MkTask q units a true]> tasks).
Proof.
  intros Hq Ht Hw tasks Hno. split; rewrite ?Hw; [done|apply NoDup_singleton| |].
  - intros j k [[-> _]|[_ Hj]]%lookup_insert_Some Hk; [set_solver|]. by destruct (Hno _ _ Hj).
  - intros j ->%list_elem_of_singleton. rewrite lookup_insert_eq. eexists. split; [done|].
    by rewrite bool_decide_eq_true_2.
Qed.

Lemma line_join key i q units a x x' i0 tasks :
  key_of q = key → tasks !! i = None → in_line key x i0 tasks →
  taken x' = true → waiters x' = waiters x ++ [i] →
  in_line key x' i0 (<[i := MkTask q units a false]> tasks).
Proof.
  intros Hq Hi [Ht Hnd Hall Htask] Ht' Hw. split; rewrite ?Hw.
  - done.
  - change (NoDup ((i0 :: waiters x) ++ [i])). apply NoDup_app. split_and!; [done| |apply NoDup_singleton].
    intros j Hj ->%list_elem_of_singleton. destruct (Htask _ Hj) as (k & Hk & _). congruence.
  - intros j k [[<- <-]|[_ Hj]]%lookup_insert_Some Hk; [set_solver|]. pose proof (Hall _ _ Hj Hk). set_solver.
  - intros j Hj. destruct (decide (j = i)) as [->|Hne].
    + exists (MkTask q units a false). rewrite lookup_insert_eq. split_and!; [done|done|]. simpl. symmetry.
      apply bool_decide_eq_false_2. intros ->. destruct (Htask i0) as (k & Hk & _); [set_solver|]. congruence.
    + rewrite lookup_insert_ne by done. apply Htask. set_solver.
Qed.

Lemma line_other key x i0 tasks i k : tk_key k ≠ key → tasks !! i = None →
  in_line key x i0 tasks → in_line key x i0 (<[i := k]> tasks).
Proof.
  intros Hk Hi [Ht Hnd Hall Htask]. split; [done|done| |].
  - intros j k' [[-> ->]|[_ Hj]]%lookup_insert_Some ?; [done|by eapply Hall].
  - intros j Hj. destruct (Htask _ Hj) as (k' & Hk' & ?). exists k'. rewrite lookup_insert_ne; [done|congruence].
Qed.

(** The first of the line leaves, the next one has the lock. *)
Lemma line_pass key x x' i j l tasks :
  in_line key x i tasks → waiters x = j :: l → taken x' = true → waiters x' = l →
  in_line key x' j (delete i (alter tk_start j tasks)).
Proof.
  intros [Ht Hnd Hall Htask] Hw Ht' Hw'. rewrite Hw in Hnd, Hall, Htask.
  apply NoDup_cons in Hnd as [Hi Hnd]. split; rewrite ?Hw'; [done|done| |].
  - intros j' k [Hne Hj]%lookup_delete_Some Hk. rewrite lookup_alter_Some in Hj.
    destruct Hj as [(<- & k0 & Hk0 & ->)|[_ Hj]]; [set_solver|].
    pose proof (Hall _ _ Hj Hk) as Hin. set_solver.
  - intros j' Hj'. assert (i ≠ j') by (intros ->; done). rewrite lookup_delete_ne by done.
    destruct (Htask j') as (k & Hk & Hkey & Hrun); [set_solver|].
    destruct (decide (j' = j)) as [->|Hne].
    + exists (tk_start k). rewrite lookup_alter_eq, Hk. split_and!; [done|done|]. by rewrite bool_decide_eq_true_2.
    + exists k. rewrite lookup_alter_ne by done. split_and!; [done|done|].
      rewrite Hrun, !bool_decide_eq_false_2; congruence.
Qed.

Lemma line_leave key x i i0 tasks next k :
  in_line key x i0 tasks → tasks !! i = Some k → tk_key k ≠ key →
  (∀ j, next = Some j → ∃ k', tasks !! j = Some k' ∧ tk_key k' ≠ key) →
  in_line key x i0 (delete i (match next with Some j => alter tk_start j tasks | None => tasks end)).
Proof.
  intros [Ht Hnd Hall Htask] Hi Hk Hn. split; [done|done| |].
  - intros j k' [Hne Hj]%lookup_delete_Some Hkey. destruct next as [n|]; [|by eapply Hall].
    apply lookup_alter_Some in Hj as [(<- & k0 & Hk0 & ->)|[_ Hj]]; [|by eapply Hall]. by eapply Hall.
  - intros j Hj. destruct (Htask _ Hj) as (k' & Hk' & Hkey & Hrun). exists k'. split; [|done].
    rewrite lookup_delete_ne by (intros ->; congruence). destruct next as [n|]; [|done].
    rewrite lookup_alter_ne; [done|]. intros ->. destruct (Hn _ eq_refl) as (k2 & ? & ?). congruence.
Qed.

(** ** The reference count *)

Definition refs_ok (s : file_shard) : Prop :=
  (∀ i k, fs_tasks s !! i = Some k → fs_objects s !! tk_key k = Some (tk_state k)) ∧
  (∀ key key' a, fs_objects s !! key = Some a → fs_objects s !! key' = Some a → key = key').

Lemma use_count_last s i k :
  refs_ok s → fs_tasks s !! i = Some k →
  (use_count (tk_state k) s = 2 ↔ ∀ j k', fs_tasks s !! j = Some k' → tk_key k' = tk_key k → j = i).
Proof.
  intros [Htask Hinj] Hi. unfold use_count. pose proof (Htask _ _ Hi) as Ho.
  assert (size (filter (λ e : string * nat, e.2 = tk_state k) (fs_objects s)) = 1) as ->.
  { eapply (size_one _ (tk_key k) (tk_state k)); [by apply map_lookup_filter_Some|].
    intros key a [Hk Ha]%map_lookup_filter_Some. simpl in Ha. subst. by eapply Hinj. }
  transitivity (size (filter (λ e : nat * task, tk_state e.2 = tk_state k) (fs_tasks s)) = 1); [lia|].
  rewrite (size_one _ i k) by (by apply map_lookup_filter_Some). split; intros Hu j k' Hj.
  - intros Hk. apply (Hu j k'), map_lookup_filter_Some. split; [done|]. simpl.
    pose proof (Htask _ _ Hj) as Ho'. rewrite Hk in Ho'. congruence.
  - apply map_lookup_filter_Some in Hj as [Hj Hs]. simpl in Hs. apply (Hu j k' Hj).
    eapply Hinj; [by eapply Htask|]. by rewrite Hs.
Qed.

(** ** Arrival *)

Lemma waiting_of key a x s : fs_objects s !! key = Some a → fs_heap s !! a = Some x → waiting key s = waiters x.
Proof. intros Ho Hh. unfold waiting. rewrite Ho. simpl. by rewrite Hh. Qed.

(** A request for an object in use joins its line. *)
Lemma arrive_known count bytes s i q units b a ready x x0 :
  shard_inv count bytes s → fs_tasks s !! i = None →
  balanced count bytes (units :: values tk_units (fs_tasks s)) b →
  fs_objects s !! key_of q = Some a → fs_heap s !! a = Some x0 → get_unit i x0 = (ready, x) →
  shard_inv count bytes
    (MkFileShard (fs_stopping s) b (fs_objects s) (<[a := x]> (fs_heap s)) (fs_next s)
       (<[i := MkTask q units a ready]> (fs_tasks s)) (fs_arrived s ++ [(key_of q, i)])
       (if ready then fs_started s ++ [(key_of q, i)] else fs_started s)).
Proof.
  intros Hs Hi Hb Ho Hx Hg. destruct (inv_line _ _ _ Hs _ _ Ho) as (x1 & i0 & Hx1 & Hline).
  rewrite Hx in Hx1. injection Hx1 as <-.
  destruct (get_unit_taken i x0 (line_taken _ _ _ _ Hline)) as (E & Ht & Hw). rewrite Hg in E, Ht, Hw. simpl in *. subst.
  split; simpl.
  - intros j k [[<- <-]|[_ Hj]]%lookup_insert_Some; [done|]. by eapply inv_task.
  - apply (inv_inj _ _ _ Hs).
  - apply (inv_next _ _ _ Hs).
  - intros key a' Ho'. destruct (decide (key = key_of q)) as [->|Hne].
    + rewrite Ho in Ho'. injection Ho' as <-. exists x, i0. rewrite lookup_insert_eq. split; [done|].
      by eapply line_join.
    + assert (a' ≠ a) by (intros ->; by destruct Hne; eapply inv_inj).
      destruct (inv_line _ _ _ Hs _ _ Ho') as (x' & i' & Hx' & Hl'). exists x', i'.
      rewrite lookup_insert_ne by done. split; [done|]. by apply line_other.
  - intros key. rewrite of_key_snoc, (inv_order _ _ _ Hs key), <- app_assoc. f_equal. unfold waiting. simpl.
    case_decide as Hk.
    + subst key. rewrite Ho. simpl. by rewrite Hx, lookup_insert_eq.
    + rewrite app_nil_r. destruct (fs_objects s !! key) as [a'|] eqn:Ho'; [|done]. simpl.
      rewrite lookup_insert_ne; [done|]. intros ->. by destruct Hk; eapply inv_inj.
  - eapply balanced_perm; [|exact Hb]. symmetry. by apply (values_insert tk_units).
Qed.

(** A request for an object that is not in use opens a line. *)
Lemma arrive_new count bytes s i q units b ready x :
  shard_inv count bytes s → fs_tasks s !! i = None →
  balanced count bytes (units :: values tk_units (fs_tasks s)) b →
  fs_objects s !! key_of q = None → get_unit i exclusive_init = (ready, x) →
  shard_inv count bytes
    (MkFileShard (fs_stopping s) b (<[key_of q := fs_next s]> (fs_objects s)) (<[fs_next s := x]> (fs_heap s))
       (S (fs_next s)) (<[i := MkTask q units (fs_next s) ready]> (fs_tasks s)) (fs_arrived s ++ [(key_of q, i)])
       (if ready then fs_started s ++ [(key_of q, i)] else fs_started s)).
Proof.
  intros Hs Hi Hb Ho Hg. set (a := fs_next s).
  destruct (get_unit_free i exclusive_init taken_init waiters_init) as (E & Ht & Hw).
  rewrite Hg in E, Ht, Hw. simpl in *. subst ready.
  assert (∀ j k, fs_tasks s !! j = Some k → tk_key k ≠ key_of q) as Hno.
  { intros j k Hj Hk. apply (inv_task _ _ _ Hs) in Hj. congruence. }
  assert (∀ key a', fs_objects s !! key = Some a' → a' ≠ a) as Hfresh.
  { intros key a' Ha ->. apply (inv_next _ _ _ Hs) in Ha. unfold a in Ha. lia. }
  split; simpl.
  - intros j k [[<- <-]|[_ Hj]]%lookup_insert_Some; [apply lookup_insert_eq|].
    rewrite lookup_insert_ne by (symmetry; by eapply Hno). by eapply inv_task.
  - intros key key' a' [[<- <-]|[_ H1]]%lookup_insert_Some [[<- E2]|[_ H2]]%lookup_insert_Some; try done.
    + by destruct (Hfresh _ _ H2).
    + subst a'. by destruct (Hfresh _ _ H1).
    + by eapply inv_inj.
  - intros key a' [[_ <-]|[_ H1]]%lookup_insert_Some; [unfold a; lia|]. apply (inv_next _ _ _ Hs) in H1. lia.
  - intros key a' [[<- <-]|[Hne H1]]%lookup_insert_Some.
    + exists x, i. rewrite lookup_insert_eq. split; [done|]. by apply line_alone.
    + destruct (inv_line _ _ _ Hs _ _ H1) as (x' & i' & Hx' & Hl'). exists x', i'.
      rewrite lookup_insert_ne by (symmetry; by eapply Hfresh). split; [done|]. by apply line_other.
  - intros key. rewrite !of_key_snoc, (inv_order _ _ _ Hs key). unfold waiting. simpl. case_decide as Hk.
    + subst key. rewrite Ho, lookup_insert_eq. simpl. rewrite lookup_insert_eq, Hw. by rewrite !app_nil_r.
    + rewrite !app_nil_r, lookup_insert_ne by done. f_equal.
      destruct (fs_objects s !! key) as [a'|] eqn:Ho'; [|done]. simpl.
      rewrite lookup_insert_ne; [done|]. symmetry. by eapply Hfresh.
  - eapply balanced_perm; [|exact Hb]. symmetry. by apply (values_insert tk_units).
Qed.

Lemma store_begin_inv count bytes i q n s :
  shard_inv count bytes s → fs_tasks s !! i = None → (0 ≤ n)%Z →
  shard_inv count bytes (store_begin i q n s).2.
Proof.
  intros Hs Hi Hn. unfold store_begin. destruct (fs_stopping s); [done|].
  destruct (acquire n (fs_operations s)) as [[units|e] b] eqn:Ea;
    pose proof (balanced_acquire _ _ _ _ _ _ _ Hn Ea (inv_units _ _ _ Hs)) as Hb; simpl in Hb.
  - unfold object_state. destruct (fs_objects s !! key_of q) as [a|] eqn:Ho; simpl.
    + destruct (inv_line _ _ _ Hs _ _ Ho) as (x0 & i0 & Hx & _). rewrite Hx. simpl.
      destruct (get_unit i x0) as [ready x] eqn:Hg. by eapply arrive_known.
    + rewrite lookup_insert_eq. simpl. destruct (get_unit i exclusive_init) as [ready x] eqn:Hg. simpl.
      rewrite insert_insert_eq. by apply arrive_new.
  - destruct Hb as [-> Hb]. by destruct Hs; split.
Qed.

(** ** Departure *)

Lemma inv_refs count bytes s : shard_inv count bytes s → refs_ok s.
Proof. intros Hs. split; [apply (inv_task _ _ _ Hs)|apply (inv_inj _ _ _ Hs)]. Qed.

(** A task that has the lock is the first of its line. *)
Lemma running_first count bytes s i k :
  shard_inv count bytes s → fs_tasks s !! i = Some k → tk_running k = true →
  ∃ x, fs_heap s !! tk_state k = Some x ∧ in_line (tk_key k) x i (fs_tasks s).
Proof.
  intros Hs Hi Hr. destruct (inv_line _ _ _ Hs _ _ (inv_task _ _ _ Hs _ _ Hi)) as (x & i0 & Hx & Hl).
  exists x. split; [done|]. destruct (line_task _ _ _ _ Hl i) as (k' & Hk' & _ & Hr'); [by eapply line_all|].
  rewrite Hi in Hk'. injection Hk' as <-. rewrite Hr in Hr'. symmetry in Hr'. apply bool_decide_eq_true in Hr'. by subst.
Qed.

(** Nobody waits: the lock and the entry of the object go. *)
Lemma leave_last count bytes s i k x b :
  shard_inv count bytes s → fs_tasks s !! i = Some k → fs_heap s !! tk_state k = Some x →
  in_line (tk_key k) x i (fs_tasks s) → waiters x = [] →
  balanced count bytes (values tk_units (delete i (fs_tasks s))) b →
  shard_inv count bytes
    (MkFileShard (fs_stopping s) b (delete (tk_key k) (fs_objects s)) (delete (tk_state k) (fs_heap s)) (fs_next s)
       (delete i (fs_tasks s)) (fs_arrived s) (fs_started s)).
Proof.
  intros Hs Hi Hx Hl Hw Hb. pose proof (inv_task _ _ _ Hs _ _ Hi) as Ho.
  assert (∀ j k', fs_tasks s !! j = Some k' → j ≠ i → tk_key k' ≠ tk_key k) as Hother.
  { intros j k' Hj Hne Hk. pose proof (line_all _ _ _ _ Hl _ _ Hj Hk) as Hin. rewrite Hw in Hin. set_solver. }
  split; simpl.
  - intros j k' [Hne Hj]%lookup_delete_Some. rewrite lookup_delete_ne by (symmetry; eapply Hother; [done|congruence]).
    by eapply inv_task.
  - intros key key' a [_ H1]%lookup_delete_Some [_ H2]%lookup_delete_Some. by eapply inv_inj.
  - intros key a [_ H1]%lookup_delete_Some. by eapply inv_next.
  - intros key a [Hne H1]%lookup_delete_Some. destruct (inv_line _ _ _ Hs _ _ H1) as (x' & i' & Hx' & Hl').
    exists x', i'. rewrite lookup_delete_ne by (intros E; apply Hne; rewrite <- E in H1; by eapply inv_inj).
    split; [done|]. by apply (line_leave _ _ _ _ _ None k Hl' Hi).
  - intros key. rewrite (inv_order _ _ _ Hs key). f_equal. destruct (decide (key = tk_key k)) as [->|Hne].
    + rewrite (waiting_of _ _ _ _ Ho Hx), Hw. unfold waiting. simpl. by rewrite lookup_delete_eq.
    + unfold waiting. simpl. rewrite lookup_delete_ne by done.
      destruct (fs_objects s !! key) as [a|] eqn:H1; [|done]. simpl. rewrite lookup_delete_ne; [done|].
      intros E. rewrite <- E in H1. apply Hne. by eapply inv_inj.
  - done.
Qed.

(** The next of the line has the lock. *)
Lemma leave_next count bytes s i k x x' j l b :
  shard_inv count bytes s → fs_tasks s !! i = Some k → fs_heap s !! tk_state k = Some x →
  in_line (tk_key k) x i (fs_tasks s) → waiters x = j :: l → taken x' = true → waiters x' = l →
  balanced count bytes (values tk_units (delete i (alter tk_start j (fs_tasks s)))) b →
  shard_inv count bytes
    (MkFileShard (fs_stopping s) b (fs_objects s) (<[tk_state k := x']> (fs_heap s)) (fs_next s)
       (delete i (alter tk_start j (fs_tasks s))) (fs_arrived s) (fs_started s ++ [(tk_key k, j)])).
Proof.
  intros Hs Hi Hx Hl Hw Ht' Hw' Hb. pose proof (inv_task _ _ _ Hs _ _ Hi) as Ho.
  assert (∀ key a, fs_objects s !! key = Some a → key ≠ tk_key k → tk_state k ≠ a) as Hother.
  { intros key a H1 Hne <-. apply Hne. by eapply inv_inj. }
  split; simpl.
  - intros j' k' [_ Hj]%lookup_delete_Some. apply lookup_alter_Some in Hj as [(<- & k0 & Hk0 & ->)|[_ Hj]].
    + exact (inv_task _ _ _ Hs _ _ Hk0).
    + by eapply inv_task.
  - apply (inv_inj _ _ _ Hs).
  - apply (inv_next _ _ _ Hs).
  - intros key a H1. destruct (decide (key = tk_key k)) as [->|Hne].
    + rewrite Ho in H1. injection H1 as <-. exists x', j. rewrite lookup_insert_eq. split; [done|].
      by eapply line_pass.
    + destruct (inv_line _ _ _ Hs _ _ H1) as (y & i' & Hy & Hl'). exists y, i'.
      rewrite lookup_insert_ne by (by eapply Hother). split; [done|].
      apply (line_leave _ _ _ _ _ (Some j) k Hl' Hi); [congruence|]. intros ? [= <-].
      destruct (line_task _ _ _ _ Hl j) as (k' & Hk' & Hkey & _); [rewrite Hw; set_solver|]. exists k'. split; congruence.
  - intros key. rewrite of_key_snoc, (inv_order _ _ _ Hs key), <- app_assoc. f_equal. case_decide as Hk.
    + subst key. rewrite (waiting_of _ _ _ _ Ho Hx), Hw. unfold waiting. simpl. rewrite Ho. simpl.
      by rewrite lookup_insert_eq, Hw'.
    + unfold waiting. simpl. destruct (fs_objects s !! key) as [a|] eqn:H1; [|done]. simpl.
      rewrite lookup_insert_ne; [done|]. by eapply Hother.
  - done.
Qed.

Lemma values_start (tasks : gmap nat task) j : values tk_units (alter tk_start j tasks) ≡ₚ values tk_units tasks.
Proof.
  rewrite alter_alt. destruct (tasks !! j) as [k|] eqn:E; [|done]. by apply (values_same tk_units _ _ k).
Qed.

Lemma store_end_inv count bytes i k d s :
  shard_inv count bytes s → fs_tasks s !! i = Some k → tk_running k = true →
  shard_inv count bytes (store_end root alignment i k d s).2.
Proof.
  intros Hs Hi Hr. destruct (running_first _ _ _ _ _ Hs Hi Hr) as (x & Hx & Hl).
  unfold store_end. destruct (dispatch _ _ _ _) as [r d']. simpl.
  assert (balanced count bytes (values tk_units (delete i (fs_tasks s))) (release (tk_units k) (fs_operations s))) as Hb.
  { apply balanced_release. eapply balanced_perm; [|apply (inv_units _ _ _ Hs)]. by apply (values_delete tk_units). }
  unfold return_lock. rewrite Hx. simpl. pose proof (line_taken _ _ _ _ Hl) as Ht.
  destruct (return_unit x) as [next x'] eqn:Eu. destruct (waiters x) as [|j l] eqn:Hw.
  - destruct (return_unit_last x Ht Hw) as (En & _). rewrite Eu in En. simpl in En. subst next.
    unfold drop_state. match goal with |- context [use_count _ ?st] => set (s1 := st) end.
    assert (use_count (tk_state k) s1 = 2) as ->; simpl.
    { apply (use_count_last s1 i k (inv_refs _ _ _ Hs) Hi). intros j k' Hj Hk.
      pose proof (line_all _ _ _ _ Hl _ _ Hj Hk) as Hin. rewrite Hw in Hin. set_solver. }
    rewrite delete_insert_eq. by eapply leave_last.
  - destruct (return_unit_next x j l Ht Hw) as (En & Ht' & Hw'). rewrite Eu in En, Ht', Hw'. simpl in *. subst next.
    pose proof (line_nodup _ _ _ _ Hl) as Hnd. rewrite Hw in Hnd. apply NoDup_cons in Hnd as [Hij _].
    assert (i ≠ j) as Hne by set_solver.
    unfold drop_state. match goal with |- context [use_count _ ?st] => set (s1 := st) end.
    destruct (Nat.eqb_spec (use_count (tk_state k) s1) 2) as [Hu|_]; simpl.
    { exfalso. apply Hne. destruct (line_task _ _ _ _ Hl j) as (kj & Hj & Hkey & _); [rewrite Hw; set_solver|].
      symmetry. eapply (use_count_last s1 i k); [|simpl; by rewrite lookup_alter_ne|done| |].
      - split; [|apply (inv_inj _ _ _ Hs)]. intros i' k' Hi'. simpl in Hi'.
        apply lookup_alter_Some in Hi' as [(<- & k0 & Hk0 & ->)|[_ Hi']]; [exact (inv_task _ _ _ Hs _ _ Hk0)|exact (inv_task _ _ _ Hs _ _ Hi')].
      - simpl. by rewrite lookup_alter_eq, Hj.
      - done. }
    eapply leave_next; [done..|]. eapply balanced_perm; [|exact Hb].
    rewrite <- alter_delete_ne by done. symmetry. apply values_start.
Qed.

(** ** All shards *)

(** The shards of the service by their number, with the disk they share. *)
Definition file_service : Type := disk * gmap Z file_shard.

Definition shard_start (count bytes : Z) : file_shard :=
  MkFileShard false (make_budget count bytes) ∅ ∅ 0 ∅ [] [].

(** A call that passed validation reaches the shard that owns its object; a task
    that has its lock finishes; the service is told to stop; the disk's faults
    ahead are not known. *)
Inductive file_step (shards : Z) : file_service → file_service → Prop :=
  | file_store d w owner s i q bytes :
      call_owner q shards = Some owner → w !! owner = Some s → fs_tasks s !! i = None → (0 ≤ bytes)%Z →
      file_step shards (d, w) (d, <[owner := (store_begin i q bytes s).2]> w)
  | file_finish d w n s i k :
      w !! n = Some s → fs_tasks s !! i = Some k → tk_running k = true →
      file_step shards (d, w)
        ((store_end root alignment i k d s).1.2, <[n := (store_end root alignment i k d s).2]> w)
  | file_stop d w n s : w !! n = Some s → file_step shards (d, w) (d, <[n := shard_stopping s]> w)
  | file_faults d w faults : file_step shards (d, w) (MkDisk (d_files d) faults, w).

Definition service_inv (shards count bytes : Z) (w : gmap Z file_shard) : Prop :=
  ∀ n s, w !! n = Some s → shard_inv count bytes s ∧
    ∀ i k, fs_tasks s !! i = Some k → call_owner (tk_request k) shards = Some n.

Lemma store_begin_tasks i q bytes s j k :
  fs_tasks (store_begin i q bytes s).2 !! j = Some k → fs_tasks s !! j = Some k ∨ tk_request k = q.
Proof.
  unfold store_begin. destruct (fs_stopping s); [by left|].
  destruct (acquire bytes (fs_operations s)) as [[units|e] b]; [|by left].
  destruct (object_state (key_of q) s) as [a s1] eqn:Eo.
  assert (fs_tasks s1 = fs_tasks s) as Et.
  { unfold object_state in Eo. by destruct (fs_objects s !! key_of q); simplify_eq. }
  destruct (get_unit i _) as [ready x]. simpl. intros [[<- <-]|[_ Hj]]%lookup_insert_Some; [by right|]. left. congruence.
Qed.

Lemma store_end_tasks i k d s j k' :
  fs_tasks (store_end root alignment i k d s).2 !! j = Some k' →
  ∃ k0, fs_tasks s !! j = Some k0 ∧ tk_request k' = tk_request k0.
Proof.
  unfold store_end. destruct (dispatch _ _ _ _) as [r d']. simpl. intros [_ Hj]%lookup_delete_Some.
  assert (fs_tasks (return_lock k s) !! j = Some k') as Hj'.
  { unfold drop_state in Hj. by destruct (_ =? 2)%nat. }
  unfold return_lock in Hj'. destruct (return_unit _) as [[n|] x]; simpl in Hj'; [|by exists k'].
  apply lookup_alter_Some in Hj' as [(<- & k0 & Hk0 & ->)|[_ Hj']]; [by exists k0|by exists k'].
Qed.

Lemma file_step_inv shards count bytes x y :
  file_step shards x y → service_inv shards count bytes x.2 → service_inv shards count bytes y.2.
Proof.
  destruct 1 as [d w owner s i q n Hq Hs Hi Hn|d w m s i k Hs Hi Hr|d w m s Hs|]; simpl; intros Hw; [| | |done];
    destruct (Hw _ _ Hs) as [Hinv Hown]; intros n' s' [[<- <-]|[_ Hs']]%lookup_insert_Some; try (by apply Hw).
  - split; [by apply store_begin_inv|]. intros j k [Hj| ->]%store_begin_tasks; [by eapply Hown|done].
  - split; [by apply store_end_inv|]. intros j k' (k0 & Hj & ->)%store_end_tasks. by eapply Hown.
  - split; [by destruct Hinv; split|done].
Qed.

Lemma dispatch_step q d :
  valid q = true → storage_step root alignment d (dispatch root alignment q d).2.
Proof.
  destruct q as [q|q]; simpl; intros Hv; rewrite bind_eq.
  - pose proof (step_upload root alignment d q Hv). by destruct (upload root alignment q d) as [[] ?].
  - pose proof (step_download root alignment d q Hv). by destruct (download root q d) as [[] ?].
Qed.

Lemma call_owner_valid q shards owner : call_owner q shards = Some owner → valid q = true.
Proof. unfold call_owner. by destruct (valid q). Qed.

Lemma file_step_disk shards count bytes x y :
  file_step shards x y → service_inv shards count bytes x.2 → storage_step root alignment x.1 y.1 ∨ y.1 = x.1.
Proof.
  destruct 1 as [|d w m s i k Hs Hi Hr| |]; simpl; intros Hw; [by right| |by right|left; apply step_faults].
  left. destruct (Hw _ _ Hs) as [_ Hown]. pose proof (call_owner_valid _ _ _ (Hown _ _ Hi)) as Hv.
  unfold store_end. pose proof (dispatch_step _ d Hv) as Hd. by destruct (dispatch _ _ _ _) as [r d'].
Qed.

Lemma file_reachable shards count bytes x y :
  rtc (file_step shards) x y → service_inv shards count bytes x.2 →
  service_inv shards count bytes y.2 ∧ rtc (storage_step root alignment) x.1 y.1.
Proof.
  induction 1 as [x|x y z Hs _ IH]; intros Hx; [done|]. destruct (IH (file_step_inv _ _ _ _ _ Hs Hx)) as [Hz Hr].
  split; [done|]. destruct (file_step_disk _ _ _ _ _ Hs Hx) as [Hd| <-]; [by eapply rtc_l|done].
Qed.

Lemma shard_start_inv count bytes : (0 ≤ count)%Z → (0 ≤ bytes)%Z → shard_inv count bytes (shard_start count bytes).
Proof.
  intros Hc Hb. split; simpl; try (intros *; rewrite ?lookup_empty; done).
  rewrite values_empty. unfold balanced. simpl. rewrite !available_init. split_and!; [done|lia..].
Qed.

Lemma start_inv shards count bytes w :
  (0 ≤ count)%Z → (0 ≤ bytes)%Z → (∀ n s, w !! n = Some s → s = shard_start count bytes) →
  service_inv shards count bytes w.
Proof. intros Hc Hb Hw n s Hs. rewrite (Hw _ _ Hs). split; [by apply shard_start_inv|]. intros i k Hi. done. Qed.

(** C11: the requests of an object are serialised. In every interleaving of the
    calls of all shards: two tasks that have the lock of the same object are the
    same task, on the same shard; the tasks of an object get the lock in the
    order of their arrival, and one that waits waits for one that has it; the
    table of a shard has exactly the objects that are in use, so that neither a
    lock in use is dropped nor an unused one kept; the units of the tasks and the
    free ones add up to the limits; and the disk has changed only by whole
    storage operations of validated requests, which is what the theorems on the
    storage assume. *)
Theorem object_requests_serialised shards count bytes d0 w0 d w :
  (0 ≤ count)%Z → (0 ≤ bytes)%Z → (∀ n s, w0 !! n = Some s → s = shard_start count bytes) →
  rtc (file_step shards) (d0, w0) (d, w) →
  (∀ n s i k n' s' i' k', w !! n = Some s → fs_tasks s !! i = Some k → tk_running k = true →
     w !! n' = Some s' → fs_tasks s' !! i' = Some k' → tk_running k' = true →
     tk_key k = tk_key k' → n = n' ∧ i = i') ∧
  (∀ n s, w !! n = Some s →
     (∀ key, of_key key (fs_started s) `prefix_of` of_key key (fs_arrived s)) ∧
     (∀ i k, fs_tasks s !! i = Some k →
        ∃ j k', fs_tasks s !! j = Some k' ∧ tk_key k' = tk_key k ∧ tk_running k' = true) ∧
     (∀ key, is_Some (fs_objects s !! key) ↔ ∃ i k, fs_tasks s !! i = Some k ∧ tk_key k = key) ∧
     balanced count bytes (values tk_units (fs_tasks s)) (fs_operations s)) ∧
  rtc (storage_step root alignment) d0 d.
Proof.
  intros Hc Hb Hw0 Hr. destruct (file_reachable _ count bytes _ _ Hr (start_inv _ _ _ _ Hc Hb Hw0)) as [Hw Hd].
  assert (∀ s key a, shard_inv count bytes s → fs_objects s !! key = Some a →
    ∃ j k', fs_tasks s !! j = Some k' ∧ tk_key k' = key ∧ tk_running k' = true) as Hfirst.
  { intros s key a Hs Ho. destruct (inv_line _ _ _ Hs _ _ Ho) as (x & j & _ & Hl).
    destruct (line_task _ _ _ _ Hl j) as (k' & ? & ? & Hrun); [set_solver|]. exists j, k'.
    by rewrite bool_decide_eq_true_2 in Hrun. }
  split_and!; [| |done].
  - intros n s i k n' s' i' k' Hs Hi Hrun Hs' Hi' Hrun' Hk.
    destruct (Hw _ _ Hs) as [Hinv Hown], (Hw _ _ Hs') as [Hinv' Hown'].
    assert (n = n') as <-.
    { pose proof (Hown _ _ Hi) as E. pose proof (Hown' _ _ Hi') as E'. unfold call_owner in E, E'.
      unfold tk_key in Hk. rewrite Hk in E. destruct (valid _), (valid _); congruence. }
    rewrite Hs in Hs'. injection Hs' as <-. split; [done|].
    destruct (running_first _ _ _ _ _ Hinv Hi Hrun) as (x & _ & Hl).
    destruct (line_task _ _ _ _ Hl i') as (k2 & Hk2 & _ & Hr2); [eapply line_all; [done|done|by symmetry]|].
    rewrite Hi' in Hk2. injection Hk2 as <-. rewrite Hrun' in Hr2. symmetry in Hr2. by apply bool_decide_eq_true in Hr2.
  - intros n s Hs. destruct (Hw _ _ Hs) as [Hinv _]. split_and!.
    + intros key. rewrite (inv_order _ _ _ Hinv key). by apply prefix_app_r.
    + intros i k Hi. eapply Hfirst; [done|]. by eapply inv_task.
    + intros key. split; [intros [a Ha]|intros (i & k & Hi & <-)].
      * destruct (Hfirst _ _ _ Hinv Ha) as (j & k & ? & ? & _). by exists j, k.
      * exists (tk_state k). by eapply inv_task.
    + apply (inv_units _ _ _ Hinv).
Qed.
End locks.

(** ** Two uploads of one object *)

Section runs.
#[local] Existing Instance counting_semaphore.
#[local] Existing Instance fair_exclusive.
#[local] Existing Instance prefix_digest.

Definition demo_upload : file_request := upload_request demo_last.
Definition demo_shard : file_shard := shard_start 2 100.
Definition demo_first : file_shard := (store_begin 1 demo_upload 10 demo_shard).2.
Definition demo_second : file_shard := (store_begin 2 demo_upload 10 demo_first).2.

Lemma object_requests_serialised_witness :
  of_key (key_of demo_upload) (fs_arrived demo_second) = [1; 2] ∧
  of_key (key_of demo_upload) (fs_started demo_second) `prefix_of` [1; 2] ∧
  (∃ j k, fs_tasks demo_second !! j = Some k ∧ tk_key k = key_of demo_upload ∧ tk_running k = true).
Proof.
  destruct (object_requests_serialised "/data/" 4 1 2 100 (MkDisk ∅ []) {[ 0%Z := demo_shard ]} (MkDisk ∅ [])
    (<[ 0%Z := demo_second ]> (<[ 0%Z := demo_first ]> {[ 0%Z := demo_shard ]}))) as (_ & Hs & _).
  - lia.
  - lia.
  - intros n s [_ <-]%lookup_singleton_Some. reflexivity.
  - eapply rtc_l; [eapply (file_store _ _ _ _ _ 0 demo_shard 1 demo_upload 10); [vm_compute; reflexivity|reflexivity|reflexivity|lia]|].
    eapply rtc_l; [eapply (file_store _ _ _ _ _ 0 demo_first 2 demo_upload 10); [vm_compute; reflexivity|reflexivity|reflexivity|lia]|].
    apply rtc_refl.
  - destruct (Hs 0%Z demo_second) as (Hp & Hrun & _); [reflexivity|]. split; [reflexivity|]. split.
    + apply (Hp (key_of demo_upload)).
    + refine (Hrun 2 (MkTask demo_upload 10%Z 0 false) _). reflexivity.
Defined.
End runs.
