(* ===== verification/Handlers.v ===== *)
(** * The business handlers of the Message service

    Models message/transaction/messages.cc, friends.cc, groups.cc and files.cc:
    each handler checks its request, runs the operations it needs, and builds the
    response and the pushes to deliver. Logging is left out. *)

From S2P Require Import Prelude Codec Records FileTypes Ids Program Process Protocol.
Import db.

(** The generated accessors of [Packet]: the default message when another
    payload is set. *)
Definition send_text_of (p : Packet) : SendTextRequest :=
  match pk_payload p with send_text_request b => b | _ => MkSendTextRequest 0 "" "" 0 end.
Definition send_group_text_of (p : Packet) : SendGroupTextRequest :=
  match pk_payload p with send_group_text_request b => b | _ => MkSendGroupTextRequest 0 "" "" 0 end.
Definition send_file_of (p : Packet) : SendFileRequest :=
  match pk_payload p with send_file_request b => b | _ => MkSendFileRequest 0 None "" 0 end.
Definition send_group_file_of (p : Packet) : SendGroupFileRequest :=
  match pk_payload p with send_group_file_request b => b | _ => MkSendGroupFileRequest 0 None "" 0 end.
Definition receipt_of (p : Packet) : MessageReceipt :=
  match pk_payload p with receipt b => b | _ => MkMessageReceipt 0 RECEIPT_TYPE_UNSPECIFIED 0 0 end.
Definition pull_of (p : Packet) : PullConversationMessagesRequest :=
  match pk_payload p with pull_conversation_messages_request b => b | _ => MkPullConversationMessagesRequest 0 0 0 end.
Definition add_friend_of (p : Packet) : AddFriendRequest :=
  match pk_payload p with add_friend_request b => b | _ => MkAddFriendRequest 0 "" end.
Definition reply_friend_of (p : Packet) : ReplyFriendRequest :=
  match pk_payload p with reply_friend_request b => b | _ => MkReplyFriendRequest 0 None "" end.
Definition create_group_of (p : Packet) : CreateGroupRequest :=
  match pk_payload p with create_group_request b => b | _ => MkCreateGroupRequest "" end.
Definition join_group_of (p : Packet) : JoinGroupRequest :=
  match pk_payload p with join_group_request b => b | _ => MkJoinGroupRequest 0 "" end.
Definition reply_join_of (p : Packet) : ReplyJoinGroupRequest :=
  match pk_payload p with reply_join_group_request b => b | _ => MkReplyJoinGroupRequest 0 0 None end.
Definition quit_group_of (p : Packet) : QuitGroupRequest :=
  match pk_payload p with quit_group_request b => b | _ => MkQuitGroupRequest 0 end.
Definition kick_of (p : Packet) : KickGroupMemberRequest :=
  match pk_payload p with kick_group_member_request b => b | _ => MkKickGroupMemberRequest 0 0 end.
Definition pull_group_of (p : Packet) : PullGroupMembersRequest :=
  match pk_payload p with pull_group_members_request b => b | _ => MkPullGroupMembersRequest 0 end.
Definition download_of (p : Packet) : FileDownloadRequest :=
  match pk_payload p with file_download_request b => b | _ => MkFileDownloadRequest None 0 0 end.

Definition with_payload (x : payload) (p : Packet) : Packet := MkPacket (pk_status p) x.
Definition respond (x : payload) (error : Z) (message : string) : Packet :=
  SetTcpPacketStatus (MkPacket None x) error message.

(** accepted_message and acknowledged_message *)
Record accepted_message := MkAccepted {
  am_response : Packet; am_forward_packet : Packet; am_recipients : list Z; am_should_forward : bool }.
Record acknowledged_message := MkAcknowledged {
  km_response : Packet; km_read_receipt : Packet; km_sender_uid : Z; km_should_forward_read : bool }.

Definition rejected (response : Packet) : accepted_message := MkAccepted response default_packet [] false.

(** fill_file_info *)
Definition fill_file_info (f : FileObjectRecord) : FileInfo :=
  MkFileInfo (for_fileId f) (for_fileName f) (for_fileType f) (for_fileSize f) (for_sha256 f) false.
Definition fill_attachment (f : FileAttachment) : FileInfo :=
  MkFileInfo (at_fileId f) (at_fileName f) (at_fileType f) (at_fileSize f) (at_sha256 f) (at_expired f).

Definition no_message : payload := send_message_response (MkSendMessageResponse 0 0 0).
Definition sent (a : MessageAcceptResult) : payload :=
  send_message_response (MkSendMessageResponse (ar_messageId a) (ar_conversationId a) (ar_conversationSeq a)).

(** ** messages.cc *)

Definition accept_text (actor_uid : Z) (request : Packet) : prog accepted_message :=
  let send := send_text_of request in
  if (actor_uid <=? 0)%Z || (st_to send <=? 0)%Z || bool_decide (st_content send = "") ||
     bool_decide (st_client_message_id send = "")
  then mret (rejected (respond no_message (error_code JsonParser)
                         "actor, to, content and client_message_id are required"))
  else
    send_date_time ← perform Now;
    accepted ← io (sql (accept_direct_text actor_uid (st_to send) (st_client_message_id send)
                          (st_content send) send_date_time (message_type_value TEXT)));
    let message :=
      if bool_decide (ar_error accepted = error_code Success) then ""
      else if bool_decide (ar_diagnostic accepted = "") then "persistent message accept failed"
           else ar_diagnostic accepted in
    let response := respond no_message (ar_error accepted) message in
    if negb (bool_decide (ar_error accepted = error_code Success)) then mret (rejected response)
    else
      let push := MkTextMessagePush (ar_messageId accepted) actor_uid (st_to send) (st_content send)
                    (st_client_message_id send) (ar_conversationId accepted) (ar_conversationSeq accepted)
                    send_date_time 0 in
      mret (MkAccepted (with_payload (sent accepted) response) (MkPacket None (text_message_push push))
              [st_to send] (negb (ar_duplicate accepted))).

Definition accept_group_text (actor_uid : Z) (request : Packet) : prog accepted_message :=
  let send := send_group_text_of request in
  if (actor_uid <=? 0)%Z || (sgt_group_id send <=? 0)%Z || bool_decide (sgt_content send = "") ||
     bool_decide (sgt_client_message_id send = "")
  then mret (rejected (respond no_message (error_code JsonParser)
                         "actor, group_id, content and client_message_id are required"))
  else
    send_date_time ← perform Now;
    accepted ← io (sql (accept_group_message actor_uid (sgt_group_id send) (sgt_client_message_id send)
                          (sgt_content send) (message_type_value TEXT) send_date_time false));
    let base := gar_base accepted in
    let message :=
      if bool_decide (ar_error base = error_code Success) then ""
      else if bool_decide (ar_diagnostic base = "") then getErrorCodeMsg (ar_error base)
           else ar_diagnostic base in
    let response := respond no_message (ar_error base) message in
    if negb (bool_decide (ar_error base = error_code Success)) then mret (rejected response)
    else
      let push := MkTextMessagePush (ar_messageId base) actor_uid 0 (sgt_content send)
                    (sgt_client_message_id send) (ar_conversationId base) (ar_conversationSeq base)
                    send_date_time (sgt_group_id send) in
      mret (MkAccepted (with_payload (sent base) response) (MkPacket None (text_message_push push))
              (gar_recipientUids accepted) (negb (ar_duplicate base))).

Definition acknowledge (actor_uid : Z) (request : Packet) (device_id : string) : prog acknowledged_message :=
  let r := receipt_of request in
  let failed error := MkAcknowledged (SetTcpPacketStatus default_packet error "") default_packet 0 false in
  if (mr_seq r <=? 0)%Z || (mr_conversation_id r <=? 0)%Z || (mr_conversation_seq r <=? 0)%Z ||
     (bool_decide (mr_receipt_type r ≠ RECEIPT_TYPE_DELIVERED) && bool_decide (mr_receipt_type r ≠ RECEIPT_TYPE_READ))
  then mret (failed (error_code JsonParser))
  else
    let is_read := bool_decide (mr_receipt_type r = RECEIPT_TYPE_READ) in
    let status := message_status (if is_read then READ else DELIVERED) in
    read_time ← (if is_read then perform Now else mret "");
    acknowledged ← io (sql (acknowledge_conversation_message (mr_seq r) actor_uid device_id
                              (mr_conversation_id r) (mr_conversation_seq r) status read_time));
    if (ack_updated acknowledged <=? 0)%Z
    then mret (failed (if (ack_updated acknowledged =? -1)%Z then error_code MysqlFailed
                       else error_code MessageOwnershipInvalid))
    else
      let response := SetTcpPacketStatus default_packet (error_code Success) "" in
      if is_read && ack_directConversation acknowledged && ack_readStateChanged acknowledged then
        let sender := ack_senderUid acknowledged in
        mret (MkAcknowledged response
                (MkPacket None (read_receipt_push (MkReadReceiptPush (mr_seq r) actor_uid sender
                   (mr_conversation_id r) (mr_conversation_seq r)))) sender (0 <? sender)%Z)
      else mret (MkAcknowledged response default_packet 0 false).

Definition accept_file (actor_uid : Z) (request : Packet) : prog accepted_message :=
  let send := send_file_of request in
  if (actor_uid <=? 0)%Z || (sf_to send <=? 0)%Z || bool_decide (sf_file send = None) ||
     bool_decide (sf_client_message_id send = "")
  then mret (rejected (respond no_message (error_code JsonParser) "to, file and client_message_id are required"))
  else
    found ← io (sql (find_ready_file (fi_file_id (default default_file (sf_file send))) actor_uid));
    match found with
    | None => mret (rejected (respond no_message (error_code NotFound) "ready file not found"))
    | Some f =>
        send_date_time ← perform Now;
        accepted ← io (sql (accept_direct_text actor_uid (sf_to send) (sf_client_message_id send)
                              (for_fileId f) send_date_time (message_type_value FILE)));
        let response := respond no_message (ar_error accepted) (ar_diagnostic accepted) in
        if negb (bool_decide (ar_error accepted = error_code Success)) then mret (rejected response)
        else
          let push := MkFileMessagePush (ar_messageId accepted) actor_uid (sf_to send) (Some (fill_file_info f))
                        (sf_client_message_id send) (ar_conversationId accepted) (ar_conversationSeq accepted) 0 in
          mret (MkAccepted (with_payload (sent accepted) response) (MkPacket None (file_message_push push))
                  [sf_to send] (negb (ar_duplicate accepted)))
    end.

Definition accept_group_file (actor_uid : Z) (request : Packet) : prog accepted_message :=
  let send := send_group_file_of request in
  if (actor_uid <=? 0)%Z || (sgf_group_id send <=? 0)%Z || bool_decide (sgf_file send = None) ||
     bool_decide (sgf_client_message_id send = "")
  then mret (rejected (respond no_message (error_code JsonParser)
                         "group_id, file and client_message_id are required"))
  else
    found ← io (sql (find_ready_file (fi_file_id (default default_file (sgf_file send))) actor_uid));
    match found with
    | None => mret (rejected (respond no_message (error_code NotFound) "ready file not found"))
    | Some f =>
        send_date_time ← perform Now;
        accepted ← io (sql (accept_group_message actor_uid (sgf_group_id send) (sgf_client_message_id send)
                              (for_fileId f) (message_type_value FILE) send_date_time true));
        let base := gar_base accepted in
        let response := respond no_message (ar_error base) (ar_diagnostic base) in
        if negb (bool_decide (ar_error base = error_code Success)) then mret (rejected response)
        else
          let push := MkFileMessagePush (ar_messageId base) actor_uid 0 (Some (fill_file_info f))
                        (sgf_client_message_id send) (ar_conversationId base) (ar_conversationSeq base)
                        (sgf_group_id send) in
          mret (MkAccepted (with_payload (sent base) response) (MkPacket None (file_message_push push))
                  (gar_recipientUids accepted) (negb (ar_duplicate base)))
    end.

Definition chat_message (m : ConversationMessageRecord) : ChatMessage :=
  MkChatMessage (cmr_messageId m) (cmr_senderId m) (cmr_receiverId m) (cmr_type m) (cmr_content m)
    (cmr_status m) (cmr_sendDateTime m) (cmr_readDateTime m) (cmr_conversationId m) (cmr_conversationSeq m)
    (cmr_clientMessageId m) (fill_attachment <$> cmr_file m).

Definition pull_conversation (actor_uid : Z) (request : Packet) : prog Packet :=
  let pull := pull_of request in
  if (pcm_conversation_id pull <=? 0)%Z then mret (SetTcpPacketStatus default_packet (error_code JsonParser) "")
  else
    let limit := if (0 <? pcm_limit pull)%Z then pcm_limit pull else 50%Z in
    sync ← io (sql (sync_conversation actor_uid (pcm_conversation_id pull) (pcm_after_seq pull) limit));
    let type := if (sr_conversationType sync =? 1)%Z then CONVERSATION_TYPE_DIRECT
                else if (sr_conversationType sync =? 2)%Z then CONVERSATION_TYPE_GROUP
                else CONVERSATION_TYPE_UNSPECIFIED in
    let response messages :=
      respond (pull_conversation_messages_response
                 (MkPullConversationMessagesResponse (pcm_conversation_id pull) (sr_nextSeq sync) (sr_hasMore sync)
                    (sr_latestSeq sync) type messages)) (sr_error sync) "" in
    if negb (bool_decide (sr_error sync = error_code Success)) then mret (response [])
    else mret (response (chat_message <$> sr_messages sync)).

(** ** friends.cc

    A handler takes the context and returns the response with the context, to
    which it may have added deliveries. The uids of db::Friend and
    db::FriendApply are size_t. *)

Definition stage (d : delivery) (c : request_context) : request_context :=
  MkContext (origin c) (rc_command c) (rc_packet c) (deliveries c ++ [d]).
Definition actor_of (c : request_context) : Z := ce_actor_uid (rc_command c).

Definition store_application (actor_uid : Z) (request : AddFriendRequest) : prog Z :=
  io (sql (insert_friend_apply (MkDbFriendApply (u64 actor_uid) (u64 (afr_to request)) (friend_apply_status Wait)
                                  (afr_request_message request) ""))).

Definition friends_apply (context : request_context) : prog (Packet * request_context) :=
  let actor_uid := actor_of context in
  let add_friend := add_friend_of (rc_packet context) in
  let to := afr_to add_friend in
  notification_id ← io (generate_id_op id_message);
  stored ← store_application actor_uid add_friend;
  if (stored =? -1)%Z
  then mret (respond add_friend_response (error_code MysqlFailed) "数据库修改异常", context)
  else
    let push := friend_request_push (MkFriendRequestPush notification_id actor_uid to (afr_request_message add_friend)) in
    mret (respond add_friend_response (error_code Success) "",
          stage (MkDelivery to (MkPacket None push) "") context).

Definition store_reply (actor_uid : Z) (request : ReplyFriendRequest) : prog Z :=
  let to := rfr_to request in
  let accept := default false (rfr_accept request) in
  let status := friend_apply_status (if accept then Agree else Refuse) in
  time ← perform Now;
  result ← (if accept then
              friendship_id ← io (generate_id_op id_friendship);
              conversation_id ← io (generate_id_op id_conversation);
              io (sql (insert_friend (MkFriend (u64 friendship_id) (u64 conversation_id) (u64 actor_uid) (u64 to) time)))
            else mret 0%Z);
  if accept && (result =? -1)%Z then mret (-1)%Z
  else io (sql (update_friend_apply_status
                  (MkDbFriendApply (u64 actor_uid) (u64 to) status (rfr_reply_message request) time))).

Definition friends_reply (context : request_context) : prog (Packet * request_context) :=
  let actor_uid := actor_of context in
  let reply_friend := reply_friend_of (rc_packet context) in
  let to := rfr_to reply_friend in
  if bool_decide (rfr_accept reply_friend = None)
  then mret (respond reply_friend_response (error_code JsonParser) "accept is required", context)
  else
    notification_id ← io (generate_id_op id_message);
    stored ← store_reply actor_uid reply_friend;
    if (stored =? -1)%Z
    then mret (respond reply_friend_response (error_code MysqlFailed) "数据库修改发送异常", context)
    else
      let push := friend_reply_push (MkFriendReplyPush notification_id actor_uid to
                    (Some (default false (rfr_accept reply_friend))) (rfr_reply_message reply_friend)) in
      mret (respond reply_friend_response (error_code Success) "",
            stage (MkDelivery to (MkPacket None push) "") context).

Definition pull_applications (context : request_context) : prog (Packet * request_context) :=
  apply_list ← io (sql (get_friend_apply_list (actor_of context)));
  let applications :=
    match apply_list with
    | None => []
    | Some l => (λ a, MkFriendApply (i64 (fa_from a)) (fa_status a) (fa_content a)) <$> l
    end in
  mret (respond (pull_friend_apply_list_response (MkPullFriendApplyListResponse applications))
          (error_code Success) "", context).

Definition pull_friends (context : request_context) : prog (Packet * request_context) :=
  friend_list ← io (sql (get_friend_list (actor_of context)));
  friends ← for_each (default [] friend_list) [] (λ friends friend_object,
    let friend_uid := i64 (f_uidB friend_object) in
    friend_info ← io (sql (get_user_info friend_uid));
    match friend_info with
    | None => mret friends
    | Some u => mret (friends ++ [MkUserInfo friend_uid (dui_name u) (dui_age u) (dui_sex u) (dui_headImageURL u)])
    end);
  mret (respond (pull_friend_list_response (MkPullFriendListResponse friends)) (error_code Success) "", context).

(** ** groups.cc *)

Definition notify_application (master_uid requestor_uid group_id : Z) (request_message : string)
    (context : request_context) : request_context :=
  stage (MkDelivery master_uid
           (MkPacket None (group_join_request_push (MkGroupJoinRequestPush requestor_uid group_id request_message))) "")
    context.

Definition notify_change (recipients : list Z) (group_id target_uid actor_uid : Z) (change : GroupChangeKind)
    (group_name : string) (accept : bool) (context : request_context) : request_context :=
  foldl (λ c uid, stage (MkDelivery uid
    (MkPacket None (group_change_push
       (MkGroupChangePush group_id target_uid actor_uid (Some accept) change group_name))) "") c) context recipients.

Definition groups_create (context : request_context) : prog (Packet * request_context) :=
  let actor_uid := actor_of context in
  let create := create_group_of (rc_packet context) in
  if (actor_uid <=? 0)%Z || bool_decide (cg_group_name create = "")
  then mret (SetTcpPacketStatus default_packet (error_code JsonParser) "", context)
  else
    group_id ← io (generate_id_op id_group);
    conversation_id ← io (generate_id_op id_conversation);
    now ← perform Now;
    result ← io (sql (create_group (MkGroupManager group_id actor_uid conversation_id (cg_group_name create) now)));
    mret (respond (create_group_response (MkCreateGroupResponse group_id conversation_id))
            (go_error result) (go_diagnostic result), context).

Definition groups_apply (context : request_context) : prog (Packet * request_context) :=
  let actor_uid := actor_of context in
  let join := join_group_of (rc_packet context) in
  if (actor_uid <=? 0)%Z || (jg_group_id join <=? 0)%Z
  then mret (SetTcpPacketStatus default_packet (error_code JsonParser) "", context)
  else
    now ← perform Now;
    result ← io (sql (request_group_join (jg_group_id join) actor_uid (jg_request_message join) now));
    let rsp := respond join_group_response (go_error result) (go_diagnostic result) in
    if bool_decide (go_error result = error_code Success) && negb (bool_decide (go_recipientUids result = []))
    then mret (rsp, notify_application (go_masterUid result) actor_uid (jg_group_id join)
                      (jg_request_message join) context)
    else mret (rsp, context).

Definition groups_pull (context : request_context) : prog (Packet * request_context) :=
  let actor_uid := actor_of context in
  let pull := pull_group_of (rc_packet context) in
  if (actor_uid <=? 0)%Z || (pgm_group_id pull <=? 0)%Z
  then mret (SetTcpPacketStatus default_packet (error_code JsonParser) "", context)
  else
    result ← io (sql (pull_group (pgm_group_id pull) actor_uid));
    let response members applications :=
      respond (pull_group_members_response
                 (MkPullGroupMembersResponse (pgm_group_id pull) (go_conversationId result) (go_masterUid result)
                    (go_groupName result) members applications)) (go_error result) (go_diagnostic result) in
    if negb (bool_decide (go_error result = error_code Success)) then mret (response [] [], context)
    else mret (response ((λ m, MkGroupMember (gmem_uid m) (gmem_memberName m) (gmem_joinTime m)) <$> go_members result)
                 ((λ a, MkGroupJoinApplication (gap_requestor a) (gap_message a) (gap_createTime a)) <$> go_applies result),
               context).

Definition groups_reply (context : request_context) : prog (Packet * request_context) :=
  let actor_uid := actor_of context in
  let reply := reply_join_of (rc_packet context) in
  let accept := default false (rjg_accept reply) in
  if (actor_uid <=? 0)%Z || (rjg_group_id reply <=? 0)%Z || (rjg_requestor_uid reply <=? 0)%Z ||
     bool_decide (rjg_accept reply = None)
  then mret (SetTcpPacketStatus default_packet (error_code JsonParser) "", context)
  else
    now ← perform Now;
    result ← io (sql (reply_group_join (rjg_group_id reply) actor_uid (rjg_requestor_uid reply) accept now));
    let rsp := respond reply_join_group_response (go_error result) (go_diagnostic result) in
    if negb (bool_decide (go_error result = error_code Success)) then mret (rsp, context)
    else mret (rsp, notify_change (go_recipientUids result) (go_groupId result) (go_targetUid result)
                      (go_actorUid result)
                      (if accept then GROUP_CHANGE_KIND_JOINED else GROUP_CHANGE_KIND_UNSPECIFIED)
                      (go_groupName result) accept context).

Definition groups_quit (context : request_context) : prog (Packet * request_context) :=
  let actor_uid := actor_of context in
  let group_id := qg_group_id (quit_group_of (rc_packet context)) in
  if (actor_uid <=? 0)%Z || (group_id <=? 0)%Z
  then mret (SetTcpPacketStatus default_packet (error_code JsonParser) "", context)
  else
    result ← io (sql (remove_group_member group_id actor_uid actor_uid true));
    let rsp := respond quit_group_response (go_error result) (go_diagnostic result) in
    if bool_decide (go_error result = error_code Success)
    then mret (rsp, notify_change (go_recipientUids result) (go_groupId result) (go_targetUid result)
                      (go_actorUid result)
                      (if (go_targetUid result =? go_masterUid result)%Z then GROUP_CHANGE_KIND_DISSOLVED
                       else GROUP_CHANGE_KIND_LEFT) (go_groupName result) false context)
    else mret (rsp, context).

Definition groups_kick (context : request_context) : prog (Packet * request_context) :=
  let actor_uid := actor_of context in
  let kick := kick_of (rc_packet context) in
  if (actor_uid <=? 0)%Z || (kg_group_id kick <=? 0)%Z || (kg_member_uid kick <=? 0)%Z
  then mret (SetTcpPacketStatus default_packet (error_code JsonParser) "", context)
  else if (actor_uid =? kg_member_uid kick)%Z
  then mret (SetTcpPacketStatus default_packet (error_code MessageOwnershipInvalid) "master cannot kick itself", context)
  else
    result ← io (sql (remove_group_member (kg_group_id kick) actor_uid (kg_member_uid kick) false));
    let rsp := respond kick_group_member_response (go_error result) (go_diagnostic result) in
    if bool_decide (go_error result = error_code Success)
    then mret (rsp, notify_change (go_recipientUids result) (go_groupId result) (go_targetUid result)
                      (go_actorUid result) GROUP_CHANGE_KIND_KICKED (go_groupName result) false context)
    else mret (rsp, context).

(** ** files.cc *)

(** The three upload requests carry the same fields; the response has the kind
    of the request. *)
Inductive upload_kind := UploadFirst | UploadChunk | UploadComplete.

Definition upload_response (kind : upload_kind) (next_offset : Z) (complete : bool) : payload :=
  match kind with
  | UploadFirst => file_upload_response (MkFileUploadResponse next_offset complete)
  | UploadChunk => file_upload_chunk_response (MkFileUploadChunkResponse next_offset complete)
  | UploadComplete => file_upload_complete_response (MkFileUploadCompleteResponse next_offset complete)
  end.

Definition upload_of (p : Packet) : option (upload_kind * option FileInfo * Z * string * bool) :=
  match pk_payload p with
  | file_upload_request b => Some (UploadFirst, fu_file b, fu_offset b, fu_data b, fu_complete b)
  | file_upload_chunk_request b => Some (UploadChunk, fuc_file b, fuc_offset b, fuc_data b, fuc_complete b)
  | file_upload_complete_request b => Some (UploadComplete, fuco_file b, fuco_offset b, fuco_data b, fuco_complete b)
  | _ => None
  end.

Definition rpc_file (f : FileInfo) : file.FileInfo :=
  file.MkFile (fi_file_id f) (fi_file_name f) (fi_file_type f) (fi_file_size f) (fi_sha256 f).
Definition rpc_object (f : FileObjectRecord) : file.FileInfo :=
  file.MkFile (for_fileId f) (for_fileName f) (for_fileType f) (for_fileSize f) (for_sha256 f).

(** The completed upload's record: files::upload from "if (complete)". *)
Definition save_object (actor_uid : Z) (f : FileInfo) (rsp : Packet) : prog Packet :=
  let object := MkFileObject (fi_file_id f) actor_uid (fi_file_name f) (fi_file_type f) (fi_file_size f)
                  (fi_sha256 f) false in
  now ← perform Now;
  expiry ← perform Expiry;
  object_result ← io (sql (upsert_ready_file object now expiry));
  mret (if negb (object_result =? 0)%Z
        then SetTcpPacketStatus rsp (error_code MysqlFailed) "file persisted but metadata write failed" else rsp).

Definition upload_chunk (actor_uid : Z) (kind : upload_kind) (f : FileInfo) (offset : Z) (data : string)
    (request_complete : bool) : prog Packet :=
  let empty := MkPacket None (upload_response kind 0 false) in
  rpc_response ← io (upload_file (file.MkUpload (Some (rpc_file f)) actor_uid offset data request_complete));
  if bool_decide (file.us_status rpc_response ≠ file.FAILED) then
    let complete := bool_decide (file.us_status rpc_response = file.SUCCESS) && request_complete in
    let rsp := with_payload (upload_response kind (file.us_next_offset rpc_response) complete)
                 (SetTcpPacketStatus empty (error_code Success) "") in
    now ← perform Now;
    progress_result ← io (sql (save_file_upload_progress actor_uid (fi_file_id f)
                                 (file.us_next_offset rpc_response) complete now));
    if negb (progress_result =? 0)%Z
    then mret (SetTcpPacketStatus rsp (error_code MysqlFailed) "file progress write failed")
    else if complete then save_object actor_uid f rsp else mret rsp
  else mret (SetTcpPacketStatus empty (error_code FileTypeError) (file.us_message rpc_response)).

Definition files_upload (context : request_context) : prog (Packet * request_context) :=
  let actor_uid := actor_of context in
  match upload_of (rc_packet context) with
  | Some (kind, Some f, offset, data, request_complete) =>
      if (actor_uid <=? 0)%Z
      then mret (respond (upload_response kind 0 false) (error_code JsonParser) "file metadata is required", context)
      else rsp ← upload_chunk actor_uid kind f offset data request_complete; mret (rsp, context)
  | Some (kind, None, _, _, _) =>
      mret (respond (upload_response kind 0 false) (error_code JsonParser) "file metadata is required", context)
  | None => mret (respond PayloadNotSet (error_code JsonParser) "file metadata is required", context)
  end.

Definition files_download (context : request_context) : prog (Packet * request_context) :=
  let actor_uid := actor_of context in
  let download := download_of (rc_packet context) in
  let file_id := fi_file_id (default default_file (fd_file download)) in
  let empty := file_download_response (MkFileDownloadResponse "" 0 false None) in
  if bool_decide (fd_file download = None) || (actor_uid <=? 0)%Z || bool_decide (file_id = "")
  then mret (respond empty (error_code JsonParser) "", context)
  else
    found ← io (sql (find_downloadable_file file_id actor_uid));
    match found with
    | None => mret (respond empty (error_code MessageOwnershipInvalid)
                      "file is unavailable or not owned by this conversation", context)
    | Some f =>
        let limit := if (0 <? fd_limit download)%Z then fd_limit download else (1024 * 1024)%Z in
        rpc_response ← io (download_file (file.MkDownload (Some (rpc_object f)) (for_ownerUid f)
                                            (fd_offset download) limit));
        if bool_decide (file.ds_status rpc_response = file.FAILED)
        then mret (respond empty (error_code RPCFailed) (file.ds_message rpc_response), context)
        else mret (respond (file_download_response
                      (MkFileDownloadResponse (file.ds_data rpc_response) (file.ds_next_offset rpc_response)
                         (file.ds_complete rpc_response) (Some (fill_file_info f)))) (error_code Success) "", context)
    end.
