(* ===== verification/MysqlStore.v ===== *)
(** * Message store: message/io/mysql_store.cc

    The SQL statements of the store as functions on the database, and one
    definition per [mysql_store::execute] overload. *)

From S2P Require Import Prelude Codec Schema Records.
Import db.

Section store.
Context `{!MysqlServer} `{!StdHash}.

(** ** Statements *)

Definition sql_eq (a b : string) : bool := bool_decide (weight a = weight b).
Definition sql_gt (a b : string) : bool :=
  match String.compare (weight a) (weight b) with Gt => true | _ => false end.

Definition unless {A} (bad : bool) (e : sql_error) (r : sql_result A) : sql_result A :=
  if bad then inl e else r.

Definition is_friend_pair (uid_a uid_b : Z) (f : friend_row) : bool :=
  (f.(fr_uidA) =? uid_a)%Z && (f.(fr_uidB) =? uid_b)%Z.

(** SELECT c.conversationId FROM friends f JOIN conversations c ... *)
Definition select_direct_conversation (uid_a uid_b : Z) : sql (option Z) :=
  sql_read (λ d,
    fst <$> head (select (λ _ c,
      (c.(cv_type) =? 1)%Z &&
      match d.(friends) !! c.(cv_businessId) with
      | Some f => is_friend_pair uid_a uid_b f
      | None => false
      end) d.(conversations))).

Definition fresh_state (joined : Z) : user_state_row := MkUserStateRow joined None 0 0.

(** INSERT IGNORE INTO conversationUserStates ... VALUES (c, uid, 1), ... *)
Definition insert_state_ignore (t : gmap (Z * Z) user_state_row) (key : Z * Z) :=
  let key := (clamp_unsigned key.1, clamp_unsigned key.2) in
  match t !! key with
  | Some _ => t
  | None => <[key := fresh_state 1]> t
  end.

Definition insert_states_ignore (keys : list (Z * Z)) : sql unit := λ d,
  inr (set_conversationUserStates
         (foldl insert_state_ignore d.(conversationUserStates) keys) d, tt).

(** INSERT INTO conversationUserStates (conversationId, uid, joinedSeq) VALUES (c, uid, joined) *)
Definition insert_state (c uid joined : Z) : sql unit := λ d,
  unless (negb (bigint_unsigned c && bigint_unsigned uid && bigint_unsigned joined)) OutOfRange
  match d.(conversationUserStates) !! (c, uid) with
  | Some _ => inl DuplicateEntry
  | None =>
    inr (set_conversationUserStates
           (<[(c, uid) := fresh_state joined]> d.(conversationUserStates)) d, tt)
  end.

(** A multi-row INSERT is the sequence of its rows, as one statement. *)
Definition sql_seq {A} (p : sql unit) (q : sql A) : sql A := λ d,
  match p d with
  | inl e => inl e
  | inr (d', _) => q d'
  end.

Definition select_latest_seq (c : Z) : sql (option Z) :=
  sql_read (λ d, cv_latestSeq <$> d.(conversations) !! c).

Definition is_duplicate (sender : Z) (client : string) (m : message_row) : bool :=
  (m.(m_senderId) =? sender)%Z &&
  match m.(m_clientMessageId) with
  | Some x => sql_eq x client
  | None => false
  end.

Definition select_duplicate (sender : Z) (client : string) : sql (option (Z * message_row)) :=
  sql_read (λ d, head (select (λ _ m, is_duplicate sender client m) d.(messages))).

Definition set_latestSeq (seq : Z) (c : conversation_row) : conversation_row :=
  MkConversationRow c.(cv_type) c.(cv_businessId) seq c.(cv_createTime).

(** UPDATE conversations SET latestSeq = ? WHERE conversationId = ? *)
Definition update_latest_seq (seq c : Z) : sql unit := λ d,
  match d.(conversations) !! c with
  | None => inr (d, tt)
  | Some row =>
    unless (negb (bigint_unsigned seq)) OutOfRange
      (inr (set_conversations (<[c := set_latestSeq seq row]> d.(conversations)) d, tt))
  end.

Definition message_in_range (m : message_row) : bool :=
  bigint_unsigned m.(m_senderId) && bigint_unsigned m.(m_receiverId) &&
  bigint_unsigned m.(m_conversationId) && bigint_unsigned m.(m_conversationSeq) &&
  smallint m.(m_type) && smallint m.(m_status).

Definition same_position (m m' : message_row) : bool :=
  (m.(m_conversationId) =? m'.(m_conversationId))%Z &&
  (m.(m_conversationSeq) =? m'.(m_conversationSeq))%Z.

Definition same_client (m m' : message_row) : bool :=
  match m.(m_clientMessageId) with
  | Some x => is_duplicate m.(m_senderId) x m'
  | None => false
  end.

(** INSERT INTO messages ...: the two unique keys are checked. *)
Definition insert_message (m : message_row) (id : Z) : sql unit := λ d,
  unless (negb (message_in_range m)) OutOfRange
  match d.(messages) !! id, head (select (λ _ m', same_position m m' || same_client m m') d.(messages)) with
  | None, None => inr (set_messages (<[id := m]> d.(messages)) d, tt)
  | _, _ => inl DuplicateEntry
  end.

Definition canonical_command (conversation message_type : Z) (content : string) : string :=
  pretty conversation +:+ ":" +:+ pretty message_type +:+ ":" +:+ content.

Definition command_hash (conversation message_type : Z) (content : string) : string :=
  pretty (std_hash (canonical_command conversation message_type content)).

(** The comparison of a stored message with the command that carries the same
    client id; a column that does not fit int64_t throws. *)
Definition same_command {W} (m : message_row) (conversation receiver message_type : Z)
    (content : string) : Eff W bool :=
  c ← field_i64 m.(m_conversationId);
  if negb (c =? conversation)%Z then mret false else
  r ← field_i64 m.(m_receiverId);
  mret ((r =? receiver)%Z && (m.(m_type) =? message_type)%Z &&
        bool_decide (m.(m_content) = content)).

(** ** Direct messages (mysql_store.cc:111) *)

Definition execute_accept_direct_text (sender_id receiver_id : Z)
    (client_message_id content send_date_time : string) (message_type : Z) :
    Eff server MessageAcceptResult :=
  local accept_init (
    lift start_transaction ;;
    try (
      friend_row ← lift (query (select_direct_conversation
                                  (Z.min sender_id receiver_id) (Z.max sender_id receiver_id)));
      match friend_row with
      | None =>
        lift rollback ;; set_local (set_error UserNotFriend) ;; get_local
      | Some c =>
        conversation ← field_i64 c;
        set_local (set_conversation conversation) ;;
        lift (query (insert_states_ignore
                       [(conversation, sender_id); (conversation, receiver_id)])) ;;
        sequence_row ← lift (query (select_latest_seq conversation));
        match sequence_row with
        | None =>
          lift rollback ;; set_local (set_error MysqlFailed) ;;
          set_local (set_diagnostic "conversation row missing after insert") ;; get_local
        | Some latest =>
          duplicate_row ← lift (query (select_duplicate sender_id client_message_id));
          match duplicate_row with
          | Some (id, m) =>
            same ← same_command m conversation receiver_id message_type content;
            if negb same then
              lift rollback ;; set_local (set_error IdempotencyConflict) ;; get_local
            else
              id ← field_i64 id; set_local (set_message id) ;;
              seq ← field_i64 m.(m_conversationSeq); set_local (set_seq seq) ;;
              set_local (set_duplicate true) ;; set_local (set_error Success) ;;
              lift commit ;; get_local
          | None =>
            latest ← field_i64 latest;
            let seq := i64 (latest + 1) in
            set_local (set_seq seq) ;;
            lift (query (update_latest_seq seq conversation)) ;;
            id ← lift (query_auto_increment (insert_message
                   (MkMessageRow sender_id receiver_id conversation seq (Some client_message_id)
                      (Some (command_hash conversation message_type content)) message_type
                      content (message_status WAIT) send_date_time "")));
            set_local (set_message (i64 id)) ;;
            lift commit ;;
            set_local (set_error Success) ;; get_local
          end
        end
      end
    ) with e =>
      lift abort ;; set_local (set_error MysqlFailed) ;;
      set_local (set_diagnostic (what e)) ;; get_local).

(** ** Group messages (mysql_store.cc:309) *)

(** SELECT gi.conversationId FROM groupInfo gi JOIN groupMembers gm ... *)
Definition select_group_conversation (group_id uid : Z) : sql (option Z) :=
  sql_read (λ d,
    g ← d.(groupInfo) !! group_id;
    _ ← d.(groupMembers) !! (group_id, uid);
    Some g.(g_conversationId)).

Definition is_ready_owned (owner : Z) (now : string) (f : file_row) : bool :=
  (f.(fo_ownerUid) =? owner)%Z && (f.(fo_state) =? 1)%Z && sql_gt f.(fo_expiresTime) now.

(** SELECT ... FROM fileObjects WHERE fileId = ? AND ownerUid = ? AND state = 1 AND expiresTime > ? *)
Definition select_ready_file (file_id : string) (owner : Z) (now : string) : sql (option file_row) :=
  sql_read (λ d,
    f ← d.(fileObjects) !! weight file_id;
    if is_ready_owned owner now f then Some f else None).

Definition select_members (group_id : Z) (P : Z → bool) : sql (list Z) :=
  sql_read (λ d,
    map (λ kv : (Z * Z) * string, kv.1.2)
      (select (λ k _, (k.1 =? group_id)%Z && P k.2) d.(groupMembers))).

Definition execute_accept_group_message (sender_id group_id : Z)
    (client_message_id content : string) (message_type : Z) (send_date_time : string)
    (require_ready_owned_file : bool) : Eff server GroupMessageAcceptResult :=
  local (MkGroupAccept accept_init group_id []) (
    lift start_transaction ;;
    try (
      group_row ← lift (query (select_group_conversation group_id sender_id));
      match group_row with
      | None =>
        lift rollback ;; set_local (with_base (set_error MessageOwnershipInvalid)) ;; get_local
      | Some c =>
        conversation ← field_i64 c;
        set_local (with_base (set_conversation conversation)) ;;
        missing ← (if require_ready_owned_file then
                     f ← lift (query (select_ready_file content sender_id send_date_time));
                     mret (bool_decide (f = None))
                   else mret false);
        if (missing : bool) then
          lift rollback ;; set_local (with_base (set_error NotFound)) ;; get_local
        else
        sequence_row ← lift (query (select_latest_seq conversation));
        match sequence_row with
        | None =>
          lift rollback ;; set_local (with_base (set_error MysqlFailed)) ;;
          set_local (with_base (set_diagnostic "group conversation row missing after insert")) ;;
          get_local
        | Some latest =>
          duplicate_row ← lift (query (select_duplicate sender_id client_message_id));
          conflict ←
            match duplicate_row with
            | Some (id, m) =>
              same ← same_command m conversation group_id message_type content;
              if negb same then mret true else
              id ← field_i64 id; set_local (with_base (set_message id)) ;;
              seq ← field_i64 m.(m_conversationSeq); set_local (with_base (set_seq seq)) ;;
              set_local (with_base (set_duplicate true)) ;; mret false
            | None =>
              latest ← field_i64 latest;
              let seq := i64 (latest + 1) in
              set_local (with_base (set_seq seq)) ;;
              lift (query (update_latest_seq seq conversation)) ;;
              id ← lift (query_auto_increment (insert_message
                     (MkMessageRow sender_id group_id conversation seq (Some client_message_id)
                        (Some (command_hash conversation message_type content)) message_type
                        content (message_status WAIT) send_date_time "")));
              set_local (with_base (set_message (i64 id))) ;; mret false
            end;
          if (conflict : bool) then
            lift rollback ;; set_local (with_base (set_error IdempotencyConflict)) ;; get_local
          else
          members ← lift (query (select_members group_id (λ uid, negb (uid =? sender_id)%Z)));
          forM members (λ uid, u ← field_i64 uid; set_local (push_recipient u)) ;;
          lift commit ;;
          set_local (with_base (set_error Success)) ;; get_local
        end
      end
    ) with e =>
      lift abort ;; set_local (with_base (set_error MysqlFailed)) ;;
      set_local (with_base (set_diagnostic (what e))) ;; get_local).

(** ** Friends (mysql_store.cc:17, 34, 58, 70, 84, 562, 587) *)

Definition execute_get_user_info (uid : Z) : Eff server (option db.UserInfo) :=
  row ← query (sql_read (λ d, d.(userInfo) !! uid));
  mret ((λ r, MkDbUserInfo (u64 uid) r.(uir_name) r.(uir_age) r.(uir_sex) r.(uir_headImageURL)) <$> row).

(** field<size_t>: a negative text does not parse. *)
Definition field_u64 {W} (z : Z) : Eff W Z :=
  if is_u64 z then mret z else throw (RuntimeError "invalid SQL integer").

Definition friend_links (uid : Z) (d : database) : list (Z * conversation_row * friend_row) :=
  omap (λ kc : Z * conversation_row,
    match d.(friends) !! kc.2.(cv_businessId) with
    | Some f =>
      if (kc.2.(cv_type) =? 1)%Z && ((f.(fr_uidA) =? uid)%Z || (f.(fr_uidB) =? uid)%Z)
      then Some (kc.1, kc.2, f) else None
    | None => None
    end) (map_to_list d.(conversations)).

Definition execute_get_friend_list (uid : Z) : Eff server (option (list Friend)) :=
  rows ← query (sql_read (friend_links uid));
  match rows with
  | [] => mret None
  | _ =>
    l ← mapM (λ r : Z * conversation_row * friend_row,
      let '(c, cv, f) := r in
      friendship ← field_u64 cv.(cv_businessId);
      conversation ← field_u64 c;
      requested ← field_u64 uid;
      peer ← field_u64 (if (f.(fr_uidA) =? uid)%Z then f.(fr_uidB) else f.(fr_uidA));
      mret (MkFriend friendship conversation requested peer f.(fr_createTime))) rows;
    mret (Some l)
  end.

(** INSERT INTO friendApplys VALUES (from, to, content, status, createTime) *)
Definition insert_apply (from to : Z) (content : string) (status : Z) (created : string) : sql unit := λ d,
  unless (negb (bigint_unsigned from && bigint_unsigned to && smallint status)) OutOfRange
  match d.(friendApplys) !! (from, to) with
  | Some _ => inl DuplicateEntry
  | None =>
    inr (set_friendApplys (<[(from, to) := MkFriendApplyRow content status created]> d.(friendApplys)) d, tt)
  end.

(** size_t members are bound as int64_t. *)
Definition execute_insert_friend_apply (a : db.FriendApply) : Eff server Z :=
  query (insert_apply (i64 a.(fa_from)) (i64 a.(fa_to)) a.(fa_content) a.(fa_status) a.(fa_createTime)) ;;
  query (insert_apply (i64 a.(fa_to)) (i64 a.(fa_from)) a.(fa_content) a.(fa_status) a.(fa_createTime)) ;;
  mret 0%Z.

(** UPDATE friendApplys SET status = ?, content = ?, createTime = ? WHERE fromUid = ? AND toUid = ? *)
Definition update_apply (from to : Z) (content : string) (status : Z) (created : string) : sql unit := λ d,
  match d.(friendApplys) !! (from, to) with
  | None => inr (d, tt)
  | Some _ =>
    unless (negb (smallint status)) OutOfRange
      (inr (set_friendApplys (<[(from, to) := MkFriendApplyRow content status created]> d.(friendApplys)) d, tt))
  end.

Definition execute_update_friend_apply_status (a : db.FriendApply) : Eff server Z :=
  query (update_apply (i64 a.(fa_from)) (i64 a.(fa_to)) a.(fa_content) a.(fa_status) a.(fa_createTime)) ;;
  query (update_apply (i64 a.(fa_to)) (i64 a.(fa_from)) a.(fa_content) a.(fa_status) a.(fa_createTime)) ;;
  mret 0%Z.

(** INSERT INTO friends (friendshipId, uidA, uidB, createTime) *)
Definition insert_friendship (id uid_a uid_b : Z) (created : string) : sql unit := λ d,
  unless (negb (bigint_unsigned id && bigint_unsigned uid_a && bigint_unsigned uid_b)) OutOfRange
  match d.(friends) !! id, head (select (λ _ f, is_friend_pair uid_a uid_b f) d.(friends)) with
  | None, None => inr (set_friends (<[id := MkFriendRow uid_a uid_b created]> d.(friends)) d, tt)
  | _, _ => inl DuplicateEntry
  end.

Definition same_business (type business : Z) (c : conversation_row) : bool :=
  (c.(cv_type) =? type)%Z && (c.(cv_businessId) =? business)%Z.

(** INSERT INTO conversations (conversationId, type, businessId, latestSeq, createTime) VALUES (?, type, ?, 0, ?) *)
Definition insert_conversation (c type business : Z) (created : string) : sql unit := λ d,
  unless (negb (bigint_unsigned c && bigint_unsigned business && smallint type)) OutOfRange
  match d.(conversations) !! c, head (select (λ _ r, same_business type business r) d.(conversations)) with
  | None, None =>
    inr (set_conversations (<[c := MkConversationRow type business 0 created]> d.(conversations)) d, tt)
  | _, _ => inl DuplicateEntry
  end.

Definition execute_insert_friend (f : Friend) : Eff server Z :=
  date_time ← getCurrentDateTime;
  let uid_a := i64 (Z.min f.(f_uidA) f.(f_uidB)) in
  let uid_b := i64 (Z.max f.(f_uidA) f.(f_uidB)) in
  let c := i64 f.(f_conversationId) in
  start_transaction ;;
  try (
    query (insert_friendship (i64 f.(f_friendshipId)) uid_a uid_b date_time) ;;
    query (insert_conversation c 1 (i64 f.(f_friendshipId)) date_time) ;;
    query (sql_seq (insert_state c uid_a 1) (insert_state c uid_b 1)) ;;
    commit ;;
    mret 0%Z
  ) with e => abort ;; throw e.

Definition execute_get_friend_apply_list (from : Z) : Eff server (option (list db.FriendApply)) :=
  rows ← query (sql_read (λ d,
           select (λ k a, (a.(far_status) =? 0)%Z && (k.1 =? from)%Z) d.(friendApplys)));
  match rows with
  | [] => mret None
  | _ =>
    l ← mapM (λ r : (Z * Z) * friend_apply_row,
      f ← field_u64 r.1.1;
      t ← field_u64 r.1.2;
      mret (MkDbFriendApply f t r.2.(far_status) r.2.(far_content) r.2.(far_createTime))) rows;
    mret (Some l)
  end.

Definition execute_delete_friend (uid_a uid_b : Z) : Eff server Z :=
  query (λ d, inr (set_friends
    (filter (λ kf, is_friend_pair (Z.min uid_a uid_b) (Z.max uid_a uid_b) kf.2 = false) d.(friends)) d, tt)) ;;
  mret 0%Z.

(** ** Files (mysql_store.cc:203, 232, 250, 283) *)

Definition execute_upsert_ready_file (file : FileObjectRecord) (created_time expires_time : string) :
    Eff server Z :=
  existing ← query (sql_read (λ d, fo_ownerUid <$> d.(fileObjects) !! weight file.(for_fileId)));
  taken ← match existing with
          | Some owner => o ← field_i64 owner; mret (negb (o =? file.(for_ownerUid))%Z)
          | None => mret false
          end;
  if (taken : bool) then mret 1%Z else
  query (λ d,
    unless (negb (bigint_unsigned file.(for_ownerUid) && bigint_unsigned file.(for_fileSize))) OutOfRange
    (let key := weight file.(for_fileId) in
     let row :=
       match d.(fileObjects) !! key with
       | Some old =>
         MkFileRow old.(fo_fileId) old.(fo_ownerUid) file.(for_fileName) file.(for_fileType)
           file.(for_fileSize) file.(for_sha256) 1 old.(fo_createdTime) expires_time
       | None =>
         MkFileRow file.(for_fileId) file.(for_ownerUid) file.(for_fileName) file.(for_fileType)
           file.(for_fileSize) file.(for_sha256) 1 created_time expires_time
       end in
     inr (set_fileObjects (<[key := row]> d.(fileObjects)) d, tt))) ;;
  mret 0%Z.

Definition execute_save_file_upload_progress (owner_uid : Z) (file_id : string) (next_offset : Z)
    (complete : bool) (update_time : string) : Eff server Z :=
  query (λ d,
    unless (negb (bigint_unsigned owner_uid && bigint_unsigned next_offset)) OutOfRange
    (let key := (owner_uid, weight file_id) in
     let id := from_option up_fileId file_id (d.(fileUploads) !! key) in
     inr (set_fileUploads
            (<[key := MkUploadRow id next_offset (if complete then 1 else 0) update_time]> d.(fileUploads)) d, tt))) ;;
  mret 0%Z.

(** The row of a file object as FileObjectRecord; the state column is selected but not read. *)
Definition file_record {W} (f : file_row) : Eff W FileObjectRecord :=
  owner ← field_i64 f.(fo_ownerUid);
  size ← field_i64 f.(fo_fileSize);
  mret (MkFileObject f.(fo_fileId) owner f.(fo_fileName) f.(fo_fileType) size f.(fo_sha256) false).

(** Whether some file message of a conversation the user takes part in refers
    to the file; in a group conversation only while the user is a member. *)
Definition group_membership (d : database) (c uid : Z) : bool :=
  existsb (λ kg : Z * group_row,
    (kg.2.(g_conversationId) =? c)%Z &&
    bool_decide (is_Some (d.(groupMembers) !! (kg.1, uid)))) (map_to_list d.(groupInfo)).

Definition message_grants (d : database) (uid : Z) (f : file_row) (m : message_row) : bool :=
  (m.(m_type) =? 5)%Z && sql_eq m.(m_content) f.(fo_fileId) &&
  bool_decide (is_Some (d.(conversationUserStates) !! (m.(m_conversationId), uid))) &&
  (negb match d.(conversations) !! m.(m_conversationId) with
        | Some c => (c.(cv_type) =? 2)%Z
        | None => false
        end || group_membership d m.(m_conversationId) uid).

Definition select_downloadable (file_id : string) (uid : Z) (now : string) : sql (option file_row) :=
  sql_read (λ d,
    f ← d.(fileObjects) !! weight file_id;
    if (f.(fo_state) =? 1)%Z && sql_gt f.(fo_expiresTime) now &&
       existsb (λ km : Z * message_row, message_grants d uid f km.2) (map_to_list d.(messages))
    then Some f else None).

Definition execute_find_downloadable_file (file_id : string) (uid : Z) :
    Eff server (option FileObjectRecord) :=
  now ← getCurrentDateTime;
  row ← query (select_downloadable file_id uid now);
  match row with
  | None => mret None
  | Some f => r ← file_record f; mret (Some r)
  end.

Definition execute_find_ready_file (file_id : string) (owner_uid : Z) :
    Eff server (option FileObjectRecord) :=
  now ← getCurrentDateTime;
  row ← query (select_ready_file file_id owner_uid now);
  match row with
  | None => mret None
  | Some f => r ← file_record f; mret (Some r)
  end.

(** ** Conversation pull (mysql_store.cc:403) *)

(** SELECT c.latestSeq, m.joinedSeq, c.latestSeq, c.type ... *)
Definition select_membership (c uid : Z) : sql (option (Z * Z * Z)) :=
  sql_read (λ d,
    conv ← d.(conversations) !! c;
    st ← d.(conversationUserStates) !! (c, uid);
    if negb (conv.(cv_type) =? 2)%Z || group_membership d c uid
    then Some (conv.(cv_latestSeq), st.(us_joinedSeq), conv.(cv_type)) else None).

Definition by_seq (x y : Z * message_row) : Prop :=
  (x.2.(m_conversationSeq) ≤ y.2.(m_conversationSeq))%Z.
#[global] Instance by_seq_dec : RelDecision by_seq := λ _ _, decide (_ ≤ _)%Z.

Definition visible (c after left : Z) (m : message_row) : bool :=
  (m.(m_conversationId) =? c)%Z && (after <? m.(m_conversationSeq))%Z && (m.(m_conversationSeq) <=? left)%Z.

(** The attachment columns: LEFT JOIN fileObjects f ON m.type = 5 AND f.fileId = m.content. *)
Definition attachment (d : database) (now : string) (m : message_row) : option FileAttachment :=
  f ← (if (m.(m_type) =? 5)%Z then d.(fileObjects) !! weight m.(m_content) else None);
  if bool_decide (f.(fo_fileId) = "") then None else
  Some (MkFileAttachment f.(fo_fileId) f.(fo_fileName) f.(fo_fileType) (i64 f.(fo_fileSize))
          f.(fo_sha256) (negb (f.(fo_state) =? 1)%Z || negb (sql_gt f.(fo_expiresTime) now))).

Definition select_page (now : string) (c after left limit : Z) :
    sql (list ((Z * message_row) * option FileAttachment)) :=
  sql_read (λ d,
    map (λ km, (km, attachment d now km.2))
      (take (Z.to_nat limit)
         (merge_sort by_seq (select (λ _ m, visible c after left m) d.(messages))))).

Definition message_record {W} (r : (Z * message_row) * option FileAttachment) :
    Eff W ConversationMessageRecord :=
  let '((id, m), file) := r in
  id ← field_i64 id;
  sender ← field_i64 m.(m_senderId);
  receiver ← field_i64 m.(m_receiverId);
  c ← field_i64 m.(m_conversationId);
  seq ← field_i64 m.(m_conversationSeq);
  mret (MkMessageRecord id sender receiver c seq (default "" m.(m_clientMessageId)) m.(m_type)
          m.(m_content) m.(m_status) m.(m_sendDateTime) m.(m_readDateTime) file).

(** The loop over the rows: the row after the last that fits only sets hasMore. *)
Fixpoint fill_page {W} (bounded : nat) (rows : list ((Z * message_row) * option FileAttachment))
    (sync : ConversationSyncResult) : Eff W ConversationSyncResult :=
  match rows with
  | [] => mret sync
  | r :: rows =>
    if bool_decide (bounded ≤ length sync.(sr_messages)) then
      mret (MkSync sync.(sr_error) sync.(sr_conversationType) sync.(sr_latestSeq) sync.(sr_nextSeq)
              true sync.(sr_messages))
    else
      m ← message_record r;
      fill_page bounded rows
        (MkSync sync.(sr_error) sync.(sr_conversationType) sync.(sr_latestSeq)
           m.(cmr_conversationSeq) sync.(sr_hasMore) (sync.(sr_messages) ++ [m]))
  end.

Definition bounded_count (pull_count : Z) : Z :=
  Z.max 1 (Z.min (if (0 <? pull_count)%Z then pull_count else 50) 100).

Definition execute_sync_conversation (uid conversation_id after_seq pull_count : Z) :
    Eff server ConversationSyncResult :=
  if (uid <=? 0)%Z || (conversation_id <=? 0)%Z || (after_seq <? 0)%Z then
    mret (MkSync JsonParser 0 0 0 false [])
  else
  let bounded := bounded_count pull_count in
  member_row ← query (select_membership conversation_id uid);
  match member_row with
  | None => mret (MkSync MessageOwnershipInvalid 0 0 0 false [])
  | Some (latest, joined, type) =>
    latest_seq ← field_i64 latest;
    joined_seq ← field_i64 joined;
    left_seq ← field_i64 latest;
    let effective_after := Z.max after_seq (joined_seq - 1) in
    now ← getCurrentDateTime;
    rows ← query (select_page now conversation_id effective_after left_seq (bounded + 1));
    sync ← fill_page (Z.to_nat bounded) rows (MkSync MysqlFailed type latest_seq 0 false []);
    let next := match sync.(sr_messages) with [] => effective_after | _ => sync.(sr_nextSeq) end in
    mret (MkSync Success sync.(sr_conversationType) sync.(sr_latestSeq) next
            sync.(sr_hasMore) sync.(sr_messages))
  end.

(** ** Acknowledgement (mysql_store.cc:507) *)

(** SELECT c.type, msg.receiverId, msg.senderId, msg.status ... *)
Definition select_owner (uid : Z) (device_id : string) (message_id c seq : Z) :
    sql (option (Z * Z * Z * Z)) :=
  sql_read (λ d,
    m ← d.(messages) !! message_id;
    conv ← d.(conversations) !! c;
    _ ← d.(conversationUserStates) !! (c, uid);
    dev ← d.(devices) !! weight device_id;
    if (m.(m_conversationId) =? c)%Z && (m.(m_conversationSeq) =? seq)%Z && (dev.(dv_uid) =? uid)%Z
    then Some (conv.(cv_type), m.(m_receiverId), m.(m_senderId), m.(m_status)) else None).

Definition advance_message (status : Z) (read_date_time : string) (m : message_row) : message_row :=
  MkMessageRow m.(m_senderId) m.(m_receiverId) m.(m_conversationId) m.(m_conversationSeq)
    m.(m_clientMessageId) m.(m_commandHash) m.(m_type) m.(m_content)
    (Z.max m.(m_status) status) m.(m_sendDateTime)
    (if (status =? 3)%Z && ((m.(m_status) <? 3)%Z || sql_eq m.(m_readDateTime) "")
     then read_date_time else m.(m_readDateTime)).

(** UPDATE messages SET readDateTime = CASE ... END, status = GREATEST(status, ?) WHERE messageId = ? *)
Definition update_message_status (status : Z) (read_date_time : string) (id : Z) : sql unit := λ d,
  inr (set_messages (alter (advance_message status read_date_time) id d.(messages)) d, tt).

Definition advance_state (seq status : Z) (s : user_state_row) : user_state_row :=
  MkUserStateRow s.(us_joinedSeq) s.(us_leftSeq) (Z.max s.(us_deliveredSeq) seq)
    (if (status =? 3)%Z then Z.max s.(us_readSeq) seq else s.(us_readSeq)).

(** UPDATE conversationUserStates SET deliveredSeq = GREATEST(...), readSeq = CASE ... END *)
Definition update_user_state (seq status uid c : Z) : sql unit := λ d,
  inr (set_conversationUserStates
         (alter (advance_state seq status) (c, uid) d.(conversationUserStates)) d, tt).

(** INSERT INTO conversationDeviceStates ... ON DUPLICATE KEY UPDATE persistedSeq = GREATEST(...) *)
Definition upsert_device_state (c : Z) (device_id : string) (seq : Z) : sql unit := λ d,
  unless (negb (bigint_unsigned c && bigint_unsigned seq)) OutOfRange
  (let key := (c, weight device_id) in
   let value := from_option (Z.max seq) seq (d.(conversationDeviceStates) !! key) in
   inr (set_conversationDeviceStates (<[key := value]> d.(conversationDeviceStates)) d, tt)).

Definition execute_acknowledge (message_id uid : Z) (device_id : string)
    (conversation_id conversation_seq status : Z) (read_date_time : string) :
    Eff server ConversationAckResult :=
  if (message_id <=? 0)%Z || (uid <=? 0)%Z || bool_decide (device_id = "") ||
     (conversation_id <=? 0)%Z || (conversation_seq <=? 0)%Z then
    mret (MkAck 0 0 false false)
  else
  start_transaction ;;
  try (
    owner_row ← query (select_owner uid device_id message_id conversation_id conversation_seq);
    match owner_row with
    | None => rollback ;; mret (MkAck 0 0 false false)
    | Some (type, receiver, sender, old_status) =>
      direct_recipient ←
        (if (type =? 1)%Z then r ← field_i64 receiver; mret (r =? uid)%Z else mret false);
      sender_uid ← field_i64 sender;
      let changed := direct_recipient && (status =? message_status READ)%Z &&
                     (old_status <? message_status READ)%Z in
      (if (direct_recipient : bool)
       then query (update_message_status status read_date_time message_id) else mret tt) ;;
      query (update_user_state conversation_seq status uid conversation_id) ;;
      query (upsert_device_state conversation_id device_id conversation_seq) ;;
      commit ;;
      mret (MkAck 1 sender_uid (type =? 1)%Z changed)
    end
  ) with e => abort ;; throw e.

(** ** Groups (mysql_store.cc:596, 630, 677, 743, 813) *)

(** The catch block shared by the group operations. *)
Definition group_catch (e : exn) : Eff (server * GroupOperationResult) GroupOperationResult :=
  lift abort ;; set_local (set_go_diagnostic (what e)) ;; get_local.

(** An early return: ROLLBACK, the error, the result. *)
Definition group_reject (e : Z) : Eff (server * GroupOperationResult) GroupOperationResult :=
  lift rollback ;; set_local (set_go_error e) ;; get_local.

Definition insert_group (g : GroupManager) : sql unit := λ d,
  unless (negb (bigint_unsigned g.(gm_groupId) && bigint_unsigned g.(gm_masterUid) &&
                bigint_unsigned g.(gm_conversationId))) OutOfRange
  match d.(groupInfo) !! g.(gm_groupId),
        head (select (λ _ r, (r.(g_conversationId) =? g.(gm_conversationId))%Z) d.(groupInfo)) with
  | None, None =>
    inr (set_groupInfo
           (<[g.(gm_groupId) := MkGroupRow g.(gm_masterUid) g.(gm_name) g.(gm_conversationId)
                                  g.(gm_createTime)]> d.(groupInfo)) d, tt)
  | _, _ => inl DuplicateEntry
  end.

Definition insert_member (group_id uid : Z) (joined : string) : sql unit := λ d,
  unless (negb (bigint_unsigned group_id && bigint_unsigned uid)) OutOfRange
  match d.(groupMembers) !! (group_id, uid) with
  | Some _ => inl DuplicateEntry
  | None => inr (set_groupMembers (<[(group_id, uid) := joined]> d.(groupMembers)) d, tt)
  end.

Definition execute_create_group (g : GroupManager) : Eff server GroupOperationResult :=
  local (MkGroupOperation MysqlFailed "" g.(gm_groupId) g.(gm_conversationId) g.(gm_masterUid)
           g.(gm_masterUid) 0 g.(gm_name) "" [] [] []) (
    lift start_transaction ;;
    try (
      lift (query (insert_group g)) ;;
      lift (query (insert_conversation g.(gm_conversationId) 2 g.(gm_groupId) g.(gm_createTime))) ;;
      lift (query (insert_member g.(gm_groupId) g.(gm_masterUid) g.(gm_createTime))) ;;
      lift (query (insert_state g.(gm_conversationId) g.(gm_masterUid) 1)) ;;
      lift commit ;;
      set_local (set_go_error Success) ;; get_local
    ) with e => group_catch e).

Definition select_group (group_id : Z) : sql (option group_row) :=
  sql_read (λ d, d.(groupInfo) !! group_id).

Definition select_member (group_id uid : Z) : sql (option string) :=
  sql_read (λ d, d.(groupMembers) !! (group_id, uid)).

Definition select_apply (group_id uid : Z) : sql (option group_apply_row) :=
  sql_read (λ d, d.(groupApplys) !! (group_id, uid)).

(** INSERT IGNORE INTO groupApplys ...; the result is affected_rows. *)
Definition insert_group_apply_ignore (group_id uid : Z) (message now : string) : sql Z := λ d,
  let key := (clamp_unsigned group_id, clamp_unsigned uid) in
  match d.(groupApplys) !! key with
  | Some _ => inr (d, 0%Z)
  | None => inr (set_groupApplys (<[key := MkGroupApplyRow message now]> d.(groupApplys)) d, 1%Z)
  end.

Definition execute_request_group_join (group_id uid : Z) (message now : string) :
    Eff server GroupOperationResult :=
  local (MkGroupOperation MysqlFailed "" group_id 0 0 uid uid "" "" [] [] []) (
    lift start_transaction ;;
    try (
      group ← lift (query (select_group group_id));
      match group with
      | None => group_reject GroupNotExists
      | Some g =>
        master ← field_i64 g.(g_masterUid);
        set_local (set_go_group master 0 g.(g_name)) ;;
        member ← lift (query (select_member group_id uid));
        if bool_decide (is_Some member) then group_reject GroupAlreadyExists else
        affected ← lift (query (insert_group_apply_ignore group_id uid message now));
        (if (0 <? affected)%Z then set_local (push_go_recipient master) else mret tt) ;;
        lift commit ;;
        set_local (set_go_error Success) ;; get_local
      end
    ) with e => group_catch e).

Definition delete_apply (group_id uid : Z) : sql unit := λ d,
  inr (set_groupApplys (delete (group_id, uid) d.(groupApplys)) d, tt).

(** INSERT INTO conversationUserStates ... SELECT conversationId, ?, latestSeq + 1 FROM conversations ... *)
Definition insert_state_at_latest (uid c : Z) : sql unit := λ d,
  match d.(conversations) !! c with
  | None => inr (d, tt)
  | Some row => insert_state c uid (row.(cv_latestSeq) + 1) d
  end.

Definition execute_reply_group_join (group_id actor_uid requestor_uid : Z) (accept : bool)
    (now : string) : Eff server GroupOperationResult :=
  local (MkGroupOperation MysqlFailed "" group_id 0 0 requestor_uid actor_uid "" "" [] [] []) (
    lift start_transaction ;;
    try (
      group ← lift (query (select_group group_id));
      match group with
      | None => group_reject GroupNotExists
      | Some g =>
        master ← field_i64 g.(g_masterUid);
        conversation ← field_i64 g.(g_conversationId);
        set_local (set_go_group master conversation g.(g_name)) ;;
        if negb (master =? actor_uid)%Z then group_reject MessageOwnershipInvalid else
        apply ← lift (query (select_apply group_id requestor_uid));
        if bool_decide (apply = None) then group_reject NotFound else
        lift (query (delete_apply group_id requestor_uid)) ;;
        (if accept then
           lift (query (insert_member group_id requestor_uid now)) ;;
           lift (query (insert_state_at_latest requestor_uid conversation)) ;;
           set_local (set_go_join_time now) ;;
           members ← lift (query (select_members group_id (λ _, true)));
           forM members (λ uid, u ← field_i64 uid; set_local (push_go_recipient u))
         else
           set_local (push_go_recipient requestor_uid)) ;;
        lift commit ;;
        set_local (set_go_error Success) ;; get_local
      end
    ) with e => group_catch e).

Definition delete_states (c : Z) : sql unit := λ d,
  inr (set_conversationUserStates (filter (λ ks, ks.1.1 ≠ c) d.(conversationUserStates)) d, tt).
Definition delete_applies (group_id : Z) : sql unit := λ d,
  inr (set_groupApplys (filter (λ ka, ka.1.1 ≠ group_id) d.(groupApplys)) d, tt).
Definition delete_members (group_id : Z) : sql unit := λ d,
  inr (set_groupMembers (filter (λ km, km.1.1 ≠ group_id) d.(groupMembers)) d, tt).
Definition delete_group (group_id : Z) : sql unit := λ d,
  inr (set_groupInfo (delete group_id d.(groupInfo)) d, tt).
Definition delete_state (c uid : Z) : sql unit := λ d,
  inr (set_conversationUserStates (delete (c, uid) d.(conversationUserStates)) d, tt).
Definition delete_member (group_id uid : Z) : sql unit := λ d,
  inr (set_groupMembers (delete (group_id, uid) d.(groupMembers)) d, tt).

Definition execute_remove_group_member (group_id actor_uid target_uid : Z)
    (dissolve_if_master : bool) : Eff server GroupOperationResult :=
  local (MkGroupOperation MysqlFailed "" group_id 0 0 target_uid actor_uid "" "" [] [] []) (
    lift start_transaction ;;
    try (
      group ← lift (query (select_group group_id));
      match group with
      | None => group_reject GroupNotExists
      | Some g =>
        master ← field_i64 g.(g_masterUid);
        conversation ← field_i64 g.(g_conversationId);
        set_local (set_go_group master conversation g.(g_name)) ;;
        if negb (actor_uid =? master)%Z && negb (actor_uid =? target_uid)%Z
        then group_reject MessageOwnershipInvalid else
        if negb (actor_uid =? master)%Z && negb (target_uid =? actor_uid)%Z
        then group_reject MessageOwnershipInvalid else
        member ← lift (query (select_member group_id target_uid));
        if bool_decide (member = None) then group_reject NotFound else
        members ← lift (query (select_members group_id (λ _, true)));
        forM members (λ uid, u ← field_i64 uid; set_local (push_go_recipient u)) ;;
        (if (target_uid =? master)%Z && dissolve_if_master then
           lift (query (delete_states conversation)) ;;
           lift (query (delete_applies group_id)) ;;
           lift (query (delete_members group_id)) ;;
           lift (query (delete_group group_id))
         else
           lift (query (delete_state conversation target_uid)) ;;
           lift (query (delete_member group_id target_uid))) ;;
        lift commit ;;
        set_local (set_go_error Success) ;; get_local
      end
    ) with e => group_catch e).

(** ORDER BY a time column, then a uid column. *)
Definition by_time_uid {A} (time : A → string) (uid : A → Z) (x y : A) : Prop :=
  String.compare (weight (time x)) (weight (time y)) = Lt ∨
  (String.compare (weight (time x)) (weight (time y)) = Eq ∧ (uid x ≤ uid y)%Z).
#[global] Instance by_time_uid_dec {A} (time : A → string) (uid : A → Z) :
  RelDecision (by_time_uid time uid).
Proof. intros x y. unfold by_time_uid. apply _. Defined.

Definition select_member_list (group_id : Z) : sql (list (Z * string * string)) :=
  sql_read (λ d,
    merge_sort (by_time_uid snd (λ r, r.1.1))
      (map (λ km : (Z * Z) * string,
              (km.1.2, from_option uir_name "" (d.(userInfo) !! km.1.2), km.2))
         (select (λ k _, (k.1 =? group_id)%Z) d.(groupMembers)))).

Definition select_apply_list (group_id : Z) : sql (list (Z * string * string)) :=
  sql_read (λ d,
    merge_sort (by_time_uid snd (λ r, r.1.1))
      (map (λ ka : (Z * Z) * group_apply_row, (ka.1.2, ka.2.(ga_message), ka.2.(ga_createTime)))
         (select (λ k _, (k.1 =? group_id)%Z) d.(groupApplys)))).

Definition execute_pull_group (group_id uid : Z) : Eff server GroupOperationResult :=
  local (MkGroupOperation MysqlFailed "" group_id 0 0 0 uid "" "" [] [] []) (
    try (
      group ← lift (query (select_group group_id));
      match group with
      | None => set_local (set_go_error GroupNotExists) ;; get_local
      | Some g =>
        master ← field_i64 g.(g_masterUid);
        conversation ← field_i64 g.(g_conversationId);
        set_local (set_go_group master conversation g.(g_name)) ;;
        member ← lift (query (select_member group_id uid));
        if bool_decide (member = None) then
          set_local (set_go_error MessageOwnershipInvalid) ;; get_local
        else
        rows ← lift (query (select_member_list group_id));
        forM rows (λ r : Z * string * string,
          u ← field_i64 r.1.1; set_local (push_go_member (MkDbGroupMember group_id u r.2 r.1.2))) ;;
        (if (uid =? master)%Z then
           rows ← lift (query (select_apply_list group_id));
           forM rows (λ r : Z * string * string,
             u ← field_i64 r.1.1; set_local (push_go_apply (MkDbGroupApply u group_id r.1.2 r.2)))
         else mret tt) ;;
        set_local (set_go_error Success) ;; get_local
      end
    ) with e => set_local (set_go_diagnostic (what e)) ;; get_local).

(** ** User information (mysql_store.cc:860) *)

Definition update_info (uid : Z) (ok : bool) (f : user_info_row → user_info_row) : sql unit := λ d,
  match d.(userInfo) !! uid with
  | None => inr (d, tt)
  | Some row => unless (negb ok) OutOfRange (inr (set_userInfo (<[uid := f row]> d.(userInfo)) d, tt))
  end.

Definition execute_update_user_info_name (uid : Z) (name : string) : Eff server Z :=
  query (update_info uid true (λ r, MkUserInfoRow name r.(uir_age) r.(uir_sex) r.(uir_headImageURL))) ;;
  mret 0%Z.
Definition execute_update_user_info_age (uid age : Z) : Eff server Z :=
  query (update_info uid (smallint age) (λ r, MkUserInfoRow r.(uir_name) age r.(uir_sex) r.(uir_headImageURL))) ;;
  mret 0%Z.
Definition execute_update_user_info_sex (uid : Z) (sex : string) : Eff server Z :=
  query (update_info uid true (λ r, MkUserInfoRow r.(uir_name) r.(uir_age) sex r.(uir_headImageURL))) ;;
  mret 0%Z.
Definition execute_update_user_info_head_image_url (uid : Z) (url : string) : Eff server Z :=
  query (update_info uid true (λ r, MkUserInfoRow r.(uir_name) r.(uir_age) r.(uir_sex) url)) ;;
  mret 0%Z.

(** ** Dispatch over the overloads *)

Definition execute {R} (op : mysql_operation R) : Eff server R :=
  match op in mysql_operation R return Eff server R with
  | get_user_info uid => execute_get_user_info uid
  | get_friend_list uid => execute_get_friend_list uid
  | insert_friend_apply a => execute_insert_friend_apply a
  | update_friend_apply_status a => execute_update_friend_apply_status a
  | insert_friend f => execute_insert_friend f
  | accept_direct_text s r c m t ty => execute_accept_direct_text s r c m t ty
  | upsert_ready_file f c e => execute_upsert_ready_file f c e
  | save_file_upload_progress o f n c u => execute_save_file_upload_progress o f n c u
  | find_downloadable_file f u => execute_find_downloadable_file f u
  | find_ready_file f o => execute_find_ready_file f o
  | accept_group_message s g c m ty t b => execute_accept_group_message s g c m ty t b
  | sync_conversation u c a p => execute_sync_conversation u c a p
  | acknowledge_conversation_message m u d c q s t => execute_acknowledge m u d c q s t
  | get_friend_apply_list f => execute_get_friend_apply_list f
  | delete_friend a b => execute_delete_friend a b
  | create_group g => execute_create_group g
  | request_group_join g u m n => execute_request_group_join g u m n
  | reply_group_join g a r b n => execute_reply_group_join g a r b n
  | remove_group_member g a t b => execute_remove_group_member g a t b
  | pull_group g u => execute_pull_group g u
  | update_user_info_name u n => execute_update_user_info_name u n
  | update_user_info_age u a => execute_update_user_info_age u a
  | update_user_info_sex u x => execute_update_user_info_sex u x
  | update_user_info_head_image_url u h => execute_update_user_info_head_image_url u h
  end.

(** ** driver::execute of a mysql operation (message/io/driver.hh:50)

    The slot makes the connection exclusive for the whole operation; after any
    throw the connection is dropped, which rolls an open transaction back. *)
Definition driver_execute {R} (op : mysql_operation R) : Eff server R :=
  s ← get;
  (if connected s then mret tt else connect_mysql) ;;
  try execute op with e => abort ;; throw e.

End store.
