(* ===== verification/Atomicity.v ===== *)
(** * Transactions are atomic under every fault

    Two runs of the same code are compared: one on the server as it is, one on
    the server with no fault ahead ([quiet]). A body inside a transaction either
    behaves as the quiet run or throws with the committed database untouched;
    a whole operation commits everything or nothing. The classes are proved
    compositionally, so that an operation's atomicity follows from its code. *)

From S2P Require Import Prelude Codec Schema Records MysqlStore.
Import db.

(** ** Worlds that contain a server *)

Class HasServer (W : Type) := {
  srv : W → server;
  put_srv : server → W → W;
  srv_put s w : srv (put_srv s w) = s;
  put_srv_id w : put_srv (srv w) w = w;
  put_put s t w : put_srv s (put_srv t w) = put_srv s w
}.

#[global] Program Instance server_has_server : HasServer server :=
  {| srv := λ s, s; put_srv := λ s _, s |}.
Solve All Obligations with done.

#[global] Program Instance local_has_server {L} : HasServer (server * L) :=
  {| srv := fst; put_srv := λ s w, (s, w.2) |}.
Solve All Obligations with by intros; try match goal with w : _ * _ |- _ => destruct w end.

Definition quiet (s : server) : server := set_faults [] s.
Definition quiet_world `{HasServer W} (w : W) : W := put_srv (quiet (srv w)) w.
Arguments quiet_world : simpl never.

Lemma quiet_quiet s : quiet (quiet s) = quiet s.
Proof. by destruct s. Qed.

Lemma quiet_world_quiet `{HasServer W} (w : W) : quiet_world (quiet_world w) = quiet_world w.
Proof. unfold quiet_world. by rewrite srv_put, put_put, quiet_quiet. Qed.

(** The server is inside a transaction over the committed database [c]. *)
Definition in_txn `{HasServer W} (c : database) (w : W) : Prop :=
  committed (srv w) = c ∧ is_Some (working (srv w)).

Lemma in_txn_quiet `{HasServer W} c (w : W) : in_txn c w → in_txn c (quiet_world w).
Proof. unfold in_txn, quiet_world. rewrite srv_put. by destruct (srv w). Qed.

Definition throws {A} (r : outcome A) : Prop := ∃ e, r = Throw e.

(** A step inside a transaction. *)
Class TxnBody `{HasServer W} {A} (m : Eff W A) : Prop := txn_body : ∀ c w, in_txn c w →
  in_txn c (m w).2 ∧ (auto_increment (srv w) ≤ auto_increment (srv (m w).2))%Z ∧
  ((m (quiet_world w)).1 = (m w).1 ∧ (m (quiet_world w)).2 = quiet_world (m w).2 ∨ throws (m w).1).

(** A tail of a transaction that ends with COMMIT or ROLLBACK: a throw leaves
    the old database, or the one the quiet run commits. *)
Class TxnMain `{HasServer W} {A} (m : Eff W A) : Prop := txn_main : ∀ c w, in_txn c w →
  (auto_increment (srv w) ≤ auto_increment (srv (m w).2))%Z ∧
  (((m (quiet_world w)).1 = (m w).1 ∧ (m (quiet_world w)).2 = quiet_world (m w).2 ∧
     (throws (m w).1 → committed (srv (m w).2) = c) ∧
     (¬ throws (m w).1 → working (srv (m w).2) = None))
  ∨ (throws (m w).1 ∧
     (committed (srv (m w).2) = c ∨
      committed (srv (m w).2) = committed (srv (m (quiet_world w)).2) ∧
      auto_increment (srv (m w).2) = auto_increment (srv (m (quiet_world w)).2) ∧
      ¬ throws (m (quiet_world w)).1))).

(** COMMIT or ROLLBACK. *)
Class Finisher `{HasServer W} {A} (m : Eff W A) : Prop := finisher : ∀ c w, in_txn c w →
  auto_increment (srv (m w).2) = auto_increment (srv w) ∧
  auto_increment (srv (m (quiet_world w)).2) = auto_increment (srv w) ∧
  ¬ throws (m (quiet_world w)).1 ∧
  ((m (quiet_world w)).1 = (m w).1 ∧ (m (quiet_world w)).2 = quiet_world (m w).2 ∧
     working (srv (m w).2) = None
   ∨ throws (m w).1 ∧
     (committed (srv (m w).2) = c ∨
      committed (srv (m w).2) = committed (srv (m (quiet_world w)).2))).

(** Code that touches neither the server nor throws. *)
Class Quietly `{HasServer W} {A} (m : Eff W A) : Prop := quietly : ∀ w,
  srv (m w).2 = srv w ∧ ¬ throws (m w).1 ∧
  (m (quiet_world w)).1 = (m w).1 ∧ (m (quiet_world w)).2 = quiet_world (m w).2.

Lemma not_throws_Ok {A} (a : A) : ¬ throws (Ok a).
Proof. by intros [e ?]. Qed.
Lemma throws_Throw {A} e : throws (@Throw A e).
Proof. by exists e. Qed.
#[export] Hint Resolve not_throws_Ok throws_Throw in_txn_quiet : imm.

Section rules.
Context `{HasServer W}.

#[global] Instance txn_ret {A} (a : A) : TxnBody (mret a : Eff W A).
Proof. intros c w Hw. split_and!; [done|done|left; done]. Qed.

#[global] Instance txn_throw {A} e : TxnBody (throw e : Eff W A).
Proof. intros c w Hw. split_and!; [done|done|left; done]. Qed.

#[global] Instance txn_bind {A B} (m : Eff W A) (k : A → Eff W B) :
  TxnBody m → (∀ a, TxnBody (k a)) → TxnBody (m ≫= k).
Proof.
  intros Hm Hk c w Hw. rewrite !bind_eq.
  destruct (Hm c w Hw) as (Hin & Hle & [[E1 E2]|[e E]]).
  - rewrite E1, E2. destruct (m w).1 as [a|e]; simpl.
    + destruct (Hk a c (m w).2 Hin) as (Hin' & Hle' & Hor). split_and!; [done|lia|done].
    + split_and!; auto.
  - rewrite E. simpl. split_and!; [done|done|]. right. eauto with imm.
Qed.

#[global] Instance txn_if {A} (b : bool) (m1 m2 : Eff W A) :
  TxnBody m1 → TxnBody m2 → TxnBody (if b then m1 else m2).
Proof. by destruct b. Qed.

#[global] Instance txn_option {A B} (o : option A) (m1 : A → Eff W B) (m2 : Eff W B) :
  (∀ a, TxnBody (m1 a)) → TxnBody m2 →
  TxnBody (match o with Some a => m1 a | None => m2 end).
Proof. destruct o; auto. Qed.

#[global] Instance txn_prod {A B C} (p : A * B) (m : A → B → Eff W C) :
  (∀ a b, TxnBody (m a b)) → TxnBody (match p with (a, b) => m a b end).
Proof. destruct p; auto. Qed.

#[global] Instance txn_forM {A} (l : list A) (f : A → Eff W unit) :
  (∀ a, TxnBody (f a)) → TxnBody (forM l f).
Proof. intros Hf. induction l; simpl; apply _. Qed.

#[global] Instance txn_field_i64 z : TxnBody (field_i64 z : Eff W Z).
Proof. unfold field_i64. apply _. Qed.

Lemma main_bind {A B} (m : Eff W A) (k : A → Eff W B) :
  TxnBody m → (∀ a, TxnMain (k a)) → TxnMain (m ≫= k).
Proof.
  intros Hm Hk c w Hw. rewrite !bind_eq.
  destruct (Hm c w Hw) as (Hin & Hle & [[E1 E2]|[e E]]).
  - rewrite E1, E2. destruct (m w).1 as [a|e]; simpl.
    + destruct (Hk a c (m w).2 Hin) as (Hle' & Hor). split; [lia|done].
    + split; [done|]. left. destruct Hin as [Hc _]. split_and!; auto. intros []. eauto with imm.
  - rewrite E. simpl. split; [done|]. right. destruct Hin. eauto with imm.
Qed.

Lemma main_finish {A B} (m : Eff W A) (k : A → Eff W B) :
  Finisher m → (∀ a, Quietly (k a)) → TxnMain (m ≫= k).
Proof.
  intros Hm Hk c w Hw. rewrite !bind_eq.
  destruct (Hm c w Hw) as (Ha & Ha0 & Hn0 & [(E1 & E2 & E3)|[[e E] Hc]]).
  - rewrite E1, E2. rewrite E1 in Hn0. destruct (m w).1 as [a|e]; simpl;
      [|by destruct Hn0; eauto with imm].
    destruct (Hk a (m w).2) as (F1 & F2 & F3 & F4). split; [rewrite F1; lia|].
    left. split_and!; [done|done|done|]. by rewrite F1.
  - rewrite E. simpl. split; [lia|]. right. split; [eauto with imm|].
    destruct Hc as [?|Hc]; [by left|]. right.
    destruct (m (quiet_world w)).1 as [a|e0]; simpl; [|by destruct Hn0; eauto with imm].
    destruct (Hk a (m (quiet_world w)).2) as (F1 & F2 & _). rewrite F1. split_and!; congruence.
Qed.

Lemma main_if {A} (b : bool) (m1 m2 : Eff W A) :
  TxnMain m1 → TxnMain m2 → TxnMain (if b then m1 else m2).
Proof. by destruct b. Qed.

Lemma main_option {A B} (o : option A) (m1 : A → Eff W B) (m2 : Eff W B) :
  (∀ a, TxnMain (m1 a)) → TxnMain m2 →
  TxnMain (match o with Some a => m1 a | None => m2 end).
Proof. destruct o; auto. Qed.

#[global] Instance quietly_ret {A} (a : A) : Quietly (mret a : Eff W A).
Proof. intros w. split_and!; [done|apply not_throws_Ok|done|done]. Qed.

#[global] Instance quietly_bind {A B} (m : Eff W A) (k : A → Eff W B) :
  Quietly m → (∀ a, Quietly (k a)) → Quietly (m ≫= k).
Proof.
  intros Hm Hk w. rewrite !bind_eq. destruct (Hm w) as (E1 & E2 & E3 & E4).
  rewrite E3, E4. destruct (m w).1 as [a|e]; [|by destruct E2; eauto with imm].
  simpl. destruct (Hk a (m w).2) as (F1 & F2 & F3 & F4). split_and!; congruence.
Qed.

End rules.

(** ** Rules for the server's statements *)

Section server_rules.
Context `{!MysqlServer}.

Lemma set_current_txn c d s : in_txn c s → in_txn c (set_current d s).
Proof. destruct s as [c' [w|] ?]; intros [? [? ?]]; simplify_eq/=; split; done. Qed.

Lemma set_current_auto d s : auto_increment (set_current d s) = auto_increment s.
Proof. by destruct s as [c [w|] ?]. Qed.

Lemma set_current_quiet d s : set_current d (quiet s) = quiet (set_current d s).
Proof. by destruct s as [c [w|] ?]. Qed.

(** A statement that, run without fault, stays in the transaction. *)
Lemma txn_attempt {A} (run : Eff server A) :
  (∀ c s, in_txn c s → in_txn c (run s).2) →
  (∀ s, auto_increment s ≤ auto_increment (run s).2)%Z →
  (∀ s, (run (quiet s)).1 = (run s).1 ∧ (run (quiet s)).2 = quiet (run s).2) →
  TxnBody (attempt run).
Proof.
  intros Hin Hauto Hq c s Hs. unfold attempt, quiet_world. simpl.
  set (s1 := set_faults (tail (faults s)) s).
  assert (in_txn c s1) as Hs1 by (destruct s; exact Hs).
  assert (attempt run (quiet s) = run (quiet s1)) as Eq by (by destruct s).
  assert (next_fault s = (Ok (default NoFault (head (faults s))), s1)) as En by done.
  unfold attempt in Eq. rewrite Eq, bind_eq, En. simpl.
  destruct (Hq s1) as [E1 E2]. rewrite E1, E2.
  destruct (default NoFault (head (faults s))) as [|x|x]; simpl.
  - split_and!; [by apply Hin|exact (Hauto s1)|by left].
  - split_and!; [done|done|]. right. eauto with imm.
  - rewrite bind_eq. pose proof (Hin c s1 Hs1) as Hx. pose proof (Hauto s1) as Hy.
    destruct (run s1) as [[a|e] s2] eqn:Er; simpl in *;
      (split_and!; [done|done|right; eauto with imm]).
Qed.

#[global] Instance txn_query {A} (q : sql A) : TxnBody (query q).
Proof.
  apply txn_attempt.
  - intros c s Hs. destruct (q (current s)) as [e|[d a]]; [done|]. by apply set_current_txn.
  - intros s. destruct (q (current s)) as [e|[d a]]; simpl; [done|]. by rewrite set_current_auto.
  - intros s. assert (current (quiet s) = current s) as -> by (by destruct s).
    destruct (q (current s)) as [e|[d a]]; [done|]. split; [done|]. apply set_current_quiet.
Qed.

#[global] Instance txn_query_auto_increment (q : Z → sql unit) : TxnBody (query_auto_increment q).
Proof.
  apply txn_attempt.
  - intros c s Hs. simpl. assert (in_txn c (bump_auto_increment s)) by (by destruct s).
    destruct (q _ _) as [e|[d a]]; [done|]. by apply set_current_txn.
  - intros s. simpl. destruct (q _ _) as [e|[d a]]; simpl; rewrite ?set_current_auto; simpl; lia.
  - intros s. simpl.
    change (auto_increment (quiet s)) with (auto_increment s).
    change (bump_auto_increment (quiet s)) with (quiet (bump_auto_increment s)).
    change (current (quiet (bump_auto_increment s))) with (current (bump_auto_increment s)).
    destruct (q _ _) as [e|[d a]]; [done|]. split; [done|]. apply set_current_quiet.
Qed.

#[global] Instance txn_clock : TxnBody getCurrentDateTime.
Proof. intros c s Hs. split_and!; [by destruct s|by destruct s|left; by destruct s]. Qed.

End server_rules.

(** ** Rules for locals *)

Section local_rules.
Context {L : Type}.
Abbreviation W := (server * L)%type.

#[global] Instance txn_lift {A} (m : Eff server A) : TxnBody m → TxnBody (W := W) (lift m).
Proof.
  intros Hm c [s l] Hw. destruct (Hm c s Hw) as (Hin & Hle & Hor).
  unfold lift, quiet_world in *; simpl in *.
  destruct (m s) as [r s1], (m (quiet s)) as [r0 s0]; simpl in *.
  split_and!; [done|done|]. destruct Hor as [[-> ->]|?]; [left|right]; done.
Qed.

#[global] Instance txn_set_local (f : L → L) : TxnBody (W := W) (set_local f).
Proof. intros c [s l] Hw. split_and!; [done|done|by left]. Qed.

#[global] Instance txn_get_local : TxnBody (W := W) get_local.
Proof. intros c [s l] Hw. split_and!; [done|done|by left]. Qed.

#[global] Instance quietly_set_local (f : L → L) : Quietly (W := W) (set_local f).
Proof. intros [s l]. split_and!; [done|apply not_throws_Ok|done|done]. Qed.

#[global] Instance quietly_get_local : Quietly (W := W) get_local.
Proof. intros [s l]. split_and!; [done|apply not_throws_Ok|done|done]. Qed.

End local_rules.

(** ** COMMIT and ROLLBACK *)

Lemma finisher_attempt (run : Eff server unit) :
  (∀ s, (run s).1 = Ok tt ∧ working (run s).2 = None ∧ auto_increment (run s).2 = auto_increment s) →
  (∀ s, (run (quiet s)).2 = quiet (run s).2) →
  Finisher (attempt run).
Proof.
  intros Hrun Hq c s [Hc Hw].
  set (s1 := set_faults (tail (faults s)) s).
  assert (attempt run (quiet_world s) = run (quiet s1)) as Eq by (by destruct s).
  assert (attempt run s =
    match default NoFault (head (faults s)) with
    | NoFault => run s1
    | FailBefore x => (Throw (RuntimeError x), s1)
    | FailAfter x => (Throw (RuntimeError x), (run s1).2)
    end) as En.
  { unfold attempt. rewrite bind_eq. simpl. fold s1.
    destruct (default NoFault (head (faults s))); [done|done|].
    rewrite bind_eq. destruct (Hrun s1) as [-> _]. done. }
  destruct (Hrun (quiet s1)) as (R1 & R2 & R3).
  destruct (Hrun s1) as (Q1 & Q2 & Q3).
  rewrite Eq, En. simpl in *. rewrite R1, Hq.
  assert (auto_increment (quiet (run s1).2) = auto_increment (run s1).2) as Eqa
    by (by destruct (run s1).2).
  assert (committed (quiet (run s1).2) = committed (run s1).2) as Eqc
    by (by destruct (run s1).2).
  rewrite Eqa, Eqc.
  destruct (default NoFault (head (faults s))); simpl.
  - rewrite Q1. split_and!; [done|done|apply not_throws_Ok|left; done].
  - split_and!; [done|done|apply not_throws_Ok|right; eauto with imm].
  - split_and!; [done|done|apply not_throws_Ok|right; eauto with imm].
Qed.

#[global] Instance finisher_commit : Finisher commit.
Proof. apply finisher_attempt; intros [? [?|] ?]; done. Qed.

#[global] Instance finisher_rollback : Finisher rollback.
Proof. apply finisher_attempt; intros [? [?|] ?]; done. Qed.

#[global] Instance finisher_lift {L A} (m : Eff server A) :
  Finisher m → Finisher (W := server * L) (lift m).
Proof.
  intros Hm c [s l] Hw. pose proof (Hm c s Hw) as Hx.
  unfold lift, quiet_world in *; simpl in *.
  destruct (m s) as [r s1], (m (quiet s)) as [r0 s0]; simpl in *.
  destruct Hx as (? & ? & ? & Hor). split_and!; [done|done|done|].
  destruct Hor as [(-> & -> & ?)|?]; [left|right]; done.
Qed.

(** ** START TRANSACTION, the try block and its handler *)

(** What a caller sees of an operation run on a server with no open
    transaction: the quiet run, or a failure that changed nothing or whose
    commit happened. [failed] recognises the values that report a failure. *)
Definition atomic {A} (m : Eff server A) (failed : A → Prop) : Prop := ∀ s, working s = None →
  (auto_increment s ≤ auto_increment (m s).2)%Z ∧
  (((m (quiet s)).1 = (m s).1 ∧ (m (quiet s)).2 = quiet (m s).2 ∧
      (¬ throws (m s).1 → working (m s).2 = None))
   ∨ ((throws (m s).1 ∨ ∃ a, (m s).1 = Ok a ∧ failed a) ∧
      (committed (m s).2 = committed s ∨
       committed (m s).2 = committed (m (quiet s)).2 ∧
       auto_increment (m s).2 = auto_increment (m (quiet s)).2) ∧
      (¬ throws (m s).1 → working (m s).2 = None))).

(** The catch block: entered with locals that satisfy [J], it drops the
    transaction and reports the failure. *)
Class Handler `{HasServer W} {A} (J : W → Prop) (h : exn → Eff W A) (failed : A → Prop) : Prop :=
  handler : ∀ e w, J w →
  committed (srv (h e w).2) = committed (srv w) ∧
  auto_increment (srv (h e w).2) = auto_increment (srv w) ∧
  ((∃ a, (h e w).1 = Ok a ∧ failed a ∧ working (srv (h e w).2) = None) ∨ throws (h e w).1) ∧
  (h e (quiet_world w)).1 = (h e w).1 ∧ (h e (quiet_world w)).2 = quiet_world (h e w).2.

Lemma start_transaction_spec s : working s = None →
  (auto_increment (start_transaction s).2 = auto_increment s) ∧
  committed (start_transaction s).2 = committed s ∧
  (start_transaction (quiet s)).1 = Ok tt ∧
  (((start_transaction s).1 = Ok tt ∧ in_txn (committed s) (start_transaction s).2 ∧
     (start_transaction (quiet s)).2 = quiet (start_transaction s).2)
   ∨ throws (start_transaction s).1).
Proof.
  intros Hw. destruct s as [c w n b f k t]; simpl in *; subst.
  destruct f as [|[|x|x] f]; simpl; split_and!; try done; eauto with imm.
  - left. split_and!; [done|split; simpl; eauto|done].
  - left. split_and!; [done|split; simpl; eauto|done].
Qed.

Lemma transaction_atomic {L A} (J : L → Prop) (init : L) (main : Eff (server * L) A) h
    (failed : A → Prop) :
  TxnMain main → (∀ s, throws (main (s, init)).1 → J (main (s, init)).2.2) →
  Handler (λ w, J w.2) h failed →
  atomic (local init (lift start_transaction ;; catch main h)) failed.
Proof.
  intros Hmain HJ Hh s Hs. destruct (start_transaction_spec s Hs) as (Ha & Hc & H0 & Hor).
  assert (∀ s, local init (lift start_transaction ;; catch main h) s =
    match (start_transaction s).1 with
    | Ok _ => ((catch main h ((start_transaction s).2, init)).1,
               (catch main h ((start_transaction s).2, init)).2.1)
    | Throw e => (Throw e, (start_transaction s).2)
    end) as E.
  { intros s'. unfold local. rewrite bind_eq. unfold lift.
    destruct (start_transaction s') as [[[]|e] s1]; simpl; [|done].
    by destruct (catch main h (s1, init)) as [r [s2 l2]]. }
  rewrite !E, H0. destruct Hor as [(-> & Hin & ->)|[e ->]]; simpl.
  2: { split; [lia|]. right. split_and!; [eauto with imm|by left|intros []; eauto with imm]. }
  set (w := ((start_transaction s).2, init)) in *.
  change (quiet (start_transaction s).2, init) with (quiet_world w).
  change (in_txn (committed s) w) in Hin.
  rewrite !catch_eq. destruct (Hmain _ w Hin) as [Hle Hcases].
  change (auto_increment (srv w)) with (auto_increment (start_transaction s).2) in Hle.
  rewrite Ha in Hle.
  destruct Hcases as [(E1 & E2 & Hthr & Hfin)|[[e He] Hcm]].
  - rewrite E1, E2. destruct (main w).1 as [a|e] eqn:Em; simpl.
    + split; [done|]. left. split_and!; [done|done|]. intros. apply Hfin, not_throws_Ok.
    + destruct (Hh e (main w).2) as (Q1 & Q2 & Q3 & Q4 & Q5).
      { exact (HJ _ (ex_intro _ e Em)). }
      rewrite Q4, Q5.
      simpl in *. split; [by rewrite Q2|]. left. split_and!; [done|done|].
      intros Hn. destruct Q3 as [(a & ? & ? & ?)|?]; [done|contradiction].
  - rewrite He. destruct (Hh e (main w).2) as (Q1 & Q2 & Q3 & Q4 & Q5).
    { exact (HJ _ (ex_intro _ e He)). }
    simpl in *.
    split; [by rewrite Q2|]. right. split_and!.
    + destruct Q3 as [(a & ? & ? & ?)|?]; [right; eauto|by left].
    + rewrite Q1, Q2. destruct Hcm as [Hcm|(Hcm & Hcm' & Hn)]; [left; by rewrite Hcm|].
      right. destruct (main (quiet_world w)).1 as [a|e0]; [done|by destruct Hn; eauto with imm].
    + intros Hn. destruct Q3 as [(a & ? & ? & ?)|?]; [done|contradiction].
Qed.

Lemma main_lift {A} (m : Eff server A) : TxnMain m → TxnMain (W := server * unit) (lift m).
Proof.
  intros Hm c [s l] Hw. pose proof (Hm c s Hw) as Hx.
  unfold lift, quiet_world in *; simpl in *.
  destruct (m s) as [r s1], (m (quiet s)) as [r0 s0]; simpl in *.
  destruct Hx as (? & Hor). split; [done|].
  destruct Hor as [(-> & -> & ?)|?]; [left|right]; done.
Qed.

Lemma handler_lift {A} (h : exn → Eff server A) failed :
  Handler (λ _, True) h failed → Handler (W := server * unit) (λ _, True) (λ e, lift (h e)) failed.
Proof.
  intros Hh e [s l] _. pose proof (Hh e s I) as Hx. unfold lift, quiet_world in *; simpl in *.
  destruct (h e s) as [r s1], (h e (quiet s)) as [r0 s0]; simpl in *.
  destruct Hx as (? & ? & ? & -> & ->). split_and!; done.
Qed.

Lemma transaction_atomic_server {A} (main : Eff server A) h (failed : A → Prop) :
  TxnMain main → Handler (λ _, True) h failed → atomic (start_transaction ;; catch main h) failed.
Proof.
  intros Hm%main_lift Hh%handler_lift.
  pose proof (transaction_atomic (λ _, True) tt _ _ _ Hm (λ _ _, I) Hh) as Ha.
  assert (∀ s, local tt (lift start_transaction ;; catch (lift main) (λ e, lift (h e))) s =
               (start_transaction ;; catch main h) s) as E.
  { intros s. unfold local. rewrite !bind_eq. unfold lift.
    destruct (start_transaction s) as [[[]|e] s1]; simpl; [|done].
    rewrite !catch_eq. destruct (main s1) as [[a|e] s2]; simpl; [done|].
    by destruct (h e s2). }
  intros s Hs. specialize (Ha s Hs). by rewrite !E in Ha.
Qed.

#[global] Instance handler_rethrow {A} :
  Handler (λ _, True) (λ e, abort ;; throw e : Eff server A) (λ _, False).
Proof. intros e s _. split_and!; try done. right. by eexists. Qed.

(** *** Locals at the point of a throw *)

Section keeps.
Context {L : Type} (J : L → Prop).
Abbreviation W := (server * L)%type.

Class Keeps {A} (m : Eff W A) : Prop := keeps : ∀ w, J w.2 → J (m w).2.2.
Class KeepsOnThrow {A} (m : Eff W A) : Prop :=
  keeps_on_throw : ∀ w, J w.2 → throws (m w).1 → J (m w).2.2.

#[global] Instance keeps_ret {A} (a : A) : Keeps (mret a).
Proof. by intros w. Qed.
#[global] Instance keeps_field z : Keeps (field_i64 z).
Proof. unfold field_i64. case_match; by intros w. Qed.
#[global] Instance keeps_lift {A} (m : Eff server A) : Keeps (lift m).
Proof. intros [s l] Hl. unfold lift. by destruct (m s). Qed.
#[global] Instance keeps_bind {A B} (m : Eff W A) (k : A → Eff W B) :
  Keeps m → (∀ a, Keeps (k a)) → Keeps (m ≫= k).
Proof.
  intros Hm Hk w Hw. rewrite bind_eq. specialize (Hm w Hw).
  destruct (m w).1 as [a|e]; [by apply Hk|done].
Qed.
#[global] Instance keeps_if {A} (b : bool) (m1 m2 : Eff W A) :
  Keeps m1 → Keeps m2 → Keeps (if b then m1 else m2).
Proof. by destruct b. Qed.
#[global] Instance keeps_forM {A} (l : list A) (f : A → Eff W unit) :
  (∀ a, Keeps (f a)) → Keeps (forM l f).
Proof. intros Hf. induction l; simpl; apply _. Qed.
#[global] Instance keeps_set f : (∀ l, J l → J (f l)) → Keeps (set_local f).
Proof. intros Hf [s l] Hl. by apply Hf. Qed.

Lemma throw_bind {A B} (m : Eff W A) (k : A → Eff W B) :
  Keeps m → (∀ a, KeepsOnThrow (k a)) → KeepsOnThrow (m ≫= k).
Proof.
  intros Hm Hk w Hw. rewrite bind_eq. specialize (Hm w Hw).
  destruct (m w).1 as [a|e]; [by apply Hk|done].
Qed.
Lemma throw_quietly {A} (m : Eff W A) : Quietly m → KeepsOnThrow m.
Proof. intros Hm w _ Ht. by destruct (Hm w) as (_ & Hn & _). Qed.
Lemma throw_if {A} (b : bool) (m1 m2 : Eff W A) :
  KeepsOnThrow m1 → KeepsOnThrow m2 → KeepsOnThrow (if b then m1 else m2).
Proof. by destruct b. Qed.
Lemma throw_option {A B} (o : option A) (m1 : A → Eff W B) (m2 : Eff W B) :
  (∀ a, KeepsOnThrow (m1 a)) → KeepsOnThrow m2 →
  KeepsOnThrow (match o with Some a => m1 a | None => m2 end).
Proof. destruct o; auto. Qed.
Lemma throw_at {A} (m : Eff W A) init : KeepsOnThrow m → J init →
  ∀ s, throws (m (s, init)).1 → J (m (s, init)).2.2.
Proof. intros Hm Hi s. by apply Hm. Qed.
End keeps.

Ltac keeps_on_throw :=
  repeat first
    [ apply throw_quietly; apply _
    | apply throw_bind; [apply _ | intros]
    | apply throw_if
    | apply throw_option; intros ].

(** Decomposes a transaction into its steps. *)
Ltac txn_main :=
  repeat first
    [ apply main_finish; [apply _ | intros; apply _]
    | apply main_bind; [apply _ | intros]
    | apply main_if
    | apply main_option; intros
    | match goal with |- TxnMain (match ?p with (_, _) => _ end) => destruct p end ].

(** ** Every transaction of the store is atomic *)

Section store_atomic.
Context `{!MysqlServer} `{!StdHash}.

#[global] Instance txn_same_command `{HasServer W} m c r t x :
  TxnBody (same_command m c r t x : Eff W bool).
Proof. unfold same_command. apply _. Qed.

Lemma accept_direct_text_atomic s r i x t ty :
  atomic (execute_accept_direct_text s r i x t ty) (λ a, ar_error a = MysqlFailed).
Proof.
  apply (transaction_atomic (λ _, True)); [txn_main|done|].
  intros e [s' l] _. split_and!; try done. left. by eexists.
Qed.

Lemma accept_group_message_atomic s g i x ty t b :
  atomic (execute_accept_group_message s g i x ty t b) (λ a, ar_error (gar_base a) = MysqlFailed).
Proof.
  apply (transaction_atomic (λ _, True)); [txn_main|done|].
  intros e [s' l] _. split_and!; try done. left. by eexists.
Qed.

Lemma acknowledge_atomic m u d c q st t :
  atomic (execute_acknowledge m u d c q st t) (λ _, False).
Proof.
  unfold execute_acknowledge. case_match.
  - intros s' Hs. split; [done|]. by left.
  - apply transaction_atomic_server; [txn_main|apply _].
Qed.

Lemma insert_friend_atomic f : atomic (execute_insert_friend f) (λ _, False).
Proof.
  intros s Hs. unfold execute_insert_friend. rewrite !bind_eq.
  set (s1 := (getCurrentDateTime s).2).
  assert (getCurrentDateTime (quiet s) = ((getCurrentDateTime s).1, quiet s1)) as -> by (by destruct s).
  assert (working s1 = None ∧ auto_increment s1 = auto_increment s ∧ committed s1 = committed s)
    as (Hw1 & Ha1 & Hc1) by (by destruct s).
  simpl. rewrite <- Ha1, <- Hc1.
  apply (transaction_atomic_server _ (λ e, abort ;; throw e) (λ _, False)); [txn_main|apply _|done].
Qed.

(** The group operations start with error = MysqlFailed and set another error
    only where nothing can throw any more. *)
Definition group_pending (r : GroupOperationResult) : Prop := go_error r = MysqlFailed.

#[global] Instance group_catch_handler :
  Handler (λ w, group_pending w.2) group_catch (λ r, go_error r = MysqlFailed).
Proof. intros e [s l] Hl. split_and!; try done. left. by eexists. Qed.

#[global] Instance keeps_set_group m c n : Keeps group_pending (set_local (set_go_group m c n)).
Proof. by apply keeps_set. Qed.
#[global] Instance keeps_push_recipient u : Keeps group_pending (set_local (push_go_recipient u)).
Proof. by apply keeps_set. Qed.
#[global] Instance keeps_set_join_time t : Keeps group_pending (set_local (set_go_join_time t)).
Proof. by apply keeps_set. Qed.

Ltac group_atomic :=
  apply (transaction_atomic group_pending);
  [ unfold group_reject; txn_main
  | apply throw_at; [unfold group_reject; keeps_on_throw | done]
  | apply _ ].

Lemma create_group_atomic g :
  atomic (execute_create_group g) (λ r, go_error r = MysqlFailed).
Proof. group_atomic. Qed.

Lemma request_group_join_atomic g u m n :
  atomic (execute_request_group_join g u m n) (λ r, go_error r = MysqlFailed).
Proof. group_atomic. Qed.

Lemma reply_group_join_atomic g a r b n :
  atomic (execute_reply_group_join g a r b n) (λ r, go_error r = MysqlFailed).
Proof. group_atomic. Qed.

Lemma remove_group_member_atomic g a t b :
  atomic (execute_remove_group_member g a t b) (λ r, go_error r = MysqlFailed).
Proof. group_atomic. Qed.

End store_atomic.
