(* ===== verification/Wp.v ===== *)
(** * Reasoning about quiet runs

    A weakest-precondition calculus for the operations of the store run on a
    server with no fault ahead: [txn c d ...] is the server inside a transaction
    over committed database [c] with working database [d], [idle c ...] the
    server outside one. *)

From S2P Require Import Prelude Codec Schema Records MysqlStore Atomicity.
Import db.

(** The components of a quiet server that the databases do not determine. *)
Record ambient := MkAmbient {
  am_auto : Z; am_connected : bool; am_clock : nat → string; am_ticks : nat }.

Definition idle (c : database) (z : ambient) : server :=
  MkServer c None z.(am_auto) z.(am_connected) [] z.(am_clock) z.(am_ticks).
Definition txn (c d : database) (z : ambient) : server :=
  MkServer c (Some d) z.(am_auto) z.(am_connected) [] z.(am_clock) z.(am_ticks).
Definition ambient_of (s : server) : ambient :=
  MkAmbient s.(auto_increment) s.(connected) s.(clock) s.(ticks).
Definition bump (z : ambient) : ambient :=
  MkAmbient (z.(am_auto) + 1) z.(am_connected) z.(am_clock) z.(am_ticks).
Definition tick (z : ambient) : ambient :=
  MkAmbient z.(am_auto) z.(am_connected) z.(am_clock) (S z.(am_ticks)).
Definition dropped (z : ambient) : ambient :=
  MkAmbient z.(am_auto) false z.(am_clock) z.(am_ticks).

Lemma quiet_idle s : working s = None → quiet s = idle (committed s) (ambient_of s).
Proof. destruct s; simpl. by intros ->. Qed.

Lemma wp_field {W} z (Q : outcome Z → W → Prop) w :
  (is_i64 z = true → Q (Ok z) w) →
  (is_i64 z = false → Q (Throw (RuntimeError "invalid SQL integer")) w) →
  wp (field_i64 z) Q w.
Proof. unfold wp, field_i64. destruct (is_i64 z); auto. Qed.

Section server_wp.
Context `{!MysqlServer}.

Lemma wp_start c z (Q : outcome unit → server → Prop) :
  Q (Ok tt) (txn c c z) → wp start_transaction Q (idle c z).
Proof. done. Qed.

Lemma wp_commit c d z (Q : outcome unit → server → Prop) :
  Q (Ok tt) (idle d z) → wp commit Q (txn c d z).
Proof. done. Qed.

Lemma wp_rollback c d z (Q : outcome unit → server → Prop) :
  Q (Ok tt) (idle c z) → wp rollback Q (txn c d z).
Proof. done. Qed.

Lemma wp_abort_txn c d z (Q : outcome unit → server → Prop) :
  Q (Ok tt) (idle c (dropped z)) → wp abort Q (txn c d z).
Proof. done. Qed.

Lemma wp_query_txn {A} (q : sql A) c d z (Q : outcome A → server → Prop) :
  (∀ d' a, q d = inr (d', a) → Q (Ok a) (txn c d' z)) →
  (∀ e, q d = inl e → Q (Throw (RuntimeError (diagnostic e))) (txn c d z)) →
  wp (query q) Q (txn c d z).
Proof.
  intros H1 H2. unfold wp.
  assert (query q (txn c d z) = match q d with
    | inl e => (Throw (RuntimeError (diagnostic e)), txn c d z)
    | inr (d', a) => (Ok a, txn c d' z) end) as -> by done.
  destruct (q d) as [e|[d' a]]; simpl; auto.
Qed.

Lemma wp_query_idle {A} (q : sql A) c z (Q : outcome A → server → Prop) :
  (∀ d' a, q c = inr (d', a) → Q (Ok a) (idle d' z)) →
  (∀ e, q c = inl e → Q (Throw (RuntimeError (diagnostic e))) (idle c z)) →
  wp (query q) Q (idle c z).
Proof.
  intros H1 H2. unfold wp.
  assert (query q (idle c z) = match q c with
    | inl e => (Throw (RuntimeError (diagnostic e)), idle c z)
    | inr (d', a) => (Ok a, idle d' z) end) as -> by done.
  destruct (q c) as [e|[d' a]]; simpl; auto.
Qed.

Lemma wp_read_txn {A} (f : database → A) c d z (Q : outcome A → server → Prop) :
  Q (Ok (f d)) (txn c d z) → wp (query (sql_read f)) Q (txn c d z).
Proof. done. Qed.

Lemma wp_read_idle {A} (f : database → A) c z (Q : outcome A → server → Prop) :
  Q (Ok (f c)) (idle c z) → wp (query (sql_read f)) Q (idle c z).
Proof. done. Qed.

Lemma wp_insert_auto (q : Z → sql unit) c d z (Q : outcome Z → server → Prop) :
  (∀ d', q z.(am_auto) d = inr (d', tt) → Q (Ok z.(am_auto)) (txn c d' (bump z))) →
  (∀ e, q z.(am_auto) d = inl e → Q (Throw (RuntimeError (diagnostic e))) (txn c d (bump z))) →
  wp (query_auto_increment q) Q (txn c d z).
Proof.
  intros H1 H2. unfold wp.
  assert (query_auto_increment q (txn c d z) = match q z.(am_auto) d with
    | inl e => (Throw (RuntimeError (diagnostic e)), txn c d (bump z))
    | inr (d', _) => (Ok z.(am_auto), txn c d' (bump z)) end) as -> by done.
  destruct (q (am_auto z) d) as [e|[d' []]]; simpl; auto.
Qed.

Lemma wp_clock_idle c z (Q : outcome string → server → Prop) :
  Q (Ok (z.(am_clock) z.(am_ticks))) (idle c (tick z)) → wp getCurrentDateTime Q (idle c z).
Proof. done. Qed.

End server_wp.

(** One step of symbolic execution. *)
Ltac wp_step :=
  match goal with
  | |- wp (local _ _) _ _ => apply wp_local
  | |- wp (catch _ _) _ _ => apply wp_catch
  | |- wp (_ ≫= _) _ _ => apply wp_bind
  | |- wp (lift _) _ (_, _) => apply wp_lift
  | |- wp (set_local _) _ (_, _) => apply wp_set_local
  | |- wp get_local _ (_, _) => apply wp_get_local
  | |- wp (mret _) _ _ => apply wp_ret
  | |- wp (throw _) _ _ => apply wp_throw
  | |- wp (field_i64 _) _ _ => apply wp_field; intros
  | |- wp start_transaction _ _ => apply wp_start
  | |- wp commit _ _ => apply wp_commit
  | |- wp rollback _ _ => apply wp_rollback
  | |- wp abort _ _ => apply wp_abort_txn
  | |- wp (query (sql_read _)) _ (txn _ _ _) => apply wp_read_txn
  | |- wp (query (sql_read _)) _ (idle _ _) => apply wp_read_idle
  | |- wp (query _) _ (txn _ _ _) => apply wp_query_txn; intros
  | |- wp (query _) _ (idle _ _) => apply wp_query_idle; intros
  | |- wp (query_auto_increment _) _ _ => apply wp_insert_auto; intros
  | |- wp getCurrentDateTime _ _ => apply wp_clock_idle
  | |- wp (if _ then _ else _) _ _ => apply wp_if; intros
  | |- wp (match ?o with Some _ => _ | None => _ end) _ _ => apply wp_option; intros
  | |- wp (match ?p with (_, _) => _ end) _ _ => apply wp_prod
  end; cbv beta iota.

Ltac wp_run := repeat wp_step.
