(* ===== verification/StoreSpec.v ===== *)
(** * What the store's transactions do

    An abstract specification of each transaction of the message store: the
    effect relates the database before, the result and the database after,
    with no transaction, statement or fault in sight. The refinement lemmas
    show that the code implements it under every fault. *)

From S2P Require Import Prelude Codec Schema Records MysqlStore Atomicity Wp.
Import db.

(** The observable outcome of an atomic operation with effect [eff]: the
    effect, or a reported failure after which the database is the old one or,
    when only the reply to COMMIT was lost, one the effect allows. *)
Definition transaction_outcome {A} (eff : A → database → Prop) (failed : A → Prop)
    (c : database) (r : outcome A) (c' : database) : Prop :=
  (∃ a, r = Ok a ∧ eff a c') ∨
  ((throws r ∨ ∃ a, r = Ok a ∧ failed a) ∧ (c' = c ∨ ∃ a, eff a c')).

(** The effect of a quiet run: it returns with the effect, or fails and
    leaves the database alone. *)
Definition quiet_effect {A} (eff : A → database → Prop) (failed : A → Prop)
    (c : database) (r : outcome A) (s : server) : Prop :=
  (∃ a, r = Ok a ∧ eff a (committed s)) ∨
  ((throws r ∨ ∃ a, r = Ok a ∧ failed a) ∧ committed s = c).

Lemma atomic_outcome {A} (m : Eff server A) (eff : A → database → Prop) failed s :
  atomic m failed → working s = None →
  wp m (quiet_effect eff failed (committed s)) (idle (committed s) (ambient_of s)) →
  transaction_outcome eff failed (committed s) (m s).1 (committed (m s).2).
Proof.
  intros Ha Hs Hq. rewrite <- quiet_idle in Hq by done. destruct (Ha s Hs) as [_ Hc].
  assert (∀ s', committed (quiet s') = committed s') as Ecq by (by intros []).
  unfold wp, quiet_effect in Hq. destruct Hc as [(E1 & E2 & _)|(Hf & Hdb & _)].
  - rewrite E1, E2, Ecq in Hq. destruct Hq as [?|[? ?]]; [by left|right; auto].
  - right. split; [done|]. destruct Hdb as [?|[Hdb _]]; [by left|].
    rewrite Hdb. destruct Hq as [(a & _ & ?)|[_ ->]]; eauto.
Qed.

Lemma outcome_preserves {A} (I : database → Prop) (eff : A → database → Prop) failed c r c' :
  transaction_outcome eff failed c r c' → (∀ a d, eff a d → I d) → I c → I c'.
Proof. intros [(a & _ & ?)|[_ [->|[a ?]]]]; eauto. Qed.

Section spec.
Context `{!MysqlServer} `{!StdHash}.

(** ** Statements that change the database *)

Lemma unless_inr {A} b e (r : sql_result A) x : unless b e r = inr x ↔ b = false ∧ r = inr x.
Proof. unfold unless. destruct b; naive_solver. Qed.

Lemma insert_message_inr m id d d' u :
  insert_message m id d = inr (d', u) ↔
  message_in_range m = true ∧ messages d !! id = None ∧
  (∀ k m', messages d !! k = Some m' → same_position m m' = false ∧ same_client m m' = false) ∧
  d' = set_messages (<[id := m]> (messages d)) d.
Proof.
  destruct u. unfold insert_message. rewrite unless_inr, negb_false_iff.
  destruct (messages d !! id) eqn:E1; [naive_solver|].
  destruct (head _) as [p|] eqn:E2.
  - split; [naive_solver|]. intros (_ & _ & Hall & _). destruct p as [k m'].
    apply select_head_Some in E2 as [Hk Hor]. destruct (Hall _ _ Hk) as [H1 H2].
    by rewrite H1, H2 in Hor.
  - rewrite select_head_None in E2. split.
    + intros [? [= <-]]. split_and!; try done. intros k m' Hk.
      apply orb_false_iff. exact (E2 _ _ Hk).
    + naive_solver.
Qed.

Lemma update_latest_seq_inr seq c d d' u row :
  conversations d !! c = Some row →
  update_latest_seq seq c d = inr (d', u) ↔
  bigint_unsigned seq = true ∧
  d' = set_conversations (<[c := set_latestSeq seq row]> (conversations d)) d.
Proof.
  destruct u. unfold update_latest_seq. intros ->. rewrite unless_inr, negb_false_iff. naive_solver.
Qed.

Lemma insert_state_inr c uid joined d d' u :
  insert_state c uid joined d = inr (d', u) ↔
  bigint_unsigned c && bigint_unsigned uid && bigint_unsigned joined = true ∧
  conversationUserStates d !! (c, uid) = None ∧
  d' = set_conversationUserStates (<[(c, uid) := fresh_state joined]> (conversationUserStates d)) d.
Proof.
  destruct u. unfold insert_state. rewrite unless_inr, negb_false_iff.
  destruct (conversationUserStates d !! (c, uid)); naive_solver.
Qed.

Lemma insert_conversation_inr c type business created d d' u :
  insert_conversation c type business created d = inr (d', u) ↔
  bigint_unsigned c && bigint_unsigned business && smallint type = true ∧
  conversations d !! c = None ∧
  (∀ k r, conversations d !! k = Some r → same_business type business r = false) ∧
  d' = set_conversations (<[c := MkConversationRow type business 0 created]> (conversations d)) d.
Proof.
  destruct u. unfold insert_conversation. rewrite unless_inr, negb_false_iff.
  destruct (conversations d !! c) eqn:E1; [naive_solver|].
  destruct (head _) as [[k r]|] eqn:E2.
  - split; [naive_solver|]. intros (_ & _ & Hall & _).
    apply select_head_Some in E2 as [Hk Hor]. by rewrite (Hall _ _ Hk) in Hor.
  - rewrite select_head_None in E2. naive_solver.
Qed.

Lemma insert_friendship_inr id a b created d d' u :
  insert_friendship id a b created d = inr (d', u) ↔
  bigint_unsigned id && bigint_unsigned a && bigint_unsigned b = true ∧
  friends d !! id = None ∧
  (∀ k f, friends d !! k = Some f → is_friend_pair a b f = false) ∧
  d' = set_friends (<[id := MkFriendRow a b created]> (friends d)) d.
Proof.
  destruct u. unfold insert_friendship. rewrite unless_inr, negb_false_iff.
  destruct (friends d !! id) eqn:E1; [naive_solver|].
  destruct (head _) as [[k r]|] eqn:E2.
  - split; [naive_solver|]. intros (_ & _ & Hall & _).
    apply select_head_Some in E2 as [Hk Hor]. by rewrite (Hall _ _ Hk) in Hor.
  - rewrite select_head_None in E2. naive_solver.
Qed.

Lemma insert_group_inr g d d' u :
  insert_group g d = inr (d', u) ↔
  bigint_unsigned (gm_groupId g) && bigint_unsigned (gm_masterUid g) &&
    bigint_unsigned (gm_conversationId g) = true ∧
  groupInfo d !! gm_groupId g = None ∧
  (∀ k r, groupInfo d !! k = Some r → g_conversationId r ≠ gm_conversationId g) ∧
  d' = set_groupInfo (<[gm_groupId g := MkGroupRow (gm_masterUid g) (gm_name g) (gm_conversationId g)
                                          (gm_createTime g)]> (groupInfo d)) d.
Proof.
  destruct u. unfold insert_group. rewrite unless_inr, negb_false_iff.
  destruct (groupInfo d !! gm_groupId g) eqn:E1; [naive_solver|].
  destruct (head _) as [[k r]|] eqn:E2.
  - split; [naive_solver|]. intros (_ & _ & Hall & _).
    apply select_head_Some in E2 as [Hk Hor]. by apply Z.eqb_eq, (Hall _ _ Hk) in Hor.
  - rewrite select_head_None in E2. setoid_rewrite Z.eqb_neq in E2. naive_solver.
Qed.

Lemma insert_member_inr g uid joined d d' u :
  insert_member g uid joined d = inr (d', u) ↔
  bigint_unsigned g && bigint_unsigned uid = true ∧ groupMembers d !! (g, uid) = None ∧
  d' = set_groupMembers (<[(g, uid) := joined]> (groupMembers d)) d.
Proof.
  destruct u. unfold insert_member. rewrite unless_inr, negb_false_iff.
  destruct (groupMembers d !! (g, uid)); naive_solver.
Qed.

(** ** Messages *)

(** The conversation of a friendship between two users. *)
Definition direct_conversation (d : database) (uid_a uid_b : Z) : option Z :=
  fst <$> head (select (λ _ c,
    (c.(cv_type) =? 1)%Z &&
    match d.(friends) !! c.(cv_businessId) with
    | Some f => is_friend_pair uid_a uid_b f
    | None => false
    end) d.(conversations)).

Definition with_states (d : database) (keys : list (Z * Z)) : database :=
  set_conversationUserStates (foldl insert_state_ignore d.(conversationUserStates) keys) d.

Definition new_message (sender receiver c seq : Z) (client content : string) (type : Z)
    (time : string) : message_row :=
  MkMessageRow sender receiver c seq (Some client) (Some (command_hash c type content)) type
    content (message_status WAIT) time "".

(** A message appended to conversation [c], whose row is [row]. *)
Definition append (d : database) (c : Z) (row : conversation_row) (id : Z) (m : message_row) : database :=
  set_messages (<[id := m]> d.(messages))
    (set_conversations (<[c := set_latestSeq m.(m_conversationSeq) row]> d.(conversations)) d).

Definition same_message (m : message_row) (c receiver type : Z) (content : string) : bool :=
  (m.(m_conversationId) =? c)%Z && (m.(m_receiverId) =? receiver)%Z && (m.(m_type) =? type)%Z &&
  bool_decide (m.(m_content) = content).

(** Storing a message in conversation [c]: the command is known already and
    nothing changes, or it gets the next position of the conversation. The
    indices are the duplicate flag, the message id, the position, and the
    database after. *)
Inductive append_effect (d : database) (id c sender receiver : Z) (client content : string)
    (type : Z) (time : string) : bool → Z → Z → database → Prop :=
  | append_duplicate mid m :
      messages d !! mid = Some m →
      is_duplicate sender client m = true →
      same_message m c receiver type content = true →
      append_effect d id c sender receiver client content type time
        true mid m.(m_conversationSeq) d
  | append_new row :
      let m := new_message sender receiver c (row.(cv_latestSeq) + 1) client content type time in
      conversations d !! c = Some row →
      (0 ≤ row.(cv_latestSeq) + 1 < two63)%Z →
      message_in_range m = true →
      messages d !! id = None →
      (∀ k m', messages d !! k = Some m' →
         same_position m m' = false ∧ is_duplicate sender client m' = false) →
      append_effect d id c sender receiver client content type time
        false (i64 id) (row.(cv_latestSeq) + 1) (append d c row id m).

(** accept_direct_text. *)
Inductive direct_effect (d : database) (id sender receiver : Z) (client content : string)
    (type : Z) (time : string) : MessageAcceptResult → database → Prop :=
  | direct_not_friend :
      direct_conversation d (Z.min sender receiver) (Z.max sender receiver) = None →
      direct_effect d id sender receiver client content type time
        (MkAccept UserNotFriend "" false 0 0 0) d
  | direct_conflict c mid m :
      direct_conversation d (Z.min sender receiver) (Z.max sender receiver) = Some c →
      messages d !! mid = Some m →
      is_duplicate sender client m = true →
      same_message m c receiver type content = false →
      direct_effect d id sender receiver client content type time
        (MkAccept IdempotencyConflict "" false 0 c 0) d
  | direct_stored c duplicate mid seq d' :
      direct_conversation d (Z.min sender receiver) (Z.max sender receiver) = Some c →
      append_effect (with_states d [(c, sender); (c, receiver)]) id c sender receiver
        client content type time duplicate mid seq d' →
      direct_effect d id sender receiver client content type time
        (MkAccept Success "" duplicate mid c seq) d'.

Lemma wp_same_command {W} m c r t x (Q : outcome bool → W → Prop) w :
  Q (Ok (same_message m c r t x)) w →
  Q (Throw (RuntimeError "invalid SQL integer")) w →
  wp (same_command m c r t x) Q w.
Proof.
  intros H1 H2. unfold same_command. unfold same_message in H1.
  wp_run; try done; by destruct (m_conversationId m =? c)%Z.
Qed.

(** The failed branches of a transaction that reports MysqlFailed. *)
Lemma quiet_failed {A} (eff : A → database → Prop) failed c a s :
  failed a → committed s = c → quiet_effect eff failed c (Ok a) s.
Proof. intros. right. eauto. Qed.

Lemma quiet_done {A} (eff : A → database → Prop) failed c a s :
  eff a (committed s) → quiet_effect eff failed c (Ok a) s.
Proof. intros. left. eauto. Qed.

(** The three statements that store a new message. *)
Lemma append_statements d d1 d2 id c row sender receiver client content type time u1 u2 :
  let seq := i64 (row.(cv_latestSeq) + 1) in
  let m := new_message sender receiver c seq client content type time in
  conversations d !! c = Some row → is_i64 row.(cv_latestSeq) = true →
  head (select (λ _ m, is_duplicate sender client m) (messages d)) = None →
  update_latest_seq seq c d = inr (d1, u1) → insert_message m id d1 = inr (d2, u2) →
  append_effect d id c sender receiver client content type time false (i64 id) seq d2.
Proof.
  intros seq m Hrow Hi Hdup Hupd Hins.
  apply bool_decide_eq_true in Hi.
  rewrite (update_latest_seq_inr _ _ _ _ _ _ Hrow) in Hupd. destruct Hupd as [Hb ->].
  apply bool_decide_eq_true in Hb.
  assert (seq = row.(cv_latestSeq) + 1)%Z as Hseq.
  { unfold seq in *. destruct (decide (row.(cv_latestSeq) + 1 < two63)%Z); [apply i64_id; lia|].
    assert (row.(cv_latestSeq) + 1 = two63)%Z as E by lia. rewrite E in Hb.
    assert (i64 two63 < 0)%Z by done. lia. }
  apply insert_message_inr in Hins as (Hr & Hid & Hall & ->). simpl in *.
  rewrite select_head_None in Hdup. unfold m in *. rewrite Hseq in *. simpl.
  apply (append_new _ _ _ _ _ _ _ _ _ row); try done.
  pose proof (i64_range (row.(cv_latestSeq) + 1)) as Hrange. fold seq in Hrange. lia.
Qed.

Lemma fmap_Some_inv {A B} (f : A → B) o b : f <$> o = Some b → ∃ a, o = Some a ∧ b = f a.
Proof. destruct o; naive_solver. Qed.

Lemma accept_direct_text_wp c z s r i x tm ty :
  wp (execute_accept_direct_text s r i x tm ty)
    (quiet_effect (direct_effect c (am_auto z) s r i x ty tm) (λ a, ar_error a = MysqlFailed) c)
    (idle c z).
Proof.
  unfold execute_accept_direct_text, select_latest_seq, select_duplicate.
  repeat first [apply wp_same_command | wp_step].
  all: try (apply quiet_failed; reflexivity).
  all: apply quiet_done; simpl.
  all: match goal with H : select_direct_conversation _ _ _ = _ |- _ => injection H as <- <- end.
  all: try match goal with H : insert_states_ignore _ _ = _ |- _ => injection H as <- end.
  all: rewrite ?negb_true_iff, ?negb_false_iff in *.
  - destruct a3 as [mid m]. apply select_head_Some in H6 as [? ?]. by eapply direct_conflict.
  - destruct a3 as [mid m]. apply select_head_Some in H6 as [? ?].
    eapply direct_stored; [done|]. by apply append_duplicate.
  - apply fmap_Some_inv in H5 as (row & Hrow & ->).
    eapply direct_stored; [done|]. by eapply append_statements.
  - by apply direct_not_friend.
Qed.

(** accept_direct_text refines its effect under every fault. *)
Lemma accept_direct_text_refines s sender receiver client content type time :
  working s = None →
  let run := execute_accept_direct_text sender receiver client content time type s in
  transaction_outcome
    (direct_effect (committed s) (auto_increment s) sender receiver client content type time)
    (λ a, ar_error a = MysqlFailed) (committed s) run.1 (committed run.2).
Proof.
  intros Hs. apply atomic_outcome; [apply accept_direct_text_atomic|done|].
  apply (accept_direct_text_wp _ (ambient_of s)).
Qed.

(** ** Group messages *)

Definition group_conversation (d : database) (g uid : Z) : option Z :=
  row ← d.(groupInfo) !! g;
  _ ← d.(groupMembers) !! (g, uid);
  Some row.(g_conversationId).

Definition ready_file (d : database) (file_id : string) (owner : Z) (now : string) : option file_row :=
  f ← d.(fileObjects) !! weight file_id;
  if is_ready_owned owner now f then Some f else None.

Definition members_of (d : database) (g : Z) (P : Z → bool) : list Z :=
  map (λ kv : (Z * Z) * string, kv.1.2)
    (select (λ k _, (k.1 =? g)%Z && P k.2) d.(groupMembers)).

Lemma elem_of_members d g P u :
  u ∈ members_of d g P ↔ is_Some (groupMembers d !! (g, u)) ∧ P u = true.
Proof.
  unfold members_of. rewrite list_elem_of_fmap. split.
  - intros ([[g' u'] t] & -> & [Hk [Hg HP]%andb_true_iff]%elem_of_select).
    simpl in *. apply Z.eqb_eq in Hg as ->. eauto.
  - intros [[t Ht] HP]. exists ((g, u), t). split; [done|].
    apply elem_of_select. split; [done|]. simpl. by rewrite Z.eqb_refl.
Qed.

(** accept_group_message. *)
Inductive group_message_effect (d : database) (id sender g : Z) (client content : string)
    (type : Z) (time : string) (need_file : bool) : GroupMessageAcceptResult → database → Prop :=
  | group_not_member :
      group_conversation d g sender = None →
      group_message_effect d id sender g client content type time need_file
        (MkGroupAccept (MkAccept MessageOwnershipInvalid "" false 0 0 0) g []) d
  | group_no_file c :
      group_conversation d g sender = Some c →
      need_file = true → ready_file d content sender time = None →
      group_message_effect d id sender g client content type time need_file
        (MkGroupAccept (MkAccept NotFound "" false 0 c 0) g []) d
  | group_conflict c mid m :
      group_conversation d g sender = Some c →
      messages d !! mid = Some m → is_duplicate sender client m = true →
      same_message m c g type content = false →
      group_message_effect d id sender g client content type time need_file
        (MkGroupAccept (MkAccept IdempotencyConflict "" false 0 c 0) g []) d
  | group_stored c duplicate mid seq d' :
      group_conversation d g sender = Some c →
      (need_file = true → is_Some (ready_file d content sender time)) →
      append_effect d id c sender g client content type time duplicate mid seq d' →
      group_message_effect d id sender g client content type time need_file
        (MkGroupAccept (MkAccept Success "" duplicate mid c seq) g
           (members_of d g (λ uid, negb (uid =? sender)%Z))) d'.

(** The loops that collect uid columns into the result. *)
Lemma wp_forM_push {W L} (J : L → Prop) (push : Z → L → L) (l : list Z)
    (Q : outcome unit → W * L → Prop) w r :
  J r → (∀ u r, J r → J (push u r)) →
  Q (Ok tt) (w, foldl (λ r u, push u r) r l) →
  (∀ r', J r' → Q (Throw (RuntimeError "invalid SQL integer")) (w, r')) →
  wp (forM l (λ uid, u ← field_i64 uid; set_local (push u))) Q (w, r).
Proof.
  intros Hr Hpush. revert r Hr. induction l as [|u l IH]; intros r Hr Hok Hbad; simpl; wp_run; auto.
Qed.

Lemma foldl_push_recipient l b g r :
  foldl (λ r u, push_recipient u r) (MkGroupAccept b g r) l = MkGroupAccept b g (r ++ l).
Proof.
  revert r. induction l as [|u l IH]; intros r; simpl; [by rewrite app_nil_r|].
  unfold push_recipient at 2. simpl. by rewrite IH, <- app_assoc.
Qed.

Lemma append_effect_members d id c s r i x ty tm dup mid seq d' g P :
  append_effect d id c s r i x ty tm dup mid seq d' → members_of d' g P = members_of d g P.
Proof. by destruct 1. Qed.

Lemma accept_group_message_wp c z s g i x ty tm b :
  wp (execute_accept_group_message s g i x ty tm b)
    (quiet_effect (group_message_effect c (am_auto z) s g i x ty tm b)
       (λ a, ar_error (gar_base a) = MysqlFailed) c)
    (idle c z).
Proof.
  unfold execute_accept_group_message, select_group_conversation, select_ready_file,
    select_latest_seq, select_duplicate, select_members.
  repeat first [ apply wp_same_command
               | apply (wp_forM_push (λ _, True) push_recipient); [done|done| |intros ? _]
               | wp_step ].
  all: try (apply quiet_failed; reflexivity).
  all: apply quiet_done; simpl.
  all: rewrite ?negb_true_iff, ?negb_false_iff in *.
  all: repeat match goal with
    | a : Z * message_row |- _ => destruct a as [mid m]
    | H : head _ = Some _ |- _ => apply select_head_Some in H as [? ?]
    | H : _ <$> _ = Some _ |- _ => apply fmap_Some_inv in H as (row & ? & ->)
    | H : bool_decide _ = true |- _ => apply bool_decide_eq_true in H
    | H : bool_decide _ = false |- _ => apply bool_decide_eq_false, not_eq_None_Some in H
    end.
  all: unfold with_base; simpl; rewrite ?foldl_push_recipient; simpl.
  all: try (by eapply group_not_member || by eapply group_no_file || by eapply group_conflict).
  all: try (eapply group_stored; [done|intros; first [done|congruence]|by apply append_duplicate]).
  all: assert (append_effect c (am_auto z) a s g i x ty tm false (i64 (am_auto z))
                 (i64 (cv_latestSeq row + 1)) d'0) as Happ by (by eapply append_statements).
  all: setoid_rewrite (append_effect_members _ _ _ _ _ _ _ _ _ _ _ _ _ g
         (λ uid, negb (uid =? s)%Z) Happ).
  all: eapply group_stored; [done|intros; first [done|congruence]|done].
Qed.

Lemma accept_group_message_refines s sender g client content type time need_file :
  working s = None →
  let run := execute_accept_group_message sender g client content type time need_file s in
  transaction_outcome
    (group_message_effect (committed s) (auto_increment s) sender g client content type time need_file)
    (λ a, ar_error (gar_base a) = MysqlFailed) (committed s) run.1 (committed run.2).
Proof.
  intros Hs. apply atomic_outcome; [apply accept_group_message_atomic|done|].
  apply (accept_group_message_wp _ (ambient_of s)).
Qed.

End spec.
