(* ===== verification/GroupSpec.v ===== *)
(** * Effects of acknowledgements, friendships and group operations *)

From S2P Require Import Prelude Codec Schema Records MysqlStore Atomicity Wp StoreSpec.
Import db.

Section group_spec.
Context `{!MysqlServer} `{!StdHash}.

(** ** Acknowledgement *)

Definition owner_of (d : database) (uid : Z) (device : string) (id c seq : Z) :
    option (Z * Z * Z * Z) :=
  m ← d.(messages) !! id;
  conv ← d.(conversations) !! c;
  _ ← d.(conversationUserStates) !! (c, uid);
  dev ← d.(devices) !! weight device;
  if (m.(m_conversationId) =? c)%Z && (m.(m_conversationSeq) =? seq)%Z && (dev.(dv_uid) =? uid)%Z
  then Some (conv.(cv_type), m.(m_receiverId), m.(m_senderId), m.(m_status)) else None.

Definition acknowledged (d : database) (direct : bool) (id uid : Z) (device : string)
    (c seq status : Z) (time : string) : database :=
  let d1 := if direct then set_messages (alter (advance_message status time) id d.(messages)) d else d in
  let d2 := set_conversationUserStates
              (alter (advance_state seq status) (c, uid) d1.(conversationUserStates)) d1 in
  set_conversationDeviceStates
    (<[(c, weight device) := from_option (Z.max seq) seq (d.(conversationDeviceStates) !! (c, weight device))]>
       d2.(conversationDeviceStates)) d2.

Inductive ack_effect (d : database) (id uid : Z) (device : string) (c seq status : Z) (time : string) :
    ConversationAckResult → database → Prop :=
  | ack_rejected :
      ((id ≤ 0 ∨ uid ≤ 0 ∨ c ≤ 0 ∨ seq ≤ 0)%Z ∨ device = "" ∨ owner_of d uid device id c seq = None) →
      ack_effect d id uid device c seq status time (MkAck 0 0 false false) d
  | ack_applied type receiver sender old :
      (0 < id ∧ 0 < uid ∧ 0 < c ∧ 0 < seq)%Z →
      owner_of d uid device id c seq = Some (type, receiver, sender, old) →
      let direct := (type =? 1)%Z && (receiver =? uid)%Z in
      ack_effect d id uid device c seq status time
        (MkAck 1 sender (type =? 1)%Z
           (direct && (status =? message_status READ)%Z && (old <? message_status READ)%Z))
        (acknowledged d direct id uid device c seq status time).

Lemma ack_guard id uid (device : string) c seq :
  ((id <=? 0)%Z || (uid <=? 0)%Z || bool_decide (device = "") || (c <=? 0)%Z || (seq <=? 0)%Z) = false →
  (0 < id ∧ 0 < uid ∧ 0 < c ∧ 0 < seq)%Z ∧ device ≠ "".
Proof. rewrite !orb_false_iff, !Z.leb_gt, bool_decide_eq_false. tauto. Qed.

Lemma upsert_device_state_inr c dev seq d d' u :
  upsert_device_state c dev seq d = inr (d', u) →
  d' = set_conversationDeviceStates
    (<[(c, weight dev) := from_option (Z.max seq) seq (conversationDeviceStates d !! (c, weight dev))]>
       (conversationDeviceStates d)) d.
Proof. unfold upsert_device_state. rewrite unless_inr. intros [_ [= <-]]. done. Qed.

Lemma acknowledge_wp c0 z id uid dev c seq st t :
  wp (execute_acknowledge id uid dev c seq st t)
    (quiet_effect (ack_effect c0 id uid dev c seq st t) (λ _, False) c0) (idle c0 z).
Proof.
  unfold execute_acknowledge. apply wp_if; intros Hg.
  { wp_run. apply quiet_done, ack_rejected. rewrite !orb_true_iff, !Z.leb_le, bool_decide_eq_true in Hg.
    tauto. }
  apply ack_guard in Hg as [Hpos Hdev]. unfold select_owner. wp_run.
  all: try (right; split; [left; by eexists|reflexivity]).
  all: repeat match goal with
    | a : _ * _ |- _ => destruct a
    | H : update_message_status _ _ _ _ = _ |- _ => injection H as <-
    | H : update_user_state _ _ _ _ _ = _ |- _ => injection H as <-
    | H : upsert_device_state _ _ _ _ = _ |- _ => apply upsert_device_state_inr in H as ->
    end; simpl in *.
  all: apply quiet_done; simpl.
  4: { apply ack_rejected. auto. }
  all: pose proof (ack_applied c0 id uid dev c seq st t _ _ _ _ Hpos H1) as Happ;
    cbv zeta in Happ; rewrite ?H2 in *; simpl in Happ.
  - by rewrite H5 in Happ |- *.
  - by rewrite H5 in Happ |- *.
  - done.
Qed.

Lemma acknowledge_refines s id uid dev c seq st t :
  working s = None →
  let run := execute_acknowledge id uid dev c seq st t s in
  transaction_outcome (ack_effect (committed s) id uid dev c seq st t) (λ _, False)
    (committed s) run.1 (committed run.2).
Proof.
  intros Hs. apply atomic_outcome; [apply acknowledge_atomic|done|]. apply acknowledge_wp.
Qed.

(** ** Friendship *)

Definition befriended (d : database) (f : Friend) (time : string) : database :=
  let uid_a := i64 (Z.min f.(f_uidA) f.(f_uidB)) in
  let uid_b := i64 (Z.max f.(f_uidA) f.(f_uidB)) in
  let c := i64 f.(f_conversationId) in
  set_conversationUserStates
    (<[(c, uid_b) := fresh_state 1]> (<[(c, uid_a) := fresh_state 1]> d.(conversationUserStates)))
  (set_conversations
    (<[c := MkConversationRow 1 (i64 f.(f_friendshipId)) 0 time]> d.(conversations))
  (set_friends
    (<[i64 f.(f_friendshipId) := MkFriendRow uid_a uid_b time]> d.(friends)) d)).

Inductive friend_effect (d : database) (f : Friend) (time : string) : Z → database → Prop :=
  | friend_inserted :
      let uid_a := i64 (Z.min f.(f_uidA) f.(f_uidB)) in
      let uid_b := i64 (Z.max f.(f_uidA) f.(f_uidB)) in
      let c := i64 f.(f_conversationId) in
      friends d !! i64 f.(f_friendshipId) = None →
      (∀ k r, friends d !! k = Some r → is_friend_pair uid_a uid_b r = false) →
      bigint_unsigned c = true → conversations d !! c = None →
      (∀ k r, conversations d !! k = Some r → same_business 1 (i64 f.(f_friendshipId)) r = false) →
      conversationUserStates d !! (c, uid_a) = None →
      conversationUserStates d !! (c, uid_b) = None → uid_a ≠ uid_b →
      friend_effect d f time 0 (befriended d f time).

Lemma insert_friend_wp c z f :
  wp (execute_insert_friend f)
    (quiet_effect (friend_effect c f (am_clock z (am_ticks z))) (λ _, False) c) (idle c z).
Proof.
  unfold execute_insert_friend. wp_run.
  all: try (right; split; [left; by eexists|reflexivity]).
  repeat match goal with
    | H : insert_friendship _ _ _ _ _ = inr (_, _) |- _ => apply insert_friendship_inr in H as (_ & ? & ? & ->)
    | H : insert_conversation _ _ _ _ _ = inr (_, _) |- _ => apply insert_conversation_inr in H as (Hb & ? & ? & ->)
    | H : sql_seq (insert_state ?c ?u ?j) _ ?d = inr (_, _) |- _ =>
        unfold sql_seq in H; destruct (insert_state c u j d) as [|[? []]] eqn:?; [done|]
    | H : insert_state _ _ _ _ = inr (_, _) |- _ => apply insert_state_inr in H as (_ & ? & ->)
    end; simpl in *.
  apply lookup_insert_None in H3 as [? Hne].
  rewrite !andb_true_iff in Hb. destruct Hb as [[Hb _] _].
  apply quiet_done. simpl.
  apply (friend_inserted c f (am_clock z (am_ticks z))); try assumption.
  intros E. apply Hne. f_equal. exact E.
Qed.

Lemma insert_friend_refines s f :
  working s = None →
  let run := execute_insert_friend f s in
  transaction_outcome (friend_effect (committed s) f (clock s (ticks s))) (λ _, False)
    (committed s) run.1 (committed run.2).
Proof.
  intros Hs. apply atomic_outcome; [apply insert_friend_atomic|done|].
  apply (insert_friend_wp _ (ambient_of s)).
Qed.

(** ** Groups *)

(** The result of a group operation that found the group [row]. *)
Definition group_result (error : Z) (g : Z) (row : group_row) (target actor : Z) (joined : string)
    (recipients : list Z) : GroupOperationResult :=
  MkGroupOperation error "" g row.(g_conversationId) row.(g_masterUid) target actor row.(g_name)
    joined recipients [] [].

(** The result of a group operation before it found the group. *)
Definition no_group_result (error g target actor : Z) : GroupOperationResult :=
  MkGroupOperation error "" g 0 0 target actor "" "" [] [] [].

Definition group_created (d : database) (g : GroupManager) : database :=
  set_conversationUserStates
    (<[(g.(gm_conversationId), g.(gm_masterUid)) := fresh_state 1]> d.(conversationUserStates))
  (set_groupMembers
    (<[(g.(gm_groupId), g.(gm_masterUid)) := g.(gm_createTime)]> d.(groupMembers))
  (set_conversations
    (<[g.(gm_conversationId) := MkConversationRow 2 g.(gm_groupId) 0 g.(gm_createTime)]> d.(conversations))
  (set_groupInfo
    (<[g.(gm_groupId) := MkGroupRow g.(gm_masterUid) g.(gm_name) g.(gm_conversationId)
                           g.(gm_createTime)]> d.(groupInfo)) d))).

Inductive create_effect (d : database) (g : GroupManager) : GroupOperationResult → database → Prop :=
  | create_done :
      groupInfo d !! g.(gm_groupId) = None →
      (∀ k r, groupInfo d !! k = Some r → g_conversationId r ≠ g.(gm_conversationId)) →
      bigint_unsigned g.(gm_conversationId) = true →
      conversations d !! g.(gm_conversationId) = None →
      (∀ k r, conversations d !! k = Some r → same_business 2 g.(gm_groupId) r = false) →
      groupMembers d !! (g.(gm_groupId), g.(gm_masterUid)) = None →
      conversationUserStates d !! (g.(gm_conversationId), g.(gm_masterUid)) = None →
      create_effect d g
        (MkGroupOperation Success "" g.(gm_groupId) g.(gm_conversationId) g.(gm_masterUid)
           g.(gm_masterUid) 0 g.(gm_name) "" [] [] []) (group_created d g).

Lemma create_group_wp c z g :
  wp (execute_create_group g)
    (quiet_effect (create_effect c g) (λ r, go_error r = MysqlFailed) c) (idle c z).
Proof.
  unfold execute_create_group, group_catch. wp_run.
  all: try (apply quiet_failed; reflexivity).
  apply insert_group_inr in H1 as (_ & ? & ? & ->).
  apply insert_conversation_inr in H2 as (Hb & ? & ? & ->).
  rewrite !andb_true_iff in Hb. destruct Hb as [[? _] _].
  apply insert_member_inr in H3 as (_ & ? & ->).
  apply insert_state_inr in H4 as (_ & ? & ->).
  apply quiet_done. by apply create_done.
Qed.

Lemma create_group_refines s g :
  working s = None →
  let run := execute_create_group g s in
  transaction_outcome (create_effect (committed s) g) (λ r, go_error r = MysqlFailed)
    (committed s) run.1 (committed run.2).
Proof.
  intros Hs. apply atomic_outcome; [apply create_group_atomic|done|]. apply create_group_wp.
Qed.

(** request_group_join: a first application is stored and its recipient is the
    owner; a repeated one changes nothing and has no recipient. *)
Inductive request_effect (d : database) (g uid : Z) (message now : string) :
    GroupOperationResult → database → Prop :=
  | request_no_group :
      groupInfo d !! g = None →
      request_effect d g uid message now (no_group_result GroupNotExists g uid uid) d
  | request_member row :
      groupInfo d !! g = Some row → is_Some (groupMembers d !! (g, uid)) →
      request_effect d g uid message now
        (MkGroupOperation GroupAlreadyExists "" g 0 row.(g_masterUid) uid uid row.(g_name) "" [] [] []) d
  | request_repeated row :
      groupInfo d !! g = Some row → groupMembers d !! (g, uid) = None →
      is_Some (groupApplys d !! (clamp_unsigned g, clamp_unsigned uid)) →
      request_effect d g uid message now
        (MkGroupOperation Success "" g 0 row.(g_masterUid) uid uid row.(g_name) "" [] [] []) d
  | request_new row :
      groupInfo d !! g = Some row → groupMembers d !! (g, uid) = None →
      groupApplys d !! (clamp_unsigned g, clamp_unsigned uid) = None →
      request_effect d g uid message now
        (MkGroupOperation Success "" g 0 row.(g_masterUid) uid uid row.(g_name) ""
           [row.(g_masterUid)] [] [])
        (set_groupApplys (<[(clamp_unsigned g, clamp_unsigned uid) := MkGroupApplyRow message now]>
                            d.(groupApplys)) d).

Lemma request_group_join_wp c z g u m n :
  wp (execute_request_group_join g u m n)
    (quiet_effect (request_effect c g u m n) (λ r, go_error r = MysqlFailed) c) (idle c z).
Proof.
  unfold execute_request_group_join, group_catch, group_reject, select_group, select_member. wp_run.
  all: try (apply quiet_failed; reflexivity).
  all: apply quiet_done; simpl.
  all: rewrite ?bool_decide_eq_true, ?bool_decide_eq_false, <- ?eq_None_not_Some in *.
  all: try match goal with H : insert_group_apply_ignore _ _ _ _ _ = _ |- _ =>
         unfold insert_group_apply_ignore in H; case_match; simplify_eq/= end.
  - by apply (request_member _ _ _ _ _ a).
  - by apply (request_new _ _ _ _ _ a).
  - apply (request_repeated _ _ _ _ _ a); eauto.
  - by apply request_no_group.
Qed.

Lemma request_group_join_refines s g u m n :
  working s = None →
  let run := execute_request_group_join g u m n s in
  transaction_outcome (request_effect (committed s) g u m n) (λ r, go_error r = MysqlFailed)
    (committed s) run.1 (committed run.2).
Proof.
  intros Hs. apply atomic_outcome; [apply request_group_join_atomic|done|].
  apply request_group_join_wp.
Qed.

(** reply_group_join. *)
Definition apply_removed (d : database) (g uid : Z) : database :=
  set_groupApplys (delete (g, uid) d.(groupApplys)) d.

Definition joined (d : database) (g c uid : Z) (conv : conversation_row) (now : string) : database :=
  set_conversationUserStates
    (<[(c, uid) := fresh_state (conv.(cv_latestSeq) + 1)]> d.(conversationUserStates))
  (set_groupMembers (<[(g, uid) := now]> d.(groupMembers)) (apply_removed d g uid)).

Inductive reply_effect (d : database) (g actor requestor : Z) (accept : bool) (now : string) :
    GroupOperationResult → database → Prop :=
  | reply_no_group :
      groupInfo d !! g = None →
      reply_effect d g actor requestor accept now (no_group_result GroupNotExists g requestor actor) d
  | reply_not_master row :
      groupInfo d !! g = Some row → row.(g_masterUid) ≠ actor →
      reply_effect d g actor requestor accept now
        (group_result MessageOwnershipInvalid g row requestor actor "" []) d
  | reply_not_found row :
      groupInfo d !! g = Some row → row.(g_masterUid) = actor →
      groupApplys d !! (g, requestor) = None →
      reply_effect d g actor requestor accept now (group_result NotFound g row requestor actor "" []) d
  | reply_refused row :
      groupInfo d !! g = Some row → row.(g_masterUid) = actor →
      is_Some (groupApplys d !! (g, requestor)) → accept = false →
      reply_effect d g actor requestor accept now
        (group_result Success g row requestor actor "" [requestor]) (apply_removed d g requestor)
  | reply_joined row conv :
      groupInfo d !! g = Some row → row.(g_masterUid) = actor →
      is_Some (groupApplys d !! (g, requestor)) → accept = true →
      groupMembers d !! (g, requestor) = None →
      conversations d !! row.(g_conversationId) = Some conv →
      conversationUserStates d !! (row.(g_conversationId), requestor) = None →
      (0 ≤ conv.(cv_latestSeq) + 1)%Z →
      let d' := joined d g row.(g_conversationId) requestor conv now in
      reply_effect d g actor requestor accept now
        (group_result Success g row requestor actor now (members_of d' g (λ _, true))) d'
  | reply_joined_orphan row :
      groupInfo d !! g = Some row → row.(g_masterUid) = actor →
      is_Some (groupApplys d !! (g, requestor)) → accept = true →
      groupMembers d !! (g, requestor) = None →
      conversations d !! row.(g_conversationId) = None →
      let d' := set_groupMembers (<[(g, requestor) := now]> d.(groupMembers)) (apply_removed d g requestor) in
      reply_effect d g actor requestor accept now
        (group_result Success g row requestor actor now (members_of d' g (λ _, true))) d'.

Lemma foldl_push_go l r :
  foldl (λ r u, push_go_recipient u r) r l =
  MkGroupOperation r.(go_error) r.(go_diagnostic) r.(go_groupId) r.(go_conversationId) r.(go_masterUid)
    r.(go_targetUid) r.(go_actorUid) r.(go_groupName) r.(go_targetJoinTime)
    (r.(go_recipientUids) ++ l) r.(go_members) r.(go_applies).
Proof.
  revert r. induction l as [|u l IH]; intros [] ; simpl; [by rewrite app_nil_r|].
  rewrite IH. simpl. by rewrite <- app_assoc.
Qed.

Lemma reply_group_join_wp c z g a r b n :
  wp (execute_reply_group_join g a r b n)
    (quiet_effect (reply_effect c g a r b n) (λ r, go_error r = MysqlFailed) c) (idle c z).
Proof.
  unfold execute_reply_group_join, group_catch, group_reject, select_group, select_apply,
    select_members.
  repeat first [ apply (wp_forM_push group_pending push_go_recipient); [done|done| |intros ? ?]
               | wp_step ].
  all: try (apply quiet_failed; [done|reflexivity]).
  all: apply quiet_done; simpl; rewrite ?foldl_push_go; simpl.
  all: rewrite ?bool_decide_eq_true, ?bool_decide_eq_false, ?negb_true_iff, ?negb_false_iff,
         ?Z.eqb_eq, ?Z.eqb_neq, ?not_eq_None_Some in *.
  - by apply (reply_not_master _ _ _ _ _ _ a0).
  - by apply (reply_not_found _ _ _ _ _ _ a0).
  - injection H6 as <- <-. apply insert_member_inr in H8 as (_ & ? & ->).
    unfold insert_state_at_latest in H9. simpl in *.
    destruct (conversations c !! g_conversationId a0) as [conv|] eqn:Hconv.
    + apply insert_state_inr in H9 as (Hb & ? & ->). simpl in *.
      apply (reply_joined _ _ _ _ _ _ a0 conv); try done.
      apply andb_true_iff in Hb as [_ Hb]. apply bool_decide_eq_true in Hb. lia.
    + injection H9 as <- <-. by apply (reply_joined_orphan _ _ _ _ _ _ a0).
  - injection H6 as <- <-. by apply (reply_refused _ _ _ _ _ _ a0).
  - by apply reply_no_group.
Qed.

Lemma reply_group_join_refines s g a r b n :
  working s = None →
  let run := execute_reply_group_join g a r b n s in
  transaction_outcome (reply_effect (committed s) g a r b n) (λ r, go_error r = MysqlFailed)
    (committed s) run.1 (committed run.2).
Proof.
  intros Hs. apply atomic_outcome; [apply reply_group_join_atomic|done|].
  apply reply_group_join_wp.
Qed.

(** remove_group_member. *)
Definition dissolved (d : database) (g c : Z) : database :=
  set_groupInfo (delete g d.(groupInfo))
  (set_groupMembers (filter (λ km, km.1.1 ≠ g) d.(groupMembers))
  (set_groupApplys (filter (λ ka, ka.1.1 ≠ g) d.(groupApplys))
  (set_conversationUserStates (filter (λ ks, ks.1.1 ≠ c) d.(conversationUserStates)) d))).

Definition member_removed (d : database) (g c uid : Z) : database :=
  set_groupMembers (delete (g, uid) d.(groupMembers))
  (set_conversationUserStates (delete (c, uid) d.(conversationUserStates)) d).

Inductive remove_effect (d : database) (g actor target : Z) (dissolve : bool) :
    GroupOperationResult → database → Prop :=
  | remove_no_group :
      groupInfo d !! g = None →
      remove_effect d g actor target dissolve (no_group_result GroupNotExists g target actor) d
  | remove_not_allowed row :
      groupInfo d !! g = Some row → actor ≠ row.(g_masterUid) → actor ≠ target →
      remove_effect d g actor target dissolve
        (group_result MessageOwnershipInvalid g row target actor "" []) d
  | remove_not_member row :
      groupInfo d !! g = Some row → (actor = row.(g_masterUid) ∨ actor = target) →
      groupMembers d !! (g, target) = None →
      remove_effect d g actor target dissolve (group_result NotFound g row target actor "" []) d
  | remove_dissolved row :
      groupInfo d !! g = Some row → (actor = row.(g_masterUid) ∨ actor = target) →
      is_Some (groupMembers d !! (g, target)) → target = row.(g_masterUid) → dissolve = true →
      remove_effect d g actor target dissolve
        (group_result Success g row target actor "" (members_of d g (λ _, true)))
        (dissolved d g row.(g_conversationId))
  | remove_one row :
      groupInfo d !! g = Some row → (actor = row.(g_masterUid) ∨ actor = target) →
      is_Some (groupMembers d !! (g, target)) → (target ≠ row.(g_masterUid) ∨ dissolve = false) →
      remove_effect d g actor target dissolve
        (group_result Success g row target actor "" (members_of d g (λ _, true)))
        (member_removed d g row.(g_conversationId) target).

Lemma remove_group_member_wp c z g a t b :
  wp (execute_remove_group_member g a t b)
    (quiet_effect (remove_effect c g a t b) (λ r, go_error r = MysqlFailed) c) (idle c z).
Proof.
  unfold execute_remove_group_member, group_catch, group_reject, select_group, select_member,
    select_members.
  repeat first [ apply (wp_forM_push group_pending push_go_recipient); [done|done| |intros ? ?]
               | wp_step ].
  all: try (apply quiet_failed; [done|reflexivity]).
  all: apply quiet_done; simpl; rewrite ?foldl_push_go; simpl.
  all: rewrite ?bool_decide_eq_true, ?bool_decide_eq_false, ?andb_true_iff, ?andb_false_iff,
         ?negb_true_iff, ?negb_false_iff, ?Z.eqb_eq, ?Z.eqb_neq, ?not_eq_None_Some in *.
  all: repeat match goal with H : _ = inr (_, _) |- _ => injection H as <- end.
  - destruct H4. by apply (remove_not_allowed _ _ _ _ _ a0).
  - naive_solver.
  - by apply (remove_not_member _ _ _ _ _ a0).
  - destruct H7 as [Hm Hb]. exact (remove_dissolved c g a t b a0 H1 H4 H6 Hm Hb).
  - exact (remove_one c g a t b a0 H1 H4 H6 H7).
  - by apply remove_no_group.
Qed.

Lemma remove_group_member_refines s g a t b :
  working s = None →
  let run := execute_remove_group_member g a t b s in
  transaction_outcome (remove_effect (committed s) g a t b) (λ r, go_error r = MysqlFailed)
    (committed s) run.1 (committed run.2).
Proof.
  intros Hs. apply atomic_outcome; [apply remove_group_member_atomic|done|].
  apply remove_group_member_wp.
Qed.

End group_spec.
