(* ===== verification/StoreInvariant.v ===== *)
(** * The invariant of the message database

    What the tables of the Message core satisfy in every state the store can
    reach: positions of a conversation are exactly 1..latestSeq, each held by
    one message; a client id names at most one message of its sender; cursors
    stay within the conversation; group membership and conversation state agree. *)

From S2P Require Import Prelude Codec Schema Records MysqlStore Atomicity Wp StoreSpec GroupSpec.
Import db.

Section invariant.
Context `{!MysqlServer} `{!StdHash}.

(** ** Positions *)
Record sequence_ok (convs : gmap Z conversation_row) (msgs : gmap Z message_row) : Prop := {
  seq_latest c cv : convs !! c = Some cv → (0 ≤ cv_latestSeq cv)%Z;
  seq_bound id m : msgs !! id = Some m →
    ∃ cv, convs !! m_conversationId m = Some cv ∧ (1 ≤ m_conversationSeq m ≤ cv_latestSeq cv)%Z;
  seq_unique id id' m m' : msgs !! id = Some m → msgs !! id' = Some m' →
    m_conversationId m = m_conversationId m' → m_conversationSeq m = m_conversationSeq m' → id = id';
  seq_dense c cv q : convs !! c = Some cv → (1 ≤ q ≤ cv_latestSeq cv)%Z →
    ∃ id m, msgs !! id = Some m ∧ m_conversationId m = c ∧ m_conversationSeq m = q;
  seq_client id id' m m' s x : msgs !! id = Some m → msgs !! id' = Some m' →
    is_duplicate s x m = true → is_duplicate s x m' = true → id = id'
}.

(** ** Cursors *)
Definition state_ok (cv : conversation_row) (st : user_state_row) : Prop :=
  (1 ≤ us_joinedSeq st ≤ cv_latestSeq cv + 1)%Z ∧
  (0 ≤ us_readSeq st ≤ us_deliveredSeq st)%Z ∧ (us_deliveredSeq st ≤ cv_latestSeq cv)%Z.

Definition states_ok (convs : gmap Z conversation_row) (states : gmap (Z * Z) user_state_row) : Prop :=
  ∀ c u st, states !! (c, u) = Some st → ∃ cv, convs !! c = Some cv ∧ state_ok cv st.

(** ** Groups: members of a group are the users with a state in its conversation. *)
Record groups_ok (convs : gmap Z conversation_row) (states : gmap (Z * Z) user_state_row)
    (groups : gmap Z group_row) (mems : gmap (Z * Z) string) : Prop := {
  grp_conversation g row : groups !! g = Some row →
    ∃ cv, convs !! g_conversationId row = Some cv ∧ cv_type cv = 2%Z ∧ cv_businessId cv = g;
  grp_master g row : groups !! g = Some row → is_Some (mems !! (g, g_masterUid row));
  grp_member g u : is_Some (mems !! (g, u)) →
    ∃ row, groups !! g = Some row ∧ is_Some (states !! (g_conversationId row, u));
  grp_state c u cv : is_Some (states !! (c, u)) → convs !! c = Some cv → cv_type cv = 2%Z →
    ∃ row, groups !! cv_businessId cv = Some row ∧ g_conversationId row = c ∧
           is_Some (mems !! (cv_businessId cv, u))
}.

(** ** Friendships *)
Record friends_ok (convs : gmap Z conversation_row) (frs : gmap Z friend_row) : Prop := {
  fr_conversation f row : frs !! f = Some row →
    ∃ c cv, convs !! c = Some cv ∧ cv_type cv = 1%Z ∧ cv_businessId cv = f;
  fr_unique f f' row row' : frs !! f = Some row → frs !! f' = Some row' →
    fr_uidA row = fr_uidA row' → fr_uidB row = fr_uidB row' → f = f'
}.

(** uk_conversations_type_business. *)
Definition business_ok (convs : gmap Z conversation_row) : Prop :=
  ∀ c c' cv cv', convs !! c = Some cv → convs !! c' = Some cv' →
    cv_type cv = cv_type cv' → cv_businessId cv = cv_businessId cv' → c = c'.

(** conversationId is BIGINT UNSIGNED. *)
Definition keys_ok (convs : gmap Z conversation_row) : Prop :=
  ∀ c, is_Some (convs !! c) → (0 ≤ c < two64)%Z.

Record store_ok (d : database) : Prop := {
  ok_keys : keys_ok (conversations d);
  ok_sequence : sequence_ok (conversations d) (messages d);
  ok_states : states_ok (conversations d) (conversationUserStates d);
  ok_groups : groups_ok (conversations d) (conversationUserStates d) (groupInfo d) (groupMembers d);
  ok_friends : friends_ok (conversations d) (friends d);
  ok_business : business_ok (conversations d)
}.

(** ** Table updates that preserve the parts *)

(** Two conversation tables that differ at most in latestSeq, which does not decrease. *)
Definition grows (convs convs' : gmap Z conversation_row) : Prop :=
  (∀ c cv, convs !! c = Some cv → ∃ cv', convs' !! c = Some cv' ∧ cv_type cv' = cv_type cv ∧
     cv_businessId cv' = cv_businessId cv ∧ (cv_latestSeq cv ≤ cv_latestSeq cv')%Z) ∧
  (∀ c cv', convs' !! c = Some cv' → is_Some (convs !! c)).

Lemma grows_latest convs c row q :
  convs !! c = Some row → (cv_latestSeq row ≤ q)%Z →
  grows convs (<[c := set_latestSeq q row]> convs).
Proof.
  intros Hc Hq. split.
  - intros c' cv Hcv. destruct (decide (c' = c)) as [->|Hne].
    + rewrite lookup_insert_eq. simplify_eq. eexists. split_and!; done.
    + rewrite lookup_insert_ne by done. exists cv. by split_and!.
  - intros c' cv' Hcv. destruct (decide (c' = c)) as [->|Hne]; [eauto|].
    rewrite lookup_insert_ne in Hcv by done. eauto.
Qed.

Lemma grows_inv convs convs' c cv' : grows convs convs' → convs' !! c = Some cv' →
  ∃ cv, convs !! c = Some cv ∧ cv_type cv' = cv_type cv ∧ cv_businessId cv' = cv_businessId cv ∧
        (cv_latestSeq cv ≤ cv_latestSeq cv')%Z.
Proof.
  intros [H1 H2] Hc. destruct (H2 _ _ Hc) as [cv Hcv].
  destruct (H1 _ _ Hcv) as (cv'' & E & ?). rewrite Hc in E. simplify_eq. eauto.
Qed.

Lemma states_grow convs convs' states : grows convs convs' → states_ok convs states → states_ok convs' states.
Proof.
  intros Hg Hs c u st Hst. destruct (Hs _ _ _ Hst) as (cv & Hcv & (? & ? & ?)).
  destruct Hg as [Hg _]. destruct (Hg _ _ Hcv) as (cv' & ? & ? & ? & ?).
  exists cv'. split; [done|]. unfold state_ok. lia.
Qed.

Lemma groups_grow convs convs' states groups mems :
  grows convs convs' → groups_ok convs states groups mems → groups_ok convs' states groups mems.
Proof.
  intros Hg [H1 H2 H3 H4]. split; [|done|done|].
  - intros g row Hrow. destruct (H1 _ _ Hrow) as (cv & Hcv & ? & ?). destruct Hg as [Hg _].
    destruct (Hg _ _ Hcv) as (cv' & ? & ? & ? & ?). exists cv'. split_and!; congruence.
  - intros c u cv' Hst Hcv' Ht. destruct (grows_inv _ _ _ _ Hg Hcv') as (cv & Hcv & E1 & E2 & _).
    rewrite E2. apply (H4 c u cv); congruence.
Qed.

Lemma friends_grow convs convs' frs : grows convs convs' → friends_ok convs frs → friends_ok convs' frs.
Proof.
  intros [Hg _] [H1 H2]. split; [|done]. intros f row Hf.
  destruct (H1 _ _ Hf) as (c & cv & Hcv & ? & ?). destruct (Hg _ _ Hcv) as (cv' & ? & ? & ? & ?).
  exists c, cv'. split_and!; congruence.
Qed.

Lemma business_grow convs convs' : grows convs convs' → business_ok convs → business_ok convs'.
Proof.
  intros Hg Hb c c' cv cv' H1 H2 E1 E2.
  destruct (grows_inv _ _ _ _ Hg H1) as (x & ? & ? & ? & _).
  destruct (grows_inv _ _ _ _ Hg H2) as (y & ? & ? & ? & _).
  apply (Hb c c' x y); congruence.
Qed.

Lemma keys_grow convs convs' : grows convs convs' → keys_ok convs → keys_ok convs'.
Proof. intros [_ Hg] Hk c [cv Hc]. apply Hk. by eapply Hg. Qed.

(** A message appended at the next position. *)
Lemma sequence_append convs msgs c row id m :
  sequence_ok convs msgs → convs !! c = Some row → msgs !! id = None →
  m_conversationId m = c → m_conversationSeq m = (cv_latestSeq row + 1)%Z →
  (∀ k m' s x, msgs !! k = Some m' → is_duplicate s x m = true → is_duplicate s x m' = false) →
  sequence_ok (<[c := set_latestSeq (m_conversationSeq m) row]> convs) (<[id := m]> msgs).
Proof.
  intros [Hl Hb Hu Hd Hc] Hrow Hid Ec Eq Hdup. pose proof (Hl _ _ Hrow).
  assert (∀ k m', msgs !! k = Some m' → m_conversationId m' = c →
            (m_conversationSeq m' ≤ cv_latestSeq row)%Z) as Hold.
  { intros k m' Hk E. destruct (Hb _ _ Hk) as (cv & Hcv & ?). rewrite E, Hrow in Hcv.
    simplify_eq. lia. }
  split.
  - intros c' cv [[-> <-]|[? Hcv]]%lookup_insert_Some; [simpl; lia|eauto].
  - intros k m' [[-> <-]|[? Hk]]%lookup_insert_Some.
    + rewrite Ec, lookup_insert_eq. eexists. split; [done|]. simpl. lia.
    + destruct (Hb _ _ Hk) as (cv & Hcv & ?). destruct (decide (m_conversationId m' = c)) as [E|E].
      * rewrite E, lookup_insert_eq. eexists. split; [done|]. simpl. pose proof (Hold _ _ Hk E). lia.
      * rewrite lookup_insert_ne by done. eauto.
  - intros k k' m1 m2 [[-> <-]|[? Hk]]%lookup_insert_Some [[-> <-]|[? Hk']]%lookup_insert_Some E1 E2;
      [done|..|eauto].
    + pose proof (Hold _ _ Hk' ltac:(congruence)). lia.
    + pose proof (Hold _ _ Hk ltac:(congruence)). lia.
  - intros c' cv q [[-> <-]|[? Hcv]]%lookup_insert_Some Hq.
    + simpl in Hq. destruct (decide (q = cv_latestSeq row + 1)%Z) as [->|Hne].
      * exists id, m. rewrite lookup_insert_eq. auto.
      * destruct (Hd c' row q Hrow) as (k & m' & Hk & ? & ?); [lia|].
        exists k, m'. rewrite lookup_insert_ne by congruence. auto.
    + destruct (Hd c' cv q Hcv Hq) as (k & m' & Hk & ? & ?).
      exists k, m'. rewrite lookup_insert_ne by congruence. auto.
  - intros k k' m1 m2 s x [[-> <-]|[? Hk]]%lookup_insert_Some [[-> <-]|[? Hk']]%lookup_insert_Some D1 D2;
      [done|..|eauto].
    + rewrite (Hdup _ _ _ _ Hk' D1) in D2. done.
    + rewrite (Hdup _ _ _ _ Hk D2) in D1. done.
Qed.

(** A new, empty conversation. *)
Lemma sequence_new_conversation convs msgs c t b time :
  sequence_ok convs msgs → convs !! c = None →
  sequence_ok (<[c := MkConversationRow t b 0 time]> convs) msgs.
Proof.
  intros [Hl Hb Hu Hd Hc] Hn. split; try done.
  - intros c' cv [[-> <-]|[? ?]]%lookup_insert_Some; [done|eauto].
  - intros k m Hk. destruct (Hb _ _ Hk) as (cv & Hcv & ?). exists cv.
    rewrite lookup_insert_ne by congruence. auto.
  - intros c' cv q [[-> <-]|[? ?]]%lookup_insert_Some Hq; [simpl in Hq; lia|eauto].
Qed.

(** Updates that keep conversation, position, sender and client id of every message. *)
Lemma sequence_alter convs msgs f id :
  (∀ m, m_conversationId (f m) = m_conversationId m ∧ m_conversationSeq (f m) = m_conversationSeq m ∧
        m_senderId (f m) = m_senderId m ∧ m_clientMessageId (f m) = m_clientMessageId m) →
  sequence_ok convs msgs → sequence_ok convs (alter f id msgs).
Proof.
  intros Hf [Hl Hb Hu Hd Hc].
  assert (∀ k m', alter f id msgs !! k = Some m' → ∃ m, msgs !! k = Some m ∧
    m_conversationId m' = m_conversationId m ∧ m_conversationSeq m' = m_conversationSeq m ∧
    ∀ s x, is_duplicate s x m' = is_duplicate s x m) as Hinv.
  { intros k m'. destruct (decide (k = id)) as [->|Hne].
    - rewrite lookup_alter_eq. destruct (msgs !! id) as [m|]; [|done]. intros [= <-].
      destruct (Hf m) as (? & ? & E1 & E2). exists m. split_and!; try done.
      intros s x. unfold is_duplicate. by rewrite E1, E2.
    - rewrite lookup_alter_ne by done. eauto. }
  split; [done|..].
  - intros k m' (m & Hk & -> & -> & _)%Hinv. eauto.
  - intros k k' m1 m2 (x & Hx & E1 & E2 & _)%Hinv (y & Hy & E3 & E4 & _)%Hinv ? ?.
    apply (Hu k k' x y); congruence.
  - intros c cv q Hcv Hq. destruct (Hd _ _ _ Hcv Hq) as (k & m & Hk & E1 & E2).
    destruct (decide (k = id)) as [->|Hne].
    + destruct (Hf m) as (? & ? & _ & _). exists id, (f m).
      rewrite lookup_alter_eq, Hk. split_and!; [done|congruence|congruence].
    + exists k, m. rewrite lookup_alter_ne by done. auto.
  - intros k k' m1 m2 s x (y & Hy & _ & _ & E1)%Hinv (y' & Hy' & _ & _ & E2)%Hinv.
    rewrite E1, E2. eauto.
Qed.

(** A fresh state row. *)
Lemma states_insert convs states c u cv joined :
  states_ok convs states → convs !! c = Some cv → (0 ≤ cv_latestSeq cv)%Z →
  (1 ≤ joined ≤ cv_latestSeq cv + 1)%Z → states_ok convs (<[(c, u) := fresh_state joined]> states).
Proof.
  intros Hs Hcv Hl Hj c' u' st [[[= <- <-] <-]|[? Hst]]%lookup_insert_Some; [|by eapply Hs].
  exists cv. split; [done|]. unfold state_ok. simpl. lia.
Qed.

Lemma groups_insert_direct_state convs states groups mems c u cv st :
  groups_ok convs states groups mems → convs !! c = Some cv → cv_type cv ≠ 2%Z →
  groups_ok convs (<[(c, u) := st]> states) groups mems.
Proof.
  intros [H1 H2 H3 H4] Hcv Ht. split; [done|done|..].
  - intros g x Hm. destruct (H3 _ _ Hm) as (row & ? & ?). exists row. split; [done|].
    apply lookup_insert_is_Some. by destruct (decide ((c, u) = (g_conversationId row, x))); [left|right].
  - intros c' u' cv' [[= <- <-]|[_ Hst]]%lookup_insert_is_Some Hcv' Ht'; [congruence|eauto].
Qed.

Lemma with_state_ok d c u cv :
  store_ok d → conversations d !! c = Some cv → cv_type cv ≠ 2%Z →
  store_ok (set_conversationUserStates
              (insert_state_ignore (conversationUserStates d) (c, u)) d).
Proof.
  intros [Hk Hseq Hst Hg Hf Hb] Hcv Ht. unfold insert_state_ignore. simpl.
  assert (clamp_unsigned c = c) as -> by (destruct (Hk c); [eauto|]; unfold clamp_unsigned; lia).
  destruct (conversationUserStates d !! (c, clamp_unsigned u)); [by split|].
  pose proof (seq_latest _ _ Hseq _ _ Hcv).
  split; simpl; try done.
  - eapply states_insert; [done..|]. lia.
  - by eapply groups_insert_direct_state.
Qed.

Lemma with_states_ok d c us cv :
  store_ok d → conversations d !! c = Some cv → cv_type cv ≠ 2%Z →
  store_ok (with_states d (map (pair c) us)).
Proof.
  intros Hd Hcv Ht. unfold with_states. revert d Hd Hcv.
  induction us as [|u us IH]; intros d Hd Hcv; simpl; [by destruct d|].
  exact (IH _ (with_state_ok d c u cv Hd Hcv Ht) Hcv).
Qed.

Lemma direct_conversation_Some d a b c :
  direct_conversation d a b = Some c →
  ∃ cv f, conversations d !! c = Some cv ∧ cv_type cv = 1%Z ∧
    friends d !! cv_businessId cv = Some f ∧ fr_uidA f = a ∧ fr_uidB f = b.
Proof.
  unfold direct_conversation. intros ([c' cv] & Hh & ->)%fmap_Some_inv. simpl.
  apply select_head_Some in Hh as [Hcv [Ht Hf]%andb_true_iff].
  destruct (friends d !! cv_businessId cv) as [f|] eqn:E; [|done].
  unfold is_friend_pair in Hf. apply andb_true_iff in Hf as [Ha Hb].
  exists cv, f. split_and!; try done; by apply Z.eqb_eq.
Qed.

Lemma is_duplicate_trans s x sender client m m' :
  m_senderId m = sender → m_clientMessageId m = Some client →
  is_duplicate s x m = true → is_duplicate sender client m' = false → is_duplicate s x m' = false.
Proof.
  unfold is_duplicate, sql_eq. intros -> -> [Es Ew]%andb_true_iff Hf.
  apply Z.eqb_eq in Es as ->. apply bool_decide_eq_true in Ew. by rewrite <- Ew.
Qed.

Lemma append_effect_ok d id c s r i x ty tm dup mid seq d' :
  store_ok d → append_effect d id c s r i x ty tm dup mid seq d' → store_ok d'.
Proof.
  intros [Hk Hseq Hst Hg Hf Hb]. destruct 1 as [|row m Hrow Hr Hin Hid Hall]; [by split|].
  assert (grows (conversations d) (<[c := set_latestSeq (m_conversationSeq m) row]> (conversations d)))
    as Hgrow by (apply grows_latest; [done|simpl; lia]).
  split; simpl.
  - by eapply keys_grow.
  - apply (sequence_append _ _ c row id m); try done. intros k m' s' x' Hm' D.
    eapply (is_duplicate_trans s' x' s i m); [done|done|done|]. by apply (Hall k).
  - by eapply states_grow.
  - by eapply groups_grow.
  - by eapply friends_grow.
  - by eapply business_grow.
Qed.

Lemma direct_effect_ok d id s r i x ty tm a d' :
  store_ok d → direct_effect d id s r i x ty tm a d' → store_ok d'.
Proof.
  intros Hd. destruct 1 as [|c mid m|c dup mid seq d' Hc Happ]; [done|done|].
  destruct (direct_conversation_Some _ _ _ _ Hc) as (cv & f & Hcv & Ht & _).
  eapply append_effect_ok; [|done].
  apply (with_states_ok d c [s; r] cv); [done|done|lia].
Qed.

Lemma group_message_effect_ok d id s g i x ty tm b a d' :
  store_ok d → group_message_effect d id s g i x ty tm b a d' → store_ok d'.
Proof.
  intros Hd. destruct 1 as [| | |c dup mid seq d' Hc Hf Happ]; try done. by eapply append_effect_ok.
Qed.

(** ** Acknowledgement *)

Lemma owner_of_Some d uid dev id c seq t r sd old :
  owner_of d uid dev id c seq = Some (t, r, sd, old) →
  ∃ m cv, messages d !! id = Some m ∧ conversations d !! c = Some cv ∧
    is_Some (conversationUserStates d !! (c, uid)) ∧ m_conversationId m = c ∧
    m_conversationSeq m = seq ∧ cv_type cv = t ∧ m_receiverId m = r ∧ m_senderId m = sd ∧
    m_status m = old.
Proof.
  unfold owner_of.
  destruct (messages d !! id) as [m|] eqn:E1; simpl; [|done].
  destruct (conversations d !! c) as [cv|] eqn:E2; simpl; [|done].
  destruct (conversationUserStates d !! (c, uid)) as [st|] eqn:E3; simpl; [|done].
  destruct (devices d !! weight dev) as [dv|] eqn:E4; simpl; [|done].
  destruct (_ && _ && _) eqn:E5; [|done]. intros [= <- <- <- <-].
  rewrite !andb_true_iff, !Z.eqb_eq in E5. exists m, cv. naive_solver.
Qed.

Lemma states_advance convs states c u seq st cv :
  states_ok convs states → convs !! c = Some cv → (1 ≤ seq ≤ cv_latestSeq cv)%Z →
  states_ok convs (alter (advance_state seq st) (c, u) states).
Proof.
  intros Hs Hcv Hseq c' u' st'. destruct (decide ((c', u') = (c, u))) as [[= -> ->]|Hne].
  - rewrite lookup_alter_eq. destruct (states !! (c, u)) as [x|] eqn:E; [|done]. intros [= <-].
    destruct (Hs _ _ _ E) as (cv' & Hcv' & ?). rewrite Hcv in Hcv'. simplify_eq.
    exists cv'. split; [done|]. unfold state_ok, advance_state in *. simpl.
    destruct (st =? 3)%Z; lia.
  - rewrite lookup_alter_ne by done. by apply Hs.
Qed.

Lemma groups_alter_states convs states groups mems f k :
  groups_ok convs states groups mems → groups_ok convs (alter f k states) groups mems.
Proof.
  intros [H1 H2 H3 H4]. split; [done|done|..].
  - intros g u Hm. destruct (H3 _ _ Hm) as (row & ? & ?). exists row. by rewrite lookup_alter_is_Some.
  - intros c u cv. rewrite lookup_alter_is_Some. apply H4.
Qed.

Lemma ack_effect_ok d id uid dev c seq st t a d' :
  store_ok d → ack_effect d id uid dev c seq st t a d' → store_ok d'.
Proof.
  intros [Hk Hseq Hst Hg Hf Hb]. destruct 1 as [|type r sd old Hpos Ho direct]; [by split|].
  destruct (owner_of_Some _ _ _ _ _ _ _ _ _ _ Ho) as (m & cv & Hm & Hcv & _ & Ec & Es & _).
  destruct (seq_bound _ _ Hseq _ _ Hm) as (cv' & Hcv' & Hbound). rewrite Ec, Hcv in Hcv'. simplify_eq.
  unfold acknowledged. destruct direct; split; simpl; try done.
  - by apply sequence_alter.
  - by eapply states_advance.
  - by apply groups_alter_states.
  - by eapply states_advance.
  - by apply groups_alter_states.
Qed.

(** ** New conversations *)

Lemma states_new_conversation convs states c row :
  states_ok convs states → convs !! c = None → states_ok (<[c := row]> convs) states.
Proof.
  intros Hs Hn c' u st Hst. destruct (Hs _ _ _ Hst) as (cv & Hcv & ?).
  exists cv. rewrite lookup_insert_ne by congruence. auto.
Qed.

Lemma groups_new_conversation convs states groups mems c row :
  groups_ok convs states groups mems → states_ok convs states → convs !! c = None →
  groups_ok (<[c := row]> convs) states groups mems.
Proof.
  intros [H1 H2 H3 H4] Hs Hn. split; [|done|done|].
  - intros g r Hr. destruct (H1 _ _ Hr) as (cv & Hcv & ?). exists cv.
    rewrite lookup_insert_ne by congruence. auto.
  - intros c' u cv Hst [[-> _]|[? Hcv]]%lookup_insert_Some; [|by apply H4].
    destruct Hst as [st Hst]. destruct (Hs _ _ _ Hst) as (? & ? & _). congruence.
Qed.

Lemma friends_new_conversation convs frs c row :
  friends_ok convs frs → convs !! c = None → friends_ok (<[c := row]> convs) frs.
Proof.
  intros [H1 H2] Hn. split; [|done]. intros f r Hr. destruct (H1 _ _ Hr) as (c' & cv & Hcv & ?).
  exists c', cv. rewrite lookup_insert_ne by congruence. auto.
Qed.

Lemma business_new_conversation convs c t b l time :
  business_ok convs → (∀ k r, convs !! k = Some r → same_business t b r = false) →
  business_ok (<[c := MkConversationRow t b l time]> convs).
Proof.
  intros Hb Hall.
  assert (∀ k r, convs !! k = Some r → cv_type r = t → cv_businessId r = b → False) as Hno.
  { intros k r Hk Et Eb. pose proof (Hall k r Hk) as Hx. unfold same_business in Hx.
    by rewrite Et, Eb, !Z.eqb_refl in Hx. }
  intros k k' cv cv' [[-> <-]|[? Hk]]%lookup_insert_Some [[-> <-]|[? Hk']]%lookup_insert_Some E1 E2;
    [done|..|eauto].
  - simpl in *. by destruct (Hno _ _ Hk').
  - simpl in *. by destruct (Hno _ _ Hk).
Qed.

Lemma keys_new_conversation convs c row :
  keys_ok convs → bigint_unsigned c = true → keys_ok (<[c := row]> convs).
Proof.
  intros Hk Hc c' [->|[_ ?]]%lookup_insert_is_Some; [by apply bool_decide_eq_true in Hc|auto].
Qed.

Lemma friend_effect_ok d f t a d' : store_ok d → friend_effect d f t a d' → store_ok d'.
Proof.
  intros [Hk Hseq Hst Hg Hf Hb].
  destruct 1 as [ua ub c Hfr Hpair Hbig Hc Hbus Hsa Hsb Hne].
  set (row := MkConversationRow 1 (i64 (f_friendshipId f)) 0 t).
  assert (<[c := row]> (conversations d) !! c = Some row) as Hrow by apply lookup_insert_eq.
  assert (states_ok (<[c := row]> (conversations d)) (conversationUserStates d)) as Hst1
    by (by apply states_new_conversation).
  assert (∀ states u, states_ok (<[c := row]> (conversations d)) states →
    states_ok (<[c := row]> (conversations d)) (<[(c, u) := fresh_state 1]> states)) as Hst2.
  { intros states u Hs. eapply states_insert; [done|done|done|]. simpl. lia. }
  split; simpl.
  - by apply keys_new_conversation.
  - by apply sequence_new_conversation.
  - by do 2 apply Hst2.
  - do 2 (eapply groups_insert_direct_state; [|done|done]). by apply groups_new_conversation.
  - destruct (friends_new_conversation _ _ c row Hf Hc) as [F1 F2]. split.
    + intros k r [[<- _]|[? Hk']]%lookup_insert_Some; [|eauto]. exists c, row. split; [exact Hrow|by split].
    + intros k k' r r' [[<- <-]|[? Hr1]]%lookup_insert_Some [[<- <-]|[? Hr2]]%lookup_insert_Some E1 E2;
        [done|..|eauto].
      * simpl in *. specialize (Hpair _ _ Hr2). unfold is_friend_pair in Hpair.
        unfold ua, ub in Hpair. by rewrite <- E1, <- E2, !Z.eqb_refl in Hpair.
      * simpl in *. specialize (Hpair _ _ Hr1). unfold is_friend_pair in Hpair.
        unfold ua, ub in Hpair. by rewrite E1, E2, !Z.eqb_refl in Hpair.
  - by apply business_new_conversation.
Qed.

(** ** Groups *)

(** A user enters a group: a member row and a state row in its conversation. *)
Lemma groups_join convs states groups mems g row c cv u joined time :
  groups_ok convs states groups mems →
  groups !! g = Some row → g_conversationId row = c → convs !! c = Some cv →
  cv_type cv = 2%Z → cv_businessId cv = g →
  groups_ok convs (<[(c, u) := fresh_state joined]> states) groups (<[(g, u) := time]> mems).
Proof.
  intros [H1 H2 H3 H4] Hrow Ec Hcv Ht Eb. split; [done|..].
  - intros g' row' Hr. apply lookup_insert_is_Some'. right. by apply H2.
  - intros g' u' [[= <- <-]|[_ Hm]]%lookup_insert_is_Some.
    + exists row. rewrite Ec, lookup_insert_eq. eauto.
    + destruct (H3 _ _ Hm) as (row' & ? & ?). exists row'.
      split; [done|]. apply lookup_insert_is_Some'. by right.
  - intros c' u' cv' [[= <- <-]|[_ Hs]]%lookup_insert_is_Some Hcv' Ht'.
    + rewrite Hcv in Hcv'. injection Hcv' as <-. exists row.
      rewrite Eb, lookup_insert_eq. split_and!; eauto.
    + destruct (H4 _ _ _ Hs Hcv' Ht') as (row' & ? & ? & ?). exists row'.
      split_and!; [done|done|]. apply lookup_insert_is_Some'. by right.
Qed.

(** A new group, before its owner enters: the owner's membership is checked
    once the owner has entered. *)
Lemma groups_created convs states groups mems g row c cv u joined time :
  groups_ok convs states groups mems → states_ok convs states →
  groups !! g = None → (∀ k r, groups !! k = Some r → g_conversationId r ≠ c) → convs !! c = None →
  g_conversationId row = c → g_masterUid row = u → cv_type cv = 2%Z → cv_businessId cv = g →
  groups_ok (<[c := cv]> convs) (<[(c, u) := fresh_state joined]> states)
    (<[g := row]> groups) (<[(g, u) := time]> mems).
Proof.
  intros Hg Hs Hn Hu Hc Ec Em Ht Eb.
  pose proof (groups_new_conversation _ _ _ _ c cv Hg Hs Hc) as [H1 H2 H3 H4].
  assert (∀ u', states !! (c, u') = None) as Hnone.
  { intros u'. destruct (states !! (c, u')) eqn:E; [|done].
    destruct (Hs _ _ _ E) as (? & ? & _). congruence. }
  split.
  - intros g' row' [[-> <-]|[? Hr]]%lookup_insert_Some; [|by apply H1].
    exists cv. by rewrite Ec, lookup_insert_eq.
  - intros g' row' [[-> <-]|[? Hr]]%lookup_insert_Some; apply lookup_insert_is_Some'.
    + left. by rewrite Em.
    + right. by apply H2.
  - intros g' u' [[= <- <-]|[_ Hm]]%lookup_insert_is_Some.
    + exists row. rewrite Ec, !lookup_insert_eq. eauto.
    + destruct (H3 _ _ Hm) as (row' & Hr & ?). exists row'.
      rewrite lookup_insert_ne by congruence. split; [done|]. apply lookup_insert_is_Some'. by right.
  - intros c' u' cv' Hst Hcv Ht'. destruct (decide (c' = c)) as [->|Hne].
    + rewrite lookup_insert_eq in Hcv. injection Hcv as <-.
      apply lookup_insert_is_Some in Hst as [[= <-]|[_ [st Hst]]]; [|by rewrite Hnone in Hst].
      exists row. rewrite Eb, !lookup_insert_eq. eauto.
    + apply lookup_insert_is_Some in Hst as [[= -> ]|[_ Hst]]; [done|].
      destruct (H4 _ _ _ Hst Hcv Ht') as (row' & Hr & ? & ?). exists row'.
      rewrite lookup_insert_ne by congruence. split_and!; [done|done|]. apply lookup_insert_is_Some'. by right.
Qed.

Lemma create_effect_ok d g a d' : store_ok d → create_effect d g a d' → store_ok d'.
Proof.
  intros [Hk Hseq Hst Hg Hf Hb]. destruct 1 as [Hn Hu Hbig Hc Hbus Hm Hs].
  split; simpl.
  - by apply keys_new_conversation.
  - by apply sequence_new_conversation.
  - eapply states_insert; [by apply states_new_conversation|apply lookup_insert_eq|done|]. simpl. lia.
  - by apply groups_created.
  - by apply friends_new_conversation.
  - by apply business_new_conversation.
Qed.

Lemma request_effect_ok d g u m n a d' : store_ok d → request_effect d g u m n a d' → store_ok d'.
Proof. intros [Hk Hseq Hst Hg Hf Hb]. destruct 1; by split. Qed.

Lemma reply_effect_ok d g a r b n x d' : store_ok d → reply_effect d g a r b n x d' → store_ok d'.
Proof.
  intros [Hk Hseq Hst Hg Hf Hb].
  destruct 1 as [| | | |row conv Hrow Em Ha Hb' Hmem Hconv Hs Hl d'|row Hrow Em Ha Hb' Hmem Hconv]; try by split.
  - destruct (grp_conversation _ _ _ _ Hg _ _ Hrow) as (cv & Hcv & Ht & Eb).
    rewrite Hconv in Hcv. simplify_eq. split; simpl; try done.
    + eapply states_insert; [done|done|by eapply seq_latest|].
      pose proof (seq_latest _ _ Hseq _ _ Hconv). lia.
    + by eapply groups_join.
  - destruct (grp_conversation _ _ _ _ Hg _ _ Hrow) as (cv & Hcv & _). congruence.
Qed.

Lemma states_subset convs states states' :
  states' ⊆ states → states_ok convs states → states_ok convs states'.
Proof. intros Hsub Hs c u st Hst. apply Hs with u. by eapply lookup_weaken. Qed.

Lemma groups_dissolve convs states groups mems g row :
  groups_ok convs states groups mems → groups !! g = Some row →
  (∀ k r, groups !! k = Some r → g_conversationId r = g_conversationId row → k = g) →
  groups_ok convs (filter (λ ks, ks.1.1 ≠ g_conversationId row) states) (delete g groups)
    (filter (λ km, km.1.1 ≠ g) mems).
Proof.
  intros [H1 H2 H3 H4] Hrow Hu. split.
  - intros g' r [_ Hr]%lookup_delete_Some. eauto.
  - intros g' r [Hne Hr]%lookup_delete_Some. destruct (H2 _ _ Hr) as [t Ht].
    exists t. by apply map_lookup_filter_Some.
  - intros g' u [t [Ht Hne]%map_lookup_filter_Some]. simpl in Hne.
    destruct (H3 g' u ltac:(eauto)) as (r & Hr & [st Hst]). exists r.
    rewrite lookup_delete_ne by done. split; [done|]. exists st.
    apply map_lookup_filter_Some. split; [done|]. simpl. intros E. by apply Hne, (Hu _ _ Hr).
  - intros c u cv [st [Hst Hne]%map_lookup_filter_Some] Hcv Ht. simpl in Hne.
    destruct (H4 c u cv ltac:(eauto) Hcv Ht) as (r & Hr & Ec & [t Hm]). exists r.
    assert (cv_businessId cv ≠ g) as Hg by (intros <-; congruence).
    rewrite lookup_delete_ne by done. split_and!; [done|done|]. exists t. by apply map_lookup_filter_Some.
Qed.

Lemma groups_leave convs states groups mems g row u :
  groups_ok convs states groups mems → groups !! g = Some row → u ≠ g_masterUid row →
  (∀ k r, groups !! k = Some r → g_conversationId r = g_conversationId row → k = g) →
  groups_ok convs (delete (g_conversationId row, u) states) groups (delete (g, u) mems).
Proof.
  intros [H1 H2 H3 H4] Hrow Hm Hu. split; [done|..].
  - intros g' r Hr. apply lookup_delete_is_Some. split; [|by apply H2].
    intros [= -> Heq]. simplify_eq.
  - intros g' u' [Hne Hx]%lookup_delete_is_Some. destruct (H3 _ _ Hx) as (r & Hr & ?).
    exists r. split; [done|]. apply lookup_delete_is_Some. split; [|done].
    intros [= E ->]. apply Hne. f_equal. symmetry. by eapply Hu.
  - intros c u' cv [Hne Hx]%lookup_delete_is_Some Hcv Ht.
    destruct (H4 _ _ _ Hx Hcv Ht) as (r & Hr & Ec & ?). exists r. split_and!; [done|done|].
    apply lookup_delete_is_Some. split; [|done]. intros [= E ->]. apply Hne. f_equal.
    rewrite <- Ec. rewrite <- E in Hr. by simplify_eq.
Qed.

(** Group rows have distinct conversations: the conversation names its group. *)
Lemma group_conversation_unique d g row :
  groups_ok (conversations d) (conversationUserStates d) (groupInfo d) (groupMembers d) →
  groupInfo d !! g = Some row →
  ∀ k r, groupInfo d !! k = Some r → g_conversationId r = g_conversationId row → k = g.
Proof.
  intros Hg Hrow k r Hr E.
  destruct (grp_conversation _ _ _ _ Hg _ _ Hrow) as (cv & Hcv & _ & <-).
  destruct (grp_conversation _ _ _ _ Hg _ _ Hr) as (cv' & Hcv' & _ & <-). congruence.
Qed.

Lemma remove_effect_ok d g a t b x d' :
  (b = true ∨ a ≠ t) → store_ok d → remove_effect d g a t b x d' → store_ok d'.
Proof.
  intros Hab [Hk Hseq Hst Hg Hf Hb].
  destruct 1 as [| | |row Hrow Ha Hm Et Ed|row Hrow Ha Hm Het]; try by split.
  - split; simpl; try done.
    + eapply states_subset; [|done]. apply map_filter_subseteq.
    + apply groups_dissolve; [done|done|]. by apply group_conversation_unique.
  - split; simpl; try done.
    + eapply states_subset; [|done]. apply delete_subseteq.
    + apply groups_leave; [done|done| |by apply group_conversation_unique].
      destruct Het as [?| ->]; [done|]. destruct Hab as [?|Hne]; [done|]. intros ->. destruct Ha; done.
Qed.

(** ** Every operation of the driver preserves the invariant *)

(** The operations the handlers issue: a member is removed by someone else, or
    with the flag that dissolves the group when the owner leaves. *)
Definition op_ok {R} (op : mysql_operation R) : Prop :=
  match op with
  | remove_group_member _ actor target dissolve => dissolve = true ∨ actor ≠ target
  | _ => True
  end.

(** Operations outside a transaction run statement by statement: each
    statement preserves the invariant. *)
Class Preserves `{HasServer W} (I : database → Prop) {A} (m : Eff W A) : Prop :=
  preserves : ∀ w, working (srv w) = None → I (committed (srv w)) →
    working (srv (m w).2) = None ∧ I (committed (srv (m w).2)).

(** A statement that keeps [I]. *)
Class SqlKeeps (I : database → Prop) {A} (q : sql A) : Prop :=
  sql_keeps : ∀ d d' a, I d → q d = inr (d', a) → I d'.

#[global] Instance sql_read_keeps I {A} (f : database → A) : SqlKeeps I (sql_read f).
Proof. by intros d d' a Hd [= <- <-]. Qed.

Section preserves.
Context `{HasServer W} (I : database → Prop).

#[global] Instance preserves_ret {A} (a : A) : Preserves I (mret a : Eff W A).
Proof. done. Qed.
#[global] Instance preserves_throw {A} e : Preserves I (throw e : Eff W A).
Proof. done. Qed.
#[global] Instance preserves_bind {A B} (m : Eff W A) (k : A → Eff W B) :
  Preserves I m → (∀ a, Preserves I (k a)) → Preserves I (m ≫= k).
Proof.
  intros Hm Hk w Hw HI. destruct (Hm w Hw HI) as [Hw' HI']. rewrite bind_eq.
  destruct (m w).1; [by apply Hk|done].
Qed.
#[global] Instance preserves_catch {A} (m : Eff W A) h :
  Preserves I m → (∀ e, Preserves I (h e)) → Preserves I (catch m h).
Proof.
  intros Hm Hk w Hw HI. destruct (Hm w Hw HI) as [Hw' HI']. rewrite catch_eq.
  destruct (m w).1; [done|by apply Hk].
Qed.
#[global] Instance preserves_if {A} (b : bool) (m1 m2 : Eff W A) :
  Preserves I m1 → Preserves I m2 → Preserves I (if b then m1 else m2).
Proof. by destruct b. Qed.
#[global] Instance preserves_option {A B} (o : option A) (m1 : A → Eff W B) (m2 : Eff W B) :
  (∀ a, Preserves I (m1 a)) → Preserves I m2 →
  Preserves I (match o with Some a => m1 a | None => m2 end).
Proof. destruct o; auto. Qed.
#[global] Instance preserves_prod {A B C} (p : A * B) (m : A → B → Eff W C) :
  (∀ a b, Preserves I (m a b)) → Preserves I (match p with (a, b) => m a b end).
Proof. destruct p; auto. Qed.
#[global] Instance preserves_list {A B} (l : list A) (m1 : Eff W B) (m2 : A → list A → Eff W B) :
  Preserves I m1 → (∀ a l', Preserves I (m2 a l')) →
  Preserves I (match l with [] => m1 | a :: l' => m2 a l' end).
Proof. destruct l; auto. Qed.
#[global] Instance preserves_field z : Preserves I (field_i64 z : Eff W Z).
Proof. unfold field_i64. apply _. Qed.
#[global] Instance preserves_field_u64 z : Preserves I (field_u64 z : Eff W Z).
Proof. unfold field_u64. apply _. Qed.
#[global] Instance preserves_mapM {A B} (f : A → Eff W B) l :
  (∀ a, Preserves I (f a)) → Preserves I (mapM f l).
Proof. intros Hf. induction l; simpl; apply _. Qed.
#[global] Instance preserves_forM {A} (f : A → Eff W unit) l :
  (∀ a, Preserves I (f a)) → Preserves I (forM l f).
Proof. intros Hf. induction l; simpl; apply _. Qed.
End preserves.

#[global] Instance preserves_query I {A} (q : sql A) : SqlKeeps I q → Preserves I (query q).
Proof.
  intros Hq [c w n b f k t] Hs HI. simpl in *. subst w.
  unfold query, attempt, mbind, eff_bind, next_fault, current. simpl.
  destruct (default NoFault (head f)); simpl; [|done|];
    (destruct (q c) as [e|[d a]] eqn:E; simpl; [done|]; split; [done|by eapply Hq]).
Qed.
#[global] Instance preserves_clock I : Preserves I getCurrentDateTime.
Proof. intros [] ? ?. done. Qed.
#[global] Instance preserves_lift I {L A} (m : Eff server A) :
  Preserves I m → Preserves (W := server * L) I (lift m).
Proof. intros Hm [s l] Hs HI. specialize (Hm s Hs HI). unfold lift. by destruct (m s). Qed.
#[global] Instance preserves_set_local I {L} (f : L → L) : Preserves (W := server * L) I (set_local f).
Proof. by intros [s l]. Qed.
#[global] Instance preserves_get_local I {L} : Preserves (W := server * L) I get_local.
Proof. by intros [s l]. Qed.
#[global] Instance preserves_local I {L A} (init : L) (m : Eff (server * L) A) :
  Preserves I m → Preserves I (local init m).
Proof.
  intros Hm s Hs HI. specialize (Hm (s, init) Hs HI). unfold local.
  by destruct (m (s, init)) as [r [s' l']].
Qed.
#[global] Instance preserves_fill_page I n rows sync :
  Preserves I (fill_page (W := server) n rows sync).
Proof.
  revert sync. induction rows as [|r rows IH]; intros sync; simpl; [apply _|].
  unfold message_record. apply _.
Qed.

End invariant.
