(* ===== verification/StoreProps.v ===== *)
(** * Properties of every operation of the message store

    A property of the database that the effects preserve is preserved by every
    operation of the driver, whatever faults occur and in whatever order the
    operations of all clients run. *)

From S2P Require Import Prelude Codec Schema Records MysqlStore Atomicity Wp StoreSpec GroupSpec.
From S2P Require Import StoreInvariant.
Import db.

(** The tables that only transactions change, and the one that shrinks outside them. *)
Definition same_core (d d' : database) : Prop :=
  conversations d' = conversations d ∧ messages d' = messages d ∧
  conversationUserStates d' = conversationUserStates d ∧ groupInfo d' = groupInfo d ∧
  groupMembers d' = groupMembers d ∧ friends d' ⊆ friends d.

Section closed.
Context `{!MysqlServer} `{!StdHash}.

(** [I] is preserved by the effects of the store. *)
Record closed (I : database → Prop) : Prop := {
  closed_direct d id s r i x ty tm a d' : I d → direct_effect d id s r i x ty tm a d' → I d';
  closed_group d id s g i x ty tm b a d' : I d → group_message_effect d id s g i x ty tm b a d' → I d';
  closed_ack d m u dev c q st t a d' : I d → ack_effect d m u dev c q st t a d' → I d';
  closed_friend d f t a d' : I d → friend_effect d f t a d' → I d';
  closed_create d g a d' : I d → create_effect d g a d' → I d';
  closed_request d g u m n a d' : I d → request_effect d g u m n a d' → I d';
  closed_reply d g a r b n x d' : I d → reply_effect d g a r b n x d' → I d';
  closed_remove d g a t b x d' : (b = true ∨ a ≠ t) → I d → remove_effect d g a t b x d' → I d';
  closed_other d d' : I d → same_core d d' → I d'
}.


Context (I : database → Prop) (HI : closed I).

Definition exec_keeps {A} (m : Eff server A) : Prop := ∀ s, working s = None → I (committed s) →
  I (committed (m s).2) ∧ (¬ throws (m s).1 → working (m s).2 = None).

Lemma exec_preserves {A} (m : Eff server A) : Preserves I m → exec_keeps m.
Proof. intros Hm s Hs Hok. by destruct (Hm s Hs Hok). Qed.

Lemma exec_atomic {A} (m : Eff server A) (eff : server → A → database → Prop) failed :
  atomic m failed →
  (∀ s, working s = None →
     transaction_outcome (eff s) failed (committed s) (m s).1 (committed (m s).2)) →
  (∀ s a d', I (committed s) → eff s a d' → I d') →
  exec_keeps m.
Proof.
  intros Ha Ho He s Hs Hok. split.
  - eapply outcome_preserves; [by apply Ho|intros a d; by apply He|done].
  - by destruct (Ha s Hs) as [_ [(_ & _ & ?)|(_ & _ & ?)]].
Qed.

(** Statements of the operations outside transactions. *)
Lemma sql_keeps_other {A} (q : sql A) :
  (∀ d d' a, q d = inr (d', a) → same_core d d') → SqlKeeps I q.
Proof. intros Hq d d' a Hd Hr. eapply closed_other; [done|done|by eapply Hq]. Qed.

Ltac other_table :=
  apply sql_keeps_other; intros ? ? ? Hq;
  repeat match type of Hq with
  | unless _ _ _ = inr _ => apply unless_inr in Hq as [_ Hq]
  | match ?x with Some _ => _ | None => _ end = _ => destruct x
  end; simplify_eq/=; by split_and!.

#[local] Instance insert_apply_keeps f t x s c : SqlKeeps I (insert_apply f t x s c).
Proof. unfold insert_apply. other_table. Qed.
#[local] Instance update_apply_keeps f t x s c : SqlKeeps I (update_apply f t x s c).
Proof. unfold update_apply. other_table. Qed.
#[local] Instance update_info_keeps u b f : SqlKeeps I (update_info u b f).
Proof. unfold update_info. other_table. Qed.

#[local] Instance upsert_keeps file c e : SqlKeeps I (λ d,
    unless (negb (bigint_unsigned file.(for_ownerUid) && bigint_unsigned file.(for_fileSize))) OutOfRange
    (inr (set_fileObjects (<[weight file.(for_fileId) :=
       match d.(fileObjects) !! weight file.(for_fileId) with
       | Some old =>
         MkFileRow old.(fo_fileId) old.(fo_ownerUid) file.(for_fileName) file.(for_fileType)
           file.(for_fileSize) file.(for_sha256) 1 old.(fo_createdTime) e
       | None =>
         MkFileRow file.(for_fileId) file.(for_ownerUid) file.(for_fileName) file.(for_fileType)
           file.(for_fileSize) file.(for_sha256) 1 c e
       end]> d.(fileObjects)) d, tt))).
Proof. other_table. Qed.
#[local] Instance progress_keeps o f n (b : bool) t : SqlKeeps I (λ d,
    unless (negb (bigint_unsigned o && bigint_unsigned n)) OutOfRange
    (inr (set_fileUploads (<[(o, weight f) :=
       MkUploadRow (from_option up_fileId f (d.(fileUploads) !! (o, weight f))) n (if b then 1 else 0) t]>
       d.(fileUploads)) d, tt))).
Proof. other_table. Qed.
#[local] Instance delete_friend_keeps a b : SqlKeeps I (λ d,
    inr (set_friends (filter (λ kf, is_friend_pair a b kf.2 = false) d.(friends)) d, tt)).
Proof.
  apply sql_keeps_other. intros d d' [] [= <-]. split_and!; try done. apply map_filter_subseteq.
Qed.

Lemma direct_exec_keeps s r i x t ty : exec_keeps (execute_accept_direct_text s r i x t ty).
Proof.
  eapply (exec_atomic _ (λ z, direct_effect (committed z) (auto_increment z) s r i x ty t));
    [apply accept_direct_text_atomic|intros; by apply accept_direct_text_refines|].
  intros z a d' Hz. by apply closed_direct.
Qed.
Lemma group_exec_keeps s g i x ty t b : exec_keeps (execute_accept_group_message s g i x ty t b).
Proof.
  eapply (exec_atomic _ (λ z, group_message_effect (committed z) (auto_increment z) s g i x ty t b));
    [apply accept_group_message_atomic|intros; by apply accept_group_message_refines|].
  intros z a d' Hz. by apply closed_group.
Qed.
Lemma ack_exec_keeps m u d c q st t : exec_keeps (execute_acknowledge m u d c q st t).
Proof.
  eapply (exec_atomic _ (λ z, ack_effect (committed z) m u d c q st t));
    [apply acknowledge_atomic|intros; by apply acknowledge_refines|].
  intros z a d' Hz. by apply closed_ack.
Qed.
Lemma friend_exec_keeps f : exec_keeps (execute_insert_friend f).
Proof.
  eapply (exec_atomic _ (λ z, friend_effect (committed z) f (clock z (ticks z))));
    [apply insert_friend_atomic|intros; by apply insert_friend_refines|].
  intros z a d' Hz. by apply closed_friend.
Qed.
Lemma create_exec_keeps g : exec_keeps (execute_create_group g).
Proof.
  eapply (exec_atomic _ (λ z, create_effect (committed z) g));
    [apply create_group_atomic|intros; by apply create_group_refines|].
  intros z a d' Hz. by apply closed_create.
Qed.
Lemma request_exec_keeps g u m n : exec_keeps (execute_request_group_join g u m n).
Proof.
  eapply (exec_atomic _ (λ z, request_effect (committed z) g u m n));
    [apply request_group_join_atomic|intros; by apply request_group_join_refines|].
  intros z a d' Hz. by apply closed_request.
Qed.
Lemma reply_exec_keeps g a r b n : exec_keeps (execute_reply_group_join g a r b n).
Proof.
  eapply (exec_atomic _ (λ z, reply_effect (committed z) g a r b n));
    [apply reply_group_join_atomic|intros; by apply reply_group_join_refines|].
  intros z x d' Hz. by apply closed_reply.
Qed.
Lemma remove_exec_keeps g a t b : (b = true ∨ a ≠ t) → exec_keeps (execute_remove_group_member g a t b).
Proof.
  intros Hab. eapply (exec_atomic _ (λ z, remove_effect (committed z) g a t b));
    [apply remove_group_member_atomic|intros; by apply remove_group_member_refines|].
  intros z x d' Hz. by apply closed_remove.
Qed.
#[local] Hint Resolve direct_exec_keeps group_exec_keeps ack_exec_keeps friend_exec_keeps create_exec_keeps
  request_exec_keeps reply_exec_keeps remove_exec_keeps : imm.

Lemma execute_ok {R} (op : mysql_operation R) : op_ok op → exec_keeps (execute op).
Proof.
  destruct op; simpl; intros Hop; auto with imm; apply exec_preserves.
  all: unfold execute_get_user_info, execute_get_friend_list, execute_insert_friend_apply,
    execute_update_friend_apply_status, execute_upsert_ready_file, execute_save_file_upload_progress,
    execute_find_downloadable_file, execute_find_ready_file, execute_sync_conversation,
    execute_get_friend_apply_list, execute_delete_friend, execute_pull_group,
    execute_update_user_info_name, execute_update_user_info_age, execute_update_user_info_sex,
    execute_update_user_info_head_image_url, select_downloadable, select_ready_file, file_record,
    select_membership, select_page, select_group, select_member, select_member_list,
    select_apply_list; apply _.
Qed.

Lemma connect_mysql_spec s : committed (connect_mysql s).2 = committed s ∧
  working (connect_mysql s).2 = None.
Proof. destruct s as [c w n b f k t]. by destruct f as [|[|x|x] f]. Qed.

Lemma driver_execute_ok {R} (op : mysql_operation R) s :
  op_ok op → working s = None → I (committed s) →
  working (driver_execute op s).2 = None ∧ I (committed (driver_execute op s).2).
Proof.
  intros Hop Hs Hok. unfold driver_execute. rewrite bind_eq. simpl. rewrite bind_eq.
  set (m := if connected s then mret tt else connect_mysql).
  assert (working (m s).2 = None ∧ committed (m s).2 = committed s) as [Hw Hc].
  { unfold m. destruct (connected s); [done|]. by destruct (connect_mysql_spec s). }
  destruct (m s).1; [|simpl; by rewrite Hc]. rewrite catch_eq.
  destruct (execute_ok op Hop (m s).2 Hw) as [Hok' Hn]; [by rewrite Hc|].
  destruct (execute op (m s).2).1; simpl; [|done]. split; [|done]. apply Hn. by intros [? ?].
Qed.

End closed.

(** ** Reachable states

    Operations of all clients interleave; between two of them the connection,
    the faults ahead, the clock and the tables of the other services change. *)

Section reachable.
Context `{!MysqlServer} `{!StdHash}.

Inductive store_step : server → server → Prop :=
  | step_operation {R} (op : mysql_operation R) s :
      op_ok op → working s = None → store_step s (driver_execute op s).2
  | step_environment s s' :
      working s' = None → same_core (committed s) (committed s') → store_step s s'.

Lemma reachable_keeps I s s' :
  closed I → rtc store_step s s' → working s = None → I (committed s) →
  working s' = None ∧ I (committed s').
Proof.
  intros HI. induction 1 as [|s s1 s2 Hstep _ IH]; intros Hw Hs; [done|].
  destruct Hstep as [R op s Hop Hs0|s s' Hw' Hc].
  - destruct (driver_execute_ok I HI op s Hop Hs0 Hs) as [? ?]. auto.
  - apply IH; [done|]. by eapply closed_other.
Qed.

Lemma store_ok_other d d' : store_ok d → same_core d d' → store_ok d'.
Proof.
  intros [? ? ? ? [F1 F2] ?] (E1 & E2 & E3 & E4 & E5 & Hf).
  split; rewrite ?E1, ?E2, ?E3, ?E4, ?E5; try done. split.
  - intros f row Hr. eapply F1. by eapply lookup_weaken.
  - intros f f' row row' H1 H2. apply F2; by eapply lookup_weaken.
Qed.

Lemma store_ok_closed : closed store_ok.
Proof.
  split.
  - exact direct_effect_ok.
  - exact group_message_effect_ok.
  - exact ack_effect_ok.
  - exact friend_effect_ok.
  - exact create_effect_ok.
  - exact request_effect_ok.
  - exact reply_effect_ok.
  - exact remove_effect_ok.
  - exact store_ok_other.
Qed.

(** ** Messages are never lost or altered *)

(** The same message, with a status that did not move back. *)
Definition same_identity (m m' : message_row) : Prop :=
  m_senderId m' = m_senderId m ∧ m_receiverId m' = m_receiverId m ∧
  m_conversationId m' = m_conversationId m ∧ m_conversationSeq m' = m_conversationSeq m ∧
  m_clientMessageId m' = m_clientMessageId m ∧ m_type m' = m_type m ∧
  m_content m' = m_content m ∧ m_sendDateTime m' = m_sendDateTime m ∧
  (m_status m ≤ m_status m')%Z.

Lemma same_identity_refl m : same_identity m m.
Proof. by unfold same_identity. Qed.

Definition extends (d d' : database) : Prop :=
  ∀ id m, messages d !! id = Some m → ∃ m', messages d' !! id = Some m' ∧ same_identity m m'.

Lemma extends_refl d : extends d d.
Proof. intros id m Hm. eauto using same_identity_refl. Qed.

Lemma append_extends d0 d id c s r i x ty tm dup mid seq d' :
  extends d0 d → append_effect d id c s r i x ty tm dup mid seq d' → extends d0 d'.
Proof.
  intros He. destruct 1 as [|row m Hrow Hr Hin Hid Hall]; [done|].
  intros k m0 Hk. destruct (He _ _ Hk) as (m' & Hm' & ?). exists m'. split; [|done].
  simpl. by rewrite lookup_insert_ne by congruence.
Qed.

Lemma ack_extends d0 d m u dev c q st t a d' :
  extends d0 d → ack_effect d m u dev c q st t a d' → extends d0 d'.
Proof.
  intros He. destruct 1 as [|type r sd old Hpos Ho direct]; [done|].
  intros k m0 Hk. destruct (He _ _ Hk) as (m' & Hm' & Hid).
  unfold acknowledged. destruct direct; simpl; [|eauto].
  destruct (decide (k = m)) as [->|Hne].
  - exists (advance_message st t m'). rewrite lookup_alter_eq, Hm'. split; [done|].
    unfold same_identity, advance_message in *. simpl. intuition lia.
  - exists m'. by rewrite lookup_alter_ne.
Qed.

Lemma extends_closed d0 : closed (extends d0).
Proof.
  split.
  - intros d id s r i x ty tm a d' He. destruct 1; [done|done|].
    eapply append_extends; [|done]. exact He.
  - intros d id s g i x ty tm b a d' He. destruct 1; [done..|]. by eapply append_extends.
  - exact (ack_extends d0).
  - by intros d f t a d' He [].
  - by intros d g a d' He [].
  - by intros d g u m n a d' He [].
  - by intros d g a r b n x d' He [].
  - by intros d g a t b x d' _ He [].
  - intros d d' He (_ & E & _) k m Hk. rewrite E. by apply He.
Qed.

Lemma is_duplicate_identity s x m m' :
  same_identity m m' → is_duplicate s x m' = is_duplicate s x m.
Proof. intros (E1 & _ & _ & _ & E2 & _). unfold is_duplicate. by rewrite E1, E2. Qed.

Lemma same_message_identity m m' c r t x :
  same_identity m m' → same_message m' c r t x = same_message m c r t x.
Proof.
  intros (_ & E1 & E2 & _ & _ & E3 & E4 & _). unfold same_message. by rewrite E1, E2, E3, E4.
Qed.

(** ** Delivery to the store is exactly once *)

(** The message a successful accept refers to. *)
Definition stores (d : database) (id c seq sender receiver : Z) (client content : string) (type : Z) : Prop :=
  ∃ m, messages d !! id = Some m ∧ is_duplicate sender client m = true ∧
       same_message m c receiver type content = true ∧ m_conversationSeq m = seq.

Lemma append_stores d id c s r i x ty tm dup mid seq d' :
  is_i64 id = true → append_effect d id c s r i x ty tm dup mid seq d' → stores d' mid c seq s r i x ty.
Proof.
  intros Hid. destruct 1 as [mid m Hm Hd Hs|row m Hrow Hr Hin Hn Hall]; [by exists m|].
  exists m. simpl. apply bool_decide_eq_true in Hid. rewrite i64_id, lookup_insert_eq by done.
  split_and!; [done|..|done].
  - unfold is_duplicate, sql_eq. simpl. rewrite Z.eqb_refl. by apply bool_decide_eq_true.
  - unfold same_message. simpl. rewrite !Z.eqb_refl. by apply bool_decide_eq_true.
Qed.

Lemma stores_extends d d' id c seq s r i x ty :
  extends d d' → stores d id c seq s r i x ty → stores d' id c seq s r i x ty.
Proof.
  intros He (m & Hm & Hd & Hs & Eq). destruct (He _ _ Hm) as (m' & Hm' & Hid). exists m'.
  rewrite (is_duplicate_identity _ _ _ _ Hid), (same_message_identity _ _ _ _ _ _ Hid).
  destruct Hid as (_ & _ & _ & E & _). split_and!; congruence.
Qed.

(** A message that is stored already makes the append a duplicate. *)
Lemma append_again d id c s r i x ty tm dup mid seq d' id0 seq0 :
  sequence_ok (conversations d) (messages d) → stores d id0 c seq0 s r i x ty →
  append_effect d id c s r i x ty tm dup mid seq d' →
  dup = true ∧ mid = id0 ∧ seq = seq0 ∧ d' = d.
Proof.
  intros Hok (m0 & Hm0 & Hd0 & Hs0 & <-).
  destruct 1 as [mid m Hm Hd Hs|row m Hrow Hr Hin Hn Hall].
  - assert (mid = id0) as -> by (by eapply seq_client). simplify_eq. done.
  - destruct (Hall _ _ Hm0) as [_ Hf]. congruence.
Qed.

(** An operation that returns ran on a connected server with the same data. *)
Lemma driver_execute_inv {R} (op : mysql_operation R) s a :
  working s = None → (driver_execute op s).1 = Ok a →
  ∃ s0, committed s0 = committed s ∧ working s0 = None ∧ auto_increment s0 = auto_increment s ∧
        execute op s0 = (Ok a, (driver_execute op s).2).
Proof.
  intros Hs. unfold driver_execute. rewrite bind_eq. simpl. rewrite bind_eq.
  set (m := if connected s then mret tt else connect_mysql).
  assert (working (m s).2 = None ∧ committed (m s).2 = committed s ∧
          auto_increment (m s).2 = auto_increment s) as (Hw & Hc & Ha).
  { unfold m. destruct (connected s); [done|]. destruct s as [c w n b f k t]. by destruct f as [|[]]. }
  destruct (m s).1; [|done]. rewrite catch_eq.
  destruct (execute op (m s).2) as [[x|e] s2] eqn:E; [|done]. simpl. intros [= ->]. eauto.
Qed.

Lemma accept_direct_inv s sd r i x t ty a :
  working s = None →
  (driver_execute (accept_direct_text sd r i x t ty) s).1 = Ok a → ar_error a = Success →
  direct_effect (committed s) (auto_increment s) sd r i x ty t a
    (committed (driver_execute (accept_direct_text sd r i x t ty) s).2).
Proof.
  intros Hs Hr Ha. destruct (driver_execute_inv _ _ _ Hs Hr) as (s0 & <- & Hw & <- & E).
  pose proof (accept_direct_text_refines s0 sd r i x ty t Hw) as Ho. simpl in E, Ho.
  rewrite E in Ho. simpl in Ho. destruct Ho as [(a' & [= <-] & ?)|[[[]|(a' & [= <-] & Hf)] _]];
    [done|done|]. by rewrite Ha in Hf.
Qed.

Lemma accept_group_inv s sd g i x ty t b a :
  working s = None →
  (driver_execute (accept_group_message sd g i x ty t b) s).1 = Ok a → ar_error (gar_base a) = Success →
  group_message_effect (committed s) (auto_increment s) sd g i x ty t b a
    (committed (driver_execute (accept_group_message sd g i x ty t b) s).2).
Proof.
  intros Hs Hr Ha. destruct (driver_execute_inv _ _ _ Hs Hr) as (s0 & <- & Hw & <- & E).
  pose proof (accept_group_message_refines s0 sd g i x ty t b Hw) as Ho. simpl in E, Ho.
  rewrite E in Ho. simpl in Ho. destruct Ho as [(a' & [= <-] & ?)|[[[]|(a' & [= <-] & Hf)] _]];
    [done|done|]. by rewrite Ha in Hf.
Qed.

(** A successful accept leaves its message in the store. *)
Lemma direct_success_stores d id sd r i x ty t a d' :
  is_i64 id = true → direct_effect d id sd r i x ty t a d' → ar_error a = Success →
  stores d' (ar_messageId a) (ar_conversationId a) (ar_conversationSeq a) sd r i x ty.
Proof. intros Hid. destruct 1; try done. intros _. by eapply append_stores. Qed.

(** When the message is in the store, a successful accept is a duplicate of it. *)
Lemma direct_success_again d id sd r i x ty t a d' id0 c0 seq0 :
  store_ok d → stores d id0 c0 seq0 sd r i x ty →
  direct_effect d id sd r i x ty t a d' → ar_error a = Success →
  a = MkAccept Success "" true id0 c0 seq0 ∧ messages d' = messages d.
Proof.
  intros Hok Hst. destruct 1 as [| |c dup mid seq d' Hc Happ]; try done. intros _.
  assert (c = c0) as ->.
  { destruct Hst as (m0 & Hm0 & Hd0 & Hs0 & _).
    destruct Happ as [mid m Hm Hd Hs|row m Hrow Hr Hin Hn Hall].
    - assert (mid = id0) as -> by (eapply (seq_client _ _ (ok_sequence _ Hok)); done).
      simpl in Hm. simplify_eq. unfold same_message in *. rewrite !andb_true_iff, !Z.eqb_eq in *. lia.
    - destruct (Hall _ _ Hm0) as [_ Hf]. congruence. }
  eapply append_again in Happ as (-> & -> & -> & ->); [done|apply Hok|exact Hst].
Qed.

End reachable.
