(* ===== verification/Demo.v ===== *)
(** * A small concrete database

    Runs of the store that the witnesses of the theorems use: two friends and a
    group, reached by the store's own operations from a database that holds
    nothing but two registered devices. *)

From S2P Require Import Prelude Codec Schema Records MysqlStore StoreInvariant StoreProps.
Import db.

(** A binary collation and fixed error texts. *)
Definition demo_mysql : MysqlServer :=
  {| weight := λ s, s;
     diagnostic := λ e, match e with DuplicateEntry => "Duplicate entry" | OutOfRange => "Out of range value" end |}.
Definition demo_hash : StdHash := λ s, Z.of_nat (String.length s).

Definition demo_clock (n : nat) : string := "2026-05-19 00:00:0" +:+ pretty (n mod 10).
Definition demo_devices : database :=
  set_devices {["laptop" := MkDeviceRow "laptop" 1001 "linux" "laptop";
                "phone" := MkDeviceRow "phone" 1002 "android" "phone"]} empty_database.
Definition demo_start : server := MkServer demo_devices None 1 true [] demo_clock 0.

#[local] Existing Instance demo_mysql.
#[local] Existing Instance demo_hash.

Definition demo_run {R} (op : mysql_operation R) (s : server) : server := (driver_execute op s).2.

Definition demo_friends : server := demo_run (insert_friend (MkFriend 9001 92001 1001 1002 "")) demo_start.

Definition demo_group : server :=
  demo_run (reply_group_join 3001 1001 1003 true "2026-05-19 00:00:00")
    (demo_run (request_group_join 3001 1003 "hi" "2026-05-19 00:00:00")
       (demo_run (create_group (MkGroupManager 3001 1001 93001 "team" "2026-05-19 00:00:00")) demo_friends)).

Lemma store_ok_start : store_ok demo_devices.
Proof.
  split; try (by intros ? [? ?]); try (by intros ? ? ? ?); try (by intros ? ? ? ? ?).
  - split; try (by intros ? ? ?); by intros ? ? ? ? ?.
  - split; try (by intros ? ? ?); by intros ? ? [? ?].
  - split; by intros ? ? ?.
Qed.

Lemma demo_run_ok {R} (op : mysql_operation R) s :
  op_ok op → working s = None → store_ok (committed s) →
  working (demo_run op s) = None ∧ store_ok (committed (demo_run op s)).
Proof. intros. by apply driver_execute_ok; [apply store_ok_closed|..]. Qed.

Lemma demo_friends_ok : working demo_friends = None ∧ store_ok (committed demo_friends).
Proof.
  refine (demo_run_ok (insert_friend (MkFriend 9001 92001 1001 1002 "")) demo_start _ eq_refl store_ok_start).
  done.
Qed.

Lemma demo_group_ok : working demo_group = None ∧ store_ok (committed demo_group).
Proof.
  destruct demo_friends_ok as [Hw Hok].
  destruct (demo_run_ok (create_group (MkGroupManager 3001 1001 93001 "team" "2026-05-19 00:00:00"))
              demo_friends I Hw Hok) as [Hw1 Hok1].
  destruct (demo_run_ok (request_group_join 3001 1003 "hi" "2026-05-19 00:00:00") _ I Hw1 Hok1) as [Hw2 Hok2].
  exact (demo_run_ok (reply_group_join 3001 1001 1003 true "2026-05-19 00:00:00") _ I Hw2 Hok2).
Qed.
