(* ===== verification/StoreTheorems.v ===== *)
(** * Guarantees of the message store

    The theorems a client of the store relies on, each with a run on a small
    database on which its hypotheses hold. *)

From S2P Require Import Prelude Codec Schema Records MysqlStore Atomicity Wp StoreSpec GroupSpec.
From S2P Require Import StoreInvariant StoreProps Demo.
Import db.

Section guarantees.
Context `{!MysqlServer} `{!StdHash}.

(** C1: in every state reached by any interleaving of store operations of all
    clients, under any faults (statements that fail, replies that are lost,
    connections that drop), the positions of each conversation are exactly
    1..latestSeq with one message each, a client id names at most one message
    of its sender, cursors stay within the conversation, and group membership
    agrees with conversation state. *)
Theorem store_invariant s s' :
  rtc store_step s s' → working s = None → store_ok (committed s) → store_ok (committed s').
Proof. intros Hr Hw Hok. by destruct (reachable_keeps _ _ _ store_ok_closed Hr Hw Hok). Qed.

(** A stored message is never lost, and never changes except that its
    status moves forward (and its read time is set): in every later state it
    is there with the same sender, receiver, conversation, position, client id,
    type, content and send time. *)
Theorem messages_persist s s' :
  rtc store_step s s' → working s = None → extends (committed s) (committed s').
Proof.
  intros Hr Hw. by destruct (reachable_keeps _ _ _ (extends_closed _) Hr Hw (extends_refl _)).
Qed.

(** C28: sending is exactly once per client id. After a direct message was
    accepted, and whatever happened since, a repeated command with the same
    client id that succeeds is reported as a duplicate with the same message
    id, conversation and position, and stores no further message. *)
Theorem resend_is_duplicate s s2 sender receiver client content time time' type a b :
  let send t := accept_direct_text sender receiver client content t type in
  working s = None → store_ok (committed s) → is_i64 (auto_increment s) = true →
  (driver_execute (send time) s).1 = Ok a → ar_error a = Success →
  rtc store_step (driver_execute (send time) s).2 s2 →
  (driver_execute (send time') s2).1 = Ok b → ar_error b = Success →
  b = MkAccept Success "" true (ar_messageId a) (ar_conversationId a) (ar_conversationSeq a) ∧
  messages (committed (driver_execute (send time') s2).2) = messages (committed s2).
Proof.
  intros send Hw Hok Hid Ha Ea Hr Hb Eb.
  pose proof (accept_direct_inv _ _ _ _ _ _ _ _ Hw Ha Ea) as Heff.
  destruct (driver_execute_ok _ store_ok_closed (send time) s I Hw Hok) as [Hw1 Hok1].
  destruct (reachable_keeps _ _ _ store_ok_closed Hr Hw1 Hok1) as [Hw2 Hok2].
  destruct (reachable_keeps _ _ _ (extends_closed _) Hr Hw1 (extends_refl _)) as [_ Hext].
  eapply direct_success_again; [done| |by apply accept_direct_inv|done].
  eapply stores_extends; [done|]. by eapply direct_success_stores.
Qed.

(** What each transaction promises: the effect it may have on the database, and
    the answers that report a failure. *)
Inductive transaction_spec (s : server) : ∀ R, mysql_operation R → (R → database → Prop) → (R → Prop) → Prop :=
  | spec_direct_text sender receiver client content time type :
      transaction_spec s _ (accept_direct_text sender receiver client content time type)
        (direct_effect (committed s) (auto_increment s) sender receiver client content type time)
        (λ a, ar_error a = MysqlFailed)
  | spec_group_message sender g client content type time need_file :
      transaction_spec s _ (accept_group_message sender g client content type time need_file)
        (group_message_effect (committed s) (auto_increment s) sender g client content type time need_file)
        (λ a, ar_error (gar_base a) = MysqlFailed)
  | spec_acknowledge id uid device c seq status time :
      transaction_spec s _ (acknowledge_conversation_message id uid device c seq status time)
        (ack_effect (committed s) id uid device c seq status time) (λ _, False)
  | spec_insert_friend f :
      transaction_spec s _ (insert_friend f) (friend_effect (committed s) f (clock s (ticks s))) (λ _, False)
  | spec_create_group g :
      transaction_spec s _ (create_group g) (create_effect (committed s) g) (λ a, go_error a = MysqlFailed)
  | spec_request_join g uid message now :
      transaction_spec s _ (request_group_join g uid message now)
        (request_effect (committed s) g uid message now) (λ a, go_error a = MysqlFailed)
  | spec_reply_join g actor requestor accept now :
      transaction_spec s _ (reply_group_join g actor requestor accept now)
        (reply_effect (committed s) g actor requestor accept now) (λ a, go_error a = MysqlFailed)
  | spec_remove_member g actor target dissolve :
      transaction_spec s _ (remove_group_member g actor target dissolve)
        (remove_effect (committed s) g actor target dissolve) (λ a, go_error a = MysqlFailed).

(** Connecting first, and dropping the connection after a throw, add no outcome. *)
Lemma driver_outcome {R} (op : mysql_operation R) eff failed s :
  working s = None →
  (∀ s0, working s0 = None → committed s0 = committed s → auto_increment s0 = auto_increment s →
     clock s0 (ticks s0) = clock s (ticks s) →
     transaction_outcome eff failed (committed s0) (execute op s0).1 (committed (execute op s0).2)) →
  transaction_outcome eff failed (committed s) (driver_execute op s).1 (committed (driver_execute op s).2).
Proof.
  intros Hs Hop. unfold driver_execute. rewrite bind_eq. simpl. rewrite bind_eq.
  set (m := if connected s then mret tt else connect_mysql).
  assert (working (m s).2 = None ∧ committed (m s).2 = committed s ∧ auto_increment (m s).2 = auto_increment s ∧
    clock (m s).2 (ticks (m s).2) = clock s (ticks s)) as (Hw & Hc & Ha & Hk).
  { unfold m. destruct (connected s); [done|]. destruct s as [c w n b f k t]. by destruct f as [|[]]. }
  specialize (Hop _ Hw Hc Ha Hk). rewrite Hc in Hop.
  destruct (m s).1 as [[]|e]; [|right; split; left; [by exists e|exact Hc]]. rewrite catch_eq.
  destruct (execute op (m s).2) as [[a|e] s2]; [exact Hop|]. simpl in *.
  destruct Hop as [(a & [=] & _)|[_ Hd]]. right. split; [left; by exists e|done].
Qed.

(** C4: the transactions of the store refine their specifications. Whatever
    statement fails, whatever reply is lost and whether or not the driver had to
    connect first, an operation either returns an answer with an effect that its
    specification allows for that answer, or it throws or answers MysqlFailed,
    and then the database is the old one or, where only the reply to COMMIT was
    lost, one that the specification allows: direct and group messages,
    acknowledgements, friendships, and the creation, applications, approvals,
    removals and dissolution of groups. *)
Theorem transactions_refine s R (op : mysql_operation R) eff failed :
  working s = None → transaction_spec s R op eff failed →
  transaction_outcome eff failed (committed s) (driver_execute op s).1 (committed (driver_execute op s).2).
Proof.
  intros Hs Hspec. apply driver_outcome; [done|]. intros s0 Hw Hc Ha Hk.
  destruct Hspec; rewrite <-?Hc, <-?Ha, <-?Hk; simpl.
  - by apply accept_direct_text_refines.
  - by apply accept_group_message_refines.
  - by apply acknowledge_refines.
  - by apply insert_friend_refines.
  - by apply create_group_refines.
  - by apply request_group_join_refines.
  - by apply reply_group_join_refines.
  - by apply remove_group_member_refines.
Qed.

(** A group message: the sender must be a member, a file message needs a ready
    file of the sender, and the recipients are exactly the other members. *)
Theorem accept_group_message_outcome s sender g client content type time need_file :
  working s = None →
  let run := execute_accept_group_message sender g client content type time need_file s in
  transaction_outcome
    (group_message_effect (committed s) (auto_increment s) sender g client content type time need_file)
    (λ a, ar_error (gar_base a) = MysqlFailed) (committed s) run.1 (committed run.2) ∧
  (∀ a, run.1 = Ok a → ar_error (gar_base a) = Success →
     ∀ u, u ∈ gar_recipientUids a ↔ is_Some (groupMembers (committed s) !! (g, u)) ∧ u ≠ sender).
Proof.
  intros Hs run. pose proof (accept_group_message_refines s sender g client content type time need_file Hs)
    as Ho. split; [exact Ho|]. intros a Hr Ha u.
  destruct Ho as [(a' & Hr' & Heff)|[[[e He]|(a' & Hr' & Hf)] _]].
  - fold run in Hr'. rewrite Hr in Hr'. injection Hr' as <-. destruct Heff; try done. simpl.
    rewrite elem_of_members, negb_true_iff, Z.eqb_neq. done.
  - fold run in He. congruence.
  - fold run in Hr'. rewrite Hr in Hr'. injection Hr' as <-. by rewrite Ha in Hf.
Qed.

(** Who may change a group: a member row disappears only when the actor is
    that member or the owner, and appears only when the owner approves an
    application that exists. *)
Theorem membership_authority s g actor target dissolve accept now u :
  working s = None →
  (let s' := (execute_remove_group_member g actor target dissolve s).2 in
   is_Some (groupMembers (committed s) !! (g, u)) → groupMembers (committed s') !! (g, u) = None →
   ∃ row, groupInfo (committed s) !! g = Some row ∧ (actor = g_masterUid row ∨ actor = u)) ∧
  (let s' := (execute_reply_group_join g actor target accept now s).2 in
   groupMembers (committed s) !! (g, u) = None → is_Some (groupMembers (committed s') !! (g, u)) →
   accept = true ∧ u = target ∧ is_Some (groupApplys (committed s) !! (g, target)) ∧
   ∃ row, groupInfo (committed s) !! g = Some row ∧ actor = g_masterUid row).
Proof.
  intros Hs. split; intros s' H1 H2.
  - assert (∀ a d', remove_effect (committed s) g actor target dissolve a d' →
      groupMembers d' !! (g, u) = None →
      ∃ row, groupInfo (committed s) !! g = Some row ∧ (actor = g_masterUid row ∨ actor = u)) as Hrem.
    { destruct 1 as [| | |row Hrow Ha Hm Et Ed|row Hrow Ha Hm Het]; simpl; intros Hn;
        try (rewrite Hn in H1; by destruct H1).
      - exists row. split; [done|]. destruct Ha as [?| ->]; [by left|]. left. done.
      - exists row. split; [done|]. apply lookup_delete_None in Hn as [[= <-]|Hn]; [done|].
        rewrite Hn in H1. by destruct H1. }
    destruct (remove_group_member_refines s g actor target dissolve Hs) as [(a & _ & He)|[_ [E|[a He]]]].
    + by eapply Hrem.
    + fold s' in E. rewrite E in H2. rewrite H2 in H1. by destruct H1.
    + by eapply Hrem.
  - assert (∀ a d', reply_effect (committed s) g actor target accept now a d' →
      is_Some (groupMembers d' !! (g, u)) →
      accept = true ∧ u = target ∧ is_Some (groupApplys (committed s) !! (g, target)) ∧
      ∃ row, groupInfo (committed s) !! g = Some row ∧ actor = g_masterUid row) as Hrep.
    { destruct 1 as [| | |row|row conv|row]; simpl; rewrite ?H1; try (by intros []);
        intros [[= ->]|[_ [t Ht]]]%lookup_insert_is_Some; try congruence; eauto 7. }
    destruct (reply_group_join_refines s g actor target accept now Hs) as [(a & _ & He)|[_ [E|[a He]]]].
    + by eapply Hrep.
    + fold s' in E. rewrite E, H1 in H2. by destruct H2.
    + by eapply Hrep.
Qed.

Lemma ack_driver s id uid dev c seq st t a :
  working s = None →
  (driver_execute (acknowledge_conversation_message id uid dev c seq st t) s).1 = Ok a →
  ack_effect (committed s) id uid dev c seq st t a
    (committed (driver_execute (acknowledge_conversation_message id uid dev c seq st t) s).2).
Proof.
  intros Hs Hr. destruct (driver_execute_inv _ _ _ Hs Hr) as (s0 & <- & Hw & _ & E).
  pose proof (acknowledge_refines s0 id uid dev c seq st t Hw) as Ho. simpl in E, Ho.
  rewrite E in Ho. by destruct Ho as [(a' & [= <-] & ?)|[[[]|(a' & _ & [])] _]].
Qed.

(** The sender of a direct message is told of its reading at most once:
    after an acknowledgement reported readStateChanged, no later one for the
    same message does, whoever sends it. *)
Theorem read_receipt_once s s2 id uid dev c seq st t uid' dev' c' seq' st' t' a b :
  working s = None →
  (driver_execute (acknowledge_conversation_message id uid dev c seq st t) s).1 = Ok a →
  ack_readStateChanged a = true →
  rtc store_step (driver_execute (acknowledge_conversation_message id uid dev c seq st t) s).2 s2 →
  (driver_execute (acknowledge_conversation_message id uid' dev' c' seq' st' t') s2).1 = Ok b →
  ack_readStateChanged b = false.
Proof.
  intros Hw Ha Hch Hr Hb. pose proof (ack_driver _ _ _ _ _ _ _ _ _ Hw Ha) as Heff.
  destruct (driver_execute_ok _ (extends_closed _) (acknowledge_conversation_message id uid dev c seq st t)
              s I Hw (extends_refl _)) as [Hw1 _].
  destruct (reachable_keeps _ _ _ (extends_closed _) Hr Hw1 (extends_refl _)) as [Hw2 Hext].
  pose proof (ack_driver _ _ _ _ _ _ _ _ _ Hw2 Hb) as Heff2.
  set (d1 := committed (driver_execute (acknowledge_conversation_message id uid dev c seq st t) s).2) in *.
  assert (∃ m, messages d1 !! id = Some m ∧ (3 ≤ m_status m)%Z) as (m & Hm & Hst).
  { destruct Heff as [|type r sd old Hpos Ho direct]; [done|]. simpl in Hch.
    apply andb_true_iff in Hch as [[Hd E3]%andb_true_iff _].
    destruct (owner_of_Some _ _ _ _ _ _ _ _ _ _ Ho) as (m & _ & Hm & _).
    unfold acknowledged. fold direct in Hd |- *. rewrite Hd. simpl. rewrite lookup_alter_eq, Hm.
    eexists. split; [done|]. simpl. apply Z.eqb_eq in E3. simpl in E3. lia. }
  destruct (Hext _ _ Hm) as (m2 & Hm2 & (_ & _ & _ & _ & _ & _ & _ & _ & Hle)).
  destruct Heff2 as [|type r sd old Hpos Ho direct]; [done|]. simpl.
  destruct (owner_of_Some _ _ _ _ _ _ _ _ _ _ Ho) as (m3 & _ & Hm3 & _ & _ & _ & _ & _ & _ & _ & Hold).
  rewrite Hm2 in Hm3. simplify_eq. apply andb_false_iff. right. apply Z.ltb_ge. lia.
Qed.

(** Acknowledgements only move forward: whatever its outcome, an
    acknowledgement lowers no delivered or read cursor of any user, no device
    cursor and no message status. *)
Theorem acknowledge_monotone s id uid dev c seq st t :
  let s' := (execute_acknowledge id uid dev c seq st t s).2 in
  working s = None →
  extends (committed s) (committed s') ∧
  (∀ k x, conversationUserStates (committed s) !! k = Some x →
     ∃ x', conversationUserStates (committed s') !! k = Some x' ∧
           us_joinedSeq x' = us_joinedSeq x ∧
           (us_deliveredSeq x ≤ us_deliveredSeq x')%Z ∧ (us_readSeq x ≤ us_readSeq x')%Z) ∧
  (∀ k q, conversationDeviceStates (committed s) !! k = Some q →
     ∃ q', conversationDeviceStates (committed s') !! k = Some q' ∧ (q ≤ q')%Z).
Proof.
  intros s' Hs.
  set (Q := λ d', extends (committed s) d' ∧
    (∀ k x, conversationUserStates (committed s) !! k = Some x →
       ∃ x', conversationUserStates d' !! k = Some x' ∧ us_joinedSeq x' = us_joinedSeq x ∧
             (us_deliveredSeq x ≤ us_deliveredSeq x')%Z ∧ (us_readSeq x ≤ us_readSeq x')%Z) ∧
    (∀ k q, conversationDeviceStates (committed s) !! k = Some q →
       ∃ q', conversationDeviceStates d' !! k = Some q' ∧ (q ≤ q')%Z)).
  assert (Q (committed s)) as HQ0.
  { split_and!; [apply extends_refl|intros k x Hk; exists x|intros k q Hk; exists q]; done. }
  assert (∀ a d', ack_effect (committed s) id uid dev c seq st t a d' → Q d') as HQ.
  { intros a d' He. split; [by eapply ack_extends, He; apply extends_refl|].
    destruct He as [|type r sd old Hpos Ho direct]; [by apply HQ0|].
    unfold acknowledged. split.
    - intros k x Hk. assert (∃ x', alter (advance_state seq st) (c, uid)
        (conversationUserStates (committed s)) !! k = Some x' ∧ us_joinedSeq x' = us_joinedSeq x ∧
        (us_deliveredSeq x ≤ us_deliveredSeq x')%Z ∧ (us_readSeq x ≤ us_readSeq x')%Z)
        as Hx; [|by destruct direct].
      destruct (decide (k = (c, uid))) as [->|Hne].
      + rewrite lookup_alter_eq, Hk. eexists. split; [done|]. unfold advance_state. simpl.
        destruct (st =? 3)%Z; lia.
      + rewrite lookup_alter_ne by done. exists x. split; [done|lia].
    - intros k q Hk. destruct direct; simpl; (destruct (decide (k = (c, weight dev))) as [->|Hne];
        [rewrite lookup_insert_eq, Hk; eexists; split; [done|]; simpl; lia
        |rewrite lookup_insert_ne by done; exists q; split; [done|lia]]). }
  exact (outcome_preserves Q _ _ _ _ _ (acknowledge_refines s id uid dev c seq st t Hs) HQ HQ0).
Qed.

Lemma is_i64_true z : (- two63 ≤ z < two63)%Z → is_i64 z = true.
Proof. intros. by apply bool_decide_eq_true. Qed.

Lemma bigint_true z : (0 ≤ z < two64)%Z → bigint_unsigned z = true.
Proof. intros. by apply bool_decide_eq_true. Qed.

Lemma next_position_free d c row m :
  sequence_ok (conversations d) (messages d) → conversations d !! c = Some row →
  m_conversationId m = c → m_conversationSeq m = (cv_latestSeq row + 1)%Z →
  ∀ k m', messages d !! k = Some m' → same_position m m' = false.
Proof.
  intros Hok Hrow Ec Eq k m' Hk. unfold same_position. apply andb_false_iff.
  destruct (decide (m_conversationId m' = c)) as [E|E].
  - right. apply Z.eqb_neq. destruct (seq_bound _ _ Hok _ _ Hk) as (cv & Hcv & ?).
    rewrite E, Hrow in Hcv. simplify_eq. lia.
  - left. apply Z.eqb_neq. congruence.
Qed.

(** The statements that store a new message succeed when its position and
    client id are free. *)
Lemma append_succeeds d id c row m :
  sequence_ok (conversations d) (messages d) → conversations d !! c = Some row →
  message_in_range m = true → m_conversationId m = c → m_conversationSeq m = (cv_latestSeq row + 1)%Z →
  messages d !! id = None → (∀ k m', messages d !! k = Some m' → same_client m m' = false) →
  ∃ d1, update_latest_seq (cv_latestSeq row + 1) c d = inr (d1, tt) ∧
        insert_message m id d1 = inr (append d c row id m, tt).
Proof.
  intros Hok Hrow Hin Ec Eq Hid Hdup.
  assert (bigint_unsigned (cv_latestSeq row + 1) = true) as Hb.
  { unfold message_in_range in Hin. rewrite !andb_true_iff, Eq in Hin. tauto. }
  eexists. split; [by apply (update_latest_seq_inr _ _ _ _ _ _ Hrow)|].
  apply insert_message_inr. simpl. split_and!; [done|done| |by rewrite <- Eq].
  intros k m' Hk. split; [by eapply next_position_free|by eapply Hdup].
Qed.

(** Sending works: between friends, with a client id not used before and
    no fault ahead, a direct message is accepted, gets the next position of the
    conversation, and is in the database when the call returns. *)
Theorem accept_direct_text_succeeds s sender receiver client content type time c row :
  let d := committed s in
  let id := auto_increment s in
  working s = None → faults s = [] → store_ok d →
  direct_conversation d (Z.min sender receiver) (Z.max sender receiver) = Some c →
  conversations d !! c = Some row → (c < two63)%Z → (cv_latestSeq row + 1 < two63)%Z →
  (∀ k m, messages d !! k = Some m → is_duplicate sender client m = false) → messages d !! id = None →
  (0 ≤ sender < two63)%Z → (0 ≤ receiver < two63)%Z → smallint type = true →
  let run := execute_accept_direct_text sender receiver client content time type s in
  run.1 = Ok (MkAccept Success "" false (i64 id) c (cv_latestSeq row + 1)) ∧
  messages (committed run.2) !! id =
    Some (new_message sender receiver c (cv_latestSeq row + 1) client content type time).
Proof.
  intros d id Hw Hf Hok Hc Hrow Hc63 Hl63 Hnew Hid Hs Hr Ht.
  assert (0 ≤ c)%Z as Hc0 by (apply (ok_keys _ Hok); eauto).
  pose proof (seq_latest _ _ (ok_sequence _ Hok) _ _ Hrow) as Hl0.
  assert (i64 (cv_latestSeq row + 1) = cv_latestSeq row + 1)%Z as Ei by (apply i64_id; lia).
  assert (two63 < two64)%Z as H64 by done.
  set (m := new_message sender receiver c (cv_latestSeq row + 1) client content type time).
  enough (wp (execute_accept_direct_text sender receiver client content time type)
    (λ r s', r = Ok (MkAccept Success "" false (i64 id) c (cv_latestSeq row + 1)) ∧
             messages (committed s') !! id = Some m) (idle d (ambient_of s))) as Hwp.
  { unfold wp, d in Hwp. rewrite <- quiet_idle in Hwp by done.
    by replace (quiet s) with s in Hwp by (destruct s; simpl in *; by subst). }
  unfold execute_accept_direct_text, select_latest_seq, select_duplicate.
  change (select_direct_conversation (sender `min` receiver) (sender `max` receiver))
    with (sql_read (λ d, direct_conversation d (sender `min` receiver) (sender `max` receiver))).
  destruct (append_succeeds (with_states d [(c, sender); (c, receiver)]) id c row m)
    as (d1 & Hupd & Hins); try done; [apply Hok| |].
  { unfold message_in_range, m. simpl. rewrite Ht, !bigint_true by lia. done. }
  wp_run; rewrite ?Hc in *; simplify_eq/=.
  all: try (by rewrite is_i64_true in * by lia).
  all: try (rewrite Hrow in *; simplify_eq/=).
  all: try (by rewrite is_i64_true in * by lia).
  all: repeat match goal with
    | H : insert_states_ignore _ _ = _ |- _ => injection H as <-
    end; simpl in *; rewrite ?Hrow in *; simplify_eq/=.
  all: rewrite ?Ei in *; unfold with_states in Hupd; simpl in Hupd.
  - destruct a2 as [k m']. apply select_head_Some in H5 as [Hk Hd]. by rewrite (Hnew _ _ Hk) in Hd.
  - rewrite Hupd in H7. injection H7 as <- <-.
    change (insert_message m id d1 = inr (d'1, tt)) in H8. rewrite Hins in H8. injection H8 as <-.
    split; [done|]. simpl. by rewrite lookup_insert_eq.
  - rewrite Hupd in H7. injection H7 as <- <-.
    change (insert_message m id d1 = inl e) in H8. by rewrite Hins in H8.
  - by rewrite Hupd in H7.
  - by rewrite is_i64_true in H6 by lia.
Qed.

Lemma mapM_Forall {W A B} (f : A → Eff W B) (P : A → Prop) (Q : B → Prop) l w :
  (∀ x w y, P x → (f x w).1 = Ok y → Q y) → Forall P l → ∀ l', (mapM f l w).1 = Ok l' → Forall Q l'.
Proof.
  intros Hf Hl. revert w. induction Hl as [|x l Hx _ IH]; intros w l'; simpl; [by intros [= <-]|].
  rewrite bind_eq. destruct (f x w) as [[y|e] w1] eqn:Ef; simpl; [|done]. rewrite bind_eq.
  destruct (mapM f l w1) as [[ys|e] w2] eqn:Em; simpl; [|done]. intros [= <-]. constructor.
  - eapply (Hf x w); [done|]. by rewrite Ef.
  - apply (IH w1). by rewrite Em.
Qed.

Lemma query_read_Ok {A} (f : database → A) s a : (query (sql_read f) s).1 = Ok a → ∃ d, a = f d.
Proof.
  unfold query, attempt, sql_read. rewrite bind_eq. simpl.
  destruct (default NoFault _); simpl; [intros [= <-]; eauto|done|]. unfold mbind, eff_bind. by simpl.
Qed.

(** Every application in a user's list names that user as the one who applied:
    of the two rows of an application the list is read from the user's own. *)
Lemma applications_name_requester uid s l :
  (execute (get_friend_apply_list uid) s).1 = Ok (Some l) → Forall (λ a, fa_from a = uid) l.
Proof.
  simpl. unfold execute_get_friend_apply_list. rewrite bind_eq.
  match goal with |- context [query ?q s] => pose proof (query_read_Ok _ s : ∀ a, (query q s).1 = Ok a → _) as Hq end.
  destruct (query _ s) as [[rows|e] s1]; simpl in *; [|done].
  destruct (Hq rows eq_refl) as (d & Hrows). clear Hq.
  assert (Forall (λ r : Z * Z * friend_apply_row, r.1.1 = uid) rows) as Hall.
  { subst rows. apply Forall_forall. intros [k r] [_ [_ Hk]%andb_true_iff]%elem_of_select. by apply Z.eqb_eq. }
  clear Hrows. destruct rows as [|r0 rows0] eqn:Er; [done|]. rewrite <- Er in *. clear Er. rewrite bind_eq.
  match goal with |- context [mapM ?f rows s1] => pose proof (λ H, mapM_Forall f _ (λ a, fa_from a = uid) rows s1 H Hall) as Hm end.
  destruct (mapM (M := Eff server) _ rows s1) as [[l0|e] s2]; simpl; [|done]. intros [= <-]. apply Hm; [|done].
  intros [[x y] r] w a Hx. simpl in *. subst x. rewrite bind_eq. unfold field_u64 at 1.
  destruct (is_u64 uid); simpl; [|done]. rewrite bind_eq. unfold field_u64. destruct (is_u64 y); simpl; [|done]. by intros [= <-].
Qed.

End guarantees.

(** ** The theorems on a concrete run *)

Section runs.
#[local] Existing Instance demo_mysql.
#[local] Existing Instance demo_hash.

Definition demo_hello := accept_direct_text 1001 1002 "k1" "hello" "2026-05-19 00:00:01" 1.
Definition demo_sent : server := demo_run demo_hello demo_friends.

Lemma demo_step : store_step demo_friends demo_sent.
Proof. exact (step_operation demo_hello demo_friends I (proj1 demo_friends_ok)). Qed.

Lemma store_invariant_witness :
  store_ok (committed demo_sent) ∧ size (messages (committed demo_sent)) = 1.
Proof.
  split; [|vm_compute; reflexivity].
  apply (store_invariant demo_friends demo_sent); [|apply demo_friends_ok..].
  apply rtc_once, demo_step.
Defined.

Lemma messages_persist_witness :
  extends (committed demo_friends) (committed demo_sent).
Proof.
  apply (messages_persist demo_friends demo_sent); [|apply demo_friends_ok].
  apply rtc_once, demo_step.
Defined.

Lemma resend_is_duplicate_witness :
  let again := accept_direct_text 1001 1002 "k1" "hello" "2026-05-19 00:09:09" 1 in
  (driver_execute again demo_sent).1 = Ok (MkAccept Success "" true 1 92001 1) ∧
  messages (committed (driver_execute again demo_sent).2) = messages (committed demo_sent).
Proof.
  split; [vm_compute; reflexivity|].
  refine (proj2 (resend_is_duplicate demo_friends demo_sent 1001 1002 "k1" "hello"
    "2026-05-19 00:00:01" "2026-05-19 00:09:09" 1 (MkAccept Success "" false 1 92001 1)
    (MkAccept Success "" true 1 92001 1) (proj1 demo_friends_ok) (proj2 demo_friends_ok)
    _ _ _ (rtc_refl _ _) _ _)); vm_compute; reflexivity.
Defined.

Lemma transactions_refine_witness :
  transaction_outcome
    (direct_effect (committed demo_friends) (auto_increment demo_friends) 1001 1002 "k1" "hello" 1 "2026-05-19 00:00:01")
    (λ a, ar_error a = MysqlFailed) (committed demo_friends)
    (driver_execute demo_hello demo_friends).1 (committed demo_sent) ∧
  (driver_execute demo_hello demo_friends).1 = Ok (MkAccept Success "" false 1 92001 1).
Proof.
  split; [|vm_compute; reflexivity].
  exact (transactions_refine demo_friends _ demo_hello _ _ (proj1 demo_friends_ok)
    (spec_direct_text demo_friends 1001 1002 "k1" "hello" "2026-05-19 00:00:01" 1)).
Defined.

Lemma accept_group_message_outcome_witness :
  let run := execute_accept_group_message 1003 3001 "k2" "hello" 1 "t" false demo_group in
  run.1 = Ok (MkGroupAccept (MkAccept Success "" false 1 93001 1) 3001 [1001%Z]) ∧
  transaction_outcome
    (group_message_effect (committed demo_group) (auto_increment demo_group) 1003 3001 "k2" "hello" 1 "t" false)
    (λ a, ar_error (gar_base a) = MysqlFailed) (committed demo_group) run.1 (committed run.2).
Proof.
  split; [vm_compute; reflexivity|].
  exact (proj1 (accept_group_message_outcome demo_group 1003 3001 "k2" "hello" 1 "t" false (proj1 demo_group_ok))).
Defined.

(** The owner removes member 1003: the member row goes, and the actor is the
    owner. *)
Lemma membership_authority_witness :
  ∃ row, groupInfo (committed demo_group) !! 3001%Z = Some row ∧ (1001 = g_masterUid row ∨ 1001 = 1003)%Z.
Proof.
  apply (proj1 (membership_authority demo_group 3001 1001 1003 false true "t" 1003 (proj1 demo_group_ok)));
    vm_compute; eauto.
Defined.

Definition demo_read := acknowledge_conversation_message 1 1002 "phone" 92001 1 3 "t".

Lemma read_receipt_once_witness :
  (∃ a, (driver_execute demo_read demo_sent).1 = Ok a ∧ ack_readStateChanged a = true) ∧
  (∃ b, (driver_execute demo_read (demo_run demo_read demo_sent)).1 = Ok b ∧ ack_readStateChanged b = false).
Proof.
  split; [eexists; split; vm_compute; reflexivity|].
  eexists. split; [vm_compute; reflexivity|].
  eapply (read_receipt_once demo_sent (demo_run demo_read demo_sent) 1 1002 "phone" 92001 1 3 "t"
    1002 "phone" 92001 1 3 "t").
  4: apply rtc_refl.
  all: vm_compute; reflexivity.
Defined.

Lemma acknowledge_monotone_witness :
  extends (committed demo_sent) (committed (execute_acknowledge 1 1002 "phone" 92001 1 3 "t" demo_sent).2).
Proof.
  refine (proj1 (acknowledge_monotone demo_sent 1 1002 "phone" 92001 1 3 "t" _)). vm_compute. reflexivity.
Defined.

Lemma accept_direct_text_succeeds_witness :
  (execute_accept_direct_text 1001 1002 "k1" "hello" "t" 1 demo_friends).1 =
    Ok (MkAccept Success "" false 1 92001 1).
Proof.
  refine (proj1 (accept_direct_text_succeeds demo_friends 1001 1002 "k1" "hello" 1 "t" 92001
    (MkConversationRow 1 9001 0 "2026-05-19 00:00:00") (proj1 demo_friends_ok) _ (proj2 demo_friends_ok)
    _ _ _ _ _ _ _ _ _)); try (vm_compute; reflexivity); try (by vm_compute; split).
  intros k m Hk. exfalso. vm_compute in Hk. discriminate.
Defined.
End runs.
