(* ===== verification/Pagination.v ===== *)
(** * Pulling a conversation (mysql_store.cc:403)

    A page is a run of consecutive positions, and a client that follows
    nextSeq while hasMore is set receives every visible message once, in order. *)

From S2P Require Import Prelude Codec Schema Records MysqlStore Atomicity Wp StoreSpec.
From S2P Require Import StoreInvariant Demo.
Import db.

Section pages.
Context `{!MysqlServer} `{!StdHash}.

(** The rows a page is cut from. *)
Definition visible_rows (d : database) (c after left : Z) : list (Z * message_row) :=
  merge_sort by_seq (select (λ _ m, visible c after left m) (messages d)).

Definition row_seq (km : Z * message_row) : Z := m_conversationSeq km.2.

#[local] Instance by_seq_total : Total by_seq.
Proof. intros x y. unfold by_seq. lia. Qed.

Lemma visible_spec c after left m :
  visible c after left m = true ↔
  m_conversationId m = c ∧ (after < m_conversationSeq m ≤ left)%Z.
Proof. unfold visible. rewrite !andb_true_iff, Z.eqb_eq, Z.ltb_lt, Z.leb_le. lia. Qed.

Lemma elem_of_visible_rows d c after left id m :
  (id, m) ∈ visible_rows d c after left ↔
  messages d !! id = Some m ∧ m_conversationId m = c ∧ (after < m_conversationSeq m ≤ left)%Z.
Proof.
  unfold visible_rows. rewrite merge_sort_Permutation, elem_of_select, visible_spec. done.
Qed.

Lemma sorted_map_seq l : Sorted by_seq l → Sorted Z.le (map row_seq l).
Proof.
  induction 1 as [|x l Hs IH Hd]; simpl; [constructor|]. constructor; [done|].
  destruct Hd; simpl; constructor. done.
Qed.

Lemma sorted_seqZ m n : Sorted Z.le (seqZ m n).
Proof.
  destruct (decide (n ≤ 0)%Z) as [Hn|Hn]; [rewrite seqZ_nil by lia; constructor|].
  revert m. pattern n. apply Zlt_0_ind; [|lia]. clear n Hn. intros n IH Hn m.
  destruct (decide (n = 0)%Z) as [->|Hne]; [constructor|].
  rewrite seqZ_cons by lia. constructor; [apply IH; lia|].
  destruct (decide (n = 1)%Z) as [->|Hne1]; [constructor|].
  rewrite (seqZ_cons (Z.succ m)) by lia. constructor. lia.
Qed.

(** The positions of the visible rows are consecutive: after+1, ..., left. *)
Lemma visible_rows_seq d c cv after :
  store_ok d → conversations d !! c = Some cv → (0 ≤ after)%Z →
  map row_seq (visible_rows d c after (cv_latestSeq cv)) =
  seqZ (after + 1) (cv_latestSeq cv - after).
Proof.
  intros Hok Hcv Ha. apply (Sorted_unique Z.le).
  - apply sorted_map_seq, Sorted_merge_sort, _.
  - apply sorted_seqZ.
  - apply NoDup_Permutation; [|apply NoDup_seqZ|].
    + unfold visible_rows. rewrite merge_sort_Permutation.
      apply NoDup_fmap_2_strong; [|apply NoDup_filter, NoDup_map_to_list].
      intros [k m] [k' m'] [Hk [E1 _]%visible_spec]%elem_of_select [Hk' [E2 _]%visible_spec]%elem_of_select E.
      unfold row_seq in E. simpl in E.
      assert (k = k') as -> by (eapply (seq_unique _ _ (ok_sequence _ Hok)); [done|done|congruence|done]).
      congruence.
    + intros q. rewrite list_elem_of_fmap, elem_of_seqZ. split.
      * intros ([k m] & -> & (Hk & E & ?)%elem_of_visible_rows). unfold row_seq. simpl. lia.
      * intros Hq. destruct (seq_dense _ _ (ok_sequence _ Hok) _ _ q Hcv) as (k & m & Hk & E1 & E2); [lia|].
        exists (k, m). split; [done|]. apply elem_of_visible_rows. split_and!; [done|done|lia|lia].
Qed.

(** ** One page *)

Definition record_of (d : database) (now : string) (km : Z * message_row) : ConversationMessageRecord :=
  MkMessageRecord km.1 (m_senderId km.2) (m_receiverId km.2) (m_conversationId km.2)
    (m_conversationSeq km.2) (default "" (m_clientMessageId km.2)) (m_type km.2)
    (m_content km.2) (m_status km.2) (m_sendDateTime km.2) (m_readDateTime km.2)
    (attachment d now km.2).

(** The columns that are read as int64_t fit. *)
Definition row_fits (km : Z * message_row) : bool :=
  is_i64 km.1 && is_i64 (m_senderId km.2) && is_i64 (m_receiverId km.2) &&
  is_i64 (m_conversationId km.2) && is_i64 (m_conversationSeq km.2).

Lemma message_record_fits {W} d now km (w : W) :
  row_fits km = true → message_record (km, attachment d now km.2) w = (Ok (record_of d now km), w).
Proof.
  destruct km as [id m]. unfold row_fits. simpl. rewrite !andb_true_iff. intros [[[[H1 H2] H3] H4] H5].
  unfold message_record, field_i64. by rewrite H1, H2, H3, H4, H5.
Qed.

#[local] Arguments message_record : simpl never.

Lemma fill_page_spec {W} d now n rows sync (w : W) :
  Forall (λ km, row_fits km = true) rows → length (sr_messages sync) ≤ n →
  let room := n - length (sr_messages sync) in
  fill_page n (map (λ km, (km, attachment d now km.2)) rows) sync w =
  (Ok (MkSync (sr_error sync) (sr_conversationType sync) (sr_latestSeq sync)
         (default (sr_nextSeq sync) (row_seq <$> last (take room rows)))
         (sr_hasMore sync || bool_decide (room < length rows))
         (sr_messages sync ++ map (record_of d now) (take room rows))), w).
Proof.
  intros Hf. revert sync. induction Hf as [|km rows Hkm _ IH]; intros sync Hn room; simpl.
  - destruct sync; simpl in *. rewrite take_nil, app_nil_r. simpl. by rewrite orb_false_r.
  - destruct (bool_decide (n ≤ length (sr_messages sync))) eqn:E.
    + apply bool_decide_eq_true in E. assert (room = 0) as -> by (unfold room; lia). simpl.
      destruct sync; simpl. rewrite app_nil_r. by rewrite orb_true_r.
    + apply bool_decide_eq_false in E. rewrite bind_eq, message_record_fits by done. simpl.
      rewrite IH by (simpl; rewrite length_app; simpl; lia). simpl.
      rewrite length_app. simpl. assert (room = S (n - (length (sr_messages sync) + 1))) as -> by (unfold room; lia).
      simpl. rewrite <- app_assoc. simpl. set (k := n - (length (sr_messages sync) + 1)). do 3 f_equal.
      * rewrite last_cons. by destruct (last (take k rows)).
      * f_equal. apply bool_decide_ext. lia.
Qed.

(** The page a pull returns when it succeeds. *)
Definition page (d : database) (now : string) (type latest c after : Z) (n : nat) : ConversationSyncResult :=
  let rows := visible_rows d c after latest in
  MkSync Success type latest (default after (row_seq <$> last (take n rows)))
    (bool_decide (n < length rows)) (map (record_of d now) (take n rows)).

(** Every message column of the conversation that a pull reads fits. *)
Definition rows_fit (d : database) : Prop := ∀ id m, messages d !! id = Some m → row_fits (id, m) = true.

Lemma take_S_take {A} (n : nat) (l : list A) : take n (take (n + 1) l) = take n l.
Proof. rewrite take_take. f_equal. lia. Qed.

Lemma bounded_count_range k : (1 ≤ bounded_count k ≤ 100)%Z.
Proof. unfold bounded_count. lia. Qed.

(** The user takes part in the conversation and sees it. *)
Definition participates (d : database) (uid c : Z) (cv : conversation_row) (st : user_state_row) : Prop :=
  conversations d !! c = Some cv ∧ conversationUserStates d !! (c, uid) = Some st ∧
  (cv_type cv ≠ 2%Z ∨ group_membership d c uid = true).

Lemma sync_conversation_run d z uid c after count cv st :
  participates d uid c cv st → rows_fit d → is_i64 (cv_latestSeq cv) = true →
  is_i64 (us_joinedSeq st) = true → (0 < uid)%Z → (0 < c)%Z → (0 ≤ after)%Z →
  execute_sync_conversation uid c after count (idle d z) =
  (Ok (page d (am_clock z (am_ticks z)) (cv_type cv) (cv_latestSeq cv) c
         (Z.max after (us_joinedSeq st - 1)) (Z.to_nat (bounded_count count))), idle d (tick z)).
Proof.
  intros (Hcv & Hst & Hm) Hfit Hl Hj Hu Hc Ha. set (eff := Z.max after (us_joinedSeq st - 1)).
  pose proof (bounded_count_range count) as Hb.
  assert (Forall (λ km, row_fits km = true)
            (take (Z.to_nat (bounded_count count + 1)) (visible_rows d c eff (cv_latestSeq cv)))) as Hall.
  { apply Forall_take, Forall_forall. intros [id m] (Hk & _)%elem_of_visible_rows. eauto. }
  enough (wp (execute_sync_conversation uid c after count) (λ r s',
    r = Ok (page d (am_clock z (am_ticks z)) (cv_type cv) (cv_latestSeq cv) c eff
              (Z.to_nat (bounded_count count))) ∧ s' = idle d (tick z)) (idle d z)) as [E1 E2].
  { rewrite (surjective_pairing (execute_sync_conversation _ _ _ _ _)). by rewrite E1, E2. }
  assert (select_membership c uid d =
    inr (d, Some (cv_latestSeq cv, us_joinedSeq st, cv_type cv))) as Hmem.
  { unfold select_membership, sql_read. rewrite Hcv. simpl. rewrite Hst. simpl.
    destruct Hm as [Ht%Z.eqb_neq|Hg]; [by rewrite Ht|]. by rewrite Hg, orb_true_r. }
  unfold execute_sync_conversation, select_page. apply wp_if; intros Hg.
  { exfalso. rewrite !orb_true_iff, !Z.leb_le, Z.ltb_lt in Hg. lia. }
  apply wp_bind, wp_query_idle; intros *; rewrite Hmem; [intros [= <- <-]|done].
  cbv beta iota. wp_run; try congruence.
  fold eff. fold (visible_rows d c eff (cv_latestSeq cv)). unfold wp. rewrite fill_page_spec by (done || simpl; lia).
  simpl. split; [|done]. unfold page. rewrite Nat.sub_0_r.
  replace (Z.to_nat (bounded_count count + 1)) with (Z.to_nat (bounded_count count) + 1) by lia.
  rewrite take_S_take, length_take. set (n := Z.to_nat (bounded_count count)).
  set (rows := visible_rows d c eff (cv_latestSeq cv)). do 3 f_equal.
  - destruct (take n rows) as [|km l]; [done|]. by rewrite last_cons; destruct (last l).
  - apply bool_decide_ext. lia.
Qed.

(** ** Following the pages *)

(** A client that pulls until hasMore is false; [None] when the fuel runs out
    or a pull does not succeed. *)
Fixpoint pull_all (fuel : nat) (uid c after count : Z) (s : server) :
    option (list ConversationMessageRecord) :=
  match fuel with
  | 0 => None
  | S fuel =>
    match execute_sync_conversation uid c after count s with
    | (Ok r, s') =>
      if bool_decide (sr_error r = Success) then
        if sr_hasMore r then
          rest ← pull_all fuel uid c (sr_nextSeq r) count s';
          Some (sr_messages r ++ rest)
        else Some (sr_messages r)
      else None
    | (Throw _, _) => None
    end
  end.

(** A record shows the stored message. *)
Definition shows (d : database) (c : Z) (r : ConversationMessageRecord) : Prop :=
  ∃ m, messages d !! cmr_messageId r = Some m ∧ m_conversationId m = c ∧
    cmr_conversationSeq r = m_conversationSeq m ∧ cmr_senderId r = m_senderId m ∧
    cmr_content r = m_content m ∧ cmr_type r = m_type m ∧ cmr_status r = m_status m.

Lemma page_shows d now type latest c after n : Forall (shows d c) (sr_messages (page d now type latest c after n)).
Proof.
  unfold page. simpl. apply Forall_forall. intros r Hr.
  apply list_elem_of_fmap in Hr as ([id m] & -> & Hin).
  assert ((id, m) ∈ visible_rows d c after latest) as (Hm & Ec & _)%elem_of_visible_rows.
  { by eapply subseteq_take. }
  by exists m.
Qed.

Lemma take_seqZ m k (n : nat) :
  (0 ≤ k)%Z → take n (seqZ m k) = seqZ m (Z.min (Z.of_nat n) k).
Proof.
  intros Hk. destruct (decide (Z.of_nat n ≤ k)%Z) as [Hn|Hn].
  - replace k with (Z.of_nat n + (k - Z.of_nat n))%Z at 1 by lia.
    rewrite seqZ_app by lia. replace n with (length (seqZ m (Z.of_nat n))) at 1 by (rewrite length_seqZ; lia).
    rewrite take_app_length. f_equal. lia.
  - rewrite take_ge by (rewrite length_seqZ; lia). f_equal. lia.
Qed.

Lemma last_seqZ m k : (0 < k)%Z → last (seqZ m k) = Some (m + k - 1)%Z.
Proof.
  intros Hk. rewrite last_lookup, length_seqZ, lookup_seqZ. split; lia.
Qed.

(** What a page of the conversation contains. *)
Lemma page_spec d now cv c after n :
  store_ok d → conversations d !! c = Some cv → (0 ≤ after)%Z → (after ≤ cv_latestSeq cv)%Z →
  let p := page d now (cv_type cv) (cv_latestSeq cv) c after n in
  let k := Z.min (Z.of_nat n) (cv_latestSeq cv - after) in
  map cmr_conversationSeq (sr_messages p) = seqZ (after + 1) k ∧
  sr_nextSeq p = (after + k)%Z ∧
  sr_hasMore p = bool_decide (Z.of_nat n < cv_latestSeq cv - after)%Z.
Proof.
  intros Hok Hcv Ha Hle p k. pose proof (visible_rows_seq d c cv after Hok Hcv Ha) as Hseq.
  set (rows := visible_rows d c after (cv_latestSeq cv)) in *.
  assert (map row_seq (take n rows) = seqZ (after + 1) k) as Htake.
  { rewrite <- firstn_map, Hseq. apply take_seqZ. lia. }
  split_and!.
  - unfold p, page. simpl. rewrite map_map. exact Htake.
  - unfold p, page. simpl. fold rows. rewrite <- fmap_last. change (row_seq <$> take n rows) with (map row_seq (take n rows)).
    rewrite Htake. destruct (decide (0 < k)%Z) as [Hk|Hk].
    + rewrite last_seqZ by done. simpl. lia.
    + rewrite seqZ_nil by lia. simpl. lia.
  - unfold p, page. simpl. apply bool_decide_ext. fold rows.
    assert (length rows = Z.to_nat (cv_latestSeq cv - after)) as ->; [|lia].
    rewrite <- (length_map row_seq), Hseq. apply length_seqZ.
Qed.

(** C29: a client that follows nextSeq while hasMore is set gets the whole
    visible history of a store that does not change and does not fail meanwhile:
    the pull loop ends (with fuel for one pull per message),
    every pull succeeds, and the records are exactly positions
    max(after, joined-1)+1 .. latestSeq, in order and without gaps or
    repetitions, each showing the message stored at that position. *)
Theorem pull_all_complete s uid c after count cv st fuel :
  let d := committed s in
  let start := Z.max after (us_joinedSeq st - 1) in
  working s = None → faults s = [] → store_ok d → participates d uid c cv st → rows_fit d →
  (cv_latestSeq cv + 1 < two63)%Z → (0 < uid)%Z → (0 < c)%Z → (0 ≤ after)%Z →
  (start ≤ cv_latestSeq cv)%Z → (Z.to_nat (cv_latestSeq cv - start) < fuel)%nat →
  ∃ l, pull_all fuel uid c after count s = Some l ∧
       map cmr_conversationSeq l = seqZ (start + 1) (cv_latestSeq cv - start) ∧
       Forall (shows d c) l.
Proof.
  intros d start Hw Hf Hok Hp Hfit Hmax Hu Hc Ha Hs Hfuel.
  assert (is_i64 (us_joinedSeq st) = true ∧ is_i64 (cv_latestSeq cv) = true) as [Hj Hl].
  { destruct Hp as (Hcv & Hst & _). destruct (ok_states _ Hok _ _ _ Hst) as (cv' & Hcv' & (? & _)).
    pose proof (seq_latest _ _ (ok_sequence _ Hok) _ _ Hcv).
    fold d in Hcv'. rewrite Hcv in Hcv'. simplify_eq. split; apply bool_decide_eq_true; lia. }
  replace s with (idle d (ambient_of s)) by (destruct s; simpl in *; by subst).
  generalize (ambient_of s) as z. subst start. revert after Ha Hs Hfuel.
  induction fuel as [|fuel IH]; intros after Ha Hs Hfuel z; [lia|].
  simpl. rewrite (sync_conversation_run d z uid c after count cv st) by done.
  set (start := Z.max after (us_joinedSeq st - 1)) in *.
  set (n := Z.to_nat (bounded_count count)). set (now := am_clock z (am_ticks z)).
  pose proof (bounded_count_range count) as Hn. destruct (Hp) as (Hcv & _).
  destruct (page_spec d now cv c start n Hok Hcv ltac:(lia) Hs) as (Hseq & Hnext & Hmore).
  pose proof (page_shows d now (cv_type cv) (cv_latestSeq cv) c start n) as Hshow.
  set (p := page d now (cv_type cv) (cv_latestSeq cv) c start n) in *. rewrite Hmore.
  rewrite bool_decide_eq_true_2 by done. case_bool_decide as Hlt.
  - assert (Z.max (sr_nextSeq p) (us_joinedSeq st - 1) = start + Z.of_nat n)%Z as Enext.
    { rewrite Hnext. unfold start. lia. }
    destruct (IH (sr_nextSeq p)) with (z := tick z) as (l & -> & Hseq' & Hshow'); rewrite ?Enext in *; [lia..|].
    exists (sr_messages p ++ l). split_and!; [done| |by apply Forall_app].
    rewrite map_app, Hseq, Hseq'. replace (cv_latestSeq cv - start)%Z
      with (Z.of_nat n + (cv_latestSeq cv - (start + Z.of_nat n)))%Z by lia.
    rewrite seqZ_app by lia. f_equal; f_equal; lia.
  - exists (sr_messages p). split_and!; [done| |done]. rewrite Hseq. f_equal. lia.
Qed.

End pages.

(** ** A pull on a concrete database: two messages, one record per pull *)

Section runs.
#[local] Existing Instance demo_mysql.
#[local] Existing Instance demo_hash.

Definition demo_two : server :=
  demo_run (accept_direct_text 1002 1001 "k2" "hi" "2026-05-19 00:00:02" 1)
    (demo_run (accept_direct_text 1001 1002 "k1" "hello" "2026-05-19 00:00:01" 1) demo_friends).

Lemma demo_two_ok : working demo_two = None ∧ store_ok (committed demo_two).
Proof.
  destruct (demo_run_ok (accept_direct_text 1001 1002 "k1" "hello" "2026-05-19 00:00:01" 1) demo_friends I
              (proj1 demo_friends_ok) (proj2 demo_friends_ok)) as [Hw Hok].
  exact (demo_run_ok (accept_direct_text 1002 1001 "k2" "hi" "2026-05-19 00:00:02" 1) _ I Hw Hok).
Qed.

Lemma pull_all_complete_witness :
  ∃ l, pull_all 3 1002 92001 0 1 demo_two = Some l ∧ map cmr_conversationSeq l = [1; 2]%Z.
Proof.
  assert (faults demo_two = []) as Hf by (vm_compute; reflexivity).
  assert (participates (committed demo_two) 1002 92001
            (MkConversationRow 1 9001 2 "2026-05-19 00:00:00") (MkUserStateRow 1 None 0 0)) as Hp.
  { split; [vm_compute; reflexivity|]. split; [vm_compute; reflexivity|]. left. discriminate. }
  assert (rows_fit (committed demo_two)) as Hrows.
  { apply (bool_decide_unpack (map_Forall (λ id m, row_fits (id, m) = true) (messages (committed demo_two)))).
    vm_compute. exact I. }
  destruct (pull_all_complete demo_two 1002 92001 0 1 (MkConversationRow 1 9001 2 "2026-05-19 00:00:00")
    (MkUserStateRow 1 None 0 0) 3 (proj1 demo_two_ok) Hf (proj2 demo_two_ok) Hp Hrows) as (l & Hl & Hseq & _);
    clear Hf Hp Hrows.
  1-4: vm_compute; (reflexivity || discriminate).
  1-2: vm_compute; (lia || discriminate).
  exists l. split; [exact Hl|exact Hseq].
Defined.
End runs.
