(* ===== verification/Accounts.v ===== *)
(** * Accounts: the SQL of the Gate and of the Gateway

    The users, userInfo and devices tables as gate/io/driver.cc and
    gateway/io/driver.cc use them. Both drivers open a connection for each
    statement ([mysql_query]): a statement commits on its own, a duplicate key
    (error 1062) is a value, every other failure an exception. That the driver
    is stopping is one of the faults of the connection. *)

From S2P Require Import Prelude Codec Schema Records MysqlStore.

Record user_account := MkAccount {
  ua_uid : Z; ua_username : string; ua_password : string; ua_email : string }.

Section accounts.
Context `{!MysqlServer}.

(** mysql_connection::query on a fresh connection; [None] is error 1062. *)
Definition run_statement {A} (q : sql A) : Eff server (option A) :=
  attempt (λ s,
    match q (current s) with
    | inl DuplicateEntry => (Ok None, s)
    | inl e => (Throw (RuntimeError (diagnostic e)), s)
    | inr (d, a) => (Ok (Some a), set_current d s)
    end).

Definition mysql_query {A} (q : sql A) : Eff server (option A) :=
  connect_mysql ;;
  (try result ← run_statement q; abort ;; mret result with e => abort ;; throw e).

(** The values of a row are bounded. *)
Definition bounded_row (values : list string) : Eff server unit :=
  if forallb (λ v, (String.length v <=? 1024)%nat) values then mret tt
  else throw (RuntimeError "invalid bounded query result").

Definition stoll (z : Z) : Eff server Z :=
  if is_i64 z then mret z else throw (LogicError "stoll").

(** ** Statements *)

Definition select_user (username : string) : sql (option user_row) :=
  sql_read (λ d, snd <$> head (select (λ _ u, sql_eq (u_username u) username) d.(users))).

Definition select_user_exists (username email : string) : sql bool :=
  sql_read (λ d, bool_decide (is_Some (head (select (λ _ u,
    sql_eq (u_username u) username || sql_eq (u_email u) email) d.(users))))).

Definition same_account (u v : user_row) : bool :=
  (u_uid u =? u_uid v)%Z || sql_eq (u_username u) (u_username v) || sql_eq (u_email u) (u_email v).

(** INSERT INTO users: the id is generated, the three unique keys are checked. *)
Definition insert_user (u : user_row) : sql unit := λ d,
  unless (negb (bigint_unsigned (u_uid u))) OutOfRange
  match head (select (λ _ v, same_account v u) d.(users)) with
  | Some _ => inl DuplicateEntry
  | None => inr (set_users (<[fresh (dom d.(users)) := u]> d.(users)) d, tt)
  end.

Definition set_password (password : string) (u : user_row) : user_row :=
  MkUser (u_uid u) (u_username u) password (u_email u) (u_createTime u).

(** UPDATE users SET password = ? WHERE uid = ? *)
Definition update_user_password (uid : Z) (password : string) : sql unit := λ d,
  inr (set_users ((λ u, if (u_uid u =? uid)%Z then set_password password u else u) <$> d.(users)) d, tt).

Definition select_user_info (uid : Z) : sql bool :=
  sql_read (λ d, bool_decide (is_Some (d.(userInfo) !! uid))).

Definition insert_user_info (uid : Z) (row : user_info_row) : sql unit := λ d,
  unless (negb (bigint_unsigned uid && smallint (uir_age row))) OutOfRange
  match d.(userInfo) !! uid with
  | Some _ => inl DuplicateEntry
  | None => inr (set_userInfo (<[uid := row]> d.(userInfo)) d, tt)
  end.

(** INSERT INTO devices ... ON DUPLICATE KEY UPDATE deviceId=VALUES(deviceId) *)
Definition insert_device (row : device_row) : sql unit := λ d,
  let key := weight (dv_deviceId row) in
  unless (negb (bigint_unsigned (dv_uid row))) OutOfRange
  (inr (set_devices (<[key :=
     match d.(devices) !! key with
     | Some old => MkDeviceRow (dv_deviceId row) (dv_uid old) (dv_platform old) (dv_deviceName old)
     | None => row
     end]> d.(devices)) d, tt)).

Definition select_device_uid (device_id : string) : sql (option Z) :=
  sql_read (λ d, dv_uid <$> d.(devices) !! weight device_id).

(** ** Operations of the Gate *)

(** A SELECT has no duplicate key to report: the row is that of the result. *)
Definition find_user (username : string) : Eff server (option user_account) :=
  row ← mysql_query (select_user username);
  match mjoin row with
  | None => mret None
  | Some u =>
      bounded_row [u_username u; u_password u; u_email u] ;;
      uid ← stoll (u_uid u);
      mret (Some (MkAccount uid (u_username u) (u_password u) (u_email u)))
  end.

Definition has_user_info (uid : Z) : Eff server bool :=
  row ← mysql_query (select_user_info uid); mret (default false row).

Definition user_exists (username email : string) : Eff server bool :=
  row ← mysql_query (select_user_exists username email); mret (default false row).

(** [getCurrentDateTime] stands for NOW() *)
Definition register_user (uid : Z) (username password email : string) : Eff server bool :=
  now ← getCurrentDateTime;
  reply ← mysql_query (insert_user (MkUser uid username password email now));
  mret (bool_decide (is_Some reply)).

Definition update_password (uid : Z) (password : string) : Eff server unit :=
  _ ← mysql_query (update_user_password uid password); mret tt.

(** ** Operations of the Gateway *)

Definition prepare_profile (login : LoginRequest) : Eff server bool :=
  (when lr_init_profile login do
    (_ ← mysql_query (insert_user_info (lr_uid login)
           (MkUserInfoRow (lr_name login) (lr_age login) (lr_sex login) (lr_head_image_url login)));
     mret tt)) ;;
  row ← mysql_query (select_user_info (lr_uid login)); mret (default false row).

Definition register_device (uid : Z) (device_id : string) : Eff server bool :=
  _ ← mysql_query (insert_device (MkDeviceRow device_id uid "" ""));
  row ← mysql_query (select_device_uid device_id);
  match mjoin row with
  | None => mret false
  | Some owner => owner ← stoll owner; mret (owner =? uid)%Z
  end.
End accounts.
