(* ===== verification/AccountTheorems.v ===== *)
(** * Accounts are unique and permanent

    What every operation of the Gate, the Gateway and the Message service leaves
    of the users and devices tables, under any faults and in any order. *)

From S2P Require Import Prelude Codec Schema Records MysqlStore Atomicity StoreInvariant Demo Accounts.

Section theorems.
Context `{!MysqlServer} `{!StdHash}.

(** ** One statement on its own connection *)

Definition mysql_query_post {A} (q : sql A) (c : database) (o : outcome (option A)) (s' : server) : Prop :=
  working s' = None ∧
  match o with
  | Ok (Some a) => q c = inr (committed s', a)
  | Ok None => q c = inl DuplicateEntry ∧ committed s' = c
  | Throw _ => committed s' = c ∨ ∃ a, q c = inr (committed s', a)
  end.

Lemma mysql_query_spec {A} (q : sql A) s :
  mysql_query_post q (committed s) (mysql_query q s).1 (mysql_query q s).2.
Proof.
  destruct s as [c w n b f k t].
  unfold mysql_query_post, mysql_query, connect_mysql, run_statement, attempt, next_fault, current,
    catch, throw, abort, modify, mbind, eff_bind, mret, eff_ret. simpl.
  destruct f as [|[|x|x] f]; simpl; [|destruct f as [|[|y|y] f]; simpl|by auto|by auto].
  all: try (destruct (q c) as [[]|[d a]] eqn:E; simpl; eauto); eauto.
Qed.

Lemma mysql_query_working {A} (q : sql A) s : working (mysql_query q s).2 = None.
Proof. apply mysql_query_spec. Qed.

(** Without faults the answer is that of the statement. *)
Definition close_connection (d : database) (s : server) : server :=
  MkServer d None s.(auto_increment) false [] s.(clock) s.(ticks).

Lemma mysql_query_quiet {A} (q : sql A) s :
  faults s = [] →
  mysql_query q s =
    match q (committed s) with
    | inl DuplicateEntry => (Ok None, close_connection (committed s) s)
    | inl e => (Throw (RuntimeError (diagnostic e)), close_connection (committed s) s)
    | inr (d, a) => (Ok (Some a), close_connection d s)
    end.
Proof.
  destruct s as [c w n b f k t]. simpl. intros ->.
  unfold mysql_query, connect_mysql, run_statement, attempt, next_fault, current,
    catch, throw, abort, modify, mbind, eff_bind, mret, eff_ret, close_connection. simpl.
  by destruct (q c) as [[]|[d a]].
Qed.

(** ** Code that leaves a property of the database

    In and out of transactions, whatever it throws. *)

Definition both (P : database → Prop) (s : server) : Prop :=
  P (committed s) ∧ ∀ d, working s = Some d → P d.

Class Leaves `{HasServer W} (P : database → Prop) {A} (m : Eff W A) : Prop :=
  leaves : ∀ w, both P (srv w) → both P (srv (m w).2).

Section leaves.
Context `{HasServer W} (P : database → Prop).

#[global] Instance leaves_ret {A} (a : A) : Leaves P (mret a : Eff W A).
Proof. by intros w Hw. Qed.
#[global] Instance leaves_throw {A} e : Leaves P (throw e : Eff W A).
Proof. by intros w Hw. Qed.
#[global] Instance leaves_bind {A B} (m : Eff W A) (k : A → Eff W B) :
  Leaves P m → (∀ a, Leaves P (k a)) → Leaves P (m ≫= k).
Proof. intros Hm Hk w Hw. specialize (Hm w Hw). rewrite bind_eq. destruct (m w).1; [by apply Hk|done]. Qed.
#[global] Instance leaves_catch {A} (m : Eff W A) h :
  Leaves P m → (∀ e, Leaves P (h e)) → Leaves P (catch m h).
Proof. intros Hm Hk w Hw. specialize (Hm w Hw). rewrite catch_eq. destruct (m w).1; [done|by apply Hk]. Qed.
#[global] Instance leaves_if {A} (b : bool) (m1 m2 : Eff W A) :
  Leaves P m1 → Leaves P m2 → Leaves P (if b then m1 else m2).
Proof. by destruct b. Qed.
#[global] Instance leaves_option {A B} (o : option A) (m1 : A → Eff W B) (m2 : Eff W B) :
  (∀ a, Leaves P (m1 a)) → Leaves P m2 → Leaves P (match o with Some a => m1 a | None => m2 end).
Proof. destruct o; auto. Qed.
#[global] Instance leaves_prod {A B C} (p : A * B) (m : A → B → Eff W C) :
  (∀ a b, Leaves P (m a b)) → Leaves P (match p with (a, b) => m a b end).
Proof. destruct p; auto. Qed.
#[global] Instance leaves_list {A B} (l : list A) (m1 : Eff W B) (m2 : A → list A → Eff W B) :
  Leaves P m1 → (∀ a l', Leaves P (m2 a l')) → Leaves P (match l with [] => m1 | a :: l' => m2 a l' end).
Proof. destruct l; auto. Qed.
#[global] Instance leaves_mapM {A B} (f : A → Eff W B) l : (∀ a, Leaves P (f a)) → Leaves P (mapM f l).
Proof. intros Hf. induction l; simpl; apply _. Qed.
#[global] Instance leaves_forM {A} (f : A → Eff W unit) l : (∀ a, Leaves P (f a)) → Leaves P (forM l f).
Proof. intros Hf. induction l; simpl; apply _. Qed.
#[global] Instance leaves_field z : Leaves P (field_i64 z : Eff W Z).
Proof. unfold field_i64. apply _. Qed.
#[global] Instance leaves_field_u64 z : Leaves P (field_u64 z : Eff W Z).
Proof. unfold field_u64. apply _. Qed.
End leaves.

Section server_leaves.
Context (P : database → Prop).

#[global] Instance leaves_attempt {A} (m : Eff server A) : Leaves P m → Leaves P (attempt m).
Proof.
  intros Hm s Hs. unfold attempt. rewrite bind_eq. simpl.
  assert (both P (set_faults (tail (faults s)) s)) as Hs' by (by destruct s).
  destruct (default NoFault (head (faults s))); [by apply Hm|done|].
  assert (Leaves P (m ;; throw (RuntimeError what) : Eff server A)) as Ht by apply _. exact (Ht _ Hs').
Qed.
#[global] Instance leaves_query {A} (q : sql A) : SqlKeeps P q → Leaves P (query q).
Proof.
  intros Hq. apply leaves_attempt. intros s [Hc Hw]. simpl.
  destruct (q (current s)) as [e|[d a]] eqn:E; [done|]. simpl.
  assert (P d) as Hd.
  { eapply Hq; [|done]. unfold current. destruct (working s) eqn:Ew; simpl; auto. }
  unfold both, set_current. destruct s as [c [w|] ? ? ? ? ?]; simpl in *; [|done].
  split; [done|]. by intros ? [= <-].
Qed.
#[global] Instance leaves_query_auto (q : Z → sql unit) :
  (∀ id, SqlKeeps P (q id)) → Leaves P (query_auto_increment q).
Proof.
  intros Hq. apply leaves_attempt. intros s [Hc Hw]. cbv zeta.
  assert (current (bump_auto_increment s) = current s) as -> by done.
  destruct (q (auto_increment s) (current s)) as [e|[d a]] eqn:E; [done|].
  assert (P d) as Hd.
  { eapply Hq; [|done]. unfold current. destruct (working s) eqn:Ew; simpl; auto. }
  unfold both, set_current. destruct s as [c [w|] ? ? ? ? ?]; simpl in *; [|done].
  split; [done|]. by intros ? [= <-].
Qed.
#[global] Instance leaves_start : Leaves P start_transaction.
Proof. apply leaves_attempt. intros s [Hc _]. split; [done|]. by intros ? [= <-]. Qed.
#[global] Instance leaves_commit : Leaves P commit.
Proof.
  apply leaves_attempt. intros s [Hc Hw]. split; [|done]. simpl. unfold current.
  destruct (working s) eqn:E; simpl; auto.
Qed.
#[global] Instance leaves_rollback : Leaves P rollback.
Proof. apply leaves_attempt. by intros s [Hc _]. Qed.
#[global] Instance leaves_abort : Leaves P abort.
Proof. by intros s [Hc _]. Qed.
#[global] Instance leaves_connect : Leaves P connect_mysql.
Proof.
  apply leaves_catch; [|apply _]. apply leaves_attempt. by intros s [Hc _].
Qed.
#[global] Instance leaves_clock : Leaves P getCurrentDateTime.
Proof. by intros [] ?. Qed.
#[global] Instance leaves_lift {L A} (m : Eff server A) : Leaves P m → Leaves (W := server * L) P (lift m).
Proof. intros Hm [s l] Hs. specialize (Hm s Hs). unfold lift. by destruct (m s). Qed.
#[global] Instance leaves_set_local {L} (f : L → L) : Leaves (W := server * L) P (set_local f).
Proof. by intros [s l]. Qed.
#[global] Instance leaves_get_local {L} : Leaves (W := server * L) P get_local.
Proof. by intros [s l]. Qed.
#[global] Instance leaves_local {L A} (init : L) (m : Eff (server * L) A) : Leaves P m → Leaves P (local init m).
Proof. intros Hm s Hs. specialize (Hm (s, init) Hs). unfold local. by destruct (m (s, init)) as [r [s' l']]. Qed.
#[global] Instance leaves_fill_page n rows sync : Leaves P (fill_page (W := server) n rows sync).
Proof.
  revert sync. induction rows as [|r rows IH]; intros sync; simpl; [apply _|]. unfold message_record. apply _.
Qed.
#[global] Instance leaves_same_command {L} m c r ty x : Leaves P (same_command m c r ty x : Eff (server * L) bool).
Proof. unfold same_command. apply _. Qed.
End server_leaves.

(** ** The Message service never writes users or devices *)

Definition same_accounts (c d : database) : Prop := users d = users c ∧ devices d = devices c.

Lemma sql_keeps_accounts {A} (q : sql A) c :
  (∀ d d' a, q d = inr (d', a) → users d' = users d ∧ devices d' = devices d) → SqlKeeps (same_accounts c) q.
Proof. intros Hq d d' a [Hu Hd] [Hu' Hd']%Hq. split; congruence. Qed.

Ltac no_account :=
  apply sql_keeps_accounts; intros ? ? ? Hq;
  unfold insert_states_ignore, insert_state_at_latest, insert_state, update_latest_seq, insert_message, insert_apply,
    update_apply, insert_friendship, insert_conversation, update_message_status, update_user_state,
    upsert_device_state, insert_group, insert_member, insert_group_apply_ignore, update_info, delete_apply,
    delete_states, delete_applies, delete_members, delete_group, delete_state, delete_member, unless in Hq;
  simpl in Hq;
  repeat match type of Hq with context [match ?x with _ => _ end] => destruct x end; simplify_eq/=; done.

#[local] Hint Extern 5 (SqlKeeps (same_accounts _) _) => no_account : typeclass_instances.
#[local] Instance keeps_seq c {A} p (q : sql A) :
  SqlKeeps (same_accounts c) p → SqlKeeps (same_accounts c) q → SqlKeeps (same_accounts c) (sql_seq p q).
Proof. intros Hp Hq d d' a Hd. unfold sql_seq. destruct (p d) as [|[d1 []]] eqn:E; [done|]. intros Hr. eauto. Qed.

Lemma execute_leaves_accounts {R} (op : mysql_operation R) c : Leaves (same_accounts c) (execute op).
Proof.
  destruct op; simpl;
  unfold execute_get_user_info, execute_get_friend_list, execute_insert_friend_apply,
    execute_update_friend_apply_status, execute_upsert_ready_file, execute_save_file_upload_progress,
    execute_find_downloadable_file, execute_find_ready_file, execute_sync_conversation,
    execute_get_friend_apply_list, execute_delete_friend, execute_pull_group,
    execute_update_user_info_name, execute_update_user_info_age, execute_update_user_info_sex,
    execute_update_user_info_head_image_url, execute_accept_direct_text, execute_accept_group_message,
    execute_acknowledge, execute_insert_friend, execute_create_group, execute_request_group_join,
    execute_reply_group_join, execute_remove_group_member, group_catch, group_reject,
    select_downloadable, select_ready_file, file_record,
    select_membership, select_page, select_group, select_member, select_member_list,
    select_apply_list, select_direct_conversation, select_latest_seq, select_duplicate,
    select_group_conversation, select_members, select_owner, select_apply; cbv zeta.
  all: apply _.
Qed.
Lemma driver_execute_accounts {R} (op : mysql_operation R) s :
  working s = None → same_accounts (committed s) (committed (driver_execute op s).2).
Proof.
  intros Hs. pose proof (execute_leaves_accounts op (committed s)) as He.
  assert (Leaves (same_accounts (committed s)) (get : Eff server server)) as Hg by (by intros w Hw).
  assert (Leaves (same_accounts (committed s)) (driver_execute op)) as Hd by (unfold driver_execute; apply _).
  destruct (Hd s) as [Hc _]; [|done]. split; simpl; [done|]. by rewrite Hs.
Qed.

(** ** Accounts only grow

    Between two databases: an account keeps its id, its uid, its names and the
    time of its creation; its password changes only for the uids in [updates];
    a device keeps its owner. *)

Definition accounts_ok (d : database) : Prop :=
  ∀ i j u v, users d !! i = Some u → users d !! j = Some v → same_account u v = true → i = j.

Definition accounts_grow (updates : Z → Prop) (d d' : database) : Prop :=
  (∀ i u, users d !! i = Some u →
     ∃ u', users d' !! i = Some u' ∧ (u' = u ∨ (updates (u_uid u) ∧ ∃ p, u' = set_password p u))) ∧
  (∀ k v, devices d !! k = Some v → ∃ v', devices d' !! k = Some v' ∧ dv_uid v' = dv_uid v).

#[global] Instance accounts_grow_preorder U : PreOrder (accounts_grow U).
Proof.
  split.
  - intros d. split; eauto.
  - intros d1 d2 d3 [Hu Hv] [Hu' Hv']. split.
    + intros i u (u1 & H1 & Hp)%Hu. destruct (Hu' _ _ H1) as (u2 & H2 & Hp2). exists u2. split; [done|].
      destruct Hp as [->|(Hup & p & ->)]; [done|]. right. split; [done|].
      destruct Hp2 as [->|(_ & p' & ->)]; eauto.
    + intros k v (v1 & H1 & E1)%Hv. destruct (Hv' _ _ H1) as (v2 & H2 & E2). exists v2. split; congruence.
Qed.

Lemma same_account_refl u : same_account u u = true.
Proof. unfold same_account. by rewrite Z.eqb_refl. Qed.
Lemma same_account_sym u v : same_account u v = same_account v u.
Proof.
  unfold same_account, sql_eq. rewrite Z.eqb_sym. repeat f_equal; apply bool_decide_ext; naive_solver.
Qed.
Lemma same_account_password p u v : same_account (set_password p u) v = same_account u v.
Proof. done. Qed.

Lemma accounts_same d d' U : same_accounts d d' → accounts_ok d → accounts_ok d' ∧ accounts_grow U d d'.
Proof. intros [Hu Hd] Hok. unfold accounts_ok, accounts_grow. rewrite Hu, Hd. split; [done|]. split; eauto. Qed.

Class Evolves (U : Z → Prop) {A} (q : sql A) : Prop :=
  evolves : ∀ d d' a, q d = inr (d', a) → accounts_ok d → accounts_ok d' ∧ accounts_grow U d d'.

#[global] Instance evolves_read U {A} (f : database → A) : Evolves U (sql_read f).
Proof. intros d d' a [= <- <-] Hok. by split. Qed.

#[global] Instance evolves_insert_user U u : Evolves U (insert_user u).
Proof.
  intros d d' []. unfold insert_user, unless. case_match; [done|].
  destruct (head _) as [[]|] eqn:Hn; [done|]. intros [= <-] Hok. rewrite select_head_None in Hn.
  set (k := fresh (dom (users d))).
  assert (users d !! k = None) as Hk by (apply not_elem_of_dom, is_fresh). split.
  - intros i j v w. simpl. rewrite !lookup_insert_Some. intros [[<- <-]|[Hi Hv]] [[<- <-]|[Hj Hw]]; [done| | |by eapply Hok].
    + rewrite same_account_sym, (Hn _ _ Hw). done.
    + by rewrite (Hn _ _ Hv).
  - split; [|eauto]. intros i v Hv. exists v. split; [|by left]. simpl.
    rewrite lookup_insert_ne; [done|congruence].
Qed.

Lemma evolves_update_password (U : Z → Prop) uid p : U uid → Evolves U (update_user_password uid p).
Proof.
  intros HU d d' [] [= <-] Hok. split.
  - intros i j u v. simpl. rewrite !lookup_fmap, !fmap_Some. intros (u' & Hu & ->) (v' & Hv & ->) Hs.
    apply (Hok i j u' v'); [done|done|]. by destruct (u_uid u' =? uid)%Z, (u_uid v' =? uid)%Z.
  - split; [|eauto]. intros i u Hu. simpl. rewrite lookup_fmap, Hu. eexists. split; [done|].
    destruct (Z.eqb_spec (u_uid u) uid) as [->|]; eauto.
Qed.

#[global] Instance evolves_user_info U uid row : Evolves U (insert_user_info uid row).
Proof.
  intros d d' []. unfold insert_user_info, unless. case_match; [done|]. case_match; [done|].
  intros [= <-]. by apply accounts_same.
Qed.

#[global] Instance evolves_device U row : Evolves U (insert_device row).
Proof.
  intros d d' []. unfold insert_device, unless. case_match; [done|]. intros [= <-] Hok.
  split; [done|]. split; [eauto|]. intros k v Hv. simpl.
  destruct (decide (k = weight (dv_deviceId row))) as [->|Hne].
  - rewrite lookup_insert_eq, Hv. by eexists.
  - rewrite lookup_insert_ne by done. eauto.
Qed.

(** Operations made of such statements, each on its own connection. *)
Class AccountsEvolve (U : Z → Prop) {A} (m : Eff server A) : Prop :=
  accounts_evolve : ∀ s, accounts_ok (committed s) →
    accounts_ok (committed (m s).2) ∧ accounts_grow U (committed s) (committed (m s).2).

Section evolve.
Context (U : Z → Prop).
#[global] Instance evolve_ret {A} (a : A) : AccountsEvolve U (mret a : Eff server A).
Proof. by intros s Hs. Qed.
#[global] Instance evolve_throw {A} e : AccountsEvolve U (throw e : Eff server A).
Proof. by intros s Hs. Qed.
#[global] Instance evolve_bind {A B} (m : Eff server A) (k : A → Eff server B) :
  AccountsEvolve U m → (∀ a, AccountsEvolve U (k a)) → AccountsEvolve U (m ≫= k).
Proof.
  intros Hm Hk s Hs. destruct (Hm s Hs) as [Hok Hg]. rewrite bind_eq. destruct (m s).1; [|done].
  destruct (Hk a _ Hok) as [Hok' Hg']. split; [done|]. by etrans.
Qed.
#[global] Instance evolve_if {A} (b : bool) (m1 m2 : Eff server A) :
  AccountsEvolve U m1 → AccountsEvolve U m2 → AccountsEvolve U (if b then m1 else m2).
Proof. by destruct b. Qed.
#[global] Instance evolve_option {A B} (o : option A) (m1 : A → Eff server B) (m2 : Eff server B) :
  (∀ a, AccountsEvolve U (m1 a)) → AccountsEvolve U m2 →
  AccountsEvolve U (match o with Some a => m1 a | None => m2 end).
Proof. destruct o; auto. Qed.
#[global] Instance evolve_clock : AccountsEvolve U getCurrentDateTime.
Proof. intros [] Hs. by split. Qed.
#[global] Instance evolve_query {A} (q : sql A) : Evolves U q → AccountsEvolve U (mysql_query q).
Proof.
  intros Hq s Hs. destruct (mysql_query_spec q s) as [_ Hp].
  destruct (mysql_query q s).1 as [[a|]|e]; simpl in Hp.
  - by eapply Hq.
  - destruct Hp as [_ ->]. by split.
  - destruct Hp as [->|[a Ha]]; [by split|by eapply Hq].
Qed.
End evolve.

(** The operations of every service in any order; between two of them
    connections come and go, the clock moves and faults appear. *)
Inductive account_step (updates : Z → Prop) (s : server) : server → Prop :=
  | step_find_user username : account_step updates s (find_user username s).2
  | step_has_user_info uid : account_step updates s (has_user_info uid s).2
  | step_user_exists username email : account_step updates s (user_exists username email s).2
  | step_register_user uid username password email :
      account_step updates s (register_user uid username password email s).2
  | step_update_password uid password : updates uid → account_step updates s (update_password uid password s).2
  | step_prepare_profile login : account_step updates s (prepare_profile login s).2
  | step_register_device uid device_id : account_step updates s (register_device uid device_id s).2
  | step_message_service {R} (op : mysql_operation R) :
      working s = None → account_step updates s (driver_execute op s).2
  | step_surroundings s' : committed s' = committed s → account_step updates s s'.

Lemma account_step_ok U s s' :
  account_step U s s' → accounts_ok (committed s) →
  accounts_ok (committed s') ∧ accounts_grow U (committed s) (committed s').
Proof.
  assert (∀ z, AccountsEvolve U (stoll z)) as Hz by (intros z; unfold stoll; apply _).
  destruct 1 as [| | | |uid password HU| | |R op Hw|s' Hc].
  8: { apply accounts_same, driver_execute_accounts, Hw. }
  8: { rewrite Hc. by split. }
  5: pose proof (evolves_update_password U uid password HU).
  all: match goal with |- context [accounts_grow ?U (committed ?s) (committed (?m ?s).2)] =>
    assert (AccountsEvolve U m) as Hm; [|exact (Hm s)] end.
  all: unfold find_user, has_user_info, user_exists, register_user, update_password, prepare_profile,
    register_device, bounded_row, select_user, select_user_info, select_user_exists, select_device_uid; apply _.
Qed.
Lemma account_steps_ok U s s' :
  rtc (account_step U) s s' → accounts_ok (committed s) →
  accounts_ok (committed s') ∧ accounts_grow U (committed s) (committed s').
Proof.
  induction 1 as [s|s s1 s2 Hstep _ IH]; intros Hok; [by split|].
  destruct (account_step_ok _ _ _ Hstep Hok) as [Hok1 Hg1]. destruct (IH Hok1) as [Hok2 Hg2].
  split; [done|]. by etrans.
Qed.

(** Accounts are unique and permanent. From a database in which no two
    accounts share a uid, a user name or an address, any sequence of operations
    of the Gate, the Gateway and the Message service, failing at any point,
    leads to such a database again; every account keeps its uid, its user name
    and its address, its password changes only by an update_password for its
    uid, and every device keeps its owner. *)
Theorem accounts_permanent updates s s' :
  rtc (account_step updates) s s' → accounts_ok (committed s) →
  accounts_ok (committed s') ∧
  (∀ i u, users (committed s) !! i = Some u →
     ∃ password, users (committed s') !! i = Some (set_password password u) ∧
       (¬ updates (u_uid u) → password = u_password u)) ∧
  (∀ k v, devices (committed s) !! k = Some v →
     ∃ v', devices (committed s') !! k = Some v' ∧ dv_uid v' = dv_uid v).
Proof.
  intros Hsteps Hok.
  destruct (account_steps_ok _ _ _ Hsteps Hok) as [Hok' [Hu Hd]].
  split; [done|]. split; [|done]. intros i u (u' & Hi & Hp)%Hu.
  destruct Hp as [->|(HU & p & ->)].
  - exists (u_password u). split; [by destruct u|done].
  - exists p. split; [done|]. by intros Hn.
Qed.

Definition inserted (c : database) (u : user_row) (d : database) : Prop :=
  (∀ i v, users c !! i = Some v → same_account v u = false) ∧
  ∃ id, users c !! id = None ∧ d = set_users (<[id := u]> (users c)) c.

Lemma insert_user_inv u c d a : insert_user u c = inr (d, a) → inserted c u d.
Proof.
  unfold insert_user, unless. case_match; [done|]. destruct (head _) as [[]|] eqn:Hn; [done|].
  intros [= <-]. rewrite select_head_None in Hn. split; [done|].
  eexists. split; [apply not_elem_of_dom, is_fresh|done].
Qed.

Lemma insert_user_duplicate u c :
  insert_user u c = inl DuplicateEntry → ∃ i v, users c !! i = Some v ∧ same_account v u = true.
Proof.
  unfold insert_user, unless. case_match; [done|]. destruct (head _) as [[i v]|] eqn:Hn; [|done].
  intros _. apply select_head_Some in Hn. eauto.
Qed.

(** Register_user on every path. [true]: there was no account with the uid,
    the user name or the address, and exactly this account was added. [false]:
    there is one, and nothing changed. An exception: either nothing changed or
    the account was added and the answer lost. *)
Theorem register_user_outcome uid username password email s :
  let r := register_user uid username password email s in
  let u := MkUser uid username password email (clock s (ticks s)) in
  match r.1 with
  | Ok true => inserted (committed s) u (committed r.2)
  | Ok false =>
      committed r.2 = committed s ∧ ∃ i v, users (committed s) !! i = Some v ∧ same_account v u = true
  | Throw _ => committed r.2 = committed s ∨ inserted (committed s) u (committed r.2)
  end.
Proof.
  cbv zeta. unfold register_user. rewrite bind_eq. simpl.
  set (s0 := MkServer _ _ _ _ _ _ _). set (u := MkUser _ _ _ _ _). rewrite bind_eq.
  pose proof (mysql_query_spec (insert_user u) s0) as [_ Hp].
  change (committed s) with (committed s0).
  destruct (mysql_query (insert_user u) s0).1 as [[a|]|e]; simpl in *.
  - by eapply insert_user_inv.
  - destruct Hp as [Hp ->]. split; [done|]. by eapply insert_user_duplicate.
  - destruct Hp as [->|[a Ha]]; [by left|]. right. by eapply insert_user_inv.
Qed.

(** Register_device answers who owns the device: the first user to register
    it. A device without an owner becomes the caller's. *)
Theorem register_device_owner uid device_id s b :
  (register_device uid device_id s).1 = Ok b →
  let owner d := dv_uid <$> devices d !! weight device_id in
  owner (committed (register_device uid device_id s).2) = Some (default uid (owner (committed s))) ∧
  b = (default uid (owner (committed s)) =? uid)%Z.
Proof.
  cbv zeta. unfold register_device. set (q1 := insert_device _). set (q2 := select_device_uid _).
  rewrite !bind_eq. destruct (mysql_query_spec q1 s) as [_ H1].
  destruct (mysql_query q1 s) as [[r1|e] s1]; simpl in *; [|done].
  assert (dv_uid <$> devices (committed s1) !! weight device_id =
          Some (default uid (dv_uid <$> devices (committed s) !! weight device_id))) as Ho.
  { unfold q1, insert_device, unless in H1. destruct (negb _); [by destruct r1 as [|]; [|destruct H1]|].
    destruct r1; [|by destruct H1]. injection H1 as Hc _. rewrite <- Hc. simpl. rewrite lookup_insert_eq.
    by destruct (devices (committed s) !! weight device_id). }
  destruct (mysql_query_spec q2 s1) as [_ H2].
  destruct (mysql_query q2 s1) as [[[r2|]|e] s2]; simpl in *; [|by destruct H2|done].
  injection H2 as Hc <-. rewrite Ho. simpl. rewrite bind_eq. unfold stoll. destruct (is_i64 _); simpl; [|done]. intros [= <-]. by rewrite <- Hc, Ho.
Qed.
End theorems.

(** ** Witnesses *)

#[local] Existing Instance demo_mysql.
#[local] Existing Instance demo_hash.

Definition demo_registered : server := (register_user 7 "ann" "secret" "ann@example.org" demo_start).2.
Definition demo_renewed : server := (update_password 7 "better" demo_registered).2.

Lemma demo_accounts_ok : accounts_ok (committed demo_registered).
Proof. apply (account_step_ok (λ _, True) demo_start); [apply step_register_user|]. by intros i j u v Hu. Qed.

Lemma accounts_permanent_witness :
  accounts_ok (committed demo_renewed) ∧
  (∃ password, users (committed demo_renewed) !! 0%Z =
     Some (MkUser 7 "ann" password "ann@example.org" (demo_clock 0))) ∧
  ∃ v', devices (committed demo_renewed) !! "laptop" = Some v' ∧ dv_uid v' = 1001%Z.
Proof.
  destruct (accounts_permanent (λ uid, uid = 7%Z) demo_registered demo_renewed) as (Hok & Hu & Hd).
  - apply rtc_once, step_update_password. reflexivity.
  - apply demo_accounts_ok.
  - split; [exact Hok|]. split.
    + destruct (Hu 0%Z (MkUser 7 "ann" "secret" "ann@example.org" (demo_clock 0))) as (p & Hp & _);
        [vm_compute; reflexivity|]. exists p. exact Hp.
    + exact (Hd "laptop" (MkDeviceRow "laptop" 1001 "linux" "laptop") ltac:(vm_compute; reflexivity)).
Defined.

Lemma register_device_owner_witness :
  (register_device 7 "laptop" demo_start).1 = Ok false ∧
  dv_uid <$> devices (committed (register_device 7 "laptop" demo_start).2) !! "laptop" = Some 1001%Z.
Proof.
  split; [vm_compute; reflexivity|].
  destruct (register_device_owner 7 "laptop" demo_start false) as [H _]; [vm_compute; reflexivity|].
  exact H.
Defined.
