(* ===== verification/GateHandlers.v ===== *)
(** * The Gate's transactions

    gate/transaction/handlers.cc and service.cc, the dispatch of
    gate/api/protocol.cc and the HTTP entry of gate/main.cc, as programs of the
    I/O operations they submit, the entropy they draw, and the admission they
    hold. ([health], [encode] and the handlers of one request run in one
    coroutine; scheduling groups do not change what they do.) *)

From S2P Require Import Prelude Codec Program Seastar Budget GateProtocol Accounts.
From Stdlib Require Import Ascii.
Import gate_api.

(** gate_io::gateway_node *)
Record gateway_node := MkNode { gn_host : string; gn_port : Z; gn_id : string }.

(** io_operation: the operations of the Gate's I/O queue. *)
Inductive gate_operation : Type → Type :=
  | op_issue_verification_code (email code : string) (ttl_seconds cooldown_seconds : Z) : gate_operation bool
  | op_get_verification_code (email : string) : gate_operation string
  | op_clear_verification_code (email code : string) : gate_operation bool
  | op_send_verification_email (recipient code : string) (ttl_seconds : Z) : gate_operation unit
  | op_find_user (username : string) : gate_operation (option user_account)
  | op_has_user_info (uid : Z) : gate_operation bool
  | op_pick_gateway (uid : Z) : gate_operation gateway_node
  | op_set_chat_token (uid : Z) (token : string) (ttl_seconds : Z) : gate_operation unit
  | op_consume_verification_code (email code : string) (max_attempts : Z) : gate_operation bool
  | op_generate_user_id (machine_id : Z) : gate_operation Z
  | op_user_exists (username email : string) : gate_operation bool
  | op_register_user (uid : Z) (username password email : string) : gate_operation bool
  | op_update_password (uid : Z) (password : string) : gate_operation unit.

(** byte_size: what an operation counts for in the queue. *)
Definition byte_size {R} (op : gate_operation R) : nat :=
  match op with
  | op_issue_verification_code email code _ _ | op_clear_verification_code email code
  | op_consume_verification_code email code _ => String.length email + String.length code
  | op_get_verification_code email => String.length email
  | op_send_verification_email recipient code _ => String.length recipient + String.length code
  | op_find_user username => String.length username
  | op_has_user_info _ | op_pick_gateway _ | op_generate_user_id _ => 0
  | op_set_chat_token _ token _ => String.length token
  | op_user_exists username email => String.length username + String.length email
  | op_register_user _ username password email =>
      String.length username + String.length password + String.length email
  | op_update_password _ password => String.length password
  end.

(** What a request does to the outside. [RandomBytes n] is a call of
    random_bytes, [RandomCode] the draw of a number by
    uniform_int_distribution(0, 999999) from it. *)
Inductive gate_event : Type → Type :=
  | GateIo {R} (op : gate_operation R) : gate_event R
  | RandomBytes (length : nat) : gate_event bytes
  | RandomCode : gate_event Z
  | Admit (bytes : Z) : gate_event capacity_units
  | Release (permit : capacity_units) : gate_event unit.

Abbreviation gate_prog := (program gate_event).
Abbreviation gate_obs := (observation gate_event).
Definition gate_io {R} (op : gate_operation R) : gate_prog R := perform (GateIo op).
Definition gate_throw {A} (e : exn) : gate_prog A := Done (Throw e).

(** gate_io::options: what the transactions read of it. *)
Record gate_options := MkGateOptions {
  max_attempts : Z; machine_id : Z; code_ttl_seconds : Z; cooldown_seconds : Z;
  email_enabled : bool; expose_code : bool }.

(** ** Entropy *)

(** One return of getrandom: bytes, EINTR, or another errno. *)
Inductive entropy := Bytes (l : bytes) | Interrupted | Unavailable.

(** random_bytes, over the returns of getrandom; [None]: it waits for more. *)
Fixpoint random_bytes (source : list entropy) (length : nat) : option (outcome bytes) :=
  match length with
  | 0 => Some (Ok [])
  | _ =>
    match source with
    | [] => None
    | Interrupted :: source => random_bytes source length
    | Unavailable :: _ => Some (Throw (RuntimeError "authentication entropy unavailable"))
    | Bytes l :: source =>
        let l := take length l in
        match random_bytes source (length - List.length l) with
        | Some (Ok rest) => Some (Ok (l ++ rest))
        | r => r
        end
    end
  end.

(** The six digits of a number. *)
Definition code_text (n : Z) : string :=
  let code := bytes_of (pretty n) in text_of (replicate (6 - length code) "0"%char ++ code).

Definition verification_code : gate_prog string :=
  n ← perform RandomCode; mret (code_text n).

Definition digits : bytes := bytes_of "0123456789abcdef".
Definition hex (data : bytes) : bytes :=
  b ← data;
  let n := N_of_ascii b in
  [nth (N.to_nat (N.shiftr n 4)) digits "0"%char; nth (N.to_nat (N.land n 15)) digits "0"%char].

Definition chat_token : gate_prog string :=
  data ← perform (RandomBytes 32); mret (text_of (hex data)).

(** ** Handlers *)

Definition handle_verification (o : gate_options) (request : verification_request) :
    gate_prog verification_response :=
  if negb (email_enabled o) && negb (expose_code o) then
    mret (MkVerificationResponse (Some (error_code DependencyUnavailable)) None None None)
  else
  let email := text (vr_email request) in
  code ← verification_code;
  issued ← gate_io (op_issue_verification_code email code (code_ttl_seconds o) (cooldown_seconds o));
  (if (issued : bool) && email_enabled o then
     prog_catch (λ failure,
       prog_catch (λ _, mret tt) (_ ← gate_io (op_clear_verification_code email code); mret tt) ;;
       gate_throw failure)
     (gate_io (op_send_verification_email email code (code_ttl_seconds o)))
   else mret tt) ;;
  code ← (if negb issued && expose_code o then gate_io (op_get_verification_code email) else mret code);
  mret (MkVerificationResponse (Some 0%Z) (Some email) (Some issued) (if expose_code o then Some code else None)).

Definition token_ttl_seconds : Z := 15 * 60.

Definition handle_sign_in (request : sign_in_request) : gate_prog sign_in_response :=
  account ← gate_io (op_find_user (text (sir_username request)));
  match account with
  | None => mret (MkSignInResponse (Some (-1)%Z) None None None None None None None)
  | Some account =>
      if negb (bool_decide (ua_password account = text (sir_password request))) then
        mret (MkSignInResponse (Some (-1)%Z) None None None None None None None)
      else
      node ← gate_io (op_pick_gateway (ua_uid account));
      initialized ← gate_io (op_has_user_info (ua_uid account));
      token ← chat_token;
      gate_io (op_set_chat_token (ua_uid account) token token_ttl_seconds) ;;
      mret (MkSignInResponse (Some 0%Z) (Some (if (initialized : bool) then 0 else 1)%Z) (Some (ua_uid account))
              (Some (gn_host node)) (Some (gn_port node)) (Some (gn_id node)) (Some token) (Some token_ttl_seconds))
  end.

Definition handle_gateway (request : gateway_request) : gate_prog gateway_response :=
  node ← gate_io (op_pick_gateway (default 0%Z (gr_uid request)));
  mret (MkGatewayResponse (Some 0%Z) (Some (gn_host node)) (Some (gn_port node))).

Definition sign_up_error (e : ErrorCodes) : sign_up_response :=
  MkSignUpResponse (Some (error_code e)) None None None.

Definition handle_sign_up (o : gate_options) (request : account_request) : gate_prog sign_up_response :=
  let username := text (ar_username request) in
  let email := text (ar_email request) in
  exists_ ← gate_io (op_user_exists username email);
  if (exists_ : bool) then mret (sign_up_error UserExist) else
  consumed ← gate_io (op_consume_verification_code email (text (ar_verifycode request)) (max_attempts o));
  if negb consumed then mret (sign_up_error VerificationCodeInvalid) else
  uid ← gate_io (op_generate_user_id (machine_id o));
  registered ← gate_io (op_register_user uid username (text (ar_password request)) email);
  if negb registered then mret (sign_up_error UserExist) else
  mret (MkSignUpResponse (Some 0%Z) (Some uid) (Some username) (Some email)).

Definition reset_error (e : ErrorCodes) : reset_password_response :=
  MkResetPasswordResponse (Some (error_code e)) None.

Definition handle_reset_password (o : gate_options) (request : account_request) :
    gate_prog reset_password_response :=
  let username := text (ar_username request) in
  let email := text (ar_email request) in
  account ← gate_io (op_find_user username);
  match account with
  | None => mret (reset_error NotFound)
  | Some account =>
      if negb (bool_decide (ua_email account = email)) then mret (reset_error EmailNotMatch) else
      consumed ← gate_io (op_consume_verification_code email (text (ar_verifycode request)) (max_attempts o));
      if negb consumed then mret (reset_error VerificationCodeInvalid) else
      gate_io (op_update_password (ua_uid account) (text (ar_password request))) ;;
      mret (MkResetPasswordResponse (Some 0%Z) (Some username))
  end.

(** ** Dispatch *)

Record http_result := MkHttp { hr_status : Z; hr_body : string }.
Record error_response := MkErrorResponse { er_error : option Z }.
Record health_response := MkHealthResponse { hp_message : option string }.

Definition encode {A} `{!ProtoJson A} (response : A) : gate_prog string :=
  match json_print response with
  | Some body => mret body
  | None => gate_throw (RuntimeError "API response encoding failed")
  end.

Section dispatch.
Context `{!ProtoJson verification_request} `{!ProtoJson sign_in_request} `{!ProtoJson gateway_request}
  `{!ProtoJson account_request} `{!ProtoJson verification_response} `{!ProtoJson sign_in_response}
  `{!ProtoJson gateway_response} `{!ProtoJson sign_up_response} `{!ProtoJson reset_password_response}
  `{!ProtoJson error_response} `{!ProtoJson health_response}.

Definition error_result (status : Z) (code : Z) : gate_prog http_result :=
  body ← encode (MkErrorResponse (Some code)); mret (MkHttp status body).

Definition health : gate_prog http_result :=
  body ← encode (MkHealthResponse (Some "[TEST]")); mret (MkHttp 200 body).

(** invoke<Request>: the permit is released on every path. *)
Definition invoke {Q P} `{!ProtoJson P} (decode : string → Z * Q) (handle : Q → gate_prog P) (body : string) :
    gate_prog http_result :=
  permit ← perform (Admit (Z.of_nat (String.length body)));
  result ← prog_catch (λ e, perform (Release permit) ;; gate_throw e)
    (let '(error, q) := decode body in
     if negb (error =? 0)%Z then error_result 200 error
     else
       response ← handle q;
       body ← encode response;
       mret (MkHttp 200 body));
  perform (Release permit) ;;
  mret result.

(** The registry: the five asynchronous entries and the immediate one. *)
Inductive endpoint :=
  | get_test | post_verifycode | post_signIn | post_arrhythmia | post_signUp | post_forget_password.

Definition registry : list (string * string * endpoint) :=
  [("GET", "/test", get_test);
   ("POST", "/post-verifycode", post_verifycode);
   ("POST", "/post-signIn", post_signIn);
   ("POST", "/post-arrhythmia", post_arrhythmia);
   ("POST", "/post-signUp", post_signUp);
   ("POST", "/post-forget-password", post_forget_password)].

Definition endpoint_handler (o : gate_options) (r : endpoint) (body : string) : gate_prog http_result :=
  match r with
  | get_test => health
  | post_verifycode => invoke decode_verification (handle_verification o) body
  | post_signIn => invoke decode_sign_in handle_sign_in body
  | post_arrhythmia => invoke decode_gateway handle_gateway body
  | post_signUp => invoke decode_account (handle_sign_up o) body
  | post_forget_password => invoke decode_account (handle_reset_password o) body
  end.

Definition dispatch (o : gate_options) (r : endpoint) (body : string) : gate_prog http_result :=
  prog_catch (λ e,
    match e with
    | Overloaded => error_result 503 (error_code ResourceExhausted)
    | Stopped => error_result 503 (error_code DependencyUnavailable)
    | _ => error_result 200 (error_code DependencyUnavailable)
    end) (endpoint_handler o r body).

(** ** The HTTP entry (gate/main.cc) *)

Definition kMaxHttpBodyBytes : Z := 64 * 1024.
Definition size (s : string) : Z := Z.of_nat (String.length s).

(** The body of the chunks until an empty one; [None] when it is too large. *)
Fixpoint read_body (chunks : list string) (body : string) : option string :=
  match chunks with
  | [] => Some body
  | chunk :: chunks =>
      if bool_decide (chunk = "") then Some body
      else if (kMaxHttpBodyBytes - size body <? size chunk)%Z then None
      else read_body chunks (body +:+ chunk)
  end.

Definition handle_http_request (o : gate_options) (r : endpoint) (chunks : list string) : gate_prog http_result :=
  match read_body chunks "" with
  | None => mret (MkHttp 413 "request too large")
  | Some body =>
      prog_catch (λ _, mret (MkHttp 500 "internal server error"))
        (result ← dispatch o r body;
         if (kMaxHttpBodyBytes <? size (hr_body result))%Z
         then gate_throw (LogicError "gate response exceeds configured bound")
         else mret result)
  end.
End dispatch.

(** ** Admission (service.cc) *)

Section admission.
Context {SEM : Semaphore}.

Record gate_service := MkGateService {
  gs_stopping : bool; gs_budget : budget; gs_requests : nat }.

Definition admit_request (bytes : Z) : Eff gate_service capacity_units := λ s,
  if gs_stopping s then (Throw Stopped, s)
  else
    match acquire bytes (gs_budget s) with
    | (Ok units, b) => (Ok units, MkGateService false b (S (gs_requests s)))
    | (Throw e, b) => (Throw e, MkGateService false b (gs_requests s))
    end.

(** ~request_permit *)
Definition release_permit (units : capacity_units) (s : gate_service) : gate_service :=
  MkGateService (gs_stopping s) (release units (gs_budget s)) (pred (gs_requests s)).
End admission.
