(* ===== verification/GateTheorems.v ===== *)
(** * What the Gate guarantees

    For every answer of the services it calls and every failure: which account
    operations a request can reach, that it is answered, and that it returns
    the admission it took. *)

From S2P Require Import Prelude Decimal Codec Program Seastar Budget GateProtocol Accounts GateHandlers.
From Stdlib Require Import Ascii.
Import gate_api.

(** ** Authority *)

Section authority.
Context `{!ProtoJson verification_request} `{!ProtoJson sign_in_request} `{!ProtoJson gateway_request}
  `{!ProtoJson account_request} `{!ProtoJson verification_response} `{!ProtoJson sign_in_response}
  `{!ProtoJson gateway_response} `{!ProtoJson sign_up_response} `{!ProtoJson reset_password_response}
  `{!ProtoJson error_response} `{!ProtoJson health_response}.

(** What must have been answered before an operation is submitted. *)
Definition authorised (o : gate_options) (body : string) (past : list gate_obs) {R} (op : gate_operation R) : Prop :=
  match op with
  | op_register_user uid username password email =>
      ∃ q, decode_account body = (0%Z, q) ∧
        username = text (ar_username q) ∧ password = text (ar_password q) ∧ email = text (ar_email q) ∧
        Obs (GateIo (op_user_exists username email)) (Ok false) ∈ past ∧
        Obs (GateIo (op_consume_verification_code email (text (ar_verifycode q)) (max_attempts o))) (Ok true) ∈ past ∧
        Obs (GateIo (op_generate_user_id (machine_id o))) (Ok uid) ∈ past
  | op_update_password uid password =>
      ∃ q account, decode_account body = (0%Z, q) ∧ password = text (ar_password q) ∧
        Obs (GateIo (op_find_user (text (ar_username q)))) (Ok (Some account)) ∈ past ∧
        ua_uid account = uid ∧ ua_email account = text (ar_email q) ∧
        Obs (GateIo (op_consume_verification_code (ua_email account) (text (ar_verifycode q)) (max_attempts o)))
          (Ok true) ∈ past
  | op_set_chat_token uid token ttl =>
      ∃ q account data, decode_sign_in body = (0%Z, q) ∧
        Obs (GateIo (op_find_user (text (sir_username q)))) (Ok (Some account)) ∈ past ∧
        ua_uid account = uid ∧ ua_password account = text (sir_password q) ∧
        Obs (RandomBytes 32) (Ok data) ∈ past ∧ token = text_of (hex data) ∧ ttl = 900%Z
  | op_send_verification_email email code ttl =>
      Obs (GateIo (op_issue_verification_code email code ttl (cooldown_seconds o))) (Ok true) ∈ past
  | op_clear_verification_code email code =>
      Obs (GateIo (op_issue_verification_code email code (code_ttl_seconds o) (cooldown_seconds o))) (Ok true) ∈ past ∧
      ∃ e, Obs (GateIo (op_send_verification_email email code (code_ttl_seconds o))) (Throw e) ∈ past
  | _ => True
  end.

Definition event_authorised (o : gate_options) (body : string) (past : list gate_obs) R (e : gate_event R) : Prop :=
  match e with
  | GateIo op => authorised o body past op
  | _ => True
  end.

Ltac answers :=
  repeat match goal with
  | H : _ && _ = true |- _ => apply andb_true_iff in H as [? ?]
  | H : negb _ = false |- _ => apply negb_false_iff in H
  | H : bool_decide _ = true |- _ => apply bool_decide_eq_true in H
  end; subst; repeat eexists; try eassumption; try reflexivity; try seen;
  try match goal with H : ua_email _ = _ |- _ => rewrite H; seen end.

Lemma verification_authorised o body past q :
  guarded (event_authorised o body) past (handle_verification o q).
Proof.
  unfold handle_verification, verification_code, gate_io, mbind, prog_mbind, mret, prog_mret, perform, gate_throw.
  simpl. walk; answers.
Qed.
Lemma sign_in_authorised o body past q :
  decode_sign_in body = (0%Z, q) → guarded (event_authorised o body) past (handle_sign_in q).
Proof.
  intros Hq. unfold handle_sign_in, chat_token, gate_io, mbind, prog_mbind, mret, prog_mret, perform, gate_throw.
  simpl. walk; answers.
Qed.
Lemma gateway_authorised o body past q : guarded (event_authorised o body) past (handle_gateway q).
Proof.
  unfold handle_gateway, gate_io, mbind, prog_mbind, mret, prog_mret, perform. simpl. walk.
Qed.
Lemma sign_up_authorised o body past q :
  decode_account body = (0%Z, q) → guarded (event_authorised o body) past (handle_sign_up o q).
Proof.
  intros Hq. unfold handle_sign_up, gate_io, mbind, prog_mbind, mret, prog_mret, perform. simpl. walk; answers.
Qed.
Lemma reset_authorised o body past q :
  decode_account body = (0%Z, q) → guarded (event_authorised o body) past (handle_reset_password o q).
Proof.
  intros Hq. unfold handle_reset_password, gate_io, mbind, prog_mbind, mret, prog_mret, perform. simpl. walk; answers.
Qed.

Lemma guarded_encode P past {A} `{!ProtoJson A} (a : A) : guarded P past (encode a).
Proof. unfold encode. by destruct (json_print a). Qed.
Lemma guarded_error_result P past status code : guarded P past (error_result status code).
Proof. unfold error_result, encode. by destruct (json_print _). Qed.

Lemma invoke_authorised o body past {Q P} `{!ProtoJson P} (decode : string → Z * Q) (handle : Q → gate_prog P) :
  (∀ q past, decode body = (0%Z, q) → guarded (event_authorised o body) past (handle q)) →
  guarded (event_authorised o body) past (invoke decode handle body).
Proof.
  intros Hh. apply guarded_bind; [done|]. intros t permit _.
  apply guarded_bind; [|intros ? ? _; split; [done|by intros [?|?]]].
  apply guarded_catch; [|intros ? ? _; split; [done|by intros [?|?]]].
  destruct (decode body) as [error q] eqn:E. destruct (Z.eqb_spec error 0) as [->|]; simpl.
  - apply guarded_bind; [by apply Hh|]. intros t' response _.
    apply guarded_bind; [apply guarded_encode|done].
  - apply guarded_error_result.
Qed.

Lemma dispatch_authorised o r body past : guarded (event_authorised o body) past (dispatch o r body).
Proof.
  apply guarded_catch.
  - unfold endpoint_handler. destruct r; [|apply invoke_authorised; intros q p Hq..].
    + unfold health. by apply guarded_bind; [apply guarded_encode|].
    + apply verification_authorised.
    + by apply sign_in_authorised.
    + apply gateway_authorised.
    + by apply sign_up_authorised.
    + by apply reset_authorised.
  - intros t [] _; apply guarded_error_result.
Qed.

(** C30: the authority of a request, whatever the services answer. An account is
    registered only after the code of its address was consumed and no account
    with its names was seen; a password is set only for the uid of the account
    with that user name and address, after the code of that address was
    consumed; a token is issued only for the uid of the account whose password
    the request carries; a mail is sent, and a code cleared, only for a code
    that this request issued. *)
Theorem account_changes_authorised o r chunks t1 {R} (op : gate_operation R) answer t2 result :
  runs (handle_http_request o r chunks) (t1 ++ Obs (GateIo op) answer :: t2) result →
  ∃ body, read_body chunks "" = Some body ∧ authorised o body t1 op.
Proof.
  unfold handle_http_request. destruct (read_body chunks "") as [body|].
  - intros Hr. exists body. split; [done|].
    assert (guarded (event_authorised o body) []
      (prog_catch (λ _, mret (MkHttp 500 "internal server error"))
        (result ← dispatch o r body;
         if (kMaxHttpBodyBytes <? size (hr_body result))%Z
         then gate_throw (LogicError "gate response exceeds configured bound") else mret result))) as Hg.
    { apply guarded_catch; [|done]. apply guarded_bind; [apply dispatch_authorised|].
      intros t a _. by destruct (_ <? _)%Z. }
    exact (guarded_runs _ _ _ _ _ _ _ _ Hg Hr).
  - intros [Ht _]. by destruct t1.
Qed.

(** ** Admission *)

Inductive permit_event := Taken (bytes : Z) (answer : outcome capacity_units) | Returned (permit : capacity_units).

Definition permit_of (x : gate_obs) : option permit_event :=
  match x with
  | @Obs _ R e o =>
      match e in gate_event R return outcome R → option permit_event with
      | Admit n => λ o, Some (Taken n o)
      | Release p => λ _, Some (Returned p)
      | _ => λ _, None
      end o
  end.
Definition permits (t : list gate_obs) : list permit_event := omap permit_of t.

Definition holds_no_permit R (e : gate_event R) : Prop :=
  match e with Admit _ | Release _ => False | _ => True end.

Lemma permits_none {A} (m : gate_prog A) t r : always holds_no_permit m → runs m t r → permits t = [].
Proof.
  intros Ha Hr. pose proof (always_runs _ _ _ _ Ha Hr) as Hf. clear Ha Hr.
  induction Hf as [|[R e a] t He _ IH]; [done|]. unfold permits in *. simpl. by destruct e.
Qed.

Lemma permits_app t1 t2 : permits (t1 ++ t2) = permits t1 ++ permits t2.
Proof. apply omap_app. Qed.

Ltac eventless :=
  repeat first
    [ done
    | apply always_bind; [|intros ?]
    | apply always_catch; [|intros ?]
    | match goal with
      | |- always _ (if ?b then _ else _) => destruct b
      | |- always _ (match ?x with _ => _ end) => destruct x
      end ].

Lemma encode_no_permit {A} `{!ProtoJson A} (a : A) : always holds_no_permit (encode a).
Proof. unfold encode. eventless. Qed.
Lemma error_result_no_permit s c : always holds_no_permit (error_result s c).
Proof. unfold error_result, encode. eventless. Qed.
Lemma handlers_no_permit o :
  (∀ q, always holds_no_permit (handle_verification o q)) ∧ (∀ q, always holds_no_permit (handle_sign_in q)) ∧
  (∀ q, always holds_no_permit (handle_gateway q)) ∧ (∀ q, always holds_no_permit (handle_sign_up o q)) ∧
  (∀ q, always holds_no_permit (handle_reset_password o q)).
Proof.
  split_and!; intros q; unfold handle_verification, handle_sign_in, handle_gateway, handle_sign_up,
    handle_reset_password, verification_code, chat_token, gate_io, gate_throw; eventless.
Qed.

(** A permit is taken for the size of the body, and returned if it was granted. *)
Definition permit_balanced (n : Z) (l : list permit_event) : Prop :=
  l = [] ∨ (∃ e, l = [Taken n (Throw e)]) ∨ (∃ p, l = [Taken n (Ok p); Returned p]).

Lemma invoke_permits body {Q P} `{!ProtoJson P} (decode : string → Z * Q) (handle : Q → gate_prog P) t r :
  (∀ q, always holds_no_permit (handle q)) →
  runs (invoke decode handle body) t r → permit_balanced (Z.of_nat (String.length body)) (permits t).
Proof.
  intros Hh. unfold invoke. set (work := let '(error, q) := decode body in _).
  assert (always holds_no_permit work) as Hw.
  { unfold work. destruct (decode body) as [error q]. case_match; [apply error_result_no_permit|].
    apply always_bind; [apply Hh|]. intros response. by apply always_bind; [apply encode_no_permit|]. }
  rewrite runs_bind. intros [(t1 & t2 & p & -> & ->%runs_perform & Hr)|(e & ->%runs_perform & ->)].
  2: { right. left. eauto. }
  right. right. exists p. rewrite permits_app. apply (f_equal (cons _)).
  apply runs_bind in Hr as [(t3 & t4 & res & -> & Hc & Hr)|(e & Hc & ->)].
  - apply runs_catch in Hc as [(a & Hc & [= ->])|(t5 & t6 & e & _ & _ & Hr')].
    + rewrite permits_app, (permits_none _ _ _ Hw Hc). simpl.
      apply runs_bind in Hr as [(t5 & t6 & [] & -> & ->%runs_perform & [-> _])|(e & ->%runs_perform & _)]; done.
    + apply runs_bind in Hr' as [(t7 & t8 & a & _ & _ & [_ [=]])|(e' & _ & [=])].
  - apply runs_catch in Hc as [(a & _ & [=])|(t5 & t6 & e' & -> & Hc & Hr')].
    rewrite permits_app, (permits_none _ _ _ Hw Hc). simpl.
    apply runs_bind in Hr' as [(t7 & t8 & a & -> & ->%runs_perform & [-> _])|(e'' & ->%runs_perform & _)]; done.
Qed.

Lemma dispatch_permits o r body t res :
  runs (dispatch o r body) t res → permit_balanced (Z.of_nat (String.length body)) (permits t).
Proof.
  assert (∀ t res, runs (endpoint_handler o r body) t res → permit_balanced (Z.of_nat (String.length body)) (permits t)) as He.
  { clear. intros t res. destruct (handlers_no_permit o) as (Hv & Hi & Hg & Hu & Hp).
    unfold endpoint_handler. destruct r; [|by apply invoke_permits..]. intros Hr. left. eapply permits_none; [|exact Hr].
    unfold health. by apply always_bind; [apply encode_no_permit|]. }
  intros [(a & Hr & ->)|(t1 & t2 & e & -> & Hr & Hr')]%runs_catch; [by eapply He|].
  assert (permits t2 = []) as Ht2.
  { eapply permits_none; [|exact Hr']. destruct e; apply error_result_no_permit. }
  rewrite permits_app, Ht2, app_nil_r. by eapply He.
Qed.

Lemma read_body_bound chunks acc body :
  (size acc ≤ kMaxHttpBodyBytes)%Z → read_body chunks acc = Some body → (size body ≤ kMaxHttpBodyBytes)%Z.
Proof.
  revert acc. induction chunks as [|c chunks IH]; intros acc Ha; simpl; [by intros [= <-]|].
  case_bool_decide; [by intros [= <-]|]. destruct (Z.ltb_spec (kMaxHttpBodyBytes - size acc) (size c)); [done|].
  intros Hb. eapply IH; [|exact Hb]. unfold size in *. rewrite string_length_app. lia.
Qed.

Lemma dispatch_status o r body t res :
  runs (dispatch o r body) t (Ok res) → hr_status res = 200%Z ∨ hr_status res = 503%Z.
Proof.
  assert (∀ s c, ensures (λ x, hr_status x = s) (error_result s c)) as He.
  { intros s c. unfold error_result, encode. by destruct (json_print _). }
  intros [(a & Hr & [= ->])|(t1 & t2 & e & -> & _ & Hr')]%runs_catch.
  - left. apply (ensures_runs (λ x, hr_status x = 200%Z) _ _ _) in Hr; [done|]. unfold endpoint_handler.
    assert (∀ P (encoding : ProtoJson P) Q decode (handle : Q → gate_prog P),
      ensures (λ x, hr_status x = 200%Z) (invoke decode handle body)) as Hi.
    { intros P enc Q decode handle. apply ensures_bind, ensures_any. intros permit.
      apply ensures_bind. apply (ensures_mono (λ x, hr_status x = 200%Z)); [intros x Hx; by intros [|]|].
      apply ensures_catch; [|intros e; by apply ensures_bind, ensures_any].
      destruct (decode body) as [error q]. case_match; [apply He|].
      apply ensures_bind, ensures_any. intros p. by apply ensures_bind, ensures_any. }
    destruct r; try apply Hi. unfold health, encode. by destruct (json_print _).
  - destruct e; eapply ensures_runs in Hr'; eauto; simpl in Hr'; rewrite Hr'; auto.
Qed.

(** Every HTTP request is answered, whatever the services it calls do: the
    handler never fails, its status is 200, 413, 500 or 503, and the permit it
    took for the size of its body (at most 64 KiB) is returned exactly once. *)
Theorem requests_answered o r chunks t result :
  runs (handle_http_request o r chunks) t result →
  (∃ reply, result = Ok reply ∧ hr_status reply ∈ [200; 413; 500; 503]%Z ∧
     (size (hr_body reply) ≤ kMaxHttpBodyBytes)%Z) ∧
  ∃ n, (0 ≤ n ≤ kMaxHttpBodyBytes)%Z ∧ permit_balanced n (permits t).
Proof.
  unfold handle_http_request. destruct (read_body chunks "") as [body|] eqn:Hb.
  2: { intros [-> ->]. split; [eexists; split_and!; [done|set_solver|done]|]. exists 0%Z. split; [done|by left]. }
  apply read_body_bound in Hb; [|done]. intros Hr.
  assert (∃ t1 t2 res, t = t1 ++ t2 ∧ permits t2 = [] ∧ runs (dispatch o r body) t1 res ∧
    ∃ reply, result = Ok reply ∧ hr_status reply ∈ [200; 413; 500; 503]%Z ∧
      (size (hr_body reply) ≤ kMaxHttpBodyBytes)%Z) as (t1 & t2 & res & -> & Ht2 & Hd & Hres).
  { apply runs_catch in Hr as [(a & [(t1 & t2 & a' & -> & Hd & Hr)|(e & _ & [=])]%runs_bind & ->)|
      (t1 & t2 & e & -> & [(t3 & t4 & a' & -> & Hd & Hr)|(e' & Hd & _)]%runs_bind & [-> ->])].
    - destruct (Z.ltb_spec kMaxHttpBodyBytes (size (hr_body a'))); destruct Hr as [-> Hr]; [done|].
      injection Hr as ->. exists t1, [], (Ok a'). split_and!; [done|done|done|]. exists a'. split_and!; [done| |done].
      apply dispatch_status in Hd as [->| ->]; set_solver.
    - destruct (_ <? _)%Z; destruct Hr as [-> Hr]; [|done].
      exists t3, [], (Ok a'). rewrite !app_nil_r. split_and!; [done|done|done|].
      eexists. split_and!; [done|set_solver|done].
    - exists t1, [], (Throw e'). split_and!; [done|done|done|]. eexists. split_and!; [done|set_solver|done]. }
  split; [done|]. exists (Z.of_nat (String.length body)). split; [unfold size in Hb; lia|].
  rewrite permits_app, Ht2, app_nil_r. by eapply dispatch_permits.
Qed.
End authority.

(** ** Codes and tokens *)

Lemma text_of_app (l l' : bytes) : text_of (l ++ l') = text_of l +:+ text_of l'.
Proof. induction l as [|c l IH]; simpl; [done|]. by rewrite IH. Qed.

Lemma code_text_zeros n : code_text n = text_of (replicate (6 - String.length (pretty n)) "0"%char) +:+ pretty n.
Proof. unfold code_text. by rewrite text_of_app, String.string_of_list_ascii_of_string, bytes_length. Qed.

Lemma code_text_reads n : (0 ≤ n)%Z → read_digits 0 (code_text n) = Some (Z.to_N n).
Proof.
  intros Hn. rewrite code_text_zeros, read_digits_app.
  assert (∀ k, read_digits 0 (text_of (replicate k "0"%char)) = Some 0%N) as -> by (by induction k).
  assert (pretty n = pretty (Z.to_N n)) as -> by (by destruct n). apply read_digits_pretty.
Qed.

Lemma code_text_length n : (0 ≤ n ≤ 999999)%Z → String.length (code_text n) = 6.
Proof.
  intros Hn. rewrite code_text_zeros, string_length_app, text_length, length_replicate.
  assert (pretty n = pretty (Z.to_N n)) as -> by (destruct n; done || lia).
  assert (String.length (pretty (Z.to_N n)) ≤ 6) by (apply pretty_N_length; lia). lia.
Qed.

(** The value of a hexadecimal digit. *)
Definition hex_value (c : ascii) : N :=
  let n := N_of_ascii c in if (n <? 58)%N then (n - 48)%N else (n - 87)%N.

Lemma hex_cons c data :
  ∃ a b, hex (c :: data) = a :: b :: hex data ∧ ascii_of_N (16 * hex_value a + hex_value b) = c.
Proof. eexists _, _. split; [reflexivity|]. destruct c as [[] [] [] [] [] [] [] []]; vm_compute; reflexivity. Qed.

Lemma hex_length data : length (hex data) = 2 * length data.
Proof.
  induction data as [|c data IH]; [done|]. destruct (hex_cons c data) as (a & b & -> & _). simpl in *. lia.
Qed.

Lemma hex_inj data data' : hex data = hex data' → data = data'.
Proof.
  revert data'. induction data as [|c data IH]; intros [|c' data']; [done|done|done|].
  destruct (hex_cons c data) as (a & b & -> & <-), (hex_cons c' data') as (a' & b' & -> & <-).
  intros [= -> -> ->%IH]. done.
Qed.

(** The secrets the Gate makes up. A drawn number becomes a code of six
    digits that reads back as the number, and the request that carries it is not
    refused for its code; 32 bytes of entropy become a token of 64 characters,
    different bytes different tokens. *)
Theorem secrets_wellformed :
  (∀ n q, (0 ≤ n ≤ 999999)%Z → ar_verifycode q = Some (code_text n) →
     String.length (code_text n) = 6 ∧ read_digits 0 (code_text n) = Some (Z.to_N n) ∧
     (validate_verification q).1 ≠ error_code VerificationCodeInvalid) ∧
  (∀ data data', length data = 32 → length data' = 32 →
     String.length (text_of (hex data)) = 64 ∧ (text_of (hex data) = text_of (hex data') → data = data')).
Proof.
  split.
  - intros n q Hn Hq. pose proof (code_text_length n Hn) as Hl.
    pose proof (code_text_reads n ltac:(lia)) as Hr. split_and!; [done|done|].
    unfold validate_verification. rewrite Hq. case_match; [done|]. cbv zeta. case_match; [done|].
    simpl. rewrite Hq. simpl. rewrite bytes_length, Hl.
    assert (forallb is_digit (bytes_of (code_text n)) = true) as ->; [|done].
    apply forallb_forall. intros c Hc%list_elem_of_In.
    apply (read_digits_chars _ _ _ Hr) in Hc as [d Hd]. unfold digit_of in Hd. unfold is_digit.
    set (x := N_of_ascii c) in *. clearbody x. destruct (bool_decide_reflect (48 ≤ x)%N); [|done].
    destruct (bool_decide_reflect (x ≤ 57)%N); [|done]. apply andb_true_iff. by rewrite !N.leb_le.
  - intros data data' Hd Hd'. rewrite text_length, hex_length, Hd. split; [done|].
    intros E%(f_equal String.list_ascii_of_string). rewrite !String.list_ascii_of_string_of_list_ascii in E.
    by apply hex_inj.
Qed.

(** ** Witnesses *)

Definition demo_proto {A} : ProtoJson A := {| json_parse _ := None; json_print _ := Some "{}" |}.
#[local] Existing Instance demo_proto | 10.
#[local] Existing Instance demo_json | 1.

Definition demo_gate_options : gate_options := MkGateOptions 5 1 180 60 true false.
Definition demo_before : list gate_obs :=
  [Obs (Admit 2) (Ok 2%Z);
   Obs (GateIo (op_user_exists "ann" "ann@example.org")) (Ok false);
   Obs (GateIo (op_consume_verification_code "ann@example.org" "123456" 5)) (Ok true);
   Obs (GateIo (op_generate_user_id 1)) (Ok 7%Z)].
Definition demo_register : gate_operation bool := op_register_user 7 "ann" "secret" "ann@example.org".

Ltac replay := repeat (eexists _, _; split; [reflexivity|]); split; reflexivity.

Lemma account_changes_authorised_witness :
  ∃ body, read_body ["{}"] "" = Some body ∧ authorised demo_gate_options body demo_before demo_register.
Proof.
  apply (account_changes_authorised demo_gate_options post_signUp ["{}"] demo_before demo_register (Ok true)
           [Obs (Release 2%Z) (Ok tt)] (Ok (MkHttp 200 "{}"))).
  vm_compute. replay.
Defined.

Lemma requests_answered_witness :
  ∃ reply, Ok (MkHttp 503 "{}") = Ok reply ∧ hr_status reply ∈ [200; 413; 500; 503]%Z.
Proof.
  destruct (requests_answered demo_gate_options post_signUp ["{}"] [Obs (Admit 2) (Throw Overloaded)]
              (Ok (MkHttp 503 "{}"))) as [(reply & H1 & H2 & _) _].
  - vm_compute. replay.
  - exists reply. split; [exact H1|exact H2].
Defined.
