(* ===== verification/GateRuns.v ===== *)
(** * The Gate's handlers over its stores

    The operations of the Gate's queue executed by gate/io/driver.cc: the
    handlers run on Redis and MySQL. What a user signed up with can be signed in
    with, and the token then issued is the one the Gateway accepts. *)

From S2P Require Import Prelude Decimal Codec Schema Records Redis Sessions Ids Verification Program MysqlStore Demo.
From S2P Require Import Atomicity StoreInvariant Budget GateProtocol Accounts AccountTheorems GateHandlers GateTheorems.
From Stdlib Require Import Ascii.
Import gate_api.

(** What a request meets outside the two stores: the State service, the mail
    server, the clock readings of generate_user_id, and the entropy. *)
Record surroundings := MkSurroundings {
  pick_gateway : Z → outcome gateway_node;
  send_mail : outcome unit;
  readings : list Z;
  drawn_code : outcome Z;
  drawn_bytes : outcome bytes }.

Definition gate_world : Type := redis * server.
Definition on_redis {A} (m : Eff redis A) : Eff gate_world A := λ w, let '(o, r) := m w.1 in (o, (r, w.2)).
Definition on_mysql {A} (m : Eff server A) : Eff gate_world A := λ w, let '(o, s) := m w.2 in (o, (w.1, s)).
Definition answer {A} (o : outcome A) : Eff gate_world A := λ w, (o, w).

Section runs.
Context `{!MysqlServer} `{!StdHash}.

(** driver::execute; a generator that found no free sequence number waits until
    the driver stops. *)
Definition gate_execute (x : surroundings) {R} (op : gate_operation R) : Eff gate_world R :=
  match op with
  | op_issue_verification_code email code ttl cooldown =>
      on_redis (issue_verification_code email code ttl cooldown)
  | op_get_verification_code email => on_redis (get_verification_code email)
  | op_clear_verification_code email code => on_redis (clear_verification_code email code)
  | op_send_verification_email _ _ _ => answer (send_mail x)
  | op_find_user username => on_mysql (find_user username)
  | op_has_user_info uid => on_mysql (has_user_info uid)
  | op_pick_gateway uid => answer (pick_gateway x uid)
  | op_set_chat_token uid token ttl => on_redis (set_chat_token uid token ttl)
  | op_consume_verification_code email code max => on_redis (consume_verification_code email code max)
  | op_generate_user_id machine =>
      on_redis (id ← generate_user_id machine (readings x); match id with Some id => mret id | None => throw Stopped end)
  | op_user_exists username email => on_mysql (user_exists username email)
  | op_register_user uid username password email => on_mysql (register_user uid username password email)
  | op_update_password uid password => on_mysql (update_password uid password)
  end.

Definition gate_handler (x : surroundings) R (e : gate_event R) : Eff gate_world R :=
  match e with
  | GateIo op => gate_execute x op
  | RandomBytes _ => answer (drawn_bytes x)
  | RandomCode => answer (drawn_code x)
  | Admit n => answer (Ok n)
  | Release _ => answer (Ok tt)
  end.

Definition run_handler {A} (x : surroundings) (m : gate_prog A) : Eff gate_world A := interp (gate_handler x) m.
Arguments run_handler : simpl never.

Lemma run_await x {A R} (op : gate_operation R) (k : outcome R → gate_prog A) w :
  run_handler x (Await (GateIo op) k) w = let '(o, w') := gate_execute x op w in run_handler x (k o) w'.
Proof. done. Qed.

Lemma run_done x {A} (o : outcome A) w : run_handler x (Done o) w = (o, w).
Proof. done. Qed.

(** ** After a successful sign-up the account is there *)

Lemma register_user_true uid username password email s s' :
  register_user uid username password email s = (Ok true, s') →
  ∃ id now, users (committed s') !! id = Some (MkUser uid username password email now).
Proof.
  unfold register_user. rewrite bind_eq. simpl. rewrite bind_eq.
  set (s0 := MkServer _ _ _ _ _ _ _). set (u := MkUser _ _ _ _ _).
  pose proof (mysql_query_spec (insert_user u) s0) as [_ Hp].
  destruct (mysql_query (insert_user u) s0) as [[[a|]|e] s1]; simpl in *; [|done|done]. intros [= <-].
  apply insert_user_inv in Hp as (_ & id & _ & ->). exists id, (u_createTime u). apply lookup_insert_eq.
Qed.

Lemma generate_user_id_range machine times r id r' :
  generate_user_id machine times r = (Ok (Some id), r') → is_i64 id = true.
Proof.
  unfold generate_user_id. revert r. induction times as [|now times IH]; intros r; simpl; [done|].
  rewrite bind_eq. destruct (redis_command _ r) as [[reply|e] r1]; simpl; [|done].
  unfold require_reply. destruct (0 <? reply)%Z; simpl; [|done]. rewrite bind_eq. simpl.
  destruct (reply <=? 4095)%Z; [|apply IH]. intros [= <- _]. apply bool_decide_eq_true, i64_range.
Qed.

Lemma sign_up_account x o q w w1 resp :
  accounts_ok (committed w.2) → run_handler x (handle_sign_up o q) w = (Ok resp, w1) → sup_error resp = Some 0%Z →
  ∃ uid id now, sup_uid resp = Some uid ∧ is_i64 uid = true ∧ accounts_ok (committed w1.2) ∧
    users (committed w1.2) !! id = Some (MkUser uid (text (ar_username q)) (text (ar_password q)) (text (ar_email q)) now).
Proof.
  intros Hok. unfold handle_sign_up. simpl. rewrite run_await. simpl.
  unfold on_mysql at 1. destruct (user_exists _ _ w.2) as [[[]|e] s1] eqn:E1; [by intros [= <- _] [=]| |done].
  destruct (account_step_ok (λ _, True) w.2 s1) as [Hok1 _]; [|done|].
  { rewrite <- (f_equal snd E1 : _ = s1). apply step_user_exists. }
  simpl. rewrite run_await. simpl. unfold on_redis at 1. simpl.
  destruct (consume_verification_code _ _ _ w.1) as [[[]|e] r1] eqn:E2; [|by intros [= <- _] [=]|done].
  simpl. rewrite run_await. simpl. unfold on_redis at 1. simpl. rewrite bind_eq.
  destruct (generate_user_id _ _ r1) as [[[uid|]|e] r2] eqn:E3; simpl; [|done|done].
  rewrite run_await. simpl. unfold on_mysql at 1. simpl.
  destruct (register_user _ _ _ _ s1) as [[[]|e] s2] eqn:E4; [|by intros [= <- _] [=]|done].
  simpl. intros [= <- <-] _. simpl.
  destruct (account_step_ok (λ _, True) s1 s2) as [Hok2 _]; [|done|].
  { rewrite <- (f_equal snd E4 : _ = s2). apply step_register_user. }
  destruct (register_user_true _ _ _ _ _ _ E4) as (id & now & Hu).
  exists uid, id, now. split_and!; [done|by eapply generate_user_id_range|done|done].
Qed.

(** ** Sign-in without faults *)

Lemma find_user_quiet s id u :
  accounts_ok (committed s) → faults s = [] → users (committed s) !! id = Some u → is_i64 (u_uid u) = true →
  String.length (u_username u) ≤ 1024 → String.length (u_password u) ≤ 1024 → String.length (u_email u) ≤ 1024 →
  find_user (u_username u) s =
    (Ok (Some (MkAccount (u_uid u) (u_username u) (u_password u) (u_email u))), close_connection (committed s) s).
Proof.
  intros Hok Hf Hu Hi Hn Hp He. unfold find_user. rewrite bind_eq, mysql_query_quiet by done. unfold select_user, sql_read.
  assert (head (select (λ _ v, sql_eq (u_username v) (u_username u)) (users (committed s))) = Some (id, u)) as ->.
  { apply select_head_unique; [done|by apply bool_decide_eq_true|]. intros id' v Hv E.
    apply (Hok id' id v u Hv Hu). unfold same_account. by rewrite E, orb_true_r. }
  simpl. unfold bounded_row, stoll. simpl. rewrite !(proj2 (Nat.leb_le _ _)) by done. simpl.
  rewrite bind_eq. simpl. rewrite Hi. done.
Qed.

Lemma chat_token_stored uid token r :
  r_faults r = [] →
  ∃ r', set_chat_token uid token token_ttl_seconds r = (Ok tt, r') ∧ (validate_token uid token r').1 = Ok true.
Proof.
  intros Hf. unfold set_chat_token, redis_command. rewrite Hf. simpl. eexists. split; [reflexivity|].
  unfold validate_token, redis_command. simpl. rewrite bind_eq. unfold GET. simpl.
  rewrite !bind_eq. simpl. unfold value_at, entry_at. simpl. rewrite lookup_insert_eq. simpl.
  unfold live, token_ttl_seconds. simpl. rewrite (proj2 (Z.leb_le _ _)) by lia. simpl. by rewrite bool_decide_eq_true_2.
Qed.

Lemma credentials_bound username password :
  credentials username password = true → String.length username ≤ 1024 ∧ String.length password ≤ 1024.
Proof. unfold credentials. rewrite !andb_true_iff, !Nat.leb_le. lia. Qed.

Lemma valid_email_bound email : is_valid_email email = true → String.length email ≤ 1024.
Proof.
  unfold is_valid_email. rewrite bytes_length. destruct (Nat.ltb_spec 254 (String.length email)); [|lia].
  by rewrite orb_true_r.
Qed.

Lemma sign_in_quiet x id u node data r s :
  accounts_ok (committed s) → faults s = [] → r_faults r = [] →
  users (committed s) !! id = Some u → is_i64 (u_uid u) = true →
  credentials (u_username u) (u_password u) = true → String.length (u_email u) ≤ 1024 →
  pick_gateway x (u_uid u) = Ok node → drawn_bytes x = Ok data →
  ∃ resp r' s', run_handler x (handle_sign_in (MkSignInRequest (Some (u_username u)) (Some (u_password u)))) (r, s) =
      (Ok resp, (r', s')) ∧
    sip_error resp = Some 0%Z ∧ sip_uid resp = Some (u_uid u) ∧ sip_ip resp = Some (gn_host node) ∧
    sip_chat_token resp = Some (text_of (hex data)) ∧ (validate_token (u_uid u) (text_of (hex data)) r').1 = Ok true.
Proof.
  intros Hok Hs Hr Hu Hi Hc He Hp Hd. destruct (credentials_bound _ _ Hc) as [Hn Hpw].
  unfold handle_sign_in. simpl. rewrite run_await. simpl. unfold on_mysql. simpl.
  rewrite (find_user_quiet _ _ _ Hok Hs Hu) by done. simpl. rewrite bool_decide_eq_true_2 by done. simpl.
  rewrite run_await. simpl. unfold answer. rewrite Hp. simpl.
  rewrite run_await. simpl.
  destruct (chat_token_stored (u_uid u) (text_of (hex data)) r Hr) as (r' & Hset & Hv).
  unfold run_handler. simpl. unfold answer. rewrite Hd. simpl. unfold on_redis. simpl. rewrite Hset. simpl.
  eexists _, r', _. split; [reflexivity|]. done.
Qed.

(** C8: what a user signed up with can be signed in with. After a sign-up that
    answered success under any faults, and any operations of any services after
    it but an update of this uid's password, a sign-in with the user name and
    the password answers, when its own services do, with the uid of the sign-up
    and a token that the Gateway's validate_token then accepts for that uid. *)
Theorem sign_up_sign_in x o q w w1 resp x' s r node data :
  let username := text (ar_username q) in
  let password := text (ar_password q) in
  accounts_ok (committed w.2) →
  credentials username password = true → is_valid_email (text (ar_email q)) = true →
  run_handler x (handle_sign_up o q) w = (Ok resp, w1) → sup_error resp = Some 0%Z →
  ∃ uid, sup_uid resp = Some uid ∧
    (rtc (account_step (λ other, other ≠ uid)) w1.2 s → faults s = [] → r_faults r = [] →
     pick_gateway x' uid = Ok node → drawn_bytes x' = Ok data →
     ∃ answer r' s',
       run_handler x' (handle_sign_in (MkSignInRequest (Some username) (Some password))) (r, s) = (Ok answer, (r', s')) ∧
       sip_error answer = Some 0%Z ∧ sip_uid answer = Some uid ∧ sip_ip answer = Some (gn_host node) ∧
       sip_chat_token answer = Some (text_of (hex data)) ∧ (validate_token uid (text_of (hex data)) r').1 = Ok true).
Proof.
  intros username password Hok Hc He Hrun Herr.
  destruct (sign_up_account _ _ _ _ _ _ Hok Hrun Herr) as (uid & id & now & Huid & Hi & Hok1 & Hu).
  exists uid. split; [done|]. intros Hsteps Hs Hr Hp Hd.
  destruct (account_steps_ok _ _ _ Hsteps Hok1) as [Hok2 [Hg _]].
  destruct (Hg _ _ Hu) as (u' & Hu' & [->|[Hne _]]); [|done].
  apply (sign_in_quiet x' id (MkUser uid username password (text (ar_email q)) now)); try done.
  by apply valid_email_bound.
Qed.
End runs.

(** ** Witnesses *)

#[local] Existing Instance demo_mysql.
#[local] Existing Instance demo_hash.

Definition demo_request : account_request :=
  MkAccountRequest (Some "ann") (Some "secret") (Some demo_mail) (Some "123456").
Definition demo_surroundings : surroundings :=
  MkSurroundings (λ _, Ok (MkNode "10.0.0.1" 8001 "gw-1")) (Ok tt) [1700000000000%Z] (Ok 123456%Z)
    (Ok (replicate 32 "A"%char)).
Definition demo_gate_world : gate_world := (demo_issued, demo_start).
Definition demo_signed_up : outcome sign_up_response * gate_world :=
  run_handler demo_surroundings (handle_sign_up demo_gate_options demo_request) demo_gate_world.

Lemma sign_up_sign_in_witness :
  ∃ resp uid answer r' s', demo_signed_up.1 = Ok resp ∧ sup_uid resp = Some uid ∧
    run_handler demo_surroundings (handle_sign_in (MkSignInRequest (Some "ann") (Some "secret")))
      (demo_signed_up.2.1, demo_signed_up.2.2) =
      (Ok answer, (r', s')) ∧
    sip_uid answer = Some uid ∧ (validate_token uid (text_of (hex (replicate 32 "A"%char))) r').1 = Ok true.
Proof.
  destruct (sign_up_sign_in demo_surroundings demo_gate_options demo_request demo_gate_world demo_signed_up.2
    (MkSignUpResponse (Some 0%Z) (Some 115212497715204097%Z) (Some "ann") (Some demo_mail))
    demo_surroundings demo_signed_up.2.2 demo_signed_up.2.1 (MkNode "10.0.0.1" 8001 "gw-1") (replicate 32 "A"%char))
    as (uid & Huid & H).
  - by intros i j u v Hu.
  - vm_compute. reflexivity.
  - vm_compute. reflexivity.
  - vm_compute. reflexivity.
  - reflexivity.
  - destruct H as (answer & r' & s' & Hrun & _ & Ha & _ & _ & Hv);
      [apply rtc_refl|vm_compute; reflexivity|vm_compute; reflexivity|reflexivity|reflexivity|].
    eexists _, uid, answer, r', s'. split; [vm_compute; reflexivity|]. split; [exact Huid|].
    split; [exact Hrun|]. split; [exact Ha|exact Hv].
Defined.
