(* ===== verification/Framing.v ===== *)
(** * Frames on a client connection

    A client connection carries frames: four bytes of length, most significant
    first, and as many bytes of a serialized ClientEnvelope. [frame] is what
    connection::send puts on the wire, [next_frame] one turn of the loop of
    connection::run (src/server/gateway/transport/connection.cc). *)

From S2P Require Import Prelude Codec.
From Stdlib Require Import Ascii.

Definition size (s : string) : Z := Z.of_nat (String.length s).

(** ** 32-bit lengths *)

Definition byte (z : Z) : ascii := ascii_of_nat (Z.to_nat (z mod 256)).
Definition byte_value (c : ascii) : Z := Z.of_nat (nat_of_ascii c).

(** The bytes of htonl of a length. *)
Definition htonl (n : Z) : bytes :=
  [byte (Z.shiftr n 24); byte (Z.shiftr n 16); byte (Z.shiftr n 8); byte n].

(** memcpy of four bytes and ntohl *)
Definition ntohl (header : bytes) : Z := foldl (λ acc c, Z.lor (Z.shiftl acc 8) (byte_value c)) 0%Z header.

Definition frame (envelope : string) : bytes := htonl (size envelope) ++ bytes_of envelope.

(** ** Reading *)

(** read_exactly: fewer bytes are returned only at the end of the input. *)
Definition read_exactly (n : nat) (input : bytes) : bytes * bytes := (take n input, drop n input).

Inductive turn := Payload (payload : string) (rest : bytes) | Continue (rest : bytes) | Break.

Definition next_frame (input : bytes) : turn :=
  let '(header, input) := read_exactly 4 input in
  if bool_decide (header = []) then Break
  else if negb (bool_decide (length header = 4)) then Break
  else
    let bytes := ntohl header in
    if (PROTOCOL_RECV_MSS <? bytes)%Z then Break
    else if (bytes =? 0)%Z then Continue input
    else
      let '(payload, rest) := read_exactly (Z.to_nat bytes) input in
      if negb (Z.of_nat (length payload) =? bytes)%Z then Break
      else Payload (text_of payload) rest.

(** The payloads of an input, in order. A turn that does not break consumes the
    header, so that the length of the input is enough fuel. *)
Fixpoint payloads_from (fuel : nat) (input : bytes) : list string :=
  match fuel with
  | 0 => []
  | S fuel =>
      match next_frame input with
      | Payload payload rest => payload :: payloads_from fuel rest
      | Continue rest => payloads_from fuel rest
      | Break => []
      end
  end.
Definition payloads (input : bytes) : list string := payloads_from (length input) input.

(** ** Lengths read back *)

Lemma byte_value_byte z : byte_value (byte z) = (z mod 256)%Z.
Proof.
  unfold byte_value, byte. pose proof (Z.mod_pos_bound z 256 eq_refl). rewrite nat_ascii_embedding by lia. lia.
Qed.

Lemma shiftl8_lor acc b : (0 ≤ b < 256)%Z → Z.lor (Z.shiftl acc 8) b = (acc * 256 + b)%Z.
Proof.
  intros Hb. rewrite Z.shiftl_mul_pow2 by lia. change 256%Z with (2 ^ 8)%Z in *.
  rewrite <- Z.add_lor_land, Z.land_comm. enough (Z.land b (acc * 2 ^ 8) = 0%Z) by lia.
  apply Z.bits_inj'. intros i Hi. rewrite Z.land_spec, Z.bits_0.
  destruct (Z.ltb_spec i 8).
  - rewrite Z.mul_pow2_bits_low by lia. apply andb_false_r.
  - rewrite <- (Z.mod_small b (2 ^ 8)) by done. by rewrite Z.mod_pow2_bits_high by lia.
Qed.

Lemma ntohl_htonl n : (0 ≤ n < 2 ^ 32)%Z → ntohl (htonl n) = n.
Proof.
  intros Hn. unfold ntohl, htonl. simpl foldl. rewrite !byte_value_byte, !shiftl8_lor by (by apply Z.mod_pos_bound).
  rewrite !Z.shiftr_div_pow2 by lia. change (2 ^ 24)%Z with (256 * 256 * 256)%Z. change (2 ^ 16)%Z with (256 * 256)%Z.
  change (2 ^ 8)%Z with 256%Z. change (2 ^ 32)%Z with (256 * (256 * 256 * 256))%Z in Hn.
  rewrite <- !Z.div_div by lia. set (a := (n / 256)%Z). set (b := (a / 256)%Z). set (c := (b / 256)%Z).
  assert (0 ≤ c < 256)%Z.
  { unfold c, b, a. rewrite !Z.div_div by lia. split; [apply Z.div_pos; lia|]. apply Z.div_lt_upper_bound; lia. }
  rewrite (Z.mod_small c) by done.
  pose proof (Z.div_mod n 256). pose proof (Z.div_mod a 256). pose proof (Z.div_mod b 256). lia.
Qed.

Lemma frame_length e : Z.of_nat (length (frame e)) = (size e + 4)%Z.
Proof. unfold frame, size. rewrite length_app, bytes_length. simpl. lia. Qed.

(** ** A frame read back *)

Lemma next_frame_frame e rest :
  (size e ≤ PROTOCOL_RECV_MSS)%Z →
  next_frame (frame e ++ rest) = if bool_decide (e = "") then Continue rest else Payload e rest.
Proof.
  intros Hs. unfold next_frame, read_exactly, frame. rewrite <- app_assoc.
  change (take 4 (htonl (size e) ++ bytes_of e ++ rest)) with (htonl (size e)).
  change (drop 4 (htonl (size e) ++ bytes_of e ++ rest)) with (bytes_of e ++ rest). cbv zeta.
  rewrite bool_decide_eq_false_2 by done. rewrite bool_decide_eq_true_2 by done. change (negb true) with false. cbv iota.
  rewrite ntohl_htonl by (unfold PROTOCOL_RECV_MSS, size in *; lia). rewrite (proj2 (Z.ltb_ge _ _)) by done.
  case_bool_decide as He; [by subst|]. rewrite (proj2 (Z.eqb_neq _ _)).
  2: { unfold size. destruct e; [done|]. simpl. lia. }
  unfold size. rewrite Nat2Z.id, take_app_length', drop_app_length' by (by rewrite bytes_length).
  rewrite bytes_length, Z.eqb_refl. change (negb true) with false. cbv iota. by rewrite String.string_of_list_ascii_of_string.
Qed.

Lemma payloads_from_S fuel input :
  payloads_from (S fuel) input =
    match next_frame input with
    | Payload payload rest => payload :: payloads_from fuel rest
    | Continue rest => payloads_from fuel rest
    | Break => []
    end.
Proof. done. Qed.

Lemma payloads_frames es fuel :
  Forall (λ e, (size e ≤ PROTOCOL_RECV_MSS)%Z) es → length es ≤ fuel →
  payloads_from fuel (mjoin (frame <$> es)) = filter (λ e, e ≠ "") es.
Proof.
  revert fuel. induction es as [|e es IH]; intros fuel Hes Hf.
  { destruct fuel; done. }
  apply Forall_cons in Hes as [He Hes]. destruct fuel as [|fuel]; simpl in Hf; [lia|].
  change (mjoin (frame <$> e :: es)) with (frame e ++ mjoin (frame <$> es)).
  rewrite payloads_from_S, next_frame_frame by done. rewrite filter_cons. case_bool_decide as E.
  - rewrite decide_False by naive_solver. apply IH; [done|lia].
  - rewrite decide_True by done. f_equal. apply IH; [done|lia].
Qed.

Lemma frames_long es : length es ≤ length (mjoin (frame <$> es)).
Proof.
  induction es as [|e es IH]; [done|]. change (mjoin (frame <$> e :: es)) with (frame e ++ mjoin (frame <$> es)).
  pose proof (frame_length e). unfold size in *. rewrite length_app. simpl. lia.
Qed.

(** What was framed is read back: the payloads of the bytes of any sequence of
    envelopes are these envelopes, but for empty ones, which the reader skips. *)
Lemma frames_read_back es :
  Forall (λ e, (size e ≤ PROTOCOL_RECV_MSS)%Z) es → payloads (mjoin (frame <$> es)) = filter (λ e, e ≠ "") es.
Proof. intros Hes. apply payloads_frames; [done|apply frames_long]. Qed.
