(* ===== verification/GatewayDriver.v ===== *)
(** * Commands in flight: gateway/io/driver.cc and message_link.cc

    The Gateway's table of commands sent to Message nodes and not answered, the
    streams ([message_link]) they went out on, and the choice of a stream. A
    stream is named by a number (its address); a ticket by the number of the
    promise behind it. The frames a stream has to write are kept in order until
    they are written; the slot its write coroutines pass on is that of
    message/transport/server.cc. *)

From S2P Require Import Prelude Codec Schema Seastar Budget Protocol.

(** message_link: [lk_frames] are enqueued and not yet written. *)
Record link := MkLink {
  lk_node : string; lk_host : string; lk_port : Z;
  lk_stopping : bool; lk_finished : bool; lk_healthy : bool; lk_inflight : nat; lk_reading : bool;
  lk_frames : list (GatewayToMessageFrame * capacity_units) }.

Definition healthy (l : link) : bool := lk_healthy l && negb (lk_stopping l).

Definition link_set_inflight (n : nat) (l : link) : link :=
  MkLink (lk_node l) (lk_host l) (lk_port l) (lk_stopping l) (lk_finished l) (lk_healthy l) n (lk_reading l) (lk_frames l).
Definition add_inflight (l : link) : link := link_set_inflight (S (lk_inflight l)) l.
Definition remove_inflight (l : link) : link := link_set_inflight (pred (lk_inflight l)) l.
Definition link_set_frames (f : list (GatewayToMessageFrame * capacity_units)) (l : link) : link :=
  MkLink (lk_node l) (lk_host l) (lk_port l) (lk_stopping l) (lk_finished l) (lk_healthy l) (lk_inflight l) (lk_reading l) f.
Definition link_set_healthy (b : bool) (l : link) : link :=
  MkLink (lk_node l) (lk_host l) (lk_port l) (lk_stopping l) (lk_finished l) b (lk_inflight l) (lk_reading l) (lk_frames l).
Definition link_set_reading (b : bool) (l : link) : link :=
  MkLink (lk_node l) (lk_host l) (lk_port l) (lk_stopping l) (lk_finished l) (lk_healthy l) (lk_inflight l) b (lk_frames l).
Definition link_set_stopping (l : link) : link :=
  MkLink (lk_node l) (lk_host l) (lk_port l) true (lk_finished l) false (lk_inflight l) (lk_reading l) (lk_frames l).
Definition link_set_finished (l : link) : link :=
  MkLink (lk_node l) (lk_host l) (lk_port l) (lk_stopping l) true false (lk_inflight l) (lk_reading l) (lk_frames l).

(** pending_command; the promise is its ticket. *)
Record pending_command := MkPending {
  pc_link : Z; pc_client_request_id : string; pc_units : capacity_units; pc_ticket : nat }.

(** A node of the topology (state::MessageTopology). *)
Record message_node := MkMessageNode {
  mn_node_id : string; mn_status : string; mn_host : string; mn_port : Z; mn_shard_count : Z }.

(** What grpc_control makes of a node: skip it, or its stream's address. *)
Definition usable_node (n : message_node) : bool :=
  negb (negb (bool_decide (mn_status n = "active")) || bool_decide (mn_node_id n = "") || bool_decide (mn_host n = "") ||
        (mn_port n <=? 0)%Z || (65535 <? mn_port n)%Z || (mn_shard_count n =? 0)%Z ||
        (65535 <? mn_port n + mn_shard_count n - 1)%Z).
Definition node_port (gateway_id : string) (n : message_node) : Z :=
  mn_port n + owner_shard gateway_id (mn_shard_count n).

Section driver.
Context {SEM : Semaphore} `{!StdHash}
  (frame_size : GatewayToMessageFrame → Z) (command_size : CommandEnvelope → Z) (gateway_id instance_id : string).

(** [gd_nodes]: the table of streams by node, in its iteration order.
    [gd_results] records what the promises were given. *)
Record driver := MkDriver {
  gd_links : gmap Z link; gd_nodes : list (string * Z); gd_pending : gmap string pending_command;
  gd_pending_budget : budget; gd_writes : budget; gd_stopping : bool;
  gd_tickets : nat; gd_results : list (nat * outcome CommandResult) }.

Definition gd_set_links (m : gmap Z link) (d : driver) : driver :=
  MkDriver m (gd_nodes d) (gd_pending d) (gd_pending_budget d) (gd_writes d) (gd_stopping d) (gd_tickets d) (gd_results d).
Definition gd_set_writes (b : budget) (d : driver) : driver :=
  MkDriver (gd_links d) (gd_nodes d) (gd_pending d) (gd_pending_budget d) b (gd_stopping d) (gd_tickets d) (gd_results d).
Definition gd_set_pending (m : gmap string pending_command) (b : budget) (d : driver) : driver :=
  MkDriver (gd_links d) (gd_nodes d) m b (gd_writes d) (gd_stopping d) (gd_tickets d) (gd_results d).
Definition gd_log (ticket : nat) (o : outcome CommandResult) (d : driver) : driver :=
  MkDriver (gd_links d) (gd_nodes d) (gd_pending d) (gd_pending_budget d) (gd_writes d) (gd_stopping d) (gd_tickets d)
    (gd_results d ++ [(ticket, o)]).

Definition change_link (k : Z) (f : link → link) (d : driver) : driver := gd_set_links (alter f k (gd_links d)) d.

(** ** message_link *)

(** stop: frames that wait are given up; what is being written is not. *)
Definition link_stop (k : Z) (d : driver) : driver :=
  match gd_links d !! k with
  | Some l => if lk_stopping l then d else change_link k link_set_stopping d
  | None => d
  end.

Definition link_enqueue (k : Z) (frame : GatewayToMessageFrame) : Eff driver unit := λ d,
  match gd_links d !! k with
  | None => (Ok tt, d)
  | Some l =>
      if lk_stopping l then (Throw Stopped, d)
      else
        match acquire (frame_size frame) (gd_writes d) with
        | (Throw e, b) => (Throw e, gd_set_writes b d)
        | (Ok units, b) =>
            (Ok tt, change_link k (λ l, link_set_frames (lk_frames l ++ [(frame, units)]) l) (gd_set_writes b d))
        end
  end.

(** A write coroutine ends: the first frame was written, or it was given up. *)
Definition frame_done (k : Z) (d : driver) : driver :=
  match gd_links d !! k with
  | Some l =>
      match lk_frames l with
      | [] => d
      | f :: fs => change_link k (link_set_frames fs) (gd_set_writes (release f.2 (gd_writes d)) d)
      end
  | None => d
  end.

(** start: the registration is the first frame. *)
Definition link_start (k : Z) (shard_id epoch capacity : Z) : Eff driver unit :=
  modify (change_link k (link_set_reading true)) ;;
  (try link_enqueue k (register_gateway (MkRegisterGateway 1 gateway_id instance_id epoch shard_id capacity))
   with e => modify (link_stop k)).

(** ** driver *)

(** The units of an entry that leaves the table are returned with it. *)
Definition resolve (id : string) (p : pending_command) (o : outcome CommandResult) (d : driver) : driver :=
  gd_log (pc_ticket p) o
    (change_link (pc_link p) remove_inflight
       (gd_set_pending (delete id (gd_pending d)) (release (pc_units p) (gd_pending_budget d)) d)).

(** The loops that complete the entries satisfying [P]. *)
Definition resolve_all (P : string → pending_command → bool) (o : outcome CommandResult) (d : driver) : driver :=
  foldl (λ d kp, resolve kp.1 kp.2 o d) d (filter (λ kp, P kp.1 kp.2 = true) (map_to_list (gd_pending d))).

Definition set_request_id (id : string) (r : CommandResult) : CommandResult :=
  MkCommandResult id (cres_error r) (cres_retryable r) (cres_packet r).

(** on_grpc_frame; [status] is what [_forward] answers. *)
Definition on_grpc_frame (k : Z) (frame : MessageToGatewayFrame) (status : ClientForwardStatus) : Eff driver unit := λ d,
  match frame with
  | command_result result =>
      match gd_pending d !! cres_request_id result with
      | Some p =>
          if negb (pc_link p =? k)%Z then (Ok tt, d)
          else (Ok tt, resolve (cres_request_id result) p (Ok (set_request_id (pc_client_request_id p) result)) d)
      | None => (Ok tt, d)
      end
  | client_forward f =>
      link_enqueue k (client_forward_ack
        (MkClientForwardAck (cf_forward_id f) status gateway_id instance_id (cf_recipient_device_id f))) d
  | _ => (Ok tt, d)
  end.

Definition on_grpc_done (k : Z) (d : driver) : driver :=
  resolve_all (λ _ p, pc_link p =? k)%Z (Throw (RuntimeError "Message stream closed before result")) d.

(** select_grpc_link: the first of the best of the healthy streams, by score
    for a conversation, by load otherwise. *)
Definition link_score (conversation_id : Z) (node : string) : Z := std_hash (pretty conversation_id +:+ ":" +:+ node).

Definition better (conversation_id : Z) (node : string) (l : link) (best : option (string * Z * link)) : bool :=
  match best with
  | None => true
  | Some (node', _, l') =>
      if (0 <? conversation_id)%Z then (link_score conversation_id node' <? link_score conversation_id node)%Z
      else (lk_inflight l <? lk_inflight l')%nat
  end.

Fixpoint scan_links (conversation_id : Z) (links : gmap Z link) (nodes : list (string * Z))
    (best : option (string * Z * link)) : option (string * Z * link) :=
  match nodes with
  | [] => best
  | (node, k) :: nodes =>
      scan_links conversation_id links nodes
        match links !! k with
        | Some l => if healthy l && better conversation_id node l best then Some (node, k, l) else best
        | None => best
        end
  end.

Definition select_grpc_link (conversation_id : Z) (d : driver) : outcome Z :=
  match scan_links conversation_id (gd_links d) (gd_nodes d) None with
  | Some (_, k, _) => Ok k
  | None => Throw (RuntimeError "no healthy Message stream")
  end.

Definition set_command_id (id : string) (c : CommandEnvelope) : CommandEnvelope :=
  MkCommandEnvelope id (ce_actor_uid c) (ce_connection_id c) (ce_connection_generation c) (ce_operation c)
    (ce_conversation_id c) (ce_packet c) (ce_actor_device_id c).

Definition correlation (c : CommandEnvelope) : string := ce_connection_id c +:+ ":" +:+ ce_request_id c.

(** The entry is registered, and its ticket handed out, once the frame is queued. *)
Definition register_pending (k : Z) (c : CommandEnvelope) (units : capacity_units) (d : driver) : driver :=
  let d := MkDriver (gd_links d) (gd_nodes d)
             (<[correlation c := MkPending k (ce_request_id c) units (gd_tickets d)]> (gd_pending d))
             (gd_pending_budget d) (gd_writes d) (gd_stopping d) (S (gd_tickets d)) (gd_results d) in
  change_link k add_inflight d.

Definition send_command (c : CommandEnvelope) : Eff driver nat := λ d,
  if gd_stopping d then (Throw Stopped, d)
  else
    match select_grpc_link (ce_conversation_id c) d with
    | Throw e => (Throw e, d)
    | Ok k =>
        match acquire (command_size c) (gd_pending_budget d) with
        | (Throw e, b) => (Throw e, gd_set_pending (gd_pending d) b d)
        | (Ok units, b) =>
            let give_back d := gd_set_pending (gd_pending d) (release units (gd_pending_budget d)) d in
            let d := gd_set_pending (gd_pending d) b d in
            if bool_decide (is_Some (gd_pending d !! correlation c)) then (Throw Overloaded, give_back d)
            else
              match link_enqueue k (command (set_command_id (correlation c) c)) d with
              | (Throw e, d) => (Throw e, give_back d)
              | (Ok _, d) => (Ok (gd_tickets d), register_pending k c units d)
              end
        end
    end.

Definition cancel (connection_id : string) (d : driver) : driver :=
  resolve_all (λ id _, String.prefix (connection_id +:+ ":") id) (Throw Stopped) d.

(** driver::abort, as far as the streams are concerned. *)
Definition driver_abort (d : driver) : driver :=
  if gd_stopping d then d
  else
    let d := MkDriver (gd_links d) (gd_nodes d) (gd_pending d) (gd_pending_budget d) (gd_writes d) true
               (gd_tickets d) (gd_results d) in
    foldl (λ d k, link_stop k d) d (gd_nodes d).*2.

(** ** Callbacks of a stream *)

Definition link_OnReadDone (k : Z) (ok : bool) (frame : MessageToGatewayFrame) (status : ClientForwardStatus) :
    Eff driver unit := λ d,
  let d := change_link k (link_set_reading false) d in
  if negb ok then (Ok tt, link_stop k d)
  else
    let process d :=
      match on_grpc_frame k frame status d with
      | (Throw _, d) => (Ok tt, link_stop k d)
      | (Ok _, d) =>
          match gd_links d !! k with
          | Some l => (Ok tt, if negb (lk_stopping l) then change_link k (link_set_reading true) d else d)
          | None => (Ok tt, d)
          end
      end in
    match frame with
    | register_result r =>
        let d := change_link k (link_set_healthy (rr_accepted r)) d in
        if negb (rr_accepted r) then (Ok tt, link_stop k d) else process d
    | drain_notice _ => (Ok tt, link_stop k d)
    | _ => process d
    end.

Definition link_OnDone (k : Z) (d : driver) : driver := on_grpc_done k (change_link k link_set_finished d).

(** ** The table of streams (grpc_control): a stream is made for a node that has
    none; one that is finished, moved or gone is closed and then removed. *)
Definition add_link (k : Z) (n : message_node) (d : driver) : driver :=
  MkDriver (<[k := MkLink (mn_node_id n) (mn_host n) (node_port gateway_id n) false false false 0 false []]> (gd_links d))
    (gd_nodes d ++ [(mn_node_id n, k)]) (gd_pending d) (gd_pending_budget d) (gd_writes d) (gd_stopping d)
    (gd_tickets d) (gd_results d).

Definition remove_link (k : Z) (d : driver) : driver :=
  MkDriver (delete k (gd_links d)) (filter (λ nk, nk.2 ≠ k) (gd_nodes d)) (gd_pending d) (gd_pending_budget d)
    (gd_writes d) (gd_stopping d) (gd_tickets d) (gd_results d).
End driver.
