(* ===== verification/GatewayDriverTheorems.v ===== *)
(** * Commands in flight are answered once

    Over every interleaving of commands, frames, closed streams, cancelled
    connections and changes of the topology. *)

From S2P Require Import Prelude Decimal Codec Schema Seastar Budget Protocol GatewayDriver.
From Stdlib Require Import Ascii.

Section theorems.
Context {SEM : Semaphore} `{!StdHash} (frame_size : GatewayToMessageFrame → Z) (command_size : CommandEnvelope → Z)
  (gateway_id instance_id : string).
Context (command_size_pos : ∀ c, (0 ≤ command_size c)%Z) (max_pending max_pending_bytes : Z).

Definition pending_units (m : gmap string pending_command) : list capacity_units :=
  (λ ip, pc_units ip.2) <$> map_to_list m.
Definition inflight_on (k : Z) (m : gmap string pending_command) : nat :=
  length (filter (λ ip, pc_link ip.2 = k) (map_to_list m)).

(** [closing]: a stream that is done and whose commands are being completed;
    [extra]: units taken for a command that is not in the table yet. *)
Record driver_ok (closing : option Z) (extra : list capacity_units) (d : driver) : Prop := {
  dk_pending id p : gd_pending d !! id = Some p →
    (∃ l, gd_links d !! pc_link p = Some l ∧ (lk_finished l = false ∨ closing = Some (pc_link p))) ∧
    pc_ticket p < gd_tickets d ∧ (pc_ticket p ∉ (gd_results d).*1) ∧
    ∃ conn, free_of ":"%char conn = true ∧ id = conn +:+ ":" +:+ pc_client_request_id p;
  dk_tickets id p id' p' :
    gd_pending d !! id = Some p → gd_pending d !! id' = Some p' → pc_ticket p = pc_ticket p' → id = id';
  dk_results : NoDup (gd_results d).*1 ∧ ∀ n, n ∈ (gd_results d).*1 → n < gd_tickets d;
  dk_all n : n < gd_tickets d → n ∈ (gd_results d).*1 ∨ ∃ id p, gd_pending d !! id = Some p ∧ pc_ticket p = n;
  dk_inflight k l : gd_links d !! k = Some l → lk_inflight l = inflight_on k (gd_pending d);
  dk_nodes node k : (node, k) ∈ gd_nodes d → is_Some (gd_links d !! k);
  dk_units : balanced max_pending max_pending_bytes (extra ++ pending_units (gd_pending d)) (gd_pending_budget d)
}.

(** ** The table *)

Lemma pending_units_delete m id p :
  m !! id = Some p → pending_units m ≡ₚ pc_units p :: pending_units (delete id m).
Proof. intros Hm. unfold pending_units. by rewrite <- (map_to_list_delete _ _ _ Hm). Qed.
Lemma pending_units_insert m id p :
  m !! id = None → pending_units (<[id := p]> m) ≡ₚ pc_units p :: pending_units m.
Proof. intros Hm. unfold pending_units. by rewrite map_to_list_insert. Qed.

Lemma inflight_delete m id p k :
  m !! id = Some p →
  inflight_on k m = (if decide (pc_link p = k) then 1 else 0) + inflight_on k (delete id m).
Proof.
  intros Hm. unfold inflight_on. rewrite <- (map_to_list_delete _ _ _ Hm), filter_cons. simpl. by case_decide.
Qed.
Lemma inflight_insert m id p k :
  m !! id = None →
  inflight_on k (<[id := p]> m) = (if decide (pc_link p = k) then 1 else 0) + inflight_on k m.
Proof.
  intros Hm. unfold inflight_on. rewrite (map_to_list_insert _ _ _ Hm), filter_cons. simpl. by case_decide.
Qed.

(** Changes of a stream that leave its load and its end alone. *)
Lemma ok_change_link closing extra d k f :
  (∀ l, lk_finished (f l) = lk_finished l) → (∀ l, lk_inflight (f l) = lk_inflight l) →
  driver_ok closing extra d → driver_ok closing extra (change_link k f d).
Proof.
  intros Hf Hi [H1 H2 H3 H4 H5 H6 H7]. split; simpl; try done.
  - intros id p Hp. destruct (H1 id p Hp) as ((l & Hl & Hc) & ?). split; [|done].
    destruct (decide (k = pc_link p)) as [->|Hne].
    + rewrite lookup_alter_eq, Hl. simpl. eexists. split; [done|]. by rewrite Hf.
    + rewrite lookup_alter_ne by done. eauto.
  - intros k' l. destruct (decide (k = k')) as [->|Hne].
    + rewrite lookup_alter_eq, fmap_Some. intros (l' & Hl & ->). rewrite Hi. by apply H5.
    + rewrite lookup_alter_ne by done. apply H5.
  - intros node k' Hn. destruct (decide (k = k')) as [->|Hne].
    + rewrite lookup_alter_eq. destruct (H6 _ _ Hn) as [l ->]. by eexists.
    + rewrite lookup_alter_ne by done. by eapply H6.
Qed.

Lemma resolve_ok closing extra d id p out :
  driver_ok closing extra d → gd_pending d !! id = Some p → driver_ok closing extra (resolve id p out d).
Proof.
  intros [H1 H2 H3 H4 H5 H6 H7] Hp. destruct (H1 id p Hp) as ((l & Hl & Hc) & Ht & Hn & _).
  split; simpl.
  - intros id' p' [Hne Hp']%lookup_delete_Some. destruct (H1 id' p' Hp') as ((l' & Hl' & Hc') & ? & ? & ?).
    split_and!; [|done| |done].
    + destruct (decide (pc_link p = pc_link p')) as [->|Hnl].
      * rewrite lookup_alter_eq, Hl'. simpl. eauto.
      * rewrite lookup_alter_ne by done. eauto.
    + rewrite fmap_app, elem_of_app. simpl. rewrite list_elem_of_singleton. intros [?|E]; [done|].
      apply Hne. by apply (H2 id p id' p').
  - intros id1 p1 id2 p2 [_ ?]%lookup_delete_Some [_ ?]%lookup_delete_Some. by eapply H2.
  - destruct H3 as [Hnd Hlt]. rewrite fmap_app. simpl. split.
    + apply NoDup_app. split_and!; [done| |apply NoDup_singleton].
      intros x Hx ->%list_elem_of_singleton. done.
    + intros n [?| ->%list_elem_of_singleton]%elem_of_app; auto.
  - intros n Hlt. rewrite fmap_app, elem_of_app. simpl. rewrite list_elem_of_singleton.
    destruct (decide (n = pc_ticket p)) as [->|Hne]; [by auto|].
    destruct (H4 n Hlt) as [?|(id' & p' & Hp' & <-)]; [by auto|]. right. exists id', p'. split; [|done].
    apply lookup_delete_Some. split; [|done]. intros ->. congruence.
  - intros k l0. destruct (decide (pc_link p = k)) as [<-|Hne].
    + rewrite lookup_alter_eq, fmap_Some. intros (l1 & Hl1 & ->). simpl.
      rewrite (H5 _ _ Hl1), (inflight_delete _ _ _ _ Hp), decide_True by done. done.
    + rewrite lookup_alter_ne by done. intros Hl0. rewrite (H5 _ _ Hl0), (inflight_delete _ _ _ _ Hp).
      by rewrite decide_False.
  - intros node k Hnk. destruct (H6 _ _ Hnk) as [l1 Hl1]. destruct (decide (pc_link p = k)) as [<-|Hne].
    + rewrite lookup_alter_eq, Hl1. by eexists.
    + rewrite lookup_alter_ne by done. by eexists.
  - apply balanced_release. eapply balanced_perm; [|exact H7].
    by rewrite (pending_units_delete _ _ _ Hp), <- Permutation_middle.
Qed.

(** Completing a set of entries. *)
Lemma resolve_list closing extra out l d :
  driver_ok closing extra d → NoDup l.*1 → (∀ id p, (id, p) ∈ l → gd_pending d !! id = Some p) →
  let d' := foldl (λ d ip, resolve ip.1 ip.2 out d) d l in
  driver_ok closing extra d' ∧
  (∀ id p, gd_pending d' !! id = Some p ↔ gd_pending d !! id = Some p ∧ id ∉ l.*1) ∧
  gd_stopping d' = gd_stopping d ∧ gd_tickets d' = gd_tickets d ∧ gd_nodes d' = gd_nodes d ∧
  gd_results d' = gd_results d ++ ((λ ip, (pc_ticket ip.2, out)) <$> l) ∧
  (∀ k, lk_finished <$> gd_links d' !! k = lk_finished <$> gd_links d !! k).
Proof.
  cbv zeta. revert d. induction l as [|[id p] l IH]; intros d Hok Hnd Hin; simpl.
  { rewrite app_nil_r. split_and!; try done. intros id p. split; [|by intros []]. intros ?. split; [done|]. apply not_elem_of_nil. }
  apply NoDup_cons in Hnd as [Hni Hnd]. simpl in Hni.
  assert (gd_pending d !! id = Some p) as Hp by (apply Hin; left).
  destruct (IH (resolve id p out d)) as (Hok' & Hpend & Hs & Ht & Hn & Hr & Hf).
  - by apply resolve_ok.
  - done.
  - intros id' p' Hin'. simpl. apply lookup_delete_Some. split; [|apply Hin; by right].
    intros <-. apply Hni. by apply (list_elem_of_fmap_2 fst _ (id, p')).
  - split_and!; try done.
    + intros id' p'. rewrite Hpend. simpl. rewrite lookup_delete_Some, not_elem_of_cons. naive_solver.
    + rewrite Hr. simpl. by rewrite <- (assoc_L (++)).
    + intros k. rewrite Hf. simpl. destruct (decide (pc_link p = k)) as [->|Hne].
      * rewrite lookup_alter_eq. by destruct (gd_links d !! k).
      * by rewrite lookup_alter_ne.
Qed.

Lemma resolve_all_spec closing extra P out d :
  driver_ok closing extra d →
  let d' := resolve_all P out d in
  driver_ok closing extra d' ∧
  (∀ id p, gd_pending d' !! id = Some p ↔ gd_pending d !! id = Some p ∧ P id p = false) ∧
  gd_tickets d' = gd_tickets d ∧
  (∀ id p, gd_pending d !! id = Some p → P id p = true → (pc_ticket p, out) ∈ gd_results d') ∧
  (∀ k, lk_finished <$> gd_links d' !! k = lk_finished <$> gd_links d !! k).
Proof.
  intros Hok. cbv zeta. unfold resolve_all. set (l := filter _ _).
  assert (∀ id p, (id, p) ∈ l ↔ P id p = true ∧ gd_pending d !! id = Some p) as Hl.
  { intros id p. unfold l. by rewrite list_elem_of_filter, elem_of_map_to_list. }
  destruct (resolve_list closing extra out l d Hok) as (Hok' & Hp & _ & Ht & _ & Hr & Hf).
  - unfold l. eapply sublist_NoDup; [|apply (fmap_sublist fst), sublist_filter]. apply NoDup_fst_map_to_list.
  - intros id p Hin. by apply Hl.
  - split_and!; try done.
    + intros id p. rewrite Hp. rewrite list_elem_of_fmap. split.
      * intros [Hd Hn]. split; [done|]. destruct (P id p) eqn:E; [|done]. exfalso. apply Hn. exists (id, p). split; [done|]. by apply Hl.
      * intros [Hd HP]. split; [done|]. intros ([id' p'] & -> & [? ?]%Hl). simpl in *. congruence.
    + intros id p Hd HP. rewrite Hr. apply elem_of_app. right.
      apply list_elem_of_fmap. exists (id, p). split; [done|]. by apply Hl.
Qed.

(** ** Operations *)

Lemma ok_links_same closing extra d d' :
  gd_links d' = gd_links d → gd_nodes d' = gd_nodes d → gd_pending d' = gd_pending d →
  gd_tickets d' = gd_tickets d → gd_results d' = gd_results d → gd_pending_budget d' = gd_pending_budget d →
  driver_ok closing extra d → driver_ok closing extra d'.
Proof. intros E1 E2 E3 E4 E5 E6 [H1 H2 H3 H4 H5 H6 H7]. split; rewrite ?E1, ?E2, ?E3, ?E4, ?E5, ?E6; done. Qed.

Lemma link_stop_ok closing extra d k : driver_ok closing extra d → driver_ok closing extra (link_stop k d).
Proof.
  intros Hok. unfold link_stop. destruct (gd_links d !! k) as [l|]; [|done]. destruct (lk_stopping l); [done|].
  by apply ok_change_link.
Qed.

Lemma link_enqueue_ok closing extra d k f :
  driver_ok closing extra d →
  let r := link_enqueue frame_size k f d in
  driver_ok closing extra r.2 ∧ gd_pending r.2 = gd_pending d ∧ gd_pending_budget r.2 = gd_pending_budget d ∧
  gd_tickets r.2 = gd_tickets d ∧ gd_results r.2 = gd_results d ∧
  (∀ k', lk_finished <$> gd_links r.2 !! k' = lk_finished <$> gd_links d !! k').
Proof.
  intros Hok. cbv zeta. unfold link_enqueue. destruct (gd_links d !! k) as [l|] eqn:Hl; [|done].
  destruct (lk_stopping l); [done|]. destruct (acquire (frame_size f) (gd_writes d)) as [[u|e] b]; simpl.
  - split_and!; try done.
    + apply ok_change_link; [done|done|]. by eapply ok_links_same; [..|exact Hok].
    + intros k'. destruct (decide (k = k')) as [->|Hne].
      * rewrite lookup_alter_eq, Hl. done.
      * by rewrite lookup_alter_ne.
  - split_and!; try done. by eapply ok_links_same; [..|exact Hok].
Qed.

Lemma scan_links_found c links nodes best :
  (∀ node k l, best = Some (node, k, l) → links !! k = Some l ∧ healthy l = true) →
  ∀ node k l, scan_links c links nodes best = Some (node, k, l) → links !! k = Some l ∧ healthy l = true.
Proof.
  revert best. induction nodes as [|[node' k'] nodes IH]; intros best Hb; simpl; [done|].
  apply IH. intros node k l. destruct (links !! k') as [l'|] eqn:Hl; [|apply Hb].
  destruct (healthy l') eqn:Hh; simpl; [|apply Hb]. destruct (better _ _ _ _); [|apply Hb]. by intros [= -> -> ->].
Qed.

(** A stream that is done is stopping, or was told so by gRPC: it is not healthy. *)
Definition done_unhealthy (d : driver) : Prop :=
  ∀ k l, gd_links d !! k = Some l → lk_finished l = true → lk_healthy l = false.

Lemma select_unfinished c d k :
  done_unhealthy d → select_grpc_link c d = Ok k → ∃ l, gd_links d !! k = Some l ∧ lk_finished l = false.
Proof.
  intros Hd. unfold select_grpc_link. destruct (scan_links _ _ _ _) as [[[node k'] l]|] eqn:E; [|done]. intros [= ->].
  apply scan_links_found in E as [Hl Hh]; [|done]. exists l. split; [done|].
  destruct (lk_finished l) eqn:Ef; [|done]. unfold healthy in Hh. by rewrite (Hd _ _ Hl Ef) in Hh.
Qed.

Lemma register_pending_ok d k c units l :
  driver_ok None [units] d → free_of ":"%char (ce_connection_id c) = true → gd_pending d !! correlation c = None →
  gd_links d !! k = Some l → lk_finished l = false →
  driver_ok None [] (register_pending k c units d).
Proof.
  intros [H1 H2 H3 H4 H5 H6 H7] Hconn Hnew Hl Hf. split; simpl.
  - intros id p [[<- <-]|[Hne Hp]]%lookup_insert_Some; simpl.
    + split_and!; [|lia| |by eexists].
      * rewrite lookup_alter_eq, Hl. simpl. eauto.
      * intros Hin. apply H3 in Hin. lia.
    + destruct (H1 id p Hp) as ((l' & Hl' & Hc) & ? & ? & ?). split_and!; [|lia|done|done].
      destruct (decide (k = pc_link p)) as [->|Hnk].
      * rewrite lookup_alter_eq, Hl'. simpl. eauto.
      * rewrite lookup_alter_ne by done. eauto.
  - intros id p id' p' [[<- <-]|[Hne Hp]]%lookup_insert_Some [[<- <-]|[Hne' Hp']]%lookup_insert_Some; simpl; [done| | |].
    + destruct (H1 id' p' Hp') as (_ & ? & _). lia.
    + destruct (H1 id p Hp) as (_ & ? & _). lia.
    + by eapply H2.
  - destruct H3 as [Hnd Hlt]. split; [done|]. intros n Hn%Hlt. lia.
  - intros n Hn. destruct (decide (n = gd_tickets d)) as [->|Hne].
    + right. eexists _, _. rewrite lookup_insert_eq. done.
    + destruct (H4 n) as [?|(id & p & Hp & <-)]; [lia|by left|]. right. exists id, p. split; [|done].
      rewrite lookup_insert_ne; [done|congruence].
  - intros k' l'. rewrite inflight_insert by done. simpl. destruct (decide (k = k')) as [->|Hne].
    + rewrite lookup_alter_eq, Hl. simpl. intros [= <-]. simpl. by rewrite (H5 _ _ Hl).
    + rewrite lookup_alter_ne by done. apply H5.
  - intros node k' Hn. destruct (H6 _ _ Hn) as [l' Hl']. destruct (decide (k = k')) as [->|Hne].
    + rewrite lookup_alter_eq, Hl'. by eexists.
    + rewrite lookup_alter_ne by done. by eexists.
  - eapply balanced_perm; [symmetry; by apply pending_units_insert|]. exact H7.
Qed.

(** The units of a command come and go. *)
Lemma ok_units closing extra extra' d b :
  driver_ok closing extra d →
  (balanced max_pending max_pending_bytes (extra ++ pending_units (gd_pending d)) (gd_pending_budget d) →
   balanced max_pending max_pending_bytes (extra' ++ pending_units (gd_pending d)) b) →
  driver_ok closing extra' (gd_set_pending (gd_pending d) b d).
Proof. intros [H1 H2 H3 H4 H5 H6 H7] Hb. split; try done. by apply Hb. Qed.

Lemma send_command_ok d c :
  driver_ok None [] d → done_unhealthy d → free_of ":"%char (ce_connection_id c) = true →
  driver_ok None [] (send_command frame_size command_size c d).2.
Proof.
  intros Hok Hdone Hconn. unfold send_command. destruct (gd_stopping d); [done|].
  destruct (select_grpc_link (ce_conversation_id c) d) as [k|e] eqn:Hk; [|done].
  destruct (select_unfinished _ _ _ Hdone Hk) as (l & Hl & Hf).
  destruct (acquire (command_size c) (gd_pending_budget d)) as [[units|e] b] eqn:Ea.
  2: { apply (ok_units _ [] _ _ _ Hok). intros Hb.
       by destruct (balanced_acquire _ _ _ _ _ _ _ (command_size_pos c) Ea Hb) as [_ ?]. }
  cbv zeta. set (d0 := gd_set_pending (gd_pending d) b d).
  assert (driver_ok None [units] d0) as Hok0.
  { apply (ok_units _ [] _ _ _ Hok). intros Hb. exact (balanced_acquire _ _ _ _ _ _ _ (command_size_pos c) Ea Hb). }
  assert (∀ d1, driver_ok None [units] d1 →
    driver_ok None [] (gd_set_pending (gd_pending d1) (release units (gd_pending_budget d1)) d1)) as Hback.
  { intros d1 Hok1. apply (ok_units _ [units] _ _ _ Hok1), balanced_release. }
  case_bool_decide as Hin; [by apply Hback|].
  destruct (link_enqueue_ok None [units] d0 k (command (set_command_id (correlation c) c)) Hok0)
    as (Hok1 & Hp1 & _ & _ & _ & Hfin).
  destruct (link_enqueue frame_size k (command (set_command_id (correlation c) c)) d0) as [[[]|e] d1]; simpl in *;
    [|by apply Hback].
  specialize (Hfin k). rewrite Hl in Hfin. simpl in Hfin. destruct (gd_links d1 !! k) as [l1|] eqn:Hl1; [|done].
  injection Hfin as Hfin. apply (register_pending_ok d1 k c units l1); [done|done| |done|congruence].
  rewrite Hp1. by apply eq_None_not_Some.
Qed.

Lemma du_change d k f :
  (∀ l, (lk_finished l = true → lk_healthy l = false) → lk_finished (f l) = true → lk_healthy (f l) = false) →
  done_unhealthy d → done_unhealthy (change_link k f d).
Proof.
  intros Hf Hd k' l. simpl. destruct (decide (k = k')) as [->|Hne].
  - rewrite lookup_alter_eq, fmap_Some. intros (l' & Hl & ->). apply Hf. intros ?. by eapply Hd.
  - rewrite lookup_alter_ne by done. apply Hd.
Qed.

Lemma du_stop d k : done_unhealthy d → done_unhealthy (link_stop k d).
Proof.
  intros Hd. unfold link_stop. destruct (gd_links d !! k) as [l|]; [|done]. destruct (lk_stopping l); [done|].
  by apply du_change.
Qed.

Lemma du_resolve_all d P out : done_unhealthy d → done_unhealthy (resolve_all P out d).
Proof.
  unfold resolve_all. generalize (filter (λ kp, P kp.1 kp.2 = true) (map_to_list (gd_pending d))).
  intros l. revert d. induction l as [|ip l IH]; intros d Hd; simpl; [done|]. apply IH.
  by apply (du_change (gd_set_pending (delete ip.1 (gd_pending d)) (release (pc_units ip.2) (gd_pending_budget d)) d)).
Qed.

Lemma du_enqueue d k f : done_unhealthy d → done_unhealthy (link_enqueue frame_size k f d).2.
Proof.
  intros Hd. unfold link_enqueue. destruct (gd_links d !! k) as [l|]; [|done]. destruct (lk_stopping l); [done|].
  destruct (acquire (frame_size f) (gd_writes d)) as [[u|e] b]; simpl; [|done]. by apply (du_change (gd_set_writes b d)).
Qed.

Lemma du_send d c : done_unhealthy d → done_unhealthy (send_command frame_size command_size c d).2.
Proof.
  intros Hd. unfold send_command. destruct (gd_stopping d); [done|].
  destruct (select_grpc_link (ce_conversation_id c) d) as [k|e]; [|done].
  destruct (acquire (command_size c) (gd_pending_budget d)) as [[units|e] b]; [|done]. cbv zeta.
  case_bool_decide; [done|].
  pose proof (du_enqueue (gd_set_pending (gd_pending d) b d) k (command (set_command_id (correlation c) c)) Hd) as He.
  destruct (link_enqueue _ _ _ _) as [[[]|e] d1]; simpl in *; [|done].
  by apply (du_change (MkDriver (gd_links d1) (gd_nodes d1) _ _ _ _ _ _)).
Qed.

(** ** All interleavings *)

Definition driver_inv (d : driver) : Prop := driver_ok None [] d ∧ done_unhealthy d.

Lemma on_grpc_frame_ok d k frame status :
  driver_inv d → driver_inv (on_grpc_frame frame_size gateway_id instance_id k frame status d).2.
Proof.
  intros [Hok Hd]. destruct frame as [|r|r|f|h|n]; try done; simpl.
  - destruct (gd_pending d !! cres_request_id r) as [p|] eqn:Hp; [|done].
    destruct (pc_link p =? k)%Z; simpl; [|done]. split; [by apply resolve_ok|].
    by apply (du_change (gd_set_pending _ _ d)).
  - split; [by apply link_enqueue_ok|by apply du_enqueue].
Qed.

Lemma link_stop_inv d k : driver_inv d → driver_inv (link_stop k d).
Proof. intros [Hok Hd]. split; [by apply link_stop_ok|by apply du_stop]. Qed.

Lemma change_link_inv d k f :
  (∀ l, lk_finished (f l) = lk_finished l) → (∀ l, lk_inflight (f l) = lk_inflight l) →
  (∀ l, (lk_finished l = true → lk_healthy l = false) → lk_finished (f l) = true → lk_healthy (f l) = false) →
  driver_inv d → driver_inv (change_link k f d).
Proof. intros H1 H2 H3 [Hok Hd]. split; [by apply ok_change_link|by apply du_change]. Qed.

Lemma on_read_inv d k l ok frame status :
  gd_links d !! k = Some l → lk_finished l = false → driver_inv d →
  driver_inv (link_OnReadDone frame_size gateway_id instance_id k ok frame status d).2.
Proof.
  intros Hl Hf Hinv. unfold link_OnReadDone.
  assert (driver_inv (change_link k (link_set_reading false) d)) as Hinv1 by (by apply change_link_inv).
  set (d1 := change_link k (link_set_reading false) d) in *. cbv zeta.
  destruct ok; simpl; [|by apply link_stop_inv].
  assert (∀ d2, driver_inv d2 → driver_inv
    (match on_grpc_frame frame_size gateway_id instance_id k frame status d2 with
     | (Throw _, d) => (Ok tt, link_stop k d)
     | (Ok _, d) =>
         match gd_links d !! k with
         | Some l => (Ok tt, if negb (lk_stopping l) then change_link k (link_set_reading true) d else d)
         | None => (Ok tt, d)
         end
     end).2) as Hprocess.
  { intros d2 Hd2. pose proof (on_grpc_frame_ok d2 k frame status Hd2) as Hd3.
    destruct (on_grpc_frame _ _ _ _ _ _ _) as [[[]|e] d3]; simpl in *; [|by apply link_stop_inv].
    destruct (gd_links d3 !! k) as [l3|]; simpl; [|done]. destruct (lk_stopping l3); simpl; [done|].
    by apply change_link_inv. }
  destruct frame as [|r|r|f|h|n]; try (by apply Hprocess); [|by apply link_stop_inv].
  assert (driver_inv (change_link k (link_set_healthy (rr_accepted r)) d1)) as Hinv2.
  { destruct Hinv1 as [Hok Hd]. split; [by apply ok_change_link|].
    intros k' l'. simpl. destruct (decide (k = k')) as [->|Hne].
    - rewrite !lookup_alter_eq, Hl. simpl. intros [= <-]. simpl. congruence.
    - rewrite !lookup_alter_ne by done. intros Hl' Hf'. destruct (Hd k' l'); [|done|done]. simpl. by rewrite lookup_alter_ne. }
  destruct (rr_accepted r); [exact (Hprocess _ Hinv2)|exact (link_stop_inv _ k Hinv2)].
Qed.

Lemma link_OnDone_inv d k :
  driver_inv d → driver_inv (link_OnDone k d) ∧
  ∀ id p, gd_pending (link_OnDone k d) !! id = Some p → pc_link p ≠ k.
Proof.
  intros [Hok Hd]. unfold link_OnDone, on_grpc_done.
  set (d1 := change_link k link_set_finished d).
  assert (driver_ok (Some k) [] d1) as Hok1.
  { destruct Hok as [H1 H2 H3 H4 H5 H6 H7]. split; simpl; try done.
    - intros id p Hp. destruct (H1 id p Hp) as ((l & Hl & Hc) & ?). split; [|done].
      destruct (decide (k = pc_link p)) as [->|Hne].
      + rewrite lookup_alter_eq, Hl. simpl. eauto.
      + rewrite lookup_alter_ne by done. naive_solver.
    - intros k' l. destruct (decide (k = k')) as [->|Hne].
      + rewrite lookup_alter_eq, fmap_Some. intros (l' & Hl & ->). exact (H5 _ _ Hl).
      + rewrite lookup_alter_ne by done. apply H5.
    - intros node k' Hn. destruct (H6 _ _ Hn) as [l Hl]. destruct (decide (k = k')) as [->|Hne].
      + rewrite lookup_alter_eq, Hl. by eexists.
      + rewrite lookup_alter_ne by done. by eexists. }
  destruct (resolve_all_spec (Some k) [] (λ _ p, pc_link p =? k)%Z
    (Throw (RuntimeError "Message stream closed before result")) d1 Hok1) as (Hok2 & Hp & _ & _ & _).
  assert (∀ id p, gd_pending (resolve_all (λ _ p, (pc_link p =? k)%Z)
    (Throw (RuntimeError "Message stream closed before result")) d1) !! id = Some p → pc_link p ≠ k) as Hnone.
  { intros id p [_ ?%Z.eqb_neq]%Hp. done. }
  split; [|done]. split; [|by apply du_resolve_all, du_change].
  destruct Hok2 as [H1 H2 H3 H4 H5 H6 H7]. split; try done.
  intros id p Hid. destruct (H1 id p Hid) as ((l & Hl & [?|[= E]]) & ?); [by eauto 10|]. by apply Hnone in Hid.
Qed.

Lemma add_link_inv d k n :
  gd_links d !! k = None → driver_inv d → driver_inv (add_link gateway_id k n d).
Proof.
  intros Hk [[H1 H2 H3 H4 H5 H6 H7] Hd]. split.
  - split; simpl; try done.
    + intros id p Hp. destruct (H1 id p Hp) as ((l & Hl & ?) & ?). split; [|done].
      exists l. rewrite lookup_insert_ne; [done|congruence].
    + intros k' l [[<- <-]|[Hne Hl]]%lookup_insert_Some; [|by apply H5]. simpl. unfold inflight_on.
      symmetry. apply length_zero_iff_nil. apply elem_of_nil_inv. intros [id p] [Hlk Hp]%list_elem_of_filter.
      apply elem_of_map_to_list in Hp. destruct (H1 id p Hp) as ((l & Hl & _) & _). simpl in Hlk. congruence.
    + intros node k' [Hn|[= -> ->]%list_elem_of_singleton]%elem_of_app.
      * destruct (H6 _ _ Hn) as [l Hl]. rewrite lookup_insert_ne; [by eexists|congruence].
      * rewrite lookup_insert_eq. by eexists.
  - intros k' l. simpl. intros [[<- <-]|[Hne Hl]]%lookup_insert_Some; [done|]. by eapply Hd.
Qed.

Lemma remove_link_inv d k l :
  gd_links d !! k = Some l → lk_finished l = true → driver_inv d → driver_inv (remove_link k d).
Proof.
  intros Hk Hf [[H1 H2 H3 H4 H5 H6 H7] Hd]. split.
  - split; simpl; try done.
    + intros id p Hp. destruct (H1 id p Hp) as ((l' & Hl & [Hc|?]) & ?); [|done]. split; [|done].
      exists l'. rewrite lookup_delete_ne; [eauto|congruence].
    + intros k' l' [_ Hl]%lookup_delete_Some. by apply H5.
    + intros node k' [Hne Hn]%list_elem_of_filter. simpl in Hne. rewrite lookup_delete_ne by done. by eapply H6.
  - intros k' l'. simpl. intros [_ Hl]%lookup_delete_Some. by eapply Hd.
Qed.

(** What may happen: gRPC completes reads it was asked for and ends a stream
    once; connection ids are UUIDs, without a colon; a stream is made for a
    usable node and removed after its end, when its last frame is released. *)
Inductive driver_step (d : driver) : driver → Prop :=
  | ds_send c : free_of ":"%char (ce_connection_id c) = true →
      driver_step d (send_command frame_size command_size c d).2
  | ds_read k l ok frame status : gd_links d !! k = Some l → lk_finished l = false → lk_reading l = true →
      driver_step d (link_OnReadDone frame_size gateway_id instance_id k ok frame status d).2
  | ds_done k l : gd_links d !! k = Some l → lk_finished l = false → driver_step d (link_OnDone k d)
  | ds_cancel connection_id : driver_step d (cancel connection_id d)
  | ds_abort : driver_step d (driver_abort d)
  | ds_stop k : driver_step d (link_stop k d)
  | ds_frame_done k : driver_step d (frame_done k d)
  | ds_connect k n shard_id epoch capacity : gd_links d !! k = None → usable_node n = true →
      driver_step d (link_start frame_size gateway_id instance_id k shard_id epoch capacity (add_link gateway_id k n d)).2
  | ds_remove k l : gd_links d !! k = Some l → lk_finished l = true → lk_frames l = [] → driver_step d (remove_link k d)
  | ds_heartbeat k h : driver_step d (link_enqueue frame_size k (heartbeat h) d).2.

Lemma cancel_inv d connection_id : driver_inv d → driver_inv (cancel connection_id d).
Proof. intros [Hok Hd]. split; [by apply resolve_all_spec|by apply du_resolve_all]. Qed.

Lemma driver_step_inv d d' : driver_step d d' → driver_inv d → driver_inv d'.
Proof.
  intros [c Hc|k l ok frame status Hl Hf _|k l _ _|conn| |k|k|k n sh ep cap Hk _|k l Hl Hf _|k h] Hinv.
  - destruct Hinv as [Hok Hd]. split; [by apply send_command_ok|by apply du_send].
  - by eapply on_read_inv.
  - by apply link_OnDone_inv.
  - by apply cancel_inv.
  - unfold driver_abort. destruct (gd_stopping d); [done|]. cbv zeta. simpl. generalize ((gd_nodes d).*2). intros l.
    set (d0 := MkDriver _ _ _ _ _ true _ _). assert (driver_inv d0) as H0.
    { destruct Hinv as [Hok Hd]. split; [by eapply ok_links_same; [..|exact Hok]|done]. }
    clearbody d0. revert d0 H0. induction l as [|k l IH]; intros d0 H0; simpl; [done|]. by apply IH, link_stop_inv.
  - by apply link_stop_inv.
  - unfold frame_done. destruct (gd_links d !! k) as [l|]; [|done]. destruct (lk_frames l); [done|].
    apply change_link_inv; try done. destruct Hinv as [Hok Hd]. split; [by eapply ok_links_same; [..|exact Hok]|done].
  - unfold link_start. rewrite bind_eq. simpl. rewrite catch_eq.
    assert (driver_inv (change_link k (link_set_reading true) (add_link gateway_id k n d))) as [Hok Hd].
    { apply change_link_inv; try done. by apply add_link_inv. }
    pose proof (link_enqueue_ok None [] _ k (register_gateway (MkRegisterGateway 1 gateway_id instance_id ep sh cap)) Hok) as (He & _).
    pose proof (du_enqueue _ k (register_gateway (MkRegisterGateway 1 gateway_id instance_id ep sh cap)) Hd) as He'.
    destruct (link_enqueue frame_size k _ _).1; [by split|]. by apply link_stop_inv.
  - by eapply remove_link_inv.
  - destruct Hinv as [Hok Hd]. split; [by apply (link_enqueue_ok None [] _ k (heartbeat h))|by apply du_enqueue].
Qed.

Definition driver_init (writes : budget) : driver :=
  MkDriver ∅ [] ∅ (make_budget max_pending max_pending_bytes) writes false 0 [].

Lemma driver_reachable writes d :
  (0 ≤ max_pending)%Z → (0 ≤ max_pending_bytes)%Z → rtc driver_step (driver_init writes) d → driver_inv d.
Proof.
  intros Hp Hb Hr.
  assert (driver_inv (driver_init writes)) as H0.
  { split; [|done]. split; simpl; try done.
    - split; [constructor|]. by intros n ?%elem_of_nil.
    - lia.
    - by intros node k ?%elem_of_nil.
    - unfold balanced, make_budget, pending_units. rewrite map_to_list_empty. simpl. rewrite !available_init.
      split_and!; [constructor|lia..]. }
  induction Hr as [d|d d1 d2 Hs _ IH]; [done|]. by apply IH, (driver_step_inv d).
Qed.

(** C6: every command the Gateway accepts is answered once. In every
    interleaving each ticket has exactly one result or is still in the table, on
    a stream that has not ended, so that a result or the end of the stream will
    answer it; the load of a stream is the number of its commands; and no more
    commands are in flight than the limits allow. *)
Theorem commands_answered_once writes d :
  (0 ≤ max_pending)%Z → (0 ≤ max_pending_bytes)%Z → rtc driver_step (driver_init writes) d →
  NoDup (gd_results d).*1 ∧
  (∀ n, n < gd_tickets d →
     (n ∈ (gd_results d).*1 ∧ ∀ id p, gd_pending d !! id = Some p → pc_ticket p ≠ n) ∨
     (n ∉ (gd_results d).*1) ∧ ∃ id p l, gd_pending d !! id = Some p ∧ pc_ticket p = n ∧
        gd_links d !! pc_link p = Some l ∧ lk_finished l = false) ∧
  (∀ k l, gd_links d !! k = Some l → lk_inflight l = inflight_on k (gd_pending d)) ∧
  (Z.of_nat (length (pending_units (gd_pending d))) ≤ max_pending)%Z ∧
  (foldr Z.add 0 (pending_units (gd_pending d)) ≤ max_pending_bytes)%Z.
Proof.
  intros Hp Hb Hr. destruct (driver_reachable writes d Hp Hb Hr) as [[H1 H2 [H3 _] H4 H5 _ H7] _].
  split_and!; [done| |done|..].
  - intros n [Hin|(id & p & Hid & <-)]%H4.
    + left. split; [done|]. intros id p Hid E. destruct (H1 id p Hid) as (_ & _ & Hni & _). congruence.
    + right. destruct (H1 id p Hid) as ((l & Hl & [?|?]) & _ & Hni & _); [|done]. eauto 10.
  - destruct H7 as (_ & ? & _ & Hl & _). simpl in Hl. lia.
  - destruct H7 as (_ & _ & ? & _ & Hsum). simpl in Hsum. lia.
Qed.

(** ** Cancelling a connection *)

Lemma string_prefix_app (s t : string) : String.prefix s t = true ↔ ∃ u, t = s +:+ u.
Proof.
  revert t. induction s as [|c s IH]; intros t.
  - destruct t; simpl; (split; [eauto|done]).
  - destruct t as [|c' t]; simpl.
    + split; [done|]. intros [u E]. discriminate.
    + destruct (Ascii.ascii_dec c c') as [<-|Hne].
      * rewrite IH. split; intros [u E]; exists u; [by rewrite E|]. by injection E.
      * split; [done|]. intros [u E]. injection E. congruence.
Qed.

(** Cancel ends the commands of one connection and no others: all of them
    leave the table and are answered with [stopped]; an entry of another
    connection stays as it was. *)
Theorem cancel_one_connection writes d connection_id :
  (0 ≤ max_pending)%Z → (0 ≤ max_pending_bytes)%Z → rtc driver_step (driver_init writes) d →
  free_of ":"%char connection_id = true →
  ∀ other client p, free_of ":"%char other = true → gd_pending d !! (other +:+ (":" +:+ client)) = Some p →
  if decide (other = connection_id)
  then gd_pending (cancel connection_id d) !! (other +:+ (":" +:+ client)) = None ∧
       (pc_ticket p, Throw Stopped) ∈ gd_results (cancel connection_id d)
  else gd_pending (cancel connection_id d) !! (other +:+ (":" +:+ client)) = Some p.
Proof.
  intros Hp Hb Hr Hfree other client p Hother Hid. destruct (driver_reachable writes d Hp Hb Hr) as [Hok _].
  destruct (resolve_all_spec None [] (λ id _, String.prefix (connection_id +:+ ":") id) (Throw Stopped) d Hok)
    as (_ & Hpend & _ & Hres & _).
  case_decide as Heq.
  - subst other. assert (String.prefix (connection_id +:+ ":") (connection_id +:+ (":" +:+ client)) = true) as Hpre.
    { apply string_prefix_app. exists client. by rewrite string_app_assoc. }
    split; [|by eapply Hres]. apply eq_None_not_Some. intros [p' [_ Hf]%Hpend]. congruence.
  - apply Hpend. split; [done|]. apply not_true_iff_false. intros [u E]%string_prefix_app.
    apply Heq. rewrite <- string_app_assoc in E. by apply separator_split in E as [-> _].
Qed.

(** ** The choice of a stream *)

Definition rank (c : Z) (node : string) (l : link) (node' : string) (l' : link) : Prop :=
  if (0 <? c)%Z then (link_score c node' ≤ link_score c node)%Z else lk_inflight l ≤ lk_inflight l'.

Lemma scan_links_best c links nodes best node k l :
  scan_links c links nodes best = Some (node, k, l) →
  ((node, k) ∈ nodes ∧ links !! k = Some l ∧ healthy l = true ∨ best = Some (node, k, l)) ∧
  (∀ node' k' l', (node', k') ∈ nodes → links !! k' = Some l' → healthy l' = true → rank c node l node' l') ∧
  (∀ node' k' l', best = Some (node', k', l') → rank c node l node' l').
Proof.
  assert (∀ n l, rank c n l n l) as Hrefl by (intros; unfold rank; case_match; lia).
  assert (∀ n1 l1 n2 l2 n3 l3, rank c n1 l1 n2 l2 → rank c n2 l2 n3 l3 → rank c n1 l1 n3 l3) as Htrans.
  { intros *. unfold rank. case_match; lia. }
  revert best. induction nodes as [|[n0 k0] nodes IH]; intros best; simpl.
  { intros ->. split_and!; [by right|by intros ??? ?%elem_of_nil|]. by intros ??? [= -> -> ->]. }
  intros (Hin & Hall & Hbest)%IH. destruct (links !! k0) as [l0|] eqn:Hl0.
  2: { split_and!; [destruct Hin as [(? & ? & ?)|?]; [left; split_and!; [by right|done..]|by right]| |done].
       intros node' k' l' [[= -> ->]|Hn]%elem_of_cons; [congruence|by eapply Hall]. }
  destruct (healthy l0) eqn:Hh0; simpl in *.
  2: { split_and!; [destruct Hin as [(? & ? & ?)|?]; [left; split_and!; [by right|done..]|by right]| |done].
       intros node' k' l' [[= -> ->]|Hn]%elem_of_cons; [congruence|by eapply Hall]. }
  destruct (better c n0 l0 best) eqn:Hbt; simpl in *.
  - assert (rank c node l n0 l0) as H0 by (by eapply Hbest).
    split_and!.
    + destruct Hin as [(? & ? & ?)|[= -> -> ->]]; left; (split_and!; [by constructor|done..]).
    + intros node' k' l' [[= -> ->]|Hn]%elem_of_cons; [|by eapply Hall]. intros ? _. by simplify_eq.
    + intros node' k' l' ->. eapply Htrans; [exact H0|]. simpl in Hbt. unfold rank.
      destruct (0 <? c)%Z; [apply Z.ltb_lt in Hbt; lia|apply Nat.ltb_lt in Hbt; lia].
  - split_and!; [destruct Hin as [(? & ? & ?)|?]; [left; split_and!; [by right|done..]|by right]| |done].
    intros node' k' l' [[= -> ->]|Hn]%elem_of_cons; [|by eapply Hall]. intros ? _. simplify_eq.
    destruct best as [[[nb kb] lb]|]; [|done]. eapply Htrans; [by eapply Hbest|]. simpl in Hbt. unfold rank.
    destruct (0 <? c)%Z; [apply Z.ltb_ge in Hbt; lia|apply Nat.ltb_ge in Hbt; lia].
Qed.

Lemma scan_links_none c links nodes best :
  scan_links c links nodes best = None →
  best = None ∧ ∀ node k l, (node, k) ∈ nodes → links !! k = Some l → healthy l = false.
Proof.
  revert best. induction nodes as [|[n0 k0] nodes IH]; intros best; simpl.
  { intros ->. split; [done|]. by intros ??? ?%elem_of_nil. }
  intros [Hb Hall]%IH. destruct (links !! k0) as [l0|] eqn:Hl0.
  - destruct (healthy l0) eqn:Hh; simpl in Hb.
    + destruct (better c n0 l0 best) eqn:Hbt; [done|]. subst best. done.
    + split; [done|]. intros node k l [[= -> ->]|Hn]%elem_of_cons; [congruence|by eapply Hall].
  - split; [done|]. intros node k l [[= -> ->]|Hn]%elem_of_cons; [congruence|by eapply Hall].
Qed.

Definition candidate (d : driver) (node : string) (k : Z) : Prop :=
  (node, k) ∈ gd_nodes d ∧ ∃ l, gd_links d !! k = Some l ∧ healthy l = true.

(** The chosen stream is a healthy one, best among the healthy. *)
Lemma select_best c d k :
  select_grpc_link c d = Ok k →
  ∃ node, candidate d node k ∧
    ((0 < c)%Z → ∀ node' k', candidate d node' k' → (link_score c node' ≤ link_score c node)%Z).
Proof.
  unfold select_grpc_link. destruct (scan_links _ _ _ _) as [[[node k'] l]|] eqn:E; [|done]. intros [= ->].
  apply scan_links_best in E as ([(Hin & Hl & Hh)|[=]] & Hall & _). exists node. split; [by repeat esplit|].
  intros Hc node' k' (Hin' & l' & Hl' & Hh'). specialize (Hall _ _ _ Hin' Hl' Hh'). unfold rank in Hall.
  by rewrite (proj2 (Z.ltb_lt 0 c)) in Hall.
Qed.

(** A conversation stays on its stream. When the scores of the nodes differ,
    the stream chosen for a conversation is chosen again, in whatever order the
    table is scanned, as long as it is healthy and no new node came, whatever
    other nodes fail or leave. *)
Theorem conversation_affinity d d' c k :
  (0 < c)%Z → NoDup (gd_nodes d).*2 →
  (∀ n k n' k', candidate d n k → candidate d n' k' → link_score c n = link_score c n' → k = k') →
  select_grpc_link c d = Ok k →
  (∀ n' k', candidate d' n' k' → candidate d n' k') → (∃ n, candidate d' n k) →
  select_grpc_link c d' = Ok k.
Proof.
  intros Hc Hnd Hdist (node & [Hin Hl] & Hbest)%select_best Hsub [n Hk].
  destruct (select_grpc_link c d') as [k'|e] eqn:E.
  - apply select_best in E as (node' & Hcand' & Hbest'). f_equal.
    assert (n = node) as ->.
    { destruct (Hsub _ _ Hk) as [Hin' _]. apply list_elem_of_lookup in Hin as [i Hi], Hin' as [j Hj].
      assert (i = j) as ->; [|congruence].
      eapply (NoDup_lookup _ i j k Hnd); by rewrite list_lookup_fmap, ?Hi, ?Hj. }
    symmetry. apply (Hdist node k node' k'); [by split|by apply Hsub|].
    pose proof (Hbest Hc _ _ (Hsub _ _ Hcand')). pose proof (Hbest' Hc _ _ Hk). lia.
  - unfold select_grpc_link in E. destruct (scan_links _ _ _ _) as [[[? ?] ?]|] eqn:Es; [done|].
    apply scan_links_none in Es as [_ Hnone]. destruct Hk as (Hin' & l & Hl' & Hh).
    by rewrite (Hnone _ _ _ Hin' Hl') in Hh.
Qed.
End theorems.

(** ** Witnesses *)

#[local] Existing Instance counting_semaphore.

Definition demo_hash_length : StdHash := λ s, Z.of_nat (String.length s).
#[local] Existing Instance demo_hash_length.

Definition demo_frame_size (f : GatewayToMessageFrame) : Z := 10.
Definition demo_command_size (c : CommandEnvelope) : Z := 20.
Lemma demo_command_size_pos c : (0 ≤ demo_command_size c)%Z.
Proof. done. Qed.

Definition demo_node (id : string) : message_node := MkMessageNode id "active" "10.0.0.1" 9000 2.
Definition demo_connect (k : Z) (id : string) (d : driver) : driver :=
  (link_start demo_frame_size "gw" "instance" k 0 7 64 (add_link "gw" k (demo_node id) d)).2.
Definition demo_accept (k : Z) (d : driver) : driver :=
  (link_OnReadDone demo_frame_size "gw" "instance" k true (register_result (MkRegisterResult true "m" 7 ""))
     CLIENT_FORWARD_STATUS_QUEUED d).2.
Definition demo_linked : driver :=
  demo_accept 2 (demo_accept 1 (demo_connect 2 "message-10" (demo_connect 1 "message-1"
    (driver_init 4 1000 (make_budget 8 1000))))).
Definition demo_sent : driver :=
  (send_command demo_frame_size demo_command_size (MkCommandEnvelope "r1" 1001 "c1" 1 OP_SEND_TEXT 9 "" "laptop") demo_linked).2.

Lemma demo_connect_step k id d :
  gd_links d !! k = None → usable_node (demo_node id) = true →
  rtc (driver_step demo_frame_size demo_command_size "gw" "instance") d (demo_connect k id d).
Proof. intros. apply rtc_once. by apply (ds_connect _ _ _ _ d k (demo_node id) 0 7 64). Qed.

Lemma demo_accept_step k d :
  match gd_links d !! k with Some l => negb (lk_finished l) && lk_reading l | None => false end = true →
  rtc (driver_step demo_frame_size demo_command_size "gw" "instance") d (demo_accept k d).
Proof.
  destruct (gd_links d !! k) as [l|] eqn:Hl; [|done]. intros [Hf%negb_true_iff Hr]%andb_true_iff.
  apply rtc_once. by apply (ds_read _ _ _ _ d k l).
Qed.

Lemma demo_linked_reachable :
  rtc (driver_step demo_frame_size demo_command_size "gw" "instance") (driver_init 4 1000 (make_budget 8 1000)) demo_linked.
Proof.
  unfold demo_linked. do 2 (etrans; [|apply demo_accept_step; vm_compute; reflexivity]).
  etrans; [|apply demo_connect_step; vm_compute; reflexivity]. apply demo_connect_step; vm_compute; reflexivity.
Qed.

Lemma demo_sent_reachable :
  rtc (driver_step demo_frame_size demo_command_size "gw" "instance") (driver_init 4 1000 (make_budget 8 1000)) demo_sent.
Proof.
  etrans; [apply demo_linked_reachable|]. apply rtc_once.
  exact (ds_send _ _ _ _ demo_linked (MkCommandEnvelope "r1" 1001 "c1" 1 OP_SEND_TEXT 9 "" "laptop") eq_refl).
Qed.

Lemma commands_answered_once_witness :
  gd_tickets demo_sent = 1 ∧
  ((0 ∈ (gd_results demo_sent).*1 ∧ ∀ id p, gd_pending demo_sent !! id = Some p → pc_ticket p ≠ 0) ∨
   (0 ∉ (gd_results demo_sent).*1) ∧ ∃ id p l, gd_pending demo_sent !! id = Some p ∧ pc_ticket p = 0 ∧
      gd_links demo_sent !! pc_link p = Some l ∧ lk_finished l = false).
Proof.
  destruct (commands_answered_once demo_frame_size demo_command_size "gw" "instance" demo_command_size_pos 4 1000
    (make_budget 8 1000) demo_sent) as (_ & H & _); [lia|lia|apply demo_sent_reachable|].
  split; [vm_compute; reflexivity|]. apply H. vm_compute. lia.
Defined.

Lemma cancel_one_connection_witness :
  gd_pending (cancel "c1" demo_sent) !! "c1:r1" = None ∧ (0, Throw Stopped) ∈ gd_results (cancel "c1" demo_sent).
Proof.
  pose proof (cancel_one_connection demo_frame_size demo_command_size "gw" "instance" demo_command_size_pos 4 1000
    (make_budget 8 1000) demo_sent "c1" ltac:(lia) ltac:(lia) demo_sent_reachable eq_refl
    "c1" "r1" (MkPending 2 "r1" 20%Z 0) eq_refl ltac:(vm_compute; reflexivity)) as H.
  rewrite decide_True in H by reflexivity. exact H.
Defined.

(** The node with the shorter name leaves. *)
Definition demo_left : driver := remove_link 1 demo_linked.

Lemma candidate_remove d k n' k' : candidate (remove_link k d) n' k' → candidate d n' k'.
Proof.
  intros [Hn (l & Hl & Hh)]. apply list_elem_of_filter in Hn as [_ Hn]. simpl in Hl. apply lookup_delete_Some in Hl as [_ Hl].
  split; [done|by exists l].
Qed.
Lemma demo_linked_nodes : gd_nodes demo_linked = [("message-1", 1%Z); ("message-10", 2%Z)].
Proof. vm_compute. reflexivity. Qed.
Lemma demo_linked_scores n k n' k' :
  candidate demo_linked n k → candidate demo_linked n' k' → link_score 9 n = link_score 9 n' → k = k'.
Proof.
  intros [Hn _] [Hn' _]. revert Hn Hn'. rewrite demo_linked_nodes.
  intros [[= -> ->]|[[= -> ->]|?%elem_of_nil]%elem_of_cons]%elem_of_cons
    [[= -> ->]|[[= -> ->]|?%elem_of_nil]%elem_of_cons]%elem_of_cons; done.
Qed.
Lemma demo_linked_selects : select_grpc_link 9 demo_linked = Ok 2%Z.
Proof. vm_compute. reflexivity. Qed.
Lemma demo_left_candidate : ∃ n, candidate demo_left n 2.
Proof. exists "message-10". split; [vm_compute; left|]. eexists. split; vm_compute; reflexivity. Qed.

Lemma conversation_affinity_witness : select_grpc_link 9 demo_left = Ok 2%Z.
Proof.
  apply (conversation_affinity demo_linked demo_left 9 2); auto using demo_linked_selects, demo_left_candidate.
  - lia.
  - rewrite demo_linked_nodes. repeat constructor; set_solver.
  - exact demo_linked_scores.
  - exact (candidate_remove demo_linked 1).
Defined.
