(* ===== verification/Topology.v ===== *)
(** * The Gateway's streams follow the topology

    grpc_control, fetch_grpc_topology, wait_ready, stop and message_link::close
    of gateway/io/driver.cc and message_link.cc: a coroutine asks the State
    service for the Message nodes every five seconds, makes, replaces and closes
    the streams to them, and sends heartbeats.

    While the coroutine awaits something, the others go on: the world has, for
    each await, what they do to the driver. *)

From S2P Require Import Prelude Codec Seastar Budget Protocol GatewayDriver.

Section control.
Context {SEM : Semaphore} (frame_size : GatewayToMessageFrame → Z) (gateway_id instance_id : string).
(** The shard, its capacity, and the epoch that a stream takes from the clock. *)
Context (shard_id capacity : Z) (epoch : Z → Z).

(** [cw_others]: what happens at the next awaits; [cw_heartbeat]: the sequence
    number, a local of the coroutine. *)
Record control := MkControl { cw_driver : driver; cw_others : list (driver → driver); cw_heartbeat : Z }.

Definition cw_set_driver (d : driver) (c : control) : control := MkControl d (cw_others c) (cw_heartbeat c).
Definition on_driver (f : driver → driver) : Eff control unit := modify (λ c, cw_set_driver (f (cw_driver c)) c).
Definition get_driver : Eff control driver := λ c, (Ok (cw_driver c), c).

(** co_await *)
Definition await : Eff control unit := λ c,
  match cw_others c with
  | [] => (Ok tt, c)
  | f :: others => (Ok tt, MkControl (f (cw_driver c)) others (cw_heartbeat c))
  end.

(** ** message_link::close

    The others go on until the stream is done and its writes have returned
    their units: what they did not do of that during the await follows it. *)
Definition give_back_frames (k : Z) (d : driver) : driver :=
  match gd_links d !! k with
  | Some l => Nat.iter (length (lk_frames l)) (frame_done k) d
  | None => d
  end.
Definition link_finish (k : Z) (d : driver) : driver :=
  give_back_frames k
    match gd_links d !! k with
    | Some l => if lk_finished l then d else link_OnDone k d
    | None => d
    end.
Definition link_close (k : Z) : Eff control unit :=
  on_driver (link_stop k) ;; await ;; on_driver (link_finish k).

(** ** One round *)

(** _message_links.find *)
Fixpoint find_node (node : string) (nodes : list (string * Z)) : option Z :=
  match nodes with
  | [] => None
  | (node', k) :: nodes => if bool_decide (node' = node) then Some k else find_node node nodes
  end.

(** finished, or at another address *)
Definition outdated (n : message_node) (l : link) : bool :=
  lk_finished l || negb (bool_decide (lk_host l = mn_host n)) || negb (lk_port l =? node_port gateway_id n)%Z.

Definition replace_link (n : message_node) : Eff control unit :=
  d ← get_driver;
  match find_node (mn_node_id n) (gd_nodes d) with
  | None => mret tt
  | Some k =>
      match gd_links d !! k with
      | Some l => if outdated n l then link_close k ;; on_driver (remove_link k) else mret tt
      | None => mret tt
      end
  end.
Definition new_link (n : message_node) (d : driver) : driver :=
  let k := fresh (dom (gd_links d)) in
  (link_start frame_size gateway_id instance_id k shard_id (epoch k) capacity (add_link gateway_id k n d)).2.
Definition ensure_link (n : message_node) : Eff control unit :=
  d ← get_driver;
  match find_node (mn_node_id n) (gd_nodes d) with
  | Some _ => mret tt
  | None => on_driver (new_link n)
  end.

(** The loop over the nodes; the result is [retained]. *)
Fixpoint take_nodes (nodes : list message_node) (retained : list string) : Eff control (list string) :=
  match nodes with
  | [] => mret retained
  | n :: nodes =>
      if usable_node n then
        replace_link n ;; ensure_link n ;; take_nodes nodes (mn_node_id n :: retained)
      else take_nodes nodes retained
  end.

(** The loop over the table, which only this coroutine changes. *)
Fixpoint sweep (entries : list (string * Z)) (retained : list string) : Eff control unit :=
  match entries with
  | [] => mret tt
  | (node, k) :: entries =>
      (if bool_decide (node ∈ retained) then mret tt else link_close k ;; on_driver (remove_link k)) ;;
      sweep entries retained
  end.

Definition apply_topology (nodes : list message_node) : Eff control unit :=
  retained ← take_nodes nodes [];
  d ← get_driver;
  sweep (gd_nodes d) retained.

(** The heartbeats: only a full budget is ignored, and a healthy stream has no
    other reason to refuse. *)
Definition send_heartbeat (now : Z) (k : Z) : Eff control unit := λ c,
  match gd_links (cw_driver c) !! k with
  | Some l =>
      if healthy l then
        let h := (cw_heartbeat c + 1)%Z in
        let d := (link_enqueue frame_size k (heartbeat (MkStreamHeartbeat now (u64 h))) (cw_driver c)).2 in
        (Ok tt, MkControl d (cw_others c) (u64 h))
      else (Ok tt, c)
  | None => (Ok tt, c)
  end.
Fixpoint send_heartbeats (now : Z) (entries : list (string * Z)) : Eff control unit :=
  match entries with
  | [] => mret tt
  | (_, k) :: entries => send_heartbeat now k ;; send_heartbeats now entries
  end.

(** What a round meets: the answer of the State service, a list of nodes or the
    message of another status, and the clock. *)
Record round := MkRound { rd_answer : list message_node + string; rd_now : Z }.
Definition fetch_grpc_topology (answer : list message_node + string) : outcome (list message_node) :=
  match answer with
  | inl nodes => Ok nodes
  | inr error_message => Throw (RuntimeError ("State topology: " +:+ error_message))
  end.

(** grpc_control: a turn of the loop; whether there is another one. *)
Definition control_round (r : round) : Eff control bool :=
  d ← get_driver;
  if gd_stopping d then mret false
  else
    await ;;
    d ← get_driver;
    match fetch_grpc_topology (rd_answer r), gd_stopping d with
    | Ok _, true => mret false
    | topology, _ =>
        (match topology with Ok nodes => apply_topology nodes | Throw _ => mret tt end) ;;
        d ← get_driver;
        if gd_stopping d then mret false
        else
          send_heartbeats (rd_now r) (gd_nodes d) ;;
          await ;;
          d ← get_driver;
          mret (negb (gd_stopping d))
    end.

Fixpoint grpc_control (rounds : list round) : Eff control bool :=
  match rounds with
  | [] => mret true
  | r :: rounds => goes_on ← control_round r; if goes_on : bool then grpc_control rounds else mret false
  end.

(** wait_ready: the condition it waits for, and what it then does *)
Definition is_ready (d : driver) : bool :=
  gd_stopping d || existsb (λ nk : string * Z, match gd_links d !! nk.2 with Some l => healthy l | None => false end) (gd_nodes d).
Definition wait_ready (d : driver) : option (outcome unit) :=
  if is_ready d then Some (if gd_stopping d then Throw Stopped else Ok tt) else None.

(** ** stop *)

Fixpoint close_links (entries : list (string * Z)) : Eff control unit :=
  match entries with
  | [] => mret tt
  | (_, k) :: entries => link_close k ;; close_links entries
  end.
Definition clear_links (d : driver) : driver := foldl (λ d k, remove_link k d) d (gd_nodes d).*2.
(** stop, from the end of the coroutine on; abort() came before *)
Definition stop_rest : Eff control unit :=
  d ← get_driver;
  close_links (gd_nodes d) ;;
  on_driver clear_links.
End control.
