(* ===== verification/TopologyTheorems.v ===== *)
(** * Streams and topology

    After a round of grpc_control the Gateway has one stream for each usable
    node of the topology, to the address that the topology gives; and the
    coroutine is a run of the driver's steps, so that what holds of these
    (GatewayDriverTheorems) holds with it. *)

From S2P Require Import Prelude Codec Decimal Schema Seastar Budget Protocol GatewayDriver GatewayDriverTheorems Topology.

From Stdlib Require Import Ascii.

Section theorems.
Context {SEM : Semaphore} `{!StdHash} (frame_size : GatewayToMessageFrame → Z) (command_size : CommandEnvelope → Z)
  (gateway_id instance_id : string) (shard_id capacity : Z) (epoch : Z → Z).
Abbreviation step := (driver_step frame_size command_size gateway_id instance_id).

(** ** The table of streams *)

Definition address (l : link) : string * Z := (lk_host l, lk_port l).
(** What a step may do to a stream: it keeps its address, it does not come back
    to life, and once it stops it takes no more frames. *)
Record keeps (l l' : link) : Prop := {
  kp_address : address l' = address l;
  kp_stopping : lk_stopping l = true → lk_stopping l' = true;
  kp_finished : lk_finished l = true → lk_finished l' = true;
  kp_frames : lk_stopping l = true → length (lk_frames l') ≤ length (lk_frames l) }.
#[local] Instance keeps_preorder : PreOrder keeps.
Proof.
  split; [by split|]. intros l1 l2 l3 [E1 S1 F1 N1] [E2 S2 F2 N2]. split; [congruence|auto|auto|].
  intros Hs. specialize (N1 Hs). specialize (N2 (S1 Hs)). lia.
Qed.
Definition same_table (d d' : driver) : Prop :=
  gd_nodes d' = gd_nodes d ∧ ∀ k, option_Forall2 keeps (gd_links d !! k) (gd_links d' !! k).
#[local] Instance same_table_preorder : PreOrder same_table.
Proof. split; [by split|]. intros d1 d2 d3 [? E1] [? E2]. split; [congruence|]. intros k. etransitivity; [apply E1|apply E2]. Qed.

(** What the other coroutines do: any steps that leave the table alone, which
    only grpc_control changes. *)
Definition other_step (d d' : driver) : Prop :=
  step d d' ∧ gd_nodes d' = gd_nodes d ∧ dom (gd_links d') = dom (gd_links d).

Lemma change_table d k f : (∀ l, gd_links d !! k = Some l → keeps l (f l)) → same_table d (change_link k f d).
Proof.
  intros Hf. split; [done|]. intros k'. simpl. destruct (decide (k = k')) as [<-|]; [|by rewrite lookup_alter_ne].
  rewrite lookup_alter_eq. destruct (gd_links d !! k) as [l|]; simpl; constructor. by apply Hf.
Qed.
Lemma stop_table d k : same_table d (link_stop k d).
Proof. unfold link_stop. destruct (gd_links d !! k) as [l|]; [|done]. destruct (lk_stopping l); [done|]. by apply change_table. Qed.
Lemma frame_done_table d k : same_table d (frame_done k d).
Proof.
  unfold frame_done. destruct (gd_links d !! k) as [l|] eqn:Hl; [|done]. destruct (lk_frames l) eqn:E; [done|].
  etransitivity; [|apply change_table]; [by split|]. simpl. intros l' ?. simplify_eq. split; simpl; rewrite ?E; simpl; auto with lia.
Qed.
Lemma enqueue_table d k f : same_table d (link_enqueue frame_size k f d).2.
Proof.
  unfold link_enqueue. destruct (gd_links d !! k) as [l|] eqn:Hl; [|done]. destruct (lk_stopping l) eqn:E; [done|].
  destruct (acquire _ _) as [[]]; simpl; [|by split]. etransitivity; [|apply change_table]; [by split|].
  simpl. intros l' ?. simplify_eq. split; simpl; try done; congruence.
Qed.
Lemma resolve_table d id p o : same_table d (resolve id p o d).
Proof. unfold resolve. etransitivity; [|by apply (change_table _ (pc_link p) remove_inflight)]. by split. Qed.
Lemma resolve_all_table d P o : same_table d (resolve_all P o d).
Proof.
  unfold resolve_all. generalize (filter (λ kp, P kp.1 kp.2 = true) (map_to_list (gd_pending d))) as l. intros l.
  revert d. induction l as [|[id p] l IH]; intros d; [done|]. simpl. etransitivity; [|apply IH]. apply resolve_table.
Qed.
Lemma done_table d k : same_table d (link_OnDone k d).
Proof. unfold link_OnDone, on_grpc_done. etransitivity; [|apply resolve_all_table]. by apply change_table. Qed.
Lemma abort_table d : same_table d (driver_abort d).
Proof.
  unfold driver_abort. destruct (gd_stopping d); [done|]. cbv zeta. simpl.
  generalize ((gd_nodes d).*2) as l. intros l. set (d0 := MkDriver _ _ _ _ _ true _ _).
  assert (same_table d d0) as H0 by by split. clearbody d0. revert d0 H0. induction l as [|k l IH]; intros d0 H0; [done|].
  simpl. apply IH. etransitivity; [done|apply stop_table].
Qed.
Lemma send_table d c : same_table d (send_command frame_size command_size c d).2.
Proof.
  unfold send_command. destruct (gd_stopping d); [done|].
  destruct (select_grpc_link _ _) as [k|]; [|done]. destruct (acquire _ _) as [[units|e] b]; simpl; [|done].
  case_bool_decide; [done|]. set (d1 := gd_set_pending (gd_pending d) b d).
  pose proof (enqueue_table d1 k (command (set_command_id (correlation c) c))) as He.
  destruct (link_enqueue frame_size k _ d1) as [[[]|e] d2]; simpl in *; [|etransitivity; [exact He|by split]].
  etransitivity; [exact He|]. unfold register_pending. etransitivity; [|by apply change_table]. by split.
Qed.
Lemma on_frame_table d k frame status : same_table d (on_grpc_frame frame_size gateway_id instance_id k frame status d).2.
Proof.
  unfold on_grpc_frame. destruct frame; try done; [|apply enqueue_table].
  destruct (gd_pending d !! _); [|done]. case_match; [done|apply resolve_table].
Qed.
Lemma read_table d k ok frame status :
  same_table d (link_OnReadDone frame_size gateway_id instance_id k ok frame status d).2.
Proof.
  unfold link_OnReadDone. etransitivity; [by apply (change_table d k (link_set_reading false))|].
  generalize (change_link k (link_set_reading false) d) as d1. clear d. intros d1.
  pose (process := λ d : driver, match on_grpc_frame frame_size gateway_id instance_id k frame status d with
    | (Throw _, d) => (Ok tt, link_stop k d)
    | (Ok _, d) => match gd_links d !! k with
      | Some l => (Ok tt, if negb (lk_stopping l) then change_link k (link_set_reading true) d else d)
      | None => (Ok tt, d) end end : outcome unit * driver).
  assert (∀ d, same_table d (process d).2) as Hp.
  { intros d. unfold process. pose proof (on_frame_table d k frame status) as Hf.
    destruct (on_grpc_frame _ _ _ k frame status d) as [[u|e] d2]; simpl in *; (etransitivity; [exact Hf|]); [|apply stop_table].
    destruct (gd_links d2 !! k) as [l|]; [|done]. simpl. destruct (lk_stopping l); [done|]. by apply change_table. }
  destruct ok; simpl; [|apply stop_table].
  destruct frame as [|r| | | |]; try apply stop_table; try apply Hp.
  etransitivity; [by apply (change_table d1 k (link_set_healthy (rr_accepted r)))|]. case_match; [apply stop_table|apply Hp].
Qed.

Lemma table_dom d d' : same_table d d' → dom (gd_links d') = dom (gd_links d).
Proof. intros [_ E]. apply set_eq. intros k. rewrite !elem_of_dom. destruct (E k); naive_solver. Qed.
Lemma table_other d d' : step d d' → same_table d d' → other_step d d'.
Proof. intros Hs Ht. split_and!; [done|apply Ht|by apply table_dom]. Qed.
Lemma start_table d k sh ep cap : same_table d (link_start frame_size gateway_id instance_id k sh ep cap d).2.
Proof.
  unfold link_start. rewrite bind_eq. simpl. rewrite catch_eq.
  etransitivity; [by apply (change_table d k (link_set_reading true))|].
  generalize (change_link k (link_set_reading true) d) as d1. clear d. intros d1.
  pose proof (enqueue_table d1 k (register_gateway (MkRegisterGateway 1 gateway_id instance_id ep sh cap))) as He.
  destruct (link_enqueue frame_size k _ d1) as [[]]; simpl in *; [done|]. etransitivity; [exact He|apply stop_table].
Qed.

(** The steps that leave the table alone keep every stream. *)
Lemma other_table d d' : other_step d d' → same_table d d'.
Proof.
  intros ([c _|k l ok frame status|k l|conn| |k|k|k n sh ep cap Hk _|k l Hl _ _|k h] & Hn & Hd);
    auto using send_table, read_table, done_table, abort_table, stop_table, frame_done_table, enqueue_table.
  - apply resolve_all_table.
  - exfalso. rewrite (table_dom _ _ (start_table _ k sh ep cap)) in Hd. simpl in Hd. apply not_elem_of_dom in Hk. set_solver.
  - exfalso. simpl in Hd. apply elem_of_dom_2 in Hl. set_solver.
Qed.
Lemma stop_other d k : other_step d (link_stop k d).
Proof. apply table_other; [constructor|apply stop_table]. Qed.
Lemma frame_done_other d k : other_step d (frame_done k d).
Proof. apply table_other; [constructor|apply frame_done_table]. Qed.
Lemma done_other d k l : gd_links d !! k = Some l → lk_finished l = false → other_step d (link_OnDone k d).
Proof. intros Hl Hf. apply table_other; [by eapply ds_done|apply done_table]. Qed.
Lemma heartbeat_other d k h : other_step d (link_enqueue frame_size k (heartbeat h) d).2.
Proof. apply table_other; [constructor|apply enqueue_table]. Qed.

Lemma others_table d d' : rtc other_step d d' → same_table d d' ∧ rtc step d d'.
Proof.
  induction 1 as [d|d d1 d2 Ho _ [IH1 IH2]]; [by split; [|apply rtc_refl]|].
  split; [etransitivity; [by apply other_table|done]|eapply rtc_l; [apply Ho|done]].
Qed.

Definition address_at (d : driver) (node : string) : option (string * Z) :=
  match find_node node (gd_nodes d) with Some k => address <$> gd_links d !! k | None => None end.

Record table_ok (d : driver) : Prop := {
  tb_names : NoDup (gd_nodes d).*1;
  tb_keys : NoDup (gd_nodes d).*2;
  tb_links node k : (node, k) ∈ gd_nodes d → is_Some (gd_links d !! k);
  tb_listed k : is_Some (gd_links d !! k) → k ∈ (gd_nodes d).*2 }.

Lemma same_table_at d d' node : same_table d d' → address_at d' node = address_at d node.
Proof.
  intros [E1 E2]. unfold address_at. rewrite E1. destruct (find_node node (gd_nodes d)) as [k|]; [|done].
  destruct (E2 k) as [l l' [E _ _ _]|]; simpl; congruence.
Qed.
Lemma same_table_ok d d' : same_table d d' → table_ok d → table_ok d'.
Proof.
  intros [E1 E2] [H1 H2 H3 H4]. split; rewrite ?E1; try done.
  - intros node k Hk. specialize (H3 node k Hk). destruct (E2 k); [by eexists|by destruct H3].
  - intros k [l' Hk]. apply H4. specialize (E2 k). rewrite Hk in E2. inversion E2. by eexists.
Qed.

Lemma find_node_Some node nodes k : find_node node nodes = Some k → (node, k) ∈ nodes.
Proof.
  induction nodes as [|[node' k'] nodes IH]; simpl; [done|]. case_bool_decide; [intros [= ->]; subst; set_solver|].
  intros Hf. apply elem_of_cons. auto.
Qed.
Lemma find_node_In node nodes k : NoDup nodes.*1 → (node, k) ∈ nodes → find_node node nodes = Some k.
Proof.
  induction nodes as [|[node' k'] nodes IH]; simpl; [by intros _ ?%elem_of_nil|].
  intros [Hn Hd]%NoDup_cons [[= -> ->]|Hin]%elem_of_cons; [by rewrite bool_decide_eq_true_2|].
  rewrite bool_decide_eq_false_2; [by apply IH|]. intros ->. apply Hn. apply list_elem_of_fmap. by exists (node, k).
Qed.
Lemma find_node_None node nodes : find_node node nodes = None ↔ node ∉ nodes.*1.
Proof.
  induction nodes as [|[node' k'] nodes IH]; simpl; [set_solver|]. rewrite not_elem_of_cons.
  case_bool_decide; [naive_solver|]. rewrite IH. naive_solver.
Qed.
Lemma find_node_app node nodes node' k :
  find_node node (nodes ++ [(node', k)]) =
    match find_node node nodes with Some k => Some k | None => if bool_decide (node' = node) then Some k else None end.
Proof. induction nodes as [|[n0 k0] nodes IH]; simpl; [done|]. destruct (bool_decide (n0 = node)); [done|exact IH]. Qed.

(** A new stream. *)
Lemma add_table d k n :
  table_ok d → gd_links d !! k = None → find_node (mn_node_id n) (gd_nodes d) = None →
  table_ok (add_link gateway_id k n d) ∧
  ∀ node, address_at (add_link gateway_id k n d) node =
    if bool_decide (node = mn_node_id n) then Some (mn_host n, node_port gateway_id n) else address_at d node.
Proof.
  intros [H1 H2 H3 H4] Hk Hf. assert (∀ node k', (node, k') ∈ gd_nodes d → k' ≠ k) as Hne.
  { intros node k' Hin ->. destruct (H3 _ _ Hin). congruence. }
  split; [split; simpl|].
  - rewrite fmap_app. apply NoDup_app. split_and!; [done| |apply NoDup_singleton]. intros x Hx Hy. apply list_elem_of_singleton in Hy. simpl in Hy. subst x.
    by apply find_node_None in Hf.
  - rewrite fmap_app. apply NoDup_app. split_and!; [done| |apply NoDup_singleton]. intros x Hx Hy. apply list_elem_of_singleton in Hy. simpl in Hy. subst x.
    apply list_elem_of_fmap in Hx as ([node k'] & -> & Hin). by eapply Hne.
  - intros node k' [Hin|[= -> ->]%list_elem_of_singleton]%elem_of_app; [|by rewrite lookup_insert_eq].
    rewrite lookup_insert_ne; [by eapply H3|]. intros <-. by eapply Hne.
  - intros k' [l [[<- <-]|[_ Hl]]%lookup_insert_Some]; rewrite fmap_app; [set_solver|]. apply elem_of_app. left. by apply H4.
  - intros node. unfold address_at. simpl. rewrite find_node_app. destruct (decide (node = mn_node_id n)) as [->|E].
    + rewrite Hf, !bool_decide_eq_true_2 by done. by rewrite lookup_insert_eq.
    + rewrite !bool_decide_eq_false_2 by congruence.
      destruct (find_node node (gd_nodes d)) as [k'|] eqn:Ef; [|done]. apply find_node_Some in Ef.
      rewrite lookup_insert_ne; [done|]. intros <-. by eapply Hne.
Qed.

(** A stream is removed. *)
Lemma remove_table d k node :
  table_ok d → (node, k) ∈ gd_nodes d →
  table_ok (remove_link k d) ∧
  (∀ nk, nk ∈ gd_nodes (remove_link k d) ↔ nk ∈ gd_nodes d ∧ nk ≠ (node, k)) ∧
  ∀ node', address_at (remove_link k d) node' = if bool_decide (node' = node) then None else address_at d node'.
Proof.
  intros [H1 H2 H3 H4] Hin.
  assert (∀ nk, nk ∈ gd_nodes d → nk.2 ≠ k ↔ nk ≠ (node, k)) as Hiff.
  { intros [node' k'] Hin'. simpl. split; [congruence|]. intros Hne ->. apply Hne. f_equal.
    apply list_elem_of_lookup in Hin as [i Hi], Hin' as [j Hj].
    assert (i = j) as <-; [|congruence].
    eapply (NoDup_lookup _ i j k H2); rewrite list_lookup_fmap; [by rewrite Hi|by rewrite Hj]. }
  assert (∀ nk, nk ∈ gd_nodes (remove_link k d) ↔ nk ∈ gd_nodes d ∧ nk ≠ (node, k)) as Hmem.
  { intros nk. simpl. rewrite list_elem_of_filter. naive_solver. }
  assert (table_ok (remove_link k d)) as Hok.
  { split; simpl.
    - eapply sublist_NoDup; [exact H1|]. apply fmap_sublist, sublist_filter.
    - eapply sublist_NoDup; [exact H2|]. apply fmap_sublist, sublist_filter.
    - intros node' k' [Hne Hin']%list_elem_of_filter. simpl in Hne. rewrite lookup_delete_ne by done. by eapply H3.
    - intros k' [l [Hne Hl]%lookup_delete_Some]. destruct (proj1 (list_elem_of_fmap _ _ _) (H4 k' (mk_is_Some _ _ Hl))) as ([node' k2] & -> & Hin').
      apply list_elem_of_fmap. exists (node', k2). split; [done|]. by apply list_elem_of_filter. }
  split_and!; [done..|]. intros node'. unfold address_at. case_bool_decide as E.
  - subst. destruct (find_node node _) as [k'|] eqn:Ef; [|done]. apply find_node_Some in Ef.
    apply Hmem in Ef as [Hin' Hne]. exfalso. apply Hne. f_equal.
    pose proof (find_node_In _ _ _ H1 Hin). pose proof (find_node_In _ _ _ H1 Hin'). congruence.
  - destruct (find_node node' (gd_nodes d)) as [k'|] eqn:Ef.
    + apply find_node_Some in Ef. assert ((node', k') ∈ gd_nodes (remove_link k d)) as Hin' by (apply Hmem; naive_solver).
      rewrite (find_node_In _ _ _ (tb_names _ Hok) Hin'). simpl. rewrite lookup_delete_ne; [done|].
      intros <-. by apply (Hiff (node', k) Ef); [congruence|].
    + destruct (find_node node' (gd_nodes (remove_link k d))) as [k'|] eqn:Ef'; [|done].
      apply find_node_Some, Hmem in Ef' as [Hin' _]. apply find_node_None in Ef. destruct Ef.
      apply list_elem_of_fmap. by exists (node', k').
Qed.

(** ** The coroutine *)

Definition interferes (f : driver → driver) : Prop := ∀ d, rtc other_step d (f d).
Record control_ok (c : control) : Prop := {
  co_table : table_ok (cw_driver c); co_others : Forall interferes (cw_others c) }.

(** A part of the coroutine: it ends, keeps the table in order, and is a run of
    the driver's steps; [R] relates the tables. *)
Definition part {A} (m : Eff control A) (c : control) (R : A → driver → Prop) : Prop :=
  wp m (λ r c', control_ok c' ∧ rtc step (cw_driver c) (cw_driver c') ∧ ∃ a, r = Ok a ∧ R a (cw_driver c')) c.

Lemma part_mono {A} (m : Eff control A) c (R R' : A → driver → Prop) :
  (∀ a d, R a d → R' a d) → part m c R → part m c R'.
Proof. intros HR (? & ? & a & ? & ?). split_and!; eauto. Qed.
Lemma part_ret {A} (a : A) c (R : A → driver → Prop) : control_ok c → R a (cw_driver c) → part (mret a) c R.
Proof. intros. apply wp_ret. split_and!; [done|apply rtc_refl|eauto]. Qed.
Lemma part_bind {A B} (m : Eff control A) (k : A → Eff control B) c (R : A → driver → Prop) (R' : B → driver → Prop) :
  part m c R → (∀ a c', control_ok c' → R a (cw_driver c') → part (k a) c' R') → part (m ≫= k) c R'.
Proof.
  unfold part, wp. intros (Hc & Hs & a & E & HR) Hk. destruct (Hk a _ Hc HR) as (Hc2 & Hs2 & H2).
  rewrite bind_eq. destruct (m c) as [r c']. simpl in *. subst r. split_and!; [done|by etransitivity|done].
Qed.
Lemma part_get c (R : driver → driver → Prop) : control_ok c → R (cw_driver c) (cw_driver c) → part get_driver c R.
Proof. intros. unfold part, wp, get_driver. simpl. split_and!; [done|apply rtc_refl|eauto]. Qed.
Lemma part_driver f c (R : unit → driver → Prop) :
  control_ok c → table_ok (f (cw_driver c)) → rtc step (cw_driver c) (f (cw_driver c)) → R tt (f (cw_driver c)) →
  part (on_driver f) c R.
Proof. intros [_ Ho] Ht Hs HR. unfold part, wp. simpl. split_and!; [done|done|eauto]. Qed.

(** A part after which the table is as it was. *)
Lemma part_others f c (R : unit → driver → Prop) :
  control_ok c → rtc other_step (cw_driver c) (f (cw_driver c)) → R tt (f (cw_driver c)) → part (on_driver f) c R.
Proof.
  intros Hc Ho HR. destruct (others_table _ _ Ho) as [Ht Hs]. apply part_driver; try done.
  eapply same_table_ok; [done|apply Hc].
Qed.
Lemma part_await c : control_ok c → part await c (λ _, same_table (cw_driver c)).
Proof.
  intros [Ht Ho]. unfold part, wp, await. destruct (cw_others c) as [|f others] eqn:E; simpl.
  - split_and!; [split; [done|by rewrite E]|apply rtc_refl|by exists tt].
  - apply Forall_cons in Ho as [Hf Ho]. destruct (others_table _ _ (Hf (cw_driver c))) as [Hs Hr].
    split_and!; [split; [by eapply same_table_ok|done]|done|by exists tt].
Qed.

(** ** Closing a stream *)

Lemma frame_done_link d k l :
  gd_links d !! k = Some l →
  ∃ l', gd_links (frame_done k d) !! k = Some l' ∧ lk_frames l' = tail (lk_frames l) ∧ lk_finished l' = lk_finished l.
Proof.
  intros Hl. unfold frame_done. rewrite Hl. destruct (lk_frames l) as [|f fs] eqn:E; [by exists l; rewrite E|].
  simpl. rewrite lookup_alter_eq, Hl. simpl. by eexists.
Qed.
Lemma give_back_spec d k l :
  gd_links d !! k = Some l →
  rtc other_step d (give_back_frames k d) ∧
  ∃ l', gd_links (give_back_frames k d) !! k = Some l' ∧ lk_frames l' = [] ∧ lk_finished l' = lk_finished l.
Proof.
  intros Hl. unfold give_back_frames. rewrite Hl.
  enough (∀ n, length (lk_frames l) = n → rtc other_step d (Nat.iter n (frame_done k) d) ∧
    ∃ l', gd_links (Nat.iter n (frame_done k) d) !! k = Some l' ∧ lk_frames l' = [] ∧ lk_finished l' = lk_finished l) by eauto.
  intros n. revert d l Hl. induction n as [|n IH]; intros d l Hl Hn.
  { split; [apply rtc_refl|]. exists l. by apply length_zero_iff_nil in Hn. }
  destruct (frame_done_link d k l Hl) as (l1 & H1 & Hf & Hd). rewrite Nat.iter_succ_r.
  destruct (IH (frame_done k d) l1 H1) as (Hs & l2 & H2 & Hf2 & Hd2); [rewrite Hf; destruct (lk_frames l); simpl in *; lia|].
  split; [eapply rtc_l; [apply frame_done_other|done]|]. exists l2. by rewrite Hd2.
Qed.
Lemma resolve_list_link o k l (L : list (string * pending_command)) d :
  gd_links d !! k = Some l →
  ∃ l', gd_links (foldl (λ d kp, resolve kp.1 kp.2 o d) d L) !! k = Some l' ∧ lk_finished l' = lk_finished l.
Proof.
  revert d l. induction L as [|[id p] L IH]; intros d l Hl; simpl; [eauto|].
  assert (∃ l1, gd_links (resolve id p o d) !! k = Some l1 ∧ lk_finished l1 = lk_finished l) as (l1 & H1 & <-); [|by apply IH].
  simpl. destruct (decide (pc_link p = k)) as [->|]; [rewrite lookup_alter_eq, Hl|rewrite lookup_alter_ne by done]; by eexists.
Qed.
Lemma finish_spec d k l :
  gd_links d !! k = Some l →
  rtc other_step d (link_finish k d) ∧
  ∃ l', gd_links (link_finish k d) !! k = Some l' ∧ lk_frames l' = [] ∧ lk_finished l' = true.
Proof.
  intros Hl. unfold link_finish. rewrite Hl. destruct (lk_finished l) eqn:Ef.
  { destruct (give_back_spec d k l Hl) as (? & l' & ? & ? & E). split; [done|]. exists l'. by rewrite E. }
  assert (∃ l1, gd_links (link_OnDone k d) !! k = Some l1 ∧ lk_finished l1 = true) as (l1 & H1 & Hf1).
  { unfold link_OnDone, on_grpc_done, resolve_all.
    apply (resolve_list_link _ k (link_set_finished l)). simpl. by rewrite lookup_alter_eq, Hl. }
  destruct (give_back_spec _ k l1 H1) as (Hs & l' & ? & ? & E). split; [|exists l'; by rewrite E].
  eapply rtc_l; [by eapply done_other|done].
Qed.

(** close(): afterwards the stream is over, and stays so. *)
Definition closed (d : driver) (k : Z) : Prop :=
  ∃ l, gd_links d !! k = Some l ∧ lk_stopping l = true ∧ lk_finished l = true ∧ lk_frames l = [].
Lemma same_table_closed d d' k : same_table d d' → closed d k → closed d' k.
Proof.
  intros [_ E] (l & Hl & Hs & Hf & Hn). specialize (E k). rewrite Hl in E. inversion E as [? l' [_ S F N]|]; subst.
  exists l'. split_and!; [done|auto..]. apply length_zero_iff_nil. rewrite Hn in N. simpl in N. specialize (N Hs). lia.
Qed.
Lemma same_table_lookup d d' k l : same_table d d' → gd_links d !! k = Some l → ∃ l', gd_links d' !! k = Some l' ∧ keeps l l'.
Proof. intros [_ E] Hl. specialize (E k). rewrite Hl in E. inversion E; eauto. Qed.
Lemma stop_stopping d k l : gd_links d !! k = Some l → ∃ l', gd_links (link_stop k d) !! k = Some l' ∧ lk_stopping l' = true.
Proof.
  intros Hl. unfold link_stop. rewrite Hl. destruct (lk_stopping l) eqn:E; [eauto|]. simpl. rewrite lookup_alter_eq, Hl. by eexists.
Qed.
Lemma close_part c k :
  control_ok c → is_Some (gd_links (cw_driver c) !! k) →
  part (link_close k) c (λ _ d', same_table (cw_driver c) d' ∧ closed d' k).
Proof.
  intros Hc [l Hl]. unfold link_close. destruct (stop_stopping _ k l Hl) as (l1 & Hl1 & Hs1).
  apply (part_bind _ _ _ (λ _ d, d = link_stop k (cw_driver c))); [by apply part_others; [|apply rtc_once, stop_other|]|].
  intros [] c1 Hc1 E1. rewrite <- E1 in Hl1. pose proof (stop_table (cw_driver c) k) as Ht1. rewrite <- E1 in Ht1.
  apply (part_bind _ _ _ (λ _, same_table (cw_driver c1))); [by apply part_await|].
  intros [] c2 Hc2 Ht2. destruct (same_table_lookup _ _ k l1 Ht2 Hl1) as (l2 & Hl2 & Hk2).
  destruct (finish_spec _ k l2 Hl2) as (Hs & l3 & Hl3 & Hfr & Hfi). destruct (others_table _ _ Hs) as [Ht3 _].
  apply part_others; [done..|]. split; [by rewrite Ht1, Ht2|].
  destruct (same_table_lookup _ _ k l2 Ht3 Hl2) as (l3' & Hl3' & Hk3). assert (l3' = l3) as -> by congruence.
  exists l3. split_and!; try done. by apply Hk3, Hk2.
Qed.

(** close() and the removal from the table. *)
Lemma close_remove_part c node k :
  control_ok c → (node, k) ∈ gd_nodes (cw_driver c) →
  part (link_close k ;; on_driver (remove_link k)) c (λ _ d',
    (∀ nk, nk ∈ gd_nodes d' ↔ nk ∈ gd_nodes (cw_driver c) ∧ nk ≠ (node, k)) ∧
    ∀ node', address_at d' node' = if bool_decide (node' = node) then None else address_at (cw_driver c) node').
Proof.
  intros Hc Hin. eapply part_bind; [apply close_part; [done|by eapply tb_links; [apply Hc|]]|].
  intros [] c3 Hc3 [Ht3 (l & Hl3 & _ & Hfi & Hfr)].
  assert ((node, k) ∈ gd_nodes (cw_driver c3)) as Hin3 by by rewrite (proj1 Ht3).
  destruct (remove_table (cw_driver c3) k node (co_table _ Hc3) Hin3) as (Hok & Hm & Ha).
  apply part_driver; [done|done|apply rtc_once; by eapply ds_remove|]. split.
  - intros nk. by rewrite Hm, (proj1 Ht3).
  - intros node'. rewrite Ha, (same_table_at _ _ node' Ht3). done.
Qed.

(** ** A round *)

(** The address that the topology gives a node: that of its last usable entry. *)
Definition pick (node : string) (a : option (string * Z)) (n : message_node) : option (string * Z) :=
  if usable_node n && bool_decide (mn_node_id n = node) then Some (mn_host n, node_port gateway_id n) else a.
Definition wanted (nodes : list message_node) (node : string) : option (string * Z) := foldl (pick node) None nodes.
Definition usable_ids (nodes : list message_node) : list string := mn_node_id <$> filter (λ n, usable_node n = true) nodes.

Lemma pick_all node nodes a :
  foldl (pick node) a nodes = if bool_decide (node ∈ usable_ids nodes) then wanted nodes node else a.
Proof using Type.
  clear epoch capacity. unfold wanted, usable_ids. revert a. induction nodes as [|n nodes IH]; intros a; [done|]. simpl.
  rewrite (IH (pick node a n)), (IH (pick node None n)), filter_cons. unfold pick.
  destruct (usable_node n) eqn:Eu; simpl; [|by repeat case_bool_decide].
  destruct (decide (mn_node_id n = node)) as [->|Hne].
  - rewrite !(bool_decide_eq_true_2 (node = node)) by done. rewrite (bool_decide_eq_true_2 (node ∈ node :: _)) by set_solver.
    by case_bool_decide.
  - rewrite !(bool_decide_eq_false_2 (mn_node_id n = node)) by done.
    destruct (decide (node ∈ mn_node_id <$> filter (λ n, usable_node n = true) nodes)).
    + by rewrite !bool_decide_eq_true_2 by set_solver.
    + by rewrite !bool_decide_eq_false_2 by set_solver.
Qed.

Lemma wanted_None nodes node : node ∉ usable_ids nodes → wanted nodes node = None.
Proof using Type. intros Hn. pose proof (pick_all node nodes None) as E. by rewrite bool_decide_eq_false_2 in E. Qed.

(** What replace_link leaves: no stream, or one at the right address. *)
Lemma replace_part n c :
  control_ok c →
  part (replace_link gateway_id n) c (λ _ d',
    (∀ node, node ≠ mn_node_id n → address_at d' node = address_at (cw_driver c) node) ∧
    (find_node (mn_node_id n) (gd_nodes d') = None ∨ address_at d' (mn_node_id n) = Some (mn_host n, node_port gateway_id n))).
Proof.
  intros Hc. unfold replace_link. apply (part_bind _ _ _ (λ d d', d = d' ∧ d' = cw_driver c)); [by apply part_get|].
  intros d c1 Hc1 [-> E]. rewrite <- E. clear c Hc E. rename c1 into c, Hc1 into Hc.
  destruct (find_node (mn_node_id n) (gd_nodes (cw_driver c))) as [k|] eqn:Ef; [|by apply part_ret; auto].
  pose proof (find_node_Some _ _ _ Ef) as Hin. destruct (tb_links _ (co_table _ Hc) _ _ Hin) as [l Hl]. rewrite Hl.
  destruct (outdated gateway_id n l) eqn:Eo.
  - eapply part_mono; [|by apply (close_remove_part c (mn_node_id n) k)]. intros [] d' [Hm Ha]. split.
    + intros node Hne. by rewrite Ha, bool_decide_eq_false_2.
    + left. apply find_node_None. intros ([node k'] & Hk & Hin')%list_elem_of_fmap. simpl in Hk. subst node.
      apply Hm in Hin' as [Hin' Hne]. pose proof (find_node_In _ _ _ (tb_names _ (co_table _ Hc)) Hin'). congruence.
  - apply part_ret; [done|]. split; [done|]. right. unfold address_at. rewrite Ef, Hl. simpl. unfold address.
    unfold outdated in Eo. apply orb_false_iff in Eo as [[_ Hh]%orb_false_iff Hp].
    apply negb_false_iff in Hh, Hp. apply bool_decide_eq_true in Hh. apply Z.eqb_eq in Hp. congruence.
Qed.

Abbreviation make_link := (ensure_link frame_size gateway_id instance_id shard_id capacity epoch).
Lemma ensure_part n c :
  control_ok c → usable_node n = true →
  (find_node (mn_node_id n) (gd_nodes (cw_driver c)) = None ∨
   address_at (cw_driver c) (mn_node_id n) = Some (mn_host n, node_port gateway_id n)) →
  part (make_link n) c (λ _ d', ∀ node, address_at d' node = pick node (address_at (cw_driver c) node) n).
Proof.
  intros Hc Hu Hn. unfold ensure_link. apply (part_bind _ _ _ (λ d d', d = d' ∧ d' = cw_driver c)); [by apply part_get|].
  intros d c1 Hc1 [-> E]. rewrite <- E in Hn |- *. clear c Hc E. rename c1 into c, Hc1 into Hc. unfold pick. rewrite Hu. simpl.
  destruct (find_node _ _) as [k|] eqn:Ef.
  - apply part_ret; [done|]. intros node. case_bool_decide; [|done]. subst. by destruct Hn.
  - set (k := fresh (dom (gd_links (cw_driver c)))).
    assert (gd_links (cw_driver c) !! k = None) as Hk by apply not_elem_of_dom, is_fresh.
    destruct (add_table _ k n (co_table _ Hc) Hk Ef) as [Hok Ha].
    pose proof (start_table (add_link gateway_id k n (cw_driver c)) k shard_id (epoch k) capacity) as Ht.
    apply part_driver; [done|by eapply same_table_ok|apply rtc_once; by apply ds_connect|].
    intros node. unfold new_link. fold k. rewrite (same_table_at _ _ node Ht), Ha.
    case_bool_decide; case_bool_decide; congruence.
Qed.

Abbreviation take := (take_nodes frame_size gateway_id instance_id shard_id capacity epoch).
Lemma take_part nodes retained c :
  control_ok c →
  part (take nodes retained) c (λ r d',
    (∀ node, node ∈ r ↔ node ∈ retained ∨ node ∈ usable_ids nodes) ∧
    ∀ node, address_at d' node = foldl (pick node) (address_at (cw_driver c) node) nodes).
Proof.
  revert retained c. induction nodes as [|n nodes IH]; intros retained c Hc; simpl.
  { apply part_ret; [done|]. split; [set_solver|done]. }
  unfold usable_ids. rewrite filter_cons. destruct (usable_node n) eqn:Eu.
  - case_decide; [|done]. eapply part_bind; [by apply replace_part|]. intros [] c1 Hc1 [Ho Hn].
    eapply part_bind; [by apply ensure_part|]. intros [] c2 Hc2 He. eapply part_mono; [|by apply IH].
    intros r d' [Hr Ha]. split; [intros node; rewrite Hr; fold (usable_ids nodes); set_solver|].
    intros node. rewrite Ha, He. f_equal. unfold pick. rewrite Eu. simpl. case_bool_decide; [done|]. by apply Ho.
  - case_decide; [done|]. eapply part_mono; [|by apply IH]. intros r d' [Hr Ha]. split; [done|].
    intros node. rewrite Ha. f_equal. unfold pick. by rewrite Eu.
Qed.

Lemma sweep_part entries retained c :
  control_ok c → NoDup entries → (∀ nk, nk ∈ entries → nk ∈ gd_nodes (cw_driver c)) →
  part (sweep entries retained) c (λ _ d', ∀ node, address_at d' node =
    if bool_decide (node ∈ entries.*1 ∧ node ∉ retained) then None else address_at (cw_driver c) node).
Proof.
  revert c. induction entries as [|[node k] entries IH]; intros c Hc Hd Hin; simpl.
  { apply part_ret; [done|]. done. }
  apply NoDup_cons in Hd as [Hni Hd].
  apply (part_bind _ _ _ (λ _ d', (∀ nk, nk ∈ entries → nk ∈ gd_nodes d') ∧
    ∀ node', address_at d' node' = if bool_decide (node' = node ∧ node ∉ retained) then None else address_at (cw_driver c) node')).
  - case_bool_decide as Hr.
    + apply part_ret; [done|]. split; [set_solver|]. intros node'. rewrite bool_decide_eq_false_2; naive_solver.
    + eapply part_mono; [|apply (close_remove_part c node k); [done|set_solver]]. intros [] d' [Hm Ha]. split.
      * intros nk Hk. apply Hm. split; [set_solver|]. by intros ->.
      * intros node'. rewrite Ha. case_bool_decide; case_bool_decide; naive_solver.
  - intros [] c1 Hc1 [Hin1 Ha1]. eapply part_mono; [|by apply IH]. intros [] d' Ha node'. rewrite Ha, Ha1.
    repeat case_bool_decide; set_solver.
Qed.

Abbreviation apply_nodes := (apply_topology frame_size gateway_id instance_id shard_id capacity epoch).
Lemma apply_part nodes c :
  control_ok c → part (apply_nodes nodes) c (λ _ d', ∀ node, address_at d' node = wanted nodes node).
Proof.
  intros Hc. unfold apply_topology. eapply part_bind; [by apply take_part|]. intros retained c1 Hc1 [Hr Ha].
  apply (part_bind _ _ _ (λ d d', d = d' ∧ d' = cw_driver c1)); [by apply part_get|]. intros d c2 Hc2 [-> E].
  eapply part_mono; [|apply sweep_part; [done|eapply NoDup_fmap_1, (tb_names _ (co_table _ Hc2))|done]].
  intros [] d' Hs node. rewrite Hs, E, Ha, pick_all. case_bool_decide as H1.
  - destruct H1 as [_ Hn]. rewrite Hr in Hn. rewrite wanted_None; [done|set_solver].
  - case_bool_decide as H2; [done|]. rewrite Hr in H1.
    assert (address_at (cw_driver c1) node = None) as Hn.
    { unfold address_at. destruct (find_node node _) as [k|] eqn:Ef; [|done]. exfalso. apply H1.
      split; [|set_solver]. apply find_node_Some in Ef. apply list_elem_of_fmap. by exists (node, k). }
    rewrite Ha, pick_all, bool_decide_eq_false_2 in Hn by done. by rewrite Hn, wanted_None.
Qed.

(** C18: the streams follow the topology. Whatever the other coroutines do while
    streams are closed, a round that has the list of nodes ends without an
    exception, its effects are steps of the driver, and the table then holds, for
    each node, a stream to the address that its last usable entry gives, and no
    stream for a node without a usable entry. *)
Theorem streams_follow_topology nodes c :
  control_ok c →
  ∃ c', apply_nodes nodes c = (Ok tt, c') ∧ rtc step (cw_driver c) (cw_driver c') ∧
    ∀ node, address_at (cw_driver c') node = wanted nodes node.
Proof.
  intros Hc. destruct (apply_part nodes c Hc) as (_ & Hs & [] & E & Ha). exists (apply_nodes nodes c).2.
  by rewrite <- E, <- surjective_pairing.
Qed.

(** ** The coroutine and the end *)

Lemma heartbeat_part now k c : control_ok c → part (send_heartbeat frame_size now k) c (λ _, same_table (cw_driver c)).
Proof.
  intros Hc. pose proof (part_ret tt c (λ _, same_table (cw_driver c)) Hc (reflexivity _)) as Hnone.
  unfold part, wp, send_heartbeat in *. destruct (gd_links _ !! k) as [l|]; [|done]. destruct (healthy l); [|done]. simpl.
  destruct (others_table _ _ (rtc_once _ _ (heartbeat_other (cw_driver c) k (MkStreamHeartbeat now (u64 (cw_heartbeat c + 1))))))
    as [Ht Hs]. split_and!; [|done|by exists tt]. split; [eapply same_table_ok; [done|apply Hc]|apply Hc].
Qed.
Lemma heartbeats_part now entries c : control_ok c → part (send_heartbeats frame_size now entries) c (λ _ _, True).
Proof.
  revert c. induction entries as [|[node k] entries IH]; intros c Hc; simpl; [by apply part_ret|].
  eapply part_bind; [by apply heartbeat_part|]. auto.
Qed.

Definition goes_on (b : bool) (d : driver) : Prop := b = negb (gd_stopping d).
Abbreviation a_round := (control_round frame_size gateway_id instance_id shard_id capacity epoch).
Lemma part_look c {A} (k : driver → Eff control A) R :
  control_ok c → (∀ c', control_ok c' → part (k (cw_driver c')) c' R) → part (d ← get_driver; k d) c R.
Proof. intros Hc Hk. apply (part_bind _ _ _ (λ d d', d = d')); [by apply part_get|]. intros d c' Hc' ->. auto. Qed.

Lemma round_part r c : control_ok c → part (a_round r) c (λ b d, b = true ∨ gd_stopping d = true).
Proof.
  intros Hc. unfold control_round. apply part_look; [done|]. clear c Hc. intros c Hc.
  destruct (gd_stopping (cw_driver c)) eqn:Es; [apply part_ret; auto|].
  eapply part_bind; [by apply part_await|]. intros [] c1 Hc1 _. apply part_look; [done|]. clear dependent c c1. intros c Hc.
  assert (∀ m : Eff control unit, part m c (λ _ _, True) →
    part (m ;; d ← get_driver;
          if gd_stopping d then mret false
          else send_heartbeats frame_size (rd_now r) (gd_nodes d) ;; await ;; d ← get_driver; mret (negb (gd_stopping d)))
      c (λ b d, b = true ∨ gd_stopping d = true)) as Hrest.
  { intros m Hm. eapply part_bind; [exact Hm|]. intros [] c1 Hc1 _. apply part_look; [done|]. intros c2 Hc2.
    destruct (gd_stopping (cw_driver c2)) eqn:Es; [apply part_ret; auto|].
    eapply part_bind; [by apply heartbeats_part|]. intros [] c3 Hc3 _.
    eapply part_bind; [by apply part_await|]. intros [] c4 Hc4 _. apply part_look; [done|]. intros c5 Hc5.
    apply part_ret; [done|]. destruct (gd_stopping (cw_driver c5)); auto. }
  destruct (fetch_grpc_topology (rd_answer r)) as [nodes|e], (gd_stopping (cw_driver c)) eqn:Es; [apply part_ret; auto|..];
    apply Hrest; [eapply part_mono; [|by apply apply_part]; done|by apply part_ret..].
Qed.
Lemma control_part rounds c :
  control_ok c →
  part (grpc_control frame_size gateway_id instance_id shard_id capacity epoch rounds) c (λ b d, b = true ∨ gd_stopping d = true).
Proof.
  revert c. induction rounds as [|r rounds IH]; intros c Hc; simpl; [apply part_ret; auto|].
  eapply part_bind; [by apply round_part|]. intros [] c1 Hc1 Hb; [by apply IH|]. apply part_ret; [done|]. right. by destruct Hb.
Qed.

Lemma close_links_part entries c :
  control_ok c → (∀ nk, nk ∈ entries → is_Some (gd_links (cw_driver c) !! nk.2)) →
  part (close_links entries) c (λ _ d', same_table (cw_driver c) d' ∧ ∀ nk, nk ∈ entries → closed d' nk.2).
Proof.
  revert c. induction entries as [|[node k] entries IH]; intros c Hc Hl; simpl.
  { apply part_ret; [done|]. split; [done|]. by intros nk ?%elem_of_nil. }
  eapply part_bind; [apply close_part; [done|]; apply (Hl (node, k)); set_solver|]. intros [] c1 Hc1 [Ht Hk].
  eapply part_mono; [|apply IH; [done|]].
  - intros [] d' [Ht' Hcl]. split; [by etransitivity|]. intros nk [->|Hin]%elem_of_cons; [|by apply Hcl].
    by eapply same_table_closed.
  - intros nk Hin. destruct (Hl nk) as [l Hlk]; [set_solver|]. destruct (same_table_lookup _ _ _ _ Ht Hlk) as (l' & ? & _). by exists l'.
Qed.

Lemma clear_spec ks d :
  NoDup ks → (∀ k, k ∈ ks → closed d k) →
  let d' := foldl (λ d k, remove_link k d) d ks in
  rtc step d d' ∧ (∀ k, is_Some (gd_links d' !! k) → is_Some (gd_links d !! k) ∧ k ∉ ks) ∧
  (∀ nk, nk ∈ gd_nodes d' → nk ∈ gd_nodes d ∧ nk.2 ∉ ks).
Proof.
  revert d. induction ks as [|k ks IH]; intros d Hd Hc; simpl.
  { split_and!; [apply rtc_refl|set_solver..]. }
  apply NoDup_cons in Hd as [Hk Hd]. destruct (Hc k) as (l & Hl & _ & Hf & Hn); [set_solver|].
  destruct (IH (remove_link k d)) as (Hs & H1 & H2); [done| |].
  { intros k' Hk'. destruct (Hc k') as (l' & ? & ?); [set_solver|]. exists l'. simpl. rewrite lookup_delete_ne; [done|congruence]. }
  split_and!.
  - eapply rtc_l; [by eapply ds_remove|exact Hs].
  - intros k' Hk'. destruct (H1 k' Hk') as [[l' Hl'] ?]. simpl in Hl'. apply lookup_delete_Some in Hl' as [? ?]. split; [by eexists|set_solver].
  - intros nk Hnk. destruct (H2 nk Hnk) as [Hin ?]. simpl in Hin. apply list_elem_of_filter in Hin as [? ?]. set_solver.
Qed.

Lemma stop_part c : control_ok c → part stop_rest c (λ _ d', gd_links d' = ∅ ∧ gd_nodes d' = []).
Proof.
  intros Hc. unfold stop_rest. apply part_look; [done|]. clear dependent c. intros c Hc.
  eapply part_bind; [apply close_links_part; [done|]; intros [node k]; apply (tb_links _ (co_table _ Hc))|].
  intros [] c1 Hc1 [[Hn _] Hcl]. destruct Hc1 as [Ht1 Ho1].
  destruct (clear_spec (gd_nodes (cw_driver c1)).*2 (cw_driver c1) (tb_keys _ Ht1)) as (Hs & Hl & Hnn).
  { intros k ([node k'] & -> & Hin)%list_elem_of_fmap. rewrite Hn in Hin. exact (Hcl _ Hin). }
  assert (gd_links (clear_links (cw_driver c1)) = ∅) as El.
  { apply map_empty. intros k. apply eq_None_not_Some. intros Hk. destruct (Hl k Hk) as [Hk' Hni]. by apply Hni, tb_listed. }
  assert (gd_nodes (clear_links (cw_driver c1)) = []) as En.
  { apply elem_of_nil_inv. intros nk Hk. destruct (Hnn nk Hk) as [Hk' Hni]. apply Hni, list_elem_of_fmap. by exists nk. }
  apply part_driver; [done| |exact Hs|done].
  split; rewrite ?En; [constructor|constructor|by intros node k ?%elem_of_nil|].
  intros k [l Hk]. rewrite El in Hk. by rewrite lookup_empty in Hk.
Qed.

Context (command_size_pos : ∀ c, (0 ≤ command_size c)%Z) (max_pending max_pending_bytes : Z).

(** C19: the driver stops cleanly. From the start, after any rounds of the
    coroutine with any interference, the coroutine ends only when the driver
    stops, and stop() then returns with no stream and no pending command left,
    which it asserts: every command accepted was answered, once. (gRPC reports
    the end of a stream that was cancelled, with OnDone.) *)
Theorem gateway_stops writes others rounds :
  (0 ≤ max_pending)%Z → (0 ≤ max_pending_bytes)%Z → Forall interferes others →
  ∃ goes_on c1 c2,
    grpc_control frame_size gateway_id instance_id shard_id capacity epoch rounds
      (MkControl (driver_init max_pending max_pending_bytes writes) others 0) = (Ok goes_on, c1) ∧
    (goes_on = true ∨ gd_stopping (cw_driver c1) = true) ∧
    stop_rest c1 = (Ok tt, c2) ∧ rtc step (driver_init max_pending max_pending_bytes writes) (cw_driver c2) ∧
    gd_links (cw_driver c2) = ∅ ∧ gd_nodes (cw_driver c2) = [] ∧ gd_pending (cw_driver c2) = ∅ ∧
    NoDup (gd_results (cw_driver c2)).*1 ∧
    ∀ n, n < gd_tickets (cw_driver c2) → n ∈ (gd_results (cw_driver c2)).*1.
Proof.
  intros Hp Hb Ho. set (c := MkControl _ _ _). assert (control_ok c) as Hc.
  { split; [|done]. split; simpl; [constructor..|by intros node k ?%elem_of_nil|]. by intros k [l ?%lookup_empty_Some]. }
  destruct (control_part rounds c Hc) as (Hc1 & Hs1 & b & E1 & Hb1).
  destruct (grpc_control _ _ _ _ _ _ _ c) as [r1 c1] eqn:Eg. simpl in *. subst r1.
  destruct (stop_part c1 Hc1) as (_ & Hs2 & [] & E2 & El & En).
  destruct (stop_rest c1) as [r2 c2] eqn:Er. simpl in *. subst r2. exists b, c1, c2.
  assert (rtc step (driver_init max_pending max_pending_bytes writes) (cw_driver c2)) as Hs by by etransitivity.
  destruct (driver_reachable _ _ _ _ command_size_pos _ _ writes _ Hp Hb Hs) as [[H1 _ [H3 _] H4 _ _ _] _].
  assert (gd_pending (cw_driver c2) = ∅) as Epd.
  { apply map_empty. intros id. destruct (gd_pending (cw_driver c2) !! id) as [p|] eqn:Hid; [|done].
    destruct (H1 id p Hid) as ((l & Hl & _) & _). rewrite El in Hl. by rewrite lookup_empty in Hl. }
  split_and!; try done. intros n [Hn|(id & p & Hid & _)]%H4; [done|]. rewrite Epd in Hid. by rewrite lookup_empty in Hid.
Qed.
End theorems.

(** ** Witnesses *)

#[local] Existing Instance counting_semaphore.
#[local] Existing Instance demo_hash_length.

(** Nothing happens during the first await; during the second the driver is
    told to stop. *)
Definition demo_others : list (driver → driver) := [λ d, d; driver_abort].
Lemma demo_interferes :
  Forall (interferes demo_frame_size demo_command_size "gw" "instance") demo_others.
Proof.
  apply Forall_cons. split; [intros d; apply rtc_refl|]. apply Forall_singleton. intros d.
  apply rtc_once. split; [constructor|]. destruct (abort_table d) as [? ?]. split; [done|by apply table_dom].
Qed.
Definition demo_start : control := MkControl (driver_init 4 1000 (make_budget 8 1000)) demo_others 0.
Lemma demo_start_ok : control_ok demo_frame_size demo_command_size "gw" "instance" demo_start.
Proof.
  split; [|apply demo_interferes]. split; simpl; [constructor..|by intros node k ?%elem_of_nil|].
  by intros k [l ?%lookup_empty_Some].
Qed.

(** The last entry of a node counts, and one that is not active does not. *)
Definition demo_topology : list message_node :=
  [demo_node "message-1"; MkMessageNode "message-2" "draining" "10.0.0.2" 9000 2;
   MkMessageNode "message-1" "active" "10.0.0.3" 9100 1].

Lemma streams_follow_topology_witness :
  ∃ c', apply_topology demo_frame_size "gw" "instance" 0 64 (λ k, k) demo_topology demo_start = (Ok tt, c') ∧
    address_at (cw_driver c') "message-1" = Some ("10.0.0.3", 9100%Z) ∧ address_at (cw_driver c') "message-2" = None.
Proof.
  destruct (streams_follow_topology demo_frame_size demo_command_size "gw" "instance" 0 64 (λ k, k) demo_topology
    demo_start demo_start_ok) as (c' & E & _ & Ha).
  exists c'. rewrite !Ha. split; [exact E|]. split; vm_compute; reflexivity.
Defined.

Lemma gateway_stops_witness :
  ∃ goes_on c1 c2,
    grpc_control demo_frame_size "gw" "instance" 0 64 (λ k, k) [MkRound (inl demo_topology) 5] demo_start = (Ok goes_on, c1) ∧
    stop_rest c1 = (Ok tt, c2) ∧ gd_links (cw_driver c2) = ∅ ∧ gd_pending (cw_driver c2) = ∅.
Proof.
  destruct (gateway_stops demo_frame_size demo_command_size "gw" "instance" 0 64 (λ k, k) demo_command_size_pos 4 1000
    (make_budget 8 1000) demo_others [MkRound (inl demo_topology) 5] ltac:(lia) ltac:(lia) demo_interferes)
    as (b & c1 & c2 & E1 & _ & E2 & _ & El & _ & Ep & _).
  exists b, c1, c2. split; [exact E1|]. split; [exact E2|]. split; [exact El|exact Ep].
Defined.
