(* ===== verification/Deployment.v ===== *)
(** * From the configuration to the streams

    The State service reads its topology from the configuration that was
    selected for it (state/options.cc on the result of configuration.cc), and
    every Gateway connects to the Message nodes of that topology
    (grpc_control): the streams of a Gateway are those the document describes. *)

From S2P Require Import Prelude Codec Decimal Schema Seastar Budget Grpc Yaml Configuration ConfigurationTheorems Protocol StateService GatewayDriver GatewayDriverTheorems Topology TopologyTheorems.

Section deployment.
Context `{!Yaml, !YamlTree}.

(** ** The topology of the State service *)

Definition active_node (node : yaml) : bool := bool_decide (default "active" (as_string (child node "status")) = "active").
Definition gateway_entry (item : yaml * yaml) : state_gateway :=
  MkStateGateway (name_of item.1) (host_of item.2) (port_of item.2) (active_node item.2).
Definition message_entry (item : yaml * yaml) : service_node :=
  MkServiceNode (name_of item.1) (host_of item.2) (port_of item.2) "active"
    (default 1%Z (as_unsigned (child item.2 "weight"))) (shards_of item.2).

Definition of_service (service : string) (items : list (yaml * yaml)) : list (yaml * yaml) :=
  filter (λ item, service_of item.2 = Some service) items.

Lemma endpoint_child item key :
  is_map item.2 = true →
  child (endpoint_of item) key = if bool_decide (key = "name") then of_string (name_of item.1) else child item.2 key.
Proof. intros Hm. unfold endpoint_of. rewrite assign_child by done. case_bool_decide; case_bool_decide; congruence. Qed.
Lemma node_port_text key node :
  node_ok key node → as_uint16 (child node "port") = Some (port_of node) ∧ as_string (child node "host") = Some (host_of node).
Proof.
  intros [_ _ _ Hp _ _ Hh]. unfold port_of, host_of in *. split.
  - destruct (as_unsigned (child node "port")) as [z|] eqn:E; simpl in *; [|lia]. apply as_uint16_unsigned. split; [done|lia].
  - by destruct (as_string (child node "host")).
Qed.

Lemma load_gateway_configured item :
  node_ok item.1 item.2 → load_gateway (endpoint_of item) = Ok (gateway_entry item).
Proof.
  intros Hok. pose proof (nk_map _ _ Hok) as Hm. destruct (node_port_text _ _ Hok) as [Hp Hh].
  assert (is_map (endpoint_of item) = true) as He by by apply assign_map.
  unfold load_gateway. rewrite !at_key_map by done. simpl. rewrite !endpoint_child by done. simpl.
  rewrite of_string_text, Hh, Hp. simpl. unfold gateway_entry. do 2 f_equal.
  pose proof (nk_port _ _ Hok). pose proof (nk_host _ _ Hok). rewrite (bool_decide_eq_false_2 (host_of item.2 = "")) by done.
  destruct (Z.eqb_spec (port_of item.2) 0); [lia|]. by rewrite !andb_true_r.
Qed.
Lemma load_message_configured item :
  node_ok item.1 item.2 →
  load_message (endpoint_of item) = Ok (if active_node item.2 then Some (message_entry item) else None).
Proof.
  intros Hok. pose proof (nk_map _ _ Hok) as Hm. destruct (node_port_text _ _ Hok) as [Hp Hh].
  assert (is_map (endpoint_of item) = true) as He by by apply assign_map.
  unfold load_message. rewrite !at_key_map by done. simpl. rewrite !endpoint_child by done. simpl.
  rewrite Hh, Hp. simpl. pose proof (nk_port _ _ Hok). pose proof (nk_host _ _ Hok).
  rewrite (bool_decide_eq_false_2 (host_of item.2 = "")) by done. destruct (Z.eqb_spec (port_of item.2) 0); [lia|].
  rewrite !orb_false_r. unfold active_node, message_entry. case_bool_decide as Ea; simpl; [|done].
  rewrite of_string_text. simpl. by rewrite Ea.
Qed.

Lemma named_entries {B} (f : yaml → outcome B) (g : yaml * yaml → B) service items l' :
  map_outcome f (named service items) = Ok l' → (∀ item, item ∈ items → f (endpoint_of item) = Ok (g item)) →
  l' = g <$> of_service service items.
Proof.
  unfold named, of_service. intros Hl Hg. assert (∀ item, item ∈ filter (λ it, service_of it.2 = Some service) items → f (endpoint_of item) = Ok (g item)) as Hg'.
  { intros item [_ Hin]%list_elem_of_filter. by apply Hg. }
  clear Hg. revert l' Hl. induction (filter _ items) as [|x l IH]; simpl; intros l' Hl; [by injection Hl as <-|].
  loaded Hl. injection Hl as <-. rewrite Hg' in E by set_solver. injection E as <-. f_equal. apply IH; [set_solver|done].
Qed.

(** The State service of a document. *)
Lemma state_topology base extra node_id config o :
  select base extra node_id = Ok config → load_options config = Ok o →
  ∃ nodes, all_nodes base extra = Ok nodes ∧ Forall (λ item, node_ok item.1 item.2) (entries nodes) ∧
    so_gateways o = gateway_entry <$> of_service "gateway" (entries nodes) ∧
    so_messages o = message_entry <$> filter (λ item, active_node item.2 = true) (of_service "message" (entries nodes)).
Proof.
  intros (nodes & Hn & Hall & _ & _ & Hsel)%select_Ok Hl. exists nodes. split; [done|]. split; [done|].
  rewrite Forall_forall in Hall. unfold load_options in Hl. loaded Hl. injection Hl as <-. simpl.
  repeat match goal with H : at_key _ _ = Ok _ |- _ => apply at_key_Ok in H as (-> & _ & _) end.
  rewrite (sl_gateways _ _ _ _ Hsel), (sl_messages _ _ _ _ Hsel) in *. split.
  - eapply named_entries; [done|]. intros item Hin. by apply load_gateway_configured, (Hall item).
  - match goal with H : map_outcome load_message _ = Ok _ |- _ => eapply named_entries in H as -> end.
    2: { intros item Hin. by apply load_message_configured, (Hall item). }
    induction (of_service "message" (entries nodes)) as [|item l IH]; [done|]. simpl. rewrite filter_cons.
    destruct (active_node item.2); simpl; [by f_equal|done].
Qed.

(** ** The streams of a Gateway *)

Context {SEM : Semaphore} `{!StdHash} (frame_size : GatewayToMessageFrame → Z) (command_size : CommandEnvelope → Z)
  (gateway_id instance_id : string) (shard_id capacity : Z) (epoch : Z → Z).

(** What the Gateway reads of a node of the topology. *)
Definition to_node (n : service_node) : message_node :=
  MkMessageNode (sv_node_id n) (sv_status n) (sv_host n) (sv_port n) (sv_shard_count n).

Lemma configured_usable item :
  node_ok item.1 item.2 → service_of item.2 = Some "message" → name_of item.1 ≠ "" →
  usable_node (to_node (message_entry item)) = true.
Proof.
  intros [_ _ _ Hp Hs Hm Hh] Hsv Hn. specialize (Hm Hsv). unfold usable_node. simpl.
  rewrite !bool_decide_eq_false_2 by done. apply negb_true_iff. rewrite !orb_false_iff. simpl. split_and!; try done; lia.
Qed.

Lemma wanted_unique nodes n :
  NoDup (mn_node_id <$> nodes) → n ∈ nodes → usable_node n = true →
  wanted gateway_id nodes (mn_node_id n) = Some (mn_host n, node_port gateway_id n).
Proof.
  intros Hd Hin Hu. apply list_elem_of_split in Hin as (l1 & l2 & ->). unfold wanted. rewrite foldl_app. simpl.
  rewrite pick_all. rewrite fmap_app in Hd. simpl in Hd. apply NoDup_app in Hd as (_ & _ & Hd). apply NoDup_cons in Hd as [Hni _].
  rewrite bool_decide_eq_false_2; [unfold pick; by rewrite Hu, bool_decide_eq_true_2|].
  intros Hin. apply Hni. unfold usable_ids in Hin. apply list_elem_of_fmap in Hin as (x & -> & [_ Hx]%list_elem_of_filter).
  apply list_elem_of_fmap. by exists x.
Qed.

Definition is_peer (item : yaml * yaml) : Prop := service_of item.2 = Some "message" ∧ active_node item.2 = true.

(** C20: the Gateways connect to the Message nodes of the document. When the
    State service runs with the configuration selected for it, a round of a
    Gateway that gets its list of nodes leaves a stream for every active Message
    node that the documents describe, to its host and to the port of the shard
    that serves this Gateway, and none for any other name. The names of the nodes
    are different, and a node without a name gets no stream. *)
Theorem configured_streams base extra node_id config o nodes c :
  select base extra node_id = Ok config → load_options config = Ok o → all_nodes base extra = Ok nodes →
  NoDup ((λ item, name_of item.1) <$> entries nodes) →
  control_ok frame_size command_size gateway_id instance_id c →
  ∃ c', apply_topology frame_size gateway_id instance_id shard_id capacity epoch
      (to_node <$> (ListMessageNodes (state_start o)).1.2) c = (Ok tt, c') ∧
    (∀ item, item ∈ entries nodes → is_peer item → name_of item.1 ≠ "" →
       address_at (cw_driver c') (name_of item.1) =
         Some (host_of item.2, (port_of item.2 + owner_shard gateway_id (shards_of item.2))%Z)) ∧
    (∀ name, (∀ item, item ∈ entries nodes → is_peer item → name_of item.1 ≠ name) → address_at (cw_driver c') name = None).
Proof.
  intros Hs Hl Hn Hd Hc. destruct (state_topology _ _ _ _ _ Hs Hl) as (nodes' & Hn' & Hall & _ & Hm).
  assert (nodes' = nodes) as -> by congruence. simpl. rewrite Hm.
  set (peers := filter (λ item, active_node item.2 = true) (of_service "message" (entries nodes))).
  assert (∀ item, item ∈ peers ↔ item ∈ entries nodes ∧ is_peer item) as Hpeers.
  { intros item. unfold peers, of_service, is_peer. rewrite !list_elem_of_filter. naive_solver. }
  rewrite Forall_forall in Hall. rewrite <- list_fmap_compose.
  destruct (apply_part frame_size command_size gateway_id instance_id shard_id capacity epoch
    (to_node ∘ message_entry <$> peers) c Hc) as (_ & _ & [] & E & Ha).
  set (m := apply_topology _ _ _ _ _ _ _) in *. destruct (m c) as [r c'] eqn:Em. simpl in *. subst r.
  exists c'. split; [done|]. split.
  - intros item Hin Hp Hne. rewrite Ha.
    apply (wanted_unique (to_node ∘ message_entry <$> peers) (to_node (message_entry item))).
    + rewrite <- list_fmap_compose. eapply sublist_NoDup; [exact Hd|].
      apply (fmap_sublist (λ item, name_of item.1)). unfold peers, of_service. etransitivity; apply sublist_filter.
    + apply list_elem_of_fmap. exists item. split; [done|]. by apply Hpeers.
    + by apply configured_usable; [apply (Hall item)|apply Hp|].
  - intros name Hno. rewrite Ha. apply wanted_None. unfold usable_ids.
    intros (x & -> & [_ Hx]%list_elem_of_filter)%list_elem_of_fmap.
    apply list_elem_of_fmap in Hx as (item & -> & [Hin Hp]%Hpeers). by apply (Hno item Hin Hp).
Qed.
End deployment.

(** ** Witness *)

#[local] Existing Instance demo_yaml_reader.
#[local] Existing Instance demo_tree.
#[local] Existing Instance counting_semaphore.
#[local] Existing Instance demo_hash_length.

Definition demo_entry (service host : string) (port : Z) (more : list (string * demo_yaml)) : demo_yaml :=
  YMap ([("service", YText service); ("host", YText host); ("port", YNumber port)] ++ more).
Definition demo_document : demo_yaml :=
  YMap [("shared", YMap [("mysql", YMap [("host", YText "db")])]);
        ("nodes", YMap [("state-1", demo_entry "state" "10.0.1.1" 9000 []);
           ("gw-1", demo_entry "gateway" "10.0.1.2" 8001 [("listenHost", YText "0.0.0.0")]);
           ("message-1", demo_entry "message" "10.0.1.3" 9100 [("shards", YNumber 4)])])].
Definition demo_more : demo_yaml :=
  YMap [("nodes", YMap [("message-2", demo_entry "message" "10.0.1.4" 9200 []);
           ("message-3", demo_entry "message" "10.0.1.5" 9300 [("status", YText "drained")])])].

Definition demo_nodes : demo_yaml := match all_nodes demo_document demo_more with Ok n => n | Throw _ => YUndefined end.
Definition demo_config : demo_yaml :=
  match select demo_document demo_more "state-1" with Ok n => n | Throw _ => YUndefined end.
Definition demo_options : state_options :=
  match load_options demo_config with Ok o => o | Throw _ => MkStateOptions "" 0 0 [] [] end.

Lemma configured_streams_witness :
  ∃ c', apply_topology demo_frame_size "gw" "instance" 0 64 (λ k, k)
      (to_node <$> (ListMessageNodes (state_start demo_options)).1.2) demo_start = (Ok tt, c') ∧
    address_at (cw_driver c') "message-2" = Some ("10.0.1.4", 9200%Z) ∧ address_at (cw_driver c') "message-3" = None.
Proof.
  destruct (@configured_streams demo_yaml_reader demo_tree _ _ demo_frame_size demo_command_size "gw" "instance" 0 64 (λ k, k)
    demo_document demo_more "state-1" demo_config demo_options demo_nodes demo_start) as (c' & E & Hpeer & Hnone);
    [vm_compute; reflexivity|vm_compute; reflexivity|vm_compute; reflexivity| |apply demo_start_ok|].
  { vm_compute. repeat constructor; set_solver. }
  exists c'. split; [exact E|]. split.
  - apply (Hpeer (YText "message-2", demo_entry "message" "10.0.1.4" 9200 [])).
    + vm_compute. do 3 right. left.
    + split; vm_compute; reflexivity.
    + discriminate.
  - apply Hnone. intros item Hin [Hs Ha] Hn. vm_compute in Hin.
    repeat (apply elem_of_cons in Hin as [Hin|Hin]; [subst item; vm_compute in Hs, Ha, Hn; congruence|]).
    by apply elem_of_nil in Hin.
Defined.
