(* ===== verification/GatewayConnection.v ===== *)
(** * Client connections of a Gateway shard

    connection::send, send_reliable, retry, acknowledge, close, the write loop
    and the state transitions of quit and bind
    (src/server/gateway/transport/connection.cc, connection.hh), and the table
    of connections with deliver, close_connection and close_previous
    (src/server/gateway/transport/server.cc).

    Frames a connection queues and pushes it keeps for retransmission hold units
    of two budgets of the shard's driver, [writes], which the streams to the
    Message nodes share, and [reliable]. All of them run on one reactor without
    suspending, so that they are functions on the state of a connection and of
    what it shares; where a coroutine suspends it is cut into steps. *)

From S2P Require Import Prelude Codec Schema Seastar Budget Framing GatewayDriver.
From Stdlib Require Import Ascii.

Definition max_connection_writes : nat := 1024.
Definition max_connection_bytes : Z := 16 * 1024 * 1024.

(** sizeof(uint32_t), the length in front of an envelope *)
Definition sizeof_uint32 : Z := 4.

Record write_entry := MkWriteEntry { we_frame : bytes; we_units : capacity_units }.
(** [re_armed]: the timer is armed. *)
Record reliable_entry := MkReliableEntry {
  re_envelope : string; re_units : capacity_units; re_attempts : Z; re_armed : bool }.

(** [cn_loop]: the write loop runs, holding the writer gate; [cn_flight]: the
    frame it took from the queue and is writing. [cn_sent] records the envelopes
    that were accepted and [cn_output] the frames given to the socket. *)
Record connection := MkConnection {
  cn_uid : Z; cn_lease : SessionLease;
  cn_writes : list write_entry; cn_reliable : gmap Z reliable_entry;
  cn_write_bytes : Z; cn_reliable_bytes : Z;
  cn_writing : bool; cn_closed : bool; cn_close_after_write : bool; cn_writer_closed : bool;
  cn_loop : bool; cn_flight : option write_entry;
  cn_sent : list string; cn_output : list bytes }.

Definition empty_lease : SessionLease := MkSessionLease "" "" "" "" 0 0.
Definition new_connection : connection :=
  MkConnection 0 empty_lease [] ∅ 0 0 false false false false false None [] [].

Definition cn_bind (uid : Z) (lease : SessionLease) (c : connection) : connection :=
  MkConnection uid lease (cn_writes c) (cn_reliable c) (cn_write_bytes c) (cn_reliable_bytes c) (cn_writing c)
    (cn_closed c) (cn_close_after_write c) (cn_writer_closed c) (cn_loop c) (cn_flight c) (cn_sent c) (cn_output c).
Definition cn_queue (writes : list write_entry) (bytes : Z) (sent : list string) (c : connection) : connection :=
  MkConnection (cn_uid c) (cn_lease c) writes (cn_reliable c) bytes (cn_reliable_bytes c) (cn_writing c)
    (cn_closed c) (cn_close_after_write c) (cn_writer_closed c) (cn_loop c) (cn_flight c) sent (cn_output c).
Definition cn_keep (reliable : gmap Z reliable_entry) (bytes : Z) (c : connection) : connection :=
  MkConnection (cn_uid c) (cn_lease c) (cn_writes c) reliable (cn_write_bytes c) bytes (cn_writing c)
    (cn_closed c) (cn_close_after_write c) (cn_writer_closed c) (cn_loop c) (cn_flight c) (cn_sent c) (cn_output c).
Definition cn_flags (closed after writer_closed : bool) (c : connection) : connection :=
  MkConnection (cn_uid c) (cn_lease c) (cn_writes c) (cn_reliable c) (cn_write_bytes c) (cn_reliable_bytes c) (cn_writing c)
    closed after writer_closed (cn_loop c) (cn_flight c) (cn_sent c) (cn_output c).
Definition cn_run (writing loop : bool) (flight : option write_entry) (output : list bytes) (c : connection) : connection :=
  MkConnection (cn_uid c) (cn_lease c) (cn_writes c) (cn_reliable c) (cn_write_bytes c) (cn_reliable_bytes c) writing
    (cn_closed c) (cn_close_after_write c) (cn_writer_closed c) loop flight (cn_sent c) output.

Section connection.
Context {SEM : Semaphore}.

(** A connection with what it shares. *)
Record session := MkSession { sn_id : string; sn_conn : connection; sn_driver : driver; sn_reliable : budget }.
Definition sn_set (c : connection) (s : session) : session := MkSession (sn_id s) c (sn_driver s) (sn_reliable s).
Definition sn_set_writes (b : budget) (s : session) : session :=
  MkSession (sn_id s) (sn_conn s) (gd_set_writes b (sn_driver s)) (sn_reliable s).
Definition sn_set_reliable (b : budget) (s : session) : session :=
  MkSession (sn_id s) (sn_conn s) (sn_driver s) b.

(** Destruction of a container of units. *)
Definition release_all (units : list capacity_units) (b : budget) : budget := foldr release b units.

Definition kept_units (m : gmap Z reliable_entry) : list capacity_units := values re_units m.

Definition connection_close (s : session) : session :=
  let c := sn_conn s in
  if cn_closed c then s
  else
    let d := cancel (sn_id s) (sn_driver s) in
    MkSession (sn_id s)
      (cn_keep ∅ 0 (cn_queue [] 0 (cn_sent c) (cn_flags true (cn_close_after_write c) (cn_writer_closed c) c)))
      (gd_set_writes (release_all (we_units <$> cn_writes c) (gd_writes d)) d)
      (release_all (kept_units (cn_reliable c)) (sn_reliable s)).

(** Entering the writer gate for a new write loop; a gate that is closed fails
    the loop, which closes the connection. *)
Definition start_loop (s : session) : session :=
  let c := sn_conn s in
  let s := sn_set (cn_run true (negb (cn_writer_closed c)) (cn_flight c) (cn_output c) c) s in
  if cn_writer_closed c then connection_close s else s.

Definition connection_send (envelope : string) (s : session) : bool * session :=
  let c := sn_conn s in
  if cn_closed c then (false, s)
  else if (PROTOCOL_SEND_MSS <? size envelope)%Z || bool_decide (max_connection_writes ≤ length (cn_writes c)) ||
          (u64 (max_connection_bytes - cn_write_bytes c) <? size envelope + sizeof_uint32)%Z
  then (false, connection_close s)
  else
    let bytes := (size envelope + sizeof_uint32)%Z in
    match acquire bytes (gd_writes (sn_driver s)) with
    | (Throw _, b) => (false, connection_close (sn_set_writes b s))
    | (Ok units, b) =>
        let s := sn_set (cn_queue (cn_writes c ++ [MkWriteEntry (frame envelope) units])
                           (u64 (cn_write_bytes c + bytes)) (cn_sent c ++ [envelope]) c) (sn_set_writes b s) in
        (true, if cn_writing c then s else start_loop s)
    end.

(** ** The write loop, cut where it awaits the socket *)

(** The front of the queue is taken and given to the socket. *)
Definition loop_take (s : session) : session :=
  let c := sn_conn s in
  match cn_writes c with
  | [] => s
  | f :: writes =>
      sn_set (cn_run (cn_writing c) (cn_loop c) (Some f) (cn_output c ++ [we_frame f])
                (cn_queue writes (cn_write_bytes c) (cn_sent c) c)) s
  end.

(** It was written and flushed; its units go with the local frame. *)
Definition loop_written (s : session) : session :=
  let c := sn_conn s in
  match cn_flight c with
  | None => s
  | Some f =>
      let bytes := Z.of_nat (length (we_frame f)) in
      let c := if cn_closed c then c else cn_queue (cn_writes c) (u64 (cn_write_bytes c - bytes)) (cn_sent c) c in
      sn_set (cn_run (cn_writing c) (cn_loop c) None (cn_output c) c)
        (sn_set_writes (release (we_units f) (gd_writes (sn_driver s))) s)
  end.

(** The socket failed: the loop ends with an exception and closes. *)
Definition loop_failed (s : session) : session :=
  let c := sn_conn s in
  match cn_flight c with
  | None => s
  | Some f =>
      connection_close
        (sn_set (cn_run (cn_writing c) false None (cn_output c) c)
           (sn_set_writes (release (we_units f) (gd_writes (sn_driver s))) s))
  end.

(** The loop condition is false. *)
Definition loop_exit (s : session) : session :=
  let c := sn_conn s in
  let s := sn_set (cn_run false false (cn_flight c) (cn_output c) c) s in
  if cn_close_after_write c then connection_close s else s.

(** ** Reliable pushes *)

Definition connection_acknowledge (sequence : Z) (s : session) : session :=
  let c := sn_conn s in
  match cn_reliable c !! sequence with
  | None => s
  | Some e =>
      sn_set_reliable (release (re_units e) (sn_reliable s))
        (sn_set (cn_keep (delete sequence (cn_reliable c)) (u64 (cn_reliable_bytes c - size (re_envelope e))) c) s)
  end.

(** A connection's table may have been cleared by [connection_send]; the entry
    is then gone and nothing is done with it. *)
Definition set_entry (sequence : Z) (e : reliable_entry) (bytes : Z) (s : session) : session :=
  sn_set (cn_keep (<[sequence := e]> (cn_reliable (sn_conn s))) bytes (sn_conn s)) s.

Definition send_reliable (envelope : string) (sequence : Z) (s : session) : bool * session :=
  let c := sn_conn s in
  if (sequence <=? 0)%Z then connection_send envelope s
  else
    match cn_reliable c !! sequence with
    | Some previous =>
        let old_bytes := size (re_envelope previous) in
        if (u64 (max_connection_bytes - u64 (cn_reliable_bytes c - old_bytes)) <? size envelope)%Z
        then (false, connection_close s)
        else
          match resize (re_units previous) (size envelope) (sn_reliable s) with
          | (Throw _, b) => (false, connection_close (sn_set_reliable b s))
          | (Ok units, b) =>
              let s := set_entry sequence
                (MkReliableEntry (re_envelope previous) units (re_attempts previous) (re_armed previous))
                (cn_reliable_bytes c) (sn_set_reliable b s) in
              let '(sent, s) := connection_send envelope s in
              if negb sent || cn_closed (sn_conn s) then (false, s)
              else
                (true, set_entry sequence (MkReliableEntry envelope units 1 true)
                         (u64 (u64 (cn_reliable_bytes c - old_bytes) + size envelope)) s)
          end
    | None =>
        if cn_closed c || bool_decide (max_connection_writes ≤ base.size (cn_reliable c)) ||
           (u64 (max_connection_bytes - cn_reliable_bytes c) <? size envelope)%Z
        then (false, connection_close s)
        else
          match acquire (size envelope) (sn_reliable s) with
          | (Throw _, b) => (false, connection_close (sn_set_reliable b s))
          | (Ok units, b) =>
              let '(sent, s) := connection_send envelope (sn_set_reliable b s) in
              if negb sent || cn_closed (sn_conn s)
              then (false, sn_set_reliable (release units (sn_reliable s)) s)
              else
                (true, set_entry sequence (MkReliableEntry envelope units 1 true)
                         (u64 (cn_reliable_bytes (sn_conn s) + size envelope)) s)
          end
    end.

(** The timer of an entry fired. *)
Definition retry (sequence : Z) (s : session) : session :=
  let c := sn_conn s in
  match cn_reliable c !! sequence with
  | None => s
  | Some e =>
      if cn_closed c then s
      else if (3 <=? re_attempts e)%Z then connection_acknowledge sequence s
      else
        let e' := MkReliableEntry (re_envelope e) (re_units e) (re_attempts e + 1) false in
        let s := set_entry sequence e' (cn_reliable_bytes c) s in
        let '(sent, s) := connection_send (re_envelope e) s in
        if sent && negb (cn_closed (sn_conn s))
        then set_entry sequence (MkReliableEntry (re_envelope e) (re_units e) (re_attempts e + 1) true)
               (cn_reliable_bytes (sn_conn s)) s
        else s
  end.

(** ** Answers, quit, login *)

Context `{!ProtobufCodec ClientEnvelope} `{!ProtobufCodec Packet}.

Definition response_envelope (request : ClientRequest) (packet : Packet) : string :=
  SerializeToString (response (MkClientResponse (cr_request_id request) (Some packet) (cr_operation request))).

Definition respond (request : ClientRequest) (packet : Packet) (s : session) : session :=
  (connection_send (response_envelope request packet) s).2.

(** quit: the answer is the last thing written; the writer gate is closed, which
    waits for the write loop, and then the connection. *)
Definition quit_begin (request : ClientRequest) (s : session) : session :=
  let c := sn_conn s in
  let s := sn_set (cn_flags (cn_closed c) true (cn_writer_closed c) c) s in
  let s := respond request (SetTcpPacketStatus (MkPacket None quit_response) (error_code Success) "") s in
  sn_set (cn_flags (cn_closed (sn_conn s)) (cn_close_after_write (sn_conn s)) true (sn_conn s)) s.

Definition connection_bind (uid : Z) (lease : SessionLease) (s : session) : session :=
  sn_set (cn_bind uid lease (sn_conn s)) s.

(** ** The table of a shard *)

Record gateway_shard := MkShard {
  gx_driver : driver; gx_reliable : budget; gx_connections : gmap string connection }.

Definition session_of (id : string) (c : connection) (g : gateway_shard) : session :=
  MkSession id c (gx_driver g) (gx_reliable g).
Definition put_session (s : session) (g : gateway_shard) : gateway_shard :=
  MkShard (sn_driver s) (sn_reliable s) (<[sn_id s := sn_conn s]> (gx_connections g)).

(** An operation of the connection of this id, if it is in the table. *)
Definition on_connection (id : string) (f : session → session) (g : gateway_shard) : gateway_shard :=
  match gx_connections g !! id with
  | Some c => put_session (f (session_of id c g)) g
  | None => g
  end.

Definition close_connection (id : string) (g : gateway_shard) : gateway_shard := on_connection id connection_close g.

(** close_previous: the shard and the connection that is to be closed there. *)
Definition close_previous (gateway_id instance_id : string) (shard_count : Z) (previous : SessionLease) :
    option (Z * string) :=
  if negb (bool_decide (sl_gateway_id previous = gateway_id)) || negb (bool_decide (sl_instance_id previous = instance_id))
  then None
  else if (shard_count <=? sl_shard_id previous)%Z then None
  else Some (sl_shard_id previous, sl_connection_id previous).

(** The envelope of a push. *)
Definition push_envelope (f : ClientForwardEnvelope) (packet : Packet) : string :=
  let sequence := TcpPacketReliableSequence packet in
  SerializeToString (protocol.push (MkClientPush
    (if (0 <? cf_message_id f)%Z then cf_message_id f else sequence) (Some packet) (TcpPacketPushType packet))).

Definition deliver (f : ClientForwardEnvelope) (g : gateway_shard) : ClientForwardStatus * gateway_shard :=
  match gx_connections g !! cf_expected_connection_id f with
  | None => (CLIENT_FORWARD_STATUS_OFFLINE, g)
  | Some c =>
      if cn_closed c || negb (cn_uid c =? cf_recipient_uid f)%Z ||
         negb (bool_decide (sl_device_id (cn_lease c) = cf_recipient_device_id f)) ||
         negb (sl_generation (cn_lease c) =? cf_expected_connection_generation f)%Z
      then (CLIENT_FORWARD_STATUS_STALE_ROUTE, g)
      else
        match ParseFromString (cf_packet f) with
        | None => (CLIENT_FORWARD_STATUS_BACKPRESSURED, g)
        | Some packet =>
            let sequence := TcpPacketReliableSequence packet in
            let wire := push_envelope f packet in
            let s := session_of (cf_expected_connection_id f) c g in
            let '(accepted, s) := if (0 <? sequence)%Z then send_reliable wire sequence s else connection_send wire s in
            (if accepted : bool then CLIENT_FORWARD_STATUS_QUEUED else CLIENT_FORWARD_STATUS_BACKPRESSURED,
             put_session s g)
        end
  end.

(** accept_loop, and run_connection when the connection is over. *)
Definition accept (id : string) (g : gateway_shard) : gateway_shard :=
  MkShard (gx_driver g) (gx_reliable g) (<[id := new_connection]> (gx_connections g)).
Definition erase (id : string) (g : gateway_shard) : gateway_shard :=
  MkShard (gx_driver g) (gx_reliable g) (delete id (gx_connections g)).

(** stop closes every connection and aborts the driver. *)
Definition shard_stop (g : gateway_shard) : gateway_shard :=
  let g := foldl (λ g id, close_connection id g) g (map_to_list (gx_connections g)).*1 in
  MkShard (driver_abort (gx_driver g)) (gx_reliable g) (gx_connections g).

(** A frame of a Message node: the driver's callback delivers a push. *)
Context `{!StdHash} (frame_size : GatewayToMessageFrame → Z) (gateway_id instance_id : string).

Definition shard_read (k : Z) (ok : bool) (f : MessageToGatewayFrame) (g : gateway_shard) : gateway_shard :=
  let '(status, g) :=
    match ok, f with
    | true, client_forward envelope => deliver envelope g
    | _, _ => (CLIENT_FORWARD_STATUS_UNSPECIFIED, g)
    end in
  MkShard (link_OnReadDone frame_size gateway_id instance_id k ok f status (gx_driver g)).2 (gx_reliable g)
    (gx_connections g).
End connection.
