(* ===== verification/ConnectionTheorems.v ===== *)
(** * What the connections of a Gateway shard guarantee

    Over every interleaving of sends, pushes, timers, acknowledgements, write
    completions, logins, disconnections and events of the driver. *)

From S2P Require Import Prelude Codec Schema Seastar Budget Framing GatewayDriver GatewayDriverTheorems GatewayConnection.
From Stdlib Require Import Ascii.

#[local] Arguments frame : simpl never.

Section theorems.
Context {SEM : Semaphore} (max_writes max_write_bytes max_pending max_pending_bytes : Z).

Definition total (l : list Z) : Z := foldr Z.add 0%Z l.
Definition frame_bytes (f : write_entry) : Z := Z.of_nat (length (we_frame f)).
Definition entry_bytes (e : reliable_entry) : Z := size (re_envelope e).
(** The frames whose bytes a connection accounts for. *)
Definition queued (c : connection) : list write_entry := option_list (cn_flight c) ++ cn_writes c.

(** ** The state of a connection *)

Record connection_ok (c : connection) : Prop := {
  ck_bytes : cn_closed c = false →
    cn_write_bytes c = total (frame_bytes <$> queued c) ∧ (cn_write_bytes c ≤ max_connection_bytes)%Z;
  ck_count : length (cn_writes c) ≤ max_connection_writes;
  ck_kept : cn_closed c = false →
    cn_reliable_bytes c = total (values entry_bytes (cn_reliable c)) ∧ (cn_reliable_bytes c ≤ max_connection_bytes)%Z;
  ck_kept_count : base.size (cn_reliable c) ≤ max_connection_writes;
  ck_closed : cn_closed c = true → cn_writes c = [] ∧ cn_reliable c = ∅;
  ck_entries sequence e : cn_reliable c !! sequence = Some e → (0 < sequence ∧ 1 ≤ re_attempts e ≤ 3)%Z;
  ck_frames : Forall (λ f, we_units f = frame_bytes f) (queued c);
  ck_flight : is_Some (cn_flight c) → cn_loop c = true;
  ck_loop : cn_closed c = false → cn_writing c = cn_loop c ∧ (cn_writes c ≠ [] → cn_loop c = true);
  ck_quit : cn_closed c = false → cn_writer_closed c = true → cn_loop c = true ∧ cn_close_after_write c = true;
  ck_stream : cn_closed c = false → cn_output c ++ (we_frame <$> cn_writes c) = frame <$> cn_sent c;
  ck_prefix : cn_output c `prefix_of` (frame <$> cn_sent c);
  ck_sent : Forall (λ e, (size e ≤ PROTOCOL_SEND_MSS)%Z) (cn_sent c)
}.

(** The units of the frames of the streams. *)
Definition link_units (d : driver) : list capacity_units := mjoin (values (λ l, snd <$> lk_frames l) (gd_links d)).

(** A connection and its share of the budgets; [wr] and [kr] are the units that
    other connections hold. *)
Definition session_ok (wr kr : list capacity_units) (s : session) : Prop :=
  connection_ok (sn_conn s) ∧ driver_inv max_pending max_pending_bytes (sn_driver s) ∧
  balanced max_writes max_write_bytes ((we_units <$> queued (sn_conn s)) ++ wr ++ link_units (sn_driver s))
    (gd_writes (sn_driver s)) ∧
  balanced max_pending max_pending_bytes (kept_units (cn_reliable (sn_conn s)) ++ kr) (sn_reliable s).

(** ** Sums *)

Lemma total_app l1 l2 : total (l1 ++ l2) = (total l1 + total l2)%Z.
Proof. apply sum_app. Qed.
Lemma total_cons x l : total (x :: l) = (x + total l)%Z.
Proof. done. Qed.
Lemma total_frames_nonneg l : (0 ≤ total (frame_bytes <$> l))%Z.
Proof. apply sum_nonneg, Forall_fmap, Forall_true. intros f. unfold frame_bytes. simpl. lia. Qed.
Lemma total_entries_nonneg (m : gmap Z reliable_entry) : (0 ≤ total (values entry_bytes m))%Z.
Proof. apply sum_nonneg, Forall_fmap, Forall_true. intros e. unfold entry_bytes, size. simpl. lia. Qed.
Lemma size_nonneg e : (0 ≤ size e)%Z.
Proof. unfold size. lia. Qed.

Lemma release_all_balanced count bytes units held b :
  balanced count bytes (units ++ held) b → balanced count bytes held (release_all units b).
Proof.
  revert held. induction units as [|u units IH]; intros held Hb; simpl; [done|].
  apply balanced_release, IH. eapply balanced_perm; [|exact Hb]. simpl. apply Permutation_middle.
Qed.

Lemma alter_values {V A} (f : V → A) (m : gmap Z V) k g :
  (∀ x, f (g x) = f x) → values f (alter g k m) ≡ₚ values f m.
Proof.
  intros Hf. destruct (m !! k) as [x|] eqn:E.
  - assert (alter g k m = <[k := g x]> m) as ->.
    { apply map_eq. intros i. destruct (decide (i = k)) as [->|Hne].
      - by rewrite lookup_alter_eq, lookup_insert_eq, E.
      - by rewrite lookup_alter_ne, lookup_insert_ne. }
    by apply (values_same _ _ _ x).
  - by rewrite alter_id by (intros ? ?; congruence).
Qed.

Lemma link_units_change d k f :
  (∀ l, lk_frames (f l) = lk_frames l) → link_units (change_link k f d) ≡ₚ link_units d.
Proof. intros Hf. unfold link_units. simpl. f_equiv. apply alter_values. intros l. by rewrite Hf. Qed.

Lemma link_units_resolve_all P out d :
  link_units (resolve_all P out d) ≡ₚ link_units d ∧ gd_writes (resolve_all P out d) = gd_writes d.
Proof.
  unfold resolve_all. generalize (filter (λ kp, P kp.1 kp.2 = true) (map_to_list (gd_pending d))). intros l.
  revert d. induction l as [|ip l IH]; intros d; simpl; [done|]. destruct (IH (resolve ip.1 ip.2 out d)) as [-> ->].
  split; [|done]. unfold resolve.
  by rewrite <- (link_units_change d (pc_link ip.2) remove_inflight).
Qed.

(** ** close *)

Lemma close_closed s : cn_closed (sn_conn (connection_close s)) = true.
Proof. unfold connection_close. by destruct (cn_closed (sn_conn s)) eqn:E. Qed.
Lemma close_id s : sn_id (connection_close s) = sn_id s.
Proof. unfold connection_close. by destruct (cn_closed (sn_conn s)). Qed.

(** An open connection, in whatever state its queue and its loop are. *)
Lemma close_open wr kr s :
  cn_closed (sn_conn s) = false →
  Forall (λ f, we_units f = frame_bytes f) (option_list (cn_flight (sn_conn s))) →
  (is_Some (cn_flight (sn_conn s)) → cn_loop (sn_conn s) = true) →
  cn_output (sn_conn s) `prefix_of` (frame <$> cn_sent (sn_conn s)) →
  Forall (λ e, (size e ≤ PROTOCOL_SEND_MSS)%Z) (cn_sent (sn_conn s)) →
  driver_inv max_pending max_pending_bytes (sn_driver s) →
  balanced max_writes max_write_bytes ((we_units <$> queued (sn_conn s)) ++ wr ++ link_units (sn_driver s))
    (gd_writes (sn_driver s)) →
  balanced max_pending max_pending_bytes (kept_units (cn_reliable (sn_conn s)) ++ kr) (sn_reliable s) →
  session_ok wr kr (connection_close s).
Proof.
  intros E H7 H8 H12 H13 Hd Hw Hk. unfold connection_close. rewrite E.
  destruct (link_units_resolve_all (λ id _, String.prefix (sn_id s +:+ ":") id) (Throw Stopped) (sn_driver s)) as [Hl Hwr].
  split_and!.
  - split; simpl; try done; [apply Nat.le_0_l|rewrite map_size_empty; apply Nat.le_0_l|].
    unfold queued. simpl. by rewrite app_nil_r.
  - pose proof (cancel_inv max_pending max_pending_bytes (sn_driver s) (sn_id s) Hd) as [Hok Hdu].
    split; [by eapply ok_links_same; [..|exact Hok]|exact Hdu].
  - simpl. apply release_all_balanced. unfold cancel. rewrite Hwr. eapply balanced_perm; [|exact Hw].
    unfold queued. simpl. unfold link_units at 2. simpl. fold (link_units (cancel (sn_id s) (sn_driver s))).
    unfold cancel. rewrite Hl, app_nil_r, fmap_app. solve_Permutation.
  - simpl. apply release_all_balanced. eapply balanced_perm; [|exact Hk]. unfold kept_units. by rewrite values_empty.
Qed.

Lemma close_ok wr kr s : session_ok wr kr s → session_ok wr kr (connection_close s).
Proof.
  intros Hok. destruct (cn_closed (sn_conn s)) eqn:E; [unfold connection_close; by rewrite E|].
  destruct Hok as (Hc & Hd & Hw & Hk). destruct Hc. apply close_open; try done.
  unfold queued in *. by apply Forall_app in ck_frames0 as [? _].
Qed.

(** ** send *)

(** The connection once an envelope is queued. *)
Definition enqueued (e : string) (units : capacity_units) (c : connection) : connection :=
  MkConnection (cn_uid c) (cn_lease c) (cn_writes c ++ [MkWriteEntry (frame e) units]) (cn_reliable c)
    (cn_write_bytes c + (size e + sizeof_uint32)) (cn_reliable_bytes c) true (cn_closed c) (cn_close_after_write c)
    (cn_writer_closed c) true (cn_flight c) (cn_sent c ++ [e]) (cn_output c).

Lemma frame_bytes_frame e units : frame_bytes (MkWriteEntry (frame e) units) = (size e + sizeof_uint32)%Z.
Proof. apply frame_length. Qed.

Lemma u64_room n : (0 ≤ n ≤ max_connection_bytes)%Z → u64 (max_connection_bytes - n) = (max_connection_bytes - n)%Z.
Proof. intros Hn. apply u64_id. unfold max_connection_bytes, two64 in *. lia. Qed.

Lemma enqueued_ok e c :
  connection_ok c → cn_closed c = false → (size e ≤ PROTOCOL_SEND_MSS)%Z → length (cn_writes c) < max_connection_writes →
  (size e + sizeof_uint32 ≤ max_connection_bytes - cn_write_bytes c)%Z →
  connection_ok (enqueued e (size e + sizeof_uint32)%Z c).
Proof.
  intros [H1 H2 H3 H4 H5 H6 H7 H8 H9 H10 H11 H12 H13] Hc He Hn Hb.
  assert (queued (enqueued e (size e + sizeof_uint32)%Z c) = queued c ++ [MkWriteEntry (frame e) (size e + sizeof_uint32)%Z]) as Eq.
  { unfold queued. simpl. by rewrite (assoc_L (++)). }
  split; simpl; try done.
  - intros _. rewrite Eq, fmap_app, total_app. destruct (H1 Hc) as [<- ?]. simpl. rewrite frame_bytes_frame. lia.
  - rewrite length_app. simpl. lia.
  - congruence.
  - rewrite Eq. apply Forall_app. split; [done|]. apply Forall_singleton. by rewrite frame_bytes_frame.
  - intros _ Hw. destruct (H10 Hc Hw). done.
  - intros _. rewrite !fmap_app, (assoc_L (++)), H11 by done. done.
  - rewrite fmap_app. by apply prefix_app_r.
  - apply Forall_app. split; [done|]. by apply Forall_singleton.
Qed.

Lemma send_spec wr kr e s :
  session_ok wr kr s →
  let '(b, s') := connection_send e s in
  session_ok wr kr s' ∧ sn_id s' = sn_id s ∧ b = negb (cn_closed (sn_conn s')) ∧
  (b = true → sn_conn s' = enqueued e (size e + sizeof_uint32)%Z (sn_conn s) ∧ sn_reliable s' = sn_reliable s).
Proof.
  intros Hok. unfold connection_send. destruct (cn_closed (sn_conn s)) eqn:Hc; [by rewrite Hc|].
  destruct (_ || _) eqn:Hg.
  { split_and!; [by apply close_ok|apply close_id|by rewrite close_closed|done]. }
  apply orb_false_iff in Hg as [[He%Z.ltb_ge Hn%bool_decide_eq_false]%orb_false_iff Hb%Z.ltb_ge].
  destruct Hok as (Hconn & Hd & Hw & Hk). destruct (ck_bytes _ Hconn Hc) as [Hwb Hwm].
  pose proof (total_frames_nonneg (queued (sn_conn s))) as Hnn. rewrite u64_room in Hb by lia.
  pose proof (size_nonneg e) as Hsz.
  destruct (acquire _ _) as [[units|x] b] eqn:Ea; apply balanced_acquire with (count := max_writes)
    (bytes := max_write_bytes) (held := (we_units <$> queued (sn_conn s)) ++ wr ++ link_units (sn_driver s)) in Ea as Ha;
    try (unfold sizeof_uint32; lia); try done.
  2: { split_and!; [|by rewrite close_id|by rewrite close_closed|done]. apply close_ok. split_and!; try done.
       - destruct Hd as [Hd1 Hd2]. split; [by eapply ok_links_same; [..|exact Hd1]|exact Hd2].
       - by destruct Ha. }
  apply acquire_spec in Ea as Es; [|unfold sizeof_uint32; lia]. destruct Es as [[[= ->] _]|[[=] _]].
  assert (cn_write_bytes (sn_conn s) + (size e + sizeof_uint32) < two64)%Z as Hsmall.
  { unfold max_connection_bytes, two64 in *. lia. }
  rewrite (u64_id (cn_write_bytes _ + _)) by (unfold sizeof_uint32 in *; lia).
  destruct (ck_loop _ Hconn Hc) as [Hwl _].
  match goal with |- context [if cn_writing (sn_conn s) then ?s1 else _] => set (s0 := s1) end.
  assert ((if cn_writing (sn_conn s) then s0 else start_loop s0) =
    MkSession (sn_id s) (enqueued e (size e + sizeof_uint32)%Z (sn_conn s)) (gd_set_writes b (sn_driver s)) (sn_reliable s)) as ->.
  { destruct (cn_writing (sn_conn s)) eqn:Ew.
    - unfold s0, sn_set, sn_set_writes, cn_queue, enqueued. simpl. by rewrite <- Hwl, Ew.
    - unfold start_loop. simpl. destruct (cn_writer_closed (sn_conn s)) eqn:Eq.
      { destruct (ck_quit _ Hconn Hc Eq). congruence. }
      unfold s0, sn_set, sn_set_writes, cn_queue, cn_run, enqueued. simpl. by rewrite Eq. }
  split_and!; [|done|simpl; by rewrite Hc|done]. split_and!; simpl.
  - apply enqueued_ok; try done. lia.
  - destruct Hd as [Hd1 Hd2]. split; [by eapply ok_links_same; [..|exact Hd1]|exact Hd2].
  - eapply balanced_perm; [|exact Ha]. unfold queued. simpl. change (link_units (gd_set_writes b (sn_driver s))) with (link_units (sn_driver s)).
    rewrite !fmap_app. simpl. solve_Permutation.
  - done.
Qed.

(** ** The write loop *)

Lemma take_ok wr kr s :
  session_ok wr kr s → cn_closed (sn_conn s) = false → cn_loop (sn_conn s) = true → cn_flight (sn_conn s) = None →
  session_ok wr kr (loop_take s).
Proof.
  intros Hok Hc Hl Hf. unfold loop_take. destruct (cn_writes (sn_conn s)) as [|f writes] eqn:Ew; [done|].
  destruct Hok as ([H1 H2 H3 H4 H5 H6 H7 H8 H9 H10 H11 H12 H13] & Hd & Hw & Hk).
  unfold queued in *. rewrite Hf, Ew in *. simpl in *. specialize (H11 Hc).
  split_and!; simpl; [|done..]. split; simpl; try done; [lia|congruence|intros _; by destruct (H9 Hc)| |].
  - intros _. by rewrite <- (assoc_L (++)).
  - rewrite <- H11. exists (we_frame <$> writes). by rewrite <- (assoc_L (++)).
Qed.

Lemma written_ok wr kr s : session_ok wr kr s → session_ok wr kr (loop_written s).
Proof.
  intros Hok. unfold loop_written. destruct (cn_flight (sn_conn s)) as [f|] eqn:Hf; [|done].
  destruct Hok as ([H1 H2 H3 H4 H5 H6 H7 H8 H9 H10 H11 H12 H13] & [Hd1 Hd2] & Hw & Hk).
  unfold queued in *. rewrite Hf in *. simpl in *. apply Forall_cons in H7 as [Hfu H7].
  assert (connection_ok (cn_run (cn_writing (sn_conn s)) (cn_loop (sn_conn s)) None (cn_output (sn_conn s))
    (if cn_closed (sn_conn s) then sn_conn s else cn_queue (cn_writes (sn_conn s))
       (u64 (cn_write_bytes (sn_conn s) - frame_bytes f)) (cn_sent (sn_conn s)) (sn_conn s)))) as Hconn.
  { destruct (cn_closed (sn_conn s)) eqn:Hc; split; unfold queued; simpl; rewrite ?Hc; try done; try (by intros [? ?]).
    intros _. destruct H1 as [H1 Hm]; [done|]. change (list_fmap write_entry Z frame_bytes) with (fmap (M:=list) frame_bytes) in H1. pose proof (total_frames_nonneg (cn_writes (sn_conn s))).
    assert (0 ≤ frame_bytes f)%Z by (unfold frame_bytes; lia). unfold max_connection_bytes, two64 in *.
    rewrite u64_id by (unfold two64; lia). lia. }
  split_and!; [by destruct (cn_closed (sn_conn s))| | |].
  - split; [by eapply ok_links_same; [..|exact Hd1]|exact Hd2].
  - simpl. apply balanced_release. eapply balanced_perm; [|exact Hw]. by destruct (cn_closed (sn_conn s)).
  - simpl. by destruct (cn_closed (sn_conn s)).
Qed.

Lemma failed_ok wr kr s : session_ok wr kr s → session_ok wr kr (loop_failed s).
Proof.
  intros Hok. unfold loop_failed. destruct (cn_flight (sn_conn s)) as [f|] eqn:Hf; [|done].
  destruct Hok as ([H1 H2 H3 H4 H5 H6 H7 H8 H9 H10 H11 H12 H13] & [Hd1 Hd2] & Hw & Hk).
  unfold queued in *. rewrite Hf in *. simpl in *. apply Forall_cons in H7 as [Hfu H7].
  set (b := release (we_units f) (gd_writes (sn_driver s))).
  assert (driver_inv max_pending max_pending_bytes (gd_set_writes b (sn_driver s))) as Hd.
  { split; [by eapply ok_links_same; [..|exact Hd1]|exact Hd2]. }
  assert (balanced max_writes max_write_bytes ((we_units <$> cn_writes (sn_conn s)) ++ wr ++ link_units (sn_driver s)) b) as Hb.
  { by apply balanced_release. }
  destruct (cn_closed (sn_conn s)) eqn:E.
  - unfold connection_close. simpl. rewrite E. split_and!; try done.
    split; unfold queued; simpl; rewrite ?E; try done; by intros [].
  - apply close_open; simpl; try done; by intros [].
Qed.

Lemma exit_ok wr kr s :
  session_ok wr kr s → cn_flight (sn_conn s) = None → (cn_closed (sn_conn s) = false → cn_writes (sn_conn s) = []) →
  session_ok wr kr (loop_exit s).
Proof.
  intros ([H1 H2 H3 H4 H5 H6 H7 H8 H9 H10 H11 H12 H13] & Hd & Hw & Hk) Hf Hwr. unfold loop_exit, queued in *.
  destruct (cn_closed (sn_conn s)) eqn:E.
  - assert (session_ok wr kr (sn_set (cn_run false false (cn_flight (sn_conn s)) (cn_output (sn_conn s)) (sn_conn s)) s)).
    { split_and!; try done. split; unfold queued; simpl; rewrite ?E, ?Hf in *; try done; by intros []. }
    destruct (cn_close_after_write (sn_conn s)); [by apply close_ok|done].
  - rewrite (Hwr eq_refl), Hf in *. simpl in *. destruct (cn_close_after_write (sn_conn s)) eqn:Ea.
    + apply close_open; unfold queued; simpl; rewrite ?Hwr, ?Hf; done.
    + split_and!; unfold queued; simpl; rewrite ?Hwr, ?Hf; try done.
      split; unfold queued; simpl; rewrite ?E, ?Hwr, ?Hf; try done.
      intros _ Hq. destruct (H10 eq_refl Hq). congruence.
Qed.

Lemma bind_ok wr kr uid lease s : session_ok wr kr s → session_ok wr kr (connection_bind uid lease s).
Proof. intros ([] & Hd & Hw & Hk). by split_and!; [split|..]. Qed.

(** ** Reliable pushes *)

Lemma keep_ok m c :
  connection_ok c → cn_closed c = false → (total (values entry_bytes m) ≤ max_connection_bytes)%Z →
  base.size m ≤ max_connection_writes →
  (∀ sequence e, m !! sequence = Some e → (0 < sequence ∧ 1 ≤ re_attempts e ≤ 3)%Z) →
  connection_ok (cn_keep m (total (values entry_bytes m)) c).
Proof. intros [] Hc Hb Hs He. split; try done. simpl. congruence. Qed.

Lemma total_perm l l' : l ≡ₚ l' → total l = total l'.
Proof. apply sum_perm. Qed.

Lemma kept_delete c sequence e :
  connection_ok c → cn_closed c = false → cn_reliable c !! sequence = Some e →
  u64 (cn_reliable_bytes c - size (re_envelope e)) = total (values entry_bytes (delete sequence (cn_reliable c))) ∧
  (0 ≤ total (values entry_bytes (delete sequence (cn_reliable c))) ≤ max_connection_bytes)%Z.
Proof.
  intros Hc E He. destruct (ck_kept _ Hc E) as [Hb Hm]. rewrite Hb in *.
  rewrite (total_perm _ _ (values_delete entry_bytes _ _ _ He)), total_cons in *.
  pose proof (total_entries_nonneg (delete sequence (cn_reliable c))). change (size (re_envelope e)) with (entry_bytes e).
  assert (0 ≤ entry_bytes e)%Z by apply size_nonneg. unfold max_connection_bytes in *.
  rewrite u64_id by (unfold two64; lia). lia.
Qed.

Lemma acknowledge_ok wr kr sequence s :
  session_ok wr kr s → session_ok wr kr (connection_acknowledge sequence s).
Proof.
  intros Hok. unfold connection_acknowledge. destruct (cn_reliable (sn_conn s) !! sequence) as [e|] eqn:He; [|done].
  destruct Hok as (Hc & Hd & Hw & Hk). destruct (cn_closed (sn_conn s)) eqn:E.
  { destruct (ck_closed _ Hc E) as [_ Hr]. by rewrite Hr in He. }
  destruct (kept_delete _ _ _ Hc E He) as [-> [_ Hm]]. split_and!; [|done|done|].
  - simpl. apply keep_ok; [done..| |].
    + etrans; [|apply (ck_kept_count _ Hc)]. apply map_subseteq_size, delete_subseteq.
    + intros q e' [_ Hq]%lookup_delete_Some. by eapply ck_entries.
  - simpl. apply balanced_release. eapply balanced_perm; [|exact Hk]. unfold kept_units.
    by rewrite (values_delete _ _ _ _ He).
Qed.

(** An entry is put, or replaced, while the connection is open. *)
Lemma set_entry_ok wr kr s sequence e :
  session_ok wr (re_units e :: kr) s → cn_closed (sn_conn s) = false → cn_reliable (sn_conn s) !! sequence = None →
  (0 < sequence)%Z → (1 ≤ re_attempts e ≤ 3)%Z → base.size (cn_reliable (sn_conn s)) < max_connection_writes →
  (size (re_envelope e) ≤ max_connection_bytes - cn_reliable_bytes (sn_conn s))%Z →
  session_ok wr kr (set_entry sequence e (u64 (cn_reliable_bytes (sn_conn s) + size (re_envelope e))) s).
Proof.
  intros (Hc & Hd & Hw & Hk) E Hnew Hs Ha Hn Hb. destruct (ck_kept _ Hc E) as [Hkb Hm].
  pose proof (total_entries_nonneg (cn_reliable (sn_conn s))). pose proof (size_nonneg (re_envelope e)).
  assert (u64 (cn_reliable_bytes (sn_conn s) + size (re_envelope e)) =
    total (values entry_bytes (<[sequence := e]> (cn_reliable (sn_conn s))))) as ->.
  { rewrite (total_perm _ _ (values_insert entry_bytes _ _ e Hnew)), total_cons, <- Hkb. unfold entry_bytes.
    rewrite u64_id; [lia|]. unfold max_connection_bytes, two64 in *. lia. }
  split_and!; [|done|done|].
  - simpl. apply keep_ok; [done|done| | |].
    + rewrite (total_perm _ _ (values_insert entry_bytes _ _ e Hnew)), total_cons, <- Hkb. unfold entry_bytes. lia.
    + rewrite map_size_insert_None by done. lia.
    + intros q e' [[<- <-]|[_ Hq]]%lookup_insert_Some; [done|]. by eapply ck_entries.
  - simpl. eapply balanced_perm; [|exact Hk]. unfold kept_units. rewrite values_insert by done.
    simpl. by rewrite <- Permutation_middle.
Qed.

Lemma total_replace (m : gmap Z reliable_entry) sequence e0 e :
  m !! sequence = Some e0 →
  total (values entry_bytes (<[sequence := e]> m)) =
    (size (re_envelope e) + total (values entry_bytes (delete sequence m)))%Z.
Proof. intros He. by rewrite (total_perm _ _ (values_replace entry_bytes _ _ _ e He)), total_cons. Qed.

Lemma replace_ok wr kr s sequence e0 e bytes b :
  session_ok wr kr s → cn_closed (sn_conn s) = false → cn_reliable (sn_conn s) !! sequence = Some e0 →
  (1 ≤ re_attempts e ≤ 3)%Z →
  (size (re_envelope e) ≤ max_connection_bytes - total (values entry_bytes (delete sequence (cn_reliable (sn_conn s)))))%Z →
  bytes = total (values entry_bytes (<[sequence := e]> (cn_reliable (sn_conn s)))) →
  balanced max_pending max_pending_bytes
    (re_units e :: kept_units (delete sequence (cn_reliable (sn_conn s))) ++ kr) b →
  session_ok wr kr (set_entry sequence e bytes (sn_set_reliable b s)).
Proof.
  intros (Hc & Hd & Hw & Hk) E He Ha Hb -> Hbal. destruct (kept_delete _ _ _ Hc E He) as [_ Hm].
  split_and!; [|done|done|].
  - simpl. apply keep_ok; [done|done| | |].
    + rewrite (total_replace _ _ _ _ He). lia.
    + rewrite map_size_insert_Some by eauto. apply (ck_kept_count _ Hc).
    + intros q e' [[<- <-]|[_ Hq]]%lookup_insert_Some; [|by eapply ck_entries].
      destruct (ck_entries _ Hc _ _ He). done.
  - simpl. eapply balanced_perm; [|exact Hbal]. unfold kept_units. by rewrite (values_replace _ _ _ _ _ He).
Qed.

(** The same budget, when the units stay. *)
Lemma replace_same wr kr s sequence e0 e bytes :
  session_ok wr kr s → cn_closed (sn_conn s) = false → cn_reliable (sn_conn s) !! sequence = Some e0 →
  (1 ≤ re_attempts e ≤ 3)%Z → re_units e = re_units e0 →
  (size (re_envelope e) ≤ max_connection_bytes - total (values entry_bytes (delete sequence (cn_reliable (sn_conn s)))))%Z →
  bytes = total (values entry_bytes (<[sequence := e]> (cn_reliable (sn_conn s)))) →
  session_ok wr kr (set_entry sequence e bytes s).
Proof.
  intros Hok E He Ha Hu Hb Hbytes. pose proof Hok as (_ & _ & _ & Hk).
  assert (s = sn_set_reliable (sn_reliable s) s) as -> by (by destruct s).
  apply (replace_ok _ _ _ _ e0); try done. eapply balanced_perm; [|exact Hk].
  rewrite Hu. unfold kept_units. by rewrite (values_delete _ _ _ _ He).
Qed.

Lemma entry_fits c sequence e :
  connection_ok c → cn_closed c = false → cn_reliable c !! sequence = Some e →
  (size (re_envelope e) ≤ max_connection_bytes - total (values entry_bytes (delete sequence (cn_reliable c))))%Z.
Proof.
  intros Hc E He. destruct (ck_kept _ Hc E) as [Hb Hm]. rewrite Hb in Hm.
  rewrite (total_perm _ _ (values_delete entry_bytes _ _ _ He)), total_cons in Hm. unfold entry_bytes at 1 in Hm. lia.
Qed.

Lemma kept_split (m : gmap Z reliable_entry) sequence e kr b :
  m !! sequence = Some e → balanced max_pending max_pending_bytes (kept_units m ++ kr) b →
  balanced max_pending max_pending_bytes (re_units e :: kept_units (delete sequence m) ++ kr) b.
Proof. intros He. apply balanced_perm. unfold kept_units. by rewrite (values_delete _ _ _ _ He). Qed.

(** A push was refused and the connection is closed, or it is queued and kept. *)
Definition pushed (e : string) (sequence : Z) (s : session) (b : bool) (s' : session) : Prop :=
  b = negb (cn_closed (sn_conn s')) ∧
  (b = true → cn_sent (sn_conn s') = cn_sent (sn_conn s) ++ [e] ∧ cn_uid (sn_conn s') = cn_uid (sn_conn s) ∧
     cn_lease (sn_conn s') = cn_lease (sn_conn s) ∧
     cn_reliable (sn_conn s') =
       if (sequence <=? 0)%Z then cn_reliable (sn_conn s)
       else <[sequence := MkReliableEntry e (size e) 1 true]> (cn_reliable (sn_conn s))).

Lemma pushed_closed e sequence s s' : pushed e sequence s false (connection_close s').
Proof. split; [by rewrite close_closed|done]. Qed.

Lemma send_replacement_ok wr kr e sequence e0 s :
  session_ok wr kr s → (0 < sequence)%Z → cn_reliable (sn_conn s) !! sequence = Some e0 →
  let r := send_reliable e sequence s in session_ok wr kr r.2 ∧ pushed e sequence s r.1 r.2.
Proof.
  intros Hok Hs He. unfold send_reliable. rewrite (proj2 (Z.leb_gt sequence 0)), He by done.
  destruct (cn_closed (sn_conn s)) eqn:E.
  { destruct Hok as [Hc _]. destruct (ck_closed _ Hc E) as [_ Hr]. by rewrite Hr in He. }
  pose proof Hok as (Hc & _ & _ & Hk). destruct (kept_delete _ _ _ Hc E He) as [-> Hm].
  apply (kept_split _ _ _ _ _ He) in Hk. rewrite u64_room by done.
  destruct (Z.ltb_spec (max_connection_bytes - total (values entry_bytes
    (delete sequence (cn_reliable (sn_conn s))))) (size e)) as [Hx|Hx].
  { split; [by apply close_ok|apply pushed_closed]. }
  destruct (resize (re_units e0) (size e) (sn_reliable s)) as [r b] eqn:Er.
  pose proof (balanced_resize _ _ _ _ _ _ _ _ (size_nonneg e) Er Hk) as Hb.
  destruct r as [units|x].
  2: { destruct Hb as [_ ->]. split; [apply close_ok; by destruct s|apply pushed_closed]. }
  destruct Hb as [-> Hb].
  cbv zeta. set (e1 := MkReliableEntry (re_envelope e0) (size e) (re_attempts e0) (re_armed e0)).
  assert (session_ok wr kr (set_entry sequence e1 (cn_reliable_bytes (sn_conn s)) (sn_set_reliable b s))) as Hok1.
  { apply (replace_ok _ _ _ _ e0); try done; [by destruct (ck_entries _ Hc _ _ He)|exact (entry_fits _ _ _ Hc E He)|].
    rewrite (total_replace _ _ _ _ He). simpl. destruct (ck_kept _ Hc E) as [-> _].
    by rewrite (total_perm _ _ (values_delete entry_bytes _ _ _ He)), total_cons. }
  pose proof (send_spec wr kr e _ Hok1) as Hsend. destruct (connection_send e _) as [sent s2].
  destruct Hsend as (Hok2 & _ & -> & Hs2). destruct (cn_closed (sn_conn s2)) eqn:E2.
  { split; [done|]. split; [simpl; by rewrite E2|done]. }
  simpl. destruct Hs2 as [Hs2 _]; [done|].
  assert (cn_reliable (sn_conn s2) = <[sequence := e1]> (cn_reliable (sn_conn s))) as Hr2 by (by rewrite Hs2).
  split.
  2: { split; simpl; [by rewrite E2|]. intros _. by rewrite Hr2, insert_insert_eq, (proj2 (Z.leb_gt _ _)), Hs2. }
  apply (replace_same _ _ _ _ e1); try done; rewrite Hr2.
  - apply lookup_insert_eq.
  - by rewrite delete_insert_eq.
  - rewrite insert_insert_eq, (total_replace _ _ _ _ He). simpl. rewrite u64_id; [lia|].
    pose proof (size_nonneg e). unfold max_connection_bytes, two64 in *. lia.
Qed.

Lemma send_new_ok wr kr e sequence s :
  session_ok wr kr s → (0 < sequence)%Z → cn_reliable (sn_conn s) !! sequence = None →
  let r := send_reliable e sequence s in session_ok wr kr r.2 ∧ pushed e sequence s r.1 r.2.
Proof.
  intros Hok Hs He. unfold send_reliable. rewrite (proj2 (Z.leb_gt sequence 0)), He by done.
  destruct (_ || _) eqn:Hg; [split; [by apply close_ok|apply pushed_closed]|].
  apply orb_false_iff in Hg as [[E Hn%bool_decide_eq_false]%orb_false_iff Hx%Z.ltb_ge].
  pose proof Hok as (Hc & Hd & Hw & Hk). destruct (ck_kept _ Hc E) as [Hkb Hkm].
  pose proof (total_entries_nonneg (cn_reliable (sn_conn s))). rewrite u64_room in Hx by lia.
  destruct (acquire (size e) (sn_reliable s)) as [r b] eqn:Ea. apply acquire_spec in Ea as Es; [|apply size_nonneg].
  pose proof (balanced_acquire _ _ _ _ _ _ _ (size_nonneg e) Ea Hk) as Hb.
  destruct r as [units|x]; [|destruct Hb as [_ Hb]; split; [by apply close_ok|apply pushed_closed]].
  destruct Es as [[[= ->] _]|[[=] _]].
  assert (session_ok wr (size e :: kr) (sn_set_reliable b s)) as Hok1.
  { split_and!; try done. eapply balanced_perm; [|exact Hb]. simpl. by rewrite <- Permutation_middle. }
  pose proof (send_spec wr (size e :: kr) e _ Hok1) as Hsend. destruct (connection_send e _) as [sent s2].
  destruct Hsend as (Hok2 & _ & -> & Hs2). destruct (cn_closed (sn_conn s2)) eqn:E2; simpl.
  - split; [|split; simpl; [by rewrite E2|done]]. destruct Hok2 as (Hc2 & Hd2 & Hw2 & Hk2). split_and!; try done. simpl. apply balanced_release.
    eapply balanced_perm; [|exact Hk2]. by rewrite <- Permutation_middle.
  - destruct Hs2 as [Hs2 _]; [done|]. split.
    2: { split; simpl; [by rewrite E2|]. intros _. by rewrite (proj2 (Z.leb_gt _ _)), Hs2. }
    by apply set_entry_ok; rewrite ?Hs2; simpl; try done; lia.
Qed.

Lemma send_reliable_ok wr kr e sequence s :
  session_ok wr kr s →
  let r := send_reliable e sequence s in session_ok wr kr r.2 ∧ pushed e sequence s r.1 r.2.
Proof.
  intros Hok. destruct (Z.leb_spec sequence 0) as [Hs|Hs].
  - unfold send_reliable, pushed. rewrite (proj2 (Z.leb_le _ _)) by done.
    pose proof (send_spec wr kr e s Hok) as H. destruct (connection_send e s) as [b s'].
    destruct H as (Hok' & _ & Hb & Hs'). split_and!; [done|done|]. intros Hb'. simpl. destruct (Hs' Hb') as [-> _]. done.
  - destruct (cn_reliable (sn_conn s) !! sequence) as [e0|] eqn:He; [by eapply send_replacement_ok|by apply send_new_ok].
Qed.

Lemma retry_ok wr kr sequence s : session_ok wr kr s → session_ok wr kr (retry sequence s).
Proof.
  intros Hok. unfold retry. destruct (cn_reliable (sn_conn s) !! sequence) as [e0|] eqn:He; [|done].
  destruct (cn_closed (sn_conn s)) eqn:E; [done|]. destruct (Z.leb_spec 3 (re_attempts e0)); [by apply acknowledge_ok|].
  pose proof Hok as (Hc & _). destruct (ck_entries _ Hc _ _ He) as [Hs Ha]. destruct (ck_kept _ Hc E) as [Hkb Hkm].
  assert (∀ armed, let e := MkReliableEntry (re_envelope e0) (re_units e0) (re_attempts e0 + 1) armed in
    total (values entry_bytes (<[sequence := e]> (cn_reliable (sn_conn s)))) = cn_reliable_bytes (sn_conn s)) as Hsame.
  { intros armed. cbv zeta. rewrite Hkb. apply total_perm. by apply (values_same _ _ _ e0). }
  cbv zeta. set (e1 := MkReliableEntry (re_envelope e0) (re_units e0) (re_attempts e0 + 1) false).
  assert (session_ok wr kr (set_entry sequence e1 (cn_reliable_bytes (sn_conn s)) s)) as Hok1.
  { apply (replace_same _ _ _ _ e0); try done; [simpl; lia|exact (entry_fits _ _ _ Hc E He)|]. symmetry. apply (Hsame false). }
  pose proof (send_spec wr kr (re_envelope e0) _ Hok1) as Hsend. destruct (connection_send (re_envelope e0) _) as [sent s2].
  destruct Hsend as (Hok2 & _ & -> & Hs2). destruct (cn_closed (sn_conn s2)) eqn:E2; [done|]. simpl.
  destruct Hs2 as [Hs2 _]; [done|].
  assert (cn_reliable (sn_conn s2) = <[sequence := e1]> (cn_reliable (sn_conn s))) as Hr2 by (by rewrite Hs2).
  apply (replace_same _ _ _ _ e1); try done; rewrite ?Hr2; [apply lookup_insert_eq|simpl; lia| |].
  - rewrite delete_insert_eq. exact (entry_fits _ _ _ Hc E He).
  - rewrite insert_insert_eq. etrans; [|symmetry; apply (Hsame true)]. by rewrite Hs2.
Qed.

(** ** The driver's use of the write budget *)

Context `{!StdHash} (frame_size : GatewayToMessageFrame → Z) (command_size : CommandEnvelope → Z)
  (gateway_id instance_id : string) (frame_size_pos : ∀ f, (0 ≤ frame_size f)%Z)
  (command_size_pos : ∀ c, (0 ≤ command_size c)%Z).

(** What the driver does with the budget shows in the frames of its streams. *)
Definition keeps_units (d d' : driver) : Prop := ∀ held,
  balanced max_writes max_write_bytes (held ++ link_units d) (gd_writes d) →
  balanced max_writes max_write_bytes (held ++ link_units d') (gd_writes d').

Lemma keeps_same d d' : link_units d' ≡ₚ link_units d → gd_writes d' = gd_writes d → keeps_units d d'.
Proof. intros Hl Hw held. rewrite Hw. apply balanced_perm. by rewrite Hl. Qed.
Lemma keeps_trans d1 d2 d3 : keeps_units d1 d2 → keeps_units d2 d3 → keeps_units d1 d3.
Proof. intros H1 H2 held Hb. by apply H2, H1. Qed.
Lemma keeps_change d k f : (∀ l, lk_frames (f l) = lk_frames l) → keeps_units d (change_link k f d).
Proof. intros Hf. apply keeps_same; [by apply link_units_change|done]. Qed.
Lemma keeps_stop d k : keeps_units d (link_stop k d).
Proof.
  unfold link_stop. destruct (gd_links d !! k) as [l|]; [|by apply keeps_same].
  destruct (lk_stopping l); [by apply keeps_same|by apply keeps_change].
Qed.
Lemma keeps_resolve_all P out d : keeps_units d (resolve_all P out d).
Proof. destruct (link_units_resolve_all P out d). by apply keeps_same. Qed.

Lemma alter_insert {V} (m : gmap Z V) k x f : m !! k = Some x → alter f k m = <[k := f x]> m.
Proof.
  intros E. apply map_eq. intros i. destruct (decide (i = k)) as [->|Hne].
  - by rewrite lookup_alter_eq, lookup_insert_eq, E.
  - by rewrite lookup_alter_ne, lookup_insert_ne.
Qed.

(** The frames of one stream are replaced. *)
Lemma link_units_frames d b k l fs :
  gd_links d !! k = Some l →
  link_units (change_link k (link_set_frames fs) (gd_set_writes b d)) ≡ₚ
    (snd <$> fs) ++ mjoin (values (λ l, snd <$> lk_frames l) (delete k (gd_links d))) ∧
  link_units d ≡ₚ (snd <$> lk_frames l) ++ mjoin (values (λ l, snd <$> lk_frames l) (delete k (gd_links d))).
Proof.
  intros Hl. unfold link_units. simpl. rewrite (alter_insert _ _ _ _ Hl), (values_replace _ _ _ _ _ Hl).
  split; [done|]. by rewrite (values_delete _ _ _ _ Hl).
Qed.

Lemma keeps_enqueue d k f : keeps_units d (link_enqueue frame_size k f d).2.
Proof.
  unfold link_enqueue. destruct (gd_links d !! k) as [l|] eqn:Hl; [|by apply keeps_same].
  destruct (lk_stopping l); [by apply keeps_same|].
  destruct (acquire (frame_size f) (gd_writes d)) as [[u|e] b] eqn:Ea; simpl; intros held Hb;
    pose proof (balanced_acquire _ _ _ _ _ _ _ (frame_size_pos f) Ea Hb) as Ha; simpl in Ha; [|by destruct Ha].
  destruct (link_units_frames d b k l (lk_frames l ++ [(f, u)]) Hl) as [E1 E2].
  eapply balanced_perm; [|exact Ha].
  transitivity (held ++ link_units (change_link k (link_set_frames (lk_frames l ++ [(f, u)])) (gd_set_writes b d))).
  - rewrite E1, E2, fmap_app. simpl. solve_Permutation.
  - unfold link_units. simpl. by rewrite !(alter_insert _ _ _ _ Hl).
Qed.

Lemma keeps_frame_done d k : keeps_units d (frame_done k d).
Proof.
  unfold frame_done. destruct (gd_links d !! k) as [l|] eqn:Hl; [|by apply keeps_same].
  destruct (lk_frames l) as [|f fs] eqn:Hf; [by apply keeps_same|]. intros held Hb. simpl. apply balanced_release.
  destruct (link_units_frames d (release f.2 (gd_writes d)) k l fs Hl) as [E1 E2].
  eapply balanced_perm; [|exact Hb]. rewrite E1, E2, Hf. simpl. solve_Permutation.
Qed.

Lemma keeps_pending d m b : keeps_units d (gd_set_pending m b d).
Proof. by apply keeps_same. Qed.

Lemma keeps_send_command d c : keeps_units d (send_command frame_size command_size c d).2.
Proof.
  unfold send_command. destruct (gd_stopping d); [by apply keeps_same|].
  destruct (select_grpc_link (ce_conversation_id c) d) as [k|e]; [|by apply keeps_same].
  destruct (acquire (command_size c) (gd_pending_budget d)) as [[units|e] b]; [|by apply keeps_pending]. cbv zeta.
  case_bool_decide; [by apply keeps_same|].
  pose proof (keeps_enqueue (gd_set_pending (gd_pending d) b d) k (command (set_command_id (correlation c) c))) as He.
  destruct (link_enqueue _ _ _ _) as [[[]|e] d1]; simpl in *.
  - eapply keeps_trans; [apply keeps_pending|]. eapply keeps_trans; [exact He|].
    unfold register_pending. eapply keeps_trans; [|by apply keeps_change]. by apply keeps_same.
  - eapply keeps_trans; [apply keeps_pending|]. eapply keeps_trans; [exact He|apply keeps_pending].
Qed.

Lemma keeps_resolve d id p out : keeps_units d (resolve id p out d).
Proof. apply keeps_same; [|done]. by rewrite <- (link_units_change d (pc_link p) remove_inflight). Qed.

Lemma keeps_read d k ok f status :
  keeps_units d (link_OnReadDone frame_size gateway_id instance_id k ok f status d).2.
Proof.
  unfold link_OnReadDone. cbv zeta.
  eapply keeps_trans; [by apply (keeps_change d k (link_set_reading false))|].
  set (d1 := change_link k (link_set_reading false) d). destruct ok; simpl; [|apply keeps_stop].
  assert (∀ d2, keeps_units d2
    (match on_grpc_frame frame_size gateway_id instance_id k f status d2 with
     | (Ok _, d) => match gd_links d !! k with
                    | Some l => (Ok tt, if negb (lk_stopping l) then change_link k (link_set_reading true) d else d)
                    | None => (Ok tt, d) end
     | (Throw _, d) => (Ok tt, link_stop k d) end).2) as Hp.
  { intros d2. assert (keeps_units d2 (on_grpc_frame frame_size gateway_id instance_id k f status d2).2) as Hf.
    { destruct f as [|r|r|fw|h|n]; simpl; try (by apply keeps_same); [|apply keeps_enqueue].
      destruct (gd_pending d2 !! cres_request_id r) as [p|]; [|by apply keeps_same].
      destruct (pc_link p =? k)%Z; simpl; [apply keeps_resolve|by apply keeps_same]. }
    destruct (on_grpc_frame _ _ _ _ _ _ _) as [[[]|e] d3]; simpl in *.
    - eapply keeps_trans; [exact Hf|]. destruct (gd_links d3 !! k) as [l|]; simpl; [|by apply keeps_same].
      destruct (negb (lk_stopping l)); [by apply keeps_change|by apply keeps_same].
    - eapply keeps_trans; [exact Hf|apply keeps_stop]. }
  destruct f as [|r|r|fw|h|n]; try apply Hp; [|apply keeps_stop].
  eapply keeps_trans; [by apply (keeps_change d1 k (link_set_healthy (rr_accepted r)))|].
  destruct (negb (rr_accepted r)); [apply keeps_stop|apply Hp].
Qed.

Lemma keeps_step d d' : driver_step frame_size command_size gateway_id instance_id d d' → keeps_units d d'.
Proof.
  intros [c _|k l ok f status _ _ _|k l _ _|conn| |k|k|k n sh ep cap Hk _|k l Hl _ Hf|k h].
  - apply keeps_send_command.
  - apply keeps_read.
  - unfold link_OnDone, on_grpc_done.
    eapply keeps_trans; [by apply (keeps_change d k link_set_finished)|apply keeps_resolve_all].
  - apply keeps_resolve_all.
  - unfold driver_abort. destruct (gd_stopping d); [by apply keeps_same|]. cbv zeta.
    match goal with |- keeps_units d (foldl _ ?d0 ?l) => generalize l; assert (keeps_units d d0) as Hd; [by apply keeps_same|] end.
    intros l. revert Hd. generalize (MkDriver (gd_links d) (gd_nodes d) (gd_pending d) (gd_pending_budget d) (gd_writes d)
      true (gd_tickets d) (gd_results d)). induction l as [|k l IH]; intros d0 Hd; simpl; [done|].
    apply IH. eapply keeps_trans; [exact Hd|apply keeps_stop].
  - apply keeps_stop.
  - apply keeps_frame_done.
  - unfold link_start. rewrite bind_eq. simpl. rewrite catch_eq.
    set (d1 := change_link k (link_set_reading true) (add_link gateway_id k n d)).
    assert (keeps_units d d1) as H1.
    { eapply keeps_trans; [|by apply keeps_change]. apply keeps_same; [|done]. unfold link_units. simpl.
      by rewrite values_insert. }
    pose proof (keeps_enqueue d1 k (register_gateway (MkRegisterGateway 1 gateway_id instance_id ep sh cap))) as He.
    destruct (link_enqueue frame_size k _ d1) as [[[]|e] d2]; simpl in *; (eapply keeps_trans; [exact H1|]); [done|].
    eapply keeps_trans; [exact He|apply keeps_stop].
  - apply keeps_same; [|done]. unfold link_units. simpl. by rewrite (values_delete _ (gd_links d) _ _ Hl), Hf.
  - apply keeps_enqueue.
Qed.

(** ** The shard *)

Record shard_ok (g : gateway_shard) : Prop := {
  sk_connections id c : gx_connections g !! id = Some c → connection_ok c;
  sk_driver : driver_inv max_pending max_pending_bytes (gx_driver g);
  sk_writes : balanced max_writes max_write_bytes
    (mjoin (values (λ c, we_units <$> queued c) (gx_connections g)) ++ link_units (gx_driver g)) (gd_writes (gx_driver g));
  sk_reliable : balanced max_pending max_pending_bytes
    (mjoin (values (λ c, kept_units (cn_reliable c)) (gx_connections g))) (gx_reliable g)
}.

(** What the other connections hold. *)
Definition others_writes (id : string) (g : gateway_shard) : list capacity_units :=
  mjoin (values (λ c, we_units <$> queued c) (delete id (gx_connections g))).
Definition others_kept (id : string) (g : gateway_shard) : list capacity_units :=
  mjoin (values (λ c, kept_units (cn_reliable c)) (delete id (gx_connections g))).

Lemma shard_session g id c :
  shard_ok g → gx_connections g !! id = Some c → session_ok (others_writes id g) (others_kept id g) (session_of id c g).
Proof.
  intros [H1 H2 H3 H4] Hc. split_and!; simpl; [by eapply H1|done| |].
  - eapply balanced_perm; [|exact H3]. rewrite (values_delete _ _ _ _ Hc). simpl. by rewrite <- app_assoc.
  - eapply balanced_perm; [|exact H4]. by rewrite (values_delete _ _ _ _ Hc).
Qed.

Lemma session_shard g s c :
  shard_ok g → gx_connections g !! sn_id s = Some c →
  session_ok (others_writes (sn_id s) g) (others_kept (sn_id s) g) s → shard_ok (put_session s g).
Proof.
  intros [H1 H2 H3 H4] Hc (Hs & Hd & Hw & Hk). split; simpl.
  - intros id c' [[<- <-]|[_ Hc']]%lookup_insert_Some; [done|by eapply H1].
  - done.
  - eapply balanced_perm; [|exact Hw]. rewrite (values_replace _ _ _ _ _ Hc). simpl. by rewrite <- app_assoc.
  - eapply balanced_perm; [|exact Hk]. by rewrite (values_replace _ _ _ _ _ Hc).
Qed.

(** An operation of a connection, in a shard. *)
Lemma on_connection_ok id f g :
  shard_ok g → (∀ s, sn_id (f s) = sn_id s) →
  (∀ wr kr c, gx_connections g !! id = Some c → session_ok wr kr (session_of id c g) →
     session_ok wr kr (f (session_of id c g))) →
  shard_ok (on_connection id f g).
Proof.
  intros Hok Hid Hf. unfold on_connection. destruct (gx_connections g !! id) as [c|] eqn:Hc; [|done].
  apply (session_shard g _ c); rewrite ?Hid; try done. apply Hf; [done|]. by apply shard_session.
Qed.

Lemma send_id e s : sn_id (connection_send e s).2 = sn_id s.
Proof.
  unfold connection_send, start_loop. destruct (cn_closed (sn_conn s)); [done|]. destruct (_ || _); [simpl; by rewrite close_id|].
  destruct (acquire _ _) as [[u|x] b]; simpl; [|simpl; by rewrite close_id].
  destruct (cn_writing (sn_conn s)); [done|]. destruct (cn_writer_closed (sn_conn s)); [simpl; by rewrite close_id|done].
Qed.

Lemma send_reliable_id e sequence s : sn_id (send_reliable e sequence s).2 = sn_id s.
Proof.
  unfold send_reliable. destruct (sequence <=? 0)%Z; [apply send_id|].
  destruct (cn_reliable (sn_conn s) !! sequence) as [e0|].
  - destruct (_ <? _)%Z; [simpl; by rewrite close_id|]. destruct (resize _ _ _) as [[u|x] b]; [|simpl; by rewrite close_id]. cbv zeta.
    match goal with |- context [connection_send e ?s1] => pose proof (send_id e s1) as Hi end.
    destruct (connection_send e _) as [sent s2]. by destruct (_ || _).
  - destruct (_ || _); [simpl; by rewrite close_id|]. destruct (acquire _ _) as [[u|x] b]; [|simpl; by rewrite close_id].
    match goal with |- context [connection_send e ?s1] => pose proof (send_id e s1) as Hi end.
    destruct (connection_send e _) as [sent s2]. by destruct (_ || _).
Qed.

Lemma acknowledge_id sequence s : sn_id (connection_acknowledge sequence s) = sn_id s.
Proof. unfold connection_acknowledge. by destruct (cn_reliable (sn_conn s) !! sequence). Qed.

Lemma retry_id sequence s : sn_id (retry sequence s) = sn_id s.
Proof.
  unfold retry. destruct (cn_reliable (sn_conn s) !! sequence) as [e|]; [|done]. destruct (cn_closed (sn_conn s)); [done|].
  destruct (_ <=? _)%Z; [apply acknowledge_id|]. cbv zeta.
  match goal with |- context [connection_send ?e ?s1] => pose proof (send_id e s1) as Hi end.
  destruct (connection_send _ _) as [sent s2]. by destruct (_ && _).
Qed.

Lemma loop_ids s :
  sn_id (loop_take s) = sn_id s ∧ sn_id (loop_written s) = sn_id s ∧ sn_id (loop_failed s) = sn_id s ∧
  sn_id (loop_exit s) = sn_id s.
Proof.
  unfold loop_take, loop_written, loop_failed, loop_exit. split_and!.
  - by destruct (cn_writes (sn_conn s)).
  - by destruct (cn_flight (sn_conn s)).
  - destruct (cn_flight (sn_conn s)); [simpl; by rewrite close_id|done].
  - destruct (cn_close_after_write (sn_conn s)); [simpl; by rewrite close_id|done].
Qed.

Context `{!ProtobufCodec ClientEnvelope} `{!ProtobufCodec Packet}.

Lemma respond_ok wr kr request packet s : session_ok wr kr s → session_ok wr kr (respond request packet s).
Proof.
  intros Hok. unfold respond. pose proof (send_spec wr kr (response_envelope request packet) s Hok) as Hi.
  by destruct (connection_send _ s); destruct Hi.
Qed.

Lemma quit_ok wr kr request s : session_ok wr kr s → session_ok wr kr (quit_begin request s).
Proof.
  intros Hok. unfold quit_begin, respond. cbv zeta.
  match goal with |- context [connection_send ?e ?s1] => assert (session_ok wr kr s1) as Hok1; [|pose proof (send_spec wr kr e s1 Hok1) as Hi] end.
  { destruct Hok as ([] & Hd & Hw & Hk). split_and!; try done. split; try done. simpl.
    intros E Hq. by destruct (ck_quit0 E Hq). }
  destruct (connection_send _ _) as [b s2]. simpl. destruct Hi as ((Hc & Hd & Hw & Hk) & _ & -> & Hs2).
  split_and!; try done. simpl. destruct Hc. split; try done. simpl. intros E _.
  rewrite E in Hs2. destruct Hs2 as [-> _]; done.
Qed.

Lemma quit_id request s : sn_id (quit_begin request s) = sn_id s.
Proof. unfold quit_begin, respond. simpl. by rewrite send_id. Qed.

Lemma deliver_ok f g : shard_ok g → shard_ok (deliver f g).2.
Proof.
  intros Hok. unfold deliver. destruct (gx_connections g !! cf_expected_connection_id f) as [c|] eqn:Hc; [|done].
  destruct (_ || _); [done|]. destruct (ParseFromString (cf_packet f)) as [packet|]; [|done]. cbv zeta.
  pose proof (shard_session g _ c Hok Hc) as Hs. set (s := session_of (cf_expected_connection_id f) c g) in *.
  destruct (0 <? TcpPacketReliableSequence packet)%Z.
  - pose proof (send_reliable_ok _ _ (push_envelope f packet) (TcpPacketReliableSequence packet) s Hs) as [Hi _].
    pose proof (send_reliable_id (push_envelope f packet) (TcpPacketReliableSequence packet) s) as Hid.
    destruct (send_reliable _ _ s) as [b s2]. simpl in *. by apply (session_shard g s2 c); rewrite ?Hid.
  - pose proof (send_spec _ _ (push_envelope f packet) s Hs) as Hi. pose proof (send_id (push_envelope f packet) s) as Hid.
    destruct (connection_send _ s) as [b s2]. simpl in *. destruct Hi as (Hi & _).
    by apply (session_shard g s2 c); rewrite ?Hid.
Qed.

(** The end of a stream is not an event of a connection. *)
Definition same_ends (d d' : driver) : Prop := ∀ k, lk_finished <$> gd_links d' !! k = lk_finished <$> gd_links d !! k.

Lemma close_ends s : same_ends (sn_driver s) (sn_driver (connection_close s)).
Proof.
  intros k. unfold connection_close. destruct (cn_closed (sn_conn s)); [done|]. simpl. unfold cancel, resolve_all.
  generalize (filter (λ kp : string * pending_command, String.prefix (sn_id s +:+ ":") kp.1 = true)
    (map_to_list (gd_pending (sn_driver s)))). intros l. generalize (sn_driver s). clear s.
  induction l as [|ip l IH]; intros d; simpl; [done|]. rewrite IH. simpl.
  destruct (decide (pc_link ip.2 = k)) as [->|Hne]; [|by rewrite lookup_alter_ne].
  rewrite lookup_alter_eq. by destruct (gd_links d !! k).
Qed.

Lemma send_ends e s : same_ends (sn_driver s) (sn_driver (connection_send e s).2).
Proof.
  unfold connection_send, start_loop. destruct (cn_closed (sn_conn s)); [done|]. destruct (_ || _); [apply close_ends|].
  destruct (acquire _ _) as [[u|x] b]; simpl; [|exact (close_ends (sn_set_writes b s))].
  destruct (cn_writing (sn_conn s)); [done|]. destruct (cn_writer_closed (sn_conn s)); [|done].
  match goal with |- same_ends _ (sn_driver (connection_close ?s1)) => exact (close_ends s1) end.
Qed.

Lemma send_reliable_ends e sequence s : same_ends (sn_driver s) (sn_driver (send_reliable e sequence s).2).
Proof.
  unfold send_reliable. destruct (sequence <=? 0)%Z; [apply send_ends|].
  destruct (cn_reliable (sn_conn s) !! sequence) as [e0|].
  - destruct (_ <? _)%Z; [apply close_ends|].
    destruct (resize _ _ _) as [[u|x] b]; [|exact (close_ends (sn_set_reliable b s))]. cbv zeta.
    match goal with |- context [connection_send e ?s1] => pose proof (send_ends e s1) as Hi end.
    destruct (connection_send e _) as [sent s2]. by destruct (_ || _).
  - destruct (_ || _); [apply close_ends|].
    destruct (acquire _ _) as [[u|x] b]; [|exact (close_ends (sn_set_reliable b s))].
    match goal with |- context [connection_send e ?s1] => pose proof (send_ends e s1) as Hi end.
    destruct (connection_send e _) as [sent s2]. by destruct (_ || _).
Qed.

Lemma deliver_ends f g : same_ends (gx_driver g) (gx_driver (deliver f g).2).
Proof.
  unfold deliver. destruct (gx_connections g !! cf_expected_connection_id f) as [c|]; [|done].
  destruct (_ || _); [done|]. destruct (ParseFromString (cf_packet f)) as [packet|]; [|done]. cbv zeta.
  set (s := session_of (cf_expected_connection_id f) c g). destruct (0 <? TcpPacketReliableSequence packet)%Z.
  - pose proof (send_reliable_ends (push_envelope f packet) (TcpPacketReliableSequence packet) s) as Hi.
    by destruct (send_reliable _ _ s).
  - pose proof (send_ends (push_envelope f packet) s) as Hi. by destruct (connection_send _ s).
Qed.

Lemma driver_ok_step g d' :
  shard_ok g → driver_inv max_pending max_pending_bytes d' → keeps_units (gx_driver g) d' →
  shard_ok (MkShard d' (gx_reliable g) (gx_connections g)).
Proof. intros [H1 H2 H3 H4] Hd Hk. split; simpl; try done. by apply Hk. Qed.

Lemma read_ok g k l ok f :
  shard_ok g → gd_links (gx_driver g) !! k = Some l → lk_finished l = false →
  shard_ok (shard_read frame_size gateway_id instance_id k ok f g).
Proof.
  intros Hok Hl Hf. unfold shard_read.
  assert (∃ status g1, shard_ok g1 ∧ same_ends (gx_driver g) (gx_driver g1) ∧
    match ok, f with
    | true, client_forward envelope => deliver envelope g
    | _, _ => (CLIENT_FORWARD_STATUS_UNSPECIFIED, g)
    end = (status, g1)) as (status & g1 & Hok1 & He & ->).
  { destruct ok, f as [|?|?|fw|?|?]; try (by eexists _, _).
    exists (deliver fw g).1, (deliver fw g).2. split_and!; [by apply deliver_ok|apply deliver_ends|by destruct (deliver fw g)]. }
  specialize (He k). rewrite Hl in He. destruct (gd_links (gx_driver g1) !! k) as [l1|] eqn:Hl1; [|done].
  injection He as He. apply driver_ok_step; [done| |apply keeps_read].
  apply (on_read_inv frame_size gateway_id instance_id max_pending max_pending_bytes _ k l1); [done|congruence|apply Hok1].
Qed.

(** ** All interleavings *)

(** What may happen in a shard. Ids of connections are fresh UUIDs; a timer fires
    only when it is armed; the write loop takes a frame while the connection is
    open and ends when it is closed or the queue is empty; a connection leaves
    the table when it is closed and its loop has ended. *)
Inductive shard_step (g : gateway_shard) : gateway_shard → Prop :=
  | ss_accept id : gx_connections g !! id = None → shard_step g (accept id g)
  | ss_erase id c : gx_connections g !! id = Some c → cn_closed c = true → cn_loop c = false → shard_step g (erase id g)
  | ss_close id : shard_step g (close_connection id g)
  | ss_respond id request packet : shard_step g (on_connection id (respond request packet) g)
  | ss_quit id request : shard_step g (on_connection id (quit_begin request) g)
  | ss_bind id uid lease : shard_step g (on_connection id (connection_bind uid lease) g)
  | ss_acknowledge id sequence : shard_step g (on_connection id (connection_acknowledge sequence) g)
  | ss_timer id c sequence e : gx_connections g !! id = Some c → cn_reliable c !! sequence = Some e → re_armed e = true →
      shard_step g (on_connection id (retry sequence) g)
  | ss_take id c : gx_connections g !! id = Some c → cn_loop c = true → cn_flight c = None → cn_closed c = false →
      shard_step g (on_connection id loop_take g)
  | ss_written id : shard_step g (on_connection id loop_written g)
  | ss_failed id : shard_step g (on_connection id loop_failed g)
  | ss_exit id c : gx_connections g !! id = Some c → cn_loop c = true → cn_flight c = None →
      cn_closed c = true ∨ cn_writes c = [] → shard_step g (on_connection id loop_exit g)
  | ss_read k l ok f : gd_links (gx_driver g) !! k = Some l → lk_finished l = false → lk_reading l = true →
      shard_step g (shard_read frame_size gateway_id instance_id k ok f g)
  | ss_driver d' : driver_step frame_size command_size gateway_id instance_id (gx_driver g) d' →
      shard_step g (MkShard d' (gx_reliable g) (gx_connections g))
  | ss_stop : shard_step g (shard_stop g).

Lemma close_connection_ok id g : shard_ok g → shard_ok (close_connection id g).
Proof.
  intros Hok. apply on_connection_ok; [done|apply close_id|]. intros wr kr c _. apply close_ok.
Qed.

Lemma accept_ok id g : gx_connections g !! id = None → shard_ok g → shard_ok (accept id g).
Proof.
  intros Hid [H1 H2 H3 H4]. split; simpl; try done.
  - intros id' c [[<- <-]|[_ Hc]]%lookup_insert_Some; [|by eapply H1].
    split; simpl; try done; try apply Nat.le_0_l; constructor.
  - eapply balanced_perm; [|exact H3]. by rewrite values_insert.
  - eapply balanced_perm; [|exact H4]. by rewrite values_insert.
Qed.

Lemma erase_ok id c g :
  gx_connections g !! id = Some c → cn_closed c = true → cn_loop c = false → shard_ok g → shard_ok (erase id g).
Proof.
  intros Hc Hcl Hl [H1 H2 H3 H4]. pose proof (H1 _ _ Hc) as Hco. destruct (ck_closed _ Hco Hcl) as [Hw Hr].
  assert (cn_flight c = None) as Hfl.
  { destruct (cn_flight c) eqn:E; [|done]. by rewrite (ck_flight _ Hco) in Hl. }
  split; simpl; try done.
  - intros id' c' [_ Hc']%lookup_delete_Some. by eapply H1.
  - eapply balanced_perm; [|exact H3]. rewrite (values_delete _ _ _ _ Hc). unfold queued at 1. by rewrite Hfl, Hw.
  - eapply balanced_perm; [|exact H4]. rewrite (values_delete _ _ _ _ Hc), Hr. unfold kept_units at 1. by rewrite values_empty.
Qed.

Lemma shard_stop_ok g : shard_ok g → shard_ok (shard_stop g).
Proof.
  intros Hok. unfold shard_stop. set (g1 := foldl _ _ _). assert (shard_ok g1) as Hok1.
  { unfold g1. generalize (map_to_list (gx_connections g)).*1. intros l. clear g1. revert g Hok.
    induction l as [|id l IH]; intros g Hok; simpl; [done|]. by apply IH, close_connection_ok. }
  pose proof (ds_abort frame_size command_size gateway_id instance_id (gx_driver g1)) as Hs.
  apply driver_ok_step; [done| |by apply keeps_step]. eapply driver_step_inv; [done|exact Hs|apply Hok1].
Qed.

Lemma shard_step_ok g g' : shard_step g g' → shard_ok g → shard_ok g'.
Proof.
  intros [id Hid|id c Hc Hcl Hl|id|id rq pk|id rq|id uid lease|id sq|id c sq e _ _ _|id c Hc Hl Hf Ho|id|id
         |id c Hc Hl Hf Ho|k l ok f Hl Hf _|d' Hd|] Hok.
  - by apply accept_ok.
  - by eapply erase_ok.
  - by apply close_connection_ok.
  - apply on_connection_ok; [done|intros s; apply send_id|]. intros wr kr c _. apply respond_ok.
  - apply on_connection_ok; [done|apply quit_id|]. intros wr kr c _. apply quit_ok.
  - apply on_connection_ok; [done|done|]. intros wr kr c _. apply bind_ok.
  - apply on_connection_ok; [done|apply acknowledge_id|]. intros wr kr c _. apply acknowledge_ok.
  - apply on_connection_ok; [done|apply retry_id|]. intros wr kr c' _. apply retry_ok.
  - apply on_connection_ok; [done|intros s; apply loop_ids|]. intros wr kr c' Hc'. simplify_eq. by intros ?; apply take_ok.
  - apply on_connection_ok; [done|intros s; apply loop_ids|]. intros wr kr c _. apply written_ok.
  - apply on_connection_ok; [done|intros s; apply loop_ids|]. intros wr kr c _. apply failed_ok.
  - apply on_connection_ok; [done|intros s; apply loop_ids|]. intros wr kr c' Hc'. simplify_eq. intros ?. apply exit_ok; [done|done|].
    simpl. intros E. destruct Ho as [Ho|Ho]; [congruence|done].
  - by eapply read_ok.
  - apply driver_ok_step; [done| |by apply keeps_step]. eapply driver_step_inv; [done|done|apply Hok].
  - by apply shard_stop_ok.
Qed.

Definition shard_init : gateway_shard :=
  MkShard (driver_init max_pending max_pending_bytes (make_budget max_writes max_write_bytes))
    (make_budget max_pending max_pending_bytes) ∅.

Section reachable.
Context (Hw : (0 ≤ max_writes)%Z) (Hwb : (0 ≤ max_write_bytes)%Z) (Hp : (0 ≤ max_pending)%Z) (Hpb : (0 ≤ max_pending_bytes)%Z).

Lemma shard_init_ok : shard_ok shard_init.
Proof.
  split; simpl.
  - by intros id c ?%lookup_empty_Some.
  - eapply (driver_reachable frame_size command_size gateway_id instance_id); [done..|apply rtc_refl].
  - unfold link_units. simpl. rewrite !values_empty. unfold balanced, make_budget. simpl. rewrite !available_init.
    split_and!; [constructor|lia..].
  - rewrite !values_empty. unfold balanced, make_budget. simpl. rewrite !available_init. split_and!; [constructor|lia..].
Qed.

Lemma shard_reachable g : rtc shard_step shard_init g → shard_ok g.
Proof.
  intros Hr. pose proof shard_init_ok as Hi. revert Hi. induction Hr as [g|g1 g2 g3 Hs _ IH]; [done|].
  intros Hi. by apply IH, (shard_step_ok g1).
Qed.
End reachable.

Lemma balanced_bounds count bytes held b :
  balanced count bytes held b → (Z.of_nat (length held) ≤ count ∧ total held ≤ bytes)%Z.
Proof. unfold balanced, total. intros (_ & ? & ? & ? & ?). lia. Qed.

(** C3: the connections of a Gateway shard in every interleaving. What a
    connection counts is what it holds: the bytes of its queue, with the frame
    being written, and of the pushes it keeps, neither over 16 MiB, neither over
    1024 entries, with at most three attempts of each push; a closed connection
    holds nothing but the frame that is being written; frames wait only while a
    write loop runs. All frames of all
    connections and streams together stay within the shard's write budget, and
    all pushes that are kept within its retransmission budget. *)
Theorem connections_safe g :
  (0 ≤ max_writes)%Z → (0 ≤ max_write_bytes)%Z → (0 ≤ max_pending)%Z → (0 ≤ max_pending_bytes)%Z →
  rtc shard_step shard_init g →
  (∀ id c, gx_connections g !! id = Some c → connection_ok c) ∧
  (let held := mjoin (values (λ c, we_units <$> queued c) (gx_connections g)) ++ link_units (gx_driver g) in
   Z.of_nat (length held) ≤ max_writes ∧ total held ≤ max_write_bytes)%Z ∧
  (let kept := mjoin (values (λ c, kept_units (cn_reliable c)) (gx_connections g)) in
   Z.of_nat (length kept) ≤ max_pending ∧ total kept ≤ max_pending_bytes)%Z.
Proof.
  intros Hw Hwb Hp Hpb Hr. destruct (shard_reachable Hw Hwb Hp Hpb g Hr) as [H1 _ H3 H4].
  split_and!; [exact H1|..]; by eapply balanced_bounds.
Qed.

Lemma prefix_fmap {A B} (f : A → B) (l : list B) (k : list A) :
  l `prefix_of` (f <$> k) → l = f <$> take (length l) k.
Proof.
  intros [l' E]. rewrite fmap_take, E, take_app_length. done.
Qed.

(** C33: the client reads what was sent. The bytes a connection has written, read
    as frames, are a prefix of the envelopes that send accepted, in their order,
    and all of them when it is open and its queue is empty. *)
Theorem client_reads_what_was_sent g id c :
  (0 ≤ max_writes)%Z → (0 ≤ max_write_bytes)%Z → (0 ≤ max_pending)%Z → (0 ≤ max_pending_bytes)%Z →
  rtc shard_step shard_init g → gx_connections g !! id = Some c →
  let sent := filter (λ e, e ≠ "") (cn_sent c) in
  payloads (mjoin (cn_output c)) `prefix_of` sent ∧
  (cn_closed c = false → cn_writes c = [] → payloads (mjoin (cn_output c)) = sent).
Proof.
  intros Hw Hwb Hp Hpb Hr Hc. pose proof (shard_reachable Hw Hwb Hp Hpb g Hr) as [H1 _ _ _].
  specialize (H1 _ _ Hc). cbv zeta. assert (∀ n, payloads (mjoin (frame <$> take n (cn_sent c))) =
    filter (λ e, e ≠ "") (take n (cn_sent c))) as Hrd.
  { intros n. apply frames_read_back. apply Forall_take. exact (ck_sent _ H1). }
  split.
  - rewrite (prefix_fmap _ _ _ (ck_prefix _ H1)), Hrd. exists (filter (λ e, e ≠ "") (drop (length (cn_output c)) (cn_sent c))).
    by rewrite <- filter_app, take_drop.
  - intros Ho Hq. pose proof (ck_stream _ H1 Ho) as Hs. rewrite Hq, app_nil_r in Hs. rewrite Hs.
    specialize (Hrd (length (cn_sent c))). by rewrite take_ge in Hrd by lia.
Qed.

(** C32: a push reaches the connection it is meant for or none. deliver answers
    OFFLINE or STALE_ROUTE, and changes nothing, unless there is an open
    connection with the expected id whose login has the recipient's uid and
    device and the expected generation; when it answers QUEUED the push is the
    last envelope accepted on that connection and, if it has a sequence number,
    kept for retransmission with one attempt and an armed timer; when it answers
    BACKPRESSURED the packet does not parse and nothing changed, or the
    connection is closed. No other connection changes in any case. *)
Theorem push_reaches_recipient g f :
  (0 ≤ max_writes)%Z → (0 ≤ max_write_bytes)%Z → (0 ≤ max_pending)%Z → (0 ≤ max_pending_bytes)%Z →
  rtc shard_step shard_init g →
  let id := cf_expected_connection_id f in
  let meant c := cn_closed c = false ∧ cn_uid c = cf_recipient_uid f ∧
    sl_device_id (cn_lease c) = cf_recipient_device_id f ∧
    sl_generation (cn_lease c) = cf_expected_connection_generation f in
  let g' := (deliver f g).2 in
  (∀ id', id' ≠ id → gx_connections g' !! id' = gx_connections g !! id') ∧
  match (deliver f g).1 with
  | CLIENT_FORWARD_STATUS_OFFLINE => gx_connections g !! id = None ∧ g' = g
  | CLIENT_FORWARD_STATUS_STALE_ROUTE => ∃ c, gx_connections g !! id = Some c ∧ ¬ meant c ∧ g' = g
  | CLIENT_FORWARD_STATUS_QUEUED => ∃ c c' packet,
      gx_connections g !! id = Some c ∧ meant c ∧ ParseFromString (cf_packet f) = Some packet ∧
      gx_connections g' !! id = Some c' ∧ meant c' ∧ cn_sent c' = cn_sent c ++ [push_envelope f packet] ∧
      (let q := TcpPacketReliableSequence packet in
       (0 < q)%Z → ∃ units, cn_reliable c' !! q = Some (MkReliableEntry (push_envelope f packet) units 1 true))
  | CLIENT_FORWARD_STATUS_BACKPRESSURED => ∃ c c',
      gx_connections g !! id = Some c ∧ meant c ∧ gx_connections g' !! id = Some c' ∧
      (ParseFromString (A:=Packet) (cf_packet f) = None ∧ g' = g ∨ cn_closed c' = true)
  | CLIENT_FORWARD_STATUS_UNSPECIFIED => False
  end.
Proof.
  intros Hw Hwb Hp Hpb Hr. pose proof (shard_reachable Hw Hwb Hp Hpb g Hr) as Hok. cbv zeta. unfold deliver.
  destruct (gx_connections g !! cf_expected_connection_id f) as [c|] eqn:Hc; [|by split].
  destruct (_ || _) eqn:Hm.
  { split; [done|]. exists c. split_and!; [done| |done]. intros (H1 & H2 & H3 & H4).
    rewrite H1, H2, H3, H4, Z.eqb_refl, bool_decide_eq_true_2, Z.eqb_refl in Hm; done. }
  rewrite !orb_false_iff, !negb_false_iff, !Z.eqb_eq, bool_decide_eq_true in Hm. destruct Hm as [[[H1 H2] H3] H4].
  destruct (ParseFromString (cf_packet f)) as [packet|] eqn:Ep; [|split; [done|]; exists c, c; naive_solver].
  pose proof (shard_session g _ c Hok Hc) as Hs. set (s := session_of (cf_expected_connection_id f) c g) in *.
  assert ((if (0 <? TcpPacketReliableSequence packet)%Z
    then send_reliable (push_envelope f packet) (TcpPacketReliableSequence packet) s
    else connection_send (push_envelope f packet) s) =
    send_reliable (push_envelope f packet) (TcpPacketReliableSequence packet) s) as ->.
  { unfold send_reliable. destruct (Z.ltb_spec 0 (TcpPacketReliableSequence packet)); [done|].
    by rewrite (proj2 (Z.leb_le _ _)). }
  pose proof (send_reliable_ok _ _ (push_envelope f packet) (TcpPacketReliableSequence packet) s Hs) as [_ [Hb Hpu]].
  pose proof (send_reliable_id (push_envelope f packet) (TcpPacketReliableSequence packet) s) as Hid.
  destruct (send_reliable _ _ s) as [b s2]. simpl in *.
  split; [intros id' Hne; rewrite lookup_insert_ne; congruence|]. rewrite Hid. simpl. rewrite lookup_insert_eq.
  destruct b; [|exists c, (sn_conn s2); destruct (cn_closed (sn_conn s2)); naive_solver].
  destruct (Hpu eq_refl) as (Hsent & Hu & Hl & Hrel). exists c, (sn_conn s2), packet.
  split_and!; try done; try congruence.
  - by destruct (cn_closed (sn_conn s2)).
  - intros Hq. rewrite Hrel, (proj2 (Z.leb_gt _ _)) by done. eexists. apply lookup_insert_eq.
Qed.

(** ** What the timer of a push does *)

Lemma close_sent s : cn_sent (sn_conn (connection_close s)) = cn_sent (sn_conn s).
Proof. unfold connection_close. by destruct (cn_closed (sn_conn s)). Qed.
Lemma send_refused e s : (connection_send e s).1 = false → cn_sent (sn_conn (connection_send e s).2) = cn_sent (sn_conn s).
Proof.
  unfold connection_send. destruct (cn_closed (sn_conn s)); [done|]. destruct (_ || _); [intros _; apply close_sent|].
  destruct (acquire _ _) as [[u|x] b]; [done|]. intros _. simpl. by rewrite close_sent.
Qed.

Lemma retry_spec wr kr q e s :
  session_ok wr kr s → cn_reliable (sn_conn s) !! q = Some e →
  let s' := retry q s in
  session_ok wr kr s' ∧ sn_id s' = sn_id s ∧
  ((cn_reliable (sn_conn s') !! q = None ∧ cn_sent (sn_conn s') = cn_sent (sn_conn s)) ∨
   (re_attempts e < 3 ∧ cn_sent (sn_conn s') = cn_sent (sn_conn s) ++ [re_envelope e] ∧
    cn_reliable (sn_conn s') !! q = Some (MkReliableEntry (re_envelope e) (re_units e) (re_attempts e + 1) true))%Z).
Proof.
  intros Hok He. cbv zeta. split_and!; [by apply retry_ok|apply retry_id|]. unfold retry. rewrite He.
  destruct (cn_closed (sn_conn s)) eqn:E.
  { destruct Hok as [Hc _]. destruct (ck_closed _ Hc E) as [_ Hr]. by rewrite Hr in He. }
  destruct (Z.leb_spec 3 (re_attempts e)) as [Ha|Ha].
  { left. unfold connection_acknowledge. rewrite He. simpl. split; [apply lookup_delete_eq|done]. }
  cbv zeta. match goal with |- context [connection_send (re_envelope e) ?s0] => set (s1 := s0) end.
  assert (session_ok wr kr s1) as Hok1.
  { pose proof Hok as (Hc & _). destruct (ck_entries _ Hc _ _ He) as [Hs _]. destruct (ck_kept _ Hc E) as [Hkb _].
    apply (replace_same _ _ _ _ e); try done; [simpl|exact (entry_fits _ _ _ Hc E He)|].
    - destruct (ck_entries _ Hc _ _ He). lia.
    - rewrite Hkb. apply total_perm. symmetry. by apply (values_same _ _ _ e). }
  pose proof (send_spec wr kr (re_envelope e) _ Hok1) as Hsend.
  pose proof (send_refused (re_envelope e) s1) as Href. destruct (connection_send (re_envelope e) s1) as [b s2].
  destruct Hsend as ((Hc2 & _) & _ & -> & Hs2). destruct (cn_closed (sn_conn s2)) eqn:E2; simpl in *.
  - left. destruct (ck_closed _ Hc2 E2) as [_ ->]. split; [apply lookup_empty|by apply Href].
  - right. destruct Hs2 as [Hs2 _]; [done|]. split_and!; [done|by rewrite Hs2|apply lookup_insert_eq].
Qed.

Lemma on_connection_lookup id f g c :
  gx_connections g !! id = Some c → sn_id (f (session_of id c g)) = id →
  gx_connections (on_connection id f g) !! id = Some (sn_conn (f (session_of id c g))).
Proof. intros Hc Hid. unfold on_connection. rewrite Hc. simpl. rewrite Hid. apply lookup_insert_eq. Qed.

(** The third timer gives up. *)
Lemma retries_give_up n g id c q e :
  shard_ok g → gx_connections g !! id = Some c → cn_reliable c !! q = Some e →
  (3 - re_attempts e < Z.of_nat n)%Z →
  ∃ c' k, gx_connections (Nat.iter n (on_connection id (retry q)) g) !! id = Some c' ∧
    cn_reliable c' !! q = None ∧ cn_sent c' = cn_sent c ++ replicate k (re_envelope e) ∧
    (Z.of_nat k ≤ 3 - re_attempts e)%Z.
Proof.
  intros Hok Hc He Hn. assert (re_attempts e ≤ 3)%Z as Ha.
  { destruct (ck_entries _ (sk_connections _ Hok _ _ Hc) _ _ He). lia. }
  assert (∀ m g c, gx_connections g !! id = Some c → cn_reliable c !! q = None →
    ∃ c', gx_connections (Nat.iter m (on_connection id (retry q)) g) !! id = Some c' ∧
      cn_reliable c' !! q = None ∧ cn_sent c' = cn_sent c) as Hgone.
  { clear. intros m. induction m as [|m IH]; intros g c Hc Hq; [by exists c|].
    destruct (IH g c Hc Hq) as (c' & Hc' & Hq' & Hs'). exists c'. simpl. split_and!; [|done|done].
    rewrite (on_connection_lookup _ _ _ c'); [|done|apply retry_id]. unfold retry. simpl. by rewrite Hq'. }
  revert g c e Hok Hc He Hn Ha. induction n as [|n IH]; intros g c e Hok Hc He Hn Ha; [lia|].
  rewrite Nat.iter_succ_r. destruct (retry_spec _ _ q e _ (shard_session g id c Hok Hc) He) as (_ & Hid & Hcase).
  pose proof (on_connection_lookup id (retry q) g c Hc Hid) as Hc1. simpl in Hcase.
  destruct Hcase as [[Hq Hs]|(Hlt & Hs & Hq)].
  - destruct (Hgone n _ _ Hc1 Hq) as (c' & Hc' & Hq' & Hs'). exists c', 0. split_and!; [done|done| |lia].
    simpl. by rewrite app_nil_r, Hs', Hs.
  - destruct (IH (on_connection id (retry q) g) _ _ (on_connection_ok id (retry q) g Hok (retry_id q)
      (λ wr kr c _, retry_ok wr kr q _)) Hc1 Hq) as (c' & k & Hc' & Hq' & Hs' & Hk); [simpl; lia|simpl; lia|].
    exists c', (S k). simpl in *. split_and!; [done|done| |lia]. by rewrite Hs', Hs, <- (assoc_L (++)).
Qed.

(** A push is written three times at most. If the client does not acknowledge
    it, the third time its timer fires it is dropped; until then each time queued
    it once more, or the connection was closed. *)
Theorem push_given_up g id c q e :
  (0 ≤ max_writes)%Z → (0 ≤ max_write_bytes)%Z → (0 ≤ max_pending)%Z → (0 ≤ max_pending_bytes)%Z →
  rtc shard_step shard_init g → gx_connections g !! id = Some c → cn_reliable c !! q = Some e →
  ∃ c' k, gx_connections (Nat.iter 3 (on_connection id (retry q)) g) !! id = Some c' ∧
    cn_reliable c' !! q = None ∧ cn_sent c' = cn_sent c ++ replicate k (re_envelope e) ∧
    (Z.of_nat k + re_attempts e ≤ 3)%Z.
Proof.
  intros Hw Hwb Hp Hpb Hr Hc He. pose proof (shard_reachable Hw Hwb Hp Hpb g Hr) as Hok.
  destruct (ck_entries _ (sk_connections _ Hok _ _ Hc) _ _ He) as [_ Ha].
  destruct (retries_give_up 3 g id c q e Hok Hc He) as (c' & k & H1 & H2 & H3 & H4); [lia|]. exists c', k. split_and!; [done..|lia].
Qed.
End theorems.
