(* ===== verification/ConnectionRuns.v ===== *)
(** * A run of a Gateway shard

    One client connects, logs in and gets a push: the theorems of
    ConnectionTheorems.v at the states of this run. *)

From S2P Require Import Prelude Codec Schema Seastar Budget Framing GatewayDriver GatewayDriverTheorems.
From S2P Require Import GatewayConnection ConnectionTheorems.
From Stdlib Require Import Ascii.

#[local] Existing Instance counting_semaphore.
#[local] Existing Instance demo_hash_length.

(** Codecs that carry one push. *)
Definition demo_push : Packet :=
  MkPacket None (text_message_push (MkTextMessagePush 77 1001 1002 "hello" "k1" 9 1 "" 0)).
Definition demo_push_print (p : Packet) : string := "packet".
Definition demo_push_parse (s : string) : option Packet := if bool_decide (s = "packet") then Some demo_push else None.
Lemma demo_push_law p : p = demo_push → demo_push_parse (demo_push_print p) = Some p.
Proof. by intros ->. Qed.
Definition demo_push_codec : ProtobufCodec Packet :=
  {| SerializeToString := demo_push_print; ParseFromString := demo_push_parse;
     serializable := λ p, p = demo_push; parse_serialize := demo_push_law |}.
#[local] Existing Instance demo_push_codec.

Definition demo_client_push : ClientEnvelope :=
  protocol.push (MkClientPush 77 (Some demo_push) (TcpPacketPushType demo_push)).
Definition demo_envelope_print (e : ClientEnvelope) : string := match e with protocol.push _ => "push" | _ => "answer" end.
Definition demo_envelope_parse (s : string) : option ClientEnvelope :=
  if bool_decide (s = "push") then Some demo_client_push else None.
Lemma demo_envelope_law e : e = demo_client_push → demo_envelope_parse (demo_envelope_print e) = Some e.
Proof. by intros ->. Qed.
Definition demo_envelope_codec : ProtobufCodec ClientEnvelope :=
  {| SerializeToString := demo_envelope_print; ParseFromString := demo_envelope_parse;
     serializable := λ e, e = demo_client_push; parse_serialize := demo_envelope_law |}.
#[local] Existing Instance demo_envelope_codec.

Abbreviation demo_shard_step := (shard_step demo_frame_size demo_command_size "gw" "instance").

Definition demo_login (g : gateway_shard) : gateway_shard :=
  on_connection "c1" (connection_bind 1002 (MkSessionLease "phone" "gw" "instance" "c1" 3 0)) g.
Definition demo_stream (g : gateway_shard) : gateway_shard :=
  MkShard (demo_connect 1 "message-1" (gx_driver g)) (gx_reliable g) (gx_connections g).
Definition demo_forward : ClientForwardEnvelope := MkClientForwardEnvelope "f1" 1002 "c1" 3 77 9 1 "packet" "phone".
Definition demo_deliver (g : gateway_shard) : gateway_shard :=
  shard_read demo_frame_size "gw" "instance" 1 true (client_forward demo_forward) g.
Definition demo_take (g : gateway_shard) : gateway_shard := on_connection "c1" loop_take g.
Definition demo_write (g : gateway_shard) : gateway_shard := on_connection "c1" loop_written g.

Definition demo_idle : gateway_shard := demo_stream (demo_login (accept "c1" (shard_init 8 1000 4 1000))).
Definition demo_pushed : gateway_shard := demo_deliver demo_idle.
Definition demo_written : gateway_shard := demo_write (demo_take demo_pushed).

Lemma demo_shard_accept_step g : gx_connections g !! "c1" = None → rtc demo_shard_step g (accept "c1" g).
Proof. intros Hn. by apply rtc_once, ss_accept. Qed.
Lemma demo_login_step g : rtc demo_shard_step g (demo_login g).
Proof. apply rtc_once, ss_bind. Qed.
Lemma demo_stream_step g : gd_links (gx_driver g) !! 1%Z = None → rtc demo_shard_step g (demo_stream g).
Proof.
  intros Hn. apply rtc_once. apply ss_driver. by apply (ds_connect _ _ _ _ _ 1 (demo_node "message-1") 0 7 64).
Qed.
Lemma demo_deliver_step g :
  match gd_links (gx_driver g) !! 1%Z with Some l => negb (lk_finished l) && lk_reading l | None => false end = true →
  rtc demo_shard_step g (demo_deliver g).
Proof.
  destruct (gd_links (gx_driver g) !! 1%Z) as [l|] eqn:Hl; [|done]. intros [Hf%negb_true_iff Hr]%andb_true_iff.
  apply rtc_once. by apply (ss_read _ _ _ _ g 1 l).
Qed.
Lemma demo_take_step g :
  match gx_connections g !! "c1" with
  | Some c => cn_loop c && bool_decide (cn_flight c = None) && negb (cn_closed c) | None => false end = true →
  rtc demo_shard_step g (demo_take g).
Proof.
  destruct (gx_connections g !! "c1") as [c|] eqn:Hc; [|done].
  intros [[Hl Hf%bool_decide_eq_true]%andb_true_iff Ho%negb_true_iff]%andb_true_iff. apply rtc_once. by eapply ss_take.
Qed.
Lemma demo_write_step g : rtc demo_shard_step g (demo_write g).
Proof. apply rtc_once, ss_written. Qed.

Lemma demo_idle_reachable : rtc demo_shard_step (shard_init 8 1000 4 1000) demo_idle.
Proof.
  unfold demo_idle. etrans; [|apply demo_stream_step; vm_compute; reflexivity]. etrans; [|apply demo_login_step].
  apply demo_shard_accept_step. vm_compute. reflexivity.
Qed.
Lemma demo_pushed_reachable : rtc demo_shard_step (shard_init 8 1000 4 1000) demo_pushed.
Proof.
  etrans; [apply demo_idle_reachable|]. unfold demo_pushed. apply demo_deliver_step. vm_compute. reflexivity.
Qed.
Lemma demo_written_reachable : rtc demo_shard_step (shard_init 8 1000 4 1000) demo_written.
Proof.
  etrans; [apply demo_pushed_reachable|]. unfold demo_written. etrans; [|apply demo_write_step].
  apply demo_take_step. vm_compute. reflexivity.
Qed.

Definition demo_client (g : gateway_shard) : connection := default new_connection (gx_connections g !! "c1").
Lemma demo_pushed_client : gx_connections demo_pushed !! "c1" = Some (demo_client demo_pushed).
Proof. vm_compute. reflexivity. Qed.
Lemma demo_written_client : gx_connections demo_written !! "c1" = Some (demo_client demo_written).
Proof. vm_compute. reflexivity. Qed.

Lemma demo_frame_size_pos f : (0 ≤ demo_frame_size f)%Z.
Proof. done. Qed.

Lemma connections_safe_witness :
  connection_ok (demo_client demo_pushed) ∧ cn_write_bytes (demo_client demo_pushed) = 8%Z.
Proof.
  split; [|vm_compute; reflexivity].
  destruct (connections_safe 8 1000 4 1000 demo_frame_size demo_command_size "gw" "instance" demo_frame_size_pos
    demo_command_size_pos demo_pushed ltac:(lia) ltac:(lia) ltac:(lia) ltac:(lia) demo_pushed_reachable) as [H _].
  exact (H _ _ demo_pushed_client).
Defined.

Lemma client_reads_what_was_sent_witness : payloads (mjoin (cn_output (demo_client demo_written))) = ["push"].
Proof.
  destruct (client_reads_what_was_sent 8 1000 4 1000 demo_frame_size demo_command_size "gw" "instance" demo_frame_size_pos
    demo_command_size_pos demo_written "c1" (demo_client demo_written) ltac:(lia) ltac:(lia) ltac:(lia) ltac:(lia)
    demo_written_reachable demo_written_client) as [_ H].
  etrans; [apply H; vm_compute; reflexivity|]. vm_compute. reflexivity.
Defined.

Lemma demo_idle_answer : (deliver demo_forward demo_idle).1 = CLIENT_FORWARD_STATUS_QUEUED.
Proof. vm_compute. reflexivity. Qed.

Lemma push_reaches_recipient_witness :
  ∃ c c' packet, gx_connections demo_idle !! "c1" = Some c ∧ ParseFromString "packet" = Some packet ∧
    gx_connections (deliver demo_forward demo_idle).2 !! "c1" = Some c' ∧
    cn_sent c' = cn_sent c ++ [push_envelope demo_forward packet].
Proof.
  destruct (push_reaches_recipient 8 1000 4 1000 demo_frame_size demo_command_size "gw" "instance" demo_frame_size_pos
    demo_command_size_pos demo_idle demo_forward ltac:(lia) ltac:(lia) ltac:(lia) ltac:(lia) demo_idle_reachable) as [_ H].
  rewrite demo_idle_answer in H. destruct H as (c & c' & packet & H1 & _ & H2 & H3 & _ & H4 & _). by exists c, c', packet.
Defined.

Definition demo_entry : reliable_entry := MkReliableEntry "push" 4%Z 1 true.
Lemma demo_pushed_entry : cn_reliable (demo_client demo_pushed) !! 77%Z = Some demo_entry.
Proof. vm_compute. reflexivity. Qed.

Lemma push_given_up_witness :
  ∃ c' k, gx_connections (Nat.iter 3 (on_connection "c1" (retry 77)) demo_pushed) !! "c1" = Some c' ∧
    cn_reliable c' !! 77%Z = None ∧ cn_sent c' = cn_sent (demo_client demo_pushed) ++ replicate k "push" ∧
    (Z.of_nat k + 1 ≤ 3)%Z.
Proof.
  exact (push_given_up 8 1000 4 1000 demo_frame_size demo_command_size "gw" "instance" demo_frame_size_pos
    demo_command_size_pos demo_pushed "c1" (demo_client demo_pushed) 77 demo_entry ltac:(lia) ltac:(lia) ltac:(lia)
    ltac:(lia) demo_pushed_reachable demo_pushed_client demo_pushed_entry).
Defined.
