(* ===== verification/GatewayService.v ===== *)
(** * Requests of a client connection

    connection::run and the handlers of a connection
    (src/server/gateway/transport/connection.cc) with the transactions they call
    (src/server/gateway/transaction/service.cc), as programs of events. An event
    is an operation of the I/O queue, an access to the connection the program
    runs for, which other coroutines share, a clock, an admission, or the start
    of a coroutine in the background. *)

From S2P Require Import Prelude Codec Program Seastar Budget Sessions Protocol Framing.
From Stdlib Require Import Ascii.
Import gateway_protocol.

(** ** Events *)

(** gateway_io::io_operation *)
Inductive gateway_operation : Type → Type :=
  | op_validate_token (uid : Z) (token : string) : gateway_operation bool
  | op_prepare_profile (login : LoginRequest) : gateway_operation bool
  | op_register_device (uid : Z) (device_id : string) : gateway_operation bool
  | op_bind_session (uid : Z) (route : SessionLease) : gateway_operation bound_session
  | op_refresh_session (uid : Z) (route : SessionLease) : gateway_operation bool
  | op_clear_session (uid : Z) (route : SessionLease) : gateway_operation unit
  | op_send_command (command : CommandEnvelope) : gateway_operation nat.

(** The window in which the commands of a connection are counted. *)
Record command_window := MkWindow { cw_started : Z; cw_commands : Z }.

(** Times are milliseconds of the steady clock. [GwResult]: await a ticket;
    [GwCloseWriter] marks the writer's gate as closed and closes it, [GwDrain]
    closes the requests' gate, both awaiting the coroutines that hold them;
    [GwBind]: connection::bind, which also sets the time of the last refresh;
    [GwSpawn]: process_forward in the background. *)
Inductive gateway_event : Type → Type :=
  | GwIo {R} (op : gateway_operation R) : gateway_event R
  | GwResult (ticket : nat) : gateway_event CommandResult
  | GwCancel : gateway_event unit
  | GwClosed : gateway_event bool
  | GwUid : gateway_event Z
  | GwLease : gateway_event SessionLease
  | GwBind (uid : Z) (lease : SessionLease) : gateway_event unit
  | GwClose : gateway_event unit
  | GwClosePrevious (previous : SessionLease) : gateway_event unit
  | GwSend (envelope : ClientEnvelope) : gateway_event bool
  | GwCloseAfterWrite : gateway_event unit
  | GwCloseWriter : gateway_event unit
  | GwWriterClosed : gateway_event bool
  | GwDrain : gateway_event unit
  | GwAcknowledge (sequence : Z) : gateway_event unit
  | GwNow : gateway_event Z
  | GwLastRefresh : gateway_event Z
  | GwSetLastRefresh (now : Z) : gateway_event unit
  | GwWindow : gateway_event command_window
  | GwSetWindow (w : command_window) : gateway_event unit
  | GwAdmit (bytes : Z) : gateway_event capacity_units
  | GwRelease (permit : capacity_units) : gateway_event unit
  | GwSpawn (request : ClientRequest) (permit : capacity_units) : gateway_event unit.

Abbreviation gateway_prog := (program gateway_event).
Abbreviation gateway_obs := (observation gateway_event).
Definition gateway_io {R} (op : gateway_operation R) : gateway_prog R := perform (GwIo op).

(** What the transactions read of gateway_io::options and of the shard. *)
Record gateway_options := MkGatewayOptions {
  go_gateway_id : string; go_instance_id : string; go_shard_id : Z; go_command_rate_limit : Z }.

Section service.
Context `{!ProtobufCodec Packet} `{!ProtobufCodec ClientEnvelope}
  (o : gateway_options) (id : string) (request_size : ClientRequest → Z).

(** ** Answers (connection.cc) *)

Definition gw_respond (request : ClientRequest) (packet : Packet) : gateway_prog unit :=
  perform (GwSend (response (MkClientResponse (cr_request_id request) (Some packet) (cr_operation request)))) ;; mret tt.

Definition gw_error (request : ClientRequest) (code : Z) : gateway_prog unit :=
  if negb (bool_decide (cr_operation request = OP_ACKNOWLEDGE))
  then gw_respond request (MakeErrorPacket code "") else mret tt.

(** ** Transactions (service.cc) *)

Definition login_route (login : LoginRequest) : SessionLease :=
  MkSessionLease (lr_device_id login) (go_gateway_id o) (go_instance_id o) id 0 (go_shard_id o).

(** The part of login for a connection without a user; [false]: it returned. *)
Definition login_bind (request : ClientRequest) (login : LoginRequest) : gateway_prog bool :=
  profile ← gateway_io (op_prepare_profile login);
  if negb (profile : bool) then gw_error request (error_code NotFound) ;; mret false
  else
    closed ← perform GwClosed;
    if (closed : bool) then mret false
    else
      device ← gateway_io (op_register_device (lr_uid login) (lr_device_id login));
      if negb (device : bool) then gw_error request (error_code AuthenticationRequired) ;; mret false
      else
        closed ← perform GwClosed;
        if (closed : bool) then mret false
        else
          bound ← gateway_io (op_bind_session (lr_uid login) (login_route login));
          perform (GwBind (lr_uid login) (current bound)) ;;
          match previous bound with
          | Some lease => perform (GwClosePrevious lease)
          | None => mret tt
          end ;;
          closed ← perform GwClosed;
          if (closed : bool) then mret false
          else
            uid ← perform GwUid;
            lease ← perform GwLease;
            refreshed ← gateway_io (op_refresh_session uid lease);
            if negb (refreshed : bool) then perform GwClose ;; mret false else mret true.

Definition service_login (request : ClientRequest) : gateway_prog unit :=
  let login := login_of (packet_of request) in
  uid ← perform GwUid;
  lease ← perform GwLease;
  if (0 <? uid)%Z && (negb (uid =? lr_uid login)%Z || negb (bool_decide (sl_device_id lease = lr_device_id login)))
  then gw_error request (error_code UidInvalid)
  else
    valid ← gateway_io (op_validate_token (lr_uid login) (lr_auth_token login));
    if negb (valid : bool) then gw_error request (error_code TokenInvalid)
    else
      closed ← perform GwClosed;
      if (closed : bool) then mret tt
      else
        uid ← perform GwUid;
        go_on ← if (uid =? 0)%Z then login_bind request login else mret true;
        if negb (go_on : bool) then mret tt
        else
          closed ← perform GwClosed;
          if (closed : bool) then mret tt
          else
            gw_respond request
              (SetTcpPacketStatus (MkPacket None (login_response (MkLoginResponse (lr_uid login)))) (error_code Success) "").

(** connection::refresh: at most every twenty seconds. *)
Definition gw_refresh : gateway_prog bool :=
  closed ← perform GwClosed;
  if (closed : bool) then mret false
  else
    now ← perform GwNow;
    last ← perform GwLastRefresh;
    if (now - last <? 20000)%Z then mret true
    else
      uid ← perform GwUid;
      lease ← perform GwLease;
      current ← gateway_io (op_refresh_session uid lease);
      if negb (current : bool) then perform GwClose ;; mret false
      else
        now ← perform GwNow;
        perform (GwSetLastRefresh now) ;;
        closed ← perform GwClosed;
        mret (negb closed).

Definition command_envelope (request : ClientRequest) (uid : Z) (lease : SessionLease) : CommandEnvelope :=
  MkCommandEnvelope (cr_request_id request) uid id (sl_generation lease) (cr_operation request)
    (TcpPacketConversationId (packet_of request)) (SerializeToString (packet_of request)) (sl_device_id lease).

(** The rest of forward, once the command is answered. *)
Definition forward_answer (request : ClientRequest) (result : CommandResult) : gateway_prog unit :=
  closed ← perform GwClosed;
  if (closed : bool) then mret tt
  else if (cres_error result =? error_code AuthenticationRequired)%Z then perform GwClose
  else if bool_decide (cr_operation request = OP_ACKNOWLEDGE) then mret tt
  else
    match ParseFromString (cres_packet result) with
    | None => gw_error request (error_code ProtobufPacket)
    | Some packet => gw_respond request packet
    end.

Definition service_forward (request : ClientRequest) : gateway_prog unit :=
  closed ← perform GwClosed;
  if (closed : bool) then mret tt
  else
    current ← gw_refresh;
    if negb (current : bool) then mret tt
    else
      uid ← perform GwUid;
      lease ← perform GwLease;
      ticket ← gateway_io (op_send_command (command_envelope request uid lease));
      closed ← perform GwClosed;
      (if (closed : bool) then perform GwCancel else mret tt) ;;
      result ← perform (GwResult ticket);
      forward_answer request result.

(** ** Handlers of a connection (connection.cc) *)

(** What a handler answers when its transaction fails. *)
Definition or_error (request : ClientRequest) (m : gateway_prog unit) : gateway_prog unit :=
  prog_catch (λ e,
    match e with
    | Overloaded => gw_error request (error_code ResourceExhausted)
    | _ => gw_error request (error_code DependencyUnavailable)
    end) m.

(** A block that holds a permit. *)
Definition with_permit (permit : capacity_units) (m : gateway_prog unit) : gateway_prog unit :=
  prog_catch (λ e, perform (GwRelease permit) ;; Done (Throw e)) m ;;
  perform (GwRelease permit).

Definition gw_login (request : ClientRequest) : gateway_prog unit :=
  or_error request
    (permit ← perform (GwAdmit (request_size request)); with_permit permit (service_login request)).

Definition gw_ping (request : ClientRequest) : gateway_prog unit :=
  gw_respond request (SetTcpPacketStatus (MkPacket None ping_response) (error_code Success) "").

Definition gw_quit (request : ClientRequest) : gateway_prog unit :=
  perform GwCloseAfterWrite ;;
  gw_respond request (SetTcpPacketStatus (MkPacket None quit_response) (error_code Success) "") ;;
  perform GwCloseWriter ;;
  perform GwClose.

(** The window of one second: whether the command is let through. *)
Definition count_command (limit now : Z) (w : command_window) : bool * command_window :=
  let w := if (1000 <=? now - cw_started w)%Z then MkWindow now 0 else w in
  if (limit =? 0)%Z then (true, w)
  else
    let commands := ((cw_commands w + 1) mod 2 ^ 32)%Z in
    (negb (limit <? commands)%Z, MkWindow (cw_started w) commands).

Definition rate_check (request : ClientRequest) : gateway_prog bool :=
  if bool_decide (cr_operation request = OP_ACKNOWLEDGE) then mret true
  else
    now ← perform GwNow;
    w ← perform GwWindow;
    let '(allowed, w) := count_command (go_command_rate_limit o) now w in
    perform (GwSetWindow w) ;;
    mret allowed.

Definition gw_forward (request : ClientRequest) : gateway_prog unit :=
  allowed ← rate_check request;
  if negb (allowed : bool) then gw_error request (error_code ResourceExhausted)
  else
    or_error request
      (permit ← perform (GwAdmit (request_size request));
       perform (GwSpawn request permit)).

Definition process_forward (request : ClientRequest) (permit : capacity_units) : gateway_prog unit :=
  with_permit permit (or_error request (service_forward request)).

Definition receipt_of (packet : Packet) : MessageReceipt :=
  match pk_payload packet with receipt body => body | _ => MkMessageReceipt 0 RECEIPT_TYPE_UNSPECIFIED 0 0 end.

Definition gw_acknowledge_request (request : ClientRequest) : gateway_prog unit :=
  let r := receipt_of (packet_of request) in
  perform (GwAcknowledge (mr_seq r)) ;;
  if (0 <? mr_conversation_id r)%Z && (0 <? mr_conversation_seq r)%Z then gw_forward request else mret tt.

Definition gw_handle (e : endpoint) (request : ClientRequest) : gateway_prog unit :=
  match e with
  | e_login => gw_login request
  | e_ping => gw_ping request
  | e_quit => gw_quit request
  | e_acknowledge_request => gw_acknowledge_request request
  | e_forward => gw_forward request
  end.

Definition gw_process (request : ClientRequest) : gateway_prog unit :=
  uid ← perform GwUid;
  if negb (bool_decide (cr_operation request = OP_LOGIN)) && (uid =? 0)%Z
  then gw_error request (error_code AuthenticationRequired)
  else
    let code := validate request in
    if negb (code =? 0)%Z then gw_error request code
    else
      match gateway_route_for (cr_operation request) with
      | Throw e => Done (Throw e)
      | Ok (_, e) => gw_handle e request
      end.

(** The loop of run. A turn consumes the header at least: the length of the
    input is enough fuel. *)
Fixpoint read_loop (fuel : nat) (input : bytes) : gateway_prog unit :=
  match fuel with
  | 0 => mret tt
  | S fuel =>
      closed ← perform GwClosed;
      if (closed : bool) then mret tt
      else
        match next_frame input with
        | Break => mret tt
        | Continue rest => read_loop fuel rest
        | Payload payload rest =>
            match gateway_decode payload with
            | Throw e => Done (Throw e)
            | Ok body => gw_process body ;; read_loop fuel rest
            end
        end
  end.

(** run: whatever ended the loop, the connection is closed, its requests and its
    writer are awaited, and the lease of this login is removed. *)
Definition connection_run (input : bytes) : gateway_prog unit :=
  prog_catch (λ _, mret tt) (read_loop (S (length input)) input) ;;
  perform GwClose ;;
  perform GwDrain ;;
  writer_closed ← perform GwWriterClosed;
  (if (writer_closed : bool) then mret tt else perform GwCloseWriter) ;;
  uid ← perform GwUid;
  lease ← perform GwLease;
  if (0 <? uid)%Z && negb (sl_generation lease =? 0)%Z
  then prog_catch (λ _, mret tt) (gateway_io (op_clear_session uid lease))
  else mret tt.
End service.
