(* ===== verification/GatewayServiceTheorems.v ===== *)
(** * What the requests of a connection may do

    For every answer of the services and every change that other coroutines make
    to the connection: who a connection acts for, that its requests are answered,
    and how many commands it may send. *)

From S2P Require Import Prelude Codec Program Seastar Budget Sessions Protocol Framing GatewayService.
From Stdlib Require Import Ascii.
Import gateway_protocol.

Section theorems.
Context `{!ProtobufCodec Packet} `{!ProtobufCodec ClientEnvelope}
  (o : gateway_options) (id : string) (request_size : ClientRequest → Z).

(** ** Authority *)

Definition token_valid (past : list gateway_obs) (lg : LoginRequest) : Prop :=
  (0 < lr_uid lg)%Z ∧
  Obs (GwIo (op_validate_token (lr_uid lg) (lr_auth_token lg))) (Ok true) ∈ past.

(** The lease was refreshed, or was less than twenty seconds ago. *)
Definition lease_fresh (past : list gateway_obs) : Prop :=
  (∃ now last, Obs GwNow (Ok now) ∈ past ∧ Obs GwLastRefresh (Ok last) ∈ past ∧ (now - last < 20000)%Z) ∨
  (∃ uid lease, Obs (GwIo (op_refresh_session uid lease)) (Ok true) ∈ past).

(** A route to this connection, on this shard, for the device of the login *)
Definition routed_here (lg : LoginRequest) (route : SessionLease) : Prop :=
  sl_device_id route = lr_device_id lg ∧ sl_connection_id route = id ∧ sl_gateway_id route = go_gateway_id o ∧
  sl_instance_id route = go_instance_id o ∧ sl_shard_id route = go_shard_id o.

Definition operation_permitted (past : list gateway_obs) {R} (op : gateway_operation R) : Prop :=
  match op with
  | op_prepare_profile lg => token_valid past lg
  | op_register_device uid device =>
      ∃ lg, token_valid past lg ∧ lr_uid lg = uid ∧ lr_device_id lg = device ∧
        Obs (GwIo (op_prepare_profile lg)) (Ok true) ∈ past
  | op_bind_session uid route =>
      ∃ lg, token_valid past lg ∧ lr_uid lg = uid ∧ routed_here lg route ∧
        Obs (GwIo (op_prepare_profile lg)) (Ok true) ∈ past ∧
        Obs (GwIo (op_register_device uid (lr_device_id lg))) (Ok true) ∈ past
  | op_clear_session uid lease =>
      (0 < uid)%Z ∧ sl_generation lease ≠ 0%Z ∧ Obs GwUid (Ok uid) ∈ past ∧ Obs GwLease (Ok lease) ∈ past
  | op_refresh_session uid lease => Obs GwUid (Ok uid) ∈ past ∧ Obs GwLease (Ok lease) ∈ past
  | op_send_command c =>
      ∃ uid lease, Obs GwUid (Ok uid) ∈ past ∧ Obs GwLease (Ok lease) ∈ past ∧ lease_fresh past ∧
        ce_actor_uid c = uid ∧ ce_connection_id c = id ∧ ce_connection_generation c = sl_generation lease ∧
        ce_actor_device_id c = sl_device_id lease
  | _ => True
  end.

Definition permitted (past : list gateway_obs) R (e : gateway_event R) : Prop :=
  match e with
  | GwIo op => operation_permitted past op
  | GwBind uid lease =>
      ∃ lg bound route, token_valid past lg ∧ lr_uid lg = uid ∧ current bound = lease ∧ routed_here lg route ∧
        Obs (GwIo (op_prepare_profile lg)) (Ok true) ∈ past ∧
        Obs (GwIo (op_register_device uid (lr_device_id lg))) (Ok true) ∈ past ∧
        Obs (GwIo (op_bind_session uid route)) (Ok bound) ∈ past
  | GwSpawn q permit => cr_operation q ≠ OP_LOGIN ∧ ∃ uid, uid ≠ 0%Z ∧ Obs GwUid (Ok uid) ∈ past
  | _ => True
  end.

Ltac program_unfold :=
  unfold gw_respond, gw_error, gateway_io, mbind, prog_mbind, mret, prog_mret, perform in *; simpl.

Lemma error_permitted past request code : guarded permitted past (gw_error request code).
Proof. program_unfold. walk. Qed.
Lemma respond_permitted past request packet : guarded permitted past (gw_respond request packet).
Proof. program_unfold. walk. Qed.

(** The conditions that led here, and what they make of a goal. *)
Ltac conditions :=
  repeat match goal with
  | H : negb _ = false |- _ => apply negb_false_iff in H
  | H : negb _ = true |- _ => apply negb_true_iff in H
  | H : _ && _ = true |- _ => apply andb_true_iff in H as [? ?]
  | H : (_ <? _)%Z = true |- _ => apply Z.ltb_lt in H
  | H : (_ =? _)%Z = false |- _ => apply Z.eqb_neq in H
  end; subst.
Ltac facts :=
  conditions;
  repeat match goal with
  | |- _ ∧ _ => split
  | |- ∃ _, _ => eexists
  | |- token_valid _ _ => split
  end; try reflexivity; try eassumption; try seen; try (split_and!; reflexivity).

Lemma login_bind_permitted past request lg :
  token_valid past lg → guarded permitted past (login_bind o id request lg).
Proof. intros [Hu Ht]. unfold login_bind. program_unfold. walk; facts. Qed.

Lemma service_login_permitted past request :
  validate request = 0%Z → cr_operation request = OP_LOGIN →
  guarded permitted past (service_login o id request).
Proof.
  intros Hv Hop. unfold service_login. cbv zeta. set (lg := login_of (packet_of request)).
  assert (0 < lr_uid lg)%Z as Hu.
  { unfold validate in Hv. rewrite bool_decide_eq_true_2 in Hv by done. fold lg in Hv. cbv zeta in Hv.
    destruct (Z.leb_spec (lr_uid lg) 0); [|done]. simpl in Hv. done. }
  clearbody lg. apply guarded_bind; [by split|]. intros t1 uid Hr1%runs_perform.
  apply guarded_bind; [by split|]. intros t2 lease Hr2%runs_perform.
  destruct (_ && _); [apply error_permitted|].
  apply guarded_bind; [by split|]. intros t3 valid Hr3%runs_perform.
  destruct valid; simpl negb; cbv iota; [|apply error_permitted].
  apply guarded_bind; [by split|]. intros t4 closed _. destruct closed; [done|].
  apply guarded_bind; [by split|]. intros t5 uid' _.
  apply guarded_bind.
  { destruct (uid' =? 0)%Z; [|done]. apply login_bind_permitted. split; [done|]. subst t3. seen. }
  intros t6 go_on _. destruct go_on; simpl negb; cbv iota; [|done].
  apply guarded_bind; [by split|]. intros t7 closed _. destruct closed; [done|]. apply respond_permitted.
Qed.

Ltac recent := first [left; by facts | right; by facts].

Lemma forward_answer_permitted past request result : guarded permitted past (forward_answer request result).
Proof. unfold forward_answer. program_unfold. walk; apply error_permitted. Qed.

Lemma refresh_permitted past : guarded permitted past gw_refresh.
Proof. unfold gw_refresh. program_unfold. walk; facts. Qed.

Lemma refresh_fresh past t : runs gw_refresh t (Ok true) → lease_fresh (past ++ t).
Proof.
  unfold gw_refresh. intros Hr. apply runs_bind in Hr as [(t0 & t1 & closed & -> & Hc%runs_perform & Hr)|(e & _ & [=])].
  destruct closed; [by destruct Hr|].
  apply runs_bind in Hr as [(t2 & t3 & now & -> & Hn%runs_perform & Hr)|(e & _ & [=])].
  apply runs_bind in Hr as [(t4 & t5 & last & -> & Hl%runs_perform & Hr)|(e & _ & [=])]. subst.
  destruct (Z.ltb_spec (now - last) 20000) as [Hlt|_].
  { left. exists now, last. rewrite !(assoc_L (++)). split_and!; [seen|seen|done]. }
  apply runs_bind in Hr as [(t6 & t7 & uid & -> & _ & Hr)|(e & _ & [=])].
  apply runs_bind in Hr as [(t8 & t9 & lease & -> & _ & Hr)|(e & _ & [=])].
  apply runs_bind in Hr as [(t10 & t11 & [] & -> & Hf%runs_perform & Hr)|(e & _ & [=])].
  - right. exists uid, lease. subst. rewrite !(assoc_L (++)). seen.
  - simpl in Hr. by destruct Hr as ([] & ? & _ & ? & ?).
Qed.

Lemma service_forward_permitted past request : guarded permitted past (service_forward id request).
Proof.
  apply guarded_bind; [by split|]. intros t1 closed _. destruct closed; [done|].
  apply guarded_bind; [apply refresh_permitted|]. intros t2 [] Hr2; [|done]. simpl negb. cbv iota.
  pose proof (refresh_fresh (past ++ t1) t2 Hr2) as Hf.
  apply guarded_bind; [by split|]. intros t3 uid Hr3%runs_perform.
  apply guarded_bind; [by split|]. intros t4 lease Hr4%runs_perform.
  apply guarded_bind.
  { split; [|by intros [?|?]]. exists uid, lease. subst t3 t4. split_and!; [seen|seen| |done|done|done|done].
    destruct Hf as [(now & last & Hn & Hl & Hlt)|(u & l & Hl)]; [left; exists now, last|right; exists u, l];
      split_and?; try done; seen. }
  intros t5 ticket _. apply guarded_bind; [by split|]. intros t6 closed _.
  apply guarded_bind; [by destruct closed|]. intros t7 [] _.
  apply guarded_bind; [by split|]. intros t8 result _. apply forward_answer_permitted.
Qed.

(** ** Handlers *)

Lemma or_error_permitted past request m : guarded permitted past m → guarded permitted past (or_error request m).
Proof. intros Hm. apply guarded_catch; [done|]. intros t [] _; apply error_permitted. Qed.

Lemma with_permit_permitted past permit m : guarded permitted past m → guarded permitted past (with_permit permit m).
Proof.
  intros Hm. apply guarded_bind; [|by intros ? ? _; split]. apply guarded_catch; [done|].
  intros t e _. split; [done|]. by intros [?|?].
Qed.

Lemma process_forward_permitted past request permit : guarded permitted past (process_forward id request permit).
Proof. apply with_permit_permitted, or_error_permitted, service_forward_permitted. Qed.

Lemma gw_login_permitted past request :
  validate request = 0%Z → cr_operation request = OP_LOGIN → guarded permitted past (gw_login o id request_size request).
Proof.
  intros Hv Hop. apply or_error_permitted. apply guarded_bind; [by split|]. intros t permit _.
  by apply with_permit_permitted, service_login_permitted.
Qed.

Lemma gw_forward_permitted past request :
  cr_operation request ≠ OP_LOGIN → (∃ uid, uid ≠ 0%Z ∧ Obs GwUid (Ok uid) ∈ past) →
  guarded permitted past (gw_forward o request_size request).
Proof.
  intros Hop (uid & Hu & Hin). apply guarded_bind.
  { unfold rate_check. destruct (bool_decide _); [done|]. program_unfold. walk. }
  intros t allowed _. destruct allowed; simpl negb; cbv iota; [|apply error_permitted].
  apply or_error_permitted. apply guarded_bind; [by split|]. intros t' permit _. split; [|by intros [?|?]].
  split; [done|]. exists uid. split; [done|]. seen.
Qed.

Lemma route_endpoint op mode e :
  gateway_route_for op = Ok (mode, e) →
  (e = e_login ↔ op = OP_LOGIN) ∧ (e = e_acknowledge_request ↔ op = OP_ACKNOWLEDGE).
Proof.
  unfold gateway_route_for. destruct (find_route registry op) as [e'|] eqn:Hf; [|done]. intros [= ->].
  apply find_route_Some in Hf. unfold registry in Hf.
  repeat (apply elem_of_cons in Hf as [[= -> -> ->]|Hf]; [done|]). by apply elem_of_nil in Hf.
Qed.

Lemma gw_process_permitted past request : guarded permitted past (gw_process o id request_size request).
Proof.
  apply guarded_bind; [by split|]. intros t uid Hr%runs_perform.
  destruct (_ && _) eqn:Hu; [apply error_permitted|]. cbv zeta.
  destruct (Z.eqb_spec (validate request) 0) as [Hv|_]; simpl negb; cbv iota; [|apply error_permitted].
  destruct (gateway_route_for (cr_operation request)) as [[mode e]|x] eqn:Hroute; [|done].
  assert (cr_operation request ≠ OP_LOGIN → ∃ uid, uid ≠ 0%Z ∧ Obs GwUid (Ok uid) ∈ past ++ t) as Hlogged.
  { intros Hop. exists uid. rewrite bool_decide_eq_false_2 in Hu by done. simpl in Hu. apply Z.eqb_neq in Hu.
    split; [done|]. subst t. seen. }
  apply route_endpoint in Hroute as [He _].
  unfold gw_handle. destruct e.
  - apply gw_login_permitted; [done|]. by apply He.
  - unfold gw_ping. program_unfold. walk.
  - unfold gw_quit. program_unfold. walk.
  - unfold gw_acknowledge_request. cbv zeta. apply guarded_bind; [by split|]. intros t' [] _. destruct ((0 <? mr_conversation_id _)%Z && _); [|done].
    assert (cr_operation request ≠ OP_LOGIN) as Hop by (intros ?%He; done).
    destruct (Hlogged Hop) as (u & Hun & Hin). apply gw_forward_permitted; [done|]. exists u. split; [done|]. seen.
  - assert (cr_operation request ≠ OP_LOGIN) as Hop by (intros ?%He; done). apply gw_forward_permitted; [done|by apply Hlogged].
Qed.

Lemma read_loop_permitted past fuel input : guarded permitted past (read_loop o id request_size fuel input).
Proof.
  revert past input. induction fuel as [|fuel IH]; intros past input; [done|].
  apply guarded_bind; [by split|]. intros t closed _. destruct closed; [done|].
  destruct (next_frame input) as [payload rest|rest|]; [|apply IH|done].
  destruct (gateway_decode payload); [|done]. apply guarded_bind; [apply gw_process_permitted|]. intros t' [] _. apply IH.
Qed.

Lemma connection_run_permitted past input : guarded permitted past (connection_run o id request_size input).
Proof.
  apply guarded_bind.
  { apply guarded_catch; [apply read_loop_permitted|done]. }
  intros t [] _. apply guarded_bind; [by split|]. intros t1 [] _. apply guarded_bind; [by split|]. intros t2 [] _.
  apply guarded_bind; [by split|]. intros t5 closed _. apply guarded_bind; [by destruct closed|]. intros t6 [] _.
  apply guarded_bind; [by split|]. intros t3 uid Hr3%runs_perform.
  apply guarded_bind; [by split|]. intros t4 lease Hr4%runs_perform.
  destruct (_ && _) eqn:E; [|done]. conditions. split; [|by intros [?|?]].
  split_and!; [done|done|seen|seen].
Qed.

(** C5: a connection acts only for the user who logged in on it. Whatever the
    services answer and whatever happens to the connection meanwhile: it is bound
    to a uid only after the token of that uid was accepted, its profile found,
    the device found to be that user's, and with the lease the session store
    returned for this very connection; commands are accepted for forwarding only
    from a connection with a user, and a forwarded command carries the uid,
    device and generation of the connection, whose lease is fresh, not anything
    the client wrote; at the end only the lease of this login is cleared. *)
Theorem connection_acts_for_its_login {R} m t1 (e : gateway_event R) answer t2 r :
  (∃ input, m = connection_run o id request_size input) ∨ (∃ request permit, m = process_forward id request permit) →
  runs m (t1 ++ Obs e answer :: t2) r → permitted t1 R e.
Proof.
  intros Hm Hr. apply (guarded_runs permitted [] m t1 e answer t2 r); [|exact Hr].
  destruct Hm as [(input & ->)|(request & permit & ->)]; [apply connection_run_permitted|apply process_forward_permitted].
Qed.

(** ** Answers *)

Fixpoint sends (t : list gateway_obs) : list ClientEnvelope :=
  match t with
  | [] => []
  | Obs e _ :: t => match e with GwSend envelope => envelope :: sends t | _ => sends t end
  end.

(** The connection's own functions do not fail; services, admission and the
    other shards may. *)
Definition steady {R} (e : gateway_event R) (answer : outcome R) : Prop :=
  match e with
  | GwIo _ | GwResult _ | GwAdmit _ | GwClosePrevious _ => True
  | _ => ∃ a, answer = Ok a
  end.

Definition answers_to (request : ClientRequest) (e : ClientEnvelope) : Prop :=
  ∃ packet, e = response (MkClientResponse (cr_request_id request) (Some packet) (cr_operation request)).

(** One answer, or none because the connection is over, the request went to the
    background, or it is an acknowledgement. *)
Definition settled (request : ClientRequest) (t : list gateway_obs) : Prop :=
  (∃ e, sends t = [e] ∧ answers_to request e) ∨
  (sends t = [] ∧
   (Obs GwClosed (Ok true) ∈ t ∨ Obs GwClose (Ok tt) ∈ t ∨ (∃ permit, Obs (GwSpawn request permit) (Ok tt) ∈ t) ∨
    cr_operation request = OP_ACKNOWLEDGE)).

Fixpoint completes {A} (Q : list gateway_obs → outcome A → Prop) (past : list gateway_obs) (m : gateway_prog A) : Prop :=
  match m with
  | Done r => Q past r
  | Await e k => ∀ answer, steady e answer → completes Q (past ++ [Obs e answer]) (k answer)
  end.

Lemma completes_runs {A} Q past (m : gateway_prog A) t r :
  completes Q past m → runs m t r → Forall (λ x, match x with Obs e answer => steady e answer end) t → Q (past ++ t) r.
Proof.
  revert past t. induction m as [x|R e k IH]; intros past t; simpl.
  - intros HQ [-> ->] _. by rewrite app_nil_r.
  - intros Hk (x & t' & -> & Hr) [Hs Ht]%Forall_cons. rewrite (cons_middle _ past t'), app_assoc. by eapply IH; [apply Hk| |].
Qed.

Ltac finish :=
  repeat first
    [ match goal with
      | H : ∃ _, _ = Ok _ |- _ => destruct H as [? ?]; simplify_eq
      | |- completes _ _ (if ?b then _ else _) => destruct b eqn:?; simpl
      | |- completes _ _ (match ?x with _ => _ end) => destruct x eqn:?; simpl
      | |- completes _ _ (prog_bind _ (if ?b then _ else _)) => destruct b eqn:?; simpl
      | |- completes _ _ (prog_bind _ (match ?x with _ => _ end)) => destruct x eqn:?; simpl
      | x : () |- _ => destruct x
      | |- completes _ _ (Await _ _) => intros [?|?] ?; simpl in *
      | |- ∀ _ : outcome _, _ => intros [?|?] ?; simpl in *
      | |- completes _ _ (Done _) => simpl
      end ].

Lemma completes_bind {A B} Q past (m : gateway_prog A) (f : A → gateway_prog B) :
  completes (λ t r, match r with Ok a => completes Q t (f a) | Throw e => Q t (Throw e) end) past m →
  completes Q past (m ≫= f).
Proof.
  unfold mbind, prog_mbind. revert past. induction m as [[a|e]|R e k IH]; intros past; simpl; [done|done|].
  intros Hk answer Hs. by apply IH, Hk.
Qed.
Lemma completes_catch {A} Q past h (m : gateway_prog A) :
  completes (λ t r, match r with Ok a => Q t (Ok a) | Throw e => completes Q t (h e) end) past m →
  completes Q past (prog_catch h m).
Proof.
  revert past. induction m as [[a|e]|R e k IH]; intros past; simpl; [done|done|]. intros Hk answer Hs. by apply IH, Hk.
Qed.
Lemma completes_mono {A} (Q Q' : list gateway_obs → outcome A → Prop) past m :
  (∀ t r, Q t r → Q' t r) → completes Q past m → completes Q' past m.
Proof. intros HQ. revert past. induction m as [x|R e k IH]; intros past; simpl; auto. Qed.

Lemma sends_app t1 t2 : sends (t1 ++ t2) = sends t1 ++ sends t2.
Proof. induction t1 as [|[R e x] t1 IH]; simpl; [done|]. destruct e; by rewrite IH. Qed.

Lemma settled_app request t t' : settled request t → sends t' = [] → settled request (t ++ t').
Proof.
  intros [(e & Hs & He)|(Hs & Hc)] Hn; [left; exists e|right]; rewrite sends_app, Hs, Hn; (split; [done|]); [done|].
  destruct Hc as [Hc|[Hc|[(permit & Hc)|Hc]]].
  - left. apply elem_of_app. by left.
  - right. left. apply elem_of_app. by left.
  - right. right. left. exists permit. apply elem_of_app. by left.
  - by do 3 right.
Qed.

(** A handler that returns has settled the request; one that throws has not
    answered it. *)
Definition handled (request : ClientRequest) {A} (t : list gateway_obs) (r : outcome A) : Prop :=
  match r with Ok _ => settled request t | Throw _ => sends t = [] end.

Ltac settle :=
  match goal with Hp : sends ?past = [] |- _ =>
    first
      [ left; eexists; rewrite ?sends_app, Hp; split; [reflexivity|]; eexists; reflexivity
      | right; rewrite ?sends_app, Hp; split; [reflexivity|];
        first [left; seen | right; left; seen | right; right; left; eexists; seen | do 3 right; by eapply bool_decide_eq_true]
      | rewrite ?sends_app, Hp; reflexivity ] end.

Lemma error_settled request code past :
  sends past = [] → completes (λ t r, r = Ok tt ∧ settled request t) past (gw_error request code).
Proof. intros Hp. program_unfold. finish; conditions; (split; [done|]); settle. Qed.
Lemma respond_settled request packet past :
  sends past = [] → completes (λ t r, r = Ok tt ∧ settled request t) past (gw_respond request packet).
Proof. intros Hp. program_unfold. finish; (split; [done|]); settle. Qed.

Lemma login_bind_settled request lg past :
  sends past = [] →
  completes (λ t r, match r with Ok false => settled request t | _ => sends t = [] end) past (login_bind o id request lg).
Proof. intros Hp. unfold login_bind. program_unfold. finish; conditions; settle. Qed.

(** One event that is not an answer. *)
Lemma completes_perform {A R} (e : gateway_event R) Q past (f : R → gateway_prog A) :
  sends past = [] → (∀ answer, sends [Obs e answer] = []) →
  (∀ a, sends (past ++ [Obs e (Ok a)]) = [] → completes Q (past ++ [Obs e (Ok a)]) (f a)) →
  (∀ x, steady e (Throw x) → sends (past ++ [Obs e (Throw x)]) = [] → Q (past ++ [Obs e (Throw x)]) (Throw x)) →
  completes Q past (perform e ≫= f).
Proof.
  intros Hp He Hok Hthrow answer Hs. assert (sends (past ++ [Obs e answer]) = []) by (by rewrite sends_app, Hp, He).
  destruct answer; simpl; auto.
Qed.

Lemma settled_handled request m past :
  completes (λ t r, r = Ok tt ∧ settled request t) past m → completes (handled request) past m.
Proof. apply completes_mono. by intros t r [-> Hs]. Qed.

(** The next event of a handler. *)
Tactic Notation "next" ident(a) ident(H) :=
  apply completes_perform; [done|by intros|intros a H|first [intros x [? [=]] | intros ? _ ?; done]].
Tactic Notation "over" := simpl; right; split; [done|]; left; seen.

Lemma service_login_settled request past :
  sends past = [] → completes (handled request) past (service_login o id request).
Proof.
  intros Hp. unfold service_login. cbv zeta. next uid H1. next lease H2.
  destruct (_ && _); [by apply settled_handled, error_settled|].
  next valid H3. destruct (negb _); [by apply settled_handled, error_settled|]. next closed H4. destruct closed; [over|].
  next uid' H5. apply completes_bind. assert (∀ t, sends t = [] → completes (handled request) t
    (closed ← perform GwClosed; if (closed : bool) then mret tt else gw_respond request
      (SetTcpPacketStatus (MkPacket None (login_response (MkLoginResponse (lr_uid (login_of (packet_of request))))))
         (error_code Success) ""))) as Hend.
  { intros t Ht. next closed H6. destruct closed; [over|by apply settled_handled, respond_settled]. }
  destruct (_ =? _)%Z; [|by apply Hend]. eapply completes_mono; [|by apply login_bind_settled].
  intros t [[]|x] Ht; simpl; [by apply Hend|done|done].
Qed.

Lemma forward_answer_settled request result past :
  sends past = [] → completes (handled request) past (forward_answer request result).
Proof.
  intros Hp. unfold forward_answer. next closed H1. destruct closed; [over|]. destruct (_ =? _)%Z.
  { intros [[]|x] Hs; [|by destruct Hs]. simpl. right. split; [by rewrite sends_app, H1|]. right. left. seen. }
  destruct (bool_decide _) eqn:Ha; [simpl; right; split; [done|]; do 3 right; by eapply bool_decide_eq_true|].
  destruct (ParseFromString (cres_packet result));
    [by apply settled_handled, respond_settled|by apply settled_handled, error_settled].
Qed.

Lemma refresh_settled past :
  sends past = [] →
  completes (λ t r, sends t = [] ∧
    (r = Ok false → Obs GwClosed (Ok true) ∈ t ∨ Obs GwClose (Ok tt) ∈ t)) past gw_refresh.
Proof.
  intros Hp. unfold gw_refresh. program_unfold. finish; conditions;
    (split; [rewrite ?sends_app, Hp; reflexivity|intros [=]]); conditions; try (left; seen); try (right; seen).
Qed.

Lemma service_forward_settled request past :
  sends past = [] → completes (handled request) past (service_forward id request).
Proof.
  intros Hp. unfold service_forward. next closed H1. destruct closed; [over|].
  apply completes_bind. eapply completes_mono; [|by apply refresh_settled].
  intros t [[]|x] [Ht Hf]; [| |done]; simpl negb; cbv iota.
  - next uid H2. next lease H3. next ticket H4. next closed H5. apply completes_bind.
    assert (∀ t, sends t = [] → completes (handled request) t (result ← perform (GwResult ticket); forward_answer request result)) as Hend.
    { intros t' Ht'. next result H6. by apply forward_answer_settled. }
    destruct closed; [|by apply Hend]. intros [[]|x] Hs; [|by destruct Hs]. apply Hend. by rewrite sends_app, H5.
  - simpl. right. split; [done|]. destruct (Hf eq_refl); auto.
Qed.

(** A failed transaction is answered with its error. *)
Lemma or_error_settled request m past :
  completes (handled request) past m → completes (λ t r, r = Ok tt ∧ settled request t) past (or_error request m).
Proof.
  intros Hm. apply completes_catch. eapply completes_mono; [|exact Hm]. intros t [[]|[]] Ht; [done|by apply error_settled..].
Qed.

Lemma with_permit_settled request permit m past :
  completes (handled request) past m → completes (handled request) past (with_permit permit m).
Proof.
  intros Hm. apply completes_bind, completes_catch. eapply completes_mono; [|exact Hm]. intros t [[]|e] Ht.
  - intros [[]|x] Hs; [|by destruct Hs]. by apply settled_app.
  - intros [[]|x] Hs; [|by destruct Hs]. simpl in *. by rewrite sends_app, Ht.
Qed.

Definition answered (request : ClientRequest) (t : list gateway_obs) (r : outcome unit) : Prop :=
  r = Ok tt ∧ settled request t.

Lemma process_forward_settled request permit : completes (answered request) [] (process_forward id request permit).
Proof.
  apply completes_bind, completes_catch. eapply completes_mono; [|by apply or_error_settled, service_forward_settled].
  intros t r [-> Ht]. intros [[]|x] Hs; [|by destruct Hs]. split; [done|]. by apply settled_app.
Qed.

Lemma gw_forward_settled request past :
  sends past = [] → completes (answered request) past (gw_forward o request_size request).
Proof.
  intros Hp. apply completes_bind.
  assert (completes (λ t r, sends t = [] ∧ ∃ b, r = Ok b) past (rate_check o request)) as Hr.
  { unfold rate_check. destruct (bool_decide _); [simpl; eauto|]. program_unfold. finish;
      (split; [rewrite ?sends_app, Hp; reflexivity|eauto]). }
  eapply completes_mono; [|exact Hr]. intros t ? [Ht [[] ->]]; simpl negb; cbv iota; [|by apply error_settled].
  apply or_error_settled. next permit H1. intros [[]|x] Hs; [|by destruct Hs].
  simpl. right. split; [by rewrite sends_app, H1|]. do 2 right. left. exists permit. seen.
Qed.

Lemma gw_process_settled request mode e :
  gateway_route_for (cr_operation request) = Ok (mode, e) →
  completes (answered request) [] (gw_process o id request_size request).
Proof.
  intros Hroute. unfold gw_process. cbv zeta. next uid H1. destruct (_ && _); [by apply error_settled|].
  destruct (negb _); [by apply error_settled|]. rewrite Hroute. unfold gw_handle. destruct e.
  - apply or_error_settled. next permit H2. by apply with_permit_settled, service_login_settled.
  - by apply respond_settled.
  - unfold gw_quit. next u H2. apply completes_bind. eapply completes_mono; [|by apply respond_settled].
    intros t r [-> Ht]. intros [[]|x] Hs; [|by destruct Hs]. simpl. intros [[]|x] Hs'; [|by destruct Hs'].
    split; [done|]. by apply settled_app; [apply settled_app|].
  - unfold gw_acknowledge_request. cbv zeta. next u H2. destruct (_ && _); [by apply gw_forward_settled|].
    simpl. split; [done|]. right. split; [done|]. do 3 right. by apply (route_endpoint _ _ _ Hroute).
  - by apply gw_forward_settled.
Qed.

(** Every request of a client gets one answer. A request that the Gateway
    decodes ends with exactly one response, with its own request id and
    operation, unless the connection was closed meanwhile, or it was handed to
    the background, or it is an acknowledgement, which has none; and what was
    handed to the background ends the same way. This holds for every failure of
    the services. *)
Theorem client_requests_settled payload request permit m t r :
  gateway_decode payload = Ok request →
  m = gw_process o id request_size request ∨ m = process_forward id request permit →
  runs m t r → Forall (λ x, match x with Obs e answer => steady e answer end) t →
  r = Ok tt ∧ settled request t.
Proof.
  intros Hd Hm Hr Ht. assert (∃ route, gateway_route_for (cr_operation request) = Ok route) as [[mode e] Hroute].
  { unfold gateway_decode in Hd. destruct (ParseFromString payload) as [[|body| |]|]; try done.
    destruct (_ || _); [done|]. destruct (gateway_route_for _) eqn:E; [|done]. injection Hd as <-. eauto. }
  destruct Hm as [->| ->];
    [apply (completes_runs (answered request) [] _ _ _ (gw_process_settled request mode e Hroute) Hr Ht)
    |apply (completes_runs (answered request) [] _ _ _ (process_forward_settled request permit) Hr Ht)].
Qed.
End theorems.

(** ** The rate of commands *)

(** The commands of a connection at these times: which are let through. *)
Fixpoint window_run (limit : Z) (w : command_window) (times : list Z) : list (Z * bool) :=
  match times with
  | [] => []
  | now :: times => let '(allowed, w) := count_command limit now w in (now, allowed) :: window_run limit w times
  end.

(** How many were let through in the second that begins at [a]. *)
Definition let_through (a : Z) (l : list (Z * bool)) : Z :=
  Z.of_nat (length (filter (λ p, p.2 = true ∧ (a ≤ p.1 < a + 1000)%Z) l)).

Lemma let_through_cons a now b l :
  let_through a ((now, b) :: l) =
    ((if decide (b = true ∧ (a ≤ now < a + 1000)%Z) then 1 else 0) + let_through a l)%Z.
Proof. unfold let_through. rewrite filter_cons. simpl. case_decide; simpl; lia. Qed.

Lemma let_through_late limit w a times :
  Forall (λ t, (a + 1000 ≤ t)%Z) times → let_through a (window_run limit w times) = 0%Z.
Proof.
  revert w. induction times as [|now times IH]; intros w; [done|]. intros [Hn Ht]%Forall_cons. simpl.
  destruct (count_command limit now w) as [b w']. rewrite let_through_cons, IH by done. rewrite decide_False; lia.
Qed.

(** One command: a new window, or one more in the current one. *)
Lemma count_command_spec limit now w :
  (0 < limit)%Z → (0 ≤ cw_commands w < 2 ^ 32 - 1)%Z →
  count_command limit now w =
    if (1000 <=? now - cw_started w)%Z then (true, MkWindow now 1)
    else (negb (limit <? cw_commands w + 1)%Z, MkWindow (cw_started w) (cw_commands w + 1)).
Proof.
  intros Hl Hc. unfold count_command. rewrite (proj2 (Z.eqb_neq _ _)) by lia.
  destruct (1000 <=? now - cw_started w)%Z; cbn [cw_commands cw_started]; rewrite Z.mod_small by lia; [|done].
  by rewrite (proj2 (Z.ltb_ge limit (0 + 1))) by lia.
Qed.

Section rate.
Context (limit : Z) (Hlimit : (0 < limit < 2 ^ 32)%Z) (a : Z).

(** The current window began inside the second, or after it. *)
Lemma rate_inside w times :
  (a ≤ cw_started w)%Z → (0 ≤ cw_commands w)%Z → (cw_commands w + Z.of_nat (length times) < 2 ^ 32)%Z →
  StronglySorted Z.le times →
  (let_through a (window_run limit w times) ≤ Z.max 0 (limit - cw_commands w))%Z.
Proof.
  intros Ha Hc Hn Hs. revert w Ha Hc Hn. induction Hs as [|now times Hs IH Ht]; intros w Ha Hc Hn; simpl in *.
  { unfold let_through. simpl. lia. }
  rewrite count_command_spec by lia. destruct (Z.leb_spec 1000 (now - cw_started w)); rewrite let_through_cons.
  - rewrite let_through_late by (eapply Forall_impl; [exact Ht|intros; simpl in *; lia]). rewrite decide_False; lia.
  - specialize (IH (MkWindow (cw_started w) (cw_commands w + 1))). simpl in IH. case_decide as Hd.
    + destruct Hd as [Hd%negb_true_iff%Z.ltb_ge _]. specialize (IH Ha ltac:(lia) ltac:(lia)). lia.
    + specialize (IH Ha ltac:(lia) ltac:(lia)). lia.
Qed.

(** All commands from the beginning of the second on. *)
Lemma rate_from w times :
  Forall (Z.le a) times → (0 ≤ cw_commands w)%Z → (cw_commands w + Z.of_nat (length times) < 2 ^ 32)%Z →
  StronglySorted Z.le times →
  (let_through a (window_run limit w times) ≤ Z.max 0 (limit - cw_commands w) + limit)%Z.
Proof.
  intros Ha Hc Hn Hs. revert w Ha Hc Hn. induction Hs as [|now times Hs IH Ht]; intros w Ha Hc Hn; simpl in *.
  { unfold let_through. simpl. lia. }
  apply Forall_cons in Ha as [Ha Has]. rewrite count_command_spec by lia.
  destruct (Z.leb_spec 1000 (now - cw_started w)); rewrite let_through_cons.
  - pose proof (rate_inside (MkWindow now 1) times Ha ltac:(simpl; lia) ltac:(simpl; lia) Hs). simpl in *.
    case_decide; lia.
  - specialize (IH (MkWindow (cw_started w) (cw_commands w + 1)) Has ltac:(simpl; lia) ltac:(simpl; lia)). simpl in IH.
    case_decide as Hd; [destruct Hd as [Hd%negb_true_iff%Z.ltb_ge _]|]; lia.
Qed.

(** The rate limit. In no second are more than twice the configured number of
    commands of a connection let through, wherever the second begins and however
    many commands arrive (up to the range of the counter). *)
Theorem rate_limited w times :
  (0 ≤ cw_commands w)%Z → (cw_commands w + Z.of_nat (length times) < 2 ^ 32)%Z → StronglySorted Z.le times →
  (let_through a (window_run limit w times) ≤ 2 * limit)%Z.
Proof.
  intros Hc Hn Hs. revert w Hc Hn. induction Hs as [|now times Hs IH Ht]; intros w Hc Hn.
  { unfold let_through. simpl. lia. }
  destruct (Z.le_gt_cases a now) as [Ha|Ha].
  - assert (Forall (Z.le a) (now :: times)) as Hall.
    { constructor; [done|]. eapply Forall_impl; [exact Ht|intros; simpl in *; lia]. }
    pose proof (rate_from w (now :: times) Hall Hc Hn ltac:(by constructor)). lia.
  - simpl in *. rewrite count_command_spec by lia.
    destruct (_ <=? _)%Z; rewrite let_through_cons, decide_False by lia; apply IH; simpl; lia.
Qed.
End rate.

(** ** Witnesses *)

Lemma rate_limited_witness :
  (let_through 990 (window_run 2 (MkWindow 0 0) [0; 1; 995; 996; 1000; 1001; 1002]) ≤ 2 * 2)%Z.
Proof.
  apply (rate_limited 2 ltac:(lia) 990 (MkWindow 0 0) [0; 1; 995; 996; 1000; 1001; 1002]%Z); [simpl; lia|simpl; lia|].
  repeat constructor; lia.
Defined.

Definition demo_ping : ClientRequest := MkClientRequest "r1" (Some (MkPacket None ping_request)) OP_PING.
Definition demo_client_print (e : ClientEnvelope) : string := match e with request _ => "request" | _ => "other" end.
Definition demo_client_parse (s : string) : option ClientEnvelope :=
  if bool_decide (s = "request") then Some (request demo_ping) else None.
Lemma demo_client_law e : e = request demo_ping → demo_client_parse (demo_client_print e) = Some e.
Proof. by intros ->. Qed.
Definition demo_client_codec : ProtobufCodec ClientEnvelope :=
  {| SerializeToString := demo_client_print; ParseFromString := demo_client_parse;
     serializable := λ e, e = request demo_ping; parse_serialize := demo_client_law |}.
Definition demo_any_print (p : Packet) : string := "packet".
Definition demo_any_parse (s : string) : option Packet := None.
Lemma demo_any_law p : False → demo_any_parse (demo_any_print p) = Some p.
Proof. done. Qed.
Definition demo_any_codec : ProtobufCodec Packet :=
  {| SerializeToString := demo_any_print; ParseFromString := demo_any_parse;
     serializable := λ _, False; parse_serialize := demo_any_law |}.
#[local] Existing Instance demo_client_codec.
#[local] Existing Instance demo_any_codec.

Definition demo_gateway_options : gateway_options := MkGatewayOptions "gw" "i-1" 0 100.

Lemma client_requests_settled_witness :
  settled demo_ping
    [Obs GwUid (Ok 1001%Z);
     Obs (GwSend (response (MkClientResponse "r1"
       (Some (SetTcpPacketStatus (MkPacket None ping_response) (error_code Success) "")) OP_PING))) (Ok true)].
Proof.
  apply (client_requests_settled demo_gateway_options "c1" (λ _, 1%Z) "request" demo_ping 1%Z
    (gw_process demo_gateway_options "c1" (λ _, 1%Z) demo_ping) _ (Ok tt)).
  - vm_compute. reflexivity.
  - left. reflexivity.
  - simpl. eexists _, _. split; [reflexivity|]. simpl. eexists _, _. split; [reflexivity|]. split; reflexivity.
  - repeat constructor; simpl; eauto.
Defined.

(** A command of a connection that logged in as 1001. *)
Definition demo_text : ClientRequest :=
  MkClientRequest "r2" (Some (MkPacket None (send_text_request (MkSendTextRequest 1002 "hello" "k1" 0)))) OP_SEND_TEXT.
Definition demo_lease_1001 : SessionLease := MkSessionLease "laptop" "gw" "i-1" "c1" 4 0.
Definition demo_before : list gateway_obs :=
  [Obs GwClosed (Ok false); Obs GwClosed (Ok false); Obs GwNow (Ok 5000%Z); Obs GwLastRefresh (Ok 4000%Z);
   Obs GwUid (Ok 1001%Z); Obs GwLease (Ok demo_lease_1001)].
Definition demo_after : list gateway_obs :=
  [Obs GwClosed (Ok false); Obs (GwResult 0) (Throw Stopped);
   Obs (GwSend (response (MkClientResponse "r2" (Some (MakeErrorPacket (error_code DependencyUnavailable) "")) OP_SEND_TEXT)))
     (Ok true);
   Obs (GwRelease 1%Z) (Ok tt)].

Lemma connection_acts_for_its_login_witness :
  let c := command_envelope "c1" demo_text 1001 demo_lease_1001 in
  ∃ uid lease, Obs GwUid (Ok uid) ∈ demo_before ∧ Obs GwLease (Ok lease) ∈ demo_before ∧ lease_fresh demo_before ∧
    ce_actor_uid c = uid ∧ ce_connection_id c = "c1" ∧ ce_connection_generation c = sl_generation lease ∧
    ce_actor_device_id c = sl_device_id lease.
Proof.
  apply (connection_acts_for_its_login demo_gateway_options "c1" (λ _, 1%Z) (process_forward "c1" demo_text 1%Z) demo_before
    (GwIo (op_send_command (command_envelope "c1" demo_text 1001 demo_lease_1001))) (Ok 0) demo_after (Ok tt)).
  - right. exists demo_text, 1%Z. reflexivity.
  - simpl. do 11 (eexists _, _; split; [reflexivity|]; simpl). split; reflexivity.
Defined.
