(* ===== verification/MessageTransport.v ===== *)
(** * The Message side of the Gateway streams: message/transport/server.cc

    The streams of one shard, the index of the registered ones, and the frames
    on their way out. gRPC calls back (OnReadDone, OnWriteDone, OnCancel, OnDone)
    and two coroutines run on their own: the one that processes a frame that was
    read, and one for each frame to write, which waits for the stream's write
    slot. Each callback, each call from the transactions and each stretch of a
    coroutine between two suspensions is one step. *)

From S2P Require Import Prelude Codec Seastar Budget Process Protocol.

(** message_io::options: what the transport reads of it, and the shard it runs on. *)
Record transport_options := MkTransportOptions {
  to_shards : Z; to_shard_id : Z; to_mtls : bool; to_node_id : string }.

Abbreviation out_frame := (MessageToGatewayFrame * capacity_units)%type.

(** The write slot of a stream: free; granted to a coroutine that has not run
    since; its frame handed to StartWrite ([_write_done] is set); or completed,
    with the coroutine not resumed yet. *)
Inductive write_phase :=
  | Free
  | Granted (f : out_frame)
  | Writing (f : out_frame)
  | Written (f : out_frame) (ok : bool).

(** [st_waiting] are the coroutines that wait for the slot; [st_read]: a read is
    outstanding; [st_frame]: a frame was read and is to be processed. What was
    enqueued and what was handed to StartWrite is recorded. *)
Record stream := MkStream {
  st_route : stream_route; st_peers : list string;
  st_registered : bool; st_stopping : bool; st_finishing : bool; st_finished : bool;
  st_phase : write_phase; st_waiting : list out_frame;
  st_read : bool; st_frame : option GatewayToMessageFrame;
  st_enqueued : list MessageToGatewayFrame; st_started : list MessageToGatewayFrame }.

Definition set_route (r : stream_route) (s : stream) : stream :=
  MkStream r (st_peers s) (st_registered s) (st_stopping s) (st_finishing s) (st_finished s) (st_phase s)
    (st_waiting s) (st_read s) (st_frame s) (st_enqueued s) (st_started s).
Definition set_registered (b : bool) (s : stream) : stream :=
  MkStream (st_route s) (st_peers s) b (st_stopping s) (st_finishing s) (st_finished s) (st_phase s)
    (st_waiting s) (st_read s) (st_frame s) (st_enqueued s) (st_started s).
Definition set_stopping (b : bool) (s : stream) : stream :=
  MkStream (st_route s) (st_peers s) (st_registered s) b (st_finishing s) (st_finished s) (st_phase s)
    (st_waiting s) (st_read s) (st_frame s) (st_enqueued s) (st_started s).
Definition set_finishing (b : bool) (s : stream) : stream :=
  MkStream (st_route s) (st_peers s) (st_registered s) (st_stopping s) b (st_finished s) (st_phase s)
    (st_waiting s) (st_read s) (st_frame s) (st_enqueued s) (st_started s).
Definition set_phase (p : write_phase) (s : stream) : stream :=
  MkStream (st_route s) (st_peers s) (st_registered s) (st_stopping s) (st_finishing s) (st_finished s) p
    (st_waiting s) (st_read s) (st_frame s) (st_enqueued s) (st_started s).
Definition set_waiting (l : list out_frame) (s : stream) : stream :=
  MkStream (st_route s) (st_peers s) (st_registered s) (st_stopping s) (st_finishing s) (st_finished s) (st_phase s)
    l (st_read s) (st_frame s) (st_enqueued s) (st_started s).
Definition set_read (b : bool) (f : option GatewayToMessageFrame) (s : stream) : stream :=
  MkStream (st_route s) (st_peers s) (st_registered s) (st_stopping s) (st_finishing s) (st_finished s) (st_phase s)
    (st_waiting s) b f (st_enqueued s) (st_started s).
Definition log_enqueued (f : MessageToGatewayFrame) (s : stream) : stream :=
  MkStream (st_route s) (st_peers s) (st_registered s) (st_stopping s) (st_finishing s) (st_finished s) (st_phase s)
    (st_waiting s) (st_read s) (st_frame s) (st_enqueued s ++ [f]) (st_started s).
Definition log_started (f : MessageToGatewayFrame) (s : stream) : stream :=
  MkStream (st_route s) (st_peers s) (st_registered s) (st_stopping s) (st_finishing s) (st_finished s) (st_phase s)
    (st_waiting s) (st_read s) (st_frame s) (st_enqueued s) (st_started s ++ [f]).

Definition stream_key : Type := string * string * Z.
Definition key_of (r : stream_route) : stream_key := (sr_gateway_id r, sr_instance_id r, sr_shard_id r).

Section transport.
Context {SEM : Semaphore} (frame_size : MessageToGatewayFrame → Z) (o : transport_options).

(** The server: [tp_commands] records the calls of [_command]; [tp_ending] are
    the units of write coroutines that will end without writing. *)
Record transport := MkTransport {
  tp_writes : budget; tp_streams : gmap Z stream; tp_registered : gmap stream_key Z; tp_next_token : Z;
  tp_stopping : bool; tp_commands : list (stream_route * CommandEnvelope); tp_ending : list capacity_units }.

Definition set_writes (b : budget) (t : transport) : transport :=
  MkTransport b (tp_streams t) (tp_registered t) (tp_next_token t) (tp_stopping t) (tp_commands t) (tp_ending t).
Definition set_streams (m : gmap Z stream) (t : transport) : transport :=
  MkTransport (tp_writes t) m (tp_registered t) (tp_next_token t) (tp_stopping t) (tp_commands t) (tp_ending t).
Definition set_index (m : gmap stream_key Z) (t : transport) : transport :=
  MkTransport (tp_writes t) (tp_streams t) m (tp_next_token t) (tp_stopping t) (tp_commands t) (tp_ending t).
Definition set_ending (l : list capacity_units) (t : transport) : transport :=
  MkTransport (tp_writes t) (tp_streams t) (tp_registered t) (tp_next_token t) (tp_stopping t) (tp_commands t) l.

Definition put_stream (token : Z) (s : stream) : Eff transport unit :=
  modify (λ t, set_streams (<[token := s]> (tp_streams t)) t).
(** _streams.at *)
Definition at_token (token : Z) : Eff transport stream := λ t,
  match tp_streams t !! token with
  | Some s => (Ok s, t)
  | None => (Throw (LogicError "map::at"), t)
  end.

(** ** stream *)

Definition writing (s : stream) : bool := match st_phase s with Writing _ => true | _ => false end.

Definition finish (s : stream) : stream :=
  if negb (st_finishing s) && negb (st_finished s) && negb (writing s) then set_finishing true s else s.

(** The units of the coroutines whose wait the broken slot ends. *)
Definition stop_stream (token : Z) : Eff transport unit := λ t,
  match tp_streams t !! token with
  | None => (Ok tt, t)
  | Some s =>
      if st_stopping s || st_finished s then (Ok tt, t)
      else
        let s' := finish (set_waiting [] (set_stopping true s)) in
        (Ok tt, set_ending (tp_ending t ++ map snd (st_waiting s)) (set_streams (<[token := s']> (tp_streams t)) t))
  end.

(** get_units on the write slot: granted at once when it is free. *)
Definition await_slot (f : out_frame) (s : stream) : stream :=
  match st_phase s with
  | Free => set_phase (Granted f) s
  | _ => set_waiting (st_waiting s ++ [f]) s
  end.

Definition acquire_writes (bytes : Z) : Eff transport capacity_units := λ t,
  let '(r, b) := acquire bytes (tp_writes t) in (r, set_writes b t).

Definition enqueue (token : Z) (frame : MessageToGatewayFrame) : Eff transport unit :=
  s ← at_token token;
  if st_stopping s then throw Stopped
  else
    units ← acquire_writes (frame_size frame);
    put_stream token (log_enqueued frame (await_slot (frame, units) s)).

(** The slot of a coroutine that ends goes to the next one that waits. *)
Definition pass_slot (s : stream) : stream :=
  match st_waiting s with
  | [] => set_phase Free s
  | f :: l => set_phase (Granted f) (set_waiting l s)
  end.

Definition release_units (units : capacity_units) : Eff transport unit :=
  modify (λ t, set_writes (release units (tp_writes t)) t).

(** write, from the grant of the slot to its suspension or end. *)
Definition write_begin (token : Z) : Eff transport unit :=
  s ← at_token token;
  match st_phase s with
  | Granted f =>
      if st_stopping s then put_stream token (pass_slot s) ;; release_units f.2
      else put_stream token (log_started f.1 (set_phase (Writing f) s))
  | _ => mret tt
  end.

(** write, resumed by the completion. *)
Definition write_end (token : Z) : Eff transport unit :=
  s ← at_token token;
  match st_phase s with
  | Written f ok =>
      (if ok then mret tt else stop_stream token) ;;
      s ← at_token token;
      put_stream token (pass_slot s) ;; release_units f.2
  | _ => mret tt
  end.

(** OnReadDone *)
Definition OnReadDone (token : Z) (ok : bool) (frame : GatewayToMessageFrame) : Eff transport unit :=
  s ← at_token token;
  put_stream token (set_read false (st_frame s) s) ;;
  if negb ok || st_stopping s then stop_stream token
  else put_stream token (set_read false (Some frame) s).

Definition OnWriteDone (token : Z) (ok : bool) : Eff transport unit :=
  s ← at_token token;
  match st_phase s with
  | Writing f =>
      put_stream token (set_phase (Written f ok) s) ;;
      (if negb ok then stop_stream token else mret tt) ;;
      s ← at_token token;
      (if st_stopping s then put_stream token (finish s) else mret tt)
  | _ => mret tt
  end.

(** ** server *)

Definition owned_units (s : stream) : list capacity_units :=
  match st_phase s with
  | Free => []
  | Granted f | Writing f | Written f _ => [f.2]
  end ++ map snd (st_waiting s).

(** OnDone and on_grpc_done; coroutines that still run keep their units. *)
Definition OnDone (token : Z) : Eff transport unit :=
  s ← at_token token;
  modify (λ t,
    let key := key_of (st_route s) in
    let index :=
      if st_registered s && bool_decide (tp_registered t !! key = Some (sr_token (st_route s)))
      then delete key (tp_registered t) else tp_registered t in
    set_ending (tp_ending t ++ owned_units s)
      (set_index index (set_streams (delete (sr_token (st_route s)) (tp_streams t)) t))).

(** A write coroutine of a stream that is done, or whose wait was broken, ends. *)
Definition coroutine_ends (i : nat) : Eff transport unit :=
  t ← get;
  match tp_ending t !! i with
  | Some units => modify (λ t, set_ending (delete i (tp_ending t)) t) ;; release_units units
  | None => mret tt
  end.

Definition Connect (peers : list string) : Eff transport unit := λ t,
  let token := u64 (tp_next_token t + 1) in
  let t := MkTransport (tp_writes t) (tp_streams t) (tp_registered t) token (tp_stopping t) (tp_commands t) (tp_ending t) in
  let s := MkStream (MkRoute "" "" 0 token) peers false false false false Free [] false None [] [] in
  let s := if tp_stopping t then s else set_read true None s in
  let t := match tp_streams t !! token with
           | Some _ => t
           | None => set_streams (<[token := s]> (tp_streams t)) t
           end in
  if tp_stopping t then stop_stream token t else (Ok tt, t).

Definition valid_registration (t : transport) (s : stream) (registration : RegisterGateway) : bool :=
  negb (tp_stopping t) && negb (st_registered s) && (rg_protocol_version registration =? 1)%Z &&
  negb (bool_decide (rg_gateway_id registration = "")) && negb (bool_decide (rg_instance_id registration = "")) &&
  (owner_shard (rg_gateway_id registration) (to_shards o) =? to_shard_id o)%Z &&
  (negb (to_mtls o) || bool_decide (rg_gateway_id registration ∈ st_peers s)).

Definition register_stream (token : Z) (registration : RegisterGateway) : Eff transport unit :=
  s ← at_token token;
  t ← get;
  if negb (valid_registration t s registration) then stop_stream token
  else
    let route := MkRoute (rg_gateway_id registration) (rg_instance_id registration) (rg_shard_id registration)
                   (sr_token (st_route s)) in
    put_stream token (set_route route s) ;;
    modify (λ t, set_index (<[key_of route := sr_token route]> (tp_registered t)) t) ;;
    match tp_registered t !! key_of route with
    | Some old => _ ← at_token old; stop_stream old
    | None => mret tt
    end ;;
    s ← at_token token;
    put_stream token (set_registered true s) ;;
    enqueue token (register_result (MkRegisterResult true (to_node_id o) (rg_stream_epoch registration) "")).

Definition process_frame (token : Z) (frame : GatewayToMessageFrame) : Eff transport unit :=
  s ← at_token token;
  t ← get;
  if st_stopping s || tp_stopping t then stop_stream token
  else
    match frame with
    | register_gateway registration => register_stream token registration
    | _ =>
      if negb (st_registered s) then stop_stream token
      else
        match frame with
        | heartbeat h => enqueue token (heartbeat_ack h)
        | command c =>
            modify (λ t, MkTransport (tp_writes t) (tp_streams t) (tp_registered t) (tp_next_token t)
              (tp_stopping t) (tp_commands t ++ [(st_route s, c)]) (tp_ending t))
        | client_forward_ack _ => mret tt
        | _ => stop_stream token
        end
    end ;;
    s ← at_token token;
    if negb (st_stopping s) then put_stream token (set_read true (st_frame s) s) else mret tt.

(** process on the frame that was read; an exception stops the stream. A stream
    that is done is stopping: nothing is left to do. *)
Definition process (token : Z) : Eff transport unit :=
  t ← get;
  match tp_streams t !! token with
  | Some s =>
      match st_frame s with
      | Some frame =>
          put_stream token (set_read (st_read s) None s) ;;
          (try process_frame token frame with e => stop_stream token)
      | None => mret tt
      end
  | None => mret tt
  end.

Definition reply (route : stream_route) (frame : MessageToGatewayFrame) : Eff transport bool :=
  t ← get;
  if tp_stopping t then mret false
  else
    match tp_registered t !! key_of route with
    | None => mret false
    | Some token =>
        if negb (token =? sr_token route)%Z then mret false
        else
          try (enqueue token frame ;; mret true)
          with e =>
            match e with
            | Overloaded => _ ← at_token token; stop_stream token ;; mret false
            | Stopped => mret false
            | e => throw e
            end
    end.

Definition forward (lease : SessionLease) (envelope : ClientForwardEnvelope) : Eff transport ClientForwardStatus :=
  t ← get;
  if tp_stopping t then mret CLIENT_FORWARD_STATUS_OFFLINE
  else
    match tp_registered t !! (sl_gateway_id lease, sl_instance_id lease, sl_shard_id lease) with
    | None => mret CLIENT_FORWARD_STATUS_OFFLINE
    | Some token =>
        try (enqueue token (client_forward envelope) ;; mret CLIENT_FORWARD_STATUS_QUEUED)
        with e =>
          match e with
          | Overloaded => mret CLIENT_FORWARD_STATUS_BACKPRESSURED
          | Stopped => mret CLIENT_FORWARD_STATUS_OFFLINE
          | e => throw e
          end
    end.

Definition begin_stop : Eff transport unit :=
  modify (λ t, MkTransport (tp_writes t) (tp_streams t) (tp_registered t) (tp_next_token t) true
    (tp_commands t) (tp_ending t)) ;;
  t ← get;
  forM (map fst (map_to_list (tp_streams t))) stop_stream.
End transport.
