(* ===== verification/TransportTheorems.v ===== *)
(** * The streams of the Message transport

    An invariant of message/transport/server.cc over every interleaving of the
    callbacks, coroutines and calls, and what follows from it: replies reach
    the stream their command came from, frames leave in order, write capacity is
    conserved and gRPC is called as it demands. *)

From S2P Require Import Prelude Codec Seastar Budget Process Protocol MessageTransport.

Section theorems.
Context {SEM : Semaphore} (frame_size : MessageToGatewayFrame → Z) (o : transport_options).
Context (frame_size_pos : ∀ f, (0 ≤ frame_size f)%Z) (max_writes max_write_bytes : Z).
(** The identities in the certificate of the call that gets a token *)
Context (certificate : Z → list string).

(** ** The invariant *)

Definition granted (s : stream) : list MessageToGatewayFrame :=
  match st_phase s with Granted f => [f.1] | _ => [] end.

(** What was checked of the identity of a registered stream. *)
Definition admitted_route (r : stream_route) : Prop :=
  sr_gateway_id r ≠ "" ∧ sr_instance_id r ≠ "" ∧ owner_shard (sr_gateway_id r) (to_shards o) = to_shard_id o ∧
  (to_mtls o = true → sr_gateway_id r ∈ certificate (sr_token r)).

(** One stream: [so_finish] and [so_ended] are the rules of gRPC (no write is
    outstanding once Finish is called, and Finish is called once a stream
    stops), [so_order] the order of its frames. *)
Record stream_ok (s : stream) : Prop := {
  so_finished : st_finished s = false;
  so_finish : st_finishing s = true → st_stopping s = true ∧ writing s = false;
  so_ended : st_stopping s = true → st_waiting s = [] ∧ (st_finishing s = true ∨ writing s = true);
  so_free : st_phase s = Free → st_waiting s = [];
  so_order : st_stopping s = false → st_enqueued s = st_started s ++ granted s ++ map fst (st_waiting s);
  so_prefix : st_started s `prefix_of` st_enqueued s;
  so_read : st_read s = true → st_frame s = None;
  so_admitted : (st_registered s = true → admitted_route (st_route s)) ∧
    st_peers s = certificate (sr_token (st_route s))
}.

Definition held_units (m : gmap Z stream) : list capacity_units := map_to_list m ≫= (λ ks, owned_units ks.2).

Record transport_ok (t : transport) : Prop := {
  tk_streams token s : tp_streams t !! token = Some s →
    stream_ok s ∧ sr_token (st_route s) = token ∧ (0 < token ≤ tp_next_token t)%Z ∧
    (st_registered s = true → st_stopping s = false → tp_registered t !! key_of (st_route s) = Some token);
  tk_index key token : tp_registered t !! key = Some token →
    ∃ s, tp_streams t !! token = Some s ∧ st_registered s = true ∧ key_of (st_route s) = key;
  tk_next : (0 ≤ tp_next_token t < two64)%Z;
  tk_commands r c : (r, c) ∈ tp_commands t →
    (0 < sr_token r ≤ tp_next_token t)%Z ∧ admitted_route r ∧
    ∀ s, tp_streams t !! sr_token r = Some s → st_registered s = true ∧ st_route s = r;
  tk_units : balanced max_writes max_write_bytes (held_units (tp_streams t) ++ tp_ending t) (tp_writes t)
}.

Lemma bind_at {B} token (k : stream → Eff transport B) t :
  (at_token token ≫= k) t =
    match tp_streams t !! token with Some s => k s t | None => (Throw (LogicError "map::at"), t) end.
Proof. unfold mbind, eff_bind, at_token. by destruct (tp_streams t !! token). Qed.

(** ** Changing one stream *)

Lemma held_units_insert m token s s' :
  m !! token = Some s →
  ∃ rest, held_units m ≡ₚ owned_units s ++ rest ∧ held_units (<[token := s']> m) ≡ₚ owned_units s' ++ rest.
Proof.
  intros Hm. exists (held_units (delete token m)). unfold held_units. split.
  - rewrite <- (map_to_list_delete _ _ _ Hm). done.
  - rewrite <- insert_delete_eq, map_to_list_insert by apply lookup_delete_eq. done.
Qed.

Lemma held_units_new m token s : m !! token = None → held_units (<[token := s]> m) ≡ₚ owned_units s ++ held_units m.
Proof. intros Hm. unfold held_units. by rewrite map_to_list_insert. Qed.

(** A stream that changes without changing who it is; the units that come and
    go are those of the frames it owns and of the coroutines that end. *)
Lemma ok_update t token s s' b ending :
  transport_ok t → tp_streams t !! token = Some s →
  stream_ok s' → st_route s' = st_route s → st_registered s' = st_registered s →
  (st_stopping s' = false → st_stopping s = false) →
  (∀ rest, balanced max_writes max_write_bytes (owned_units s ++ rest ++ tp_ending t) (tp_writes t) →
           balanced max_writes max_write_bytes (owned_units s' ++ rest ++ ending) b) →
  transport_ok (MkTransport b (<[token := s']> (tp_streams t)) (tp_registered t) (tp_next_token t) (tp_stopping t)
                  (tp_commands t) ending).
Proof.
  intros [Hs Hi Hn Hc Hu] Hl Hok Hr Hg Hst Hb. split; simpl; [| |done| |].
  - intros token' x [[<- <-]|[Hne Hx]]%lookup_insert_Some; [|by apply Hs].
    destruct (Hs _ _ Hl) as (_ & Ht & Hle & Hreg). rewrite Hr, Hg. split_and!; auto; lia.
  - intros key token' (x & Hx & Hxr & Hk)%Hi. destruct (decide (token' = token)) as [->|Hne].
    + rewrite lookup_insert_eq. exists s'. simplify_eq. by rewrite Hr, Hg.
    + rewrite lookup_insert_ne by done. eauto.
  - intros r c (Hle & Hp & Hx)%Hc. split_and!; [lia..|done|].
    intros x [[Ht <-]|[_ Hx']]%lookup_insert_Some; [|by apply Hx]. subst token. rewrite Hr, Hg. by apply Hx.
  - destruct (held_units_insert _ _ _ s' Hl) as (rest & H1 & H2).
    eapply balanced_perm; [by rewrite H2, <- (assoc_L (++))|]. apply Hb.
    eapply balanced_perm; [|exact Hu]. by rewrite H1, <- (assoc_L (++)).
Qed.

Lemma ok_put t token s s' :
  transport_ok t → tp_streams t !! token = Some s →
  stream_ok s' → st_route s' = st_route s → st_registered s' = st_registered s →
  (st_stopping s' = false → st_stopping s = false) → owned_units s' ≡ₚ owned_units s →
  transport_ok (set_streams (<[token := s']> (tp_streams t)) t).
Proof.
  intros Hok Hl Hs' Hr Hg Hst Ho. apply (ok_update t token s s'); try done.
  intros rest. apply balanced_perm. by rewrite Ho.
Qed.

(** ** stop *)

Definition stopped_stream (s : stream) : stream := finish (set_waiting [] (set_stopping true s)).

Lemma stop_eq t token s :
  tp_streams t !! token = Some s → st_finished s = false →
  stop_stream token t = (Ok tt,
    if st_stopping s then t
    else set_ending (tp_ending t ++ map snd (st_waiting s)) (set_streams (<[token := stopped_stream s]> (tp_streams t)) t)).
Proof. intros Hl Hf. unfold stop_stream. rewrite Hl, Hf. by destruct (st_stopping s). Qed.

Lemma stopped_ok s : stream_ok s → st_stopping s = false → stream_ok (stopped_stream s).
Proof.
  intros [Hf Hfin He Hfr Ho Hp Hr Ha] Hs. unfold stopped_stream, finish. simpl.
  assert (st_finishing s = false) as Hfg by (destruct (st_finishing s); [by destruct (Hfin eq_refl); congruence|done]).
  rewrite Hf, Hfg. simpl. destruct (writing s) eqn:Hw; unfold writing in *; simpl in *; rewrite Hw; simpl;
    split; simpl; try done; try (by intros; split; auto); congruence || auto.
Qed.

Lemma stopped_units s : owned_units (stopped_stream s) ++ map snd (st_waiting s) ≡ₚ owned_units s.
Proof.
  unfold stopped_stream, finish, owned_units. destruct (_ && _); simpl; by rewrite app_nil_r.
Qed.

Lemma streams_stop_ok t token : transport_ok t → transport_ok (stop_stream token t).2.
Proof.
  intros Hok. unfold stop_stream. destruct (tp_streams t !! token) as [s|] eqn:Hl; [|done].
  destruct (tk_streams _ Hok _ _ Hl) as (Hs & _). rewrite (so_finished _ Hs), orb_false_r.
  destruct (st_stopping s) eqn:Est; [done|]. simpl.
  apply (ok_update t token s); try done; [by apply stopped_ok|by unfold finish; case_match..|].
  intros rest. apply balanced_perm. rewrite <- (stopped_units s). fold (stopped_stream s). solve_Permutation.
Qed.

(** ** enqueue *)

(** What stays when frames come and go. *)
Definition same_server (t t' : transport) : Prop :=
  tp_registered t' = tp_registered t ∧ tp_next_token t' = tp_next_token t ∧
  tp_stopping t' = tp_stopping t ∧ tp_commands t' = tp_commands t.

#[local] Instance same_server_preorder : PreOrder same_server.
Proof.
  split; [by intros t; unfold same_server; split_and!|]. intros t1 t2 t3 (? & ? & ? & ?) (? & ? & ? & ?). unfold same_server; split_and!; congruence.
Qed.

Lemma await_slot_ok s f : stream_ok s → st_stopping s = false → stream_ok (log_enqueued f.1 (await_slot f s)).
Proof.
  intros [Hf Hfin He Hfr Ho Hp Hr Ha] Hs.
  assert (st_finishing s = false) as Hfg by (destruct (st_finishing s); [by destruct (Hfin eq_refl); congruence|done]).
  unfold await_slot, granted in *. destruct (st_phase s) eqn:Eph; split; simpl; try done; try congruence.
  all: try (intros _; rewrite Ho by done; unfold granted; simpl; rewrite ?Eph, ?(Hfr eq_refl), ?map_app; simpl;
    rewrite ?app_nil_r; by rewrite <- ?(assoc_L (++))).
  all: by apply prefix_app_r.
Qed.

Lemma await_slot_units s f : stream_ok s → owned_units (log_enqueued f.1 (await_slot f s)) ≡ₚ f.2 :: owned_units s.
Proof.
  intros Hok. unfold await_slot, owned_units. destruct (st_phase s) eqn:E; simpl; rewrite ?E, ?map_app; simpl.
  - by rewrite (so_free _ Hok E).
  - solve_Permutation.
  - solve_Permutation.
  - solve_Permutation.
Qed.

Lemma enqueue_spec t token f s :
  transport_ok t → tp_streams t !! token = Some s →
  let r := enqueue frame_size token f t in
  transport_ok r.2 ∧ same_server t r.2 ∧ tp_ending r.2 = tp_ending t ∧
  match r.1 with
  | Ok _ => st_stopping s = false ∧
      ∃ u, tp_streams r.2 = <[token := log_enqueued f (await_slot (f, u) s)]> (tp_streams t)
  | Throw e => tp_streams r.2 = tp_streams t ∧ (e = Stopped ∧ st_stopping s = true ∨ e = Overloaded)
  end.
Proof.
  intros Hok Hl. cbv zeta. unfold enqueue. rewrite bind_at. rewrite Hl. simpl.
  destruct (st_stopping s) eqn:Est; [simpl; unfold same_server; split_and!; auto|]. rewrite bind_eq. unfold acquire_writes.
  destruct (tk_streams _ Hok _ _ Hl) as (Hs & _).
  destruct (acquire (frame_size f) (tp_writes t)) as [[u|e] b] eqn:Ea; simpl.
  - split; [|unfold same_server; simpl; split_and!; eauto].
    apply (ok_update t token s); try done; [by apply (await_slot_ok s (f, u))|by unfold await_slot; case_match..|].
    intros rest Hb. eapply balanced_perm; [symmetry; by rewrite (await_slot_units s (f, u))|].
    exact (balanced_acquire _ _ _ _ _ _ _ (frame_size_pos f) Ea Hb).
  - assert (∀ held, balanced max_writes max_write_bytes held (tp_writes t) → e = Overloaded ∧ balanced max_writes max_write_bytes held b) as Hb.
    { intros held Hh. exact (balanced_acquire _ _ _ _ _ _ _ (frame_size_pos f) Ea Hh). }
    destruct (Hb _ (tk_units _ Hok)) as [-> Hb'].
    split; [|unfold same_server; simpl; split_and!; auto]. destruct Hok. by split.
Qed.

(** ** The coroutines and callbacks of one stream *)

Lemma pass_slot_ok s : stream_ok s → (∀ f, st_phase s ≠ Granted f ∨ st_stopping s = true) → writing s = false →
  stream_ok (pass_slot s).
Proof.
  intros [Hf Hfin He Hfr Ho Hp Hr Ha] Hng Hw. unfold pass_slot.
  assert (st_stopping s = false → granted s = []) as Hg.
  { intros Hs. unfold granted. destruct (st_phase s) as [|f| |] eqn:E; try done. destruct (Hng f); congruence. }
  destruct (st_waiting s) as [|f l] eqn:El; split; simpl; try done.
  - intros Hs. destruct (Hfin Hs). split; [done|]. by unfold writing.
  - intros Hs. destruct (He Hs) as [_ [?|?]]; [|congruence]. auto.
  - intros Hs. rewrite Ho, Hg by done. unfold granted. simpl. by rewrite ?El, ?app_nil_r.
  - intros Hs. destruct (Hfin Hs) as [Hst _]. destruct (He Hst). congruence.
  - intros Hs. destruct (He Hs). congruence.
  - intros Hs. rewrite Ho, Hg by done. by unfold granted.
Qed.

Lemma pass_slot_units s f :
  (st_phase s = Granted f ∨ ∃ ok, st_phase s = Written f ok) → owned_units s ≡ₚ f.2 :: owned_units (pass_slot s).
Proof.
  intros Hp. unfold owned_units, pass_slot.
  assert (∀ l, match st_phase s with Free => [] | Granted f | Writing f | Written f _ => [f.2] end ++ l = f.2 :: l) as ->.
  { intros l. destruct Hp as [->|[ok ->]]; done. }
  destruct (st_waiting s) eqn:E; simpl; by rewrite ?E.
Qed.

Lemma write_begin_ok t token : transport_ok t → transport_ok (write_begin token t).2.
Proof.
  intros Hok. unfold write_begin. rewrite bind_at.
  destruct (tp_streams t !! token) as [s|] eqn:Hl; [|done]. simpl.
  destruct (tk_streams _ Hok _ _ Hl) as (Hs & _). destruct (st_phase s) as [|f|f|f ok] eqn:Eph; try done.
  destruct (st_stopping s) eqn:Est.
  - rewrite bind_eq. simpl. apply (ok_update t token s); try done; [|by unfold pass_slot; case_match..|].
    + apply pass_slot_ok; [done|by right|by unfold writing; rewrite Eph].
    + intros rest Hb. apply balanced_release. eapply balanced_perm; [|exact Hb].
      by rewrite (pass_slot_units s f) by auto.
  - apply (ok_put t token s); try done.
    + destruct Hs as [Hf Hfin He Hfr Ho Hp Hr Ha]. split; simpl; try done.
      * intros Hfg. destruct (Hfin Hfg). congruence.
      * congruence.
      * intros _. rewrite Ho by done. unfold granted. rewrite Eph. simpl. by rewrite <- (assoc_L (++)).
      * rewrite Ho by done. unfold granted. rewrite Eph. rewrite (assoc_L (++)). by apply prefix_app_r.
    + unfold owned_units. simpl. by rewrite Eph.
Qed.

Lemma stop_lookup t token s :
  transport_ok t → tp_streams t !! token = Some s →
  tp_streams (stop_stream token t).2 !! token = Some (if st_stopping s then s else stopped_stream s) ∧
  (∀ token', token' ≠ token → tp_streams (stop_stream token t).2 !! token' = tp_streams t !! token') ∧
  same_server t (stop_stream token t).2.
Proof.
  intros Hok Hl. destruct (tk_streams _ Hok _ _ Hl) as (Hs & _).
  rewrite (stop_eq _ _ _ Hl (so_finished _ Hs)). unfold same_server. destruct (st_stopping s); simpl; [done|].
  rewrite lookup_insert_eq. split_and!; try done. intros token' Hne. by rewrite lookup_insert_ne.
Qed.

Lemma stop_same t token : same_server t (stop_stream token t).2.
Proof.
  unfold stop_stream, same_server. destruct (tp_streams t !! token) as [s|]; [|done].
  by destruct (st_stopping s || st_finished s).
Qed.

Lemma stop_fst token t : (stop_stream token t).1 = Ok tt.
Proof. unfold stop_stream. destruct (tp_streams t !! token); [|done]. by case_match. Qed.

Lemma stopped_fields s :
  st_route (stopped_stream s) = st_route s ∧ st_peers (stopped_stream s) = st_peers s ∧
  st_registered (stopped_stream s) = st_registered s ∧ st_stopping (stopped_stream s) = true ∧
  st_phase (stopped_stream s) = st_phase s ∧ st_enqueued (stopped_stream s) = st_enqueued s ∧
  st_started (stopped_stream s) = st_started s.
Proof. unfold stopped_stream, finish. by case_match. Qed.

(** The coroutine of a completed write ends. *)
Lemma ok_pass t token s f ok :
  transport_ok t → tp_streams t !! token = Some s → st_phase s = Written f ok →
  transport_ok (set_writes (release f.2 (tp_writes t)) (set_streams (<[token := pass_slot s]> (tp_streams t)) t)).
Proof.
  intros Hok Hl Hp. destruct (tk_streams _ Hok _ _ Hl) as (Hs & _).
  apply (ok_update t token s); try done; [|by unfold pass_slot; case_match..|].
  - apply pass_slot_ok; [done|by left; rewrite Hp|by unfold writing; rewrite Hp].
  - intros rest Hb. apply balanced_release. eapply balanced_perm; [|exact Hb].
    by rewrite (pass_slot_units s f) by eauto.
Qed.

Lemma write_end_ok t token : transport_ok t → transport_ok (write_end token t).2.
Proof.
  intros Hok. unfold write_end. rewrite bind_at.
  destruct (tp_streams t !! token) as [s|] eqn:Hl; [|done]. simpl.
  destruct (st_phase s) as [|f|f|f ok] eqn:Eph; try done.
  rewrite bind_eq. destruct ok; simpl.
  - rewrite bind_at. rewrite Hl. simpl. by eapply ok_pass.
  - rewrite stop_fst. destruct (stop_lookup t token s Hok Hl) as (Hl' & _ & _).
    rewrite bind_at. rewrite Hl'. simpl.
    eapply (ok_pass _ token _ f false); [by apply streams_stop_ok|exact Hl'|].
    destruct (st_stopping s); [done|]. destruct (stopped_fields s) as (_ & _ & _ & _ & -> & _). done.
Qed.

Lemma set_read_ok s b f : stream_ok s → (b = true → f = None) → stream_ok (set_read b f s).
Proof. intros [Hf Hfin He Hfr Ho Hp Hr Ha] Hb. split; simpl; auto. Qed.

Lemma ok_read t token s b f :
  transport_ok t → tp_streams t !! token = Some s → (b = true → f = None) →
  transport_ok (set_streams (<[token := set_read b f s]> (tp_streams t)) t).
Proof.
  intros Hok Hl Hb. destruct (tk_streams _ Hok _ _ Hl) as (Hs & _).
  apply (ok_put t token s); try done. by apply set_read_ok.
Qed.

Lemma OnReadDone_ok t token ok frame : transport_ok t → transport_ok (OnReadDone token ok frame t).2.
Proof.
  intros Hok. unfold OnReadDone. rewrite bind_at.
  destruct (tp_streams t !! token) as [s|] eqn:Hl; [|done]. simpl. rewrite bind_eq. simpl.
  destruct (negb ok || st_stopping s).
  - by apply streams_stop_ok, ok_read.
  - simpl. rewrite insert_insert_eq. by apply (ok_read t token s false (Some frame)).
Qed.

Lemma OnWriteDone_ok t token ok : transport_ok t → transport_ok (OnWriteDone token ok t).2.
Proof.
  intros Hok. unfold OnWriteDone. rewrite bind_at.
  destruct (tp_streams t !! token) as [s|] eqn:Hl; [|done]. simpl.
  destruct (tk_streams _ Hok _ _ Hl) as (Hs & _).
  destruct (st_phase s) as [|f|f|f ok'] eqn:Eph; try done.
  set (s1 := set_phase (Written f ok) s).
  assert (st_stopping s = false → transport_ok (set_streams (<[token := s1]> (tp_streams t)) t)) as Hput.
  { intros Hst. apply (ok_put t token s); try done; [|unfold owned_units; simpl; by rewrite Eph].
    destruct Hs as [Hf Hfin He Hfr Ho Hp Hr Ha]. split; simpl; try done.
    - intros Hfg. by destruct (Hfin Hfg).
    - congruence.
    - intros _. rewrite Ho by done. unfold granted. simpl. by rewrite Eph. }
  assert (st_stopping s = true → transport_ok (set_streams (<[token := finish s1]> (tp_streams t)) t)) as Hfin.
  { intros Hst. assert (writing s = true) as Hw by (unfold writing; by rewrite Eph).
    destruct Hs as [Hf Hfin He Hfr Ho Hp Hr Ha].
    assert (st_finishing s = false) as Hfg by (destruct (st_finishing s); [by destruct (Hfin eq_refl); congruence|done]).
    unfold finish, s1. simpl. rewrite Hf, Hfg. simpl.
    apply (ok_put t token s); try done; [|unfold owned_units; simpl; by rewrite Eph].
    split; simpl; try done; [|by intros ?; congruence]. intros _. destruct (He Hst). auto. }
  rewrite bind_eq. simpl. fold s1. set (t1 := set_streams (<[token := s1]> (tp_streams t)) t) in *.
  assert (tp_streams t1 !! token = Some s1) as Hl1 by apply lookup_insert_eq.
  rewrite bind_eq. destruct (st_stopping s) eqn:Est.
  - assert ((if negb ok then stop_stream token else mret tt) t1 = (Ok tt, t1)) as ->.
    { destruct ok; [done|]. simpl. unfold stop_stream. rewrite Hl1. unfold s1. simpl. by rewrite Est. }
    simpl. rewrite bind_at. rewrite Hl1. simpl. rewrite Est. simpl.
    rewrite insert_insert_eq. by apply Hfin.
  - specialize (Hput eq_refl). destruct ok; simpl.
    + rewrite bind_at. rewrite Hl1. simpl. by rewrite Est.
    + destruct (tk_streams _ Hput _ _ Hl1) as (Hs1 & _).
      pose proof (streams_stop_ok _ token Hput) as Hok2. destruct (stop_lookup _ _ _ Hput Hl1) as (Hl2 & _).
      rewrite stop_fst. rewrite bind_at. rewrite Hl2. simpl. rewrite Est.
      destruct (stopped_fields s1) as (_ & _ & _ & -> & _). simpl.
      assert (finish (stopped_stream s1) = stopped_stream s1) as ->.
      { unfold finish at 1. assert (st_finishing (stopped_stream s1) = true) as ->; [|done].
        unfold stopped_stream, finish, writing, s1. simpl. rewrite (so_finished _ Hs).
        destruct (st_finishing s) eqn:E; simpl; [by rewrite E|done]. }
      rewrite insert_id by (simpl in Hl2; by rewrite Est in Hl2). by destruct (stop_stream token t1).2.
Qed.

(** ** The server *)

Lemma coroutine_ends_ok t i : transport_ok t → transport_ok (coroutine_ends i t).2.
Proof.
  intros Hok. unfold coroutine_ends. rewrite bind_eq. simpl.
  destruct (tp_ending t !! i) as [u|] eqn:Hi; [|done]. rewrite bind_eq. simpl.
  destruct Hok as [Hs Hx Hn Hc Hu]. split; try done. simpl. apply balanced_release.
  eapply balanced_perm; [|exact Hu]. pose proof (delete_Permutation _ _ _ Hi) as Hp.
  etrans; [by apply Permutation_app_head|]. by rewrite <- Permutation_middle.
Qed.

Lemma OnDone_ok t token : transport_ok t → transport_ok (OnDone token t).2.
Proof.
  intros Hok. unfold OnDone. rewrite bind_at. destruct (tp_streams t !! token) as [s|] eqn:Hl; [|done]. simpl.
  destruct Hok as [Hs Hi Hn Hc Hu]. destruct (Hs _ _ Hl) as (Hsok & -> & Hle & Hreg).
  match goal with |- context [set_index ?i] => set (ix := i) end.
  assert (∀ key token', ix !! key = Some token' ↔ tp_registered t !! key = Some token' ∧ token' ≠ token) as Hix.
  { intros key token'. unfold ix. destruct (st_registered s) eqn:Er; simpl.
    - case_bool_decide as Hcur.
      + rewrite lookup_delete_Some. split.
        * intros [Hk Hkey]. split; [done|]. intros ->. apply Hi in Hkey as (x & Hx & _ & <-). simplify_eq.
        * intros [Hkey Hne]. split; [|done]. intros <-. congruence.
      + split; [|by intros [? _]]. intros Hkey. split; [done|]. intros ->.
        apply Hi in Hkey as Hkey'. destruct Hkey' as (x & Hx & _ & <-). simplify_eq.
    - split; [|by intros [? _]]. intros Hkey. split; [done|]. intros ->. apply Hi in Hkey as (x & Hx & Hxr & _). congruence. }
  split; simpl; [| |done| |].
  - intros token' x [Hne Hx]%lookup_delete_Some. destruct (Hs _ _ Hx) as (? & ? & ? & Hr). split_and!; try done; [lia..|].
    intros Hxr Hxs. apply Hix. auto.
  - intros key token' [(x & Hx & Hr & Hk)%Hi Hne]%Hix. exists x. by rewrite lookup_delete_ne.
  - intros r c (? & ? & Hx)%Hc. split_and!; [lia..|done|]. intros x [_ Hx']%lookup_delete_Some. by apply Hx.
  - eapply balanced_perm; [|exact Hu]. unfold held_units. rewrite <- (map_to_list_delete _ _ _ Hl). simpl. solve_Permutation.
Qed.

Lemma new_stream_ok token b :
  stream_ok (MkStream (MkRoute "" "" 0 token) (certificate token) false false false false Free [] b None [] []).
Proof. by split. Qed.

Lemma Connect_ok t :
  (tp_next_token t + 1 < two64)%Z → transport_ok t → transport_ok (Connect (certificate (tp_next_token t + 1)) t).2.
Proof.
  intros Hlt [Hs Hi Hn Hc Hu]. unfold Connect. rewrite u64_id by lia. cbv zeta. simpl.
  assert (tp_streams t !! (tp_next_token t + 1)%Z = None) as Hnew.
  { apply eq_None_not_Some. intros [x Hx]. apply Hs in Hx as (_ & _ & ? & _). lia. }
  rewrite Hnew. match goal with |- context [<[_ := ?x]>] => set (s := x) end.
  assert (stream_ok s ∧ sr_token (st_route s) = (tp_next_token t + 1)%Z ∧ st_registered s = false ∧ owned_units s = [])
    as (Hsok & Htok & Hsr & Hso).
  { unfold s. destruct (tp_stopping t); split; try done; apply (new_stream_ok _ false) || apply (new_stream_ok _ true). }
  clearbody s. simpl.
  set (t1 := set_streams _ _). assert (transport_ok t1) as Hok1.
  { unfold t1. split; simpl; [| |lia| |].
    - intros token x [[<- <-]|[Hne Hx]]%lookup_insert_Some.
      + split_and!; [done|done|lia|lia|congruence].
      + destruct (Hs _ _ Hx) as (? & ? & ? & ?). split_and!; try done; lia.
    - intros key token (x & Hx & ? & ?)%Hi. exists x. rewrite lookup_insert_ne; [done|congruence].
    - intros r c (? & ? & Hx)%Hc. split_and!; [lia..|done|].
      intros x [[Ht _]|[_ Hx']]%lookup_insert_Some; [lia|by apply Hx].
    - eapply balanced_perm; [|exact Hu]. by rewrite (held_units_new _ _ _ Hnew), Hso. }
  destruct (tp_stopping t); [by apply streams_stop_ok|done].
Qed.

(** A stream takes its place in the index once the stream there has stopped. *)
Lemma ok_register t token s route :
  transport_ok t → tp_streams t !! token = Some s → st_registered s = false → sr_token route = token →
  admitted_route route →
  (∀ old x, tp_registered t !! key_of route = Some old → tp_streams t !! old = Some x → st_stopping x = true) →
  transport_ok (set_index (<[key_of route := token]> (tp_registered t))
    (set_streams (<[token := set_registered true (set_route route s)]> (tp_streams t)) t)).
Proof.
  intros [Hs Hi Hn Hc Hu] Hl Hr Ht Ha Hold. destruct (Hs _ _ Hl) as (Hsok & Htok & Hle & _).
  split; simpl; [| |done| |].
  - intros token' x [[<- <-]|[Hne Hx]]%lookup_insert_Some.
    + simpl. split_and!; [|done|lia|lia|intros; apply lookup_insert_eq].
      destruct Hsok as [Hf Hfin He Hfr Ho Hp Hrd [_ Hpe]]. split; try done. simpl. split; [done|]. congruence.
    + destruct (Hs _ _ Hx) as (? & ? & ? & Hreg). split_and!; try done; [lia..|].
      intros Hxr Hxs. destruct (decide (key_of route = key_of (st_route x))) as [Heq|Hne'].
      * specialize (Hreg Hxr Hxs). rewrite <- Heq in Hreg. specialize (Hold _ _ Hreg Hx). congruence.
      * rewrite lookup_insert_ne by done. auto.
  - intros key token' [[<- <-]|[Hne (x & Hx & Hxr & Hk)%Hi]]%lookup_insert_Some.
    + eexists. by rewrite lookup_insert_eq.
    + exists x. rewrite lookup_insert_ne; [done|]. intros ->. congruence.
  - intros r c (? & ? & Hx)%Hc. split_and!; [lia..|done|].
    intros x [[Ht' _]|[_ Hx']]%lookup_insert_Some; [|by apply Hx]. rewrite Ht' in Hl. apply Hx in Hl as [? _]. congruence.
  - destruct (held_units_insert _ _ _ (set_registered true (set_route route s)) Hl) as (rest & H1 & H2).
    eapply balanced_perm; [|exact Hu]. by rewrite H1, H2.
Qed.

Definition route_of (registration : RegisterGateway) (token : Z) : stream_route :=
  MkRoute (rg_gateway_id registration) (rg_instance_id registration) (rg_shard_id registration) token.

(** The stream the index names stops first. *)
Definition displaced (key : stream_key) (t : transport) : transport :=
  match tp_registered t !! key with Some old => (stop_stream old t).2 | None => t end.

Definition registered_at (token : Z) (s : stream) (route : stream_route) (t : transport) : transport :=
  set_index (<[key_of route := token]> (tp_registered t))
    (set_streams (<[token := set_registered true (set_route route s)]> (tp_streams t)) t).

Lemma register_stream_eq t token s registration :
  transport_ok t → tp_streams t !! token = Some s → valid_registration o t s registration = true →
  register_stream frame_size o token registration t =
    enqueue frame_size token (register_result (MkRegisterResult true (to_node_id o) (rg_stream_epoch registration) ""))
      (registered_at token s (route_of registration token) (displaced (key_of (route_of registration token)) t)).
Proof.
  intros Hok Hl Hv. unfold register_stream. rewrite bind_at, Hl, bind_eq. simpl. rewrite Hv. simpl.
  destruct (tk_streams _ Hok _ _ Hl) as (Hs & Htok & _). rewrite Htok.
  fold (route_of registration token). set (route := route_of registration token).
  assert (st_registered s = false) as Hr.
  { unfold valid_registration in Hv. destruct (st_registered s); [|done]. by rewrite andb_false_r in Hv. }
  rewrite bind_eq. simpl. rewrite bind_eq. simpl. unfold displaced.
  change (rg_gateway_id registration, rg_instance_id registration, rg_shard_id registration) with (key_of route).
  destruct (tp_registered t !! key_of route) as [old|] eqn:Ho; rewrite bind_eq; simpl.
  - destruct (tk_index _ Hok _ _ Ho) as (x & Hx & Hxr & Hxk).
    assert (old ≠ token) as Hne by (intros ->; congruence).
    destruct (tk_streams _ Hok _ _ Hx) as (Hxok & _). rewrite bind_at. simpl. rewrite lookup_insert_ne, Hx by done.
    unfold stop_stream at 1 2 3. simpl. rewrite lookup_insert_ne, Hx by done.
    rewrite (stop_eq _ _ _ Hx (so_finished _ Hxok)). rewrite (so_finished _ Hxok), orb_false_r.
    destruct (st_stopping x); simpl; rewrite bind_at; simpl.
    + rewrite lookup_insert_eq. rewrite bind_eq. simpl. rewrite insert_insert_eq. done.
    + rewrite lookup_insert_ne, lookup_insert_eq by done. rewrite bind_eq. simpl.
      rewrite (insert_insert_ne _ old token), insert_insert_eq by done.
      done.
  - rewrite bind_at. simpl. rewrite lookup_insert_eq, bind_eq. simpl. by rewrite insert_insert_eq.
Qed.

Lemma displaced_spec t token s key :
  transport_ok t → tp_streams t !! token = Some s → st_registered s = false →
  transport_ok (displaced key t) ∧ tp_streams (displaced key t) !! token = Some s ∧
  same_server t (displaced key t) ∧
  ∀ old x, tp_registered (displaced key t) !! key = Some old → tp_streams (displaced key t) !! old = Some x →
    st_stopping x = true.
Proof.
  intros Hok Hl Hr. unfold displaced. destruct (tp_registered t !! key) as [old|] eqn:Ho.
  2: { unfold same_server. split_and!; try done. intros old x Hx. congruence. }
  destruct (tk_index _ Hok _ _ Ho) as (x & Hx & Hxr & Hxk).
  destruct (stop_lookup _ _ _ Hok Hx) as (Hx' & Hrest & Hsame).
  assert (token ≠ old) as Hne by (intros ->; congruence).
  split_and!; [by apply streams_stop_ok|by rewrite Hrest|done|].
  intros old' y. destruct Hsame as (-> & _). rewrite Ho. intros [= <-]. rewrite Hx'. intros [= <-].
  destruct (st_stopping x) eqn:E; [done|]. by destruct (stopped_fields x) as (_ & _ & _ & ? & _).
Qed.

(** What a step leaves of the index and of the record of commands. *)
Definition index_advances (t t' : transport) : Prop :=
  (∀ key token, tp_registered t' !! key = Some token →
     tp_registered t !! key = Some token ∨ ∃ s, tp_streams t !! token = Some s ∧ st_registered s = false) ∧
  tp_commands t `prefix_of` tp_commands t'.

Lemma same_server_advances t t' : same_server t t' → index_advances t t'.
Proof. intros (Hr & _ & _ & Hc). unfold index_advances. rewrite Hr, Hc. split; auto. Qed.

Lemma enqueue_keeps_frame f s s' u :
  s' = log_enqueued f (await_slot (f, u) s) → st_frame s' = st_frame s.
Proof. intros ->. unfold await_slot. simpl. by case_match. Qed.

(** [taken t]: the frame of stream [token] was taken from it. *)
Definition taken (token : Z) (t : transport) : Prop := ∃ s, tp_streams t !! token = Some s ∧ st_frame s = None.

Lemma stop_taken t token token' : transport_ok t → taken token t → taken token (stop_stream token' t).2.
Proof.
  intros Hok (s & Hl & Hf). destruct (tp_streams t !! token') as [x|] eqn:Hx.
  - destruct (stop_lookup _ _ _ Hok Hx) as (Hx' & Hrest & _). destruct (decide (token = token')) as [->|Hne].
    + eexists. split; [exact Hx'|]. assert (x = s) as -> by congruence. destruct (st_stopping s); [done|].
      unfold stopped_stream, finish. by case_match.
    + exists s. by rewrite Hrest.
  - exists s. unfold stop_stream. by rewrite Hx.
Qed.

Lemma enqueue_taken t token f : transport_ok t → taken token t → taken token (enqueue frame_size token f t).2.
Proof.
  intros Hok (s & Hl & Hf). destruct (enqueue_spec t token f s Hok Hl) as (_ & _ & _ & Hr).
  unfold taken. destruct (enqueue frame_size token f t).1 as [[]|e].
  - destruct Hr as (_ & u & ->). eexists. rewrite lookup_insert_eq. split; [done|].
    by rewrite (enqueue_keeps_frame f s _ u).
  - destruct Hr as [-> _]. by exists s.
Qed.

Lemma register_stream_ok t token registration :
  transport_ok t → taken token t →
  let t' := (register_stream frame_size o token registration t).2 in
  transport_ok t' ∧ taken token t' ∧ index_advances t t'.
Proof.
  intros Hok Htk. cbv zeta. destruct Htk as (s & Hl & Hf).
  destruct (valid_registration o t s registration) eqn:Hv.
  - rewrite (register_stream_eq t token s) by done. set (route := route_of registration token).
    unfold valid_registration in Hv. repeat (apply andb_true_iff in Hv as [Hv ?]).
    assert (st_registered s = false) as Hr by (by apply negb_true_iff).
    destruct (displaced_spec t token s (key_of route) Hok Hl Hr) as (Hok0 & Hl0 & Hsame & Hold).
    set (t0 := displaced (key_of route) t) in *.
    assert (transport_ok (registered_at token s route t0)) as Hok1.
    { apply ok_register; try done. unfold admitted_route, route. simpl.
      repeat match goal with H : negb (bool_decide _) = true |- _ => apply negb_true_iff, bool_decide_eq_false in H end.
      split_and!; [done|done|by apply Z.eqb_eq|]. intros Hm. rewrite Hm in *. simpl in *.
      destruct (tk_streams _ Hok _ _ Hl) as ([? ? ? ? ? ? ? [_ Hpe]] & <- & _). rewrite <- Hpe. by eapply bool_decide_eq_true. }
    assert (taken token (registered_at token s route t0)) as Ht1.
    { eexists. simpl. rewrite lookup_insert_eq. by split. }
    destruct Ht1 as (s1 & Hl1 & Hf1).
    destruct (enqueue_spec _ token (register_result (MkRegisterResult true (to_node_id o) (rg_stream_epoch registration) "")) s1 Hok1 Hl1)
      as (Hok2 & Hsame2 & _).
    split_and!; [done|apply enqueue_taken; [done|by exists s1]|].
    destruct Hsame2 as (Hr2 & _ & _ & Hc2). destruct Hsame as (Hr0 & _ & _ & Hc0). split.
    + intros key token'. rewrite Hr2. simpl. rewrite Hr0. intros [[_ <-]|[_ ?]]%lookup_insert_Some; eauto.
    + rewrite Hc2. simpl. by rewrite Hc0.
  - unfold register_stream. rewrite bind_at, Hl, bind_eq. simpl. rewrite Hv. simpl.
    split_and!; [by apply streams_stop_ok|apply stop_taken; [done|by exists s]|].
    by apply same_server_advances, (stop_lookup _ _ _ Hok Hl).
Qed.

(** Code that processes a frame of stream [token]. *)
Definition frame_step (token : Z) (m : Eff transport unit) : Prop :=
  ∀ t, transport_ok t → taken token t →
  transport_ok (m t).2 ∧ taken token (m t).2 ∧ index_advances t (m t).2.

Lemma advances_refl t : index_advances t t.
Proof. split; auto. Qed.

Lemma frame_step_stop token : frame_step token (stop_stream token).
Proof.
  intros t Hok Ht. split_and!; [by apply streams_stop_ok|by apply stop_taken|]. destruct Ht as (s & Hl & _).
  by apply same_server_advances, (stop_lookup _ _ _ Hok Hl).
Qed.

Lemma frame_step_enqueue token f : frame_step token (enqueue frame_size token f).
Proof.
  intros t Hok Ht. pose proof (enqueue_taken t token f Hok Ht) as Ht'. destruct Ht as (s & Hl & _).
  destruct (enqueue_spec t token f s Hok Hl) as (Hok' & Hsame & _). split_and!; [done|done|by apply same_server_advances].
Qed.

(** Handing a command to the transactions. *)
Lemma ok_command t token s c :
  transport_ok t → tp_streams t !! token = Some s → st_registered s = true →
  transport_ok (MkTransport (tp_writes t) (tp_streams t) (tp_registered t) (tp_next_token t) (tp_stopping t)
                  (tp_commands t ++ [(st_route s, c)]) (tp_ending t)).
Proof.
  intros Hok Hl Hr. destruct (tk_streams _ Hok _ _ Hl) as (Hs & Ht & Hle & _). destruct Hok as [H1 H2 H3 H4 H5].
  split; try done. simpl. intros r c' [Hin|[= -> ->]%list_elem_of_singleton]%elem_of_app; [by eapply H4|].
  rewrite Ht. split; [lia|]. split; [by apply so_admitted|].
  intros x Hx. by simplify_eq.
Qed.

(** The end of process: the next read starts unless the stream stops. *)
Lemma read_again_ok t token : transport_ok t → taken token t →
  let m := s ← at_token token; if negb (st_stopping s) then put_stream token (set_read true (st_frame s) s) else mret tt in
  transport_ok (m t).2 ∧ same_server t (m t).2.
Proof.
  intros Hok (s & Hl & Hf). cbv zeta. rewrite bind_at, Hl, Hf. destruct (negb (st_stopping s)); [|done]. simpl.
  split; [|done]. by apply ok_read.
Qed.

Lemma process_frame_ok t token frame :
  transport_ok t → taken token t →
  transport_ok (process_frame frame_size o token frame t).2 ∧ index_advances t (process_frame frame_size o token frame t).2.
Proof.
  intros Hok Ht. unfold process_frame. pose proof Ht as (s & Hl & Hf). rewrite bind_at, Hl, bind_eq. simpl.
  destruct (st_stopping s || tp_stopping t); [by destruct (frame_step_stop token t Hok Ht) as (? & _ & ?)|].
  rewrite bind_eq.
  set (m := match frame with register_gateway registration => _ | _ => _ end).
  assert (transport_ok (m t).2 ∧ taken token (m t).2 ∧ index_advances t (m t).2) as (Hok1 & Ht1 & Ha1).
  { unfold m. destruct frame as [|reg|c|a|h]; destruct (st_registered s) eqn:Er; simpl;
      try by apply frame_step_stop.
    - by apply register_stream_ok.
    - by apply register_stream_ok.
    - split_and!; [by apply (ok_command t token)|by exists s|]. split; [auto|]. simpl. by apply prefix_app_r.
    - split_and!; [done|done|apply advances_refl].
    - by apply frame_step_enqueue. }
  destruct (m t).1; [|done].
  destruct (read_again_ok _ token Hok1 Ht1) as [Hok2 (Hr & _ & _ & Hc)].
  split; [done|]. destruct Ha1 as [Ha1 Hc1]. split.
  - intros key token'. rewrite Hr. apply Ha1.
  - rewrite Hc. done.
Qed.

Lemma process_ok t token :
  transport_ok t → transport_ok (process frame_size o token t).2 ∧ index_advances t (process frame_size o token t).2.
Proof.
  intros Hok. unfold process. rewrite bind_eq. simpl.
  destruct (tp_streams t !! token) as [s|] eqn:Hl; [|by split; [|apply advances_refl]].
  destruct (st_frame s) as [frame|] eqn:Hf; [|by split; [|apply advances_refl]].
  rewrite bind_eq. simpl. set (t1 := set_streams (<[token := set_read (st_read s) None s]> (tp_streams t)) t).
  assert (transport_ok t1) as Hok1 by (by apply ok_read).
  assert (taken token t1) as Ht1 by (eexists; split; [apply lookup_insert_eq|done]).
  destruct (process_frame_ok t1 token frame Hok1 Ht1) as [Hok2 [Ha2 Hc2]].
  assert (index_advances t (process_frame frame_size o token frame t1).2) as Ha.
  { split; [|done]. intros key token' [Hk|(x & Hx & Hxr)]%Ha2; [by left|]. right.
    simpl in Hx. apply lookup_insert_Some in Hx as [[<- <-]|[_ Hx]]; eauto. }
  rewrite catch_eq. destruct (process_frame frame_size o token frame t1).1; [done|].
  split; [by apply streams_stop_ok|].
  destruct (stop_same (process_frame frame_size o token frame t1).2 token) as (Hr & _ & _ & Hc).
  split; [intros key token'; rewrite Hr; apply Ha|rewrite Hc; apply Ha].
Qed.

(** ** Calls from the transactions *)

Definition frames_kept (t t' : transport) : Prop :=
  ∀ token s', tp_streams t' !! token = Some s' → ∃ s, tp_streams t !! token = Some s ∧ st_enqueued s' = st_enqueued s.

Lemma stop_frames t token : transport_ok t → frames_kept t (stop_stream token t).2.
Proof.
  intros Hok token' s' Hl'. destruct (tp_streams t !! token) as [s|] eqn:Hl.
  - destruct (stop_lookup _ _ _ Hok Hl) as (H1 & H2 & _). destruct (decide (token' = token)) as [->|Hne].
    + rewrite H1 in Hl'. injection Hl' as <-. exists s. split; [done|].
      destruct (st_stopping s); [done|]. by destruct (stopped_fields s) as (_ & _ & _ & _ & _ & ? & _).
    + rewrite H2 in Hl' by done. eauto.
  - unfold stop_stream in Hl'. rewrite Hl in Hl'. eauto.
Qed.

(** [f] was put at the end of the stream with this token, which is not stopping. *)
Definition queued_on (token : Z) (f : MessageToGatewayFrame) (t t' : transport) : Prop :=
  ∃ s u, tp_streams t !! token = Some s ∧ st_stopping s = false ∧
    tp_streams t' = <[token := log_enqueued f (await_slot (f, u) s)]> (tp_streams t).

Lemma reply_spec t route f :
  transport_ok t →
  let r := reply frame_size route f t in
  transport_ok r.2 ∧ same_server t r.2 ∧
  ((r.1 = Ok true ∧ tp_registered t !! key_of route = Some (sr_token route) ∧ queued_on (sr_token route) f t r.2) ∨
   (r.1 = Ok false ∧ frames_kept t r.2)).
Proof.
  intros Hok. cbv zeta. unfold reply. rewrite bind_eq. simpl.
  assert (transport_ok t ∧ same_server t t ∧ frames_kept t t) as (_ & Hrefl & Hkept).
  { split_and!; [done|by split_and!|]. intros token s Hl. eauto. }
  destruct (tp_stopping t); [by simpl; auto|].
  destruct (tp_registered t !! key_of route) as [token|] eqn:Hr; [|by simpl; auto].
  destruct (Z.eqb_spec token (sr_token route)) as [->|Hne]; simpl; [|by auto].
  destruct (tk_index _ Hok _ _ Hr) as (s & Hl & _).
  destruct (enqueue_spec t _ f s Hok Hl) as (Hok1 & Hsame1 & _ & Hq). rewrite catch_eq, !bind_eq.
  destruct (enqueue frame_size (sr_token route) f t).1 as [[]|e] eqn:Ee; simpl.
  - destruct Hq as (Hst & u & Hs'). split_and!; [done|done|]. left. split_and!; [done|done|]. by exists s, u.
  - destruct Hq as (Hs' & [[-> Hst]| ->]).
    + split_and!; [done|done|]. right. split; [done|]. intros token s'. simpl. rewrite Hs'. eauto.
    + rewrite bind_at. simpl. rewrite Hs', Hl, bind_eq, stop_fst. simpl.
      split_and!; [by apply streams_stop_ok| |].
      * etrans; [exact Hsame1|apply stop_same].
      * right. split; [done|]. intros token s' Hl'. apply stop_frames in Hl' as (x & Hx & Hxe); [|done].
        rewrite Hs' in Hx. eauto.
Qed.

Lemma forward_spec t lease envelope :
  transport_ok t →
  let r := forward frame_size lease envelope t in
  let key := (sl_gateway_id lease, sl_instance_id lease, sl_shard_id lease) in
  transport_ok r.2 ∧ same_server t r.2 ∧
  ((r.1 = Ok CLIENT_FORWARD_STATUS_QUEUED ∧
    ∃ token, tp_registered t !! key = Some token ∧ queued_on token (client_forward envelope) t r.2) ∨
   ((r.1 = Ok CLIENT_FORWARD_STATUS_OFFLINE ∨ r.1 = Ok CLIENT_FORWARD_STATUS_BACKPRESSURED) ∧ frames_kept t r.2)).
Proof.
  intros Hok. cbv zeta. unfold forward. rewrite bind_eq. simpl.
  assert (same_server t t ∧ frames_kept t t) as (Hrefl & Hkept).
  { split; [by split_and!|]. intros token s Hl. eauto. }
  destruct (tp_stopping t); [by simpl; split; [|split; [|right; auto]]|].
  destruct (tp_registered t !! _) as [token|] eqn:Hr; [|by simpl; split; [|split; [|right; auto]]].
  destruct (tk_index _ Hok _ _ Hr) as (s & Hl & _).
  destruct (enqueue_spec t _ (client_forward envelope) s Hok Hl) as (Hok1 & Hsame1 & _ & Hq). rewrite catch_eq, !bind_eq.
  destruct (enqueue frame_size token (client_forward envelope) t).1 as [[]|e] eqn:Ee; simpl.
  - destruct Hq as (Hst & u & Hs'). split_and!; [done|done|]. left. split; [done|]. exists token. split; [done|]. by exists s, u.
  - assert (frames_kept t (enqueue frame_size token (client_forward envelope) t).2) as Hk.
    { destruct Hq as [Hs' _]. intros token' s'. rewrite Hs'. eauto. }
    destruct Hq as (_ & [[-> _]| ->]); (split; [done|]; split; [done|]; right; auto).
Qed.

Lemma stream_begin_stop_ok t :
  transport_ok t → transport_ok (begin_stop t).2 ∧ index_advances t (begin_stop t).2.
Proof.
  intros Hok. unfold begin_stop. rewrite bind_eq. simpl. rewrite bind_eq. simpl.
  set (t0 := MkTransport _ _ _ _ true _ _).
  assert (transport_ok t0) as Hok0 by (by destruct Hok; split).
  assert (∀ l x, transport_ok x → tp_registered x = tp_registered t → tp_commands x = tp_commands t →
    transport_ok (forM l stop_stream x).2 ∧ index_advances t (forM l stop_stream x).2) as Hl.
  { induction l as [|k l IH]; intros x Hx Hr Hc; simpl.
    - split; [done|]. unfold index_advances. rewrite Hr, Hc. split; auto.
    - rewrite bind_eq, stop_fst. destruct (stop_same x k) as (Hr' & _ & _ & Hc').
      apply IH; [by apply streams_stop_ok|congruence..]. }
  by apply Hl.
Qed.

(** ** All interleavings *)

(** What gRPC may call when: a completion only of what was started, OnDone only
    after Finish and with nothing outstanding; tokens do not run out. *)
Inductive transport_step (t : transport) : transport → Prop :=
  | tstep_connect : (tp_next_token t + 1 < two64)%Z → transport_step t (Connect (certificate (tp_next_token t + 1)) t).2
  | tstep_read token s ok frame :
      tp_streams t !! token = Some s → st_read s = true → transport_step t (OnReadDone token ok frame t).2
  | tstep_written token s ok :
      tp_streams t !! token = Some s → writing s = true → transport_step t (OnWriteDone token ok t).2
  | tstep_cancel token : transport_step t (stop_stream token t).2
  | tstep_done token s :
      tp_streams t !! token = Some s → st_finishing s = true → writing s = false → st_read s = false →
      transport_step t (OnDone token t).2
  | tstep_process token : transport_step t (process frame_size o token t).2
  | tstep_write_begin token : transport_step t (write_begin token t).2
  | tstep_write_end token : transport_step t (write_end token t).2
  | tstep_coroutine_ends i : transport_step t (coroutine_ends i t).2
  | tstep_reply route f : transport_step t (reply frame_size route f t).2
  | tstep_forward lease envelope : transport_step t (forward frame_size lease envelope t).2
  | tstep_begin_stop : transport_step t (begin_stop t).2.

Definition transport_init : transport :=
  MkTransport (make_budget max_writes max_write_bytes) ∅ ∅ 0 false [] [].

(** Code that changes neither the index nor the record of commands. *)
Class SameServer {A} (m : Eff transport A) : Prop := same_server_of : ∀ t, same_server t (m t).2.
#[local] Instance same_ret {A} (a : A) : SameServer (mret a).
Proof. by intros t. Qed.
#[local] Instance same_at token : SameServer (at_token token).
Proof. intros t. unfold at_token. by case_match. Qed.
#[local] Instance same_put token x : SameServer (put_stream token x).
Proof. by intros t. Qed.
#[local] Instance same_release u : SameServer (release_units u).
Proof. by intros t. Qed.
#[local] Instance same_stop token : SameServer (stop_stream token).
Proof. intros t. apply stop_same. Qed.
#[local] Instance same_bind {A B} (m : Eff transport A) (k : A → Eff transport B) :
  SameServer m → (∀ a, SameServer (k a)) → SameServer (m ≫= k).
Proof. intros Hm Hk t. rewrite bind_eq. destruct (m t).1; [|apply Hm]. etrans; [apply Hm|apply Hk]. Qed.
#[local] Instance same_if {A} (b : bool) (m m' : Eff transport A) :
  SameServer m → SameServer m' → SameServer (if b then m else m').
Proof. by destruct b. Qed.
#[local] Instance same_phase {A} p (m : Eff transport A) m1 m2 m3 :
  SameServer m → (∀ f, SameServer (m1 f)) → (∀ f, SameServer (m2 f)) → (∀ f b, SameServer (m3 f b)) →
  SameServer (match p with Free => m | Granted f => m1 f | Writing f => m2 f | Written f ok => m3 f ok end).
Proof. by destruct p. Qed.

Lemma same_step {A} (m : Eff transport A) t : SameServer m → index_advances t (m t).2.
Proof. intros Hm. apply same_server_advances, Hm. Qed.

Lemma step_ok t t' : transport_step t t' → transport_ok t → transport_ok t' ∧ index_advances t t'.
Proof.
  intros Hstep Hok. destruct Hstep as [Hlt|token s ok frame _ _|token s ok _ _|token|token s Hl _ _ _|token|token|token|i|route f|lease envelope|].
  - split; [by apply Connect_ok|]. unfold Connect. cbv zeta.
    match goal with |- index_advances _ (if _ then stop_stream ?k ?x else _).2 =>
      assert (index_advances t x) as Ha by (by case_match; split; auto); destruct (tp_stopping x); [|done];
      destruct (stop_same x k) as (Hr & _ & _ & Hc) end.
    split; [intros key token; rewrite Hr; apply Ha|rewrite Hc; apply Ha].
  - split; [by apply OnReadDone_ok|]. apply same_step. unfold OnReadDone. apply _.
  - split; [by apply OnWriteDone_ok|]. apply same_step. unfold OnWriteDone. apply _.
  - split; [by apply streams_stop_ok|]. apply same_step, _.
  - split; [by apply OnDone_ok|]. unfold OnDone. rewrite bind_at, Hl. simpl. split; [|done]. simpl.
    intros key token'. case_match; [|auto]. intros [_ ?]%lookup_delete_Some. auto.
  - by apply process_ok.
  - split; [by apply write_begin_ok|]. apply same_step. unfold write_begin. apply _.
  - split; [by apply write_end_ok|]. apply same_step. unfold write_end. apply _.
  - split; [by apply coroutine_ends_ok|]. unfold coroutine_ends. rewrite bind_eq. simpl.
    destruct (tp_ending t !! i); [rewrite bind_eq; simpl|]; by split; auto.
  - destruct (reply_spec t route f Hok) as (? & ? & _). split; [done|by apply same_server_advances].
  - destruct (forward_spec t lease envelope Hok) as (? & ? & _). split; [done|by apply same_server_advances].
  - by apply stream_begin_stop_ok.
Qed.

Lemma streams_reachable_ok t t' : rtc transport_step t t' → transport_ok t → transport_ok t'.
Proof. induction 1 as [|t t1 t2 Hs _ IH]; [done|]. intros Hok. by apply IH, (step_ok t). Qed.

Lemma streams_init_ok : (0 ≤ max_writes)%Z → (0 ≤ max_write_bytes)%Z → transport_ok transport_init.
Proof.
  intros Hw Hb. split; simpl; [done|done|done|by intros r c ?%elem_of_nil|].
  unfold balanced, make_budget, held_units. rewrite map_to_list_empty. simpl. rewrite !available_init. split_and!; [constructor|lia..].
Qed.

(** C7: the streams of a Message shard, in every interleaving of callbacks,
    coroutines and calls. At most one stream that is not stopping is registered
    for a Gateway process and shard; a stream hands its frames to gRPC in the
    order in which they were enqueued, skipping none, never two at a time, and
    none once Finish is called; every command comes from a stream whose Gateway
    belongs to this shard and, with mTLS, is one of the identities in the
    certificate of the call that opened the stream; and the frames not yet
    written stay within the write limits. *)
Theorem streams_safe t :
  (0 ≤ max_writes)%Z → (0 ≤ max_write_bytes)%Z → rtc transport_step transport_init t →
  (∀ k1 s1 k2 s2, tp_streams t !! k1 = Some s1 → tp_streams t !! k2 = Some s2 →
     st_registered s1 = true → st_registered s2 = true → st_stopping s1 = false → st_stopping s2 = false →
     key_of (st_route s1) = key_of (st_route s2) → k1 = k2) ∧
  (∀ k s, tp_streams t !! k = Some s →
     st_started s `prefix_of` st_enqueued s ∧
     (st_stopping s = false → st_enqueued s = st_started s ++ granted s ++ map fst (st_waiting s)) ∧
     (st_finishing s = true → writing s = false ∧ st_waiting s = [])) ∧
  (∀ r c, (r, c) ∈ tp_commands t → admitted_route r) ∧
  (Z.of_nat (length (held_units (tp_streams t))) ≤ max_writes)%Z ∧
  (foldr Z.add 0 (held_units (tp_streams t)) ≤ max_write_bytes)%Z.
Proof.
  intros Hw Hb Hr. pose proof (streams_reachable_ok _ _ Hr (streams_init_ok Hw Hb)) as Hok. split_and!.
  - intros k1 s1 k2 s2 Hl1 Hl2 Hr1 Hr2 Hs1 Hs2 Hk.
    destruct (tk_streams _ Hok _ _ Hl1) as (_ & _ & _ & Hi1). destruct (tk_streams _ Hok _ _ Hl2) as (_ & _ & _ & Hi2).
    specialize (Hi1 Hr1 Hs1). specialize (Hi2 Hr2 Hs2). congruence.
  - intros k s Hl. destruct (tk_streams _ Hok _ _ Hl) as (Hs & _). split_and!; [apply Hs|apply Hs|].
    intros Hf. destruct (so_finish _ Hs Hf) as [Hst ?]. split; [done|]. by apply (so_ended _ Hs).
  - intros r c Hin. by apply (tk_commands _ Hok) in Hin as (_ & ? & _).
  - destruct (tk_units _ Hok) as (Hf & ? & ? & Hl & _). rewrite length_app in Hl. lia.
  - destruct (tk_units _ Hok) as (Hf & ? & ? & _ & Hsum). rewrite sum_app in Hsum.
    assert (0 ≤ foldr Z.add 0 (tp_ending t))%Z; [|lia].
    apply sum_nonneg. by apply Forall_app in Hf as [_ Hf].
Qed.

(** A reply reaches the stream its command came from, or none: [true] means
    that the frame was put at the end of the stream with the route's own token,
    which is registered for the route and not stopping; [false] that no stream
    was given a frame. There is no other outcome. *)
Theorem reply_on_own_stream t route f :
  (0 ≤ max_writes)%Z → (0 ≤ max_write_bytes)%Z → rtc transport_step transport_init t →
  let r := reply frame_size route f t in
  (r.1 = Ok true ∧ tp_registered t !! key_of route = Some (sr_token route) ∧ queued_on (sr_token route) f t r.2) ∨
  (r.1 = Ok false ∧ frames_kept t r.2).
Proof.
  intros Hw Hb Hr. pose proof (streams_reachable_ok _ _ Hr (streams_init_ok Hw Hb)) as Hok.
  by destruct (reply_spec t route f Hok) as (_ & _ & ?).
Qed.

(** A stream that lost its place never gets it back: once the route of a
    command is not the registered one, every later reply to that command is
    refused, whatever streams connect and register after it. *)
Theorem superseded_route_silent t t' route c f :
  (0 ≤ max_writes)%Z → (0 ≤ max_write_bytes)%Z → rtc transport_step transport_init t →
  (route, c) ∈ tp_commands t → tp_registered t !! key_of route ≠ Some (sr_token route) →
  rtc transport_step t t' →
  (reply frame_size route f t').1 = Ok false.
Proof.
  intros Hw Hb Hr Hc Hne Hr'. pose proof (streams_reachable_ok _ _ Hr (streams_init_ok Hw Hb)) as Hok.
  assert (transport_ok t' ∧ tp_registered t' !! key_of route ≠ Some (sr_token route)) as [Hok' Hne'].
  { clear Hr. revert Hok Hc Hne. induction Hr' as [t|t t1 t2 Hs _ IH]; intros Hok Hc Hne; [done|].
    destruct (step_ok _ _ Hs Hok) as [Hok1 [Ha Hp]]. apply IH; [done| |].
    - destruct Hp as [l ->]. apply elem_of_app. by left.
    - intros [?|(s & Hl & Hsr)]%Ha; [done|]. destruct (tk_commands _ Hok _ _ Hc) as (_ & _ & Hx).
      apply Hx in Hl as [? _]. congruence. }
  destruct (reply_spec t' route f Hok') as (_ & _ & [(_ & ? & _)|[? _]]); done.
Qed.
End theorems.

(** ** Witnesses

    A Gateway connects, registers and sends a command; it connects and registers
    again before the reply. *)

#[local] Existing Instance counting_semaphore.

Definition demo_size (f : MessageToGatewayFrame) : Z := 10.
(** With mTLS: the certificate of both calls names the Gateway. *)
Definition demo_certificate (token : Z) : list string := ["gw"].
Definition demo_transport : transport_options := MkTransportOptions 1 0 true "message-1".
Definition demo_registration : GatewayToMessageFrame := register_gateway (MkRegisterGateway 1 "gw" "instance" 7 0 64).
Definition demo_request_frame : CommandEnvelope := MkCommandEnvelope "r1" 1001 "c1" 1 OP_SEND_TEXT 0 "" "laptop".
Definition demo_run_read (token : Z) (frame : GatewayToMessageFrame) (t : transport) : transport :=
  (process demo_size demo_transport token (OnReadDone token true frame t).2).2.
Definition demo_commanded : transport :=
  demo_run_read 1 (command demo_request_frame)
    (demo_run_read 1 demo_registration (Connect ["gw"] (transport_init 8 1000)).2).
Definition demo_superseded : transport := demo_run_read 2 demo_registration (Connect ["gw"] demo_commanded).2.
Definition demo_route : stream_route := MkRoute "gw" "instance" 0 1.

Lemma demo_size_pos f : (0 ≤ demo_size f)%Z.
Proof. done. Qed.

Lemma demo_read_steps token frame t :
  match tp_streams t !! token with Some s => st_read s | None => false end = true →
  rtc (transport_step demo_size demo_transport demo_certificate) t (demo_run_read token frame t).
Proof.
  destruct (tp_streams t !! token) as [s|] eqn:Hl; [|done]. intros Hr.
  eapply rtc_l; [by apply (tstep_read _ _ _ _ token s true frame)|]. apply rtc_once, tstep_process.
Qed.

Lemma demo_commanded_reachable : rtc (transport_step demo_size demo_transport demo_certificate) (transport_init 8 1000) demo_commanded.
Proof.
  eapply rtc_l; [by apply tstep_connect|].
  etrans; apply demo_read_steps; vm_compute; reflexivity.
Qed.

Lemma demo_superseded_reachable : rtc (transport_step demo_size demo_transport demo_certificate) (transport_init 8 1000) demo_superseded.
Proof.
  etrans; [apply demo_commanded_reachable|].
  eapply rtc_l; [by apply tstep_connect|]. apply demo_read_steps. vm_compute. reflexivity.
Qed.

Lemma streams_safe_witness :
  (Z.of_nat (length (held_units (tp_streams demo_superseded))) ≤ 8)%Z ∧
  admitted_route demo_transport demo_certificate demo_route.
Proof.
  destruct (streams_safe demo_size demo_transport demo_size_pos 8 1000 demo_certificate demo_superseded) as (_ & _ & Hc & Hw & _);
    [done|done|apply demo_superseded_reachable|].
  split; [exact Hw|]. apply (Hc demo_route demo_request_frame). vm_compute. left.
Defined.

Lemma reply_on_own_stream_witness :
  (reply demo_size demo_route MgNotSet demo_commanded).1 = Ok true ∧
  queued_on 1 MgNotSet demo_commanded (reply demo_size demo_route MgNotSet demo_commanded).2.
Proof.
  destruct (reply_on_own_stream demo_size demo_transport demo_size_pos 8 1000 demo_certificate demo_commanded demo_route MgNotSet)
    as [(H1 & _ & H2)|[H _]]; [done|done|apply demo_commanded_reachable|by split|].
  exfalso. revert H. vm_compute. discriminate.
Defined.

Lemma superseded_route_silent_witness :
  (demo_route, demo_request_frame) ∈ tp_commands demo_superseded ∧
  (reply demo_size demo_route MgNotSet demo_superseded).1 = Ok false.
Proof.
  assert ((demo_route, demo_request_frame) ∈ tp_commands demo_superseded) as Hin by (vm_compute; left).
  split; [exact Hin|].
  apply (superseded_route_silent demo_size demo_transport demo_size_pos 8 1000 demo_certificate demo_superseded demo_superseded
           demo_route demo_request_frame MgNotSet); [done|done|apply demo_superseded_reachable|exact Hin| |apply rtc_refl].
  vm_compute. discriminate.
Defined.
