(* ===== verification/MessageService.v ===== *)
(** * The Message service's request processing

    Models message/transaction/service.cc: admission of a command, the lease
    check, dispatch to a handler, the reply on the stream of the command, and the
    delivery of the pushes the handler staged. *)

From S2P Require Import Prelude Codec Records FileTypes Ids Program Process Protocol Handlers Seastar Budget.
Import db.

Section service.
Context {SEM : Semaphore} `{!ProtobufCodec Packet} `{!ProtobufCodec SessionLease}.
Context (command_size : CommandEnvelope → Z).

(** service::reply *)
Definition reply (context : request_context) (response : Packet) : prog unit :=
  let error := TcpPacketError response in
  perform (Reply (origin context)
    (MkCommandResult (ce_request_id (rc_command context)) error (isRetryableError error)
       (SerializeToString response))) ;;
  mret tt.

(** stage_message *)
Definition stage_message (context : request_context) (accepted : accepted_message) : Packet * request_context :=
  if am_should_forward accepted then
    let context := foldl (λ c recipient, stage (MkDelivery recipient (am_forward_packet accepted) "") c)
                     context (am_recipients accepted) in
    (am_response accepted,
     stage (MkDelivery (actor_of context) (am_forward_packet accepted)
              (ce_actor_device_id (rc_command context))) context)
  else (am_response accepted, context).

(** send_text, send_group_text, send_file, send_group_file *)
Definition send_with (accept : Z → Packet → prog accepted_message) (context : request_context) :
    prog (Packet * request_context) :=
  accepted ← accept (actor_of context) (rc_packet context);
  mret (stage_message context accepted).

(** service::acknowledge *)
Definition acknowledge_request (context : request_context) : prog (Packet * request_context) :=
  result ← acknowledge (actor_of context) (rc_packet context) (ce_actor_device_id (rc_command context));
  mret (km_response result,
        if km_should_forward_read result
        then stage (MkDelivery (km_sender_uid result) (km_read_receipt result) "") context else context).

(** pull_messages *)
Definition pull_messages (context : request_context) : prog (Packet * request_context) :=
  rsp ← pull_conversation (actor_of context) (rc_packet context); mret (rsp, context).

(** The member function a route points to. *)
Definition handle (h : handler) (context : request_context) : prog (Packet * request_context) :=
  match h with
  | h_send_text => send_with accept_text context
  | h_send_group_text => send_with accept_group_text context
  | h_send_file => send_with accept_file context
  | h_send_group_file => send_with accept_group_file context
  | h_acknowledge => acknowledge_request context
  | h_pull_messages => pull_messages context
  | h_apply_friend => friends_apply context
  | h_reply_friend => friends_reply context
  | h_pull_friends => pull_friends context
  | h_pull_friend_applications => pull_applications context
  | h_create_group => groups_create context
  | h_apply_group => groups_apply context
  | h_reply_group => groups_reply context
  | h_pull_group => groups_pull context
  | h_quit_group => groups_quit context
  | h_kick_group_member => groups_kick context
  | h_upload => files_upload context
  | h_download => files_download context
  end.

(** The envelope addressed to the connection of a lease. *)
Definition forward_target (envelope : ClientForwardEnvelope) (lease : SessionLease) : ClientForwardEnvelope :=
  MkClientForwardEnvelope (cf_forward_id envelope +:+ ":" +:+ sl_device_id lease)
    (cf_recipient_uid envelope) (sl_connection_id lease) (sl_generation lease) (cf_message_id envelope)
    (cf_conversation_id envelope) (cf_conversation_seq envelope) (cf_packet envelope) (sl_device_id lease).

(** One lease of the loop in deliver: forwarded when it is still current. *)
Definition deliver_to (d : delivery) (envelope : ClientForwardEnvelope) (lease : SessionLease) : prog unit :=
  if bool_decide (sl_device_id lease = excluded_device_id d) then mret tt
  else
    current ← io (get_session_op (recipient_uid d) (sl_device_id lease));
    if bool_decide (SerializeToString current ≠ SerializeToString lease) then mret tt
    else perform (Forward lease (forward_target envelope lease)) ;; mret tt.

(** service::deliver *)
Fixpoint deliver_from (request_id : string) (index : nat) (l : list delivery) : prog unit :=
  match l with
  | [] => mret tt
  | d :: l =>
      leases ← io (get_sessions_op (recipient_uid d));
      let envelope := make_forward d (request_id +:+ ":" +:+ pretty index) in
      for_each leases tt (λ _ lease, deliver_to d envelope lease) ;;
      deliver_from request_id (S index) l
  end.
Definition deliver (context : request_context) : prog unit :=
  deliver_from (ce_request_id (rc_command context)) 0 (deliveries context).

(** The lease of the session the command claims to come from. *)
Definition lease_matches (lease : SessionLease) (context : request_context) : bool :=
  let o := origin context in
  let c := rc_command context in
  bool_decide (sl_gateway_id lease = sr_gateway_id o) && bool_decide (sl_instance_id lease = sr_instance_id o) &&
  (sl_shard_id lease =? sr_shard_id o)%Z && bool_decide (sl_connection_id lease = ce_connection_id c) &&
  (sl_generation lease =? ce_connection_generation c)%Z.

Definition failure_packet (e : exn) : Packet :=
  match e with
  | Overloaded => MakeErrorPacket (error_code ResourceExhausted) ""
  | _ => MakeErrorPacket (error_code DependencyUnavailable) ""
  end.

(** The first try block of service::process. *)
Definition authorize_and_handle (context : request_context) (h : handler) : prog (Packet * request_context) :=
  let c := rc_command context in
  lease ← io (get_session_op (ce_actor_uid c) (ce_actor_device_id c));
  if negb (lease_matches lease context)
  then mret (MakeErrorPacket (error_code AuthenticationRequired) "", context)
  else handle h context.

(** service::process after its first try block: the reply, then the pushes. *)
Definition conclude (result : Packet * request_context) : prog unit :=
  let '(rsp, context) := result in
  reply context rsp ;;
  if (TcpPacketError rsp =? error_code Success)%Z
  then prog_catch (λ _, mret tt) (deliver context) else mret tt.

(** service::process *)
Definition process (context : request_context) (h : handler) : prog unit :=
  result ← prog_catch (λ e, mret (failure_packet e, context)) (authorize_and_handle context h);
  conclude result.

(** The state service::submit reads: whether the service stops, and its budget. *)
Record service_state := MkService { _stopping : bool; _requests_budget : budget }.

(** service::submit: what runs for the command, and the state after admission. *)
Definition submit_command (o : stream_route) (command : CommandEnvelope) (s : service_state) : prog unit * service_state :=
  let context := MkContext o command default_packet [] in
  if s.(_stopping) then (reply context (failure_packet Stopped), s)
  else
    match acquire (command_size command) s.(_requests_budget) with
    | (Throw e, b) => (reply context (failure_packet e), MkService s.(_stopping) b)
    | (Ok permit, b) =>
        let '(error, context) := decode context in
        if negb (error =? error_code Success)%Z
        then (reply context (MakeErrorPacket error ""), MkService s.(_stopping) (release permit b))
        else
          match route_for (ce_operation command) with
          | Some h => (process context h, MkService s.(_stopping) b)
          | None => (Done (Throw (LogicError "null route")), s)
          end
    end.
End service.
