(* ===== verification/ServiceTheorems.v ===== *)
(** * Guarantees of the Message service

    What every run of a request satisfies, whatever its dependencies answer and
    however it interleaves with others; and what that means for the database,
    when the operations of its runs are those of the store. *)

From S2P Require Import Prelude Codec Schema Records FileTypes Ids Program Process Protocol Handlers Seastar Budget.
From S2P Require Import MessageService MysqlStore StoreSpec StoreInvariant StoreProps.
Import db.

(** ** On whose behalf an operation runs *)

(** The acting user of a store operation is [uid]; [False] for the operations no
    handler issues. Reading another user's profile names that user. *)
Definition sql_acts_for (uid : Z) {R} (op : mysql_operation R) : Prop :=
  match op with
  | get_user_info _ => True
  | get_friend_list u => u = uid
  | insert_friend_apply f => fa_from f = u64 uid
  | update_friend_apply_status f => fa_from f = u64 uid
  | insert_friend f => f_uidA f = u64 uid
  | accept_direct_text sender _ _ _ _ _ => sender = uid
  | upsert_ready_file f _ _ => for_ownerUid f = uid
  | save_file_upload_progress owner _ _ _ _ => owner = uid
  | find_downloadable_file _ u => u = uid
  | find_ready_file _ owner => owner = uid
  | accept_group_message sender _ _ _ _ _ _ => sender = uid
  | sync_conversation u _ _ _ => u = uid
  | acknowledge_conversation_message _ u _ _ _ _ _ => u = uid
  | get_friend_apply_list u => u = uid
  | create_group g => gm_masterUid g = uid
  | request_group_join _ u _ _ => u = uid
  | reply_group_join _ actor _ _ _ => actor = uid
  | remove_group_member _ actor target dissolve => actor = uid ∧ (dissolve = true ∨ actor ≠ target)
  | pull_group _ u => u = uid
  | delete_friend _ _ | update_user_info_name _ _ | update_user_info_age _ _ | update_user_info_sex _ _
  | update_user_info_head_image_url _ _ => False
  end.

Definition acts_for (uid : Z) {R} (op : operation R) : Prop :=
  match op with
  | sql op => sql_acts_for uid op
  | generate_id_op _ | download_file _ => True
  | upload_file q => file.uq_user_id q = uid
  | get_session_op _ _ | get_sessions_op _ => False
  end.

(** What a handler does: operations for its actor, and clock readings. *)
Definition handler_event (uid : Z) (R : Type) (e : event R) : Prop :=
  match e with
  | Io op => acts_for uid op
  | Now | Expiry => True
  | Reply _ _ | Forward _ _ => False
  end.

(** Walks a program, leaving the condition of each event. *)
Ltac walk :=
  repeat first
    [ exact I
    | apply always_bind; [|intros ?]
    | apply always_for_each; intros ? ?
    | apply always_perform
    | match goal with |- always _ (if ?b then _ else _) => destruct b eqn:? end
    | match goal with |- always _ (match ?x with _ => _ end) => destruct x eqn:? end ].

Section service.
Context {SEM : Semaphore} `{!ProtobufCodec Packet} `{!ProtobufCodec SessionLease}.
Context (command_size : CommandEnvelope → Z).

Lemma handle_events h context : always (handler_event (actor_of context)) (handle h context).
Proof.
  destruct h; unfold handle, send_with, acknowledge_request, pull_messages, accept_text, accept_group_text,
    accept_file, accept_group_file, acknowledge, pull_conversation, friends_apply, friends_reply, store_reply,
    store_application, pull_friends, pull_applications, groups_create, groups_apply, groups_reply, groups_pull,
    groups_quit, groups_kick, files_upload, upload_chunk, save_object, files_download, io; cbv zeta; walk;
    try done.
  all: try (split; [done|]).
  all: try (by left).
  right. by apply Z.eqb_neq.
Qed.

(** Handlers answer in the context they were given. *)
Definition same_request (c c' : request_context) : Prop := origin c' = origin c ∧ rc_command c' = rc_command c.

Lemma same_request_stages c (f : Z → delivery) l :
  same_request c (foldl (λ c uid, stage (f uid) c) c l).
Proof.
  assert (∀ c', same_request c c' → same_request c (foldl (λ c uid, stage (f uid) c) c' l)) as H; [|by apply H].
  induction l as [|u l IH]; intros c' [Ho Hc]; simpl; [done|]. by apply IH.
Qed.

Lemma handle_context h context :
  ensures (λ x, same_request context x.2) (handle h context).
Proof.
  assert (∀ accept, ensures (λ x, same_request context x.2) (send_with accept context)) as Hsend.
  { intros accept. apply ensures_bind, ensures_any. intros accepted. simpl. unfold stage_message.
    destruct (am_should_forward accepted); [|done]. simpl.
    exact (same_request_stages context (λ u, MkDelivery u (am_forward_packet accepted) "") (am_recipients accepted)). }
  destruct h; try apply Hsend; unfold handle, acknowledge_request, pull_messages, friends_apply, friends_reply,
    pull_friends, pull_applications, groups_create, groups_apply, groups_reply, groups_pull,
    groups_quit, groups_kick, files_upload, files_download; cbv zeta;
  repeat first
    [ done
    | apply ensures_bind, ensures_any; intros ?
    | match goal with |- ensures _ (if ?b then _ else _) => destruct b end
    | match goal with |- ensures _ (match ?x with _ => _ end) => destruct x end ].
  all: simpl; try apply same_request_stages.
  by destruct (km_should_forward_read _).
Qed.

(** ** What a trace shows *)

Definition reply_of (x : obs) : option (stream_route * CommandResult) :=
  match x with Obs e _ => match e with Reply o r => Some (o, r) | _ => None end end.

(** The event works on data: a store operation, an id, or a file transfer. *)
Definition works {R} (e : event R) : Prop :=
  match e with
  | Io op => match op with get_session_op _ _ | get_sessions_op _ => False | _ => True end
  | _ => False
  end.

(** What deliver does: lookups and forwards. *)
Definition deliver_event (R : Type) (e : event R) : Prop :=
  match e with
  | Io (get_session_op _ _) | Io (get_sessions_op _) | Forward _ _ => True
  | _ => False
  end.

Lemma deliver_events context : always deliver_event (deliver context).
Proof.
  unfold deliver. generalize 0 (deliveries context). intros n l. revert n.
  induction l as [|d l IH]; intros n; simpl; [done|]. split; [done|]. intros [leases|e]; [|done].
  apply always_bind; [|intros; apply IH]. apply always_for_each. intros _ lease. unfold deliver_to. walk; done.
Qed.

Lemma no_reply {A} (P : ∀ R, event R → Prop) (m : prog A) t r :
  (∀ o x, ¬ P _ (Reply o x)) → always P m → runs m t r → omap reply_of t = [].
Proof.
  intros HP Ha Hr. pose proof (always_runs _ _ _ _ Ha Hr) as Hf. clear -HP Hf.
  induction Hf as [|[R e o] t He Hf IH]; [done|]. destruct e; try exact IH. by apply HP in He.
Qed.

(** A request's first part ends normally, having sent no reply. *)
Lemma handled context h t r :
  runs (prog_catch (λ e, mret (failure_packet e, context)) (authorize_and_handle context h)) t r →
  omap reply_of t = [] ∧ ∃ rsp context', r = Ok (rsp, context').
Proof.
  assert (always (λ R e, ∀ o x, match e with Reply o' x' => (o', x') ≠ (o, x) | _ => True end)
            (authorize_and_handle context h)) as Ha.
  { unfold authorize_and_handle. simpl. split; [done|]. intros [lease|e]; [|done].
    destruct (negb _); [done|]. eapply always_mono; [|apply handle_events].
    intros R e He o x. by destruct e. }
  intros [(a & Hr & ->)|(t1 & t2 & e & -> & Hr & [-> ->])]%runs_catch.
  - split; [|destruct a; eauto]. eapply no_reply; [|exact Ha|exact Hr]. intros o x Hx. by apply (Hx o x).
  - rewrite app_nil_r. split; [|eauto]. eapply no_reply; [|exact Ha|exact Hr]. intros o x Hx. by apply (Hx o x).
Qed.

Lemma conclude_run rsp c t r :
  runs (conclude (rsp, c)) t r →
  ∃ b t2, t = Obs (Reply (origin c) (MkCommandResult (ce_request_id (rc_command c))
            (TcpPacketError rsp) (isRetryableError (TcpPacketError rsp)) (SerializeToString rsp))) b :: t2 ∧
    (t2 = [] ∨ (TcpPacketError rsp = Success ∧ ∃ r', runs (deliver c) t2 r')).
Proof.
  unfold conclude, reply. intros [(t3 & t4 & [] & -> & H3 & H4)|(e & H3 & ->)]%runs_bind.
  - apply runs_bind in H3 as [(t5 & t6 & b & -> & H5 & [-> _])|(e & _ & [=])]. apply runs_perform in H5 as ->.
    exists (Ok b), t4. split; [done|].
    destruct (TcpPacketError rsp =? error_code Success)%Z eqn:E; [|left; by destruct H4].
    right. split; [by apply Z.eqb_eq in E|].
    apply runs_catch in H4 as [(a & H4 & _)|(t5 & t6 & e & -> & H4 & [-> _])]; [eauto|].
    rewrite app_nil_r. eauto.
  - apply runs_bind in H3 as [(t5 & t6 & b & -> & _ & [_ [=]])|(e' & H5 & [= <-])].
    apply runs_perform in H5 as ->. exists (Throw e), []. split; [done|by left].
Qed.

Lemma conclude_reply rsp c t r :
  runs (conclude (rsp, c)) t r →
  omap reply_of t = [(origin c, MkCommandResult (ce_request_id (rc_command c))
    (TcpPacketError rsp) (isRetryableError (TcpPacketError rsp)) (SerializeToString rsp))].
Proof.
  intros (b & t2 & -> & H2)%conclude_run.
  assert (omap reply_of t2 = []) as Hn2.
  { destruct H2 as [-> |(_ & r' & Hd)]; [done|]. eapply no_reply; [|apply deliver_events|exact Hd]. by intros ? ? []. }
  simpl. by change (list_omap _ _ reply_of t2) with (omap reply_of t2); rewrite Hn2.
Qed.

Lemma process_run context h t r :
  runs (process context h) t r →
  ∃ t1 rsp context' t2,
    runs (prog_catch (λ e, mret (failure_packet e, context)) (authorize_and_handle context h)) t1 (Ok (rsp, context')) ∧
    omap reply_of t1 = [] ∧ t = t1 ++ t2 ∧ runs (conclude (rsp, context')) t2 r.
Proof.
  intros [(t1 & t2 & [rsp c'] & -> & H1 & H2)|(e & H1 & ->)]%runs_bind.
  2: { by apply handled in H1 as (_ & ? & ? & [=]). }
  destruct (handled _ _ _ _ H1) as [Hn _]. by exists t1, rsp, c', t2.
Qed.

Lemma handled_context context h t rsp context' :
  runs (prog_catch (λ e, mret (failure_packet e, context)) (authorize_and_handle context h)) t (Ok (rsp, context')) →
  same_request context context'.
Proof.
  intros [(a & Hr & [= <-])|(t1 & t2 & e & -> & _ & [_ [= _ ->]])]%runs_catch; [|done].
  apply (ensures_runs (λ x, same_request context x.2)) in Hr; [done|].
  unfold authorize_and_handle. intros [lease|e]; simpl; [|done]. destruct (negb _); [done|]. apply handle_context.
Qed.

Lemma decode_route context context' :
  decode context = (error_code Success, context') →
  is_Some (route_for (ce_operation (rc_command context))) ∧ same_request context context'.
Proof.
  unfold decode. destruct (_ || _); [done|]. destruct (ParseFromString _); [|done].
  destruct (negb _); [done|]. destruct (route_for _); [|done]. intros [= <-]. split; [by eexists|done].
Qed.

Lemma decode_context context : same_request context (decode context).2.
Proof.
  unfold decode. destruct (_ || _); [done|]. destruct (ParseFromString _); [|done].
  destruct (negb _); [done|]. by destruct (route_for _).
Qed.

Lemma reply_run context rsp t r :
  runs (reply context rsp) t r →
  ∃ b, t = [Obs (Reply (origin context) (MkCommandResult (ce_request_id (rc_command context))
         (TcpPacketError rsp) (isRetryableError (TcpPacketError rsp)) (SerializeToString rsp))) b].
Proof.
  unfold reply. intros [(t1 & t2 & b & -> & H1 & [-> _])|(e & H1 & _)]%runs_bind; apply runs_perform in H1 as ->; eauto.
Qed.

(** C14: every command is answered exactly once, on the stream it came from, with
    its own request id: whether it is refused at admission, fails to decode,
    fails the lease check, fails in a dependency, or succeeds; whatever the
    dependencies answer, and with or without pushes to deliver. *)
Theorem command_answered_once o command s t r :
  runs (submit_command command_size o command s).1 t r →
  ∃ result, omap reply_of t = [(o, result)] ∧ cres_request_id result = ce_request_id command.
Proof.
  unfold submit_command. set (context := MkContext o command default_packet []).
  assert (∀ c rsp t r, same_request context c → runs (reply c rsp) t r →
    ∃ result, omap reply_of t = [(o, result)] ∧ cres_request_id result = ce_request_id command) as Hreply.
  { intros c rsp t' r' [Ho Hc] [b ->]%reply_run. simpl. rewrite Ho, Hc. eauto. }
  destruct (_stopping s); [by apply Hreply|].
  destruct (acquire _ _) as [[permit|e] b]; [|by apply Hreply].
  pose proof (decode_context context) as Hsame. destruct (decode context) as [error c] eqn:Ed. simpl in Hsame.
  destruct (error =? error_code Success)%Z eqn:E; simpl; [|by apply Hreply].
  apply Z.eqb_eq in E. subst error. destruct (decode_route _ _ Ed) as [[h Hh] _]. simpl in Hh. rewrite Hh.
  intros (t1 & rsp & c' & t2 & H1 & Hn & -> & H2)%process_run.
  destruct (handled_context _ _ _ _ _ H1) as [Ho Hc]. destruct Hsame as [Ho' Hc'].
  rewrite omap_app, Hn, (conclude_reply _ _ _ _ H2), Ho, Ho', Hc, Hc'. by eexists.
Qed.

Lemma lease_matches_fields lease context :
  lease_matches lease context = true →
  sl_gateway_id lease = sr_gateway_id (origin context) ∧ sl_instance_id lease = sr_instance_id (origin context) ∧
  sl_shard_id lease = sr_shard_id (origin context) ∧
  sl_connection_id lease = ce_connection_id (rc_command context) ∧
  sl_generation lease = ce_connection_generation (rc_command context).
Proof.
  unfold lease_matches. intros H. repeat apply andb_true_iff in H as [H ?].
  repeat match goal with H : bool_decide _ = true |- _ => apply bool_decide_eq_true in H end.
  split_and!; [done|done|by apply Z.eqb_eq|done|by apply Z.eqb_eq].
Qed.

(** C34: only the connection that currently holds the session acts: if a request
    touches data at all (a store operation, an id, a file transfer), then its
    first event was the lookup of the lease of the claimed user and device, and
    the lease found names the Gateway, instance and shard of the stream and the
    connection and generation of the command. *)
Theorem only_current_connection_acts context h t r :
  runs (process context h) t r → Exists (λ x, match x with Obs e _ => works e end) t →
  ∃ lease t', t = Obs (Io (get_session_op (actor_of context) (ce_actor_device_id (rc_command context)))) (Ok lease) :: t' ∧
    sl_gateway_id lease = sr_gateway_id (origin context) ∧ sl_instance_id lease = sr_instance_id (origin context) ∧
    sl_shard_id lease = sr_shard_id (origin context) ∧
    sl_connection_id lease = ce_connection_id (rc_command context) ∧
    sl_generation lease = ce_connection_generation (rc_command context).
Proof.
  intros (t1 & rsp & c' & t2' & H1 & _ & -> & (b & t2 & -> & H2)%conclude_run)%process_run Hex.
  apply Exists_app in Hex as [Hex|Hex].
  2: { exfalso. apply Exists_cons in Hex as [[]|Hex]. destruct H2 as [-> |(_ & r' & Hd)]; [by inversion Hex|].
       pose proof (always_runs _ _ _ _ (deliver_events c') Hd) as Hall.
       apply Exists_exists in Hex as ([R e o] & Hin & Hw). rewrite Forall_forall in Hall.
       specialize (Hall _ Hin). simpl in *. destruct e; try done. by destruct op. }
  assert (∃ t3 r3 t4, t1 = t3 ++ t4 ∧ runs (authorize_and_handle context h) t3 r3 ∧
            (t4 = [])) as (t3 & r3 & t4 & -> & H3 & ->).
  { apply runs_catch in H1 as [(a & H1 & _)|(t3 & t4 & e & -> & H1 & [-> _])]; eauto 6 using app_nil_r. }
  rewrite app_nil_r in *. unfold authorize_and_handle in H3. destruct H3 as (o & t3' & -> & H3).
  apply Exists_cons in Hex as [[]|Hex].
  destruct o as [lease|e]; simpl in H3; [|by destruct H3 as [-> _]; inversion Hex].
  destruct (lease_matches lease context) eqn:E; simpl in H3; [|by destruct H3 as [-> _]; inversion Hex].
  eexists lease, _. split; [done|]. by apply lease_matches_fields.
Qed.

(** C35: a request never acts for anyone but its authenticated user: every store
    operation and upload of every run names the actor of the command as the
    acting user (sender, owner, group master, applicant, ...), and an owner is
    never removed from its own group without dissolving it. *)
Theorem requests_act_for_their_actor context h t r :
  runs (process context h) t r →
  Forall (λ x, match x with Obs e _ => works e → handler_event (actor_of context) _ e end) t.
Proof.
  intros (t1 & rsp & c' & t2' & H1 & _ & -> & (b & t2 & -> & H2)%conclude_run)%process_run.
  apply Forall_app. split; [|constructor; [done|]].
  - assert (always (λ R e, works e → handler_event (actor_of context) R e)
      (prog_catch (λ e, mret (failure_packet e, context)) (authorize_and_handle context h))) as Ha.
    { apply always_catch; [|done]. unfold authorize_and_handle. simpl. split; [done|]. intros [lease|e]; [|done].
      destruct (negb _); [done|]. eapply always_mono; [|apply handle_events]. done. }
    exact (always_runs _ _ _ _ Ha H1).
  - destruct H2 as [-> |(_ & r' & Hd)]; [constructor|].
    assert (always (λ R e, works e → handler_event (actor_of context) R e) (deliver c')) as Ha.
    { eapply always_mono; [|apply deliver_events]. intros R e He Hw. destruct e; try done. by destruct op. }
    exact (always_runs _ _ _ _ Ha Hd).
Qed.

(** The condition of a forward, given what was observed before. *)
Definition forward_ok (past : list obs) (R : Type) (e : event R) : Prop :=
  match e with
  | Forward lease envelope =>
      (∃ o result b, Obs (Reply o result) b ∈ past ∧ cres_error result = error_code Success) ∧
      cf_expected_connection_id envelope = sl_connection_id lease ∧
      cf_expected_connection_generation envelope = sl_generation lease ∧
      cf_recipient_device_id envelope = sl_device_id lease ∧
      ∃ current, Obs (Io (get_session_op (cf_recipient_uid envelope) (sl_device_id lease))) (Ok current) ∈ past ∧
                 SerializeToString current = SerializeToString lease
  | _ => True
  end.

Lemma make_forward_recipient d id : cf_recipient_uid (make_forward d id) = recipient_uid d.
Proof. unfold make_forward. by destruct (pk_payload (dl_packet d)). Qed.

Lemma deliver_guarded context past o result b :
  Obs (Reply o result) b ∈ past → cres_error result = error_code Success →
  guarded forward_ok past (deliver context).
Proof.
  intros Hin He. unfold deliver. generalize 0 (deliveries context). intros n l. revert n past Hin.
  induction l as [|d l IH]; intros n past Hin; simpl; [done|]. split; [done|]. intros [leases|e]; [|done].
  apply guarded_bind.
  2: { intros t _ _. apply IH. set_solver. }
  apply guarded_for_each. intros t _ lease. unfold deliver_to.
  destruct (bool_decide _); [done|]. simpl. split; [done|]. intros [current|e]; [|done].
  destruct (bool_decide (SerializeToString current ≠ SerializeToString lease)) eqn:E; [done|].
  apply bool_decide_eq_false in E. apply dec_stable in E. simpl. split; [|by intros []]. split_and!; try done.
  - exists o, result, b. split; [set_solver|done].
  - exists current. split; [|done]. rewrite make_forward_recipient. set_solver.
Qed.

(** Pushes follow success and address a current session: a request forwards
    to a Gateway only after it replied success, and each forward names the
    connection, generation and device of a lease that a lookup of the recipient
    just confirmed to be current. *)
Theorem forwards_follow_success context h t1 lease envelope a t2 r :
  runs (process context h) (t1 ++ Obs (Forward lease envelope) a :: t2) r → forward_ok t1 _ (Forward lease envelope).
Proof.
  intros Hr. apply (guarded_runs forward_ok [] (process context h) t1 _ _ _ _) in Hr; [done|]. clear.
  unfold process. apply guarded_bind.
  - apply guarded_always, always_catch; [|done]. unfold authorize_and_handle. simpl. split; [done|].
    intros [lease|e]; [|done]. destruct (negb _); [done|]. eapply always_mono; [|apply handle_events].
    intros R e He past. by destruct e.
  - intros t [rsp c'] _. unfold conclude, reply. apply guarded_bind; [simpl; split; [done|intros []; done]|].
    intros t' [] Hr. destruct (TcpPacketError rsp =? error_code Success)%Z eqn:E; [|done].
    apply runs_bind in Hr as [(t3 & t4 & b & -> & H3 & [-> _])|(e & _ & [=])]. apply runs_perform in H3 as ->.
    apply guarded_catch; [|done]. eapply deliver_guarded.
    + rewrite app_nil_r. apply elem_of_app. right. apply list_elem_of_here.
    + simpl. by apply Z.eqb_eq.
Qed.
End service.

(** ** Requests on the database

    [exec m s t r s']: a run of [m] that starts when the database server is in
    state [s] and ends in [s']; before each event, and at the end, any number of
    store operations of other requests (of any node) may have run. The AUTO
    INCREMENT counter is taken to stay below 2^63. *)

Section database.
Context {SEM : Semaphore} `{!ProtobufCodec Packet} `{!ProtobufCodec SessionLease} `{!MysqlServer} `{!StdHash}.
Context (command_size : CommandEnvelope → Z).

Definition op_answers {R} (op : operation R) (s : server) (o : outcome R) (s' : server) : Prop :=
  match op in operation R return outcome R → Prop with
  | sql op => λ o, ((o = Throw Overloaded ∨ o = Throw Stopped) ∧ s' = s) ∨ (o, s') = driver_execute op s
  | _ => λ _, s' = s
  end o.

Definition answers {R} (e : event R) (s : server) (o : outcome R) (s' : server) : Prop :=
  match e in event R return outcome R → Prop with
  | Io op => λ o, op_answers op s o s'
  | _ => λ _, s' = s
  end o.

Definition others (s s' : server) : Prop := rtc store_step s s' ∧ is_i64 (auto_increment s') = true.

Fixpoint exec {A} (m : prog A) (s : server) (t : list obs) (r : outcome A) (s' : server) : Prop :=
  match m with
  | Done o => t = [] ∧ r = o ∧ rtc store_step s s'
  | Await e k => ∃ s1 o s2 t', others s s1 ∧ answers e s1 o s2 ∧ t = Obs e o :: t' ∧ exec (k o) s2 t' r s'
  end.

Lemma exec_runs {A} (m : prog A) s t r s' : exec m s t r s' → runs m t r.
Proof.
  revert s t. induction m as [o|R e k IH]; simpl; intros s t.
  - intros (-> & -> & _). done.
  - intros (s1 & o & s2 & t' & _ & _ & -> & Hx). eauto.
Qed.

Lemma exec_bind {A B} (m : prog A) (f : A → prog B) s t r s' :
  exec (m ≫= f) s t r s' →
  (∃ t1 t2 a s1, t = t1 ++ t2 ∧ exec m s t1 (Ok a) s1 ∧ exec (f a) s1 t2 r s') ∨
  (∃ e, exec m s t (Throw e) s' ∧ r = Throw e).
Proof.
  unfold mbind, prog_mbind. revert s t. induction m as [[a|e]|R e k IH]; intros s t; simpl.
  - intros Hx. left. exists [], t, a, s. split_and!; done.
  - intros (-> & -> & Hr). right. eauto.
  - intros (s1 & o & s2 & t' & Ho & Ha & -> & [(t1 & t2 & a & s3 & -> & Hm & Hf)|(e' & Hm & ->)]%IH).
    + left. exists (Obs e o :: t1), t2, a, s3. split_and!; [done| |done]. by exists s1, o, s2, t1.
    + right. exists e'. split; [|done]. by exists s1, o, s2, t'.
Qed.

Lemma exec_catch {A} (h : exn → prog A) (m : prog A) s t r s' :
  exec (prog_catch h m) s t r s' →
  (∃ a, exec m s t (Ok a) s' ∧ r = Ok a) ∨
  (∃ t1 t2 e s1, t = t1 ++ t2 ∧ exec m s t1 (Throw e) s1 ∧ exec (h e) s1 t2 r s').
Proof.
  revert s t. induction m as [[a|e]|R e k IH]; intros s t; simpl.
  - intros (-> & -> & Hr). left. eauto.
  - intros Hx. right. exists [], t, e, s. split_and!; done.
  - intros (s1 & o & s2 & t' & Ho & Ha & -> & [(a & Hm & ->)|(t1 & t2 & e' & s3 & -> & Hm & Hf)]%IH).
    + left. exists a. split; [|done]. by exists s1, o, s2, t'.
    + right. exists (Obs e o :: t1), t2, e', s3. split_and!; [done| |done]. by exists s1, o, s2, t1.
Qed.

(** Events whose store operation keeps the invariant. *)
Definition store_event (R : Type) (e : event R) : Prop :=
  match e with
  | Io op => match op with sql op => op_ok op | _ => True end
  | _ => True
  end.

Lemma store_step_working s s' : rtc store_step s s' → working s = None → working s' = None.
Proof.
  intros Hr Hw. by destruct (reachable_keeps _ _ _ (extends_closed (committed s)) Hr Hw (extends_refl _)).
Qed.

Lemma exec_steps {A} (m : prog A) s t r s' :
  always store_event m → exec m s t r s' → working s = None → rtc store_step s s'.
Proof.
  revert s t. induction m as [o|R e k IH]; simpl; intros s t Ha; [by intros (_ & _ & ?)|].
  intros (s1 & o & s2 & t' & [Ho _] & Hans & -> & Hx) Hw. destruct Ha as [He Hk].
  assert (working s1 = None) as Hw1 by (by eapply store_step_working).
  assert (rtc store_step s1 s2) as Hs2.
  { destruct e as [R op| | | |]; simpl in Hans; try (subst; apply rtc_refl).
    destruct op as [R op| | | | |]; simpl in Hans; try (subst; apply rtc_refl).
    destruct Hans as [[_ ->]|E]; [apply rtc_refl|]. apply rtc_once.
    replace s2 with (driver_execute op s1).2 by (by rewrite <- E). by apply step_operation. }
  etrans; [exact Ho|]. etrans; [exact Hs2|].
  eapply IH; [apply Hk|exact Hx|]. by eapply store_step_working.
Qed.

Lemma acts_for_ok uid {R} (op : mysql_operation R) : sql_acts_for uid op → op_ok op.
Proof. destruct op; simpl; try done. by intros [_ ?]. Qed.

Lemma authorize_store_events context h :
  always store_event (prog_catch (λ e, mret (failure_packet e, context)) (authorize_and_handle context h)).
Proof.
  apply always_catch; [|done]. unfold authorize_and_handle. simpl. split; [done|].
  intros [lease|e]; [|done]. destruct (negb _); [done|]. eapply always_mono; [|apply handle_events].
  intros R e He. destruct e as [R op| | | |]; try done. destruct op; try done. by eapply acts_for_ok.
Qed.

Lemma conclude_store_events x : always store_event (conclude x).
Proof.
  destruct x as [rsp c']. apply always_bind; [|intros []; destruct (_ =? _)%Z; [|done]].
  - unfold reply. simpl. split; [done|]. by intros [].
  - apply always_catch; [|done]. eapply always_mono; [|apply deliver_events].
    intros R e He. destruct e as [R op| | | |]; try done. by destruct op.
Qed.

Lemma process_store_events context h : always store_event (process context h).
Proof. apply always_bind; [apply authorize_store_events|apply conclude_store_events]. Qed.

Lemma submit_store_events o command s : always store_event (submit_command command_size o command s).1.
Proof.
  assert (∀ c rsp, always store_event (reply c rsp)) as Hreply.
  { intros c rsp. unfold reply. simpl. split; [done|]. by intros []. }
  unfold submit_command. destruct (_stopping s); [apply Hreply|].
  destruct (acquire _ _) as [[permit|e] b]; [|apply Hreply].
  destruct (decode _) as [error c]. destruct (negb _); [apply Hreply|].
  destruct (route_for _); [apply process_store_events|done].
Qed.

(** A whole request is a sequence of store operations that keep the store's
    invariant, and nothing else changes the database: whatever the command, its
    sender, its faults and the requests that run in between, from a database that
    satisfies the invariant a request leads to one that satisfies it, with every
    message kept. *)
Theorem requests_keep_store o command st s t r s' :
  exec (submit_command command_size o command st).1 s t r s' → working s = None → store_ok (committed s) →
  store_ok (committed s') ∧ extends (committed s) (committed s').
Proof.
  intros Hx Hw Hok. pose proof (exec_steps _ _ _ _ _ (submit_store_events o command st) Hx Hw) as Hr. split.
  - by destruct (reachable_keeps _ _ _ store_ok_closed Hr Hw Hok).
  - by destruct (reachable_keeps _ _ _ (extends_closed (committed s)) Hr Hw (extends_refl _)).
Qed.

(** ** Direct text messages, end to end *)

Definition direct_text_operation (context : request_context) (time : string) : mysql_operation MessageAcceptResult :=
  let send := send_text_of (rc_packet context) in
  accept_direct_text (actor_of context) (st_to send) (st_client_message_id send) (st_content send) time
    (message_type_value TEXT).

Definition direct_text_stored (context : request_context) (d : database) (a : MessageAcceptResult) : Prop :=
  let send := send_text_of (rc_packet context) in
  stores d (ar_messageId a) (ar_conversationId a) (ar_conversationSeq a) (actor_of context) (st_to send)
    (st_client_message_id send) (st_content send) (message_type_value TEXT).

(** The accept operation of a run that returns success. *)
Lemma accept_text_exec context s t a s' :
  exec (accept_text (actor_of context) (rc_packet context)) s t (Ok a) s' →
  TcpPacketError (am_response a) = error_code Success →
  ∃ accepted time s1 s2, others s s1 ∧ driver_execute (direct_text_operation context time) s1 = (Ok accepted, s2) ∧
    ar_error accepted = error_code Success ∧ rtc store_step s2 s' ∧
    am_response a = with_payload (sent accepted) (respond no_message (error_code Success) "") ∧
    am_should_forward a = negb (ar_duplicate accepted).
Proof.
  unfold accept_text. destruct (_ || _); [by intros (_ & [= ->] & _)|]. cbv zeta.
  intros (s1 & o1 & s2 & t2 & [Hr1 _] & -> & _ & Hx). destruct o1 as [time|e]; [|by destruct Hx as (_ & [=] & _)].
  destruct Hx as (s3 & o3 & s4 & t4 & [Hr3 Hi] & Hans & _ & Hx).
  destruct o3 as [accepted|e]; [|by destruct Hx as (_ & [=] & _)]. simpl in Hans.
  destruct Hans as [[[[=]|[=]] _]|E].
  simpl in Hx. destruct (decide (ar_error accepted = 0%Z)) as [Eok|Eok].
  2: { rewrite bool_decide_eq_false_2 in Hx by done. destruct Hx as (_ & [= ->] & _). simpl. done. }
  rewrite bool_decide_eq_true_2 in Hx by done. destruct Hx as (_ & [= ->] & Hr). intros _.
  exists accepted, time, s3, s4. split_and!; try done; [split; [by trans s1|done]|]. simpl. by rewrite Eok.
Qed.

Lemma send_text_exec context s t rsp c' s' :
  exec (authorize_and_handle context h_send_text) s t (Ok (rsp, c')) s' →
  TcpPacketError rsp = error_code Success →
  ∃ accepted time s1 s2, others s s1 ∧ driver_execute (direct_text_operation context time) s1 = (Ok accepted, s2) ∧
    ar_error accepted = error_code Success ∧ rtc store_step s2 s' ∧
    rsp = with_payload (sent accepted) (respond no_message (error_code Success) "") ∧
    (ar_duplicate accepted = true → c' = context).
Proof.
  unfold authorize_and_handle. intros (s1 & o1 & s2 & t2 & [Hr1 _] & -> & -> & Hx) Eok.
  destruct o1 as [lease|e]; [|by destruct Hx as (_ & [=] & _)]. simpl in Hx.
  destruct (negb _); [destruct Hx as (_ & [= -> ->] & _); done|].
  apply (exec_bind (accept_text _ _)) in Hx as [(t3 & t4 & a & s3 & -> & Hx & (_ & [= Ea] & Hr3))|(e & _ & [=])].
  assert (am_response a = rsp ∧ (am_should_forward a = false → c' = context)) as [Er Ec].
  { unfold stage_message in Ea. by destruct (am_should_forward a); simplify_eq/=. }
  rewrite <- Er in Eok |- *.
  destruct (accept_text_exec _ _ _ _ _ Hx Eok) as (acc & time & s4 & s5 & [? ?] & ? & ? & ? & ? & Ef).
  exists acc, time, s4, s5. split_and!; try done; [split; [|done]| |]; [etrans; eassumption..|].
  intros Ed. apply Ec. by rewrite Ef, Ed.
Qed.

Lemma others_working s s' : others s s' → working s = None → working s' = None.
Proof. intros [Hr _]. by apply store_step_working. Qed.

Lemma direct_text_stored_later context time s1 accepted s2 s' :
  working s1 = None → is_i64 (auto_increment s1) = true →
  driver_execute (direct_text_operation context time) s1 = (Ok accepted, s2) →
  ar_error accepted = error_code Success → rtc store_step s2 s' →
  direct_text_stored context (committed s') accepted.
Proof.
  intros Hw Hi E Ea Hr. unfold direct_text_operation in E.
  match type of E with driver_execute ?op s1 = _ =>
    pose proof (accept_direct_inv s1 _ _ _ _ _ _ accepted Hw ltac:(by rewrite E) Ea) as Heff;
    destruct (driver_execute_ok _ (extends_closed (committed s1)) op s1 I Hw (extends_refl _)) as [Hw2 _] end.
  rewrite E in Heff, Hw2. simpl in Heff, Hw2.
  destruct (reachable_keeps _ _ _ (extends_closed (committed s2)) Hr Hw2 (extends_refl _)) as [_ Hext].
  eapply stores_extends; [exact Hext|]. by eapply direct_success_stores.
Qed.

(** The two parts of a request: its answer, and its conclusion. *)
Lemma process_exec context h s t r s' :
  exec (process context h) s t r s' → working s = None →
  ∃ t1 t2 rsp c' s1, t = t1 ++ t2 ∧
    exec (prog_catch (λ e, mret (failure_packet e, context)) (authorize_and_handle context h)) s t1 (Ok (rsp, c')) s1 ∧
    rtc store_step s1 s' ∧ runs (conclude (rsp, c')) t2 r ∧
    omap reply_of t = [(origin c', MkCommandResult (ce_request_id (rc_command c')) (TcpPacketError rsp)
                          (isRetryableError (TcpPacketError rsp)) (SerializeToString rsp))].
Proof.
  intros Hx Hw. apply exec_bind in Hx as [(t1 & t2 & [rsp c'] & s1 & -> & H1 & H2)|(e & H1 & ->)].
  2: { by apply exec_runs, handled in H1 as (_ & ? & ? & [=]). }
  exists t1, t2, rsp, c', s1. pose proof (exec_runs _ _ _ _ _ H2) as Hr2.
  pose proof (exec_steps _ _ _ _ _ (authorize_store_events context h) H1 Hw) as Hr1.
  split_and!; try done.
  - eapply exec_steps; [apply conclude_store_events|exact H2|]. by eapply store_step_working.
  - destruct (handled _ _ _ _ (exec_runs _ _ _ _ _ H1)) as [Hn _]. rewrite omap_app, Hn.
    by eapply conclude_reply.
Qed.

Definition is_forward (x : obs) : Prop := match x with Obs (Forward _ _) _ => True | _ => False end.

Lemma answer_no_forward context h t r :
  runs (prog_catch (λ e, mret (failure_packet e, context)) (authorize_and_handle context h)) t r →
  Forall (λ x, ¬ is_forward x) t.
Proof.
  intros Hr. assert (always (λ R e, match e with Forward _ _ => False | _ => True end)
    (prog_catch (λ e, mret (failure_packet e, context)) (authorize_and_handle context h))) as Ha.
  { apply always_catch; [|done]. unfold authorize_and_handle. simpl. split; [done|]. intros [lease|e]; [|done].
    destruct (negb _); [done|]. eapply always_mono; [|apply handle_events]. by intros R []. }
  eapply Forall_impl; [exact (always_runs _ _ _ _ Ha Hr)|]. intros [R e o] He Hf. by destruct e.
Qed.

(** A send_text request that replied success: its store operation, the reply it
    led to, and that a duplicate pushes nothing. *)
Lemma text_success context s t r s' o result :
  exec (process context h_send_text) s t r s' → working s = None →
  (o, result) ∈ omap reply_of t → cres_error result = error_code Success →
  ∃ accepted time s1 s2, others s s1 ∧ driver_execute (direct_text_operation context time) s1 = (Ok accepted, s2) ∧
    ar_error accepted = error_code Success ∧ rtc store_step s2 s' ∧
    cres_packet result = SerializeToString (with_payload (sent accepted) (respond no_message (error_code Success) "")) ∧
    (ar_duplicate accepted = true → deliveries context = [] → Forall (λ x, ¬ is_forward x) t).
Proof.
  intros Hx Hw Hin Hok.
  destruct (process_exec _ _ _ _ _ _ Hx Hw) as (t1 & t2 & rsp & c' & s1 & -> & H1 & Hr & Hc & E).
  rewrite E in Hin. clear E. pose proof (answer_no_forward _ _ _ _ (exec_runs _ _ _ _ _ H1)) as Hnf.
  apply list_elem_of_singleton in Hin as [= -> ->]. cbn [cres_error cres_packet] in *.
  apply exec_catch in H1 as [(a & H1 & [= <-])|(t3 & t4 & e & s2 & _ & _ & (_ & [= -> _] & _))]; [|by destruct e].
  destruct (send_text_exec _ _ _ _ _ _ H1 Hok) as (acc & time & s2 & s3 & Ho & E & Ea & Hr3 & -> & Ec).
  exists acc, time, s2, s3. split_and!; try done; [by etrans|].
  intros Hd Hnil. apply Forall_app. split; [done|]. rewrite (Ec Hd) in Hc.
  destruct (conclude_run _ _ _ _ Hc) as (b & t5 & -> & H5). constructor; [by intros []|].
  destruct H5 as [-> |(_ & r' & H5)]; [constructor|]. unfold deliver in H5. rewrite Hnil in H5.
  destruct H5 as [-> _]. constructor.
Qed.

(** C2: a success reply means the message is stored: when the run of a send_text
    request replied success, then at its end (and so ever after) the database
    holds a message with the sender, receiver, client id and content of the
    request, under the message id and at the position the reply carries. *)
Theorem acknowledged_text_is_stored context s t r s' o result :
  exec (process context h_send_text) s t r s' → working s = None →
  (o, result) ∈ omap reply_of t → cres_error result = error_code Success →
  ∃ accepted,
    cres_packet result = SerializeToString (with_payload (sent accepted) (respond no_message (error_code Success) "")) ∧
    direct_text_stored context (committed s') accepted.
Proof.
  intros Hx Hw Hin Hok.
  destruct (text_success _ _ _ _ _ _ _ Hx Hw Hin Hok) as (acc & time & s2 & s3 & Ho & E & Ea & Hr & Ep & _).
  exists acc. split; [done|].
  eapply direct_text_stored_later; [by eapply others_working|apply Ho|exact E|done|done].
Qed.

(** The same message: sender, receiver, client id and content. *)
Definition same_text (c c' : request_context) : Prop :=
  let send := send_text_of (rc_packet c) in
  let send' := send_text_of (rc_packet c') in
  actor_of c' = actor_of c ∧ st_to send' = st_to send ∧ st_content send' = st_content send ∧
  st_client_message_id send' = st_client_message_id send.

Lemma direct_text_again c context time s1 accepted s2 first :
  working s1 = None → store_ok (committed s1) → same_text c context →
  direct_text_stored c (committed s1) first →
  driver_execute (direct_text_operation context time) s1 = (Ok accepted, s2) →
  ar_error accepted = error_code Success →
  accepted = MkAccept Success "" true (ar_messageId first) (ar_conversationId first) (ar_conversationSeq first).
Proof.
  intros Hw Hok (E1 & E2 & E3 & E4) Hst E Ea. unfold direct_text_operation in E. rewrite E1, E2, E3, E4 in E.
  pose proof (accept_direct_inv s1 _ _ _ _ _ _ accepted Hw ltac:(by rewrite E) Ea) as Heff.
  exact (proj1 (direct_success_again _ _ _ _ _ _ _ _ _ _ _ _ _ Hok Hst Heff Ea)).
Qed.

(** Resending is safe end to end: when a send_text request replied success
    and later a request with the same sender, receiver, client id and content
    (from any device, over any connection) replies success too, the second reply
    carries the same packet, with the same message id and position, and the
    second request pushes nothing. *)
Theorem resent_text_same_reply c1 c2 s1 t1 r1 s1' s2 t2 r2 s2' o1 result1 o2 result2 :
  same_text c1 c2 → deliveries c2 = [] → working s1 = None → store_ok (committed s1) →
  exec (process c1 h_send_text) s1 t1 r1 s1' → (o1, result1) ∈ omap reply_of t1 →
  cres_error result1 = error_code Success → rtc store_step s1' s2 →
  exec (process c2 h_send_text) s2 t2 r2 s2' → (o2, result2) ∈ omap reply_of t2 →
  cres_error result2 = error_code Success →
  cres_packet result2 = cres_packet result1 ∧ Forall (λ x, ¬ is_forward x) t2.
Proof.
  intros Hsame Hnil Hw Hok Hx1 Hin1 Hok1 Hr Hx2 Hin2 Hok2.
  pose proof (exec_steps _ _ _ _ _ (process_store_events c1 h_send_text) Hx1 Hw) as Hr1.
  destruct (text_success _ _ _ _ _ _ _ Hx1 Hw Hin1 Hok1) as (a1 & time1 & sa & sb & Ho1 & E1 & Ea1 & Hrb & Ep1 & _).
  assert (direct_text_stored c1 (committed s1') a1) as Hst.
  { eapply direct_text_stored_later; [by eapply others_working|apply Ho1|exact E1|done|done]. }
  assert (rtc store_step s1 s2) as Hr12 by (by etrans).
  assert (working s2 = None) as Hw2 by (by eapply store_step_working).
  destruct (text_success _ _ _ _ _ _ _ Hx2 Hw2 Hin2 Hok2) as (a2 & time2 & sc & sd & Ho2 & E2 & Ea2 & _ & Ep2 & Hnf).
  assert (rtc store_step s1' sc) as Hr1c by (etrans; [exact Hr|apply Ho2]).
  assert (rtc store_step s1 sc) as Hrc by (etrans; [exact Hr12|apply Ho2]).
  destruct (reachable_keeps _ _ _ store_ok_closed Hrc Hw Hok) as [Hwc Hokc].
  assert (direct_text_stored c1 (committed sc) a1) as Hstc.
  { destruct (reachable_keeps _ _ _ (extends_closed (committed s1')) Hr1c) as [_ Hext];
      [exact (store_step_working _ _ Hr1 Hw)|apply extends_refl|]. by eapply stores_extends. }
  pose proof (direct_text_again _ _ _ _ _ _ _ Hwc Hokc Hsame Hstc E2 Ea2) as ->.
  split; [by rewrite Ep1, Ep2|]. by apply Hnf.
Qed.
End database.
