(* ===== verification/ServiceRuns.v ===== *)
(** * Runs of the Message service on concrete requests

    The witnesses of the theorems of ServiceTheorems.v: user 1001 sends "hello"
    to user 1002 over the connection its lease names. *)

From S2P Require Import Prelude Codec Schema Records FileTypes Ids Program Process Protocol Handlers Seastar Budget.
From S2P Require Import MessageService MysqlStore StoreSpec StoreInvariant StoreProps Demo ServiceTheorems.
Import db.

Definition demo_request : Packet := MkPacket None (send_text_request (MkSendTextRequest 1002 "hello" "k1" 0)).

(** Codecs that carry the one packet and the leases of one device. *)
Definition demo_serialize (p : Packet) : string :=
  match pk_payload p with send_text_request _ => "send" | _ => "other" end.
Definition demo_parse (s : string) : option Packet := if bool_decide (s = "send") then Some demo_request else None.
Lemma demo_parse_serialize p : p = demo_request → demo_parse (demo_serialize p) = Some p.
Proof. by intros ->. Qed.
Definition demo_packet_codec : ProtobufCodec Packet :=
  {| SerializeToString := demo_serialize; ParseFromString := demo_parse;
     serializable := λ p, p = demo_request; parse_serialize := demo_parse_serialize |}.

Definition demo_session : SessionLease := MkSessionLease "laptop" "gw-1" "i-1" "c1" 1 0.
Definition demo_parse_session (s : string) : option SessionLease :=
  if bool_decide (s = "c1") then Some demo_session else None.
Lemma demo_parse_connection l : l = demo_session → demo_parse_session (sl_connection_id l) = Some l.
Proof. by intros ->. Qed.
Definition demo_session_codec : ProtobufCodec SessionLease :=
  {| SerializeToString := sl_connection_id; ParseFromString := demo_parse_session;
     serializable := λ l, l = demo_session; parse_serialize := demo_parse_connection |}.

Section runs.
#[local] Existing Instance demo_mysql.
#[local] Existing Instance demo_hash.
#[local] Existing Instance counting_semaphore.
#[local] Existing Instance demo_packet_codec.
#[local] Existing Instance demo_session_codec.

Definition demo_stream : stream_route := MkRoute "gw-1" "i-1" 0 1.
Definition demo_command : CommandEnvelope := MkCommandEnvelope "r1" 1001 "c1" 1 OP_SEND_TEXT 0 "send" "laptop".
Definition demo_context : request_context := MkContext demo_stream demo_command demo_request [].
Definition demo_service : service_state := MkService false (make_budget 8 1000).

Definition demo_accepted : MessageAcceptResult := MkAccept Success "" false 1 92001 1.
Definition demo_again : MessageAcceptResult := MkAccept Success "" true 1 92001 1.
Definition demo_operation (time : string) := accept_direct_text 1001 1002 "k1" "hello" time 1.
Definition demo_result : CommandResult := MkCommandResult "r1" 0 false "other".

(** The recipient is online with the same connection as the sender's lease
    (device "laptop"); the sender has no other device. *)
Definition demo_envelope : ClientForwardEnvelope :=
  MkClientForwardEnvelope "r1:0:laptop" 1002 "c1" 1 1 92001 1 "other" "laptop".
Definition demo_prefix : list obs :=
  [ Obs (Io (get_session_op 1001 "laptop")) (Ok demo_session);
    Obs Now (Ok "t");
    Obs (Io (sql (demo_operation "t"))) (Ok demo_accepted);
    Obs (Reply demo_stream demo_result) (Ok true);
    Obs (Io (get_sessions_op 1002)) (Ok [demo_session]);
    Obs (Io (get_session_op 1002 "laptop")) (Ok demo_session) ].
Definition demo_suffix : list obs := [ Obs (Io (get_sessions_op 1001)) (Ok []) ].
Definition demo_trace : list obs :=
  demo_prefix ++ Obs (Forward demo_session demo_envelope) (Ok CLIENT_FORWARD_STATUS_QUEUED) :: demo_suffix.

Lemma demo_runs : runs (process demo_context h_send_text) demo_trace (Ok tt).
Proof. vm_compute. repeat (eexists _, _; split; [reflexivity|]). split; reflexivity. Qed.

Lemma demo_submit_runs :
  runs (submit_command (λ _, 10%Z) demo_stream demo_command demo_service).1 demo_trace (Ok tt).
Proof. vm_compute. repeat (eexists _, _; split; [reflexivity|]). split; reflexivity. Qed.

Lemma command_answered_once_witness :
  ∃ result, omap reply_of demo_trace = [(demo_stream, result)] ∧ cres_request_id result = "r1".
Proof. exact (command_answered_once (λ _, 10%Z) demo_stream demo_command demo_service demo_trace (Ok tt) demo_submit_runs). Defined.

Lemma only_current_connection_acts_witness :
  ∃ lease t', demo_trace = Obs (Io (get_session_op 1001 "laptop")) (Ok lease) :: t' ∧
    sl_gateway_id lease = "gw-1" ∧ sl_instance_id lease = "i-1" ∧ sl_shard_id lease = 0%Z ∧
    sl_connection_id lease = "c1" ∧ sl_generation lease = 1%Z.
Proof.
  refine (only_current_connection_acts demo_context h_send_text demo_trace (Ok tt) demo_runs _).
  apply Exists_cons_tl, Exists_cons_tl, Exists_cons_hd. exact I.
Defined.

Lemma requests_act_for_their_actor_witness :
  Forall (λ x, match x with Obs e _ => works e → handler_event 1001 _ e end) demo_trace.
Proof. exact (requests_act_for_their_actor demo_context h_send_text demo_trace (Ok tt) demo_runs). Defined.

Lemma forwards_follow_success_witness : forward_ok demo_prefix _ (Forward demo_session demo_envelope).
Proof.
  exact (forwards_follow_success demo_context h_send_text demo_prefix demo_session demo_envelope
    (Ok CLIENT_FORWARD_STATUS_QUEUED) demo_suffix (Ok tt) demo_runs).
Defined.

(** The same run on the database of two friends. *)
Definition demo_server : server := (driver_execute (demo_operation "t") demo_friends).2.

Lemma demo_others s : is_i64 (auto_increment s) = true → others s s.
Proof. intros Hi. split; [apply rtc_refl|done]. Qed.

Lemma demo_exec : exec (process demo_context h_send_text) demo_friends demo_trace (Ok tt) demo_server.
Proof.
  assert (is_i64 (auto_increment demo_friends) = true) as H1 by (vm_compute; reflexivity).
  assert (is_i64 (auto_increment demo_server) = true) as H2 by (vm_compute; reflexivity).
  assert ((Ok demo_accepted, demo_server) = driver_execute (demo_operation "t") demo_friends) as E.
  { unfold demo_server. assert ((driver_execute (demo_operation "t") demo_friends).1 = Ok demo_accepted) as <-
      by (vm_compute; reflexivity). by destruct (driver_execute _ _). }
  eexists demo_friends, _, demo_friends, _. split; [by apply demo_others|]. split; [done|]. split; [done|].
  eexists demo_friends, _, demo_friends, _. split; [by apply demo_others|]. split; [done|]. split; [done|].
  eexists demo_friends, _, demo_server, _. split; [by apply demo_others|]. split; [right; exact E|]. split; [done|].
  do 5 (eexists demo_server, _, demo_server, _; split; [by apply demo_others|]; split; [done|]; split; [done|]).
  split_and!; [done|done|apply rtc_refl].
Qed.

Lemma demo_submit : (submit_command (λ _, 10%Z) demo_stream demo_command demo_service).1 = process demo_context h_send_text.
Proof. reflexivity. Qed.

Lemma requests_keep_store_witness :
  store_ok (committed demo_server) ∧ extends (committed demo_friends) (committed demo_server).
Proof.
  refine (requests_keep_store (λ _, 10%Z) demo_stream demo_command demo_service demo_friends demo_trace (Ok tt)
    demo_server _ (proj1 demo_friends_ok) (proj2 demo_friends_ok)).
  rewrite demo_submit. exact demo_exec.
Defined.

Lemma demo_replied : (demo_stream, demo_result) ∈ omap reply_of demo_trace.
Proof. vm_compute. apply list_elem_of_here. Qed.

Lemma acknowledged_text_is_stored_witness :
  ∃ accepted, "other" = demo_serialize (with_payload (sent accepted) (respond no_message (error_code Success) "")) ∧
    direct_text_stored demo_context (committed demo_server) accepted.
Proof.
  exact (acknowledged_text_is_stored demo_context demo_friends demo_trace (Ok tt) demo_server demo_stream demo_result
    demo_exec (proj1 demo_friends_ok) demo_replied eq_refl).
Defined.

(** The same command again, from the same database. *)
Definition demo_trace_again : list obs :=
  [ Obs (Io (get_session_op 1001 "laptop")) (Ok demo_session);
    Obs Now (Ok "t2");
    Obs (Io (sql (demo_operation "t2"))) (Ok demo_again);
    Obs (Reply demo_stream demo_result) (Ok true) ].
Definition demo_server_again : server := (driver_execute (demo_operation "t2") demo_server).2.

Lemma demo_exec_again : exec (process demo_context h_send_text) demo_server demo_trace_again (Ok tt) demo_server_again.
Proof.
  assert (is_i64 (auto_increment demo_server) = true) as H1 by (vm_compute; reflexivity).
  assert (is_i64 (auto_increment demo_server_again) = true) as H2 by (vm_compute; reflexivity).
  assert ((Ok demo_again, demo_server_again) = driver_execute (demo_operation "t2") demo_server) as E.
  { unfold demo_server_again. assert ((driver_execute (demo_operation "t2") demo_server).1 = Ok demo_again) as <-
      by (vm_compute; reflexivity). by destruct (driver_execute _ _). }
  do 2 (eexists demo_server, _, demo_server, _; split; [by apply demo_others|]; split; [done|]; split; [done|]).
  eexists demo_server, _, demo_server_again, _. split; [by apply demo_others|]. split; [right; exact E|]. split; [done|].
  eexists demo_server_again, _, demo_server_again, _. split; [by apply demo_others|]. split; [done|]. split; [done|].
  split_and!; [done|done|apply rtc_refl].
Qed.

Lemma resent_text_same_reply_witness :
  cres_packet demo_result = cres_packet demo_result ∧ Forall (λ x, ¬ is_forward x) demo_trace_again.
Proof.
  refine (resent_text_same_reply demo_context demo_context demo_friends demo_trace (Ok tt) demo_server demo_server
    demo_trace_again (Ok tt) demo_server_again demo_stream demo_result demo_stream demo_result _ eq_refl
    (proj1 demo_friends_ok) (proj2 demo_friends_ok) demo_exec demo_replied eq_refl (rtc_refl _ _)
    demo_exec_again _ eq_refl).
  - split_and!; reflexivity.
  - vm_compute. apply list_elem_of_here.
Defined.
End runs.
