(* ===== verification/GatewayRuns.v ===== *)
(** * The Gateway's requests over its stores

    The events of a connection's programs (GatewayService) executed on the shard
    (GatewayConnection), on Redis and on MySQL: after a login that bound its
    connection, the Message service finds the session, and what it addresses to
    that session reaches the connection. *)

From S2P Require Import Prelude Codec Schema Seastar Budget Redis Sessions Program Protocol MysqlStore Accounts.
From S2P Require Import Framing GatewayDriver GatewayDriverTheorems GatewayConnection ConnectionTheorems ConnectionRuns.
From S2P Require Import GatewayService MessageService Demo.
Import gateway_protocol.

(** The shard's state with the two stores; [gw_permits]: the budget of
    requests; [gw_refreshed], [gw_window] are of the connection. *)
Record gateway_world {SEM : Semaphore} := MkGatewayWorld {
  gw_shard : gateway_shard; gw_redis : redis; gw_mysql : server; gw_permits : budget; gw_stopping : bool;
  gw_refreshed : Z; gw_window : command_window; gw_spawned : list (ClientRequest * capacity_units) }.

Section runs.
Context {SEM : Semaphore} `{!MysqlServer} `{!StdHash} `{!LeaseText}
  `{!ProtobufCodec Packet} `{!ProtobufCodec ClientEnvelope}
  (o : gateway_options) (shard_count : Z) (id : string) (request_size : ClientRequest → Z)
  (frame_size : GatewayToMessageFrame → Z) (command_size : CommandEnvelope → Z).

Abbreviation world := gateway_world.

Definition set_shard (g : gateway_shard) (w : world) : world :=
  MkGatewayWorld _ g (gw_redis w) (gw_mysql w) (gw_permits w) (gw_stopping w) (gw_refreshed w) (gw_window w) (gw_spawned w).
Definition set_redis (r : redis) (w : world) : world :=
  MkGatewayWorld _ (gw_shard w) r (gw_mysql w) (gw_permits w) (gw_stopping w) (gw_refreshed w) (gw_window w) (gw_spawned w).
Definition set_mysql (s : server) (w : world) : world :=
  MkGatewayWorld _ (gw_shard w) (gw_redis w) s (gw_permits w) (gw_stopping w) (gw_refreshed w) (gw_window w) (gw_spawned w).
Definition set_permits (b : budget) (w : world) : world :=
  MkGatewayWorld _ (gw_shard w) (gw_redis w) (gw_mysql w) b (gw_stopping w) (gw_refreshed w) (gw_window w) (gw_spawned w).
Definition set_refreshed (now : Z) (w : world) : world :=
  MkGatewayWorld _ (gw_shard w) (gw_redis w) (gw_mysql w) (gw_permits w) (gw_stopping w) now (gw_window w) (gw_spawned w).
Definition set_window (v : command_window) (w : world) : world :=
  MkGatewayWorld _ (gw_shard w) (gw_redis w) (gw_mysql w) (gw_permits w) (gw_stopping w) (gw_refreshed w) v (gw_spawned w).
Definition spawn (request : ClientRequest) (permit : capacity_units) (w : world) : world :=
  MkGatewayWorld _ (gw_shard w) (gw_redis w) (gw_mysql w) (gw_permits w) (gw_stopping w) (gw_refreshed w) (gw_window w)
    (gw_spawned w ++ [(request, permit)]).

Definition with_redis {A} (m : Eff redis A) : Eff world A := λ w, let '(a, r) := m (gw_redis w) in (a, set_redis r w).
Definition with_mysql {A} (m : Eff server A) : Eff world A := λ w, let '(a, s) := m (gw_mysql w) in (a, set_mysql s w).
Definition with_driver {A} (m : Eff driver A) : Eff world A := λ w,
  let g := gw_shard w in
  let '(a, d) := m (gx_driver g) in (a, set_shard (MkShard d (gx_reliable g) (gx_connections g)) w).

(** The connection itself, and an operation of it. A connection stays in the
    table as long as it runs. *)
Definition own (w : world) : connection := default new_connection (gx_connections (gw_shard w) !! id).
Definition read {A} (f : connection → A) : Eff world A := λ w, (Ok (f (own w)), w).
Definition with_own (f : session → session) : Eff world unit := λ w,
  (Ok tt, set_shard (on_connection id f (gw_shard w)) w).

(** driver::execute *)
Definition gateway_execute {R} (op : gateway_operation R) : Eff world R :=
  match op with
  | op_validate_token uid token => with_redis (validate_token uid token)
  | op_prepare_profile lg => with_mysql (prepare_profile lg)
  | op_register_device uid device => with_mysql (register_device uid device)
  | op_bind_session uid route => with_redis (bind_session uid route)
  | op_refresh_session uid route => with_redis (refresh_session uid route)
  | op_clear_session uid route => with_redis (clear_session uid route)
  | op_send_command c => with_driver (send_command frame_size command_size c)
  end.

(** [clock] is the steady clock, [results] what the promises of the tickets are
    given. A connection of another shard is closed there. *)
Definition gateway_handler (clock : Z) (results : nat → outcome CommandResult) R (e : gateway_event R) : Eff world R :=
  match e in gateway_event R return Eff world R with
  | GwIo op => gateway_execute op
  | GwResult ticket => λ w, (results ticket, w)
  | GwCancel => with_driver (λ d, (Ok tt, cancel id d))
  | GwClosed => read cn_closed
  | GwUid => read cn_uid
  | GwLease => read cn_lease
  | GwBind uid lease => λ w, with_own (connection_bind uid lease) (set_refreshed clock w)
  | GwClose => with_own connection_close
  | GwClosePrevious previous => λ w,
      (Ok tt,
       match close_previous (go_gateway_id o) (go_instance_id o) shard_count previous with
       | Some (n, connection_id) =>
           if (n =? go_shard_id o)%Z then set_shard (close_connection connection_id (gw_shard w)) w else w
       | None => w
       end)
  | GwSend envelope => λ w,
      let s := session_of id (own w) (gw_shard w) in
      let '(accepted, s) := connection_send (SerializeToString envelope) s in
      (Ok accepted, set_shard (put_session s (gw_shard w)) w)
  | GwCloseAfterWrite => with_own (λ s, sn_set (cn_flags (cn_closed (sn_conn s)) true (cn_writer_closed (sn_conn s)) (sn_conn s)) s)
  | GwCloseWriter => with_own (λ s, sn_set (cn_flags (cn_closed (sn_conn s)) (cn_close_after_write (sn_conn s)) true (sn_conn s)) s)
  | GwWriterClosed => read cn_writer_closed
  | GwDrain => λ w, (Ok tt, w)
  | GwAcknowledge sequence => with_own (connection_acknowledge sequence)
  | GwNow => λ w, (Ok clock, w)
  | GwLastRefresh => λ w, (Ok (gw_refreshed w), w)
  | GwSetLastRefresh now => λ w, (Ok tt, set_refreshed now w)
  | GwWindow => λ w, (Ok (gw_window w), w)
  | GwSetWindow v => λ w, (Ok tt, set_window v w)
  | GwAdmit bytes => λ w,
      if gw_stopping w then (Throw Stopped, w)
      else let '(a, b) := acquire bytes (gw_permits w) in (a, set_permits b w)
  | GwRelease permit => λ w, (Ok tt, set_permits (release permit (gw_permits w)) w)
  | GwSpawn q permit => λ w, (Ok tt, spawn q permit w)
  end.

(** ** What the operations of a connection leave alone *)

Definition identity (c : connection) : Z * SessionLease := (cn_uid c, cn_lease c).

Lemma close_identity s : sn_id (connection_close s) = sn_id s ∧ identity (sn_conn (connection_close s)) = identity (sn_conn s).
Proof. unfold connection_close. by destruct (cn_closed (sn_conn s)). Qed.
Lemma start_loop_identity s : sn_id (start_loop s) = sn_id s ∧ identity (sn_conn (start_loop s)) = identity (sn_conn s).
Proof. unfold start_loop. destruct (cn_writer_closed _); [|done]. by rewrite !(proj1 (close_identity _)), !(proj2 (close_identity _)). Qed.
Lemma send_identity e s :
  sn_id (connection_send e s).2 = sn_id s ∧ identity (sn_conn (connection_send e s).2) = identity (sn_conn s).
Proof.
  unfold connection_send. destruct (cn_closed _); [done|]. destruct (_ || _); [apply close_identity|].
  destruct (acquire _ _) as [[units|x] b]; simpl.
  - destruct (cn_writing _); [done|]. by rewrite (proj1 (start_loop_identity _)), (proj2 (start_loop_identity _)).
  - by rewrite (proj1 (close_identity _)), (proj2 (close_identity _)).
Qed.

(** A refresh of any session keeps a session that is as fresh as it can be. *)
Lemma refresh_keeps uid device u route r v :
  r_keys r !! session_key uid device = Some (v, Some (r_time r + 60000)%Z) →
  let r' := (refresh_session u route r).2 in
  r_time r' = r_time r ∧ r_keys r' !! session_key uid device = Some (v, Some (r_time r + 60000)%Z).
Proof.
  intros Hk r'. destruct (touches_refresh_session u route r) as [Ht Hkeys]. split; [exact Ht|].
  destruct (decide ((uid, device) = (u, sl_device_id route))) as [[= -> ->]|Hne].
  2: { subst r'. rewrite Hkeys; [done|]. by apply other_device. }
  clear Ht Hkeys. subst r'. unfold refresh_session. rewrite bind_eq.
  assert (∀ r0, r_keys r0 = r_keys r → r_time r0 = r_time r →
    r_keys (refresh_script u route r0).2 !! session_key u (sl_device_id route) = Some (v, Some (r_time r + 60000)%Z)) as Hrun.
  { intros r0 E1 E2. set (k := session_key u (sl_device_id route)) in *. unfold refresh_script. fold k.
    rewrite <- E1, <- E2 in *. rewrite bind_eq.
    assert (∃ a, GET k r0 = (a, r0)) as [[[text|]|e] ->].
    { unfold GET. rewrite bind_eq. simpl. destruct (value_at r0 k) as [[]|]; by eexists. }
    2, 3: exact Hk.
    cbn [fst snd]. destruct (cjson_decode text) as [lease|]; [|exact Hk]. destruct (_ || _); [exact Hk|].
    rewrite (touches_rest [user_sessions_key u] (EXPIRE k 60) _ r0 tt
      (set_keys (<[k := (v, Some (r_time r0 + 60000)%Z)]> (r_keys r0)) r0)).
    - simpl. apply lookup_insert_eq.
    - unfold EXPIRE. rewrite bind_eq. simpl. unfold entry_at. rewrite Hk. simpl. unfold live. simpl.
      by rewrite (proj2 (Z.leb_le _ _)) by lia.
    - intros _. touching_commands.
    - apply not_elem_of_cons. split; [done|set_solver]. }
  unfold redis_command. destruct (default NoFault _); simpl.
  - set (r0 := MkRedis _ _ _). pose proof (Hrun r0 eq_refl eq_refl). by destruct (refresh_script u route r0) as [[] ?].
  - done.
  - by apply Hrun.
Qed.

Context (clock : Z) (results : nat → outcome CommandResult).
Abbreviation answered := (gateway_handler clock results).
Abbreviation own_of w := (gx_connections (gw_shard w) !! id).

(** The user and the lease of the connection, and Redis, are as before. *)
Definition same (w w' : world) : Prop :=
  (∃ c c', own_of w = Some c ∧ own_of w' = Some c' ∧ identity c' = identity c) ∧
  r_keys (gw_redis w') = r_keys (gw_redis w) ∧ r_time (gw_redis w') = r_time (gw_redis w).

Definition quiet {R} (e : gateway_event R) : Prop :=
  match e with
  | GwIo (op_validate_token _ _) | GwIo (op_prepare_profile _) | GwIo (op_register_device _ _) => True
  | GwClosed | GwUid | GwLease | GwClose | GwClosePrevious _ | GwSend _ | GwAdmit _ | GwRelease _ => True
  | _ => False
  end.

Lemma on_connection_identity i f g c :
  (∀ s, sn_id (f s) = sn_id s ∧ identity (sn_conn (f s)) = identity (sn_conn s)) →
  gx_connections g !! id = Some c →
  ∃ c', gx_connections (on_connection i f g) !! id = Some c' ∧ identity c' = identity c.
Proof.
  intros Hf Hc. unfold on_connection. destruct (gx_connections g !! i) as [ci|] eqn:Hi; [|by exists c].
  destruct (Hf (session_of i ci g)) as [Hid Hident]. unfold put_session. simpl. rewrite Hid. simpl in *.
  destruct (decide (i = id)) as [->|Hne].
  - rewrite lookup_insert_eq. eexists. split; [done|]. congruence.
  - rewrite lookup_insert_ne by done. by exists c.
Qed.

Lemma same_refl w : is_Some (own_of w) → same w w.
Proof. intros [c Hc]. split; [by exists c, c|done]. Qed.

Lemma validate_token_keys uid token r :
  r_keys (validate_token uid token r).2 = r_keys r ∧ r_time (validate_token uid token r).2 = r_time r.
Proof.
  unfold validate_token. rewrite bind_eq. unfold redis_command, GET.
  destruct (default NoFault _); simpl; try done; rewrite bind_eq; simpl;
    destruct (value_at _ _) as [[]|]; done.
Qed.

Lemma quiet_same {R} (e : gateway_event R) w : quiet e → is_Some (own_of w) → same w (answered R e w).2.
Proof.
  intros He Hown. pose proof (same_refl w Hown) as Hsame. destruct Hown as [c Hc].
  destruct e as [? op| | | | | | | |previous|envelope| | | | | | | | | | |bytes|permit|]; try done; simpl.
  - destruct op; try done; simpl.
    + unfold with_redis. pose proof (validate_token_keys uid token (gw_redis w)) as [Hk Ht].
      destruct (validate_token _ _ _) as [a r]. split; [by exists c, c|done].
    + unfold with_mysql. by destruct (prepare_profile _ _).
    + unfold with_mysql. by destruct (register_device _ _ _).
  - destruct (on_connection_identity id connection_close (gw_shard w) c close_identity Hc) as (c' & Hc' & Hi).
    split; [by exists c, c'|done].
  - destruct (close_previous _ _ _ _) as [[n i]|]; [|done]. destruct (n =? go_shard_id o)%Z; [|done].
    destruct (on_connection_identity i connection_close (gw_shard w) c close_identity Hc) as (c' & Hc' & Hi).
    split; [by exists c, c'|done].
  - unfold own. rewrite Hc. simpl.
    pose proof (send_identity (SerializeToString envelope) (session_of id c (gw_shard w))) as [Hid Hi].
    destruct (connection_send _ _) as [accepted s]. simpl in *. split; [|done].
    exists c, (sn_conn s). split; [done|]. split; [|done].
    change (<[sn_id s := sn_conn s]> (gx_connections (gw_shard w)) !! id = Some (sn_conn s)).
    by rewrite Hid, lookup_insert_eq.
  - destruct (gw_stopping w); [done|]. by destruct (acquire _ _).
Qed.

(** ** A login *)

Definition keeps (I J : world → Prop) {A} (m : gateway_prog A) : Prop := ∀ w, I w → J (interp answered m w).2.

Lemma keeps_bind (I K J : world → Prop) {A B} (m : gateway_prog A) (f : A → gateway_prog B) :
  keeps I K m → (∀ a, keeps K J (f a)) → (∀ w, K w → J w) → keeps I J (m ≫= f).
Proof.
  intros Hm Hf HKJ w Hw. rewrite interp_bind. specialize (Hm w Hw). destruct (interp answered m w) as [[a|e] w'].
  - by apply Hf.
  - by apply HKJ.
Qed.
Lemma keeps_catch (I K J : world → Prop) {A} c (m : gateway_prog A) :
  keeps I K m → (∀ e, keeps K J (c e)) → (∀ w, K w → J w) → keeps I J (prog_catch c m).
Proof.
  intros Hm Hc HKJ w Hw. rewrite interp_catch. specialize (Hm w Hw). destruct (interp answered m w) as [[a|e] w'].
  - by apply HKJ.
  - by apply Hc.
Qed.
Lemma keeps_perform (I J : world → Prop) {R} (e : gateway_event R) :
  (∀ w, I w → J (answered R e w).2) → keeps I J (perform e).
Proof. intros He w Hw. rewrite interp_perform. by apply He. Qed.
Lemma keeps_ret (I J : world → Prop) {A} (a : outcome A) : (∀ w, I w → J w) → keeps I J (Done a).
Proof. intros HIJ w Hw. by apply HIJ. Qed.

(** What depends only on the identity of the connection and on Redis. *)
Definition stable (I : world → Prop) : Prop := ∀ w w', same w w' → I w → I w'.

Lemma keeps_quiet (I : world → Prop) {A} (m : gateway_prog A) :
  stable I → (∀ w, I w → is_Some (own_of w)) → always (@quiet) m → keeps I I m.
Proof.
  intros HI Hown Hm w. revert w. induction m as [a|R e k IH]; intros w Hw; simpl; [done|].
  destruct Hm as [He Hk]. pose proof (quiet_same e w He (Hown _ Hw)) as Hs.
  destruct (answered R e w) as [a w']. apply IH; [done|]. by eapply HI.
Qed.

Context (lg : LoginRequest).
Abbreviation uid := (lr_uid lg).
Abbreviation device := (lr_device_id lg).
Abbreviation route := (login_route o id lg).

(** The session of this generation is in Redis, as fresh as it can be. *)
Definition registered (g : Z) (r : redis) : Prop :=
  lease_strings (with_generation g route) ∧ lua_exact g = true ∧
  r_keys r !! session_key uid device =
    Some (RString (cjson_encode (with_generation g route)), Some (r_time r + 60000)%Z).

Definition unbound (w : world) : Prop := ∃ c, own_of w = Some c ∧ cn_uid c = 0%Z.
Definition ready (w : world) : Prop :=
  unbound w ∧ reached uid device 0 (gw_redis w) ∧ fits uid route (gw_redis w).
Definition bound (w : world) : Prop :=
  ∃ c g, own_of w = Some c ∧ identity c = (uid, with_generation g route) ∧ registered g (gw_redis w).
Definition settled (w : world) : Prop := unbound w ∨ bound w.

Lemma same_redis_counts w w' z :
  r_keys (gw_redis w') = r_keys (gw_redis w) → counts uid device z (gw_redis w) → counts uid device z (gw_redis w').
Proof. intros E. apply counts_ext. by rewrite E. Qed.

Lemma unbound_stable : stable unbound.
Proof.
  intros w w' [(c1 & c' & Hc1 & Hc' & Hi) _] (c & Hc & Hu). exists c'. split; [done|].
  rewrite Hc in Hc1. injection Hc1 as <-. injection Hi as Hi _. congruence.
Qed.
Lemma ready_stable : stable ready.
Proof.
  intros w w' Hs (Hu & (z & Hz & Hle) & Hf). pose proof Hs as (_ & Hk & Ht).
  split; [by eapply unbound_stable|]. split.
  - exists z. split; [by eapply same_redis_counts|done].
  - intros z' Hz'. apply Hf. by eapply (same_redis_counts w' w).
Qed.
Lemma bound_stable : stable bound.
Proof.
  intros w w' [(c1 & c' & Hc1 & Hc' & Hi) [Hk Ht]] (c & g & Hc & Hid & Hl & Hx & He). exists c', g.
  split; [done|]. rewrite Hc in Hc1. injection Hc1 as <-. split; [congruence|]. unfold registered. by rewrite Hk, Ht.
Qed.
Lemma settled_stable : stable settled.
Proof. intros w w' Hs [Hw|Hw]; [left; by eapply unbound_stable|right; by eapply bound_stable]. Qed.

Lemma settled_own w : settled w → is_Some (own_of w).
Proof. intros [(c & Hc & _)|(c & g & Hc & _)]; by exists c. Qed.
Lemma ready_settled w : ready w → settled w.
Proof. intros [Hu _]. by left. Qed.

Lemma bind_step w :
  ready w →
  match answered _ (GwIo (op_bind_session uid route)) w with
  | (Ok b, w') => unbound w' ∧ ∃ g, current b = with_generation g route ∧ registered g (gw_redis w')
  | (Throw _, w') => unbound w'
  end.
Proof.
  intros ((c & Hc & Hu) & (z & Hz & _) & Hf). simpl. unfold with_redis.
  pose proof (bind_session_keys uid route z (gw_redis w) Hz Hf) as Hb.
  destruct (touches_bind_session uid route (gw_redis w)) as [Ht _]. destruct (Hf z Hz) as [Hl Hx].
  destruct (bind_session uid route (gw_redis w)) as [[b|e] r]; simpl in *; [|by exists c].
  split; [by exists c|]. destruct Hb as [(_ & _ & Hno)|(_ & Hk & Hcur)]; [by destruct (Hno b)|].
  exists (z + 1)%Z. split; [by apply Hcur|]. unfold registered. simpl. by rewrite Ht.
Qed.

Lemma bound_bind w g lease :
  unbound w → lease = with_generation g route → registered g (gw_redis w) → bound (answered _ (GwBind uid lease) w).2.
Proof.
  intros (c & Hc & _) -> Hr. simpl. exists (cn_bind uid (with_generation g route) c), g. split; [|done].
  simpl. unfold on_connection. rewrite Hc. simpl. apply lookup_insert_eq.
Qed.

Lemma refresh_bound u lease w : bound w → bound (answered _ (GwIo (op_refresh_session u lease)) w).2.
Proof.
  intros (c & g & Hc & Hid & Hl & Hx & He). simpl. unfold with_redis.
  destruct (refresh_keeps uid device u lease (gw_redis w) _ He) as [Ht Hk].
  destruct (refresh_session u lease (gw_redis w)) as [a r]. simpl in *. exists c, g. split; [done|]. split; [done|].
  split; [done|]. split; [done|]. simpl. by rewrite Ht.
Qed.

Lemma bound_own w : bound w → is_Some (own_of w).
Proof. intros Hb. by apply settled_own; right. Qed.
Lemma ready_own w : ready w → is_Some (own_of w).
Proof. intros Hb. by apply settled_own, ready_settled. Qed.

Lemma quiet_respond q packet : always (@quiet) (gw_respond q packet).
Proof. split; [done|]. by intros [?|?]. Qed.
Lemma quiet_error q code : always (@quiet) (gw_error q code).
Proof. unfold gw_error. destruct (negb _); [apply quiet_respond|done]. Qed.

Ltac quietly := apply keeps_quiet; [first [apply ready_stable|apply bound_stable|apply settled_stable]
  |first [apply ready_own|apply bound_own|apply settled_own]|try (split; [done|by intros [?|?]])].

(** What follows bind. *)
Lemma login_bound_keeps previous :
  keeps bound bound
    (match previous with Some lease => perform (GwClosePrevious lease) | None => mret tt end ;;
     closed ← perform GwClosed;
     if (closed : bool) then mret false
     else
       u ← perform GwUid;
       lease ← perform GwLease;
       refreshed ← gateway_io (op_refresh_session u lease);
       if negb (refreshed : bool) then perform GwClose ;; mret false else mret true).
Proof.
  apply (keeps_bind _ bound); [destruct previous; by quietly| |done]. intros [].
  apply (keeps_bind _ bound); [by quietly| |done]. intros [|]; [by apply keeps_ret|].
  apply (keeps_bind _ bound); [by quietly| |done]. intros u.
  apply (keeps_bind _ bound); [by quietly| |done]. intros lease.
  apply (keeps_bind _ bound); [apply keeps_perform; intros w; apply refresh_bound| |done].
  intros [|]; [by apply keeps_ret|by quietly].
Qed.

Lemma login_bind_keeps request : keeps ready settled (login_bind o id request lg).
Proof.
  apply (keeps_bind _ ready); [by quietly| |apply ready_settled]. intros [|]; cbn [negb].
  2: { intros w Hw. apply ready_settled. revert w Hw. change (keeps ready ready (gw_error request (error_code NotFound) ;; mret false)).
       quietly. apply always_bind; [apply quiet_error|done]. }
  apply (keeps_bind _ ready); [by quietly| |apply ready_settled]. intros [|]; [by apply keeps_ret, ready_settled|].
  apply (keeps_bind _ ready); [by quietly| |apply ready_settled]. intros [|]; cbn [negb].
  2: { intros w Hw. apply ready_settled. revert w Hw.
       change (keeps ready ready (gw_error request (error_code AuthenticationRequired) ;; mret false)).
       quietly. apply always_bind; [apply quiet_error|done]. }
  apply (keeps_bind _ ready); [by quietly| |apply ready_settled]. intros [|]; [by apply keeps_ret, ready_settled|].
  intros w Hw. rewrite interp_bind. unfold gateway_io. rewrite interp_perform. pose proof (bind_step w Hw) as Hb.
  destruct (answered _ (GwIo (op_bind_session uid route)) w) as [[b|e] w1]; [|by left].
  destruct Hb as [Hu (g & Hg & Hr)]. right. rewrite interp_bind, interp_perform.
  pose proof (bound_bind w1 g (current b) Hu Hg Hr) as Hbound.
  destruct (answered _ (GwBind uid (current b)) w1) as [[[]|e] w2]; simpl in *; [|done].
  by apply (login_bound_keeps (previous b)).
Qed.

Lemma ready_keeps {A} (m : gateway_prog A) : always (@quiet) m → keeps ready settled m.
Proof. intros Hm w Hw. apply ready_settled. by apply keeps_quiet; [apply ready_stable|apply ready_own|..]. Qed.
Lemma settled_keeps {A} (m : gateway_prog A) : always (@quiet) m → keeps settled settled m.
Proof. apply keeps_quiet; [apply settled_stable|apply settled_own]. Qed.

Lemma service_login_keeps request :
  login_of (packet_of request) = lg → keeps ready settled (service_login o id request).
Proof.
  intros El. unfold service_login. rewrite El.
  apply (keeps_bind _ ready); [by quietly| |apply ready_settled]. intros u.
  apply (keeps_bind _ ready); [by quietly| |apply ready_settled]. intros lease.
  destruct (_ && _); [apply ready_keeps, quiet_error|].
  apply (keeps_bind _ ready); [by quietly| |apply ready_settled]. intros [|]; cbn [negb]; [|apply ready_keeps, quiet_error].
  apply (keeps_bind _ ready); [by quietly| |apply ready_settled]. intros [|]; [by apply keeps_ret, ready_settled|].
  apply (keeps_bind _ ready); [by quietly| |apply ready_settled]. intros u'.
  apply (keeps_bind _ settled); [|intros [|]; cbn [negb]; [|by apply keeps_ret]|done].
  - destruct (u' =? 0)%Z; [apply login_bind_keeps|by apply keeps_ret, ready_settled].
  - apply (keeps_bind _ settled); [by quietly| |done]. intros [|]; [by apply keeps_ret|]. apply settled_keeps, quiet_respond.
Qed.

Lemma gw_login_keeps request :
  login_of (packet_of request) = lg → keeps ready settled (gw_login o id request_size request).
Proof.
  intros El. apply (keeps_catch _ settled); [|intros []; apply settled_keeps, quiet_error|done].
  apply (keeps_bind _ ready); [by quietly| |apply ready_settled]. intros permit.
  apply (keeps_bind _ settled); [|intros []; by quietly|done].
  apply (keeps_catch _ settled); [by apply service_login_keeps| |done]. intros e. apply settled_keeps.
  split; [done|]. by intros [?|?].
Qed.

(** ** After the login

    [session_kept start lease d r]: from [start] on, Redis has come to [r] by
    refreshes of the session and by whatever leaves its key alone (time passes,
    sessions of other devices and users come and go, commands fail); [d] is the
    deadline of the session. *)
Inductive session_kept (start : redis) (lease : SessionLease) : Z → redis → Prop :=
  | kept_start : session_kept start lease (r_time start + 60000) start
  | kept_other d r r' : session_kept start lease d r →
      r_keys r' !! session_key uid device = r_keys r !! session_key uid device → session_kept start lease d r'
  | kept_refresh d r : session_kept start lease d r → (r_time r ≤ d)%Z → r_faults r = [] →
      session_kept start lease (r_time r + 60000) (refresh_session uid lease r).2.

Lemma kept_session g start d r :
  registered g start → session_kept start (with_generation g route) d r →
  r_keys r !! session_key uid device = Some (RString (cjson_encode (with_generation g route)), Some d).
Proof.
  intros (Hl & Hx & Hs). induction 1 as [|d r r' _ IH E|d r _ IH Ht Hf]; [done|congruence|].
  by apply (refresh_session_stored uid (with_generation g route) d r).
Qed.

(** C9: a user who is logged in can be reached until sixty seconds after the
    last refresh. Whatever fails during a login, once it has bound the connection
    to the user there is a lease that names this very connection, and: a lookup of
    the Message service for the user and the device, if it does not fail itself,
    finds exactly this lease, provided that nobody bound or cleared the session of
    this device in between and that no more than sixty seconds went by since the
    login or since the last refresh within that time; afterwards the lookup finds
    no session. And a push that the Message service addresses to that lease is, when the connection is open,
    neither refused as stale nor as offline by the Gateway, but queued for the
    client (or refused for lack of room). The generations of the device are taken
    to fit Lua's numbers. *)
Theorem logged_in_is_reachable request w c :
  let w' := (interp answered (gw_login o id request_size request) w).2 in
  login_of (packet_of request) = lg →
  unbound w → reached uid device 0 (gw_redis w) → fits uid route (gw_redis w) →
  own_of w' = Some c → cn_uid c ≠ 0%Z →
  cn_uid c = uid ∧
  ∃ lease, sl_connection_id lease = id ∧ sl_gateway_id lease = go_gateway_id o ∧
    sl_instance_id lease = go_instance_id o ∧ sl_shard_id lease = go_shard_id o ∧
    (∀ d r, session_kept (gw_redis w') lease d r → r_faults r = [] →
       (get_session uid device r).1 = Ok (if (r_time r <=? d)%Z then lease else default_lease)) ∧
    (∀ envelope, cn_closed c = false → cf_recipient_uid envelope = uid →
       let status := (GatewayConnection.deliver (forward_target envelope lease) (gw_shard w')).1 in
       status = CLIENT_FORWARD_STATUS_QUEUED ∨ status = CLIENT_FORWARD_STATUS_BACKPRESSURED).
Proof.
  intros w' El Hw Hr Hf Hc Hne.
  assert (settled w') as Hs by (by apply (gw_login_keeps request El)). clearbody w'.
  destruct Hs as [(c' & Hc' & Hz)|(c' & g & Hc' & Hid & Hreg)]; rewrite Hc in Hc'; injection Hc' as <-; [done|].
  injection Hid as Hcu Hcl.
  split; [done|]. exists (with_generation g route). split_and!; [done..| |].
  - intros d r Hk%(kept_session g); [|done]. intros Hq. destruct Hreg as (Hl & Hx & _). destruct r as [keys t fs]. simpl in *. subst fs.
    destruct (Z.leb_spec t d); [by eapply get_session_stored|by eapply get_session_expired].
  - intros envelope Hopen Hrec. unfold GatewayConnection.deliver. simpl. rewrite Hc, Hopen, Hcu, Hcl. simpl.
    rewrite Hrec, Z.eqb_refl, bool_decide_eq_true_2, Z.eqb_refl by done. simpl.
    destruct (ParseFromString _) as [packet|]; [|by right].
    destruct (if (0 <? _)%Z then _ else _) as [[] s]; [by left|by right].
Qed.
End runs.

(** ** A login, and a push *)

#[local] Existing Instance counting_semaphore.
#[local] Existing Instance demo_mysql.
#[local] Existing Instance demo_hash.
#[local] Existing Instance demo_lease_text.
#[local] Existing Instance demo_push_codec.
#[local] Existing Instance demo_envelope_codec.

Definition demo_gateway : gateway_options := MkGatewayOptions "gw-1" "i-1" 0 100.
Definition demo_credentials : LoginRequest := MkLoginRequest 1002 "token" "phone" true "Bea" 30 "f" "".
Definition demo_login_request : ClientRequest := MkClientRequest "r1" (Some (MkPacket None (login_request demo_credentials))) OP_LOGIN.
Definition demo_tokens : redis := MkRedis {[ "im:chatAuth:1002" := (RString "token", None) ]} 0 [].
Definition demo_world : gateway_world :=
  MkGatewayWorld _ (accept "c1" (shard_init 8 1000 4 1000)) demo_tokens demo_start (make_budget 4 1000) false 0 (MkWindow 0 0) [].
Definition demo_logged_in : gateway_world :=
  (interp (gateway_handler demo_gateway 1 "c1" (λ _, 1%Z) (λ _, 1%Z) 5 (λ _, Throw Stopped))
     (gw_login demo_gateway "c1" (λ _, 10%Z) demo_login_request) demo_world).2.
Definition demo_bound : connection := default new_connection (gx_connections (gw_shard demo_logged_in) !! "c1").

Lemma logged_in_is_reachable_witness :
  cn_uid demo_bound = 1002%Z ∧ cn_sent demo_bound = ["answer"] ∧
  ∃ lease, sl_connection_id lease = "c1" ∧
    (get_session 1002 "phone" (MkRedis (r_keys (gw_redis demo_logged_in)) 30000 [])).1 = Ok lease.
Proof.
  destruct (logged_in_is_reachable demo_gateway 1 "c1" (λ _, 10%Z) (λ _, 1%Z) (λ _, 1%Z) 5 (λ _, Throw Stopped)
    demo_credentials demo_login_request demo_world demo_bound) as (Hu & lease & Hid & _ & _ & _ & Hget & _).
  - reflexivity.
  - exists new_connection. split; reflexivity.
  - exists 0%Z. split; [right; done|lia].
  - apply demo_fits. intros z [Hz|[_ ->]]; [done|by left].
  - vm_compute. reflexivity.
  - vm_compute. congruence.
  - split; [exact Hu|]. split; [vm_compute; reflexivity|]. exists lease. split; [exact Hid|].
    assert (r_time (gw_redis demo_logged_in) = 0%Z) as Ht by (vm_compute; reflexivity).
    refine (Hget 60000%Z (MkRedis (r_keys (gw_redis demo_logged_in)) 30000 []) _ eq_refl). fold demo_logged_in.
    replace 60000%Z with (r_time (gw_redis demo_logged_in) + 60000)%Z by (rewrite Ht; reflexivity).
    eapply (kept_other _ _ _ _ (gw_redis demo_logged_in)); [apply kept_start|reflexivity].
Defined.
