(* ===== verification/Lifecycle.v ===== *)
(** * How the shards of the services start and stop

    start() and stop() of the five services, with what they call: the drivers'
    start, abort and close, the transactions, grpc_server::start and close, the
    Gateway's listen and accept loop.

    What a shard has is a set: its members that are set, the coroutines and calls
    that run, the flags. A coroutine is a list of instructions; between any two of
    them, and while one waits, the requests, operations, calls and connections of
    the shard go on. Operations, streams and calls may wait for another end, and
    then go on only when that end does something or when the shard gives them up:
    what waits in this way is marked in the set, and abort() and the like take the
    marks away. What drain_local_grpc waits for at the end is the subject of
    GrpcDrain. *)

From S2P Require Import Prelude.
From stdpp Require Import finite.

(** ** What a shard has *)

Inductive kind :=
  (* drivers: mysql_thread_init, the engine and the channel of a gRPC client with
     its stub, the Gate's client, credentials for SMTP, the resolver, the
     Gateway's grpc_control, a call of it that State has not answered, a stream to
     a Message node, a command that waits for its result there *)
  | MysqlThread | Engine | Channel | GrpcClient | SmtpCredentials | DriverDns | Control | Asking | Link | Pending
  (* that a stream is neither ended by the Message node nor cancelled, and the same
     for one that was started after abort() *)
  | Streaming | LateStream
  (* connections and calls that an operation registers; that an operation waits
     for MySQL, Redis, a mail server, another service, a lookup or a slot; the
     Message driver's slots for connections, and a connection that it keeps *)
  | Registered | Waiting | Slots | Kept
  (* the I/O queue: its consumers, whether it accepts, an operation that is
     executed; a request in the gate of the transaction service *)
  | Consumers | Accepting | Executing | Request
  (* grpc_server: the server, its engine, whether calls arrive; a call, that it is
     neither ended by the client nor cancelled, a task of one, the storage of files
     and a task of it *)
  | Server | ServerEngine | Serving | Call | Calling | Task | Storage | StorageTask
  (* the Gateway's server: the listening socket, the accept loop, an accepted
     socket that the loop has not seen yet, a connection, and that it is open *)
  | Listener | AcceptLoop | Accepted | Connection | Open
  (* the resolver of the service *)
  | Dns
  (* _stopping of the transaction service, of the driver, of the transport; _stopped *)
  | Stopping | DriverStopping | TransportStopping | Stopped.

#[export] Instance kind_eq_dec : EqDecision kind.
Proof. solve_decision. Defined.
Definition kinds : list kind :=
  [MysqlThread; Engine; Channel; GrpcClient; SmtpCredentials; DriverDns; Control; Asking; Link; Pending; Streaming; LateStream;
   Registered; Waiting; Slots; Kept;
   Consumers; Accepting; Executing; Request; Server; ServerEngine; Serving; Call; Calling; Task; Storage; StorageTask;
   Listener; AcceptLoop; Accepted; Connection; Open; Dns; Stopping; DriverStopping; TransportStopping; Stopped].
#[export] Program Instance kind_finite : Finite kind := {| enum := kinds |}.
Next Obligation. apply (bool_decide_unpack _). vm_compute. exact I. Qed.
Next Obligation. intros []; apply (bool_decide_unpack _); vm_compute; exact I. Qed.

(** A thing: its kind, its number, and a second number: what an operation may
    still do, or the command of a stream. *)
Definition thing : Type := kind * nat * nat.
Definition the (k : kind) : thing := (k, 0, 0).
Definition shard := gset thing.

Definition held (k : kind) (s : shard) : bool := bool_decide (set_Exists (λ x, x.1.1 = k) s).
Definition without (k : kind) (s : shard) : shard := filter (λ x, x.1.1 ≠ k) s.

(** ** Coroutines

    [Release] and [AwaitNone] do nothing when there is nothing of the kind, as
    the conditions around them in the code say. *)

#[local] Set Warnings "-register-all".
Inductive instr :=
  | Acquire (k : kind)
  | Attempt (k : option kind)           (* throws, or acquires *)
  | Release (k : kind)                  (* all of a kind *)
  | AwaitNone (k : kind)
  | CheckNone (k : kind)                (* assert, or a check that throws *)
  | When (k : kind) (p : list instr)
  | Unless (k : kind) (p : list instr).

Record config := MkConfig { cf_rest : list instr; cf_shard : shard; cf_threw : bool }.

Inductive exec : config → config → Prop :=
  | ex_acquire k p s b : exec (MkConfig (Acquire k :: p) s b) (MkConfig p ({[the k]} ∪ s) b)
  | ex_succeeds k p s b :
      exec (MkConfig (Attempt k :: p) s b) (MkConfig p (from_option (λ k, {[the k]} ∪ s) s k) b)
  | ex_throws k p s b : exec (MkConfig (Attempt k :: p) s b) (MkConfig [] s true)
  | ex_release k p s b : exec (MkConfig (Release k :: p) s b) (MkConfig p (without k s) b)
  | ex_await k p s b : held k s = false → exec (MkConfig (AwaitNone k :: p) s b) (MkConfig p s b)
  | ex_check k p s b : held k s = false → exec (MkConfig (CheckNone k :: p) s b) (MkConfig p s b)
  | ex_when k q p s b : exec (MkConfig (When k q :: p) s b) (MkConfig (if held k s then q ++ p else p) s b)
  | ex_unless k q p s b : exec (MkConfig (Unless k q :: p) s b) (MkConfig (if held k s then p else q ++ p) s b).

(** ** What goes on meanwhile

    [late]: whether an accepted socket may wait while the accept loop does not
    run. *)
Section activity.
Context (late : bool).

(** What others bring and do: requests, operations, streams that the topology
    adds, commands, calls and their tasks, clients that come; and the end of a
    request, an answer, a stream or a call that an other end gives up. *)
Inductive arrival (s : shard) : shard → Prop :=
  | ar_request n : held Consumers s = true → held Stopping s = false → arrival s ({[(Request, n, 0)]} ∪ s)
  | ar_operation n k : held Consumers s = true → held Accepting s = true → arrival s ({[(Executing, n, k)]} ∪ s)
  | ar_asks : held Control s = true → held DriverStopping s = false → arrival s ({[the Asking]} ∪ s)
  | ar_link l : held Control s = true → held DriverStopping s = false → (Link, l, 0) ∉ s →
      arrival s ({[(Streaming, l, 0)]} ∪ ({[(Link, l, 0)]} ∪ s))
  | ar_late_link l : held Control s = true → held DriverStopping s = true → (Link, l, 0) ∉ s →
      arrival s ({[(LateStream, l, 0)]} ∪ ({[(Link, l, 0)]} ∪ s))
  | ar_command l n : (Link, l, 0) ∈ s → (LateStream, l, 0) ∉ s → held DriverStopping s = false →
      arrival s ({[(Pending, l, n)]} ∪ s)
  | ar_call n : held Serving s = true → held TransportStopping s = false →
      arrival s ({[(Calling, n, 0)]} ∪ ({[(Call, n, 0)]} ∪ s))
  | ar_late_call n : held Serving s = true → held TransportStopping s = true → arrival s ({[(Call, n, 0)]} ∪ s)
  | ar_task n m : (Call, n, 0) ∈ s → arrival s ({[(Task, n, m)]} ∪ s)
  | ar_storage n m : held Storage s = true → held Task s = true → arrival s ({[(StorageTask, n, m)]} ∪ s)
  | ar_socket n : late = true → held Listener s = true → held TransportStopping s = false →
      arrival s ({[(Accepted, n, 0)]} ∪ s)
  | ar_client n : held AcceptLoop s = true → held TransportStopping s = false →
      arrival s ({[(Connection, n, 0)]} ∪ ({[(Open, n, 0)]} ∪ s))
  | ar_lets_go x : x.1.1 ∈ [Asking; Streaming; LateStream; Waiting; Calling; Open] → arrival s (s ∖ {[x]})
  | ar_answered x : x ∈ s → x.1.1 ∈ [Request; Pending; Call; Task; StorageTask] → arrival s (s ∖ {[x]})
  | ar_stream_ends l : (Link, l, 0) ∈ s → arrival s (filter (λ x, x.1 ≠ (Pending, l)) (s ∖ {[(Link, l, 0)]}))
  | ar_leaves n : (Connection, n, 0) ∈ s → (Open, n, 0) ∉ s → arrival s (s ∖ {[(Connection, n, 0)]}).

(** What the shard does by itself. An operation opens connections, makes calls or
    waits, a bounded number of times, goes on when it does not wait, and closes
    what it opened before it ends; once the driver stops it throws instead of
    waiting. A request is over when there are no operations and no commands that
    it could wait for, a task when there is no task of the storage; a call that is
    given up is over when there are no tasks, a stream that is given up at once,
    with its commands. The control loop and the accept loop end when they see
    that they should; a connection that is closed ends when there are no requests. *)
Inductive internal (s : shard) : shard → Prop :=
  | in_opens n k : (Executing, n, S k) ∈ s → (Waiting, n, 0) ∉ s →
      internal s ({[(Executing, n, k)]} ∪ ({[(Registered, n, 0)]} ∪ s ∖ {[(Executing, n, S k)]}))
  | in_keeps n k c : (Executing, n, S k) ∈ s → (Waiting, n, 0) ∉ s → held Slots s = true →
      internal s ({[(Executing, n, k)]} ∪ ({[(Kept, c, 0)]} ∪ s ∖ {[(Executing, n, S k)]}))
  | in_drops n k c : (Executing, n, S k) ∈ s → (Waiting, n, 0) ∉ s →
      internal s ({[(Executing, n, k)]} ∪ (s ∖ {[(Executing, n, S k)]} ∖ {[(Kept, c, 0)]}))
  | in_waits n k : (Executing, n, S k) ∈ s → held DriverStopping s = false →
      internal s ({[(Executing, n, k)]} ∪ ({[(Waiting, n, 0)]} ∪ s ∖ {[(Executing, n, S k)]}))
  | in_closes n : (Registered, n, 0) ∈ s → (Waiting, n, 0) ∉ s → internal s (s ∖ {[(Registered, n, 0)]})
  | in_finishes n k : (Executing, n, k) ∈ s → (Waiting, n, 0) ∉ s → (Registered, n, 0) ∉ s →
      internal s (s ∖ {[(Executing, n, k)]})
  | in_request n : (Request, n, 0) ∈ s → held Executing s = false → held Pending s = false →
      internal s (s ∖ {[(Request, n, 0)]})
  | in_call n : (Call, n, 0) ∈ s → (Calling, n, 0) ∉ s → held Task s = false → internal s (s ∖ {[(Call, n, 0)]})
  | in_task n m : (Task, n, m) ∈ s → held StorageTask s = false → internal s (s ∖ {[(Task, n, m)]})
  | in_storage n m : (StorageTask, n, m) ∈ s → internal s (s ∖ {[(StorageTask, n, m)]})
  | in_stream l : (Link, l, 0) ∈ s → (Streaming, l, 0) ∉ s → (LateStream, l, 0) ∉ s →
      internal s (filter (λ x, x.1 ≠ (Pending, l)) (s ∖ {[(Link, l, 0)]}))
  | in_control : the Control ∈ s → held DriverStopping s = true → held Asking s = false → internal s (s ∖ {[the Control]})
  | in_takes n : (Accepted, n, 0) ∈ s → held AcceptLoop s = true →
      internal s ({[(Connection, n, 0)]} ∪ ({[(Open, n, 0)]} ∪ s ∖ {[(Accepted, n, 0)]}))
  | in_accept_ends : the AcceptLoop ∈ s → held TransportStopping s = true → held Accepted s = false →
      internal s (s ∖ {[the AcceptLoop]})
  | in_connection n : (Connection, n, 0) ∈ s → (Open, n, 0) ∉ s → held Request s = false →
      internal s (s ∖ {[(Connection, n, 0)]}).

Definition activity (s s' : shard) : Prop := arrival s s' ∨ internal s s'.

(** A step of the coroutine, or of the shard around it. *)
Inductive step : config → config → Prop :=
  | st_exec c c' : exec c c' → step c c'
  | st_activity p s s' b : activity s s' → step (MkConfig p s b) (MkConfig p s' b).

(** The same, when nobody brings anything. *)
Inductive quiet_step : config → config → Prop :=
  | qs_exec c c' : exec c c' → quiet_step c c'
  | qs_internal p s s' b : internal s s' → quiet_step (MkConfig p s b) (MkConfig p s' b).
End activity.

(** ** grpc_server *)

Definition server_start : list instr := [Acquire ServerEngine; Attempt (Some Server); Acquire Serving].
(** shutdown_and_notify: no call arrives any more; cancel_all_calls *)
Definition server_close (wait_calls : list instr) : list instr :=
  [When Server ([Release Serving; Release Calling; AwaitNone Call] ++ wait_calls ++ [Release Server]);
   Release ServerEngine].

(** ** The services

    [sv_made]: what the constructors leave; [sv_destroy]: what the destructors
    assert, those of gates included, which nobody may hold. *)
Record service := MkService {
  sv_made : list kind; sv_start : list instr; sv_stop : list instr; sv_destroy : list instr }.

Definition made (sv : service) : shard := list_to_set (the <$> sv_made sv).

(** queue::stop, once begin_stop was called *)
Definition queue_stop : list instr := [AwaitNone Executing; Release Consumers].
(** mysql_thread_end *)
Definition thread_end : list instr := [Release MysqlThread].

(** ** State *)

Definition state_start : list instr := [Attempt None] ++ server_start.
Definition state_stop : list instr :=
  [Unless Stopped
     ([Acquire Stopped; Acquire Stopping] ++ server_close [AwaitNone Task; AwaitNone Call] ++ [Release Dns])].
Definition state_shard : service :=
  MkService [Dns] state_start state_stop (CheckNone <$> [Server; ServerEngine; Dns; Task; Call]).

(** ** File *)

Definition file_start : list instr := [Attempt None; Attempt None] ++ server_start.
Definition file_stop : list instr :=
  [Unless Stopped
     ([Acquire Stopped; Acquire Stopping] ++ server_close [AwaitNone Task; AwaitNone Call] ++
      [AwaitNone StorageTask; Release Dns])].
Definition file_shard : service :=
  MkService [Dns; Storage] file_start file_stop (CheckNone <$> [Server; ServerEngine; Dns; StorageTask; Task; Call]).

(** ** Message: driver, transaction, transport, shard *)

Definition message_driver_start : list instr := [Attempt (Some MysqlThread); Acquire Engine; Acquire Channel].
(** The resolver, the slots, the connections and the calls to File let go. *)
Definition message_driver_abort : list instr := [Unless DriverStopping [Acquire DriverStopping; Release Waiting]].
Definition message_driver_close : list instr :=
  message_driver_abort ++
  [CheckNone Registered; Release Kept; Release Channel; Release Engine; Release DriverDns] ++ thread_end.

Definition message_transaction_start : list instr := message_driver_start ++ [Acquire Consumers].
Definition message_transaction_stop : list instr :=
  [Acquire Stopping; Release Accepting] ++ message_driver_abort ++ queue_stop ++ [AwaitNone Request] ++
  message_driver_close.

(** The frames of the streams are the tasks. *)
Definition message_begin_stop : list instr := [Acquire TransportStopping; Release Calling].
Definition message_transport_close : list instr :=
  message_begin_stop ++ server_close [AwaitNone Task; AwaitNone Call].

Definition message_start : list instr :=
  [Attempt None] ++ message_transaction_start ++ [Attempt None] ++ server_start.
Definition message_stop : list instr :=
  [Unless Stopped
     ([Acquire Stopped] ++ message_begin_stop ++ message_transaction_stop ++ message_transport_close ++
      [Release Dns])].
Definition message_shard : service :=
  MkService [Dns; DriverDns; Accepting; Slots] message_start message_stop
    (CheckNone <$> [Kept; Channel; Engine; MysqlThread; DriverDns; Request; Server; ServerEngine; Task; Call; Dns]).

(** ** Gate

    [ca]: a CA file for MySQL is configured; [email]: mail is enabled. *)

Definition gate_driver_start (ca email : bool) : list instr :=
  [Attempt (Some MysqlThread)] ++ (if ca then [Attempt None] else []) ++
  (if email then [Attempt None; Acquire SmtpCredentials; Attempt None] else []) ++ [Acquire GrpcClient].
Definition gate_driver_abort : list instr := [Acquire DriverStopping; Release Waiting].
(** grpc_client::close, which throws when a call is running *)
Definition gate_client_close : list instr := [CheckNone Registered; Release GrpcClient].
Definition gate_driver_stop : list instr :=
  [CheckNone Registered; Release DriverDns; When GrpcClient gate_client_close; Release SmtpCredentials] ++ thread_end.

Definition gate_start (ca email : bool) : list instr := gate_driver_start ca email ++ [Acquire Consumers].
Definition gate_stop : list instr :=
  [Unless Stopped
     ([Acquire Stopping; Release Accepting] ++ gate_driver_abort ++ queue_stop ++ [AwaitNone Request] ++
      gate_driver_stop ++ [Acquire Stopped])].
Definition gate_shard (ca email : bool) : service :=
  MkService [DriverDns; Accepting] (gate_start ca email) gate_stop (CheckNone <$> [DriverDns; Request]).

(** ** Gateway: driver, transaction, server *)

Definition gateway_driver_start (ca : bool) : list instr :=
  [Attempt (Some MysqlThread)] ++ (if ca then [Attempt None] else []) ++
  [Acquire Engine; Acquire Channel; Acquire Control].
(** The call to State and the streams are cancelled, and operations let go. *)
Definition gateway_driver_abort : list instr :=
  [Unless DriverStopping [Acquire DriverStopping; Release Asking; Release Streaming; Release Waiting]].
(** The streams, those of the last turn of the control loop included, are closed
    one by one. *)
Definition gateway_driver_stop : list instr :=
  gateway_driver_abort ++
  [AwaitNone Control; Release Streaming; Release LateStream; AwaitNone Link; CheckNone Pending; CheckNone Registered; Release Channel; Release Engine;
   Release DriverDns] ++ thread_end.

Definition gateway_transaction_start (ca : bool) : list instr := gateway_driver_start ca ++ [Acquire Consumers].
Definition gateway_transaction_abort : list instr :=
  [Unless Stopping ([Acquire Stopping; Release Accepting] ++ gateway_driver_abort)].
Definition gateway_transaction_stop : list instr :=
  gateway_transaction_abort ++ queue_stop ++ [AwaitNone Request] ++ gateway_driver_stop.

Definition gateway_listen : list instr := [Attempt (Some Listener); Acquire AcceptLoop].
(** The listener no longer accepts, and every connection is closed. *)
Definition gateway_stop : list instr :=
  [Unless Stopped
     ([Acquire TransportStopping; Release Open] ++ gateway_transaction_abort ++
      [AwaitNone AcceptLoop; AwaitNone Connection] ++ gateway_transaction_stop ++ [Acquire Stopped])].
(** [listening]: the start went on to listen; [early], [after]: the signal to
    stop came, and with it abort(), before or after that *)
Definition gateway_shard (ca early listening after : bool) : service :=
  MkService [DriverDns; Accepting]
    (gateway_transaction_start ca ++ (if early then gateway_transaction_abort else []) ++
     (if listening then gateway_listen else []) ++ (if after then gateway_transaction_abort else []))
    gateway_stop (CheckNone <$> [Link; DriverDns; Request; Connection]).
