(* ===== verification/ShardsStop.v ===== *)
(** * Every shard stops cleanly

    Whatever point start() reached and whatever goes on meanwhile, stop(), the
    second stop() that the owner's destruction makes, and the destructors meet
    no failing assertion, leave nothing behind and do not wait for ever.

    [verify] runs a coroutine on what is known of a shard at each of its points;
    that this is sound is shown first, and that no shard runs for ever by itself. *)

From S2P Require Import Prelude Lifecycle.

(** ** Sets of things *)

Lemma held_true k s : held k s = true ↔ ∃ x, x ∈ s ∧ x.1.1 = k.
Proof. unfold held. rewrite bool_decide_eq_true. unfold set_Exists. done. Qed.
Lemma held_false k s : held k s = false ↔ ∀ x, x ∈ s → x.1.1 ≠ k.
Proof. unfold held. rewrite bool_decide_eq_false. unfold set_Exists. naive_solver. Qed.
Lemma held_In x s : x ∈ s → held x.1.1 s = true.
Proof. intros Hx. apply held_true. eauto. Qed.
Lemma without_In k s x : x ∈ without k s ↔ x ∈ s ∧ x.1.1 ≠ k.
Proof. unfold without. rewrite elem_of_filter. naive_solver. Qed.

(** Things have the numbers of their kind; what an operation registered is closed
    before it ends, and only an operation waits; a command waits on a stream, and
    not on one that started late. *)
Definition shaped (x : thing) : Prop :=
  match x.1.1 with
  | Executing | Pending | Task | StorageTask => True
  | Registered | Waiting | Kept | Link | Streaming | LateStream | Call | Calling | Request | Accepted | Connection | Open => x.2 = 0
  | k => x = the k
  end.
Record sound (s : shard) : Prop := {
  sd_shape x : x ∈ s → shaped x;
  sd_owner n : (Registered, n, 0) ∈ s → ∃ k, (Executing, n, k) ∈ s;
  sd_waiting n : (Waiting, n, 0) ∈ s → ∃ k, (Executing, n, k) ∈ s;
  sd_stream l n : (Pending, l, n) ∈ s → (Link, l, 0) ∈ s ∧ (LateStream, l, 0) ∉ s;
  sd_open n : (Open, n, 0) ∈ s → (Connection, n, 0) ∈ s }.

(** Membership of kinds is decided. *)
Ltac of_kinds := apply (bool_decide_unpack _); vm_compute; exact I.

Lemma kind_other (k k' : kind) (l : list kind) : k ∈ l → k' ∉ l → k ≠ k'.
Proof. by intros ? ? ->. Qed.

(** Kinds whose things refer to others. *)
Definition linked : list kind := [Registered; Waiting; Pending; LateStream; Open].

Lemma sound_add x s : sound s → shaped x → x.1.1 ∉ linked → sound ({[x]} ∪ s).
Proof.
  intros [H1 H2 H2' H3 H4] Hx Hk. assert (∀ y, y.1.1 ∈ linked → y ∈ {[x]} ∪ s → y ∈ s) as Hin.
  { intros y Hy [->%elem_of_singleton|?]%elem_of_union; done. }
  split.
  - intros y [->%elem_of_singleton|Hy]%elem_of_union; auto.
  - intros n Hn%Hin; [|of_kinds]. destruct (H2 n Hn) as [k ?]. exists k. by apply elem_of_union_r.
  - intros n Hn%Hin; [|of_kinds]. destruct (H2' n Hn) as [k ?]. exists k. by apply elem_of_union_r.
  - intros l n Hn%Hin; [|of_kinds]. destruct (H3 l n Hn). split; [by apply elem_of_union_r|]. intros Hy%Hin; [done|of_kinds].
  - intros n Hn%Hin; [|of_kinds]. apply elem_of_union_r. auto.
Qed.
(** A command is sent on a stream. *)
Lemma sound_command l n s : sound s → (Link, l, 0) ∈ s → (LateStream, l, 0) ∉ s → sound ({[(Pending, l, n)]} ∪ s).
Proof.
  intros [H1 H2 H2' H3 H4] Hl Hs. split.
  - intros y [->%elem_of_singleton|Hy]%elem_of_union; [done|auto].
  - intros m Hm. destruct (H2 m) as [k ?]; [set_solver|]. exists k. set_solver.
  - intros m Hm. destruct (H2' m) as [k ?]; [set_solver|]. exists k. set_solver.
  - intros l' m [[= -> ->]%elem_of_singleton|Hm]%elem_of_union; [|destruct (H3 _ _ Hm)]; (split; [set_solver|]);
      intros [?%elem_of_singleton|?]%elem_of_union; done.
  - intros m Hm. apply elem_of_union_r, H4. set_solver.
Qed.
(** A stream starts late. *)
Lemma sound_late l s : sound s → (Link, l, 0) ∉ s → sound ({[(LateStream, l, 0)]} ∪ ({[(Link, l, 0)]} ∪ s)).
Proof.
  intros [H1 H2 H2' H3 H4] Hl. split.
  - intros y [->%elem_of_singleton|[->%elem_of_singleton|Hy]%elem_of_union]%elem_of_union; [done..|auto].
  - intros m Hm. destruct (H2 m) as [k ?]; [set_solver|]. exists k. set_solver.
  - intros m Hm. destruct (H2' m) as [k ?]; [set_solver|]. exists k. set_solver.
  - intros l' m Hm. destruct (H3 l' m) as [Hk Hn]; [set_solver|]. split; [set_solver|].
    rewrite !elem_of_union, !elem_of_singleton. intros [[= ->]|[?|?]]; done.
  - intros m Hm. do 2 apply elem_of_union_r. apply H4. set_solver.
Qed.
(** A connection opens. *)
Lemma sound_connect n s : sound s → sound ({[(Connection, n, 0)]} ∪ ({[(Open, n, 0)]} ∪ s)).
Proof.
  intros [H1 H2 H2' H3 H4]. split.
  - intros y [->%elem_of_singleton|[->%elem_of_singleton|Hy]%elem_of_union]%elem_of_union; [done..|auto].
  - intros m Hm. destruct (H2 m) as [k ?]; [set_solver|]. exists k. set_solver.
  - intros m Hm. destruct (H2' m) as [k ?]; [set_solver|]. exists k. set_solver.
  - intros l m Hm. destruct (H3 l m) as [Hk Hn]; [set_solver|]. split; [set_solver|]. rewrite !elem_of_union, !elem_of_singleton.
    intros [?|[?|?]]; done.
  - intros m Hm. rewrite !elem_of_union, !elem_of_singleton in Hm. destruct Hm as [?|[[= ->]|Hm]]; [done|by apply elem_of_union_l, elem_of_singleton|].
    do 2 apply elem_of_union_r. exact (H4 m Hm).
Qed.
Lemma sound_remove x s :
  sound s → x.1.1 ≠ Executing → x.1.1 ≠ Link → (∀ n, x = (Connection, n, 0) → (Open, n, 0) ∉ s) → sound (s ∖ {[x]}).
Proof.
  intros [H1 H2 H2' H3 H4] He Hl Hc. split.
  - set_solver.
  - intros n Hn. destruct (H2 n) as [k Hk]; [set_solver|]. exists k. apply elem_of_difference. split; [done|].
    intros <-%elem_of_singleton. done.
  - intros n Hn. destruct (H2' n) as [k Hk]; [set_solver|]. exists k. apply elem_of_difference. split; [done|].
    intros <-%elem_of_singleton. done.
  - intros l n Hn. destruct (H3 l n) as [Hk Hs]; [set_solver|]. split; [|set_solver]. apply elem_of_difference. split; [done|].
    by intros <-%elem_of_singleton.
  - intros n [Hn Hx]%elem_of_difference. apply elem_of_difference. split; [by apply H4|].
    intros <-%elem_of_singleton. by apply (Hc n).
Qed.
(** An operation does one of the things it may still do. *)
Lemma sound_progress n k s s' :
  sound s → (Executing, n, S k) ∈ s →
  (∀ x, x ∈ s' → x ∈ s ∖ {[(Executing, n, S k)]} ∨ x.1.1 = Kept ∧ x.2 = 0 ∨ x = (Registered, n, 0) ∨ x = (Waiting, n, 0)) →
  (∀ x, x ∈ s ∖ {[(Executing, n, S k)]} → x.1.1 ≠ Kept → x ∈ s') → sound ({[(Executing, n, k)]} ∪ s').
Proof.
  intros [H1 H2 H2' H3 H4] Hin Hnew Hold.
  assert (∀ m, (∃ k', (Executing, m, k') ∈ s) → ∃ k', (Executing, m, k') ∈ {[(Executing, n, k)]} ∪ s') as Hexec.
  { intros m [k' Hk']. destruct (decide (m = n)) as [->|Hne]; [exists k; by apply elem_of_union_l, elem_of_singleton|].
    exists k'. apply elem_of_union_r, Hold; [|done]. apply elem_of_difference. split; [done|]. intros [= ? ?]%elem_of_singleton. done. }
  assert (∀ x, x ∈ {[(Executing, n, k)]} ∪ s' → x.1.1 ∉ [Executing; Kept; Registered; Waiting] → x ∈ s) as Hother.
  { intros x [->%elem_of_singleton|[[Hx _]%elem_of_difference|[[Hx _]|[->| ->]]]%Hnew]%elem_of_union Hk; [|done|rewrite Hx in Hk|..];
      exfalso; apply Hk; of_kinds. }
  split.
  - intros x [->%elem_of_singleton|[Hx|[[Hx ?]|[->| ->]]]%Hnew]%elem_of_union; [done|apply H1; set_solver| |done|done].
    unfold shaped. by rewrite Hx.
  - intros m [?%elem_of_singleton|[Hm|[[? _]|[[= ->]|?]]]%Hnew]%elem_of_union; [done| |done|apply Hexec; by exists (S k)|done].
    apply Hexec, H2. set_solver.
  - intros m [?%elem_of_singleton|[Hm|[[? _]|[?|[= ->]]]]%Hnew]%elem_of_union; [done| |done|done|apply Hexec; by exists (S k)].
    apply Hexec, H2'. set_solver.
  - intros l m Hm%Hother; [|of_kinds]. destruct (H3 l m Hm) as [Hk Hs]. split.
    + apply elem_of_union_r, Hold; [|done]. apply elem_of_difference. split; [done|]. by intros ?%elem_of_singleton.
    + intros Hy%Hother; [done|of_kinds].
  - intros m Hm%Hother; [|of_kinds]. apply elem_of_union_r, Hold; [|done]. apply elem_of_difference. split; [by apply H4|].
    by intros ?%elem_of_singleton.
Qed.
(** An operation ends. *)
Lemma sound_finish n k s :
  sound s → (Waiting, n, 0) ∉ s → (Registered, n, 0) ∉ s → sound (s ∖ {[(Executing, n, k)]}).
Proof.
  intros [H1 H2 H2' H3 H4] Hw Hr. split.
  - set_solver.
  - intros m Hm. destruct (H2 m) as [k' Hk']; [set_solver|]. exists k'. apply elem_of_difference. split; [done|].
    intros [= -> ->]%elem_of_singleton. set_solver.
  - intros m Hm. destruct (H2' m) as [k' Hk']; [set_solver|]. exists k'. apply elem_of_difference. split; [done|].
    intros [= -> ->]%elem_of_singleton. set_solver.
  - intros l m Hm. destruct (H3 l m) as [Hk Hs]; [set_solver|]. split; [|set_solver]. apply elem_of_difference. split; [done|].
    by intros ?%elem_of_singleton.
  - intros m Hm. apply elem_of_difference. split; [apply H4; set_solver|]. by intros ?%elem_of_singleton.
Qed.
(** A stream ends, with its commands. *)
Lemma sound_stream l s : sound s → sound (filter (λ x, x.1 ≠ (Pending, l)) (s ∖ {[(Link, l, 0)]})).
Proof.
  intros [H1 H2 H2' H3 H4].
  assert (∀ x, x ∈ s → x.1.1 ≠ Pending → x.1.1 ≠ Link → x ∈ filter (λ x, x.1 ≠ (Pending, l)) (s ∖ {[(Link, l, 0)]})) as Hkeep.
  { intros [[k n] m] Hx H5 H6. simpl in *. apply elem_of_filter. split; [by intros [= ? _]|]. apply elem_of_difference. split; [done|].
    by intros [= ? _ _]%elem_of_singleton. }
  split.
  - set_solver.
  - intros n [_ Hn]%elem_of_filter. destruct (H2 n) as [k Hk]; [set_solver|]. exists k. by apply Hkeep.
  - intros n [_ Hn]%elem_of_filter. destruct (H2' n) as [k Hk]; [set_solver|]. exists k. by apply Hkeep.
  - intros l' n [Hne Hn]%elem_of_filter. simpl in Hne. destruct (H3 l' n) as [Hk Hs]; [set_solver|]. split; [|set_solver].
    apply elem_of_filter. split; [done|]. apply elem_of_difference. split; [done|]. intros [= ->]%elem_of_singleton. done.
  - intros n [_ Hn]%elem_of_filter. apply Hkeep; [apply H4; set_solver|done|done].
Qed.

Section activity.
Context (late : bool).

Lemma arrival_sound s s' : arrival late s s' → sound s → sound s'.
Proof.
  intros Ha Hs.
  destruct Ha as [n|n k| |l _ _ Hl|l _ _ Hl|l n Hl Ht|n|n|n m|n m|n|n|x Hx|x _ Hx|l _|n _ Ho];
    try (solve [repeat (apply sound_add; [|done|of_kinds]); done]).
  - by apply sound_late.
  - by apply sound_command.
  - by apply sound_connect.
  - apply sound_remove; [done|apply (kind_other _ _ _ Hx); of_kinds..|]. intros n ->. exfalso. revert Hx. of_kinds.
  - apply sound_remove; [done|apply (kind_other _ _ _ Hx); of_kinds..|]. intros n ->. exfalso. revert Hx. of_kinds.
  - by apply sound_stream.
  - apply sound_remove; [done..|]. intros m [= ->]. done.
Qed.
Lemma internal_sound s s' : internal s s' → sound s → sound s'.
Proof.
  intros Hi Hs. destruct Hi as [n k Hn _|n k c Hn _ _|n k c Hn _|n k Hn _|n _ _|n k _ Hw Hr|n _ _ _|n _ _ _|n m _ _|n m _|l _ _ _|_ _ _|n _ _|_ _ _|n _ Ho _];
    try by apply sound_remove.
  - eapply sound_progress; [done..| |]; set_solver.
  - eapply sound_progress; [done..| |]; [|set_solver]. intros x [->%elem_of_singleton|?]%elem_of_union; auto.
  - eapply sound_progress; [done..| |]; [set_solver|]. intros x Hx Hk. apply elem_of_difference. split; [done|]. by intros ->%elem_of_singleton.
  - eapply sound_progress; [done..| |]; set_solver.
  - by apply sound_finish.
  - by apply sound_stream.
  - by apply sound_connect, sound_remove.
  - apply sound_remove; [done..|]. intros m [= ->]. done.
Qed.

(** ** What is known at a point *)

(** No thing of the kinds [none], one of each of the kinds [some]. *)
Record facts := MkFacts { none : list kind; some : list kind }.
Record known (f : facts) (s : shard) : Prop := {
  kw_sound : sound s;
  kw_none k : k ∈ none f → held k s = false;
  kw_some k : k ∈ some f → held k s = true }.

Definition mem (k : kind) (l : list kind) : bool := bool_decide (k ∈ l).
Definition flags : list kind := [Stopping; DriverStopping; TransportStopping; Stopped].
(** What only the coroutine changes. *)
Definition lasting : list kind :=
  flags ++ [MysqlThread; Engine; Channel; GrpcClient; SmtpCredentials; DriverDns; Slots; Consumers; Accepting;
            Server; ServerEngine; Serving; Storage; Listener; Dns].

(** Whether a kind that is absent stays absent. *)
Definition sealed (f : facts) (k : kind) : bool :=
  match k with
  | Registered => mem Executing (none f)
  | Waiting => mem Executing (none f) || mem DriverStopping (some f)
  | Kept => mem Executing (none f) || mem Slots (none f)
  | Executing => mem Accepting (none f) || mem Consumers (none f)
  | Request => mem Consumers (none f) || mem Stopping (some f)
  | Link | LateStream => mem Control (none f)
  | Asking | Streaming => mem Control (none f) || mem DriverStopping (some f)
  | Pending => mem Link (none f)
  | Call => mem Serving (none f)
  | Calling => mem Serving (none f) || mem TransportStopping (some f)
  | Task => mem Call (none f)
  | StorageTask => mem Task (none f) || mem Storage (none f)
  | Accepted => negb late || mem Listener (none f) || mem TransportStopping (some f)
  | Connection | Open => mem AcceptLoop (none f) || mem Accepted (none f) && mem TransportStopping (some f)
  | _ => true
  end.
Definition stable (f : facts) : bool := forallb (sealed f) (none f) && forallb (λ k, mem k lasting) (some f).
Definition settle (f : facts) : facts := Nat.iter 5 (λ f, MkFacts (filter (λ k, sealed f k = true) (none f)) (some f)) f.

Lemma mem_In k l : mem k l = true ↔ k ∈ l.
Proof. apply bool_decide_eq_true. Qed.
Lemma none_held f s k : known f s → mem k (none f) = true → held k s = true → False.
Proof. intros Hk Hm%mem_In Hh. by rewrite (kw_none _ _ Hk k Hm) in Hh. Qed.
Lemma none_In f s k x : known f s → mem k (none f) = true → x ∈ s → x.1.1 = k → False.
Proof. intros Hk Hm Hx <-. eapply none_held; [done..|]. by apply held_In. Qed.
Lemma some_held f s k : known f s → mem k (some f) = true → held k s = false → False.
Proof. intros Hk Hm%mem_In Hh. by rewrite (kw_some _ _ Hk k Hm) in Hh. Qed.

(** What is new after an activity came with its guard. *)
Lemma arrival_new f s s' x :
  known f s → arrival late s s' → x ∈ s' → x ∈ s ∨ sealed f x.1.1 = false.
Proof.
  intros Hk Ha Hx. apply or_comm. destruct (sealed f x.1.1) eqn:Es; [right|by left].
  destruct Ha as [n H1 H2|n k H1 H2|H1 H2|l H1 H2 _|l H1 H2 _|l n H1 _ H2|n H1 H2|n H1 H2|n m H1|n m H1 H2|n H1 H2 H3|n H1 H2|y _|y _ _|l _|n _ _];
    repeat match goal with H : _ ∈ {[_]} ∪ _ |- _ => apply elem_of_union in H as [->%elem_of_singleton|H]; [|try done] end;
    simpl in Es; rewrite ?orb_true_iff, ?andb_true_iff in Es.
  all: try (destruct_or?; destruct_and?; exfalso; eauto using none_held, none_In, some_held; fail).
  all: try (set_solver; fail).
  exfalso. destruct Es as [[Es%negb_true_iff|Es]|Es]; [congruence|by eapply none_held|by eapply some_held].
Qed.
Lemma internal_new f s s' x :
  known f s → internal s s' → x ∈ s' → x ∈ s ∨ sealed f x.1.1 = false ∨ x.1.1 = Executing.
Proof.
  intros Hk Hi Hx. destruct (sealed f x.1.1) eqn:Es; [|by auto].
  destruct Hi as [n k Hn _|n k c Hn _ Hsl|n k c Hn _|n k Hn Hd|n _ _|n k _ _ _|n _ _ _|n _ _ _|n m _ _|n m _|l _ _ _|_ _ _|n H1 H2|_ _ _|n _ _ _];
    repeat match goal with H : _ ∈ {[_]} ∪ _ |- _ => apply elem_of_union in H as [->%elem_of_singleton|H] end;
    simpl in Es; rewrite ?orb_true_iff, ?andb_true_iff in Es; auto; try (left; set_solver).
  - exfalso. by apply (none_In f s Executing (Executing, n, S k)).
  - exfalso. destruct Es as [Es|Es]; [by apply (none_In f s Executing (Executing, n, S k))|by eapply none_held].
  - exfalso. destruct Es as [Es|Es]; [by apply (none_In f s Executing (Executing, n, S k))|by eapply some_held].
  - exfalso. destruct Es as [Es|[Es _]]; [by eapply none_held|by apply (none_In f s Accepted (Accepted, n, 0))].
  - exfalso. destruct Es as [Es|[Es _]]; [by eapply none_held|by apply (none_In f s Accepted (Accepted, n, 0))].
Qed.
Lemma internal_executing s s' : internal s s' → held Executing s' = true → held Executing s = true.
Proof.
  intros Hi (x & Hx & Ek)%held_true. apply held_true.
  destruct Hi as [n k Hn _|n k c Hn _ Hsl|n k c Hn _|n k Hn Hd|n _ _|n k _ _ _|n _ _ _|n _ _ _|n m _ _|n m _|l _ _ _|_ _ _|n H1 H2|_ _ _|n _ _ _]; eauto;
    exists x; (split; [|done]);
    repeat match goal with H : _ ∈ {[_]} ∪ _ |- _ => apply elem_of_union in H as [->%elem_of_singleton|H]; [done|] end; set_solver.
Qed.
Lemma lasting_not k l : k ∈ lasting → forallb (λ k', negb (mem k' lasting)) l = true → k ∉ l.
Proof.
  intros Hk Hl Hin. rewrite forallb_forall in Hl. apply list_elem_of_In, Hl, negb_true_iff, bool_decide_eq_false in Hin. done.
Qed.
Lemma activity_lasting s s' x : activity late s s' → x ∈ s → x.1.1 ∈ lasting → x ∈ s'.
Proof.
  intros Ha Hx Hf.
  assert (∀ y, y.1.1 ∉ lasting → x ≠ y) as Hne by (intros y Hy ->; done).
  assert (∀ y l, y.1.1 ∈ l → forallb (λ k', negb (mem k' lasting)) l = true → x ≠ y) as Hne' by (intros y l Hy Hl ->; revert Hy; by apply lasting_not).
  assert (∀ l, x.1 ≠ (Pending, l)) as Hp.
  { intros l E. assert (x.1.1 = Pending) as E' by by rewrite E. rewrite E' in Hf. revert Hf. of_kinds. }
  destruct Ha as [[n|n k| |l|l|l n|n|n|n m|n m|n|n|y Hy|y _ Hy|l _|n _ _]|
    [n k Hn|n k c Hn|n k c Hn|n k Hn|n Hn|n k Hn|n Hn|n Hn|n m Hn|n m Hn|l Hl|_ _ _|n H1 H2|_ _ _|n _ _ _]];
    repeat apply elem_of_union_r; try done; rewrite ?elem_of_filter, ?elem_of_difference, ?elem_of_singleton;
    repeat split; try done; try (apply Hne; of_kinds).
  - apply (Hne' _ _ Hy). vm_compute. reflexivity.
  - apply (Hne' _ _ Hy). vm_compute. reflexivity.
Qed.

Lemma stable_known f s s' : known f s → stable f = true → activity late s s' → known f s'.
Proof.
  intros Hk [Hn Hf]%andb_true_iff Ha. rewrite forallb_forall in Hn, Hf. split.
  - destruct Ha as [Ha|Ha]; [by eapply arrival_sound; [|apply Hk]|by eapply internal_sound; [|apply Hk]].
  - intros k Hin. pose proof (kw_none _ _ Hk k Hin) as Hno. destruct (held k s') eqn:Eh; [|done]. exfalso.
    pose proof (proj1 (held_true _ _) Eh) as (x & Hx & <-). apply list_elem_of_In, Hn in Hin. destruct Ha as [Ha|Ha].
    + destruct (arrival_new _ _ _ _ Hk Ha Hx) as [Hx'|Hx']; [|congruence]. apply held_In in Hx'. congruence.
    + destruct (internal_new _ _ _ _ Hk Ha Hx) as [Hx'|[Hx'|Ee]]; [apply held_In in Hx'; congruence|congruence|].
      rewrite Ee in *. rewrite (internal_executing _ _ Ha Eh) in Hno. done.
  - intros k Hin. pose proof (kw_some _ _ Hk k Hin) as (x & Hx & <-)%held_true. apply held_In.
    eapply activity_lasting; [done..|]. apply list_elem_of_In, Hf in Hin. by apply mem_In in Hin.
Qed.

Lemma settle_known f s : known f s → known (settle f) s.
Proof.
  unfold settle. generalize 5 as n. induction n as [|n IH]; [done|]. intros Hk. rewrite Nat.iter_succ. destruct (IH Hk) as [H1 H2 H3].
  split; simpl; [done| |done]. intros k [_ Hin]%list_elem_of_filter. by apply H2.
Qed.

(** Without operations nothing is registered, without streams no command waits,
    without connections none is open. *)
Definition implied (k : kind) : list kind := 
  match k with Executing => [Registered; Waiting] | Link => [Pending] | Connection => [Open] | _ => [] end.
Definition learn_none (k : kind) (f : facts) : facts :=
  MkFacts (implied k ++ k :: filter (λ k', k' ≠ k ∧ k' ∉ implied k) (none f)) (filter (λ k', k' ≠ k) (some f)).
Definition learn_some (k : kind) (f : facts) : facts :=
  MkFacts (filter (λ k', k' ≠ k) (none f)) (if mem k lasting && negb (mem k (some f)) then k :: some f else some f).

Lemma implied_none s k k' : sound s → held k s = false → k' ∈ implied k → held k' s = false.
Proof.
  intros [H1 H2 H2' H3 H4] Hk Hi. rewrite held_false in Hk |- *. intros [[k0 n] m] Hx E. simpl in E. subst k0.
  pose proof (H1 _ Hx) as Hsh. unfold shaped in Hsh. simpl in Hsh.
  destruct k; simpl in Hi; try by apply elem_of_nil in Hi.
  - apply list_elem_of_singleton in Hi as ->. by apply (Hk _ (proj1 (H3 _ _ Hx))).
  - apply elem_of_cons in Hi as [->|Hi%list_elem_of_singleton]; [|subst k']; subst m; [destruct (H2 n Hx) as [k Hk']|destruct (H2' n Hx) as [k Hk']];
      by apply (Hk _ Hk').
  - apply list_elem_of_singleton in Hi as ->. subst m. by apply (Hk _ (H4 n Hx)).
Qed.
Lemma known_none f s k : known f s → held k s = false → known (learn_none k f) s.
Proof.
  intros [H1 H2 H3] Hk. split; simpl; [done| |].
  - intros k' [Hi|[->|[_ Hin]%list_elem_of_filter]%elem_of_cons]%elem_of_app; [|auto..]. by eapply implied_none.
  - intros k' [_ Hin]%list_elem_of_filter. auto.
Qed.
Lemma known_some f s k : known f s → held k s = true → known (learn_some k f) s.
Proof.
  intros [H1 H2 H3] Hk. split; simpl; [done| |].
  - intros k' [_ Hin]%list_elem_of_filter. auto.
  - intros k' Hin. destruct (mem k lasting && _); [apply elem_of_cons in Hin as [->|Hin]|]; auto.
Qed.
Lemma known_acquire f s k : known f s → k ∉ linked → known (learn_some k f) ({[the k]} ∪ s).
Proof.
  intros [H1 H2 H3] Hr. assert (held k ({[the k]} ∪ s) = true) as Hh by (apply held_true; exists (the k); set_solver).
  split; simpl.
  - apply sound_add; [done|by destruct k|done].
  - intros k' [Hne Hin]%list_elem_of_filter. specialize (H2 k' Hin). rewrite held_false in H2 |- *.
    intros x [->%elem_of_singleton|Hx]%elem_of_union; [done|auto].
  - intros k' Hin. assert (k' = k ∨ k' ∈ some f) as [->|Hin'] by (destruct (mem k lasting && _); [apply elem_of_cons in Hin|]; auto); [done|].
    specialize (H3 k' Hin'). apply held_true in H3 as (x & ? & ?). apply held_true. exists x. set_solver.
Qed.
Lemma known_release f s k : known f s → k ∉ [Executing; Link; Connection] → known (learn_none k f) (without k s).
Proof.
  intros [[S1 S2 S2' S3 S4] H2 H3] Hk. assert (k ≠ Executing ∧ k ≠ Link ∧ k ≠ Connection) as (He & Hl & Hc) by set_solver.
  clear Hk. split; simpl.
  - split.
    + intros x [Hx _]%without_In. auto.
    + intros n [Hn _]%without_In. destruct (S2 n Hn) as [m Hm]. exists m. by apply without_In.
    + intros n [Hn _]%without_In. destruct (S2' n Hn) as [m Hm]. exists m. by apply without_In.
    + intros l n [Hn _]%without_In. destruct (S3 l n Hn). split; [apply without_In; by split; [|auto]|]. by intros [? _]%without_In.
    + intros n [Hn _]%without_In. apply without_In. split; [exact (S4 n Hn)|auto].
  - assert (implied k = []) as -> by by destruct k.
    intros k' [->|[_ Hin]%list_elem_of_filter]%elem_of_cons; rewrite held_false; intros x [Hx Hk]%without_In; [done|].
    specialize (H2 k' Hin). rewrite held_false in H2. auto.
  - intros k' [Hne Hin]%list_elem_of_filter. specialize (H3 k' Hin). apply held_true in H3 as (x & Hx & <-).
    apply held_In. by apply without_In.
Qed.

(** ** The check of a coroutine *)

(** Whether what is waited for will end. *)
Definition endable (f : facts) (k : kind) : bool :=
  match k with
  | Executing => mem Waiting (none f)
  | Request => mem Waiting (none f) && mem Streaming (none f)
  | Connection => mem Open (none f) && (mem Waiting (none f) && mem Streaming (none f))
  | Call => mem Calling (none f)
  | Task | StorageTask => true
  | Link => mem Streaming (none f) && mem LateStream (none f)
  | Control => mem DriverStopping (some f) && mem Asking (none f)
  | AcceptLoop => mem TransportStopping (some f)
  | _ => false
  end.

Section verify.
Context (live : bool) (goal : facts → bool).

Fixpoint verify (n : nat) (f : facts) (p : list instr) : bool :=
  match n with
  | 0 => false
  | S n =>
      if stable f then
        match p with
        | [] => goal f
        | Acquire k :: p => if negb (mem k linked) then verify n (settle (learn_some k f)) p else false
        | Attempt None :: p => if goal f then verify n f p else false
        | Attempt (Some k) :: p =>
            if goal f then
              if negb (mem k linked) then verify n (settle (learn_some k f)) p else false
            else false
        | Release k :: p => if negb (mem k [Executing; Link; Connection]) then verify n (settle (learn_none k f)) p else false
        | AwaitNone k :: p => if negb live || endable f k then verify n (settle (learn_none k f)) p else false
        | CheckNone k :: p => if mem k (none f) then verify n f p else false
        | When k q :: p =>
            if (if mem k (some f) then true else verify n (settle (learn_none k f)) p) then
              if mem k (none f) then true else verify n (settle (learn_some k f)) (q ++ p)
            else false
        | Unless k q :: p =>
            if (if mem k (some f) then true else verify n (settle (learn_none k f)) (q ++ p)) then
              if mem k (none f) then true else verify n (settle (learn_some k f)) p
            else false
        end
      else false
  end.

Definition verified (c : config) : Prop := ∃ n f, verify n f (cf_rest c) = true ∧ known f (cf_shard c).

Lemma mem_not k l : negb (mem k l) = true → k ∉ l.
Proof. by intros Hm%negb_true_iff%bool_decide_eq_false. Qed.

Lemma verify_stable n f p : verify n f p = true → stable f = true.
Proof. destruct n; [done|]. simpl. by intros [? _]%andb_true_iff. Qed.
Lemma verify_end n f p : verify n f p = true → (∃ k q, p = Attempt k :: q) → goal f = true ∧ stable f = true.
Proof.
  intros Hv (k & q & ->). destruct n; [done|]. simpl in Hv. apply andb_true_iff in Hv as [Hs Hv].
  split; [|done]. by destruct k; apply andb_true_iff in Hv as [? _].
Qed.

Lemma verified_exec c c' : exec c c' → verified c → verified c'.
Proof.
  intros He (n & f & Hv & Hk). destruct He as [k p s b|k p s b|k p s b|k p s b|k p s b Hh|k p s b Hh|k q p s b|k q p s b]; simpl in *.
  3: { destruct (verify_end _ _ _ Hv) as [Hg Hs]; [by eexists _, _|]. exists 1, f. split; [|done]. simpl. by rewrite Hg, Hs. }
  all: destruct n as [|n]; [done|]; simpl in Hv; apply andb_true_iff in Hv as [_ Hv].
  - apply andb_true_iff in Hv as [?%mem_not Hv]. exists n, (settle (learn_some k f)). split; [done|]. by apply settle_known, known_acquire.
  - destruct k as [k|]; simpl; [|apply andb_true_iff in Hv as [_ Hv]; by exists n, f].
    apply andb_true_iff in Hv as [_ [?%mem_not Hv]%andb_true_iff].
    exists n, (settle (learn_some k f)). split; [done|]. by apply settle_known, known_acquire.
  - apply andb_true_iff in Hv as [?%mem_not Hv]. exists n, (settle (learn_none k f)). split; [done|]. by apply settle_known, known_release.
  - apply andb_true_iff in Hv as [_ Hv]. exists n, (settle (learn_none k f)). split; [done|]. by apply settle_known, known_none.
  - apply andb_true_iff in Hv as [_ Hv]. by exists n, f.
  - apply andb_true_iff in Hv as [Hn Hs]. apply orb_true_iff in Hn, Hs. destruct (held k s) eqn:Eh.
    + exists n, (settle (learn_some k f)). destruct Hs as [Hs|Hs]; [exfalso; by eapply none_held|]. split; [done|]. by apply settle_known, known_some.
    + exists n, (settle (learn_none k f)). destruct Hn as [Hn|Hn]; [exfalso; by eapply some_held|]. split; [done|]. by apply settle_known, known_none.
  - apply andb_true_iff in Hv as [Hn Hs]. apply orb_true_iff in Hn, Hs. destruct (held k s) eqn:Eh.
    + exists n, (settle (learn_some k f)). destruct Hs as [Hs|Hs]; [exfalso; by eapply none_held|]. split; [done|]. by apply settle_known, known_some.
    + exists n, (settle (learn_none k f)). destruct Hn as [Hn|Hn]; [exfalso; by eapply some_held|]. split; [done|]. by apply settle_known, known_none.
Qed.
Lemma verified_steps c c' : rtc (step late) c c' → verified c → verified c'.
Proof.
  induction 1 as [|c1 c2 c3 Hs _ IH]; [done|]. intros Hv. apply IH. destruct Hs as [c1 c2 He|p s s' b Ha]; [by eapply verified_exec|].
  destruct Hv as (n & f & Hv & Hk). exists n, f. split; [done|]. eapply stable_known; [done| |done]. by eapply verify_stable.
Qed.

Lemma verified_check c k p : verified c → cf_rest c = CheckNone k :: p → held k (cf_shard c) = false.
Proof.
  intros (n & f & Hv & Hk) E. rewrite E in Hv. destruct n; [done|]. simpl in Hv.
  apply andb_true_iff in Hv as [_ [Hm _]%andb_true_iff]. by apply mem_In, (kw_none _ _ Hk) in Hm.
Qed.
Lemma verified_end c : verified c → cf_rest c = [] → ∃ f, goal f = true ∧ stable f = true ∧ known f (cf_shard c).
Proof.
  intros (n & f & Hv & Hk) E. rewrite E in Hv. destruct n; [done|]. simpl in Hv. apply andb_true_iff in Hv as [Hs Hg]. by exists f.
Qed.

(** What is waited for ends by itself, or something does that it waits for. *)
Lemma executing_ends f s : known f s → mem Waiting (none f) = true → held Executing s = true → ∃ s', internal s s'.
Proof.
  intros Hk Hw ([[k n] m] & Hx & Ek)%held_true. simpl in Ek. subst k.
  assert ((Waiting, n, 0) ∉ s) as Hn by (intros ?; by eapply (none_In f s Waiting)).
  destruct (decide ((Registered, n, 0) ∈ s)); eexists; [by apply in_closes|by eapply in_finishes].
Qed.
Lemma request_ends f s :
  known f s → mem Waiting (none f) = true → mem Streaming (none f) = true → held Request s = true → ∃ s', internal s s'.
Proof.
  intros Hk Hw Hst ([[k n] m] & Hx & Ek)%held_true. simpl in Ek. subst k.
  pose proof (sd_shape _ (kw_sound _ _ Hk) _ Hx) as Hm. unfold shaped in Hm. simpl in Hm. subst m.
  destruct (held Executing s) eqn:Ee; [by eapply executing_ends|]. destruct (held Pending s) eqn:Ep; [|eexists; by apply in_request].
  apply held_true in Ep as ([[k l] m] & Hy & Ek). simpl in Ek. subst k.
  destruct (sd_stream _ (kw_sound _ _ Hk) _ _ Hy) as [Hl Hlate]. eexists. apply (in_stream s l); [done| |done].
  intros ?. by eapply (none_In f s Streaming).
Qed.
Lemma task_ends s k : sound s → k = Task ∨ k = StorageTask → held k s = true → ∃ s', internal s s'.
Proof.
  intros Hs Hk (x & Hx & Ek)%held_true. destruct x as [[k' n] m]. simpl in Ek. subst k'.
  destruct (held StorageTask s) eqn:Et.
  - apply held_true in Et as ([[k' n'] m'] & Hy & Ek). simpl in Ek. subst k'. eexists. by apply in_storage.
  - destruct Hk as [->| ->]; [eexists; by apply in_task|]. rewrite (held_In _ _ Hx : held StorageTask s = true) in Et. done.
Qed.

Lemma endable_internal f s k : known f s → endable f k = true → held k s = true → ∃ s', internal s s'.
Proof.
  intros Hk He Hh. pose proof (proj1 (held_true _ _) Hh) as (x & Hx & Ek).
  pose proof (sd_shape _ (kw_sound _ _ Hk) x Hx) as Hsh. unfold shaped in Hsh.
  assert (∀ k', mem k' (none f) = true → ∀ y, y ∈ s → y.1.1 ≠ k') as Hnone by (intros k' Hm y Hy E; by eapply (none_In f s k')).
  destruct x as [[k' n] m]. simpl in Ek. subst k'. simpl in Hsh.
  destruct k; try discriminate He; simpl in Hsh, He; rewrite ?andb_true_iff in He.
  - destruct He as [Hd Ha]. injection Hsh as -> ->. eexists. apply in_control; [done| |by apply held_false, Hnone].
    destruct (held DriverStopping s) eqn:E; [done|]. exfalso. by eapply some_held.
  - destruct He as [H1 H2]. subst m. eexists. apply (in_stream s n); [done|intros Hy; exact (Hnone _ H1 _ Hy eq_refl)|intros Hy; exact (Hnone _ H2 _ Hy eq_refl)].
  - by eapply executing_ends.
  - destruct He. by eapply request_ends.
  - subst m. destruct (held Task s) eqn:Et; [eapply task_ends; [apply Hk|by left|done]|].
    eexists. apply (in_call s n); [done| |done]. intros Hy. exact (Hnone _ He _ Hy eq_refl).
  - eapply task_ends; [apply Hk|by left|done].
  - eapply task_ends; [apply Hk|by right|done].
  - injection Hsh as -> ->. destruct (held Accepted s) eqn:E.
    + apply held_true in E as ([[k n] m] & Hy & Ey). simpl in Ey. subst k.
      pose proof (sd_shape _ (kw_sound _ _ Hk) _ Hy) as Hm. simpl in Hm. unfold shaped in Hm. simpl in Hm. subst m.
      eexists. apply (in_takes s n); [done|]. by apply (held_In (the AcceptLoop)).
    + eexists. apply in_accept_ends; [done| |done]. destruct (held TransportStopping s) eqn:Et; [done|]. exfalso. by eapply some_held.
  - destruct He as (Ho & Hw & Hst). subst m. destruct (held Request s) eqn:Er; [by eapply request_ends|].
    eexists. apply (in_connection s n); [done| |done]. intros Hy. exact (Hnone _ Ho _ Hy eq_refl).
Qed.
Lemma verified_progress c :
  live = true → verified c → cf_rest c ≠ [] → ∃ c', quiet_step c c'.
Proof.
  intros Hl (n & f & Hv & Hk) Hne. destruct c as [[|i p] s b]; [done|]. simpl in *. destruct n as [|n]; [done|]. simpl in Hv.
  apply andb_true_iff in Hv as [_ Hv].
  destruct i as [k|k|k|k|k|k q|k q]; try (eexists; apply qs_exec; by constructor).
  - destruct (held k s) eqn:Eh; [|eexists; apply qs_exec; by constructor]. apply andb_true_iff in Hv as [He _].
    rewrite Hl in He. simpl in He. destruct (endable_internal _ _ _ Hk He Eh) as [s' ?]. eexists. by apply qs_internal.
  - apply andb_true_iff in Hv as [Hm _]. apply mem_In, (kw_none _ _ Hk) in Hm. eexists. apply qs_exec. by constructor.
Qed.
End verify.
End activity.

(** ** No run goes on for ever *)

Definition weight (x : thing) : nat :=
  match x.1.1 with
  | Executing => 2 * x.2 + 1
  | Registered | Request | Pending | Call | Task | StorageTask | Link | Control | AcceptLoop | Connection => 1
  | Accepted => 2
  | _ => 0
  end.
Definition work (s : shard) : nat := sum_list_with weight (elements s).

Lemma work_remove s x : x ∈ s → work s = weight x + work (s ∖ {[x]}).
Proof.
  intros Hx. unfold work. rewrite (union_difference_singleton_L x s Hx) at 1. rewrite elements_union_singleton by set_solver.
  done.
Qed.
Lemma work_add s x : work ({[x]} ∪ s) ≤ weight x + work s.
Proof.
  destruct (decide (x ∈ s)) as [Hx|Hx]; [rewrite subseteq_union_1_L by set_solver; lia|].
  unfold work. rewrite elements_union_singleton by done. simpl. lia.
Qed.
Lemma work_sub s s' : s ⊆ s' → work s ≤ work s'.
Proof.
  revert s'. induction s as [|x s Hx IH] using set_ind_L; intros s' Hs; [unfold work; rewrite elements_empty; simpl; lia|].
  pose proof (work_add s x). rewrite (work_remove s' x) by set_solver. specialize (IH (s' ∖ {[x]}) ltac:(set_solver)). lia.
Qed.

(** The same rest on both sides. *)
Ltac lighter :=
  rewrite ?Nat.add_assoc;
  first [apply Nat.add_lt_mono_r | apply (Nat.add_lt_mono_r 0)]; unfold weight; simpl; lia.

Lemma internal_work s s' : internal s s' → work s' < work s.
Proof.
  destruct 1 as [n k Hn _|n k c Hn _ _|n k c Hn _|n k Hn _|n Hn _|n k Hn _ _|n Hn _ _|n Hn _ _|n m Hn _|n m Hn|l Hl _ _|Hn _ _|n Hn _|Hn _ _|n Hn _ _].
  1,2,4: rewrite (work_remove _ _ Hn); (eapply Nat.le_lt_trans; [apply work_add|]);
    (eapply Nat.le_lt_trans; [apply Nat.add_le_mono_l, work_add|]); lighter.
  2-7: rewrite (work_remove _ _ Hn); lighter.
  - rewrite (work_remove _ _ Hn). eapply Nat.le_lt_trans; [apply work_add|].
    eapply Nat.le_lt_trans; [apply Nat.add_le_mono_l, (work_sub _ (s ∖ {[(Executing, n, S k)]})); set_solver|].
    lighter.
  - rewrite (work_remove _ _ Hl). eapply Nat.le_lt_trans; [apply (work_sub _ (s ∖ {[(Link, l, 0)]})); set_solver|].
    lighter.
  - rewrite (work_remove _ _ Hn). lighter.
  - rewrite (work_remove _ _ Hn). eapply Nat.le_lt_trans; [apply work_add|].
    eapply Nat.le_lt_trans; [apply Nat.add_le_mono_l, work_add|]. lighter.
  - rewrite (work_remove _ _ Hn). lighter.
  - rewrite (work_remove _ _ Hn). lighter.
Qed.

Fixpoint instr_size (i : instr) : nat :=
  match i with When _ p | Unless _ p => S (sum_list_with instr_size p) | _ => 1 end.
Definition program_size (p : list instr) : nat := sum_list_with instr_size p.

Lemma exec_size c c' : exec c c' → program_size (cf_rest c') < program_size (cf_rest c).
Proof.
  unfold program_size.
  destruct 1 as [k p s b|k p s b|k p s b|k p s b|k p s b Hh|k p s b Hh|k q p s b|k q p s b]; simpl; try lia;
    destruct (held k s); rewrite ?sum_list_with_app; lia.
Qed.
Lemma quiet_terminates c : Acc (flip quiet_step) c.
Proof.
  destruct c as [p s b]. remember (program_size p) as m eqn:Em. revert p s b Em.
  induction (lt_wf m) as [m _ IHm]. intros p s b ->. remember (work s) as w eqn:Ew. revert s b Ew.
  induction (lt_wf w) as [w _ IHw]. intros s b ->. constructor. intros c' Hc. unfold flip in Hc. inversion Hc as [? ? He|]; subst.
  - destruct c' as [p' s' b']. by apply exec_size in He; eapply IHm.
  - eapply IHw; [by apply internal_work|done].
Qed.


(** ** The services *)

Definition of_members : list kind := flags ++ [Listener; Accepted; Slots; Storage].
(** Nothing is left but flags and the parts that go with the object. *)
Definition released (s : shard) : Prop := ∀ x, x ∈ s → x.1.1 ∈ of_members.
Definition all_released (f : facts) : bool := forallb (λ k, mem k of_members || mem k (none f)) kinds.

Definition absent (l : list kind) : facts := MkFacts (filter (λ k, k ∉ l) kinds) [].
Definition stops (sv : service) : list instr := sv_stop sv ++ sv_stop sv ++ sv_destroy sv.

(** From wherever start() ends, the rest is verified. *)
Definition service_ok (late live : bool) (sv : service) : bool :=
  verify late false (λ f, verify late live all_released 200 f (stops sv)) 200 (absent (sv_made sv)) (sv_start sv).

Lemma state_ok late : service_ok late true state_shard = true.
Proof. destruct late; vm_compute; reflexivity. Qed.
Lemma file_ok late : service_ok late true file_shard = true.
Proof. destruct late; vm_compute; reflexivity. Qed.
Lemma message_ok late : service_ok late true message_shard = true.
Proof. destruct late; vm_compute; reflexivity. Qed.
Lemma gate_ok late ca email : service_ok late true (gate_shard ca email) = true.
Proof. destruct late, ca, email; vm_compute; reflexivity. Qed.
Lemma gateway_ok late ca early listening after :
  service_ok late (negb late) (gateway_shard ca early listening after) = true.
Proof. destruct late, ca, early, listening, after; vm_compute; reflexivity. Qed.

Lemma every_kind k : k ∈ kinds.
Proof. destruct k; apply (bool_decide_unpack _); vm_compute; exact I. Qed.

#[local] Opaque verify.

Inductive is_service : service → Prop :=
  | is_state : is_service state_shard
  | is_file : is_service file_shard
  | is_message : is_service message_shard
  | is_gate ca email : is_service (gate_shard ca email)
  | is_gateway ca early listening after : is_service (gateway_shard ca early listening after).

Lemma services_ok late sv : is_service sv → ∃ live, service_ok late live sv = true ∧ (late = false → live = true).
Proof.
  intros [| | |ca email|ca early listening after].
  - exists true. split; [exact (state_ok late)|trivial].
  - exists true. split; [exact (file_ok late)|trivial].
  - exists true. split; [exact (message_ok late)|trivial].
  - exists true. split; [exact (gate_ok late ca email)|trivial].
  - exists (negb late). split; [exact (gateway_ok late ca early listening after)|intros ->; trivial].
Qed.

Lemma made_known l : forallb (λ k, negb (mem k linked)) l = true → known (absent l) (list_to_set (the <$> l)).
Proof.
  intros Hl. rewrite forallb_forall in Hl.
  assert (∀ x, x ∈ (list_to_set (the <$> l) : shard) → x = the x.1.1 ∧ x.1.1 ∈ l ∧ x.1.1 ∉ linked) as Hx.
  { intros x (k & -> & Hk)%elem_of_list_to_set%list_elem_of_fmap. split_and!; [done..|]. by apply mem_not, Hl, list_elem_of_In. }
  split; [split|..].
  - intros x (E & _ & _)%Hx. rewrite E. by destruct (x.1.1).
  - intros n (_ & _ & Hn)%Hx. exfalso. apply Hn. of_kinds.
  - intros n (_ & _ & Hn)%Hx. exfalso. apply Hn. of_kinds.
  - intros l' n (_ & _ & Hn)%Hx. exfalso. apply Hn. of_kinds.
  - intros n (_ & _ & Hn)%Hx. exfalso. apply Hn. of_kinds.
  - intros k Hk. unfold absent in Hk. simpl in Hk. apply list_elem_of_filter in Hk as [Hk _]. apply held_false.
    intros x (_ & Hin & _)%Hx E. rewrite E in Hin. done.
  - intros k Hk. by apply elem_of_nil in Hk.
Qed.

(** Where stop() may start from. *)
Lemma started_verified late live sv s b :
  is_service sv → service_ok late live sv = true → rtc (step late) (MkConfig (sv_start sv) (made sv) false) (MkConfig [] s b) →
  verified late live all_released (MkConfig (stops sv) s false).
Proof.
  intros Hsv Hok Hr. unfold service_ok in Hok.
  eapply (verified_steps late false (λ f, verify late live all_released 200 f (stops sv))) in Hr.
  - destruct (verified_end late false _ _ Hr eq_refl) as (f & Hg & _ & Hk). exists 200, f. split; [exact Hg|exact Hk].
  - exists 200, (absent (sv_made sv)). split; [exact Hok|]. apply made_known. by destruct Hsv.
Qed.

(** C13: every shard stops cleanly. Wherever start() ended, with all parts or
    with an exception at any of its points, and whatever requests, operations,
    calls, streams and clients do meanwhile: stop(), the second stop() when the
    owner destroys the shard and the destructors meet no assertion that fails;
    at the end nothing is left; no run of the shard by itself goes on for ever;
    and before the end the shard always goes on by itself, with no help of
    databases, other services, peers or clients, provided that no accepted
    socket waits for the accept loop when the Gateway stops. (What waits for
    another end goes on by itself only after the shard has given it up:
    [internal].) *)
Theorem shards_stop late sv s b c :
  is_service sv → rtc (step late) (MkConfig (sv_start sv) (made sv) false) (MkConfig [] s b) →
  rtc (step late) (MkConfig (stops sv) s false) c →
  (∀ k p, cf_rest c = CheckNone k :: p → held k (cf_shard c) = false) ∧
  (cf_rest c = [] → released (cf_shard c)) ∧
  (late = false → cf_rest c ≠ [] → ∃ c', quiet_step c c') ∧
  Acc (flip quiet_step) c.
Proof.
  intros Hsv Hstart Hstop. destruct (services_ok late sv Hsv) as (live & Hok & Hlive).
  pose proof (verified_steps _ _ _ _ _ Hstop (started_verified _ _ _ _ _ Hsv Hok Hstart)) as Hv. split_and!.
  - intros k p. by eapply verified_check.
  - intros Hend. destruct (verified_end _ _ _ _ Hv Hend) as (f & Hg & _ & Hk). intros x Hx.
    unfold all_released in Hg. rewrite forallb_forall in Hg.
    pose proof (proj1 (list_elem_of_In _ _) (every_kind x.1.1)) as Hin. apply Hg, orb_true_iff in Hin as [Hm%mem_In|Hm]; [done|]. exfalso. by eapply none_In.
  - intros El Hne. by eapply verified_progress; [apply Hlive| |].
  - apply quiet_terminates.
Qed.

(** ** Runs *)

(** The next instruction, when it can be executed and nothing throws. *)
Definition exec_next (c : config) : option config :=
  let s := cf_shard c in
  match cf_rest c with
  | [] => None
  | Acquire k :: p => Some (MkConfig p ({[the k]} ∪ s) (cf_threw c))
  | Attempt k :: p => Some (MkConfig p (from_option (λ k, {[the k]} ∪ s) s k) (cf_threw c))
  | Release k :: p => Some (MkConfig p (without k s) (cf_threw c))
  | AwaitNone k :: p | CheckNone k :: p => if held k s then None else Some (MkConfig p s (cf_threw c))
  | When k q :: p => Some (MkConfig (if held k s then q ++ p else p) s (cf_threw c))
  | Unless k q :: p => Some (MkConfig (if held k s then p else q ++ p) s (cf_threw c))
  end.
Fixpoint run (n : nat) (c : config) : config :=
  match n with
  | 0 => c
  | S n => match exec_next c with Some c' => run n c' | None => c end
  end.

Lemma exec_next_exec c c' : exec_next c = Some c' → exec c c'.
Proof.
  destruct c as [[|i p] s b]; [done|]. destruct i as [k|k|k|k|k|k q|k q]; cbn [exec_next cf_rest cf_shard cf_threw].
  - intros [= <-]. apply ex_acquire.
  - intros [= <-]. apply ex_succeeds.
  - intros [= <-]. apply ex_release.
  - destruct (held k s) eqn:E; [done|]. intros [= <-]. by apply ex_await.
  - destruct (held k s) eqn:E; [done|]. intros [= <-]. by apply ex_check.
  - intros [= <-]. apply ex_when.
  - intros [= <-]. apply ex_unless.
Qed.
Lemma run_steps late n c : rtc (step late) c (run n c).
Proof.
  revert c. induction n as [|n IH]; intros c; simpl; [apply rtc_refl|]. destruct (exec_next c) as [c'|] eqn:E; [|apply rtc_refl].
  eapply rtc_l; [apply st_exec, exec_next_exec, E|apply IH].
Qed.

Lemma config_parts c p b : cf_rest c = p → cf_threw c = b → c = MkConfig p (cf_shard c) b.
Proof. destruct c. simpl. by intros -> ->. Qed.

(** The Message service starts and stops. *)
Definition demo_started : config := run 50 (MkConfig (sv_start message_shard) (made message_shard) false).
Definition demo_stopped : config := run 100 (MkConfig (stops message_shard) (cf_shard demo_started) false).

Lemma shards_stop_witness : cf_rest demo_stopped = [] ∧ released (cf_shard demo_stopped).
Proof.
  destruct (shards_stop false message_shard (cf_shard demo_started) false demo_stopped is_message) as (_ & Hr & _).
  - rewrite <- (config_parts demo_started [] false); [apply run_steps|vm_compute; reflexivity|vm_compute; reflexivity].
  - apply run_steps.
  - assert (cf_rest demo_stopped = []) as E by (vm_compute; reflexivity). split; [exact E|exact (Hr E)].
Defined.

(** ** A socket that was accepted while the Gateway stops

    When a client was accepted and the accept loop sees it only after stop()
    closed the connections, nobody closes its connection: stop() waits for as
    long as the client stays. *)

Lemma no_internal s s' :
  forallb (λ k, negb (held k s))
    [Executing; Registered; Request; Call; Task; StorageTask; Link; Control; Accepted; AcceptLoop] = true →
  (∀ n, (Connection, n, 0) ∈ s → (Open, n, 0) ∈ s) → ¬ internal s s'.
Proof.
  intros Hf Hc Hi. rewrite forallb_forall in Hf.
  assert (∀ x, x ∈ s → x.1.1 ∉ [Executing; Registered; Request; Call; Task; StorageTask; Link; Control; Accepted; AcceptLoop]) as Hno.
  { intros x Hx Hin. apply list_elem_of_In, Hf, negb_true_iff in Hin. rewrite (held_In x s Hx) in Hin. done. }
  destruct Hi as [n k Hn _|n k c Hn _ _|n k c Hn _|n k Hn _|n Hn _|n k Hn _ _|n Hn _ _|n Hn _ _|n m Hn _|n m Hn|l Hn _ _|Hn _ _|n Hn _|Hn _ _|n Hn Ho _].
  all: try (apply (Hno _ Hn); of_kinds).
  by apply Ho, Hc.
Qed.

Lemma waits_forever p s b c' :
  held Connection s = true → (∀ s', ¬ internal s s') → ¬ quiet_step (MkConfig (AwaitNone Connection :: p) s b) c'.
Proof.
  intros Hh Hi Hq. inversion Hq as [? ? He|? ? s' ? Hs]; subst; [|by apply (Hi s')].
  inversion He as [| | | |? ? ? ? Hh'| | |]; subst. congruence.
Qed.

Definition demo_gateway : service := gateway_shard false false true false.
Definition demo_listening : config := run 50 (MkConfig (sv_start demo_gateway) (made demo_gateway) false).
(** A client is accepted, stop() runs up to the wait for the accept loop, which
    then sees the client and ends, as does grpc_control. *)
Definition demo_accepted : shard := {[(Accepted, 1, 0)]} ∪ cf_shard demo_listening.
Definition demo_waiting : config := run 50 (MkConfig (stops demo_gateway) demo_accepted false).
Definition demo_taken : shard :=
  {[(Connection, 1, 0)]} ∪ ({[(Open, 1, 0)]} ∪ cf_shard demo_waiting ∖ {[(Accepted, 1, 0)]}).
Definition demo_ended : shard := demo_taken ∖ {[the Control]} ∖ {[the AcceptLoop]}.
Definition demo_hangs : config := run 50 (MkConfig (cf_rest demo_waiting) demo_ended false).

Lemma demo_hangs_reachable :
  rtc (step true) (MkConfig (sv_start demo_gateway) (made demo_gateway) false) (MkConfig [] demo_accepted false) ∧
  rtc (step true) (MkConfig (stops demo_gateway) demo_accepted false) demo_hangs.
Proof.
  split.
  - eapply rtc_r; [apply (run_steps true 50)|]. fold demo_listening.
    rewrite (config_parts demo_listening [] false) by (vm_compute; reflexivity).
    apply st_activity. left. apply ar_socket; vm_compute; reflexivity.
  - etransitivity; [apply (run_steps true 50)|]. fold demo_waiting.
    rewrite (config_parts demo_waiting (cf_rest demo_waiting) false) by (vm_compute; reflexivity). eapply rtc_l; [apply st_activity; right; apply (in_takes _ 1); [by apply (bool_decide_unpack _); vm_compute|vm_compute; reflexivity]|].
    eapply rtc_l; [apply st_activity; right; apply in_control; [by apply (bool_decide_unpack _); vm_compute|vm_compute; reflexivity..]|].
    eapply rtc_l; [apply st_activity; right; apply in_accept_ends; [by apply (bool_decide_unpack _); vm_compute|vm_compute; reflexivity..]|].
    apply (run_steps true 50 (MkConfig (cf_rest demo_waiting) demo_ended false)).
Qed.

Example late_connection_blocks_stop :
  (∃ p, cf_rest demo_hangs = AwaitNone Connection :: p) ∧ ∀ c', ¬ quiet_step demo_hangs c'.
Proof.
  pose proof (config_parts demo_hangs (cf_rest demo_hangs) false eq_refl ltac:(vm_compute; reflexivity)) as E.
  assert (∃ p, cf_rest demo_hangs = AwaitNone Connection :: p) as [p Ep] by (eexists; vm_compute; reflexivity).
  split; [by exists p|]. intros c'. rewrite E, Ep. apply waits_forever; [vm_compute; reflexivity|].
  intros s'. apply no_internal; [vm_compute; reflexivity|].
  assert (set_Forall (λ x, x.1.1 = Connection → (Open, x.1.2, x.2) ∈ cf_shard demo_hangs) (cf_shard demo_hangs)) as Hall.
  { apply (bool_decide_unpack _). vm_compute. exact I. }
  intros n Hn. exact (Hall _ Hn eq_refl).
Qed.
