(* ===== verification/Processes.v ===== *)
(** * The processes

    main() and run() of the five services: what a process acquires, in which
    order it gives it back, and what becomes of a failure. Any call may fail; what
    a process holds is a stack, and a release of something below the top is
    recorded, as is the destruction of shards that were not stopped. *)

From S2P Require Import Prelude.

Inductive resource := MysqlLibrary | Grpc | Group (name : string) | Shards | Watch | Http.
#[export] Instance resource_eq_dec : EqDecision resource.
Proof. solve_decision. Defined.

(** What may fail: initialising the libraries, reading the configuration and the
    options, setting the level of the log, creating a group, constructing the
    shards, starting them, waiting until they are ready, listening, the steps of
    the HTTP server; and, at the end, stopping the watch, the shards and the HTTP
    server, destroying the shards, draining gRPC and destroying a group. *)
Inductive call :=
  | InitOpenSSL | InitMysql | LoadConfiguration | SetLogLevel | InitGrpc | LoadOptions | CreateGroup (name : string)
  | Construct | StartShards | WaitReady | Listen | StartHttp | ConfigureHttp | SetRoutes | ListenHttp
  | AwaitWatch | StopShards | StopHttp | DestroyShards | DrainGrpc | DestroyGroup (name : string).

(** [pr_used]: shards were constructed; [pr_stopped]: stop() ran on every one;
    [pr_in_order]: nothing was released too early; [pr_drained]: gRPC was drained
    after the shards; [pr_signal]: stop was requested. *)
Record process := MkProcess {
  pr_stack : list resource; pr_used : bool; pr_stopped : bool; pr_in_order : bool; pr_drained : bool; pr_signal : bool }.
Definition process_init : process := MkProcess [] false false true false false.

Section processes.
(** What fails; whether the signal arrives while the process waits for a call. *)
Context (fails : call → option exn) (signalled : call → bool).

Definition attempt (c : call) : Eff process unit := λ p,
  let p := MkProcess (pr_stack p) (pr_used p) (pr_stopped p) (pr_in_order p) (pr_drained p) (pr_signal p || signalled c) in
  match fails c with Some e => (Throw e, p) | None => (Ok tt, p) end.
Definition acquire (r : resource) : Eff process unit := modify (λ p,
  MkProcess (r :: pr_stack p) (pr_used p || bool_decide (r = Shards)) (pr_stopped p) (pr_in_order p) (pr_drained p) (pr_signal p)).
(** The destruction of shards calls stop() on each, which is over if stop() ran. *)
Definition release (r : resource) : Eff process unit := modify (λ p,
  MkProcess (filter (λ x, x ≠ r) (pr_stack p)) (pr_used p) (pr_stopped p)
    (pr_in_order p && bool_decide (head (pr_stack p) = Some r) &&
     (negb (bool_decide (r = Shards)) || pr_stopped p))
    (pr_drained p) (pr_signal p)).
Definition stop_shards : Eff process unit := modify (λ p,
  MkProcess (pr_stack p) (pr_used p) true (pr_in_order p) (pr_drained p) (pr_signal p)).
Definition request_stop : Eff process unit := modify (λ p,
  MkProcess (pr_stack p) (pr_used p) (pr_stopped p) (pr_in_order p) (pr_drained p) true).
(** local.stop() on every shard; services.stop() *)
Definition stop_all : Eff process unit := attempt StopShards ;; stop_shards.
Definition destroy_shards : Eff process unit := attempt DestroyShards ;; release Shards.
(** drain_grpc, which the shards must not use any more *)
Definition drain_grpc : Eff process unit := attempt DrainGrpc ;; modify (λ p,
  MkProcess (pr_stack p) (pr_used p) (pr_stopped p) (pr_in_order p && negb (bool_decide (Shards ∈ pr_stack p))) true (pr_signal p)).
(** What shards left to gRPC must be drained by now. *)
Definition check_drained : Eff process unit := modify (λ p,
  MkProcess (pr_stack p) (pr_used p) (pr_stopped p) (pr_in_order p && (pr_drained p || negb (pr_used p))) (pr_drained p)
    (pr_signal p)).
Definition holds (r : resource) : Eff process bool := λ p, (Ok (bool_decide (r ∈ pr_stack p)), p).
Definition stopping : Eff process bool := λ p, (Ok (pr_signal p), p).

(** [stop.wait()]: it returns when the signal came. *)
Definition wait_signal : Eff process unit := request_stop.

Definition initialize_grpc : Eff process unit := attempt InitGrpc ;; acquire Grpc.
(** It joins threads, which no reactor serves any more. *)
Definition shutdown_grpc : Eff process unit :=
  initialized ← holds Grpc;
  if initialized : bool then check_drained ;; release Grpc else mret tt.

(** ** Parts of every run() *)

Definition create_group (name : string) : Eff process unit := attempt (CreateGroup name) ;; acquire (Group name).
Definition create_groups : Eff process unit :=
  create_group "protocol" ;; create_group "transaction" ;; create_group "io".
Definition destroy_group (name : string) : Eff process unit := attempt (DestroyGroup name) ;; release (Group name).
Definition destroy_groups : Eff process unit :=
  destroy_group "io" ;; destroy_group "transaction" ;; destroy_group "protocol".
Definition construct : Eff process unit := attempt Construct ;; acquire Shards.
Definition rethrow (failure : option exn) : Eff process unit :=
  match failure with Some e => (λ p, (Throw e, p)) | None => mret tt end.

(** The end of every run() *)
Definition finish (failure : option exn) : Eff process unit :=
  drain_grpc ;; destroy_groups ;; rethrow failure.

(** ** File, State and Message *)

(** What follows the options *)
Definition run_shards : Eff process unit :=
  create_groups ;;
  failure ← (try (construct ;; attempt StartShards ;; wait_signal ;; mret None) with e => mret (Some e));
  constructed ← holds Shards;
  (if constructed : bool then stop_all ;; destroy_shards else mret tt) ;;
  finish failure.
Definition run_file : Eff process unit := initialize_grpc ;; run_shards.
Definition run_state : Eff process unit := attempt LoadOptions ;; initialize_grpc ;; run_shards.
Definition run_message : Eff process unit := initialize_grpc ;; attempt LoadOptions ;; run_shards.

(** ** Gate

    To stop an HTTP server that did not start does nothing. *)

Definition run_gate : Eff process unit :=
  attempt SetLogLevel ;; attempt LoadOptions ;; initialize_grpc ;;
  create_groups ;;
  failure ←
    (try (construct ;; attempt StartShards ;;
          attempt StartHttp ;; acquire Http ;; attempt ConfigureHttp ;; attempt SetRoutes ;; attempt ListenHttp ;;
          wait_signal ;; mret None)
     with e => mret (Some e));
  constructed ← holds Shards;
  (if constructed : bool then stop_all else mret tt) ;;
  attempt StopHttp ;;
  http ← holds Http;
  (if http : bool then release Http else mret tt) ;;
  (if constructed : bool then destroy_shards else mret tt) ;;
  finish failure.

(** ** Gateway

    [Watch]: the coroutine that waits for the signal and then aborts the
    transactions of every shard. [stopped] is no failure when the signal came. *)

Definition run_gateway : Eff process unit :=
  initialize_grpc ;; attempt LoadOptions ;;
  create_groups ;;
  failure ←
    (try (construct ;; attempt StartShards ;; acquire Watch ;; attempt WaitReady ;; attempt Listen ;;
          wait_signal ;; mret None)
     with e =>
       (s ← stopping;
        mret (match e with Stopped => if s : bool then None else Some e | _ => Some e end)));
  request_stop ;;
  watch ← holds Watch;
  (if watch : bool then attempt AwaitWatch ;; release Watch else mret tt) ;;
  constructed ← holds Shards;
  (if constructed : bool then stop_all ;; destroy_shards else mret tt) ;;
  finish failure.

(** ** main *)

(** app.run, which gives the exit status, and shutdown_grpc *)
Definition app_run (run : Eff process unit) : Eff process Z :=
  status ← (try (run ;; mret 0%Z) with e => mret 1%Z); shutdown_grpc ;; mret status.
(** configuration::load *)
Definition load_configuration : Eff process bool := try (attempt LoadConfiguration ;; mret true) with e => mret false.
(** OPENSSL_init_ssl and mysql_library_init *)
Definition init_libraries : Eff process bool :=
  try (attempt InitOpenSSL ;; attempt InitMysql ;; acquire MysqlLibrary ;; mret true) with e => mret false.

Definition main_state : Eff process Z :=
  configured ← load_configuration;
  if configured : bool then app_run run_state else mret 1%Z.
(** File reads its options before the reactor starts; nobody catches what they throw. *)
Definition main_file : Eff process Z :=
  configured ← load_configuration;
  if configured : bool then attempt LoadOptions ;; app_run run_file else mret 1%Z.

(** Gate and Gateway *)
Definition main_configured (run : Eff process unit) : Eff process Z :=
  configured ← load_configuration;
  if configured : bool then
    ready ← init_libraries;
    if ready : bool then status ← app_run run; release MysqlLibrary ;; mret status else mret 1%Z
  else mret 1%Z.
(** Message: the libraries come first. *)
Definition main_message : Eff process Z :=
  ready ← init_libraries;
  if ready : bool then
    configured ← load_configuration;
    if configured : bool then status ← app_run run_message; release MysqlLibrary ;; mret status
    else release MysqlLibrary ;; mret 1%Z
  else mret 1%Z.

(** ** What a process leaves *)

Definition group_calls : list call := [CreateGroup "protocol"; CreateGroup "transaction"; CreateGroup "io"].
(** The calls of a main() until it waits for the signal. *)
Inductive is_main : list call → Eff process Z → Prop :=
  | is_main_state :
      is_main ([LoadConfiguration; LoadOptions; InitGrpc] ++ group_calls ++ [Construct; StartShards]) main_state
  | is_main_file :
      is_main ([LoadConfiguration; LoadOptions; InitGrpc] ++ group_calls ++ [Construct; StartShards]) main_file
  | is_main_message :
      is_main ([InitOpenSSL; InitMysql; LoadConfiguration; InitGrpc; LoadOptions] ++ group_calls ++ [Construct; StartShards])
        main_message
  | is_main_gate :
      is_main ([LoadConfiguration; InitOpenSSL; InitMysql; SetLogLevel; LoadOptions; InitGrpc] ++ group_calls ++
               [Construct; StartShards; StartHttp; ConfigureHttp; SetRoutes; ListenHttp]) (main_configured run_gate)
  | is_main_gateway :
      is_main ([LoadConfiguration; InitOpenSSL; InitMysql; InitGrpc; LoadOptions] ++ group_calls ++
               [Construct; StartShards; WaitReady; Listen]) (main_configured run_gateway).

(** The first of the calls that fails. *)
Fixpoint first_failure (calls : list call) : option (call * exn) :=
  match calls with
  | [] => None
  | c :: calls => match fails c with Some e => Some (c, e) | None => first_failure calls end
  end.

(** run() does not destroy the groups it has when the next one cannot be made. *)
Definition groups_left (calls : list call) : list resource :=
  match first_failure calls with
  | Some (CreateGroup "transaction", _) => [Group "protocol"]
  | Some (CreateGroup "io", _) => [Group "transaction"; Group "protocol"]
  | _ => []
  end.

Definition ending (c : call) : bool :=
  match c with AwaitWatch | StopShards | StopHttp | DestroyShards | DrainGrpc | DestroyGroup _ => true | _ => false end.

(** One call after another. *)
Ltac calls ends :=
  repeat (cbv -[fails signalled];
          first [ progress rewrite !ends by reflexivity
                | match goal with |- context [match fails ?c with _ => _ end] => destruct (fails c) eqn:? end
                | match goal with |- context [match ?e with Stopped => if ?b then _ else _ | _ => _ end] => destruct b, e end ]).

End processes.

(** ** Witness *)

Definition demo_fails (c : call) : option exn :=
  match c with StartShards => Some (RuntimeError "gRPC reactor server startup failed") | _ => None end.

