(* ===== verification/FileClient.v ===== *)
(** * Uploads from the Message service to the File service

    Models the calls to the File service in message/io/driver.cc, and connects
    the handlers of the Message service with the storage of the File service: a
    run of a request, whose operations on files are served by the File service
    while other requests use the storage. A file is recorded as ready, and an
    upload acknowledged as complete, only when the File service has its verified
    bytes. *)

From S2P Require Import Prelude Codec Records FileTypes Program Process Protocol Handlers Seastar Budget Grpc.
From S2P Require Import MessageService ServiceTheorems FileStorage FileTheorems FileService FileServiceTheorems.
Import db file.

(** ** The driver's calls

    [fc_calls]: the contexts of the calls that run, which abort() cancels. *)

Record file_calls := MkFileCalls { fc_stopping : bool; fc_calls : gset nat }.

(** Up to the wait for the status *)
Definition call_begin (context : nat) (c : file_calls) : outcome unit * file_calls :=
  if fc_stopping c then (Throw Stopped, c) else (Ok tt, MkFileCalls (fc_stopping c) ({[context]} ∪ fc_calls c)).
(** From there, for any answer: the context is removed by the deferred action. *)
Definition call_end {A} (what : string) (context : nat) (answer : status * A) (c : file_calls) : outcome A * file_calls :=
  (if is_ok answer.1 then Ok answer.2 else Throw (RuntimeError (what +:+ st_message answer.1)),
   MkFileCalls (fc_stopping c) (fc_calls c ∖ {[context]})).

Definition execute_upload_file (context : nat) (answer : status * UploadResponse) (c : file_calls) :
    outcome UploadResponse * file_calls :=
  match call_begin context c with
  | (Throw e, c) => (Throw e, c)
  | (Ok _, c) => call_end "File upload RPC: " context answer c
  end.
Definition execute_download_file (context : nat) (answer : status * DownloadResponse) (c : file_calls) :
    outcome DownloadResponse * file_calls :=
  match call_begin context c with
  | (Throw e, c) => (Throw e, c)
  | (Ok _, c) => call_end "File download RPC: " context answer c
  end.

Section client.
Context {SEM : Semaphore} `{!Exclusive} `{!Sha256} (root : string) (alignment : nat).

(** ** What the File service answers

    [rpc_upload q d answer d']: a call with the request [q]. The queue may refuse
    the operation; the driver may stop; gRPC may fail, before or after the File
    service stored the chunk; the File service may reject the request; or it
    stores the chunk and answers. *)

Inductive rpc_upload (q : UploadRequest) (d : disk) : outcome UploadResponse → disk → Prop :=
  | rpc_refused e : rpc_upload q d (Throw e) d
  | rpc_failed context st r c d' : is_ok st = false → rtc (storage_step root alignment) d d' →
      rpc_upload q d (execute_upload_file context (st, r) c).1 d'
  | rpc_rejected context st output r c : is_ok st = false →
      FileService.execute (upload_request q) (Ok (st, output)) = (st, upload_response r) →
      rpc_upload q d (execute_upload_file context (st, r) c).1 d
  | rpc_invalid context stored st r c : valid_upload q = false →
      FileService.execute (upload_request q) stored = (st, upload_response r) →
      rpc_upload q d (execute_upload_file context (st, r) c).1 d
  | rpc_stored context i k s stored d' s' st r c : valid_upload q = true → tk_request k = upload_request q →
      store_end root alignment i k d s = (stored, d', s') →
      FileService.execute (upload_request q) stored = (st, upload_response r) →
      rpc_upload q d (execute_upload_file context (st, r) c).1 d'.

(** ** A run and the storage

    [stored_by t d d']: the observations of a run, while the disk goes from [d]
    to [d']. *)

Inductive stored_by : list obs → disk → disk → Prop :=
  | by_none d : stored_by [] d d
  | by_others t d d1 d' : storage_step root alignment d d1 → stored_by t d1 d' → stored_by t d d'
  | by_upload q answer t d d1 d' : rpc_upload q d answer d1 → stored_by t d1 d' →
      stored_by (Obs (Io (upload_file q)) answer :: t) d d'
  | by_event {R} (e : event R) answer t d d' :
      (match e with Io (upload_file _) => False | _ => True end) → stored_by t d d' →
      stored_by (Obs e answer :: t) d d'.
End client.

(** ** What is stored *)

Section stored.
Context {SEM : Semaphore} `{!Exclusive} `{!Sha256} (root : string) (alignment : nat).

(** The object of the user has these bytes, of this size and digest. *)
Definition object_stored (uid : Z) (id : string) (size : Z) (digest : string) (d : disk) : Prop :=
  safe_id id = true ∧ ∃ b, d_files d !! object_path root uid id = Some b ∧ Z.of_nat (length b) = size ∧ SHA256 b = digest.

Lemma object_stored_later uid id size digest d d' :
  rtc (storage_step root alignment) d d' → object_stored uid id size digest d → object_stored uid id size digest d'.
Proof.
  intros Hr (Hid & b & Hb & Hs). split; [done|]. exists b. split; [|done].
  by eapply objects_persist.
Qed.

(** ** The driver's answer *)

Lemma execute_upload_Ok context st r c x :
  (execute_upload_file context (st, r) c).1 = Ok x → is_ok st = true ∧ x = r.
Proof.
  unfold execute_upload_file, call_begin, call_end. destruct (fc_stopping c); [done|]. simpl. destruct (is_ok st); [|done].
  by intros [= ->].
Qed.

Lemma stored_success q d r :
  valid_upload q = true → (upload root alignment q d).1 = Ok r → us_status r = SUCCESS →
  object_stored (uq_user_id q) (ff_file_id (upload_file_of q)) (ff_file_size (upload_file_of q))
    (ff_sha256 (upload_file_of q)) (upload root alignment q d).2.
Proof.
  intros Hv Hr Hs. destruct (valid_upload_file q Hv) as [Hid Hsize]. split; [done|].
  destruct d as [F fs]. pose proof (triple_upload root alignment F q fs) as Hu.
  destruct (upload _ _ _ _) as [r' d']. simpl in *. subst r'. destruct Hu as [_ Hu]. destruct (Hu Hs) as (b & Hb & Hl & Hd).
  exists b. split_and!; [done| |done]. rewrite Hl. apply u64_id. assert (max_file_size < two64)%Z by done. lia.
Qed.

(** SUCCESS means that the object is there. *)
Lemma rpc_success q d r d' :
  rpc_upload root alignment q d (Ok r) d' → us_status r = SUCCESS →
  object_stored (uq_user_id q) (ff_file_id (upload_file_of q)) (ff_file_size (upload_file_of q))
    (ff_sha256 (upload_file_of q)) d'.
Proof.
  remember (Ok r) as answer eqn:E. intros Hc Hs. destruct Hc as [e|context st r' c d' Hst _|context st output r' c Hst _|
    context stored st r' c Hv He|context i k s stored d' s' st r' c Hv Hk Hend He]; [done|..];
    apply execute_upload_Ok in E as [Hok ->]; try congruence.
  - unfold FileService.execute in He. simpl in He. rewrite Hv in He. simpl in He. by injection He as _ <-.
  - unfold store_end in Hend. rewrite Hk in Hend. simpl in Hend. rewrite bind_eq in Hend.
    pose proof (stored_success q d) as Hup. destruct (upload root alignment q d) as [[u|e] d1]; simpl in *.
    + injection Hend as <- <- _. unfold FileService.execute in He. simpl in He. rewrite Hv in He. simpl in He.
      injection He as _ <-. by eapply Hup.
    + injection Hend as <- <- _. unfold FileService.execute in He. simpl in He. rewrite Hv in He. simpl in He.
      by injection He as <- _.
Qed.

Lemma rpc_steps q d answer d' : rpc_upload root alignment q d answer d' → rtc (storage_step root alignment) d d'.
Proof.
  destruct 1 as [e|context st r c d' Hst Hr| | |context i k s stored d' s' st r' c Hv Hk Hend He]; try done.
  apply rtc_once. unfold store_end in Hend. pose proof (dispatch_step root alignment (upload_request q) d Hv) as Hd.
  rewrite Hk in Hend. destruct (dispatch _ _ _ _) as [x d1]. by injection Hend as _ <- _.
Qed.
Lemma stored_by_steps t d d' : stored_by root alignment t d d' → rtc (storage_step root alignment) d d'.
Proof.
  induction 1 as [| |q answer t d d1 d' Hc|]; [done|by eapply rtc_l| |done]. etrans; [by eapply rpc_steps|done].
Qed.

(** ** Uploads in a run *)

Definition upload_seen (x : obs) : option (UploadRequest * outcome UploadResponse) :=
  match x with
  | Obs e answer =>
      match e in event R return outcome R → option (UploadRequest * outcome UploadResponse) with
      | Io op =>
          match op in operation R return outcome R → option (UploadRequest * outcome UploadResponse) with
          | upload_file q => λ answer, Some (q, answer)
          | _ => λ _, None
          end
      | _ => λ _, None
      end answer
  end.

(** An upload of the file that was answered with SUCCESS *)
Definition uploaded (uid : Z) (id : string) (size : Z) (digest : string) (t : list obs) : Prop :=
  ∃ q r, (q, Ok r) ∈ omap upload_seen t ∧ us_status r = SUCCESS ∧ uq_user_id q = uid ∧
    ff_file_id (upload_file_of q) = id ∧ ff_file_size (upload_file_of q) = size ∧ ff_sha256 (upload_file_of q) = digest.

Lemma stored_uploaded uid id size digest t d d' :
  stored_by root alignment t d d' → uploaded uid id size digest t → object_stored uid id size digest d'.
Proof.
  induction 1 as [d|t d d1 d' _ _ IH|q answer t d d1 d' Hc Ht IH|R e answer t d d' He _ IH];
    intros (q0 & r & Hin & Hs & E); [by apply elem_of_nil in Hin|apply IH; by exists q0, r| |].
  - simpl in Hin. apply elem_of_cons in Hin as [Eq|Hin]; [|apply IH; by exists q0, r].
    injection Eq as -> <-. destruct E as (<- & <- & <- & <-).
    eapply object_stored_later; [by eapply stored_by_steps|]. by eapply rpc_success.
  - apply IH. exists q0, r. split; [|done]. simpl in Hin. destruct e as [? []| | | |]; done.
Qed.

Lemma stored_by_app t1 t2 d d' :
  stored_by root alignment (t1 ++ t2) d d' →
  ∃ d1, stored_by root alignment t1 d d1 ∧ stored_by root alignment t2 d1 d'.
Proof.
  remember (t1 ++ t2) as t eqn:E. intros Hs. revert t1 E.
  induction Hs as [d|t d d1 d' Hst Hs IH|q answer t d d1 d' Hc Hs IH|R e answer t d d' He Hs IH]; intros t1 E.
  - symmetry in E. apply app_eq_nil in E as [-> ->]. exists d. split; apply by_none.
  - destruct (IH _ E) as (d2 & H1 & H2). exists d2. split; [by eapply by_others|done].
  - destruct t1 as [|x t1]; simpl in E; [subst; exists d; split; [apply by_none|by eapply by_upload]|].
    injection E as <- E. destruct (IH _ E) as (d2 & H1 & H2). exists d2. split; [by eapply by_upload|done].
  - destruct t1 as [|x t1]; simpl in E; [subst; exists d; split; [apply by_none|by eapply by_event]|].
    injection E as <- E. destruct (IH _ E) as (d2 & H1 & H2). exists d2. split; [by eapply by_event|done].
Qed.

(** ** The handlers *)

Context `{!ProtobufCodec Packet} `{!ProtobufCodec SessionLease}.

(** A record of a ready file follows the upload. *)
Definition ready_ok (past : list obs) (R : Type) (e : event R) : Prop :=
  match e with
  | Io (sql (upsert_ready_file f _ _)) => uploaded (for_ownerUid f) (for_fileId f) (for_fileSize f) (for_sha256 f) past
  | _ => True
  end.

Lemma uploaded_later uid id size digest t t' :
  uploaded uid id size digest t → uploaded uid id size digest (t ++ t').
Proof. intros (q & r & Hin & Hr). exists q, r. split; [|done]. rewrite omap_app. set_solver. Qed.

Lemma save_object_ready past uid f rsp :
  uploaded uid (fi_file_id f) (fi_file_size f) (fi_sha256 f) past → guarded ready_ok past (save_object uid f rsp).
Proof.
  intros Hu. simpl. split; [done|]. intros [now|e]; [|done]. simpl. split; [done|]. intros [expiry|e]; [|done]. simpl.
  split; [by do 2 apply uploaded_later|]. by intros [].
Qed.

Lemma upload_ready past context : guarded ready_ok past (files_upload context).
Proof.
  unfold files_upload. destruct (upload_of _) as [[[[[kind [f|]] offset] data] complete]|]; [|done|done].
  destruct (_ <=? 0)%Z; [done|]. apply guarded_bind; [|done]. unfold upload_chunk, io. simpl.
  split; [done|]. intros [r|e]; [|done]. simpl. destruct (bool_decide (us_status r ≠ FAILED)); [|done]. simpl.
  split; [done|]. intros [now|e]; [|done]. simpl. split; [done|]. intros [progress|e]; [|done]. simpl.
  destruct (negb _); [done|]. destruct (bool_decide (us_status r = SUCCESS)) eqn:Es; [|done].
  destruct complete; [|done]. simpl andb. apply (save_object_ready _ (actor_of context)).
  do 2 apply uploaded_later. exists (MkUpload (Some (rpc_file f)) (actor_of context) offset data true), r.
  rewrite omap_app. split; [set_solver|]. by apply bool_decide_eq_true in Es.
Qed.

Lemma handle_ready h past context : guarded ready_ok past (handle h context).
Proof.
  destruct h; try apply upload_ready; apply guarded_always; unfold handle, send_with, acknowledge_request, pull_messages,
    accept_text, accept_group_text, accept_file, accept_group_file, acknowledge, pull_conversation, friends_apply,
    friends_reply, store_reply, store_application, pull_friends, pull_applications, groups_create, groups_apply,
    groups_reply, groups_pull, groups_quit, groups_kick, files_download, io; cbv zeta; ServiceTheorems.walk; done.
Qed.

Lemma process_ready past context h : guarded ready_ok past (process context h).
Proof.
  unfold process. apply guarded_bind.
  - apply guarded_catch; [|done]. unfold authorize_and_handle. simpl. split; [done|]. intros [lease|e]; [|done].
    destruct (negb _); [done|]. apply handle_ready.
  - intros t [rsp c'] _. apply guarded_always, always_bind; [|intros []; destruct (_ =? _)%Z; [|done]].
    + unfold reply. simpl. split; [done|]. by intros [].
    + apply always_catch; [|done]. eapply always_mono; [|apply deliver_events].
      intros R e He past'. destruct e as [R op| | | |]; try done. by destruct op.
Qed.

(** The answer of an upload that is complete *)
Lemma upload_complete context t rsp c kind n :
  runs (files_upload context) t (Ok (rsp, c)) → pk_payload rsp = Handlers.upload_response kind n true →
  ∃ kind' f offset data, upload_of (rc_packet context) = Some (kind', Some f, offset, data, true) ∧
    uploaded (actor_of context) (fi_file_id f) (fi_file_size f) (fi_sha256 f) t.
Proof.
  intros Hr Hp. unfold files_upload in Hr.
  destruct (upload_of _) as [[[[[kind' [f|]] offset] data] complete]|] eqn:Eu.
  2: destruct Hr as [_ [= -> _]]; simpl in Hp; by destruct kind, kind'.
  2: destruct Hr as [_ [= -> _]]; simpl in Hp; by destruct kind.
  destruct (_ <=? 0)%Z; [destruct Hr as [_ [= -> _]]; simpl in Hp; by destruct kind, kind'|].
  apply runs_bind in Hr as [(t1 & t2 & rsp' & -> & Hr & [_ [= -> ->]])|(e & _ & [=])].
  exists kind', f, offset, data. unfold upload_chunk, io in Hr. simpl in Hr. destruct Hr as (answer & t' & -> & Hr).
  destruct answer as [r|e]; simpl in Hr; [|by destruct Hr].
  set (done_ := bool_decide (us_status r = SUCCESS) && complete) in Hr.
  apply (ensures_runs (λ p, ∃ m c, pk_payload p = Handlers.upload_response kind' m c ∧ (c = true → done_ = true))) in Hr
    as (m & [] & Hm & Hd).
  - specialize (Hd eq_refl). apply andb_true_iff in Hd as [Es ->]. split; [done|]. eexists _, r.
    split; [apply elem_of_cons; by left|]. by apply bool_decide_eq_true in Es.
  - rewrite Hm in Hp. by destruct kind, kind'.
  - clearbody done_. destruct (bool_decide (us_status r ≠ FAILED)); simpl; [|by exists 0%Z, false]. intros [now|e]; [|done]. intros [progress|e]; [|done]. simpl.
    destruct (negb _); simpl; [by eexists _, done_|]. destruct done_ eqn:Ed; simpl; [|by eexists _, false].
    intros [?|?]; [|done]. intros [?|?]; [|done]. intros [?|?]; [|done]. simpl. destruct (negb _); by eexists _, true.
Qed.

(** C12: what is called stored is stored. Whatever the driver, gRPC, the database
    and other requests do while a request of the Message service runs: when it
    records a file as ready, the File service already has that user's object
    under that id, its bytes have the recorded size and SHA-256, and it keeps
    them; and when an upload is answered as complete, the same holds of the file
    that the request describes. *)
Theorem ready_files_are_stored context h t r d d' :
  stored_by root alignment t d d' →
  (runs (process context h) t r →
   ∀ t1 f now expiry answer t2, t = t1 ++ Obs (Io (sql (upsert_ready_file f now expiry))) answer :: t2 →
   ∃ d1, stored_by root alignment t1 d d1 ∧
     object_stored (for_ownerUid f) (for_fileId f) (for_fileSize f) (for_sha256 f) d1 ∧
     object_stored (for_ownerUid f) (for_fileId f) (for_fileSize f) (for_sha256 f) d') ∧
  (∀ rsp c kind n, runs (files_upload context) t (Ok (rsp, c)) → pk_payload rsp = Handlers.upload_response kind n true →
   ∃ kind' f offset data, upload_of (rc_packet context) = Some (kind', Some f, offset, data, true) ∧
     object_stored (actor_of context) (fi_file_id f) (fi_file_size f) (fi_sha256 f) d').
Proof.
  intros Hs. split.
  - intros Hr t1 f now expiry answer t2 ->. apply (guarded_runs ready_ok []) in Hr; [|apply process_ready].
    apply stored_by_app in Hs as (d1 & H1 & H2). exists d1. pose proof (stored_uploaded _ _ _ _ _ _ _ H1 Hr) as Ho.
    split_and!; [done|done|]. eapply object_stored_later; [by eapply stored_by_steps|done].
  - intros rsp c kind n Hr Hp. destruct (upload_complete _ _ _ _ _ _ Hr Hp) as (kind' & f & offset & data & E & Hu).
    exists kind', f, offset, data. split; [done|]. by eapply stored_uploaded.
Qed.
End stored.
