(* ===== verification/FileClientRuns.v ===== *)
(** * A file from the client to the disk

    User 1001 uploads a file of seven bytes in one chunk; and what becomes of two
    files whose ids differ in the case of a letter only. *)

From S2P Require Import Prelude Codec Schema Records FileTypes Ids Program Process Protocol Handlers Seastar Budget Grpc.
From S2P Require Import MessageService MysqlStore StoreInvariant StoreProps Demo ServiceTheorems ServiceRuns.
From S2P Require Import FileStorage FileTheorems FileService FileServiceTheorems FileClient.
Import db.

Section runs.
#[local] Existing Instance counting_semaphore.
#[local] Existing Instance fair_exclusive.
#[local] Existing Instance prefix_digest.
#[local] Existing Instance demo_packet_codec.
#[local] Existing Instance demo_session_codec.

Definition demo_info : FileInfo := MkFileInfo demo_id "note.txt" "text/plain" 7 (SHA256 (bytes_of "abcdefg")) false.
Definition demo_upload_context : request_context :=
  MkContext demo_stream demo_command
    (MkPacket None (file_upload_request (MkFileUploadRequest (Some demo_info) 0 "abcdefg" true))) [].
Definition demo_ready : FileObjectRecord :=
  MkFileObject demo_id 1001 "note.txt" "text/plain" 7 (SHA256 (bytes_of "abcdefg")) false.

Definition demo_task : task := MkTask (upload_request demo_last) 0%Z 0 true.
Definition demo_disk : disk := (upload "/data/" 4 demo_last (MkDisk ∅ [])).2.

Definition demo_uploading : list obs :=
  [ Obs (Io (get_session_op 1001 "laptop")) (Ok demo_session);
    Obs (Io (upload_file demo_last)) (Ok (file.MkUploaded 1001 file.SUCCESS 7 ""));
    Obs Now (Ok "t");
    Obs (Io (Process.sql (save_file_upload_progress 1001 demo_id 7 true "t"))) (Ok 0%Z);
    Obs Now (Ok "t");
    Obs Expiry (Ok "u") ].
Definition demo_recorded : list obs :=
  [ Obs (Io (Process.sql (upsert_ready_file demo_ready "t" "u"))) (Ok 0%Z); Obs (Reply demo_stream demo_result) (Ok true) ].

Lemma demo_upload_runs :
  runs (process demo_upload_context h_upload) (demo_uploading ++ demo_recorded) (Ok tt).
Proof. vm_compute. repeat (eexists _, _; split; [reflexivity|]). split; reflexivity. Qed.

Lemma demo_upload_stored :
  stored_by "/data/" 4 (demo_uploading ++ demo_recorded) (MkDisk ∅ []) demo_disk.
Proof.
  apply by_event; [exact I|]. eapply by_upload; [|repeat (apply by_event; [exact I|]); apply by_none].
  apply (rpc_stored _ _ demo_last _ 1 1 demo_task (shard_start 2 100)
    (Ok (status_ok, upload_response (file.MkUploaded 1001 file.SUCCESS 7 ""))) demo_disk
    (store_end "/data/" 4 1 demo_task (MkDisk ∅ []) (shard_start 2 100)).2 status_ok
    (file.MkUploaded 1001 file.SUCCESS 7 "") (MkFileCalls false ∅)); vm_compute; reflexivity.
Qed.

Lemma ready_files_are_stored_witness :
  ∃ d1, stored_by "/data/" 4 demo_uploading (MkDisk ∅ []) d1 ∧
    object_stored "/data/" 1001 demo_id 7 (SHA256 (bytes_of "abcdefg")) d1 ∧
    object_stored "/data/" 1001 demo_id 7 (SHA256 (bytes_of "abcdefg")) demo_disk.
Proof.
  exact (proj1 (ready_files_are_stored "/data/" 4 demo_upload_context h_upload (demo_uploading ++ demo_recorded) (Ok tt)
    (MkDisk ∅ []) demo_disk demo_upload_stored) demo_upload_runs demo_uploading demo_ready "t" "u" (Ok 0%Z) _ eq_refl).
Defined.
End runs.

(** ** Ids that differ in case

    The collation of fileId, utf8mb4_unicode_ci, ignores case; the paths of the
    File service do not. *)
Section collation.
#[local] Existing Instance prefix_digest.

Definition fold_case (c : Ascii.ascii) : Ascii.ascii :=
  let n := Ascii.N_of_ascii c in if ((65 <=? n) && (n <=? 90))%N then Ascii.ascii_of_N (n + 32) else c.
Definition folding_mysql : MysqlServer :=
  {| weight := λ s, text_of (fold_case <$> bytes_of s);
     diagnostic := λ e, match e with DuplicateEntry => "Duplicate entry" | OutOfRange => "Out of range value" end |}.
#[local] Existing Instance folding_mysql.
#[local] Existing Instance demo_hash.

Definition demo_upper : string := "123E4567-E89B-12D3-A456-426614174000".
Definition demo_other : FileObjectRecord :=
  MkFileObject demo_upper 1001 "other.txt" "text/plain" 3 (SHA256 (bytes_of "xyz")) false.
Definition demo_server : server :=
  (driver_execute (upsert_ready_file demo_other "t2" "u2")
     (driver_execute (upsert_ready_file demo_ready "t" "u") demo_start).2).2.

(** Both ids are valid and have objects of their own, but the record of the
    second file replaces that of the first: under the first id the database has
    the size and the digest of the second file. *)
Example case_variants_share_a_record :
  safe_id demo_id = true ∧ safe_id demo_upper = true ∧
  object_path "/data/" 1001 demo_id ≠ object_path "/data/" 1001 demo_upper ∧
  map_to_list (fileObjects (committed demo_server)) =
    [(demo_id, MkFileRow demo_id 1001 "other.txt" "text/plain" 3 (SHA256 (bytes_of "xyz")) 1 "t" "u2")].
Proof. split_and!; [vm_compute; reflexivity|vm_compute; reflexivity|vm_compute; discriminate|vm_compute; reflexivity]. Qed.
End collation.
